(* ===== verification/_CoqProject ===== *)
-Q . S2P
Prelude.v
Algorithm.v
Bitset.v
Block.v
Float32.v
Types.v
PmState.v
PmRefresh.v
PmAlloc.v
PmGc.v
PmWrite.v
PageMapping.v
PmInv.v
PmRefreshProof.v
PmAllocProof.v
PmWriteProof.v
PmGcProof.v
PmSelectProof.v
PmSpec.v
PmProgress.v
PmInitProof.v
PmExample.v
PmTheorems.v
PmWitness.v
Engine.v
PalAddr.v
PalAddrProof.v
PalTheorems.v
Latency.v
FreeSlots.v
FreeSlotsProof.v
Pal2.v
Pal2Proof.v
Pal2Theorems.v
Cache.v
CacheProof.v
CacheWrite.v
CacheRead.v
CacheTheorems.v
Icl.v
IclProof.v
Hil.v
Subsystem.v
SubsystemTheorems.v
HilTheorems.v
Fifo.v
FifoProof.v
FifoSteps.v
FifoInv.v
FifoTheorems.v
Dma.v
DmaProof.v
DmaTheorems.v
DmaWitness.v
NvmeQueue.v
Controller.v
Sil.v
RingProof.v
CqRing.v
SqRing.v
SilTheorems.v
CollectProof.v
CollectTheorems.v
CompletionTheorems.v
QueueTheorems.v
BringUp.v
ControllerWitness.v
Identify.v
Command.v
CommandTheorems.v
Cpu.v
CpuTheorems.v
Bil.v
BilTheorems.v
ReqGen.v
ReqGenTheorems.v
Trace.v
TraceTheorems.v
None.v
Dram.v
