(* ===== verification/Prelude.v ===== *)
(** * A verification development for the LGR flash simulator (SimpleSSD)

    The program simulates a solid-state drive.  A host controller receives
    commands on logical blocks; the host interface layer queues them; a cache in
    front of the flash serves them page by page; the flash translation layer (FTL)
    maps logical pages to blocks, collects garbage and refreshes data; the physical
    layer (PAL) schedules reads, writes and erases on channels and dies.  An event
    engine advances the simulated time.  Every call passes a tick by reference and
    raises it by what the operation costs.

    ** Conventions

    An unsigned integer is a [Z] with its wrap-around written out ([u8] to [u64]
    below).  Code that can fail returns [res]: a panic with its message, an
    exception of [.at()], undefined behaviour, or a loop that has not left within
    its fuel.  Code with state is in the monad [M S A := S -> res (A * S)]; the
    logic [wpe E m Q s] says that [m] started in [s] ends in [Q] or fails with an
    error in [E] ([noerr]: it does not fail; [anyerr]: if it returns).  Names follow
    the source; [fooProof.v], [fooInv.v] and the like hold lemmas about [foo.v],
    [fooTheorems.v] the properties, with their witnesses.

    ** Parts, from the bottom up

    - [Algorithm.v], [Bitset.v], [Float32.v], [Types.v]: util/algorithm.hh,
      util/bitset, the [float] arithmetic the FTL uses, and the requests and labels of
      util/def.hh and cpu/def.hh.  [Bitset] is its byte array; the theorems relate it
      to an array of booleans, [count] with its parallel sum included.
    - [Block.v]: ftl/common/block, a physical block in both of its layouts (valid
      bits, erased bits, page numbers, write pointers): invariant, outcomes of a
      write, page queries.
    - [PmState.v], [PmRefresh.v], [PmAlloc.v], [PmGc.v], [PmWrite.v],
      [PageMapping.v]: ftl/page_mapping.cc and ftl/ftl.cc.  The state is the record
      [t] of [PmState.v]: mapping table, blocks in use and free ([Core]), open blocks,
      refresh queues and counters; the physical layer, DRAM, clock, error model and random numbers are the
      interface [Device] of [Types.v].  [PmSpec.v] states what the FTL promises: a map
      from logical pages to the units that are mapped.  [host_ops_refine] shows that
      any run of reads, writes, trims, formats and refresh events either follows it or
      stops at one of two named panics; [mapping_sound] that a mapped unit is where the
      table says; [write_succeeds] and [gc_preserves] when nothing can fail;
      [overwriting_panics] and [write_after_format_panics] that small devices do reach
      the panics.  The rest of the group covers victim selection, allocation, erasure,
      the refresh queues and construction.  These proofs cover the plain mode; the
      hot/cold modes are modelled, with proofs for allocation and refresh only.
    - [PalAddr.v]: the geometry of pal/pal.cc, the allocation strings of
      pal/config.cc, the addresses of pal/pal_old.cc and the page numbers of
      pal/old/PAL2.cc.  The units of all super pages are different pages of the array;
      numbering and its inverse fit.
    - [Latency.v], [FreeSlots.v], [Pal2.v]: flash timing, pal/old/Latency*.cc and
      pal/old/PAL2.cc.  A channel or die keeps the times at which it is free
      ([Resource]); a command takes time for a transfer, the memory operation and a
      second transfer.  [command_scheduled] states the schedule of one command,
      [never_booked_twice] that over any run no two commands share a channel or a die.
    - [Cache.v]: icl/generic_cache.cc, lines in sets of ways.  The FTL and the DRAM
      are the interface [IclBelow], whose laws ([IclBelowLaws]) log the calls of the
      FTL.  [written_data_is_safe] shows that no written unit is lost by writes and
      flushes; [read_fills_one_line] that a read miss can lose one.
    - [Icl.v]: icl/icl.cc over the interface [AbstractCache], with the cache as an
      instance.  [Hil.v]: hil/hil.cc, a step relation of arriving requests, jobs of the
      CPU, passing time and the completion event; [requests_complete_once].
    - [Subsystem.v]: the namespaces of hil/nvme/subsystem.cc and the conversion of
      blocks to pages; [commands_reach_their_bytes] goes from a command on blocks
      through [Hil.v] and [Icl.v] to the requests of the cache, which stay in the
      namespace exactly when the blocks do.
    - [Engine.v]: sim/engine.cc, the list of pending events, with event functions that
      are arbitrary programs over the interface of the simulator.
    - [Fifo.v]: util/fifo.cc, the queue between a controller and the bus.  Requests are
      cut into units, which are put in and transferred in overlap; functions are called
      when their transfer is through, and may make requests while they run (an argument
      of the operation that calls them).  [fifo_serves_in_order], [fifo_runs_dry].
    - [Dma.v]: hil/nvme/dma.cc, the data pointers of a command, a PRP list or a scatter
      gather list, with the host memory as a function from addresses to bytes.
      [requests_move_slice] and [written_data_is_read_back] for the data,
      [prp_list_gets_ready] for the collection of the lists; three theorems state where
      a list is misread or a request never completes ([second_page_taken_for_list],
      [chained_list_loses_page], [request_completes_unless_it_ends_inside]).
    - [NvmeQueue.v]: hil/nvme/queue.cc, the rings of commands and completions with
      their entries as bytes.  [Controller.v]: hil/nvme/controller.cc, registers,
      doorbells, the work loop with both arbitrations, completions and coalesced
      interrupts; [Env] holds what the controller has asked for, and each answer is an
      operation.  [CollectProof.v] counts what a loop fetches:
      [round_robin_drains] when the pointers are inside the rings, [bad_tail_hangs] when
      one is not, [low_priority_starves].
      [CompletionTheorems.v]: [completions_posted_in_order],
      [aggregated_interrupt_lost].  [QueueTheorems.v]: deletion of queues and the
      coalescing time.  [ControllerWitness.v] runs all of them on an example.
    - [Command.v]: the commands of hil/nvme/subsystem.cc and namespace.cc, with the
      identify data of [Identify.v].  A command that waits has a context and tasks, and
      an operation ends any of them; what it uses of the controller is the class
      [CommandController], of which [Controller.v] is the instance.  [commands_served]
      refines commands in flight together to independent ones ([Stage]) and states that
      all end with their answer (a trim has one range there); [commands_accounted] counts
      what each command adds when it is taken, admin commands and refused creations
      included; [second_range_undefined], [refused_creation_unanswered] and
      [blocks_wrap] state where an answer is lost or wrong.
    - [Sil.v]: sil/nvme, the driver that plays the host: its rings ([Queue]), its page
      lists ([PRP]), the bring-up, the commands it makes and the completions it polls.
      [CqRing.v] and [SqRing.v] put driver, transfers and controller around one ring
      each and relate them to an abstract queue: [completions_reach_driver],
      [commands_reach_device], and [overrun_loses_commands] when the driver does not
      wait.  [driver_lists_understood] joins the driver's page lists to [Dma.v], up to
      one list page;
      [BringUp.v] runs the driver's [init] against a new controller and ends where
      the rings begin ([driver_brings_up]).
    - [Cpu.v]: cpu/cpu.cc, the cores on which the firmware's functions run, with the
      table of instruction counts.  [CpuTheorems.v]: the cores call the functions of
      their jobs at the ticks a reference schedule gives ([jobs_run_on_schedule]), a
      job or a latency goes to the core with the least work ([execute_picks_core]), and
      handing over a function of [Controller.v] never panics ([controller_labels_known]).
    - [Dram.v]: dram/simple.cc, one access after another with a periodic refresh; over
      any accesses it is a server with one queue ([dram_serves_in_order]).
    - [Bil.v]: bil/entry.cc with the driver below it and a generator above it; a
      generator is a class ([IOGenerator]), [BilTheorems.v] states what it must do
      ([IOGeneratorLaws]) and proves the statistics for all of them
      ([latencies_recorded]).  [ReqGen.v] and [Trace.v] are the two generators of igl:
      [generator_ends_once], [requests_in_range], and [trace_replayed] against the list
      of requests a file asks for.  [options_ok] and [trace_ok] are what the options and
      the file must be like; the generators stop, repeat or panic without it.  [None.v] is sil/none, the driver that hands block
      requests to [Hil.v].

    ** How they meet

    Each layer calls the one below through a class: [Subsystem.v] makes the requests
    of [Hil.v], which calls [Icl.v], which calls an [AbstractCache]; [Cache.v] calls
    [IclBelow]; [PageMapping.v] calls [Device]; [Pal2.v] takes the addresses of
    [PalAddr.v] and the latencies of [Latency.v].  The laws of an interface are
    hypotheses of the client and lemmas about the instance where the source has one
    ([generic_cache_laws]).  The transfers of [Dma.v] are the
    requests of [Fifo.v], and those of [Controller.v] move the rings of [Sil.v], which
    share the host memory.  The completion event of [Hil.v] behaves as [Engine.v] proves of its events: it moves when it is scheduled again and never fires before
    the clock.

    ** Fuel and bounds

    Loops over ranges and lists are folds.  A loop that need not end takes fuel and
    fails with [NoReturn] when it runs out: the random selection of victims
    ([random_fuel], a parameter; its theorem allows the failure, since the draws may
    repeat for ever), the rounds of the event loop ([loop], any number), and the two
    search loops of the flash schedule ([LOOP0], [LOOP1]), which get two rounds more
    than there are free slots and are shown to end in them.  The collection loops of
    [Controller.v] end with as much fuel as the fullest queue has entries; with a tail
    outside the ring no fuel is enough.  The page lists of the driver take a step for
    each page.  The address loops of [ReqGen.v] and [Trace.v] get as many rounds as the
    address contains the range, and the search for a line as many as the file has
    characters; the theorems show that they return.  The bounds on ticks in the
    theorems keep 64-bit sums from wrapping.

    ** Not modelled

    Statistics lists and debug output; tables of option names (the values are
    parameters); the sums of doubles in PALStatistics and the power models (lib/mcpat,
    DRAMPower); the error model's exponentials (an operation of [Device]); command
    decoders that only move fields between host memory and calls (SATA, UFS,
    open-channel commands); disk images; the wiring
    of the components by the main program; third-party code. *)

From stdpp Require Export base numbers list strings gmap option fin_maps.
From Stdlib Require Export ZArith Lia.
#[global] Open Scope Z_scope.

#[global] Arguments Z.eqb _ _ : simpl never.
#[global] Arguments Z.ltb _ _ : simpl never.
#[global] Arguments Z.leb _ _ : simpl never.

(** ** Machine words: an unsigned w-bit integer is a [Z] kept in [0, 2^w). *)

Definition u8 (x : Z) : Z := x mod 2 ^ 8.
Definition u16 (x : Z) : Z := x mod 2 ^ 16.
Definition u32 (x : Z) : Z := x mod 2 ^ 32.
Definition u64 (x : Z) : Z := x mod 2 ^ 64.

Definition is_u32 (x : Z) : Prop := 0 <= x < 2 ^ 32.
Definition is_u64 (x : Z) : Prop := 0 <= x < 2 ^ 64.

Lemma u32_small x : 0 <= x < 2 ^ 32 -> u32 x = x.
Proof. apply Z.mod_small. Qed.

Lemma u64_small x : 0 <= x < 2 ^ 64 -> u64 x = x.
Proof. apply Z.mod_small. Qed.

Lemma u32_range x : 0 <= u32 x < 2 ^ 32.
Proof. apply Z.mod_pos_bound; lia. Qed.

Lemma u64_range x : 0 <= u64 x < 2 ^ 64.
Proof. apply Z.mod_pos_bound; lia. Qed.

(** [x / y * y + x mod y] facts the shards of an index need. *)
Lemma div_mod_lt_mul a n m : 0 <= a < n * m -> 0 < m -> 0 <= a / m < n /\ 0 <= a mod m < m.
Proof.
  intros Ha Hm; split.
  - split; [apply Z.div_pos; lia | apply Z.div_lt_upper_bound; lia].
  - apply Z.mod_pos_bound; lia.
Qed.

(** ** Failing computations

    The code fails in four ways: it calls [panic], a container's [.at()]
    throws [std::out_of_range], it does something the language leaves
    undefined ([UB]: an access past an allocation, a dereferenced end
    iterator; [BadIterator]: the undefined decrement of [begin()]), or a loop
    whose exit is not guaranteed has not returned within its fuel. *)

Inductive err : Type :=
  | Panic (msg : string)
  | OutOfRange
  | UB
  | BadIterator
  | NoReturn.

Inductive res (A : Type) : Type :=
  | Ok (a : A)
  | Err (e : err).
Arguments Ok {A} a.
Arguments Err {A} e.

#[export] Instance err_eq_dec : EqDecision err.
Proof. solve_decision. Defined.

#[export] Instance res_ret : MRet res := @Ok.
#[export] Instance res_bind : MBind res :=
  fun A B f r => match r with Ok a => f a | Err e => Err e end.

Definition panic {A} (msg : string) : res A := Err (Panic msg).

(** [M S A]: a computation over a state [S]. *)
Definition M (S A : Type) : Type := S -> res (A * S).

#[export] Instance M_ret {S} : MRet (M S) := fun A a s => Ok (a, s).
#[export] Instance M_bind {S} : MBind (M S) :=
  fun A B f m s => match m s with Ok (a, s') => f a s' | Err e => Err e end.

Definition fail {S A} (e : err) : M S A := fun _ => Err e.
Definition mpanic {S A} (msg : string) : M S A := fail (Panic msg).
Definition get {S} : M S S := fun s => Ok (s, s).
Definition gets {S A} (f : S -> A) : M S A := fun s => Ok (f s, s).
Definition modify {S} (f : S -> S) : M S unit := fun s => Ok (tt, f s).
Definition lift {S A} (r : res A) : M S A :=
  fun s => match r with Ok a => Ok (a, s) | Err e => Err e end.

(** Running a computation on a part of the state. *)
Definition zoom {S T A} (view : S -> T) (put : T -> S -> S) (m : M T A) : M S A :=
  fun s => match m (view s) with
           | Ok (a, t) => Ok (a, put t s)
           | Err e => Err e
           end.

(** [foldM f l a]: the loop [for x in l: a = f(x, a)]. *)
Fixpoint foldM {Mo : Type -> Type} `{MRet Mo, MBind Mo} {A B : Type}
    (f : B -> A -> Mo A) (l : list B) (a : A) : Mo A :=
  match l with
  | [] => mret a
  | x :: l' => f x a ≫= fun a' => foldM f l' a'
  end.

(** [for (i = lo; i < hi; i++) a = body(i, a)]. *)
Definition for_range {Mo : Type -> Type} `{MRet Mo, MBind Mo} {A : Type}
    (lo hi : Z) (body : Z -> A -> Mo A) (a : A) : Mo A :=
  foldM body (seqZ lo (hi - lo)) a.

(** Loops that only act on the state. *)
Definition iterM {S B} (f : B -> M S unit) (l : list B) : M S unit :=
  foldM (fun x (_ : unit) => f x) l tt.

Definition for_do {S} (lo hi : Z) (body : Z -> M S unit) : M S unit :=
  for_range lo hi (fun i (_ : unit) => body i) tt.

Definition when {S} (b : bool) (m : M S unit) : M S unit :=
  if b then m else mret tt.

(** Running a program step by step. *)
Lemma bind_ok {S A B} (m : M S A) (f : A -> M S B) s a s' : m s = Ok (a, s') -> (m ≫= f) s = f a s'.
Proof. intros H. unfold mbind, M_bind. by rewrite H. Qed.

Lemma foldM_ok {S A B} (f : B -> A -> M S A) x l a s a' s' :
  f x a s = Ok (a', s') -> foldM f (x :: l) a s = foldM f l a' s'.
Proof. intros H. cbn [foldM]. by apply bind_ok. Qed.

Lemma modify_bind {S A} (f : S -> S) (k : unit -> M S A) s : (modify f ≫= k) s = k tt (f s).
Proof. done. Qed.
Lemma get_bind {S A} (k : S -> M S A) s : (get ≫= k) s = k s s.
Proof. done. Qed.
Lemma bind_bind {S A B C} (m : M S A) (f : A -> M S B) (g : B -> M S C) s : ((m ≫= f) ≫= g) s = (m ≫= fun a => f a ≫= g) s.
Proof. unfold mbind, M_bind. by destruct (m s) as [[a s']|e]. Qed.
Lemma ret_bind {S A B} (a : A) (k : A -> M S B) s : ((mret a : M S A) ≫= k) s = k a s.
Proof. done. Qed.

(** ** Arrays indexed by machine integers *)

Definition vget {A} (l : list A) (i : Z) : option A :=
  if i <? 0 then None else l !! Z.to_nat i.
Definition vset {A} (l : list A) (i : Z) (x : A) : list A :=
  if i <? 0 then l else <[Z.to_nat i := x]> l.
Definition vlen {A} (l : list A) : Z := Z.of_nat (length l).

(** [v.at(i)] throws, [v[i]] is undefined, when [i] is not an index. *)
Definition get_at {A} (l : list A) (i : Z) : res A :=
  match vget l i with Some x => Ok x | None => Err OutOfRange end.
Definition get_raw {A} (l : list A) (i : Z) : res A :=
  match vget l i with Some x => Ok x | None => Err UB end.
Definition set_at {A} (l : list A) (i : Z) (x : A) : res (list A) :=
  match vget l i with Some _ => Ok (vset l i x) | None => Err OutOfRange end.
Definition set_raw {A} (l : list A) (i : Z) (x : A) : res (list A) :=
  match vget l i with Some _ => Ok (vset l i x) | None => Err UB end.

Section Vectors.
  Context {A : Type}.
  Implicit Types (l : list A) (i j : Z) (x : A).

Lemma vget_Some_range l i x : vget l i = Some x -> 0 <= i < vlen l.
  Proof.
    unfold vget, vlen. destruct (Z.ltb_spec i 0); [done|].
    intros Hl%lookup_lt_Some. lia.
  Qed.

Lemma vget_is_Some l i : is_Some (vget l i) <-> 0 <= i < vlen l.
  Proof.
    unfold vget, vlen. destruct (Z.ltb_spec i 0).
    - split; [intros [? [=]] | lia].
    - rewrite lookup_lt_is_Some. lia.
  Qed.

Lemma vget_in_range l i : 0 <= i < vlen l -> exists x, vget l i = Some x.
  Proof. intros H. by apply vget_is_Some in H. Qed.

Lemma vget_None l i : vget l i = None <-> ~ 0 <= i < vlen l.
  Proof.
    rewrite <- vget_is_Some, <- eq_None_not_Some. done.
  Qed.

Lemma vlen_vset l i x : vlen (vset l i x) = vlen l.
  Proof. unfold vset, vlen. destruct (i <? 0); [done|]. by rewrite length_insert. Qed.

Lemma vget_vset_eq l i x : 0 <= i < vlen l -> vget (vset l i x) i = Some x.
  Proof.
    unfold vset, vget, vlen. intros H. destruct (Z.ltb_spec i 0); [lia|].
    apply list_lookup_insert_eq. lia.
  Qed.

Lemma vget_vset_ne l i j x : i <> j -> vget (vset l i x) j = vget l j.
  Proof.
    unfold vset, vget. intros H.
    destruct (Z.ltb_spec j 0), (Z.ltb_spec i 0); try done.
    apply list_lookup_insert_ne. lia.
  Qed.

Lemma vget_vset l i j x : 0 <= i < vlen l ->
    vget (vset l i x) j = if decide (i = j) then Some x else vget l j.
  Proof.
    intros H. case_decide; subst; [by apply vget_vset_eq | by apply vget_vset_ne].
  Qed.

Lemma vget_replicate n x i : 0 <= i < n -> vget (replicate (Z.to_nat n) x) i = Some x.
  Proof.
    intros H. unfold vget. destruct (Z.ltb_spec i 0); [lia|].
    apply lookup_replicate. split; [done | lia].
  Qed.

Lemma vlen_replicate n x : 0 <= n -> vlen (replicate (Z.to_nat n) x) = n.
  Proof. intros H. unfold vlen. rewrite length_replicate. lia. Qed.

Lemma vget_app_last l x : vget (l ++ [x]) (vlen l) = Some x.
  Proof.
    unfold vget, vlen. destruct (Z.ltb_spec (Z.of_nat (length l)) 0); [lia|].
    rewrite Nat2Z.id. apply list_lookup_middle. done.
  Qed.

Lemma vlist_eq l l' : vlen l = vlen l' ->
    (forall i, 0 <= i < vlen l -> vget l i = vget l' i) -> l = l'.
  Proof.
    unfold vlen. intros Hlen Hget. apply list_eq. intros n.
    destruct (decide (n < length l)%nat) as [Hn|Hn].
    - specialize (Hget (Z.of_nat n) ltac:(lia)). unfold vget in Hget.
      destruct (Z.ltb_spec (Z.of_nat n) 0); [lia|]. by rewrite Nat2Z.id in Hget.
    - rewrite !lookup_ge_None_2 by lia. done.
  Qed.

Lemma vget_elem_of l i x : vget l i = Some x -> x ∈ l.
  Proof.
    unfold vget. destruct (i <? 0); [done|]. apply list_elem_of_lookup_2.
  Qed.

Lemma elem_of_vget l x : x ∈ l -> exists i, 0 <= i < vlen l /\ vget l i = Some x.
  Proof.
    intros [n Hn]%list_elem_of_lookup_1. exists (Z.of_nat n).
    pose proof (lookup_lt_Some _ _ _ Hn). unfold vlen, vget.
    destruct (Z.ltb_spec (Z.of_nat n) 0); [lia|]. rewrite Nat2Z.id. split; [lia | done].
  Qed.

Lemma vset_lookup l i x n : vset l i x !! n =
    if decide (0 <= i /\ n = Z.to_nat i /\ (n < length l)%nat) then Some x else l !! n.
  Proof.
    unfold vset. destruct (Z.ltb_spec i 0); [by rewrite decide_False by lia|].
    destruct (decide (n = Z.to_nat i)) as [->|Hne].
    - destruct (decide (Z.to_nat i < length l)%nat).
      + rewrite list_lookup_insert_eq by done. by rewrite decide_True by lia.
      + rewrite list_insert_ge by lia. by rewrite decide_False by lia.
    - rewrite list_lookup_insert_ne by done. by rewrite decide_False by lia.
  Qed.

Lemma vset_NoDup l i x : NoDup l -> x ∉ l -> NoDup (vset l i x).
  Proof.
    intros HND Hx. apply NoDup_alt. intros n m y. rewrite !vset_lookup. intros Hn Hm.
    destruct (decide _), (decide _); try lia; simplify_eq.
    - by apply list_elem_of_lookup_2 in Hm.
    - by apply list_elem_of_lookup_2 in Hn.
    - by eapply NoDup_lookup.
  Qed.

Lemma vget_fmap {B} (f : A -> B) l i : vget (f <$> l) i = f <$> vget l i.
  Proof. unfold vget. destruct (i <? 0); [done|]. apply list_lookup_fmap. Qed.

Lemma vlen_fmap {B} (f : A -> B) l : vlen (f <$> l) = vlen l.
  Proof. unfold vlen. by rewrite length_fmap. Qed.

Lemma vlen_nonneg l : 0 <= vlen l.
  Proof. unfold vlen. lia. Qed.

Lemma get_at_Some l i x : vget l i = Some x -> get_at l i = Ok x.
  Proof. unfold get_at. by intros ->. Qed.

Lemma get_raw_Some l i x : vget l i = Some x -> get_raw l i = Ok x.
  Proof. unfold get_raw. by intros ->. Qed.

Lemma set_raw_range l i x : 0 <= i < vlen l -> set_raw l i x = Ok (vset l i x).
  Proof. intros [y Hy]%vget_in_range. unfold set_raw. by rewrite Hy. Qed.

Lemma set_at_range l i x : 0 <= i < vlen l -> set_at l i x = Ok (vset l i x).
  Proof. intros [y Hy]%vget_in_range. unfold set_at. by rewrite Hy. Qed.
End Vectors.

(** ** A weakest-precondition calculus

    [wpr E r Q]: [r] returns and [Q] holds of the result, or [r] fails with an
    error in [E].  [wpe E m Q s] is the same for a computation run from [s].
    [E := noerr] is total correctness; [E := anyerr] is "if it returns". *)

Definition noerr : err -> Prop := fun _ => False.
Definition anyerr : err -> Prop := fun _ => True.

Definition wpr {A} (E : err -> Prop) (r : res A) (Q : A -> Prop) : Prop :=
  match r with Ok a => Q a | Err e => E e end.

Definition wpe {S A} (E : err -> Prop) (m : M S A) (Q : A -> S -> Prop) (s : S) : Prop :=
  wpr E (m s) (fun p => Q (fst p) (snd p)).

Section Wp.
  Context {S : Type}.
  Implicit Types (E : err -> Prop) (s : S).

Lemma wpr_ret {A} E (a : A) (Q : A -> Prop) : Q a -> wpr E (mret a) Q.
  Proof. done. Qed.

Lemma wpr_bind {A B} E (r : res A) (f : A -> res B) (Q : B -> Prop) :
    wpr E r (fun a => wpr E (f a) Q) -> wpr E (r ≫= f) Q.
  Proof. by destruct r. Qed.

Lemma wpr_mono {A} E (r : res A) (Q Q' : A -> Prop) :
    wpr E r Q -> (forall a, Q a -> Q' a) -> wpr E r Q'.
  Proof. destruct r; simpl; auto. Qed.

Lemma wpr_result {A} E (r : res A) (Q : A -> Prop) : wpr E r Q -> wpr E r (fun a => Q a /\ r = Ok a).
  Proof. by destruct r. Qed.

Lemma wpr_weaken {A} (E E' : err -> Prop) (r : res A) (Q : A -> Prop) :
    (forall e, E e -> E' e) -> wpr E r Q -> wpr E' r Q.
  Proof. destruct r; simpl; auto. Qed.

Lemma wpr_noerr {A} (r : res A) (Q : A -> Prop) :
    wpr noerr r Q <-> exists a, r = Ok a /\ Q a.
  Proof.
    destruct r as [a|e]; simpl; [|split; [done | by intros (?&?&?)]].
    split; [by exists a | by intros (? & [= ->] & ?)].
  Qed.

Lemma wpr_anyerr {A} (r : res A) (Q : A -> Prop) :
    wpr anyerr r Q <-> forall a, r = Ok a -> Q a.
  Proof.
    destruct r as [a|e]; simpl; [|done]. split; [by intros ? ? [= <-] | by intros H; apply H].
  Qed.

Lemma wpe_ret {A} E (a : A) (Q : A -> S -> Prop) s : Q a s -> wpe E (mret a) Q s.
  Proof. done. Qed.

Lemma wpe_bind {A B} E (m : M S A) (f : A -> M S B) (Q : B -> S -> Prop) s :
    wpe E m (fun a => wpe E (f a) Q) s -> wpe E (m ≫= f) Q s.
  Proof. unfold wpe, wpr, mbind, M_bind. by destruct (m s) as [[]|]. Qed.

Lemma wpe_get E (Q : S -> S -> Prop) s : Q s s -> wpe E get Q s.
  Proof. done. Qed.

Lemma wpe_gets {A} E (f : S -> A) (Q : A -> S -> Prop) s : Q (f s) s -> wpe E (gets f) Q s.
  Proof. done. Qed.

Lemma wpe_modify E (f : S -> S) (Q : unit -> S -> Prop) s :
    Q tt (f s) -> wpe E (modify f) Q s.
  Proof. done. Qed.

Lemma wpe_fail {A} E e (Q : A -> S -> Prop) s : E e -> wpe E (fail e) Q s.
  Proof. done. Qed.

Lemma wpe_lift {A} E (r : res A) (Q : A -> S -> Prop) s :
    wpr E r (fun a => Q a s) -> wpe E (lift r) Q s.
  Proof. by destruct r. Qed.

Lemma wpe_zoom {T A} E (view : S -> T) (put : T -> S -> S) (m : M T A) Q s :
    wpe E m (fun a t => Q a (put t s)) (view s) -> wpe E (zoom view put m) Q s.
  Proof. unfold wpe, wpr, zoom. by destruct (m (view s)) as [[]|]. Qed.

Lemma wpe_when E b (m : M S unit) (Q : unit -> S -> Prop) s :
    (b = true -> wpe E m Q s) -> (b = false -> Q tt s) -> wpe E (when b m) Q s.
  Proof. destruct b; intros Ht Hf; [by apply Ht | by apply wpe_ret, Hf]. Qed.

Lemma wpe_mono {A} E (m : M S A) (Q Q' : A -> S -> Prop) s :
    wpe E m Q s -> (forall a s', Q a s' -> Q' a s') -> wpe E m Q' s.
  Proof. unfold wpe, wpr. destruct (m s) as [[]|]; simpl; auto. Qed.

Lemma wpe_conj {A} E (m : M S A) (Q Q' : A -> S -> Prop) s :
    wpe E m Q s -> wpe E m Q' s -> wpe E m (fun a s' => Q a s' /\ Q' a s') s.
  Proof. unfold wpe, wpr. destruct (m s) as [[]|]; simpl; auto. Qed.

Lemma wpe_noerr {A} (m : M S A) Q s :
    wpe noerr m Q s <-> exists a s', m s = Ok (a, s') /\ Q a s'.
  Proof.
    unfold wpe. rewrite wpr_noerr. split.
    - intros ([a s'] & Hm & HQ). eauto.
    - intros (a & s' & Hm & HQ). by exists (a, s').
  Qed.

Lemma wpe_anyerr {A} (m : M S A) Q s :
    wpe anyerr m Q s <-> forall a s', m s = Ok (a, s') -> Q a s'.
  Proof.
    unfold wpe. rewrite wpr_anyerr. split.
    - intros H a s' Hm. by apply (H (a, s')).
    - intros H [a s'] Hm. by apply H.
  Qed.

Lemma wpe_weaken {A} (E E' : err -> Prop) (m : M S A) Q s :
    (forall e, E e -> E' e) -> wpe E m Q s -> wpe E' m Q s.
  Proof. unfold wpe, wpr. destruct (m s); auto. Qed.

  (** Loops over a list: the invariant is indexed by what is still to do. *)
Lemma wpe_foldM {A B} E (I : list B -> A -> S -> Prop) (f : B -> A -> M S A) l a s
      (Q : A -> S -> Prop) :
    I l a s ->
    (forall x l' a s, I (x :: l') a s -> wpe E (f x a) (I l') s) ->
    (forall a s, I [] a s -> Q a s) ->
    wpe E (foldM f l a) Q s.
  Proof.
    intros HI Hstep HQ. revert a s HI.
    induction l as [|x l IH]; intros a s HI; simpl; [apply wpe_ret; auto|].
    apply wpe_bind. eapply wpe_mono; [apply Hstep, HI|]. auto.
  Qed.

Lemma wpe_for_range {A} E (I : Z -> A -> S -> Prop) lo hi (body : Z -> A -> M S A) a s
      (Q : A -> S -> Prop) :
    lo <= hi ->
    I lo a s ->
    (forall i a s, lo <= i < hi -> I i a s -> wpe E (body i a) (I (i + 1)) s) ->
    (forall a s, I hi a s -> Q a s) ->
    wpe E (for_range lo hi body a) Q s.
  Proof.
    intros Hle HI Hstep HQ. unfold for_range.
    remember (Z.to_nat (hi - lo)) as n eqn:Hn.
    revert lo Hle a s HI Hstep Hn. induction n as [|n IH]; intros lo Hle a s HI Hstep Hn.
    - assert (lo = hi) as -> by lia. rewrite seqZ_nil by lia. by apply HQ.
    - rewrite seqZ_cons by lia. simpl. apply wpe_bind.
      eapply wpe_mono; [apply Hstep; [lia | exact HI]|]. intros a' s' HI'.
      replace (Z.pred (hi - lo)) with (hi - Z.succ lo) by lia.
      apply IH; [lia | exact HI' | | lia]. intros i a'' s'' Hi. apply Hstep. lia.
  Qed.
End Wp.

Lemma wpr_for_range {A} (E : err -> Prop) (I : Z -> A -> Prop) lo hi (body : Z -> A -> res A) a
    (Q : A -> Prop) :
  lo <= hi ->
  I lo a ->
  (forall i a, lo <= i < hi -> I i a -> wpr E (body i a) (I (i + 1))) ->
  (forall a, I hi a -> Q a) ->
  wpr E (for_range lo hi body a) Q.
Proof.
  intros Hle HI Hstep HQ. unfold for_range.
  remember (Z.to_nat (hi - lo)) as n eqn:Hn.
  revert lo Hle a HI Hstep Hn. induction n as [|n IH]; intros lo Hle a HI Hstep Hn.
  - assert (lo = hi) as -> by lia. rewrite seqZ_nil by lia. by apply HQ.
  - rewrite seqZ_cons by lia. simpl. apply wpr_bind.
    eapply wpr_mono; [apply Hstep; [lia | exact HI]|]. intros a' HI'.
    replace (Z.pred (hi - lo)) with (hi - Z.succ lo) by lia.
    apply IH; [lia | exact HI' | | lia]. intros i a'' Hi. apply Hstep. lia.
Qed.

(** [for (i = 0; i < n; i++) l[i] = f(l[i])] maps [f] over the array. *)
Definition for_each_raw {A} (n : Z) (f : A -> A) (l : list A) : res (list A) :=
  for_range 0 n (fun i l => x ← get_raw l i; set_raw l i (f x)) l.

Lemma for_each_raw_map {A} (f : A -> A) (l : list A) :
  for_each_raw (vlen l) f l = Ok (f <$> l).
Proof.
  enough (wpr noerr (for_each_raw (vlen l) f l) (fun l' => l' = f <$> l)) as H.
  { apply wpr_noerr in H as (l' & -> & ->). done. }
  unfold for_each_raw.
  apply wpr_for_range with (I := fun n l' => vlen l' = vlen l /\ forall i, 0 <= i < vlen l ->
    vget l' i = (if decide (i < n) then f <$> vget l i else vget l i)).
  - apply vlen_nonneg.
  - split; [done|]. intros i Hi. case_decide; [lia | done].
  - intros n l' Hn [Hlen HI]. pose proof (HI n Hn) as Hget.
    case_decide; [lia|]. destruct (vget_in_range l n Hn) as [x Hx].
    rewrite Hx in Hget. unfold get_raw. rewrite Hget. simpl.
    rewrite set_raw_range by lia. simpl. rewrite vlen_vset. split; [done|].
    intros i Hi. rewrite vget_vset by lia. destruct (decide (n = i)) as [->|].
    + rewrite decide_True by lia. by rewrite Hx.
    + rewrite (HI i Hi). case_decide; case_decide; try done; lia.
  - intros l' [Hlen HI]. apply vlist_eq; rewrite ?vlen_fmap; [done|].
    intros i Hi. rewrite (HI i) by lia. rewrite decide_True by lia. by rewrite vget_fmap.
Qed.

(** Loops over the elements of an array, with the invariant indexed by position. *)
Lemma wpr_foldM_index {A B} (E : err -> Prop) (I : Z -> A -> Prop) (f : B -> A -> res A) (l : list B)
    (a : A) (Q : A -> Prop) :
  I 0 a ->
  (forall i x a, vget l i = Some x -> I i a -> wpr E (f x a) (I (i + 1))) ->
  (forall a, I (vlen l) a -> Q a) ->
  wpr E (foldM f l a) Q.
Proof.
  intros H0 Hstep HQ.
  enough (forall k l' a, l' = drop k l -> (k <= length l)%nat -> I (Z.of_nat k) a ->
            wpr E (foldM f l' a) Q) as H by (apply (H 0%nat l); [done | lia | done]).
  intros k l'. revert k. induction l' as [|x l' IH]; intros k a' Hd Hk HI; simpl.
  - apply HQ. replace (vlen l) with (Z.of_nat k); [done|]. unfold vlen. f_equal.
    apply (f_equal length) in Hd. rewrite length_drop in Hd. simpl in Hd. lia.
  - assert (l !! k = Some x) as Hx.
    { rewrite <- (Nat.add_0_r k), <- lookup_drop, <- Hd. done. }
    apply wpr_bind. eapply wpr_mono; [apply (Hstep (Z.of_nat k)); [|done]|].
    + unfold vget. destruct (Z.ltb_spec (Z.of_nat k) 0); [lia|]. by rewrite Nat2Z.id.
    + intros a'' HI'. apply (IH (S k)).
      * rewrite (drop_S l x k Hx) in Hd. by injection Hd.
      * apply lookup_lt_Some in Hx. lia.
      * by rewrite Nat2Z.inj_succ.
Qed.

Lemma wpr_mapM {A B} (E : err -> Prop) (f : A -> res B) (l : list A) (P : A -> B -> Prop) :
  (forall x, x ∈ l -> wpr E (f x) (P x)) -> wpr E (mapM f l) (Forall2 P l).
Proof.
  induction l as [|x l IH]; intros H; [by apply wpr_ret|]. simpl.
  apply wpr_bind. eapply wpr_mono; [apply H; left|]. intros y Hy. simpl.
  apply wpr_bind. eapply wpr_mono; [apply IH; intros z Hz; apply H; by right|].
  intros k Hk. apply wpr_ret. by constructor.
Qed.

Lemma Forall2_vget {A B} (P : A -> B -> Prop) l k i y :
  Forall2 P l k -> vget k i = Some y -> exists x, vget l i = Some x /\ P x y.
Proof.
  intros HF. unfold vget. destruct (i <? 0); [done|]. intros Hy.
  destruct (Forall2_lookup_r _ _ _ _ _ HF Hy) as (x & ? & ?). eauto.
Qed.

Lemma Forall2_vlen {A B} (P : A -> B -> Prop) (l : list A) (k : list B) : Forall2 P l k -> vlen l = vlen k.
Proof. intros H%Forall2_length. unfold vlen. by rewrite H. Qed.

(** ** Counting and summing over ranges *)

(** The sum of [f] over the positions of [0, n). *)
Definition sum_range (f : Z -> Z) (n : Z) : Z := foldr Z.add 0 (f <$> seqZ 0 n).

Lemma sum_range_succ f n : 0 <= n -> sum_range f (n + 1) = sum_range f n + f n.
Proof.
  intros Hn. unfold sum_range. rewrite seqZ_app by lia. rewrite fmap_app, foldr_app, Z.add_0_l.
  change (seqZ n 1) with [n]. simpl. rewrite Z.add_0_r.
  generalize (f n). induction (f <$> seqZ 0 n) as [|x l IH]; intros z; simpl; [lia|].
  rewrite IH. lia.
Qed.

(** The number of positions of [0, n) that satisfy a test, as [count += 1] computes it. *)
Definition count_range (p : Z -> bool) (n : Z) : Z :=
  vlen (filter (fun i => p i = true) (seqZ 0 n)).

Lemma count_range_0 p : count_range p 0 = 0.
Proof. done. Qed.

Lemma count_range_succ p n : 0 <= n ->
  count_range p (n + 1) = count_range p n + (if p n then 1 else 0).
Proof.
  intros Hn. unfold count_range, vlen. rewrite seqZ_app by lia.
  rewrite filter_app, length_app, Z.add_0_l.
  change (seqZ n 1) with [n].
  rewrite filter_cons, filter_nil. destruct (p n); simpl; lia.
Qed.

Lemma count_range_bounds p n : 0 <= n -> 0 <= count_range p n <= n.
Proof.
  intros Hn. unfold count_range, vlen. pose proof (length_filter (fun i => p i = true) (seqZ 0 n)).
  rewrite length_seqZ in *. lia.
Qed.

Lemma count_range_ext p q n :
  (forall i, 0 <= i < n -> p i = q i) -> count_range p n = count_range q n.
Proof.
  destruct (decide (0 <= n)) as [Hn|]; [|intros _; unfold count_range; by rewrite seqZ_nil by lia].
  revert n Hn. apply (natlike_ind (fun n => _ -> _)); [done|].
  intros n Hn IH H. rewrite <- Z.add_1_r, !count_range_succ by lia.
  rewrite IH, H; [done | lia | intros i Hi; apply H; lia].
Qed.

Lemma count_range_app p n m : 0 <= n -> 0 <= m ->
  count_range p (n + m) = count_range p n + count_range (fun i => p (n + i)) m.
Proof.
  intros Hn Hm. revert m Hm. apply natlike_ind.
  - by rewrite count_range_0, !Z.add_0_r.
  - intros m Hm IH. replace (n + Z.succ m) with (n + m + 1) by lia.
    rewrite count_range_succ, IH by lia. rewrite <- Z.add_1_r, count_range_succ by lia.
    destruct (p (n + m)); lia.
Qed.

Lemma count_range_pos p n : 0 <= n ->
  (0 < count_range p n <-> exists i, 0 <= i < n /\ p i = true).
Proof.
  intros Hn. revert n Hn. apply natlike_ind.
  - rewrite count_range_0. split; [lia | intros (i & Hi & _); lia].
  - intros n Hn IH. rewrite <- Z.add_1_r, count_range_succ by lia.
    pose proof (count_range_bounds p n Hn). split.
    + intros Hpos. destruct (p n) eqn:Hp; [exists n; split; [lia | done]|].
      destruct IH as [(i & Hi & Hpi) _]; [lia|]. exists i. split; [lia | done].
    + intros (i & Hi & Hpi). destruct (decide (i = n)) as [->|]; [rewrite Hpi; lia|].
      destruct IH as [_ IH]. pose proof (IH ltac:(exists i; split; [lia | done])).
      destruct (p n); lia.
Qed.

(** Changing one position of the range changes the count by one. *)
Lemma count_range_update p n k b : 0 <= k < n ->
  count_range (fun i => if decide (i = k) then b else p i) n =
  count_range p n - (if p k then 1 else 0) + (if b then 1 else 0).
Proof.
  set (q := fun i => if decide (i = k) then b else p i).
  intros Hk. replace n with (k + 1 + (n - k - 1)) by lia.
  rewrite (count_range_app q (k + 1)), (count_range_app p (k + 1)), !count_range_succ by lia.
  rewrite (count_range_ext q p k) by (intros i Hi; unfold q; by rewrite decide_False by lia).
  rewrite (count_range_ext (fun i => q (k + 1 + i)) (fun i => p (k + 1 + i)))
    by (intros i Hi; unfold q; by rewrite decide_False by lia).
  assert (q k = b) as -> by (unfold q; by rewrite decide_True).
  destruct (p k), b; lia.
Qed.


(** ** Automation *)

Create HintDb lgr.
#[export] Hint Resolve vlen_nonneg u32_range u64_range : lgr.
#[export] Hint Resolve wpe_ret wpe_get wpe_gets wpe_modify : lgr.

Create Rewrite HintDb vec.
#[export] Hint Rewrite @vlen_vset @vlen_fmap : vec.
#[export] Hint Rewrite @vget_vset_eq @vlen_replicate @vget_replicate using lia : vec.

(** One symbolic-execution step of a computation under [wpe] or [wpr]. *)
Ltac wp_step :=
  lazymatch goal with
  | |- wpe _ (_ ≫= _) _ _ => apply wpe_bind
  | |- wpe _ (mret _) _ _ => apply wpe_ret
  | |- wpe _ get _ _ => apply wpe_get
  | |- wpe _ (gets _) _ _ => apply wpe_gets
  | |- wpe _ (modify _) _ _ => apply wpe_modify
  | |- wpe _ (lift _) _ _ => apply wpe_lift
  | |- wpe _ (when _ _) _ _ => apply wpe_when; intro
  | |- wpe anyerr (fail _) _ _ => exact I
  | |- wpr _ (_ ≫= _) _ => apply wpr_bind
  | |- wpr _ (mret _) _ => apply wpr_ret
  | |- wpr _ (Ok _) _ => apply wpr_ret
  | |- wpr anyerr (Err _) _ => exact I
  end; cbv beta.
Ltac wp_steps := repeat wp_step.

(** Turn the boolean tests of the code into propositions. *)
Ltac breflect :=
  repeat match goal with
  | H : (_ && _)%bool = true |- _ => apply andb_true_iff in H as [? ?]
  | H : (_ || _)%bool = false |- _ => apply orb_false_iff in H as [? ?]
  | H : negb _ = true |- _ => apply negb_true_iff in H
  | H : negb _ = false |- _ => apply negb_false_iff in H
  | H : (_ <? _) = true |- _ => apply Z.ltb_lt in H
  | H : (_ <? _) = false |- _ => apply Z.ltb_ge in H
  | H : (_ <=? _) = true |- _ => apply Z.leb_le in H
  | H : (_ <=? _) = false |- _ => apply Z.leb_gt in H
  | H : (_ =? _) = true |- _ => apply Z.eqb_eq in H
  | H : (_ =? _) = false |- _ => apply Z.eqb_neq in H
  end.
