(* ===== verification/Algorithm.v ===== *)
(** * util/algorithm.hh: bit tricks

    [popcount] (the SWAR template at a w-bit instance), [generateMask] (the
    bit-field allocator of the Open-Channel address format) and [DIVCEIL]. *)

From S2P Require Import Prelude.

Module Algorithm.

(** [DIVCEIL(x, y)] at [uint32_t] and at [uint64_t]. *)
Definition DIVCEIL32 (x y : Z) : Z := u32 (u32 (x - 1) / y + 1).
Definition DIVCEIL64 (x y : Z) : Z := u64 (u64 (x - 1) / y + 1).

(** [popcount<T>] for an unsigned [T] of [w] bits ([~(T)0] is [2^w - 1]). *)
Definition popcount (w v : Z) : Z :=
  let T x := x mod 2 ^ w in
  let ones := 2 ^ w - 1 in
  let v := T (v - Z.land (Z.shiftr v 1) (ones / 3)) in
  let v := T (Z.land v (ones / 15 * 3) + Z.land (Z.shiftr v 2) (ones / 15 * 3)) in
  let v := T (Z.land (v + Z.shiftr v 4) (ones / 255 * 15)) in
  let v := Z.shiftr (T (v * (ones / 255))) ((w / 8 - 1) * 8) in
  u8 v.

(** [__builtin_clzl] and [__builtin_ffsl] on a non-zero 64-bit argument. *)
Definition builtin_clzl (val : Z) : Z := 63 - Z.log2 val.
Fixpoint builtin_ctz (fuel : nat) (val : Z) : Z :=
  match fuel with
  | O => 0
  | S f => if Z.odd val then 0 else 1 + builtin_ctz f (Z.shiftr val 1)
  end.
Definition builtin_ffsl (val : Z) : Z := if val =? 0 then 0 else 1 + builtin_ctz 64 val.

(** [generateMask(val, count)]: the mask and the new [count].  Shifting a
    64-bit operand by 64 or more is undefined. *)
Definition generateMask (val count : Z) : res (Z * Z) :=
  let ones := 2 ^ 64 - 1 in
  '(mask, tmp) ← (if 0 <? val then
                    let shift := builtin_clzl val in
                    let shift := if shift + builtin_ffsl val =? 64 then shift + 1 else shift in
                    let tmp := u32 (64 - shift) in
                    if tmp <? 64 then Ok (u64 (Z.shiftl ones tmp), tmp) else Err UB
                  else Ok (ones, 0));
  if count <? 64 then
    Ok (u64 (Z.shiftl (u64 (Z.lnot mask)) count), u32 (count + tmp))
  else Err UB.

(** The number of set bits among the [w] low bits. *)
Definition bit_count (w v : Z) : Z := count_range (Z.testbit v) w.

(** *** Lemmas *)

Lemma popcount8_spec v : 0 <= v < 256 -> popcount 8 v = bit_count 8 v.
Proof.
  intros Hv.
  assert (Forall (fun v => popcount 8 v = bit_count 8 v) (seqZ 0 256)) as H.
  { apply (bool_decide_unpack _). vm_compute. exact I. }
  rewrite Forall_seqZ in H. by apply H.
Qed.

Lemma DIVCEIL32_spec x y : 0 < x < 2 ^ 32 -> 0 < y -> DIVCEIL32 x y = (x - 1) / y + 1.
Proof.
  intros Hx Hy. unfold DIVCEIL32. rewrite (u32_small (x - 1)) by lia.
  apply u32_small.
  pose proof (Z.div_pos (x - 1) y). pose proof (Z.div_le_upper_bound (x - 1) y (x - 1)). nia.
Qed.

Lemma builtin_ctz_odd fuel val : Z.odd val = true -> builtin_ctz fuel val = 0.
Proof. destruct fuel; simpl; [done|]. by intros ->. Qed.

Lemma builtin_ctz_spec fuel val : 0 < val < 2 ^ Z.of_nat fuel ->
  exists q, val = 2 ^ builtin_ctz fuel val * q /\ Z.odd q = true /\ 0 <= builtin_ctz fuel val.
Proof.
  revert val. induction fuel as [|f IH]; intros val Hv; [simpl in Hv; lia|].
  simpl. destruct (Z.odd val) eqn:Hodd.
  - exists val. rewrite Z.pow_0_r. split_and!; [lia | done | lia].
  - rewrite Z.shiftr_div_pow2, Z.pow_1_r by lia.
    pose proof (Z.div2_odd val) as Hd. rewrite Hodd, Z.div2_div in Hd. simpl in Hd.
    rewrite Nat2Z.inj_succ, Z.pow_succ_r in Hv by lia.
    destruct (IH (val / 2)) as (q & Hq & Hqo & Hc); [lia|].
    exists q. split_and!; [|done | lia].
    rewrite Z.pow_add_r, Z.pow_1_r by lia. lia.
Qed.

(** Whether [val] is a power of two is what [shift + ffs == 64] tests. *)
Lemma clz_ffs_pow2 val : 0 < val < 2 ^ 32 ->
  (builtin_clzl val + builtin_ffsl val =? 64) = (2 ^ Z.log2 val =? val).
Proof.
  intros Hv. unfold builtin_clzl, builtin_ffsl.
  rewrite (proj2 (Z.eqb_neq val 0)) by lia.
  destruct (builtin_ctz_spec 64 val) as (q & Hq & Hodd & Hc); [simpl; lia|].
  set (c := builtin_ctz 64 val) in *.
  assert (0 < 2 ^ c) as Hpos by (apply Z.pow_pos_nonneg; lia).
  assert (0 < q) as Hqpos by nia. pose proof (Z.log2_spec val ltac:(lia)) as Hl.
  destruct (Z.eqb_spec (2 ^ Z.log2 val) val) as [Hp|Hp].
  - apply Z.eqb_eq. enough (c = Z.log2 val) by lia.
    destruct (decide (c = Z.log2 val)) as [|Hne]; [done|]. exfalso.
    assert (c < Z.log2 val \/ Z.log2 val < c) as [Hlt|Hlt] by lia.
    + assert (q = 2 * 2 ^ (Z.log2 val - c - 1)) as ->.
      { apply (Z.mul_reg_l _ _ (2 ^ c)); [lia|]. rewrite <- Hq, <- Hp at 1.
        rewrite <- Z.pow_succ_r, <- Z.pow_add_r by lia. f_equal. lia. }
      rewrite Z.odd_mul in Hodd. done.
    + pose proof (Z.pow_lt_mono_r 2 (Z.log2 val) c ltac:(lia) ltac:(lia) ltac:(lia)). nia.
  - apply Z.eqb_neq. intros Hc'. apply Hp.
    assert (Z.log2 val = c) as Hlc by lia. rewrite Hlc in *. rewrite Z.pow_succ_r in Hl by lia.
    assert (2 ^ c * q < 2 ^ c * 2) as Hq2%Z.mul_lt_mono_pos_l by lia; [|done].
    assert (q = 1) as Hq1 by lia. rewrite Hq1 in Hq. lia.
Qed.

Lemma low_mask b : 0 <= b <= 32 ->
  u64 (Z.lnot (u64 (Z.shiftl (2 ^ 64 - 1) b))) = 2 ^ b - 1.
Proof.
  intros Hb. apply Z.bits_inj'. intros k Hk. unfold u64.
  change (2 ^ 64 - 1) with (Z.ones 64).
  replace (2 ^ b - 1) with (Z.ones b) by (rewrite Z.ones_equiv; lia).
  destruct (Z.ltb_spec k 64).
  - rewrite Z.mod_pow2_bits_low, Z.lnot_spec, Z.mod_pow2_bits_low, Z.shiftl_spec by lia.
    destruct (Z.ltb_spec k b).
    + rewrite Z.testbit_neg_r, Z.ones_spec_low by lia. done.
    + rewrite Z.ones_spec_low, Z.ones_spec_high by lia. done.
  - rewrite Z.mod_pow2_bits_high, Z.ones_spec_high by lia. done.
Qed.

(** [generateMask] allocates the [log2_up val] bits above [count]. *)
Lemma generateMask_spec val count :
  0 < val < 2 ^ 32 -> 0 <= count < 64 ->
  generateMask val count =
  Ok (u64 (Z.shiftl (2 ^ Z.log2_up val - 1) count), count + Z.log2_up val).
Proof.
  intros Hv Hc. unfold generateMask.
  rewrite (proj2 (Z.ltb_lt 0 val)) by lia. cbv zeta. rewrite clz_ffs_pow2 by done.
  assert (Z.log2 val < 32) by (apply Z.log2_lt_pow2; lia).
  pose proof (Z.log2_nonneg val). pose proof (Z.log2_up_nonneg val).
  assert ((if 2 ^ Z.log2 val =? val then builtin_clzl val + 1 else builtin_clzl val)
          = 64 - Z.log2_up val) as ->.
  { unfold builtin_clzl. destruct (Z.eqb_spec (2 ^ Z.log2 val) val) as [Hp|Hp].
    - rewrite <- Hp at 2. rewrite Z.log2_up_pow2 by lia. lia.
    - pose proof (Z.le_log2_up_succ_log2 val). pose proof (Z.le_log2_log2_up val).
      destruct (decide (Z.log2 val = Z.log2_up val)) as [He|]; [|lia].
      exfalso. apply Hp. apply Z.log2_log2_up_exact in He as [b Hb]; [|lia].
      destruct (decide (0 <= b)); [|rewrite Z.pow_neg_r in Hb; lia].
      rewrite Hb, Z.log2_pow2 by lia. done. }
  replace (64 - (64 - Z.log2_up val)) with (Z.log2_up val) by lia.
  assert (Z.log2_up val <= 32).
  { pose proof (Z.le_log2_up_succ_log2 val). lia. }
  rewrite u32_small by lia.
  rewrite (proj2 (Z.ltb_lt (Z.log2_up val) 64)) by lia. cbv beta iota delta [mbind res_bind].
  rewrite (proj2 (Z.ltb_lt count 64)) by lia.
  rewrite u32_small by lia. rewrite low_mask by lia. done.
Qed.

End Algorithm.
