(* ===== verification/Bitset.v ===== *)
(** * util/bitset.hh, util/bitset.cc: the bit vector

    Module [Bitset]: the three fields of the class and one definition per
    member function; a null [data] is the empty list, and an access past the
    allocation is [UB].  The section [Theory] gives the abstract view of a
    bit vector, a function [bit b] from positions to booleans, and states each
    member function through it. *)

From S2P Require Import Prelude Algorithm.
Import Algorithm.

Module Bitset.

Record t : Type := mk {
  data : list Z;
  dataSize : Z;
  allocSize : Z;
}.

(** [Bitset(uint32_t size)] (and [Bitset()] for 0). *)
Definition make (size : Z) : t :=
  if 0 <? size then
    let a := DIVCEIL32 size 8 in
    {| data := replicate (Z.to_nat a) 0; dataSize := size; allocSize := a |}
  else {| data := []; dataSize := 0; allocSize := 0 |}.

(** The state a moved-from or destroyed bit vector is left in. *)
Definition cleared : t := {| data := []; dataSize := 0; allocSize := 0 |}.

(** Copy construction: a fresh [calloc] of the same size, then [memcpy]. *)
Definition copy (rhs : t) : t :=
  let b := make (dataSize rhs) in
  if decide (data rhs = []) then b
  else {| data := take (Z.to_nat (allocSize b)) (data rhs);
          dataSize := dataSize b; allocSize := allocSize b |}.

(** Move construction and move assignment: (the target, the source after). *)
Definition move (rhs : t) : t * t := (rhs, cleared).

Definition with_data (b : t) (d : list Z) : t :=
  {| data := d; dataSize := dataSize b; allocSize := allocSize b |}.

Definition test (b : t) (idx : Z) : res bool :=
  x ← get_raw (data b) (idx / 8);
  Ok (negb (Z.land x (Z.shiftl 1 (idx mod 8)) =? 0)).

Definition all (b : t) : res bool :=
  let mask := u8 (Z.shiftl 255 (u32 (dataSize b + 8 - allocSize b * 8))) in
  ret ← for_range 0 (u32 (allocSize b - 1))
          (fun i ret => x ← get_raw (data b) i; Ok (Z.land ret x)) 255;
  x ← get_raw (data b) (u32 (allocSize b - 1));
  Ok (Z.land ret (Z.lor x mask) =? 255).

Definition none (b : t) : res bool :=
  ret ← for_range 0 (allocSize b)
          (fun i ret => x ← get_raw (data b) i; Ok (Z.lor ret x)) 0;
  Ok (ret =? 0).

Definition any (b : t) : res bool := x ← none b; Ok (negb x).

Definition count (b : t) : res Z :=
  for_range 0 (allocSize b)
    (fun i count => x ← get_raw (data b) i; Ok (u32 (count + popcount 8 x))) 0.

Definition size (b : t) : Z := dataSize b.

(** [set()] *)
Definition set_all (b : t) : res t :=
  let mask := Z.shiftr 255 (u32 (allocSize b * 8 - dataSize b)) in
  d ← for_range 0 (u32 (allocSize b - 1)) (fun i d => set_raw d i 255) (data b);
  d ← set_raw d (u32 (allocSize b - 1)) mask;
  Ok (with_data b d).

(** [set(idx, value)] *)
Definition set (b : t) (idx : Z) (value : bool) : res t :=
  x ← get_raw (data b) (idx / 8);
  let x := u8 (Z.land x (Z.lnot (Z.shiftl 1 (idx mod 8)))) in
  let x := if value then u8 (Z.lor x (Z.shiftl 1 (idx mod 8))) else x in
  d ← set_raw (data b) (idx / 8) x;
  Ok (with_data b d).

(** [reset()] *)
Definition reset_all (b : t) : res t :=
  d ← for_each_raw (allocSize b) (fun _ => 0) (data b);
  Ok (with_data b d).

(** [reset(idx)] *)
Definition reset (b : t) (idx : Z) : res t :=
  x ← get_raw (data b) (idx / 8);
  d ← set_raw (data b) (idx / 8) (u8 (Z.land x (Z.lnot (Z.shiftl 1 (idx mod 8)))));
  Ok (with_data b d).

(** [flip()] *)
Definition flip_all (b : t) : res t :=
  let mask := Z.shiftr 255 (u32 (allocSize b * 8 - dataSize b)) in
  d ← for_each_raw (allocSize b) (fun x => u8 (Z.lnot x)) (data b);
  x ← get_raw d (u32 (allocSize b - 1));
  d ← set_raw d (u32 (allocSize b - 1)) (Z.land x mask);
  Ok (with_data b d).

(** [flip(idx)] *)
Definition flip (b : t) (idx : Z) : res t :=
  x ← get_raw (data b) (idx / 8);
  let m := Z.shiftl 1 (idx mod 8) in
  d ← set_raw (data b) (idx / 8)
        (u8 (Z.lor (Z.land (Z.lnot x) m) (Z.land x (Z.lnot m))));
  Ok (with_data b d).

(** [operator&=], [operator|=], [operator^=]: the loop they share. *)
Definition bitwise (op : Z -> Z -> Z) (b rhs : t) : res t :=
  if dataSize b =? dataSize rhs then
    d ← for_range 0 (allocSize b)
          (fun i d => x ← get_raw d i; y ← get_raw (data rhs) i; set_raw d i (op x y)) (data b);
    Ok (with_data b d)
  else panic "Size does not match".

Definition and_assign (b rhs : t) : res t := bitwise Z.land b rhs.
Definition or_assign (b rhs : t) : res t := bitwise Z.lor b rhs.
Definition xor_assign (b rhs : t) : res t := bitwise Z.lxor b rhs.

(** [operator&], [operator|]: the left operand is passed by value. *)
Definition and_op (b rhs : t) : res t := and_assign (copy b) rhs.
Definition or_op (b rhs : t) : res t := or_assign (copy b) rhs.
Definition xor_op (b rhs : t) : res t := xor_assign (copy b) rhs.

(** [operator~] *)
Definition not_op (b : t) : res t := flip_all (copy b).

(** [operator==]: stops at the first byte that differs. *)
Fixpoint eq_bytes (n : nat) (i : Z) (l r : list Z) : res bool :=
  match n with
  | O => Ok true
  | S n => x ← get_raw l i; y ← get_raw r i;
           if x =? y then eq_bytes n (i + 1) l r else Ok false
  end.
Definition op_eq (lhs rhs : t) : res bool :=
  if dataSize lhs =? dataSize rhs then
    eq_bytes (Z.to_nat (allocSize lhs)) 0 (data lhs) (data rhs)
  else panic "Size does not match".

(** ** The abstract view *)

Definition byte (b : t) (i : Z) : Z := default 0 (vget (data b) i).
Definition bit (b : t) (i : Z) : bool := Z.testbit (byte b (i / 8)) (i mod 8).

(** A vector built by the class for [0 < size]: bytes are bytes, and the bits
    past [size] in the last byte are clear. *)
Record wf (n : Z) (b : t) : Prop := {
  wf_size : dataSize b = n;
  wf_pos : 0 < n < 2 ^ 32 - 8;
  wf_alloc : allocSize b = (n - 1) / 8 + 1;
  wf_len : vlen (data b) = allocSize b;
  wf_byte : forall i, 0 <= byte b i < 256;
  wf_pad : forall i, n <= i -> bit b i = false;
}.

(** ** Bits of bytes *)

Lemma land_bit_test x k : 0 <= k ->
  negb (Z.land x (Z.shiftl 1 k) =? 0) = Z.testbit x k.
Proof.
  intros Hk. destruct (Z.eqb_spec (Z.land x (Z.shiftl 1 k)) 0) as [H|H]; simpl.
  - apply (f_equal (fun z => Z.testbit z k)) in H.
    rewrite Z.land_spec, Z.shiftl_spec, Z.sub_diag, Z.bits_0 in H by lia.
    by rewrite andb_true_r in H.
  - destruct (Z.testbit x k) eqn:Hb; [done|]. exfalso. apply H.
    apply Z.bits_inj'. intros j Hj. rewrite Z.land_spec, Z.bits_0, Z.shiftl_spec by lia.
    destruct (decide (j = k)) as [->|]; [by rewrite Hb|].
    destruct (decide (j < k)); [by rewrite (Z.testbit_neg_r _ (j - k)), andb_false_r by lia|].
    rewrite (Z.bits_above_log2 1 (j - k)), andb_false_r; [done | lia | simpl; lia].
Qed.

Lemma testbit_one k j : 0 <= k -> 0 <= j ->
  Z.testbit (Z.shiftl 1 k) j = bool_decide (j = k).
Proof.
  intros Hk Hj. rewrite Z.shiftl_1_l. destruct (decide (j = k)) as [->|].
  - by rewrite Z.pow2_bits_true, bool_decide_eq_true_2 by lia.
  - by rewrite Z.pow2_bits_false, bool_decide_eq_false_2 by lia.
Qed.

Lemma testbit_u8 x k : 0 <= k < 8 -> Z.testbit (u8 x) k = Z.testbit x k.
Proof. intros. unfold u8. apply Z.mod_pow2_bits_low. lia. Qed.

Lemma u8_range x : 0 <= u8 x < 256.
Proof. unfold u8. apply Z.mod_pos_bound. lia. Qed.

Lemma u8_small x : 0 <= x < 256 -> u8 x = x.
Proof. apply Z.mod_small. Qed.

Lemma byte_eq x y : 0 <= x < 256 -> 0 <= y < 256 ->
  (forall k, 0 <= k < 8 -> Z.testbit x k = Z.testbit y k) -> x = y.
Proof.
  intros Hx Hy H. rewrite <- (u8_small x), <- (u8_small y) by done.
  apply Z.bits_inj'. intros k Hk. destruct (decide (k < 8)).
  - rewrite !testbit_u8 by lia. apply H. lia.
  - unfold u8. by rewrite !Z.mod_pow2_bits_high by lia.
Qed.

(** The two byte updates of [set], [reset] and [flip]. *)
Lemma testbit_clear_bit x k j : 0 <= k < 8 -> 0 <= j < 8 ->
  Z.testbit (u8 (Z.land x (Z.lnot (Z.shiftl 1 k)))) j =
  if decide (j = k) then false else Z.testbit x j.
Proof.
  intros Hk Hj. rewrite testbit_u8, Z.land_spec, Z.lnot_spec, testbit_one by lia.
  case_decide.
  - rewrite bool_decide_eq_true_2 by done. by rewrite andb_false_r.
  - rewrite bool_decide_eq_false_2 by done. by rewrite andb_true_r.
Qed.

Lemma testbit_set_bit x k j : 0 <= k < 8 -> 0 <= j < 8 ->
  Z.testbit (u8 (Z.lor (u8 (Z.land x (Z.lnot (Z.shiftl 1 k)))) (Z.shiftl 1 k))) j =
  if decide (j = k) then true else Z.testbit x j.
Proof.
  intros Hk Hj. rewrite testbit_u8, Z.lor_spec, testbit_clear_bit, testbit_one by lia.
  case_decide.
  - rewrite bool_decide_eq_true_2 by done. done.
  - rewrite bool_decide_eq_false_2 by done. by rewrite orb_false_r.
Qed.

Lemma testbit_flip_bit x k j : 0 <= k < 8 -> 0 <= j < 8 ->
  Z.testbit (u8 (Z.lor (Z.land (Z.lnot x) (Z.shiftl 1 k))
                       (Z.land x (Z.lnot (Z.shiftl 1 k))))) j =
  if decide (j = k) then negb (Z.testbit x j) else Z.testbit x j.
Proof.
  intros Hk Hj.
  rewrite testbit_u8, Z.lor_spec, !Z.land_spec, !Z.lnot_spec, !testbit_one by lia.
  case_decide; [rewrite bool_decide_eq_true_2 by done | rewrite bool_decide_eq_false_2 by done];
    by destruct (Z.testbit x j).
Qed.

(** ** Theory *)

Section Theory.
  Context (n : Z).
  Implicit Types (b : t) (E : err -> Prop).

Lemma wf_alloc_bounds b : wf n b -> 0 < allocSize b < 2 ^ 29 /\ 8 * (allocSize b - 1) < n <= 8 * allocSize b.
  Proof.
    intros [? ? Ha _ _ _]. rewrite Ha.
    pose proof (Z.div_mod (n - 1) 8 ltac:(lia)). pose proof (Z.mod_pos_bound (n - 1) 8). lia.
  Qed.

Lemma byte_get b i : wf n b -> 0 <= i < allocSize b -> vget (data b) i = Some (byte b i).
  Proof.
    intros Hwf Hi. destruct (vget_in_range (data b) i) as [x Hx].
    - by rewrite (wf_len n b Hwf).
    - unfold byte. by rewrite Hx.
  Qed.

Lemma byte_index b i : wf n b -> 0 <= i < n -> 0 <= i / 8 < allocSize b /\ 0 <= i mod 8 < 8.
  Proof.
    intros Hwf Hi. pose proof (wf_alloc_bounds b Hwf). apply div_mod_lt_mul; lia.
  Qed.

Lemma bit_of_byte b i k : 0 <= k < 8 -> bit b (8 * i + k) = Z.testbit (byte b i) k.
  Proof.
    intros Hk. unfold bit.
    replace ((8 * i + k) / 8) with i by (apply (Z.div_unique _ _ _ k); lia).
    by replace ((8 * i + k) mod 8) with k by (apply (Z.mod_unique _ _ i); lia).
  Qed.

Lemma byte_vset b i x j : wf n b -> 0 <= i < allocSize b ->
    byte (with_data b (vset (data b) i x)) j = if decide (i = j) then x else byte b j.
  Proof.
    intros Hwf Hi. unfold byte. simpl. rewrite vget_vset by (by rewrite (wf_len n b Hwf)).
    by case_decide.
  Qed.

  (** Replacing the byte that holds position [idx]. *)
Lemma bit_vset b idx x j : wf n b -> 0 <= idx < n ->
    bit (with_data b (vset (data b) (idx / 8) x)) j =
    if decide (j / 8 = idx / 8) then Z.testbit x (j mod 8) else bit b j.
  Proof.
    intros Hwf Hi. destruct (byte_index b idx Hwf Hi) as [Hb _].
    unfold bit. rewrite byte_vset by done.
    case_decide as H1; case_decide as H2; congruence.
  Qed.

Lemma wf_vset b idx x : wf n b -> 0 <= idx < n -> 0 <= x < 256 ->
    (forall j, n <= j -> j / 8 = idx / 8 -> Z.testbit x (j mod 8) = false) ->
    wf n (with_data b (vset (data b) (idx / 8) x)).
  Proof.
    intros Hwf Hi Hx Hpad. destruct (byte_index b idx Hwf Hi) as [Hb _].
    split; simpl; try by apply Hwf.
    - rewrite vlen_vset. apply Hwf.
    - intros j. rewrite byte_vset by done. case_decide; [done | by apply Hwf].
    - intros j Hj. rewrite bit_vset by done. case_decide; [by apply Hpad | by apply Hwf].
  Qed.

  (** One lemma for [set(i, v)], [reset(i)] and [flip(i)]: store a byte that
      differs from the old one in bit [i mod 8] only. *)
Lemma upd_byte_spec E b idx v y : wf n b -> 0 <= idx < n ->
    0 <= y < 256 ->
    (forall j, 0 <= j < 8 -> Z.testbit y j =
       if decide (j = idx mod 8) then v else Z.testbit (byte b (idx / 8)) j) ->
    wpr E (d ← set_raw (data b) (idx / 8) y; Ok (with_data b d)) (fun b' =>
      wf n b' /\ forall j, bit b' j = if decide (j = idx) then v else bit b j).
  Proof.
    intros Hwf Hi Hy Hbits. destruct (byte_index b idx Hwf Hi) as [Hb Hm].
    rewrite set_raw_range by (by rewrite (wf_len n b Hwf)). simpl.
    assert (forall j, j / 8 = idx / 8 -> Z.testbit y (j mod 8) =
      if decide (j = idx) then v else bit b j) as Hj.
    { intros j Hj. rewrite Hbits by (apply Z.mod_pos_bound; lia).
      pose proof (Z.div_mod j 8). pose proof (Z.div_mod idx 8). unfold bit. rewrite Hj.
      case_decide; case_decide; try done; lia. }
    split.
    - apply wf_vset; [done.. |]. intros j Hnj Hj8. rewrite Hj by done.
      rewrite decide_False by lia. by apply Hwf.
    - intros j. rewrite bit_vset by done. case_decide; [by apply Hj|].
      rewrite decide_False; [done | congruence].
  Qed.

Lemma test_spec b i : wf n b -> 0 <= i < n -> test b i = Ok (bit b i).
  Proof.
    intros Hwf Hi. destruct (byte_index b i Hwf Hi) as [Hb Hm].
    unfold test, get_raw. rewrite (byte_get b _ Hwf Hb). simpl.
    by rewrite land_bit_test by lia.
  Qed.

Lemma set_spec E b i v : wf n b -> 0 <= i < n ->
    wpr E (set b i v) (fun b' =>
      wf n b' /\ forall j, bit b' j = if decide (j = i) then v else bit b j).
  Proof.
    intros Hwf Hi. destruct (byte_index b i Hwf Hi) as [Hb Hm].
    unfold set, get_raw. rewrite (byte_get b _ Hwf Hb). simpl.
    apply upd_byte_spec; [done | done | |].
    - destruct v; apply u8_range.
    - intros j Hj. destruct v; [by rewrite testbit_set_bit | by rewrite testbit_clear_bit].
  Qed.

Lemma reset_spec E b i : wf n b -> 0 <= i < n ->
    wpr E (reset b i) (fun b' =>
      wf n b' /\ forall j, bit b' j = if decide (j = i) then false else bit b j).
  Proof.
    intros Hwf Hi. destruct (byte_index b i Hwf Hi) as [Hb Hm].
    unfold reset, get_raw. rewrite (byte_get b _ Hwf Hb). simpl.
    apply upd_byte_spec; [done | done | apply u8_range |].
    intros j Hj. by rewrite testbit_clear_bit.
  Qed.

Lemma flip_spec E b i : wf n b -> 0 <= i < n ->
    wpr E (flip b i) (fun b' =>
      wf n b' /\ forall j, bit b' j = if decide (j = i) then negb (bit b i) else bit b j).
  Proof.
    intros Hwf Hi. destruct (byte_index b i Hwf Hi) as [Hb Hm].
    unfold flip, get_raw. rewrite (byte_get b _ Hwf Hb). simpl.
    apply upd_byte_spec; [done | done | apply u8_range |].
    intros j Hj. rewrite testbit_flip_bit by done. unfold bit. by case_decide; subst.
  Qed.

  (** *** Whole-vector operations *)

Lemma testbit_255 k : 0 <= k -> Z.testbit 255 k = bool_decide (k < 8).
  Proof.
    intros Hk. change 255 with (Z.ones 8). case_bool_decide.
    - by rewrite Z.ones_spec_low by lia.
    - by rewrite Z.ones_spec_high by lia.
  Qed.

Lemma byte_range_bits x : 0 <= x -> (forall k, 8 <= k -> Z.testbit x k = false) -> 0 <= x < 256.
  Proof.
    intros Hx H. split; [done|]. enough (u8 x = x) as <- by apply u8_range.
    apply Z.bits_inj'. intros k Hk. destruct (decide (k < 8)).
    - by rewrite testbit_u8 by lia.
    - unfold u8. rewrite Z.mod_pow2_bits_high, H by lia. done.
  Qed.

Lemma testbit_byte_high x k : 0 <= x < 256 -> 8 <= k -> Z.testbit x k = false.
  Proof.
    intros Hx Hk. rewrite <- (u8_small x) by done. unfold u8.
    apply Z.mod_pow2_bits_high. lia.
  Qed.

  (** A vector is well formed when its bits are given by a predicate that is
      false past [n]; this covers every whole-vector operation. *)
Lemma wf_of_bits b (f : Z -> bool) :
    0 < n < 2 ^ 32 - 8 -> dataSize b = n -> allocSize b = (n - 1) / 8 + 1 ->
    vlen (data b) = allocSize b ->
    (forall i, 0 <= i < allocSize b -> 0 <= byte b i < 256) ->
    (forall i k, 0 <= i < allocSize b -> 0 <= k < 8 -> Z.testbit (byte b i) k = f (8 * i + k)) ->
    (forall i, ~ 0 <= i < n -> f i = false) ->
    wf n b /\ forall j, bit b j = f j.
  Proof.
    intros Hn Hs Ha Hl Hr Hb Hf.
    assert (forall i, ~ 0 <= i < allocSize b -> byte b i = 0) as Hout.
    { intros i Hi. unfold byte. by rewrite (proj2 (vget_None (data b) i)) by (by rewrite Hl). }
    assert (forall j, bit b j = f j) as Hbits.
    { intros j. pose proof (Z.div_mod j 8 ltac:(lia)) as Hd. pose proof (Z.mod_pos_bound j 8).
      pose proof (Z.div_mod (n - 1) 8 ltac:(lia)). pose proof (Z.mod_pos_bound (n - 1) 8).
      rewrite Hd, bit_of_byte by lia.
      destruct (decide (0 <= j / 8 < allocSize b)) as [Hi|Hi]; [apply Hb; lia|].
      rewrite Hout, Z.bits_0 by done. symmetry. apply Hf. lia. }
    split; [|done]. split; try done.
    - intros i. destruct (decide (0 <= i < allocSize b)) as [Hi|Hi]; [by apply Hr|].
      rewrite Hout by done. lia.
    - intros i Hi. rewrite Hbits. apply Hf. lia.
  Qed.

Lemma make_spec : 0 < n < 2 ^ 32 - 8 -> wf n (make n) /\ forall j, bit (make n) j = false.
  Proof.
    intros Hn. unfold make. rewrite (proj2 (Z.ltb_lt 0 n)) by lia.
    rewrite DIVCEIL32_spec by lia. pose proof (Z.div_pos (n - 1) 8).
    assert (forall i, byte {| data := replicate (Z.to_nat ((n - 1) / 8 + 1)) 0;
      dataSize := n; allocSize := (n - 1) / 8 + 1 |} i = 0) as Hz.
    { intros i. unfold byte. simpl.
      destruct (vget _ _) as [x|] eqn:Hx; simpl; [|done].
      apply vget_elem_of, elem_of_replicate in Hx. apply Hx. }
    apply (wf_of_bits _ (fun _ => false)); simpl; try done.
    - apply vlen_replicate. lia.
    - intros i _. rewrite Hz. lia.
    - intros i k _ _. by rewrite Hz, Z.bits_0.
  Qed.

  (** Two well-formed vectors with the same bits are the same object state. *)
Lemma ext b b' : wf n b -> wf n b' -> (forall j, 0 <= j < n -> bit b j = bit b' j) -> b = b'.
  Proof.
    intros Hwf Hwf' H. pose proof (wf_alloc_bounds b Hwf) as Hab.
    assert (allocSize b = allocSize b') as Ha.
    { rewrite (wf_alloc n b Hwf). symmetry. apply Hwf'. }
    assert (data b = data b') as Hd.
    { apply vlist_eq; [rewrite (wf_len n b Hwf), (wf_len n b' Hwf'); done|].
      rewrite (wf_len n b Hwf). intros i Hi. rewrite !byte_get by (try done; lia). f_equal.
      apply byte_eq; [by apply Hwf | by apply Hwf'|]. intros k Hk.
      rewrite <- !bit_of_byte by done.
      destruct (decide (8 * i + k < n)); [apply H; lia|].
      by rewrite (wf_pad n b Hwf), (wf_pad n b' Hwf') by lia. }
    destruct b, b'; simpl in *. destruct Hwf as [Hs _ _ _ _ _], Hwf' as [Hs' _ _ _ _ _].
    simpl in *. congruence.
  Qed.

Lemma copy_spec b : wf n b -> copy b = b.
  Proof.
    intros Hwf. pose proof (wf_alloc_bounds b Hwf). unfold copy, make.
    pose proof (wf_len n b Hwf) as Hl. rewrite (wf_size n b Hwf).
    destruct (wf_pos n b Hwf) as [Hn Hn']. rewrite (proj2 (Z.ltb_lt 0 n)) by lia.
    rewrite DIVCEIL32_spec by lia. rewrite <- (wf_alloc n b Hwf). simpl.
    case_decide as Hd; [rewrite Hd in Hl; unfold vlen in Hl; simpl in Hl; lia|].
    rewrite take_ge by (unfold vlen in Hl; lia).
    rewrite <- (wf_size n b Hwf) at 1. by destruct b.
  Qed.

Lemma byte_fmap b f i : wf n b -> 0 <= i < allocSize b ->
    byte (with_data b (f <$> data b)) i = f (byte b i).
  Proof.
    intros Hwf Hi. unfold byte at 1. simpl. rewrite vget_fmap, (byte_get b i Hwf Hi). done.
  Qed.

Lemma for_each_data b f : wf n b -> for_each_raw (allocSize b) f (data b) = Ok (f <$> data b).
  Proof. intros Hwf. rewrite <- (wf_len n b Hwf). apply for_each_raw_map. Qed.

Lemma reset_all_spec E b : wf n b ->
    wpr E (reset_all b) (fun b' => wf n b' /\ forall j, bit b' j = false).
  Proof.
    intros Hwf. unfold reset_all. rewrite for_each_data by done. simpl.
    apply (wf_of_bits _ (fun _ => false)); simpl; try by apply Hwf.
    - rewrite vlen_fmap. apply Hwf.
    - intros i Hi. rewrite byte_fmap by done. lia.
    - intros i k Hi Hk. by rewrite byte_fmap, Z.bits_0 by done.
    - done.
  Qed.

  (** The mask that [set()] and [flip()] apply to the last byte. *)
Lemma last_mask b k : wf n b -> 0 <= k < 8 ->
    Z.testbit (Z.shiftr 255 (u32 (allocSize b * 8 - dataSize b))) k =
    bool_decide (8 * (allocSize b - 1) + k < n).
  Proof.
    intros Hwf Hk. pose proof (wf_alloc_bounds b Hwf). rewrite (wf_size n b Hwf).
    rewrite u32_small, Z.shiftr_spec, testbit_255 by lia.
    apply bool_decide_ext. lia.
  Qed.

Lemma last_mask_range b : wf n b ->
    0 <= Z.shiftr 255 (u32 (allocSize b * 8 - dataSize b)) < 256.
  Proof.
    intros Hwf. pose proof (wf_alloc_bounds b Hwf). rewrite (wf_size n b Hwf).
    rewrite u32_small by lia. rewrite Z.shiftr_div_pow2 by lia.
    split; [apply Z.div_pos; lia|]. apply Z.div_lt_upper_bound; nia.
  Qed.

Lemma set_all_spec E b : wf n b ->
    wpr E (set_all b) (fun b' => wf n b' /\ forall j, bit b' j = bool_decide (0 <= j < n)).
  Proof.
    intros Hwf. pose proof (wf_alloc_bounds b Hwf) as Hab. unfold set_all. wp_steps.
    rewrite (u32_small (allocSize b - 1)) by lia.
    apply wpr_for_range with (I := fun i d => vlen d = allocSize b /\
      forall j, 0 <= j < i -> vget d j = Some 255).
    - lia.
    - split; [apply Hwf | lia].
    - intros i d Hi [Hl Hd]. rewrite set_raw_range by lia. simpl. rewrite vlen_vset.
      split; [done|]. intros j Hj. rewrite vget_vset by lia.
      case_decide; [done | apply Hd; lia].
    - intros d [Hl Hd]. wp_steps. rewrite set_raw_range by lia. simpl.
      set (m := Z.shiftr 255 _).
      assert (forall i, 0 <= i < allocSize b ->
        byte (with_data b (vset d (allocSize b - 1) m)) i =
        if decide (i = allocSize b - 1) then m else 255) as Hbyte.
      { intros i Hi. unfold byte. simpl. rewrite vget_vset by lia.
        case_decide; case_decide; try done; try lia. rewrite Hd by lia. done. }
      apply (wf_of_bits _ (fun j => bool_decide (0 <= j < n))); simpl; try by apply Hwf.
      + by rewrite vlen_vset.
      + intros i Hi. rewrite Hbyte by done. case_decide; [by apply last_mask_range | lia].
      + intros i k Hi Hk. rewrite Hbyte by done. case_decide as He.
        * unfold m. rewrite last_mask by done. apply bool_decide_ext. lia.
        * rewrite testbit_255 by lia. apply bool_decide_ext. lia.
      + intros i Hi. by apply bool_decide_eq_false_2.
  Qed.

Lemma flip_all_spec E b : wf n b ->
    wpr E (flip_all b) (fun b' =>
      wf n b' /\ forall j, bit b' j = bool_decide (0 <= j < n) && negb (bit b j)).
  Proof.
    intros Hwf. pose proof (wf_alloc_bounds b Hwf) as Hab. unfold flip_all.
    rewrite for_each_data by done. simpl. rewrite (u32_small (allocSize b - 1)) by lia.
    set (d := _ <$> data b). assert (vlen d = allocSize b) as Hl
      by (unfold d; rewrite vlen_fmap; apply Hwf).
    assert (forall i, 0 <= i < allocSize b -> vget d i = Some (u8 (Z.lnot (byte b i)))) as Hd.
    { intros i Hi. unfold d. rewrite vget_fmap, (byte_get b) by done. done. }
    rewrite (get_raw_Some _ _ _ (Hd (allocSize b - 1) ltac:(lia))). simpl.
    rewrite set_raw_range by lia. simpl. set (m := Z.shiftr 255 _).
    assert (forall i, 0 <= i < allocSize b ->
      byte (with_data b (vset d (allocSize b - 1) (Z.land (u8 (Z.lnot (byte b (allocSize b - 1)))) m))) i =
      Z.land (u8 (Z.lnot (byte b i))) (if decide (i = allocSize b - 1) then m else 255)) as Hbyte.
    { intros i Hi. unfold byte at 1. simpl. rewrite vget_vset by lia.
      destruct (decide (allocSize b - 1 = i)) as [<-|]; [by rewrite decide_True by lia|].
      rewrite decide_False by lia. rewrite Hd by lia. simpl. change 255 with (Z.ones 8). rewrite Z.land_ones by lia.
      symmetry. apply Z.mod_small. apply u8_range. }
    apply (wf_of_bits _ (fun j => bool_decide (0 <= j < n) && negb (bit b j))); simpl; try by apply Hwf.
    - by rewrite vlen_vset.
    - intros i Hi. rewrite Hbyte by done. apply byte_range_bits.
      + apply Z.land_nonneg. left. apply u8_range.
      + intros k Hk. rewrite Z.land_spec, (testbit_byte_high (u8 _)) by (apply u8_range || lia). done.
    - intros i k Hi Hk. rewrite Hbyte by done.
      rewrite Z.land_spec, testbit_u8, Z.lnot_spec, bit_of_byte by lia.
      rewrite andb_comm. f_equal. case_decide as He.
      + unfold m. rewrite last_mask by done. apply bool_decide_ext. lia.
      + rewrite testbit_255 by lia. apply bool_decide_ext. lia.
    - intros i Hi. by rewrite bool_decide_eq_false_2.
  Qed.

  (** *** Queries *)

  (** Bytes and bits quantify over the same positions. *)
Lemma bytes_forall b (P : bool -> Prop) : wf n b ->
    (forall i, 0 <= i < allocSize b -> forall k, 0 <= k < 8 -> P (bit b (8 * i + k))) <->
    (forall j, 0 <= j < 8 * allocSize b -> P (bit b j)).
  Proof.
    intros Hwf. split; intros H.
    - intros j Hj. pose proof (Z.div_mod j 8 ltac:(lia)) as Hd. rewrite Hd.
      pose proof (Z.mod_pos_bound j 8 ltac:(lia)). apply H; lia.
    - intros i Hi k Hk. apply H. lia.
  Qed.

Lemma byte_zero x : 0 <= x < 256 -> x = 0 <-> forall k, 0 <= k < 8 -> Z.testbit x k = false.
  Proof.
    intros Hx. split; [intros -> k _; apply Z.bits_0|].
    intros H. apply byte_eq; [done | lia|]. intros k Hk. rewrite Z.bits_0. by apply H.
  Qed.

Lemma byte_full x : 0 <= x < 256 -> x = 255 <-> forall k, 0 <= k < 8 -> Z.testbit x k = true.
  Proof.
    intros Hx. split.
    - intros -> k Hk. rewrite testbit_255 by lia. apply bool_decide_eq_true_2. lia.
    - intros H. apply byte_eq; [done | lia|]. intros k Hk.
      rewrite H, testbit_255 by lia. symmetry. apply bool_decide_eq_true_2. lia.
  Qed.

Lemma none_spec E b : wf n b ->
    wpr E (none b) (fun r => r = true <-> forall j, 0 <= j < n -> bit b j = false).
  Proof.
    intros Hwf. pose proof (wf_alloc_bounds b Hwf) as Hab. unfold none. wp_steps.
    apply wpr_for_range with (I := fun i r => 0 <= r < 256 /\
      (r = 0 <-> forall j, 0 <= j < i -> byte b j = 0)).
    - lia.
    - split; [lia|]. split; [lia | done].
    - intros i r Hi [Hr HI]. rewrite (get_raw_Some _ _ _ (byte_get b i Hwf Hi)). simpl.
      pose proof (wf_byte n b Hwf i) as Hb. split.
      + apply byte_range_bits; [apply Z.lor_nonneg; lia|].
        intros k Hk. by rewrite Z.lor_spec, !testbit_byte_high by lia.
      + rewrite Z.lor_eq_0_iff, HI. split.
        * intros [H1 H2] j Hj. destruct (decide (j = i)) as [->|]; [done | apply H1; lia].
        * intros H. split; [intros j Hj; apply H; lia | apply H; lia].
    - intros r [Hr HI]. wp_steps. rewrite Z.eqb_eq, HI.
      transitivity (forall j, 0 <= j < 8 * allocSize b -> bit b j = false).
      + rewrite <- (bytes_forall b (fun x => x = false) Hwf). split; intros H i Hi.
        * intros k Hk. rewrite bit_of_byte by done. rewrite H by done. apply Z.bits_0.
        * apply byte_zero; [by apply Hwf|]. intros k Hk. rewrite <- bit_of_byte by done. by apply H.
      + split; intros H j Hj; [apply H; lia|].
        destruct (decide (j < n)); [apply H; lia | apply Hwf; lia].
  Qed.

Lemma any_spec E b : wf n b ->
    wpr E (any b) (fun r => r = true <-> exists j, 0 <= j < n /\ bit b j = true).
  Proof.
    intros Hwf. unfold any. wp_steps. eapply wpr_mono; [by apply none_spec|].
    intros r Hr. wp_steps. rewrite negb_true_iff. split.
    - intros ->. destruct (Exists_dec (fun j => bit b j = true) (seqZ 0 n)) as [He|Hne].
      + apply Exists_exists in He as (j & Hj%elem_of_seqZ & Hb). exists j. split; [lia | done].
      + exfalso. enough (false = true) by done. apply Hr. intros j Hj.
        apply not_true_is_false. intros Hb. apply Hne, Exists_exists. exists j.
        split; [apply elem_of_seqZ; lia | done].
    - intros (j & Hj & Hb). destruct r; [|done].
      rewrite (proj1 Hr eq_refl) in Hb; done.
  Qed.

Lemma all_spec E b : wf n b ->
    wpr E (all b) (fun r => r = true <-> forall j, 0 <= j < n -> bit b j = true).
  Proof.
    intros Hwf. pose proof (wf_alloc_bounds b Hwf) as Hab. unfold all. wp_steps.
    rewrite (u32_small (allocSize b - 1)) by lia.
    apply wpr_for_range with (I := fun i r => 0 <= r < 256 /\
      forall k, 0 <= k < 8 -> Z.testbit r k = true <->
        forall j, 0 <= j < i -> Z.testbit (byte b j) k = true).
    - lia.
    - split; [lia|]. intros k Hk. split; [lia|]. intros _. rewrite testbit_255 by lia.
      apply bool_decide_eq_true_2. lia.
    - intros i r Hi [Hr HI]. rewrite (get_raw_Some _ _ _ (byte_get b i Hwf ltac:(lia))). simpl.
      split.
      + apply byte_range_bits; [apply Z.land_nonneg; lia|].
        intros k Hk. by rewrite Z.land_spec, testbit_byte_high by lia.
      + intros k Hk. rewrite Z.land_spec, andb_true_iff, HI by done. split.
        * intros [H1 H2] j Hj. destruct (decide (j = i)) as [->|]; [done | apply H1; lia].
        * intros H. split; [intros j Hj; apply H; lia | apply H; lia].
    - intros r [Hr HI]. wp_steps.
      rewrite (get_raw_Some _ _ _ (byte_get b (allocSize b - 1) Hwf ltac:(lia))). wp_steps.
      rewrite Z.eqb_eq, byte_full; last first.
      { apply byte_range_bits; [apply Z.land_nonneg; lia|].
        intros k Hk. by rewrite Z.land_spec, testbit_byte_high by lia. }
      rewrite (wf_size n b Hwf).
      assert (forall k, 0 <= k < 8 ->
        Z.testbit (u8 (Z.shiftl 255 (u32 (n + 8 - allocSize b * 8)))) k =
        bool_decide (n <= 8 * (allocSize b - 1) + k)) as Hmask.
      { intros k Hk. rewrite u32_small, testbit_u8, Z.shiftl_spec by lia.
        destruct (decide (n <= 8 * (allocSize b - 1) + k)) as [H|H].
        - rewrite testbit_255, !bool_decide_eq_true_2 by lia. done.
        - rewrite Z.testbit_neg_r, bool_decide_eq_false_2 by lia. done. }
      split.
      + intros H j Hj. pose proof (Z.div_mod j 8 ltac:(lia)) as Hd. rewrite Hd.
        pose proof (Z.mod_pos_bound j 8 ltac:(lia)) as Hm. rewrite bit_of_byte by done.
        specialize (H _ Hm). rewrite Z.land_spec, Z.lor_spec, Hmask, andb_true_iff in H by done.
        destruct H as [H1 H2]. destruct (decide (j / 8 = allocSize b - 1)) as [He|].
        * rewrite He in *. rewrite bool_decide_eq_false_2, orb_false_r in H2 by lia. done.
        * apply (proj1 (HI _ Hm) H1). lia.
      + intros H k Hk. rewrite Z.land_spec, Z.lor_spec, Hmask, andb_true_iff by done. split.
        * apply HI; [done|]. intros j Hj. rewrite <- bit_of_byte by done. apply H. lia.
        * case_bool_decide; [by rewrite orb_true_r|].
          rewrite orb_false_r, <- bit_of_byte by done. apply H. lia.
  Qed.

Lemma count_spec E b : wf n b -> wpr E (count b) (fun c => c = count_range (bit b) n).
  Proof.
    intros Hwf. pose proof (wf_alloc_bounds b Hwf) as Hab. unfold count.
    apply wpr_for_range with (I := fun i c => c = count_range (bit b) (8 * i)).
    - lia.
    - done.
    - intros i c Hi ->. rewrite (get_raw_Some _ _ _ (byte_get b i Hwf Hi)). simpl.
      rewrite popcount8_spec by (by apply Hwf). unfold bit_count.
      replace (8 * (i + 1)) with (8 * i + 8) by lia.
      rewrite (count_range_app _ (8 * i) 8) by lia.
      rewrite (count_range_ext (Z.testbit (byte b i)) (fun k => bit b (8 * i + k)))
        by (intros k Hk; by rewrite bit_of_byte).
      pose proof (count_range_bounds (bit b) (8 * i) ltac:(lia)).
      pose proof (count_range_bounds (fun k => bit b (8 * i + k)) 8 ltac:(lia)).
      apply u32_small. lia.
    - intros c ->. replace (8 * allocSize b) with (n + (8 * allocSize b - n)) by lia.
      pose proof (wf_pos n b Hwf). rewrite count_range_app by lia.
      rewrite (count_range_ext (fun i => bit b (n + i)) (fun _ => false)) by (intros i Hi; apply Hwf; lia).
      pose proof (count_range_pos (fun _ => false) (8 * allocSize b - n) ltac:(lia)) as [Hcp _].
      pose proof (count_range_bounds (fun _ => false) (8 * allocSize b - n) ltac:(lia)).
      destruct (decide (0 < count_range (fun _ => false) (8 * allocSize b - n))) as [Hp|]; [|lia].
      apply Hcp in Hp as (? & _ & [=]).
  Qed.

  (** *** Bitwise operators *)

Lemma bitwise_spec E (op : Z -> Z -> Z) (f : bool -> bool -> bool) b b' :
    (forall x y, 0 <= x -> 0 <= y -> 0 <= op x y) ->
    (forall x y k, 0 <= k -> Z.testbit (op x y) k = f (Z.testbit x k) (Z.testbit y k)) ->
    f false false = false ->
    wf n b -> wf n b' ->
    wpr E (bitwise op b b') (fun c => wf n c /\ forall j, bit c j = f (bit b j) (bit b' j)).
  Proof.
    intros Hpos Hop Hff Hwf Hwf'. pose proof (wf_alloc_bounds b Hwf) as Hab. unfold bitwise.
    assert (allocSize b = allocSize b') as Ha.
    { rewrite (wf_alloc n b Hwf). symmetry. apply Hwf'. }
    rewrite (wf_size n b Hwf), (wf_size n b' Hwf'), Z.eqb_refl. wp_steps.
    apply wpr_for_range with (I := fun i d => vlen d = allocSize b /\
      forall j, 0 <= j < allocSize b ->
        vget d j = Some (if decide (j < i) then op (byte b j) (byte b' j) else byte b j)).
    - lia.
    - split; [apply Hwf|]. intros j Hj. rewrite decide_False by lia. by apply byte_get.
    - intros i d Hi [Hl HI]. unfold get_raw. rewrite (HI i Hi), decide_False by lia.
      rewrite (byte_get b' i Hwf') by lia. simpl. rewrite set_raw_range by lia. simpl.
      rewrite vlen_vset. split; [done|]. intros j Hj. rewrite vget_vset by lia.
      destruct (decide (i = j)) as [<-|]; [by rewrite decide_True by lia|].
      rewrite HI by done. by case_decide; case_decide; try done; try lia.
    - intros d [Hl HI]. wp_steps.
      assert (forall i, 0 <= i < allocSize b -> byte (with_data b d) i = op (byte b i) (byte b' i)) as Hby.
      { intros i Hi. unfold byte at 1. simpl. rewrite HI, decide_True by lia. done. }
      apply (wf_of_bits _ (fun j => f (bit b j) (bit b' j))); simpl; try by apply Hwf.
      + done.
      + intros i Hi. rewrite Hby by done.
        pose proof (wf_byte n b Hwf i). pose proof (wf_byte n b' Hwf' i). apply byte_range_bits.
        * apply Hpos; lia.
        * intros k Hk. rewrite Hop by lia.
          rewrite (testbit_byte_high (byte b i)) by (apply (wf_byte n b Hwf) || lia).
          rewrite (testbit_byte_high (byte b' i)) by (apply (wf_byte n b' Hwf') || lia). done.
      + intros i k Hi Hk. rewrite Hby, Hop, !bit_of_byte by lia. done.
      + intros i Hi. unfold bit. destruct (decide (i < 0)).
        * assert (forall c, byte c (i / 8) = 0) as Hz.
          { intros c. unfold byte. rewrite (proj2 (vget_None _ _)); [done|].
            intros [? _]. assert (i / 8 < 0) by (apply Z.div_lt_upper_bound; lia). lia. }
          by rewrite !Hz, !Z.bits_0.
        * change (f (bit b i) (bit b' i) = false).
          rewrite (wf_pad n b Hwf), (wf_pad n b' Hwf') by lia. done.
  Qed.

Lemma and_spec E b b' : wf n b -> wf n b' ->
    wpr E (and_op b b') (fun c => wf n c /\ forall j, bit c j = bit b j && bit b' j).
  Proof.
    intros Hwf Hwf'. unfold and_op. rewrite copy_spec by done. apply bitwise_spec; auto.
    - intros. apply Z.land_nonneg. auto.
    - intros. apply Z.land_spec.
  Qed.

Lemma or_spec E b b' : wf n b -> wf n b' ->
    wpr E (or_op b b') (fun c => wf n c /\ forall j, bit c j = bit b j || bit b' j).
  Proof.
    intros Hwf Hwf'. unfold or_op. rewrite copy_spec by done. apply bitwise_spec; auto.
    - intros. apply Z.lor_nonneg. auto.
    - intros. apply Z.lor_spec.
  Qed.

Lemma xor_spec E b b' : wf n b -> wf n b' ->
    wpr E (xor_op b b') (fun c => wf n c /\ forall j, bit c j = xorb (bit b j) (bit b' j)).
  Proof.
    intros Hwf Hwf'. unfold xor_op. rewrite copy_spec by done. apply bitwise_spec; auto.
    - intros. apply Z.lxor_nonneg. tauto.
    - intros. apply Z.lxor_spec.
  Qed.

Lemma not_spec E b : wf n b ->
    wpr E (not_op b) (fun c =>
      wf n c /\ forall j, bit c j = bool_decide (0 <= j < n) && negb (bit b j)).
  Proof. intros Hwf. unfold not_op. rewrite copy_spec by done. by apply flip_all_spec. Qed.

End Theory.

(** *** Equality and the array of booleans a vector stands for *)

Lemma eq_bytes_spec m i l r : 0 <= i -> i + Z.of_nat m <= vlen l -> i + Z.of_nat m <= vlen r ->
  exists q, eq_bytes m i l r = Ok q /\
    (q = true <-> forall j, i <= j < i + Z.of_nat m -> vget l j = vget r j).
Proof.
  revert i. induction m as [|m IH]; intros i Hi Hl Hr.
  - exists true. split; [done|]. split; [lia | done].
  - destruct (vget_in_range l i) as [x Hx]; [lia|]. destruct (vget_in_range r i) as [y Hy]; [lia|].
    destruct (IH (i + 1)) as (q & Hq & Hqs); [lia.. |].
    cbn [eq_bytes]. rewrite (get_raw_Some _ _ _ Hx), (get_raw_Some _ _ _ Hy). simpl.
    destruct (Z.eqb_spec x y) as [<-|Hne].
    + exists q. split; [done|]. rewrite Hqs. split; intros H j Hj.
      * destruct (decide (j = i)) as [->|]; [by rewrite Hx, Hy | apply H; lia].
      * apply H. lia.
    + exists false. split; [done|]. split; [done|]. intros H.
      specialize (H i ltac:(lia)). congruence.
Qed.

Lemma op_eq_spec n b b' : wf n b -> wf n b' ->
  exists q, op_eq b b' = Ok q /\ (q = true <-> b = b').
Proof.
  intros Hwf Hwf'. pose proof (wf_alloc_bounds n b Hwf) as Hab. unfold op_eq.
  assert (allocSize b = allocSize b') as Ha.
  { rewrite (wf_alloc n b Hwf). symmetry. apply Hwf'. }
  rewrite (wf_size n b Hwf), (wf_size n b' Hwf'), Z.eqb_refl.
  destruct (eq_bytes_spec (Z.to_nat (allocSize b)) 0 (data b) (data b')) as (q & Hq & Hqs).
  - lia.
  - rewrite (wf_len n b Hwf). lia.
  - rewrite (wf_len n b' Hwf'). lia.
  - exists q. split; [done|]. rewrite Hqs. split; [|by intros ->].
    intros H. apply (ext n); [done.. |]. intros j Hj.
    destruct (byte_index n b j Hwf Hj) as [Hby _]. unfold bit, byte. by rewrite H by lia.
Qed.

(** The abstract value: an array of [n] booleans. *)
Definition model (n : Z) (b : t) : list bool := bit b <$> seqZ 0 n.

Lemma vget_model n b i : 0 <= n -> 0 <= i < n -> vget (model n b) i = Some (bit b i).
Proof.
  intros Hn Hi. unfold model. rewrite vget_fmap. unfold vget.
  rewrite (proj2 (Z.ltb_ge i 0)), lookup_seqZ_lt by lia. simpl. do 2 f_equal. lia.
Qed.

Lemma vlen_model n b : 0 <= n -> vlen (model n b) = n.
Proof. intros Hn. unfold model, vlen. rewrite length_fmap, length_seqZ. lia. Qed.

Lemma model_update n b b' i v : 0 <= i < n ->
  (forall j, bit b' j = if decide (j = i) then v else bit b j) ->
  model n b' = vset (model n b) i v.
Proof.
  intros Hi H. apply vlist_eq; rewrite ?vlen_vset, !vlen_model by lia; [done|].
  intros j Hj. rewrite vget_vset by (rewrite vlen_model; lia).
  rewrite !vget_model, H by lia. by case_decide; case_decide.
Qed.

Lemma model_const n b v : 0 <= n -> (forall j, 0 <= j < n -> bit b j = v) ->
  model n b = replicate (Z.to_nat n) v.
Proof.
  intros Hn H. apply vlist_eq; rewrite ?vlen_model, ?vlen_replicate by lia; [done|].
  intros j Hj. rewrite vget_model, vget_replicate, H by lia. done.
Qed.

(** ** Properties *)

(** C36: the bit vector refines an array of [n] booleans.  On a vector of [n]
    bits and an index below [n], [test] reads the array, and [set], [reset] and
    [flip] of an index, and [set()], [reset()] and [flip()] of the whole vector,
    return (no access past the allocation) a well-formed vector whose array is
    the updated one; the padding bits of the last byte stay clear. *)
Theorem ops_refine_bool_array (n : Z) (b : t) (i : Z) (v : bool) :
  wf n b -> 0 <= i < n ->
  test b i = Ok (default false (vget (model n b) i)) /\
  wpr noerr (set b i v) (fun b' => wf n b' /\ model n b' = vset (model n b) i v) /\
  wpr noerr (reset b i) (fun b' => wf n b' /\ model n b' = vset (model n b) i false) /\
  wpr noerr (flip b i) (fun b' =>
    wf n b' /\ model n b' = vset (model n b) i (negb (bit b i))) /\
  wpr noerr (set_all b) (fun b' => wf n b' /\ model n b' = replicate (Z.to_nat n) true) /\
  wpr noerr (reset_all b) (fun b' => wf n b' /\ model n b' = replicate (Z.to_nat n) false) /\
  wpr noerr (flip_all b) (fun b' => wf n b' /\ model n b' = negb <$> model n b).
Proof.
  intros Hwf Hi. split_and!.
  - rewrite (test_spec n), vget_model by (done || lia). done.
  - eapply wpr_mono; [by apply (set_spec n)|]. intros b' [? H].
    split; [done | by apply model_update].
  - eapply wpr_mono; [by apply (reset_spec n)|]. intros b' [? H].
    split; [done | by apply model_update].
  - eapply wpr_mono; [by apply (flip_spec n)|]. intros b' [? H].
    split; [done | by apply model_update].
  - eapply wpr_mono; [by apply (set_all_spec n)|]. intros b' [? H]. split; [done|].
    apply model_const; [lia|]. intros j Hj. rewrite H. by apply bool_decide_eq_true_2.
  - eapply wpr_mono; [by apply (reset_all_spec n)|]. intros b' [? H]. split; [done|].
    apply model_const; [lia|]. intros j Hj. by rewrite H.
  - eapply wpr_mono; [by apply (flip_all_spec n)|]. intros b' [? H]. split; [done|].
    unfold model. rewrite <- list_fmap_compose. apply list_fmap_ext.
    intros k j (-> & Hk)%lookup_seqZ. rewrite H, bool_decide_eq_true_2 by lia. done.
Qed.

Lemma make_wf_instance : wf 12 (make 12).
Proof. apply make_spec. lia. Defined.

Theorem ops_refine_bool_array_witness :
  wf 12 (make 12) /\ test (make 12) 11 = Ok false /\
  wpr noerr (set (make 12) 11 true) (fun b' =>
    wf 12 b' /\ model 12 b' = vset (model 12 (make 12)) 11 true).
Proof.
  split; [exact make_wf_instance|].
  pose proof (ops_refine_bool_array 12 (make 12) 11 true make_wf_instance) as H.
  destruct H as (H1 & H2 & _); [lia|]. split; [exact H1 | exact H2].
Defined.

(** The queries agree with the array: [count] is the number of set
    positions, [all], [any] and [none] quantify over the [n] positions (the
    mask of [all] hides the padding), and [==] decides equality. *)
Theorem queries_correct (n : Z) (b b' : t) :
  wf n b -> wf n b' ->
  count b = Ok (count_range (bit b) n) /\
  wpr noerr (all b) (fun r => r = true <-> Forall (eq true) (model n b)) /\
  wpr noerr (any b) (fun r => r = true <-> Exists (eq true) (model n b)) /\
  wpr noerr (none b) (fun r => r = true <-> Forall (eq false) (model n b)) /\
  wpr noerr (op_eq b b') (fun r => r = true <-> model n b = model n b').
Proof.
  intros Hwf Hwf'. pose proof (wf_pos n b Hwf). split_and!.
  - pose proof (count_spec n noerr b Hwf) as H1. apply wpr_noerr in H1 as (c & -> & ->). done.
  - eapply wpr_mono; [by apply (all_spec n)|]. intros r ->.
    unfold model. rewrite Forall_fmap, Forall_seqZ. split; intros H1 j Hj.
    + symmetry. apply H1. lia.
    + symmetry. apply (H1 j). lia.
  - eapply wpr_mono; [by apply (any_spec n)|]. intros r ->.
    unfold model. rewrite Exists_fmap, Exists_exists. split.
    + intros (j & Hj & Hb). exists j. split; [apply elem_of_seqZ; lia | done].
    + intros (j & Hj%elem_of_seqZ & Hb). exists j. split; [lia | done].
  - eapply wpr_mono; [by apply (none_spec n)|]. intros r ->.
    unfold model. rewrite Forall_fmap, Forall_seqZ. split; intros H1 j Hj.
    + symmetry. apply H1. lia.
    + symmetry. apply (H1 j). lia.
  - destruct (op_eq_spec n b b' Hwf Hwf') as (q & -> & Hq). simpl. rewrite Hq.
    split; [by intros ->|]. intros Hm. apply (ext n); [done.. |]. intros j Hj.
    assert (vget (model n b) j = vget (model n b') j) as Hv by (by rewrite Hm).
    rewrite !vget_model in Hv by lia. congruence.
Qed.

Theorem queries_correct_witness :
  count (make 12) = Ok 0 /\ wpr noerr (none (make 12)) (fun r => r = true <-> Forall (eq false) (model 12 (make 12))).
Proof.
  destruct (queries_correct 12 (make 12) (make 12) make_wf_instance make_wf_instance)
    as (H1 & _ & _ & H2 & _).
  split; [exact H1 | exact H2].
Defined.

(** The operators are the pointwise boolean ones, [~] is an involution and
    De Morgan's law holds of the object states themselves (bytes and padding
    included): [~(~b & ~c)] is [b | c]. *)
Theorem operators_boolean_algebra (n : Z) (b c : t) :
  wf n b -> wf n c ->
  (x ← not_op b; not_op x) = Ok b /\
  (x ← not_op b; y ← not_op c; z ← and_op x y; not_op z) = or_op b c /\
  wpr noerr (xor_op b c) (fun d => forall j, bit d j = xorb (bit b j) (bit c j)).
Proof.
  intros Hb Hc.
  pose proof (not_spec n noerr b Hb) as (nb & Hnb & Wnb & Bnb)%wpr_noerr.
  pose proof (not_spec n noerr nb Wnb) as (nnb & Hnnb & Wnnb & Bnnb)%wpr_noerr.
  pose proof (not_spec n noerr c Hc) as (nc & Hnc & Wnc & Bnc)%wpr_noerr.
  pose proof (and_spec n noerr nb nc Wnb Wnc) as (a & Ha & Wa & Ba)%wpr_noerr.
  pose proof (not_spec n noerr a Wa) as (na & Hna & Wna & Bna)%wpr_noerr.
  pose proof (or_spec n noerr b c Hb Hc) as (o & Ho & Wo & Bo)%wpr_noerr.
  split_and!.
  - rewrite Hnb. simpl. rewrite Hnnb. f_equal. apply (ext n); [done.. |]. intros j Hj.
    rewrite Bnnb, Bnb, bool_decide_eq_true_2 by done. simpl. apply negb_involutive.
  - rewrite Hnb. simpl. rewrite Hnc. simpl. rewrite Ha. simpl. rewrite Hna, Ho. f_equal.
    apply (ext n); [done.. |]. intros j Hj.
    rewrite Bna, Ba, Bnb, Bnc, Bo, bool_decide_eq_true_2 by done. simpl.
    by rewrite <- negb_orb, negb_involutive.
  - eapply wpr_mono; [by apply (xor_spec n)|]. by intros d [_ H].
Qed.

Theorem operators_boolean_algebra_witness :
  (x ← not_op (make 12); not_op x) = Ok (make 12).
Proof.
  exact (proj1 (operators_boolean_algebra 12 _ _ make_wf_instance make_wf_instance)).
Defined.

End Bitset.
