(* ===== verification/Block.v ===== *)
(** * ftl/common/block.hh, ftl/common/block.cc: one physical (super)block

    Module [Block]: the fields of the class, in both of its layouts (one
    [Bitset] over the pages when a page is one I/O unit, one [Bitset] per page
    otherwise), and one definition per member function.  The section [View]
    gives the layout-independent view ([validAt], [erasedAt], [lpnAt],
    [nextAt]) and states each operation through it. *)

From S2P Require Import Prelude Bitset.

Module Block.

Inductive blockPoolType : Type := HOT | COLD | COOL.

#[global] Instance blockPoolType_eq_dec : EqDecision blockPoolType.
Proof. solve_decision. Defined.

Record t : Type := mk {
  idx : Z;
  pageCount : Z;
  ioUnitInPage : Z;
  pNextWritePageIndex : list Z;
  pValidBits : option Bitset.t;
  pErasedBits : option Bitset.t;
  pLPNs : list Z;
  validBits : list Bitset.t;
  erasedBits : list Bitset.t;
  ppLPNs : list (list Z);
  lastAccessed : Z;
  eraseCount : Z;
  lastWritten : Z;
  maxErrorCount : Z;
  refreshedPageCount : Z;
  blockType : blockPoolType;
}.

(** Field updates. *)
Definition with_next (x : list Z) (b : t) : t :=
  mk (idx b) (pageCount b) (ioUnitInPage b) x (pValidBits b) (pErasedBits b) (pLPNs b)
     (validBits b) (erasedBits b) (ppLPNs b) (lastAccessed b) (eraseCount b) (lastWritten b)
     (maxErrorCount b) (refreshedPageCount b) (blockType b).
Definition with_single (v e : option Bitset.t) (l : list Z) (b : t) : t :=
  mk (idx b) (pageCount b) (ioUnitInPage b) (pNextWritePageIndex b) v e l
     (validBits b) (erasedBits b) (ppLPNs b) (lastAccessed b) (eraseCount b) (lastWritten b)
     (maxErrorCount b) (refreshedPageCount b) (blockType b).
Definition with_multi (v e : list Bitset.t) (l : list (list Z)) (b : t) : t :=
  mk (idx b) (pageCount b) (ioUnitInPage b) (pNextWritePageIndex b) (pValidBits b)
     (pErasedBits b) (pLPNs b) v e l (lastAccessed b) (eraseCount b) (lastWritten b)
     (maxErrorCount b) (refreshedPageCount b) (blockType b).
Definition with_lastAccessed (x : Z) (b : t) : t :=
  mk (idx b) (pageCount b) (ioUnitInPage b) (pNextWritePageIndex b) (pValidBits b)
     (pErasedBits b) (pLPNs b) (validBits b) (erasedBits b) (ppLPNs b) x (eraseCount b)
     (lastWritten b) (maxErrorCount b) (refreshedPageCount b) (blockType b).
Definition setEraseCount (x : Z) (b : t) : t :=
  mk (idx b) (pageCount b) (ioUnitInPage b) (pNextWritePageIndex b) (pValidBits b)
     (pErasedBits b) (pLPNs b) (validBits b) (erasedBits b) (ppLPNs b) (lastAccessed b) x
     (lastWritten b) (maxErrorCount b) (refreshedPageCount b) (blockType b).
Definition setLastWrittenTime (x : Z) (b : t) : t :=
  mk (idx b) (pageCount b) (ioUnitInPage b) (pNextWritePageIndex b) (pValidBits b)
     (pErasedBits b) (pLPNs b) (validBits b) (erasedBits b) (ppLPNs b) (lastAccessed b)
     (eraseCount b) x (maxErrorCount b) (refreshedPageCount b) (blockType b).
Definition setMaxErrorCount (x : Z) (b : t) : t :=
  mk (idx b) (pageCount b) (ioUnitInPage b) (pNextWritePageIndex b) (pValidBits b)
     (pErasedBits b) (pLPNs b) (validBits b) (erasedBits b) (ppLPNs b) (lastAccessed b)
     (eraseCount b) (lastWritten b) x (refreshedPageCount b) (blockType b).
Definition setRefreshedPageCount (x : Z) (b : t) : t :=
  mk (idx b) (pageCount b) (ioUnitInPage b) (pNextWritePageIndex b) (pValidBits b)
     (pErasedBits b) (pLPNs b) (validBits b) (erasedBits b) (ppLPNs b) (lastAccessed b)
     (eraseCount b) (lastWritten b) (maxErrorCount b) x (blockType b).
Definition setBlockType (x : blockPoolType) (b : t) : t :=
  mk (idx b) (pageCount b) (ioUnitInPage b) (pNextWritePageIndex b) (pValidBits b)
     (pErasedBits b) (pLPNs b) (validBits b) (erasedBits b) (ppLPNs b) (lastAccessed b)
     (eraseCount b) (lastWritten b) (maxErrorCount b) (refreshedPageCount b) x.

(** Dereferencing a pointer to a bit vector. *)
Definition deref (p : option Bitset.t) : res Bitset.t :=
  match p with Some b => Ok b | None => Err UB end.

(** [erase()] *)
Definition erase (b : t) : res t :=
  b ← (if ioUnitInPage b =? 1 then
         v ← deref (pValidBits b); v ← Bitset.reset_all v;
         e ← deref (pErasedBits b); e ← Bitset.set_all e;
         Ok (with_single (Some v) (Some e) (pLPNs b) b)
       else
         v ← mapM Bitset.reset_all (validBits b);
         e ← mapM Bitset.set_all (erasedBits b);
         Ok (with_multi v e (ppLPNs b) b));
  let b := with_next (replicate (Z.to_nat (ioUnitInPage b)) 0) b in
  Ok (setEraseCount (u32 (eraseCount b + 1)) b).

(** The body the three constructors share: allocate the layout the I/O unit
    asks for, [erase()], then set the initial erase count. *)
Definition construct (blockIdx count ioUnit initPE : Z) (ty : blockPoolType) : res t :=
  b ← (if ioUnit =? 1 then
         Ok (mk blockIdx count ioUnit [] (Some (Bitset.make count)) (Some (Bitset.make count))
               (replicate (Z.to_nat count) 0) [] [] [] 0 0 0 0 0 ty)
       else if 1 <? ioUnit then
         let copy := Bitset.make ioUnit in
         Ok (mk blockIdx count ioUnit [] None None []
               (replicate (Z.to_nat count) copy) (replicate (Z.to_nat count) copy)
               (replicate (Z.to_nat count) (replicate (Z.to_nat ioUnit) 0)) 0 0 0 0 0 ty)
       else panic "Invalid I/O unit in page");
  let b := with_next (replicate (Z.to_nat ioUnit) 0) b in
  b ← erase b;
  Ok (setEraseCount initPE b).

(** [Block(idx, count, ioUnit)] *)
Definition make (blockIdx count ioUnit : Z) : res t := construct blockIdx count ioUnit 0 COLD.
(** [Block(idx, count, ioUnit, initPE)] *)
Definition make_pe (blockIdx count ioUnit initPE : Z) : res t :=
  construct blockIdx count ioUnit initPE COLD.
(** [Block(idx, count, ioUnit, initPE, blockType)] *)
Definition make_typed (blockIdx count ioUnit initPE : Z) (ty : blockPoolType) : res t :=
  construct blockIdx count ioUnit initPE ty.

(** [Block(const Block &)]: construct, then copy the members the code lists
    ([lastAccessed] is not one of them). *)
Definition copy (old : t) : res t :=
  b ← make (idx old) (pageCount old) (ioUnitInPage old);
  b ← (if ioUnitInPage old =? 1 then
         v ← deref (pValidBits old); e ← deref (pErasedBits old);
         Ok (with_single (Some (Bitset.copy v)) (Some (Bitset.copy e))
               (take (Z.to_nat (pageCount old)) (pLPNs old)) b)
       else Ok (with_multi (Bitset.copy <$> validBits old) (Bitset.copy <$> erasedBits old)
                  (take (Z.to_nat (ioUnitInPage old)) <$>
                     take (Z.to_nat (pageCount old)) (ppLPNs old)) b));
  let b := with_next (take (Z.to_nat (ioUnitInPage old)) (pNextWritePageIndex old)) b in
  let b := setEraseCount (eraseCount old) b in
  let b := setLastWrittenTime (lastWritten old) b in
  let b := setMaxErrorCount (maxErrorCount old) b in
  let b := setRefreshedPageCount (refreshedPageCount old) b in
  Ok (setBlockType (blockType old) b).

(** [Block(Block &&)]: (the new block, what is left in the old one). *)
Definition move (old : t) : t * t :=
  (old, mk 0 0 0 [] None None [] [] [] [] 0 0 0 0 0 COLD).

Definition getBlockIndex (b : t) : Z := idx b.
Definition getLastAccessedTime (b : t) : Z := lastAccessed b.
Definition getEraseCount (b : t) : Z := eraseCount b.
Definition getLastWrittenTime (b : t) : Z := lastWritten b.
Definition getBlockType (b : t) : blockPoolType := blockType b.
Definition getMaxErrorCount (b : t) : Z := maxErrorCount b.
Definition getRefreshedPageCount (b : t) : Z := refreshedPageCount b.

Definition getValidPageCount (b : t) : res Z :=
  if ioUnitInPage b =? 1 then v ← deref (pValidBits b); Bitset.count v
  else foldM (fun v ret => a ← Bitset.any v; Ok (if a : bool then u32 (ret + 1) else ret))
         (validBits b) 0.

Definition getValidPageCountRaw (b : t) : res Z :=
  if ioUnitInPage b =? 1 then v ← deref (pValidBits b); Bitset.count v
  else foldM (fun v ret => c ← Bitset.count v; Ok (u32 (ret + c))) (validBits b) 0.

Definition getDirtyPageCount (b : t) : res Z :=
  if ioUnitInPage b =? 1 then
    v ← deref (pValidBits b); e ← deref (pErasedBits b);
    o ← Bitset.or_op v e; n ← Bitset.not_op o; Bitset.count n
  else for_range 0 (pageCount b) (fun i ret =>
         v ← get_at (validBits b) i; e ← get_at (erasedBits b) i;
         o ← Bitset.or_op v e; n ← Bitset.not_op o; a ← Bitset.any n;
         Ok (if a : bool then u32 (ret + 1) else ret)) 0.

(** [getNextWritePageIndex()]: the largest write pointer. *)
Definition getNextWritePageIndex (b : t) : res Z :=
  for_range 0 (ioUnitInPage b) (fun i idx =>
    x ← get_raw (pNextWritePageIndex b) i; Ok (if idx <? x then x else idx)) 0.

(** [getNextWritePageIndex(idx)] *)
Definition getNextWritePageIndexAt (b : t) (i : Z) : res Z := get_raw (pNextWritePageIndex b) i.

(** [getPageInfo(pageIndex, lpn, map)]: (the result, the new [lpn], the new [map]). *)
Definition getPageInfo (b : t) (pageIndex : Z) (map : Bitset.t) : res (bool * list Z * Bitset.t) :=
  '(lpn, map) ←
    (if (ioUnitInPage b =? 1) && (Bitset.size map =? 1) then
       map ← Bitset.reset_all map;
       v ← deref (pValidBits b);
       x ← Bitset.test v pageIndex;
       map ← (if x : bool then Bitset.set_all map else Ok map);
       l ← get_raw (pLPNs b) pageIndex;
       Ok ([l], map)
     else if Bitset.size map =? ioUnitInPage b then
       v ← get_at (validBits b) pageIndex;
       l ← get_raw (ppLPNs b) pageIndex;
       Ok (l, Bitset.copy v)
     else panic "I/O map size mismatch");
  r ← Bitset.any map;
  Ok (r, lpn, map).

Definition read (b : t) (pageIndex i tick : Z) : res (bool * t) :=
  rd ← (if (ioUnitInPage b =? 1) && (i =? 0) then
          v ← deref (pValidBits b); Bitset.test v pageIndex
        else if i <? ioUnitInPage b then
          v ← get_at (validBits b) pageIndex; Bitset.test v i
        else panic "I/O map size mismatch");
  Ok (rd, if rd : bool then with_lastAccessed tick b else b).

Definition write (b : t) (pageIndex lpn i tick : Z) : res (bool * t) :=
  wr ← (if (ioUnitInPage b =? 1) && (i =? 0) then
          e ← deref (pErasedBits b); Bitset.test e pageIndex
        else if i <? ioUnitInPage b then
          e ← get_at (erasedBits b) pageIndex; Bitset.test e i
        else panic "I/O map size mismatch");
  if wr : bool then
    nx ← get_raw (pNextWritePageIndex b) i;
    if pageIndex <? nx then panic "Write to block should sequential"
    else
      let b := with_lastAccessed tick b in
      b ← (if ioUnitInPage b =? 1 then
             e ← deref (pErasedBits b); e ← Bitset.reset e pageIndex;
             v ← deref (pValidBits b); v ← Bitset.set v pageIndex true;
             l ← set_raw (pLPNs b) pageIndex lpn;
             Ok (with_single (Some v) (Some e) l b)
           else
             e ← get_at (erasedBits b) pageIndex; e ← Bitset.reset e i;
             v ← get_at (validBits b) pageIndex; v ← Bitset.set v i true;
             row ← get_raw (ppLPNs b) pageIndex; row ← set_raw row i lpn;
             Ok (with_multi (vset (validBits b) pageIndex v) (vset (erasedBits b) pageIndex e)
                   (vset (ppLPNs b) pageIndex row) b));
      nxs ← set_raw (pNextWritePageIndex b) i (u32 (pageIndex + 1));
      Ok (true, with_next nxs b)
  else panic "Write to non erased page".

Definition invalidate (b : t) (pageIndex i : Z) : res t :=
  if ioUnitInPage b =? 1 then
    v ← deref (pValidBits b); v ← Bitset.reset v pageIndex;
    Ok (with_single (Some v) (pErasedBits b) (pLPNs b) b)
  else
    v ← get_at (validBits b) pageIndex; v ← Bitset.reset v i;
    Ok (with_multi (vset (validBits b) pageIndex v) (erasedBits b) (ppLPNs b) b).

(** ** The layout-independent view *)

(** One family of flags, in the single layout (a vector over pages) or in the
    multi layout (a vector of vectors). *)
Definition flagAt (io : Z) (single : option Bitset.t) (multi : list Bitset.t) (p i : Z) : bool :=
  if io =? 1 then (i =? 0) && from_option (fun v => Bitset.bit v p) false single
  else from_option (fun v => Bitset.bit v i) false (vget multi p).

Definition validAt (b : t) : Z -> Z -> bool :=
  flagAt (ioUnitInPage b) (pValidBits b) (validBits b).
Definition erasedAt (b : t) : Z -> Z -> bool :=
  flagAt (ioUnitInPage b) (pErasedBits b) (erasedBits b).
Definition lpnAt (b : t) (p i : Z) : Z :=
  if ioUnitInPage b =? 1 then default 0 (vget (pLPNs b) p)
  else default 0 (vget (default [] (vget (ppLPNs b) p)) i).
Definition nextAt (b : t) (i : Z) : Z := default 0 (vget (pNextWritePageIndex b) i).

Definition flag_wf (pc io : Z) (single : option Bitset.t) (multi : list Bitset.t) : Prop :=
  (io = 1 -> exists v, single = Some v /\ Bitset.wf pc v) /\
  (io <> 1 -> vlen multi = pc /\ forall p v, vget multi p = Some v -> Bitset.wf io v).

Record wf (pc io : Z) (b : t) : Prop := {
  wf_pc : pageCount b = pc;
  wf_io : ioUnitInPage b = io;
  wf_pc_pos : 0 < pc < 2 ^ 32 - 8;
  wf_io_pos : 0 < io < 2 ^ 32 - 8;
  wf_next : vlen (pNextWritePageIndex b) = io;
  wf_valid : flag_wf pc io (pValidBits b) (validBits b);
  wf_erased : flag_wf pc io (pErasedBits b) (erasedBits b);
  wf_lpns : if io =? 1 then vlen (pLPNs b) = pc
            else vlen (ppLPNs b) = pc /\
                 forall p row, vget (ppLPNs b) p = Some row -> vlen row = io;
}.

(** The block invariant: write pointers stay in the block, everything at or
    after a write pointer is erased, and a valid unit is not erased. *)
Record inv (pc io : Z) (b : t) : Prop := {
  inv_wf : wf pc io b;
  inv_next : forall i, 0 <= i < io -> 0 <= nextAt b i <= pc;
  inv_erased : forall p i, 0 <= i < io -> nextAt b i <= p < pc -> erasedAt b p i = true;
  inv_valid : forall p i, validAt b p i = true -> erasedAt b p i = false;
}.

Section Flags.
  Context (pc io : Z).
  Implicit Types (single : option Bitset.t) (multi : list Bitset.t).

  (** The test that [read] and [write] open with. *)
Lemma flag_test single multi p i :
    flag_wf pc io single multi -> 0 <= p < pc -> 0 <= i < io ->
    (if (io =? 1) && (i =? 0) then v ← deref single; Bitset.test v p
     else if i <? io then v ← get_at multi p; Bitset.test v i
     else panic "I/O map size mismatch") = Ok (flagAt io single multi p i).
  Proof.
    intros [Hs Hm] Hp Hi. unfold flagAt. destruct (Z.eqb_spec io 1) as [->|Hio]; simpl.
    - destruct Hs as (v & -> & Hv); [done|]. assert (i = 0) as -> by lia. simpl.
      by apply (Bitset.test_spec pc).
    - destruct Hm as [Hl Hv]; [done|]. rewrite (proj2 (Z.ltb_lt i io)) by lia.
      destruct (vget_in_range multi p) as [v Hgv]; [lia|].
      unfold get_at. rewrite Hgv. simpl. apply (Bitset.test_spec io); [by eapply Hv | lia].
  Qed.

  (** Flags change at one position only. *)
Lemma flag_upd_single single multi v' p x : io = 1 -> flag_wf pc io single multi ->
    Bitset.wf pc v' ->
    (forall v, single = Some v ->
       forall j, Bitset.bit v' j = if decide (j = p) then x else Bitset.bit v j) ->
    flag_wf pc io (Some v') multi /\
    forall p' i', flagAt io (Some v') multi p' i' =
      if decide (p' = p /\ i' = 0) then x else flagAt io single multi p' i'.
  Proof.
    intros -> [Hs _] Hv' Hbits. destruct Hs as (v & -> & Hv); [done|]. split.
    { split; [intros _; eauto | done]. }
    intros p' i'. unfold flagAt. simpl. rewrite (Hbits v eq_refl).
    destruct (Z.eqb_spec i' 0) as [->|]; simpl.
    - by case_decide; case_decide; naive_solver.
    - by rewrite decide_False by naive_solver.
  Qed.

Lemma flag_upd_multi single multi v v' p i x : io <> 1 -> flag_wf pc io single multi ->
    0 <= p < pc -> vget multi p = Some v -> Bitset.wf io v' ->
    (forall j, Bitset.bit v' j = if decide (j = i) then x else Bitset.bit v j) ->
    flag_wf pc io single (vset multi p v') /\
    forall p' i', flagAt io single (vset multi p v') p' i' =
      if decide (p' = p /\ i' = i) then x else flagAt io single multi p' i'.
  Proof.
    intros Hio [_ Hm] Hp Hgv Hv' Hbits. destruct Hm as [Hl Hm]; [done|]. split.
    { split; [done|]. intros _. rewrite vlen_vset. split; [done|].
      intros q w. rewrite vget_vset by lia. case_decide; [by intros [= <-] | apply Hm]. }
    intros p' i'. unfold flagAt. rewrite (proj2 (Z.eqb_neq io 1)) by done.
    rewrite vget_vset by lia. destruct (decide (p = p')) as [<-|].
    - simpl. rewrite Hbits, Hgv. simpl. by case_decide; case_decide; naive_solver.
    - by rewrite decide_False by naive_solver.
  Qed.

Lemma flag_out single multi p i : flag_wf pc io single multi -> 0 < io ->
    ~ (0 <= p < pc /\ 0 <= i < io) -> flagAt io single multi p i = false.
  Proof.
    intros [Hs Hm] Hio Hout. unfold flagAt.
    assert (forall n v j, Bitset.wf n v -> ~ 0 <= j < n -> Bitset.bit v j = false) as Hb.
    { intros n v j Hv Hj. destruct (decide (j < 0)); [|apply Hv; lia].
      unfold Bitset.bit, Bitset.byte. rewrite (proj2 (vget_None _ _)); [apply Z.bits_0|].
      assert (j / 8 < 0) by (apply Z.div_lt_upper_bound; lia). lia. }
    destruct (Z.eqb_spec io 1) as [He|Hne].
    - destruct Hs as (v & -> & Hv); [done|]. destruct (Z.eqb_spec i 0) as [->|]; [|done].
      simpl. apply (Hb pc); [done | lia].
    - destruct Hm as [Hl Hm]; [done|]. destruct (vget multi p) as [v|] eqn:Hgv; [|done].
      simpl. pose proof (vget_Some_range _ _ _ Hgv). apply (Hb io); [by eapply Hm | lia].
  Qed.
End Flags.

(** ** What each operation does to the view *)

(** The members that page operations leave alone. *)
Record frame (b b' : t) : Prop := {
  fr_idx : idx b' = idx b;
  fr_erase : eraseCount b' = eraseCount b;
  fr_written : lastWritten b' = lastWritten b;
  fr_error : maxErrorCount b' = maxErrorCount b;
  fr_refreshed : refreshedPageCount b' = refreshedPageCount b;
  fr_type : blockType b' = blockType b;
}.

Record written (b : t) (p i lpn tick : Z) (b' : t) : Prop := {
  wr_frame : frame b b';
  wr_accessed : lastAccessed b' = tick;
  wr_valid : forall p' i', validAt b' p' i' =
    if decide (p' = p /\ i' = i) then true else validAt b p' i';
  wr_erased : forall p' i', erasedAt b' p' i' =
    if decide (p' = p /\ i' = i) then false else erasedAt b p' i';
  wr_lpn : forall p' i', 0 <= i' < ioUnitInPage b -> lpnAt b' p' i' =
    if decide (p' = p /\ i' = i) then lpn else lpnAt b p' i';
  wr_next : forall i', nextAt b' i' = if decide (i' = i) then p + 1 else nextAt b i';
}.

Record invalidated (b : t) (p i : Z) (b' : t) : Prop := {
  iv_frame : frame b b';
  iv_accessed : lastAccessed b' = lastAccessed b;
  iv_valid : forall p' i', validAt b' p' i' =
    if decide (p' = p /\ i' = i) then false else validAt b p' i';
  iv_erased : forall p' i', erasedAt b' p' i' = erasedAt b p' i';
  iv_lpn : forall p' i', lpnAt b' p' i' = lpnAt b p' i';
  iv_next : forall i', nextAt b' i' = nextAt b i';
}.

Section Operations.
  Context (pc io : Z).
  Implicit Types (b : t) (E : err -> Prop).

Lemma next_get b i : wf pc io b -> 0 <= i < io ->
    vget (pNextWritePageIndex b) i = Some (nextAt b i).
  Proof.
    intros Hwf Hi. unfold nextAt.
    destruct (vget_in_range (pNextWritePageIndex b) i) as [x ->]; [|done].
    by rewrite (wf_next pc io b Hwf).
  Qed.

Lemma single_ptr single multi : io = 1 -> flag_wf pc io single multi ->
    exists v, single = Some v /\ Bitset.wf pc v.
  Proof. intros Hio [H _]. auto. Qed.

Lemma multi_get single multi p : io <> 1 -> flag_wf pc io single multi -> 0 <= p < pc ->
    exists v, vget multi p = Some v /\ Bitset.wf io v.
  Proof.
    intros Hio [_ H] Hp. destruct H as [Hl Hv]; [done|].
    destruct (vget_in_range multi p) as [v Hg]; [lia|]. eauto.
  Qed.

Lemma lpn_row b p : wf pc io b -> io <> 1 -> 0 <= p < pc ->
    exists row, vget (ppLPNs b) p = Some row /\ vlen row = io.
  Proof.
    intros Hwf Hio Hp. pose proof (wf_lpns pc io b Hwf) as Hl.
    rewrite (proj2 (Z.eqb_neq io 1)) in Hl by done. destruct Hl as [Hl Hr].
    destruct (vget_in_range (ppLPNs b) p) as [row Hg]; [lia|]. eauto.
  Qed.

Lemma write_spec E b p i lpn tick :
    wf pc io b -> 0 <= p < pc -> 0 <= i < io ->
    erasedAt b p i = true -> nextAt b i <= p ->
    wpr E (write b p lpn i tick) (fun r =>
      fst r = true /\ wf pc io (snd r) /\ written b p i lpn tick (snd r)).
  Proof.
    intros Hwf Hp Hi He Hn. unfold write.
    pose proof (wf_io _ _ _ Hwf) as Hio. pose proof (wf_pc_pos _ _ _ Hwf) as Hpc.
    rewrite Hio, (flag_test pc io) by (done || apply Hwf).
    unfold erasedAt in He. rewrite Hio in He. rewrite He. wp_steps.
    rewrite (get_raw_Some _ _ _ (next_get b i Hwf Hi)). wp_steps.
    rewrite (proj2 (Z.ltb_ge p (nextAt b i))) by lia.
    cbn [with_lastAccessed ioUnitInPage pErasedBits pValidBits erasedBits validBits pLPNs ppLPNs].
    rewrite Hio.
    assert (forall b1, pNextWritePageIndex b1 = pNextWritePageIndex b ->
      forall i', nextAt (with_next (vset (pNextWritePageIndex b) i (u32 (p + 1))) b1) i' =
        if decide (i' = i) then p + 1 else nextAt b i') as Hnext.
    { intros b1 Hb1 i'. unfold nextAt. simpl. rewrite (u32_small (p + 1)) by lia.
      rewrite vget_vset by (by rewrite (wf_next _ _ _ Hwf)). by case_decide; case_decide; subst. }
    pose proof (wf_valid _ _ _ Hwf) as HV. pose proof (wf_erased _ _ _ Hwf) as HE.
    destruct (Z.eqb_spec io 1) as [H1|H1].
    - destruct (single_ptr _ _ H1 HV) as (v & Hv & Wv). destruct (single_ptr _ _ H1 HE) as (e & Hes & We).
      assert (i = 0) as -> by lia. rewrite Hv, Hes. wp_steps. cbn [deref]. wp_steps.
      eapply wpr_mono; [by apply (Bitset.reset_spec pc)|]. intros e' [We' Be']. wp_steps.
      eapply wpr_mono; [by apply (Bitset.set_spec pc)|]. intros v' [Wv' Bv']. wp_steps.
      pose proof (wf_lpns _ _ _ Hwf) as Hl. rewrite (proj2 (Z.eqb_eq io 1)) in Hl by done.
      rewrite set_raw_range by lia. simpl.
      rewrite set_raw_range by (rewrite (wf_next _ _ _ Hwf); lia). simpl.
      destruct (flag_upd_single pc io (pErasedBits b) (erasedBits b) e' p false) as [WE FE];
        [done | done | done | intros ? ?; by simplify_eq|].
      destruct (flag_upd_single pc io (pValidBits b) (validBits b) v' p true) as [WV FV];
        [done | done | done | intros ? ?; by simplify_eq|].
      split; [done|]. split.
      + split; simpl; try done; try by apply Hwf.
        * rewrite vlen_vset. apply Hwf.
        * rewrite (proj2 (Z.eqb_eq io 1)) by done. by rewrite vlen_vset.
      + split; simpl; try done.
        * intros p' i'. unfold validAt. simpl. rewrite Hio. apply FV.
        * intros p' i'. unfold erasedAt. simpl. rewrite Hio. apply FE.
        * intros p' i' Hi'. unfold lpnAt. simpl. rewrite Hio, (proj2 (Z.eqb_eq io 1)) by done.
          rewrite vget_vset by lia. by case_decide; case_decide; try done; try lia.
        * by apply Hnext.
    - destruct (multi_get _ _ p H1 HV Hp) as (v & Hv & Wv).
      destruct (multi_get _ _ p H1 HE Hp) as (e & Hes & We).
      destruct (lpn_row b p Hwf H1 Hp) as (row & Hrow & Lrow).
      rewrite (get_at_Some _ _ _ Hes). wp_steps.
      eapply wpr_mono; [by apply (Bitset.reset_spec io)|]. intros e' [We' Be']. wp_steps.
      rewrite (get_at_Some _ _ _ Hv). wp_steps.
      eapply wpr_mono; [by apply (Bitset.set_spec io)|]. intros v' [Wv' Bv']. wp_steps.
      rewrite (get_raw_Some _ _ _ Hrow). wp_steps.
      rewrite set_raw_range by lia. simpl.
      rewrite set_raw_range by (rewrite (wf_next _ _ _ Hwf); lia). simpl.
      destruct (flag_upd_multi pc io (pErasedBits b) (erasedBits b) e e' p i false) as [WE FE];
        [done.. |].
      destruct (flag_upd_multi pc io (pValidBits b) (validBits b) v v' p i true) as [WV FV];
        [done.. |].
      pose proof (wf_lpns _ _ _ Hwf) as Hl. rewrite (proj2 (Z.eqb_neq io 1)) in Hl by done.
      destruct Hl as [Hl Hr].
      split; [done|]. split.
      + split; simpl; try done; try by apply Hwf.
        * rewrite vlen_vset. apply Hwf.
        * rewrite (proj2 (Z.eqb_neq io 1)) by done. rewrite vlen_vset. split; [done|].
          intros q r. rewrite vget_vset by lia.
          case_decide; [intros [= <-]; by rewrite vlen_vset | apply Hr].
      + split; simpl; try done.
        * intros p' i'. unfold validAt. simpl. rewrite Hio. apply FV.
        * intros p' i'. unfold erasedAt. simpl. rewrite Hio. apply FE.
        * intros p' i' Hi'. unfold lpnAt. simpl. rewrite Hio, (proj2 (Z.eqb_neq io 1)) by done.
          rewrite vget_vset by lia. destruct (decide (p = p')) as [<-|].
          -- simpl. rewrite vget_vset, Hrow by lia. simpl.
             by case_decide; case_decide; naive_solver.
          -- by rewrite decide_False by naive_solver.
        * by apply Hnext.
  Qed.

Lemma invalidate_spec E b p i :
    wf pc io b -> 0 <= p < pc -> 0 <= i < io ->
    wpr E (invalidate b p i) (fun b' => wf pc io b' /\ invalidated b p i b').
  Proof.
    intros Hwf Hp Hi. unfold invalidate. pose proof (wf_io _ _ _ Hwf) as Hio. rewrite Hio.
    pose proof (wf_valid _ _ _ Hwf) as HV.
    destruct (Z.eqb_spec io 1) as [H1|H1].
    - destruct (single_ptr _ _ H1 HV) as (v & Hv & Wv). assert (i = 0) as -> by lia.
      rewrite Hv. wp_steps. simpl. wp_steps.
      eapply wpr_mono; [by apply (Bitset.reset_spec pc)|]. intros v' [Wv' Bv']. simpl.
      destruct (flag_upd_single pc io (pValidBits b) (validBits b) v' p false) as [WV FV];
        [done | done | done | intros ? ?; by simplify_eq|].
      split; [split; simpl; try done; by apply Hwf|].
      split; try done. intros p' i'. unfold validAt. simpl. rewrite Hio. apply FV.
    - destruct (multi_get _ _ p H1 HV Hp) as (v & Hv & Wv).
      rewrite (get_at_Some _ _ _ Hv). wp_steps.
      eapply wpr_mono; [by apply (Bitset.reset_spec io)|]. intros v' [Wv' Bv']. simpl.
      destruct (flag_upd_multi pc io (pValidBits b) (validBits b) v v' p i false) as [WV FV];
        [done.. |].
      split; [split; simpl; try done; by apply Hwf|].
      split; try done. intros p' i'. unfold validAt. simpl. rewrite Hio. apply FV.
  Qed.

Lemma read_spec b p i tick :
    wf pc io b -> 0 <= p < pc -> 0 <= i < io ->
    read b p i tick = Ok (validAt b p i, if validAt b p i then with_lastAccessed tick b else b).
  Proof.
    intros Hwf Hp Hi. unfold read. pose proof (wf_io _ _ _ Hwf) as Hio.
    rewrite Hio, (flag_test pc io) by (done || apply Hwf).
    unfold validAt. by rewrite Hio.
  Qed.
End Operations.

(** ** Erase, construction and page queries *)

(** What [erase()] and the constructors establish. *)
Record blank (pc io : Z) (b : t) : Prop := {
  bl_wf : wf pc io b;
  bl_valid : forall p i, validAt b p i = false;
  bl_erased : forall p i, 0 <= p < pc -> 0 <= i < io -> erasedAt b p i = true;
  bl_next : forall i, nextAt b i = 0;
}.

Section Erase.
  Context (pc io : Z).
  Implicit Types (b : t) (E : err -> Prop).

Lemma nextAt_zero b i : pNextWritePageIndex b = replicate (Z.to_nat io) 0 -> nextAt b i = 0.
  Proof.
    intros Hn. unfold nextAt. rewrite Hn. destruct (vget _ i) as [x|] eqn:Hx; [|done].
    apply vget_elem_of, elem_of_replicate in Hx as [-> _]. done.
  Qed.

Lemma flag_const single multi (f : bool) : flag_wf pc io single multi ->
    (io = 1 -> forall v, single = Some v -> forall j, 0 <= j < pc -> Bitset.bit v j = f) ->
    (io <> 1 -> forall p v, vget multi p = Some v -> forall j, 0 <= j < io -> Bitset.bit v j = f) ->
    forall p i, 0 <= p < pc -> 0 <= i < io -> flagAt io single multi p i = f.
  Proof.
    intros [Hs Hm] Hfs Hfm p i Hp Hi. unfold flagAt. destruct (Z.eqb_spec io 1) as [H1|H1].
    - destruct Hs as (v & Hv & _); [done|]. assert (i = 0) as -> by lia.
      rewrite Hv. simpl. by apply (Hfs H1 v).
    - destruct Hm as [Hl _]; [done|]. destruct (vget_in_range multi p) as [v Hv]; [lia|].
      rewrite Hv. simpl. by apply (Hfm H1 p).
  Qed.

Lemma flag_false single multi : 0 < io -> flag_wf pc io single multi ->
    (forall p i, 0 <= p < pc -> 0 <= i < io -> flagAt io single multi p i = false) ->
    forall p i, flagAt io single multi p i = false.
  Proof.
    intros Hio Hwf H p i. destruct (decide (0 <= p < pc /\ 0 <= i < io)) as [[]|Hout].
    - by apply H.
    - by apply (flag_out pc io).
  Qed.

Lemma mapM_flags E (f : Bitset.t -> res Bitset.t) (P : Bitset.t -> Prop) multi :
    (forall v, Bitset.wf io v -> wpr E (f v) (fun v' => Bitset.wf io v' /\ P v')) ->
    vlen multi = pc -> (forall p v, vget multi p = Some v -> Bitset.wf io v) ->
    wpr E (mapM f multi) (fun multi' => vlen multi' = pc /\
      forall p v, vget multi' p = Some v -> Bitset.wf io v /\ P v).
  Proof.
    intros Hf Hl Hm. eapply wpr_mono; [apply wpr_mapM with (P := fun _ v' => Bitset.wf io v' /\ P v')|].
    - intros v (q & Hq & Hg)%elem_of_vget. apply Hf. by eapply Hm.
    - intros multi' HF. split; [by rewrite <- (Forall2_vlen _ _ _ HF)|].
      intros p v Hg. by destruct (Forall2_vget _ _ _ _ _ HF Hg) as (_ & _ & ?).
  Qed.

Lemma blank_intro b :
    wf pc io b -> pNextWritePageIndex b = replicate (Z.to_nat io) 0 ->
    (io = 1 -> forall v e, pValidBits b = Some v -> pErasedBits b = Some e ->
       forall j, 0 <= j < pc -> Bitset.bit v j = false /\ Bitset.bit e j = true) ->
    (io <> 1 -> forall p v e, vget (validBits b) p = Some v -> vget (erasedBits b) p = Some e ->
       forall j, 0 <= j < io -> Bitset.bit v j = false /\ Bitset.bit e j = true) ->
    blank pc io b.
  Proof.
    intros Hwf Hn H1 Hm. pose proof (wf_io _ _ _ Hwf) as Hio.
    pose proof (wf_io_pos _ _ _ Hwf) as Hiop.
    pose proof (wf_valid _ _ _ Hwf) as HV. pose proof (wf_erased _ _ _ Hwf) as HE.
    split; [done | | | intros i; by apply nextAt_zero].
    - unfold validAt. rewrite Hio. apply flag_false; [lia | done |]. apply flag_const; [done | |].
      + intros He v Hv j Hj. destruct (single_ptr pc _ _ _ He HE) as (e & Hes & _).
        by apply (H1 He v e).
      + intros He p v Hv j Hj. pose proof (vget_Some_range _ _ _ Hv) as Hp.
        rewrite (proj1 (proj2 HV He)) in Hp.
        destruct (multi_get pc _ _ _ p He HE Hp) as (e & Hes & _). by apply (Hm He p v e).
    - unfold erasedAt. rewrite Hio. apply flag_const; [done | |].
      + intros He e Hes j Hj. destruct (single_ptr pc _ _ _ He HV) as (v & Hv & _).
        by apply (H1 He v e).
      + intros He p e Hes j Hj. pose proof (vget_Some_range _ _ _ Hes) as Hp.
        rewrite (proj1 (proj2 HE He)) in Hp.
        destruct (multi_get pc _ _ _ p He HV Hp) as (v & Hv & _). by apply (Hm He p v e).
  Qed.

Lemma erase_spec E b : wf pc io b ->
    wpr E (erase b) (fun b' => blank pc io b' /\ eraseCount b' = u32 (eraseCount b + 1) /\
      idx b' = idx b /\ lastAccessed b' = lastAccessed b /\ lastWritten b' = lastWritten b /\
      maxErrorCount b' = maxErrorCount b /\ refreshedPageCount b' = refreshedPageCount b /\
      blockType b' = blockType b).
  Proof.
    intros Hwf. unfold erase. pose proof (wf_io _ _ _ Hwf) as Hio. rewrite Hio.
    pose proof (wf_io_pos _ _ _ Hwf) as Hiop.
    pose proof (wf_valid _ _ _ Hwf) as HV. pose proof (wf_erased _ _ _ Hwf) as HE.
    assert (vlen (replicate (Z.to_nat io) 0) = io) as Hrep by (apply vlen_replicate; lia).
    destruct (Z.eqb_spec io 1) as [H1|H1].
    - destruct (single_ptr pc _ _ _ H1 HV) as (v & Hv & Wv).
      destruct (single_ptr pc _ _ _ H1 HE) as (e & Hes & We).
      rewrite Hv, Hes. cbn [deref]. wp_steps.
      eapply wpr_mono; [by apply (Bitset.reset_all_spec pc)|]. intros v' [Wv' Bv']. wp_steps.
      eapply wpr_mono; [by apply (Bitset.set_all_spec pc)|]. intros e' [We' Be']. wp_steps.
      cbn [with_single ioUnitInPage]. rewrite Hio. split; [|done].
      apply blank_intro; [split; simpl; try done; try by apply Hwf | done | | done].
      + split; [intros _; by exists v' | done].
      + split; [intros _; by exists e' | done].
      + intros _ ? ? [= <-] [= <-] j Hj. split; [done|]. rewrite Be'. by apply bool_decide_eq_true_2.
    - destruct (proj2 HV H1) as [Lv Wv]. destruct (proj2 HE H1) as [Le We]. wp_steps.
      eapply wpr_mono; [apply (mapM_flags E _ (fun v => forall j, Bitset.bit v j = false));
        [intros v; apply Bitset.reset_all_spec | done | done]|].
      intros v' [Lv' Bv']. wp_steps.
      eapply wpr_mono; [apply (mapM_flags E _ (fun v => forall j, Bitset.bit v j = bool_decide (0 <= j < io)));
        [intros v; apply Bitset.set_all_spec | done | done]|].
      intros e' [Le' Be']. wp_steps. cbn [with_multi ioUnitInPage]. rewrite Hio. split; [|done].
      apply blank_intro; [split; simpl; try done; try by apply Hwf | done | done |].
      + split; [done|]. intros _. split; [done|]. intros p w Hw. by eapply Bv'.
      + split; [done|]. intros _. split; [done|]. intros p w Hw. by eapply Be'.
      + intros _ p v e Hv He j Hj. split; [by apply (Bv' p)|].
        destruct (Be' p e He) as [_ ->]. by apply bool_decide_eq_true_2.
  Qed.

Lemma blank_inv b : blank pc io b -> inv pc io b.
  Proof.
    intros [Hwf Hv He Hn]. pose proof (wf_pc_pos _ _ _ Hwf). split; [done | | |].
    - intros i Hi. rewrite Hn. lia.
    - intros p i Hi. rewrite Hn. intros. apply He; lia.
    - intros p i. by rewrite Hv.
  Qed.

Lemma construct_spec E i pe ty :
    0 < pc < 2 ^ 32 - 8 -> 0 < io < 2 ^ 32 - 8 ->
    wpr E (construct i pc io pe ty) (fun b => blank pc io b /\ idx b = i /\ eraseCount b = pe /\
      blockType b = ty /\ lastAccessed b = 0 /\ lastWritten b = 0 /\ refreshedPageCount b = 0).
  Proof.
    intros Hpc Hio. unfold construct. wp_steps.
    destruct (Bitset.make_spec pc Hpc) as [Wp Bp]. destruct (Bitset.make_spec io Hio) as [Wi Bi].
    set (pre := fun b : t => idx b = i /\ blockType b = ty /\ lastAccessed b = 0 /\
      lastWritten b = 0 /\ refreshedPageCount b = 0).
    assert (forall b, wf pc io (with_next (replicate (Z.to_nat io) 0) b) -> pre b ->
      wpr E (b ← erase (with_next (replicate (Z.to_nat io) 0) b); Ok (setEraseCount pe b))
        (fun b => blank pc io b /\ idx b = i /\ eraseCount b = pe /\
      blockType b = ty /\ lastAccessed b = 0 /\ lastWritten b = 0 /\ refreshedPageCount b = 0)) as Hfin.
    { intros b Hwf (P1 & P2 & P3 & P4 & P5). wp_steps. eapply wpr_mono; [by apply erase_spec|].
      intros b' (Hb & _ & Q1 & Q2 & Q3 & _ & Q5 & Q6). wp_steps.
      split; [|simpl; rewrite Q1, Q2, Q3, Q5, Q6; simpl; done].
      destruct Hb as [[] ? ? ?]. split; [split; done | done.. ]. }
    destruct (Z.eqb_spec io 1) as [H1|H1]; [|rewrite (proj2 (Z.ltb_lt 1 io)) by lia];
      apply wpr_ret; apply Hfin; try done; split; simpl; try done.
    - apply vlen_replicate. lia.
    - split; [intros _; eauto | done].
    - split; [intros _; eauto | done].
    - rewrite (proj2 (Z.eqb_eq io 1)) by done. apply vlen_replicate. lia.
    - apply vlen_replicate. lia.
    - split; [done|]. intros _. split; [apply vlen_replicate; lia|].
      intros p v Hv%vget_elem_of. apply elem_of_replicate in Hv as [-> _]. done.
    - split; [done|]. intros _. split; [apply vlen_replicate; lia|].
      intros p v Hv%vget_elem_of. apply elem_of_replicate in Hv as [-> _]. done.
    - rewrite (proj2 (Z.eqb_neq io 1)) by done. split; [apply vlen_replicate; lia|].
      intros p v Hv%vget_elem_of. apply elem_of_replicate in Hv as [-> _].
      apply vlen_replicate. lia.
  Qed.
End Erase.

(** ** Page queries *)

(** Counting through the view: valid units of a page, pages with a valid unit,
    pages with a unit neither valid nor erased. *)
Definition validUnits (io : Z) (b : t) (p : Z) : Z := count_range (validAt b p) io.
Definition pageValid (io : Z) (b : t) (p : Z) : bool := 0 <? validUnits io b p.
Definition pageDirty (io : Z) (b : t) (p : Z) : bool :=
  0 <? count_range (fun i => negb (validAt b p i || erasedAt b p i)) io.

Section Queries.
  Context (pc io : Z).
  Implicit Types (b : t) (E : err -> Prop).

  (** [r] is the largest write pointer. *)
Definition max_next b (r : Z) : Prop :=
    (forall i, 0 <= i < io -> nextAt b i <= r) /\
    (r = 0 \/ exists i, 0 <= i < io /\ nextAt b i = r).

Lemma getNextWritePageIndex_spec E b : wf pc io b ->
    wpr E (getNextWritePageIndex b) (fun r => max_next b r).
  Proof.
    intros Hwf. unfold getNextWritePageIndex. rewrite (wf_io _ _ _ Hwf).
    pose proof (wf_io_pos _ _ _ Hwf).
    apply wpr_for_range with (I := fun k r => (forall i, 0 <= i < k -> nextAt b i <= r) /\
      (r = 0 \/ exists i, 0 <= i < k /\ nextAt b i = r)).
    - lia.
    - split; [lia | by left].
    - intros k r Hk [Hmax Hex]. rewrite (get_raw_Some _ _ _ (next_get pc io b k Hwf Hk)). simpl.
      destruct (Z.ltb_spec r (nextAt b k)) as [Hlt|Hge]; split.
      + intros i Hi. destruct (decide (i = k)) as [->|]; [lia|]. specialize (Hmax i). lia.
      + right. exists k. split; [lia | done].
      + intros i Hi. destruct (decide (i = k)) as [->|]; [lia|]. apply Hmax. lia.
      + destruct Hex as [|(i & Hi & Hni)]; [by left|]. right. exists i. split; [lia | done].
    - done.
  Qed.

Lemma max_next_full b r : inv pc io b -> max_next b r -> r <= pc /\
    (r <> pc -> forall i, 0 <= i < io -> nextAt b i < pc).
  Proof.
    intros Hinv [Hmax Hex]. pose proof (wf_pc_pos _ _ _ (inv_wf _ _ _ Hinv)).
    assert (r <= pc) as Hr.
    { destruct Hex as [->|(i & Hi & <-)]; [lia|]. by apply (inv_next _ _ _ Hinv). }
    split; [done|]. intros Hne i Hi. specialize (Hmax i Hi). lia.
  Qed.

Lemma lpn_get b p i : wf pc io b -> 0 <= p < pc -> 0 <= i < io ->
    (io = 1 -> vget (pLPNs b) p = Some (lpnAt b p i)) /\
    (io <> 1 -> exists row, vget (ppLPNs b) p = Some row /\ vlen row = io /\
       vget row i = Some (lpnAt b p i)).
  Proof.
    intros Hwf Hp Hi. unfold lpnAt. rewrite (wf_io _ _ _ Hwf).
    pose proof (wf_lpns _ _ _ Hwf) as Hl. destruct (Z.eqb_spec io 1) as [H1|H1]; split; try done.
    - intros _. destruct (vget_in_range (pLPNs b) p) as [x ->]; [lia | done].
    - intros _. destruct Hl as [Hl Hr]. destruct (vget_in_range (ppLPNs b) p) as [row Hrow]; [lia|].
      rewrite Hrow. exists row. simpl. rewrite (Hr _ _ Hrow). split_and!; [done | done|].
      destruct (vget_in_range row i) as [x ->]; [rewrite (Hr _ _ Hrow); lia | done].
  Qed.

  (** [getPageInfo]: the page's LPNs, its valid units, and whether there is one. *)
Definition page_info b p (r : bool * list Z * Bitset.t) : Prop :=
    (fst (fst r) = true <-> exists i, 0 <= i < io /\ validAt b p i = true) /\
    vlen (snd (fst r)) = io /\
    (forall i, 0 <= i < io -> vget (snd (fst r)) i = Some (lpnAt b p i)) /\
    Bitset.wf io (snd r) /\
    (forall i, 0 <= i < io -> Bitset.bit (snd r) i = validAt b p i).

Lemma getPageInfo_spec E b p map : wf pc io b -> Bitset.wf io map -> 0 <= p < pc ->
    wpr E (getPageInfo b p map) (page_info b p).
  Proof.
    intros Hwf Hmap Hp. unfold getPageInfo. pose proof (wf_io _ _ _ Hwf) as Hio.
    pose proof (wf_io_pos _ _ _ Hwf) as Hiop. pose proof (wf_valid _ _ _ Hwf) as HV.
    unfold Bitset.size. rewrite Hio, (Bitset.wf_size _ _ Hmap). wp_steps.
    assert (forall l m, vlen l = io -> (forall i, 0 <= i < io -> vget l i = Some (lpnAt b p i)) ->
      Bitset.wf io m -> (forall i, 0 <= i < io -> Bitset.bit m i = validAt b p i) ->
      wpr E (Bitset.any m) (fun r => wpr E (Ok (r, l, m)) (page_info b p))) as Hfin.
    { intros l m Hl Hg Hm Hb. eapply wpr_mono; [by apply (Bitset.any_spec io)|].
      intros r Hr. wp_steps. split; [|done]. simpl. rewrite Hr.
      split; intros (i & Hi & Hbi); exists i; (split; [done|]); [by rewrite <- Hb | by rewrite Hb]. }
    destruct (Z.eqb_spec io 1) as [H1|H1]; [|rewrite Z.eqb_refl]; simpl.
    - destruct (single_ptr pc _ _ _ H1 HV) as (v & Hv & Wv). wp_steps.
      eapply wpr_mono; [by apply (Bitset.reset_all_spec io)|]. intros m [Wm Bm]. wp_steps.
      rewrite Hv. cbn [deref]. wp_steps. rewrite (Bitset.test_spec pc) by done. wp_steps.
      assert (validAt b p 0 = Bitset.bit v p) as Hval.
      { unfold validAt, flagAt. rewrite Hio, (proj2 (Z.eqb_eq io 1)) by done. by rewrite Hv. }
      eapply wpr_mono with (Q := fun m' => Bitset.wf io m' /\ Bitset.bit m' 0 = Bitset.bit v p).
      { destruct (Bitset.bit v p); [|apply wpr_ret; by rewrite Bm].
        eapply wpr_mono; [by apply (Bitset.set_all_spec io)|]. intros m' [? H]. split; [done|].
        rewrite H. apply bool_decide_eq_true_2. lia. }
      intros m' [Wm' Bm']. wp_steps. destruct (lpn_get b p 0 Hwf Hp ltac:(lia)) as [Hlpn _].
      rewrite (get_raw_Some _ _ _ (Hlpn H1)). wp_steps. apply Hfin; [by rewrite H1 | | done |].
      + intros i Hi. assert (i = 0) as -> by lia. done.
      + intros i Hi. assert (i = 0) as -> by lia. by rewrite Bm', Hval.
    - destruct (multi_get pc _ _ _ p H1 HV Hp) as (v & Hv & Wv). wp_steps.
      rewrite (get_at_Some _ _ _ Hv). wp_steps.
      destruct (lpn_get b p 0 Hwf Hp ltac:(lia)) as [_ (row & Hrow & Lrow & _)]; [done|].
      rewrite (get_raw_Some _ _ _ Hrow). wp_steps. rewrite (Bitset.copy_spec io) by done.
      apply Hfin; [done | | done |].
      + intros i Hi. destruct (lpn_get b p i Hwf Hp Hi) as [_ (row' & Hrow' & _ & Hg)]; [done|].
        congruence.
      + intros i Hi. unfold validAt, flagAt. rewrite Hio, (proj2 (Z.eqb_neq io 1)) by done.
        by rewrite Hv.
  Qed.

  (** In the single layout a page is one unit. *)
Lemma count_one (f : Z -> bool) : count_range f 1 = if f 0 then 1 else 0.
  Proof. change 1 with (0 + 1) at 1. by rewrite count_range_succ, count_range_0. Qed.

Lemma pageValid_flag b p v : wf pc io b -> io <> 1 -> vget (validBits b) p = Some v ->
    forall i, validAt b p i = Bitset.bit v i.
  Proof.
    intros Hwf H1 Hv i. unfold validAt, flagAt.
    rewrite (wf_io _ _ _ Hwf), (proj2 (Z.eqb_neq io 1)) by done. by rewrite Hv.
  Qed.

Lemma single_valid b p v : wf pc io b -> io = 1 -> pValidBits b = Some v ->
    validAt b p 0 = Bitset.bit v p.
  Proof.
    intros Hwf H1 Hv. unfold validAt, flagAt.
    rewrite (wf_io _ _ _ Hwf), (proj2 (Z.eqb_eq io 1)) by done. by rewrite Hv.
  Qed.

Lemma pageValid_exists b p : 0 <= io ->
    pageValid io b p = true <-> exists i, 0 <= i < io /\ validAt b p i = true.
  Proof. intros Hio. unfold pageValid, validUnits. rewrite Z.ltb_lt. by apply count_range_pos. Qed.

Lemma getValidPageCount_spec E b : wf pc io b ->
    wpr E (getValidPageCount b) (fun r => r = count_range (pageValid io b) pc).
  Proof.
    intros Hwf. unfold getValidPageCount. pose proof (wf_io _ _ _ Hwf) as Hio. rewrite Hio.
    pose proof (wf_valid _ _ _ Hwf) as HV. pose proof (wf_pc_pos _ _ _ Hwf) as Hpc.
    pose proof (wf_io_pos _ _ _ Hwf) as Hiop.
    destruct (Z.eqb_spec io 1) as [H1|H1].
    - destruct (single_ptr pc _ _ _ H1 HV) as (v & Hv & Wv). rewrite Hv. simpl.
      eapply wpr_mono; [by apply (Bitset.count_spec pc)|]. intros r ->. apply count_range_ext.
      intros p Hp. unfold pageValid, validUnits.
      rewrite H1, count_one, (single_valid b p v Hwf H1 Hv). by destruct (Bitset.bit v p).
    - destruct (proj2 HV H1) as [Lv Wv].
      apply wpr_foldM_index with (I := fun k r => r = count_range (pageValid io b) k); [done | |].
      + intros k v r Hv ->. wp_steps. pose proof (vget_Some_range _ _ _ Hv) as Hk.
        pose proof (count_range_bounds (pageValid io b) k ltac:(lia)).
        eapply wpr_mono; [by apply (Bitset.any_spec io), (Wv k)|]. intros a Ha. wp_steps.
        rewrite count_range_succ by lia.
        assert (a = pageValid io b k) as ->; [|destruct (pageValid io b k); rewrite ?u32_small; lia].
        apply eq_true_iff_eq. rewrite Ha, pageValid_exists by lia.
        split; intros (i & Hi & Hb); exists i; (split; [done|]);
          rewrite (pageValid_flag b k v) in *; done.
      + intros r ->. by rewrite Lv.
  Qed.

Lemma getValidPageCountRaw_spec E b : wf pc io b -> pc * io < 2 ^ 32 ->
    wpr E (getValidPageCountRaw b) (fun r => r = sum_range (validUnits io b) pc).
  Proof.
    intros Hwf Hov. unfold getValidPageCountRaw. pose proof (wf_io _ _ _ Hwf) as Hio. rewrite Hio.
    pose proof (wf_valid _ _ _ Hwf) as HV. pose proof (wf_pc_pos _ _ _ Hwf) as Hpc.
    pose proof (wf_io_pos _ _ _ Hwf) as Hiop.
    destruct (Z.eqb_spec io 1) as [H1|H1].
    - destruct (single_ptr pc _ _ _ H1 HV) as (v & Hv & Wv). rewrite Hv. simpl.
      eapply wpr_mono; [by apply (Bitset.count_spec pc)|]. intros r ->.
      enough (forall k, 0 <= k -> count_range (Bitset.bit v) k = sum_range (validUnits io b) k) as ->
        by (done || lia).
      apply natlike_ind; [done|]. intros k Hk IH. rewrite <- Z.add_1_r.
      rewrite count_range_succ, sum_range_succ, IH by lia. unfold validUnits.
      rewrite H1, count_one, (single_valid b k v Hwf H1 Hv). done.
    - destruct (proj2 HV H1) as [Lv Wv].
      apply wpr_foldM_index with (I := fun k r => r = sum_range (validUnits io b) k /\ 0 <= r <= k * io);
        [split; [done | lia] | |].
      + intros k v r Hv [-> Hb]. wp_steps. pose proof (vget_Some_range _ _ _ Hv) as Hk.
        eapply wpr_mono; [by apply (Bitset.count_spec io), (Wv k)|]. intros c ->. wp_steps.
        rewrite sum_range_succ by lia.
        rewrite (count_range_ext (Bitset.bit v) (validAt b k))
          by (intros i Hi; by rewrite (pageValid_flag b k v)).
        pose proof (count_range_bounds (validAt b k) io ltac:(lia)).
        fold (validUnits io b k) in *.
        pose proof (Z.mul_le_mono_nonneg_r (k + 1) pc io ltac:(lia) ltac:(lia)).
        rewrite u32_small by lia. split; [done | lia].
      + intros r [-> _]. by rewrite Lv.
  Qed.

Lemma getDirtyPageCount_spec E b : wf pc io b ->
    wpr E (getDirtyPageCount b) (fun r => r = count_range (pageDirty io b) pc).
  Proof.
    intros Hwf. unfold getDirtyPageCount. pose proof (wf_io _ _ _ Hwf) as Hio. rewrite Hio.
    pose proof (wf_valid _ _ _ Hwf) as HV. pose proof (wf_erased _ _ _ Hwf) as HE.
    pose proof (wf_pc_pos _ _ _ Hwf) as Hpc. pose proof (wf_io_pos _ _ _ Hwf) as Hiop.
    destruct (Z.eqb_spec io 1) as [H1|H1].
    - destruct (single_ptr pc _ _ _ H1 HV) as (v & Hv & Wv).
      destruct (single_ptr pc _ _ _ H1 HE) as (e & Hes & We).
      rewrite Hv, Hes. cbn [deref]. wp_steps.
      eapply wpr_mono; [by apply (Bitset.or_spec pc)|]. intros o [Wo Bo]. wp_steps.
      eapply wpr_mono; [by apply (Bitset.not_spec pc)|]. intros m [Wm Bm].
      eapply wpr_mono; [by apply (Bitset.count_spec pc)|]. intros r ->. apply count_range_ext.
      intros p Hp. unfold pageDirty. rewrite Bm, Bo, bool_decide_eq_true_2 by done. simpl.
      rewrite H1, count_one, (single_valid b p v Hwf H1 Hv).
      assert (erasedAt b p 0 = Bitset.bit e p) as ->.
      { unfold erasedAt, flagAt. rewrite Hio, (proj2 (Z.eqb_eq io 1)) by done. by rewrite Hes. }
      by destruct (Bitset.bit v p || Bitset.bit e p).
    - rewrite (wf_pc _ _ _ Hwf).
      apply wpr_for_range with (I := fun k r => r = count_range (pageDirty io b) k); [lia | done | |].
      + intros k r Hk ->.
        destruct (multi_get pc _ _ _ k H1 HV Hk) as (v & Hv & Wv).
        destruct (multi_get pc _ _ _ k H1 HE Hk) as (e & Hes & We).
        pose proof (count_range_bounds (pageDirty io b) k ltac:(lia)).
        rewrite (get_at_Some _ _ _ Hv), (get_at_Some _ _ _ Hes). wp_steps.
        eapply wpr_mono; [by apply (Bitset.or_spec io)|]. intros o [Wo Bo]. wp_steps.
        eapply wpr_mono; [by apply (Bitset.not_spec io)|]. intros m [Wm Bm]. wp_steps.
        eapply wpr_mono; [by apply (Bitset.any_spec io)|]. intros a Ha. wp_steps.
        rewrite count_range_succ by lia.
        assert (a = pageDirty io b k) as ->; [|destruct (pageDirty io b k); rewrite ?u32_small; lia].
        assert (forall i, 0 <= i < io -> Bitset.bit m i = negb (validAt b k i || erasedAt b k i)) as Hm.
        { intros i Hi. rewrite Bm, Bo, bool_decide_eq_true_2 by done. simpl.
          rewrite (pageValid_flag b k v Hwf H1 Hv). unfold erasedAt, flagAt.
          rewrite Hio, (proj2 (Z.eqb_neq io 1)) by done. by rewrite Hes. }
        apply eq_true_iff_eq. rewrite Ha. unfold pageDirty. rewrite Z.ltb_lt, count_range_pos by lia.
        split; intros (i & Hi & Hb); exists i; (split; [done|]);
          [by rewrite <- Hm | by rewrite Hm].
      + done.
  Qed.
End Queries.

(** ** The invariant under each operation *)

Section Invariant.
  Context (pc io : Z).
  Implicit Types (b : t) (E : err -> Prop).

Lemma written_inv b p i lpn tick b' :
    inv pc io b -> 0 <= p < pc -> 0 <= i < io -> nextAt b i <= p ->
    wf pc io b' -> written b p i lpn tick b' -> inv pc io b'.
  Proof.
    intros Hinv Hp Hi Hn Hwf Hw. split; [done | | |].
    - intros j Hj. rewrite (wr_next _ _ _ _ _ _ Hw). case_decide; [lia | by apply Hinv].
    - intros q j Hj. rewrite (wr_next _ _ _ _ _ _ Hw), (wr_erased _ _ _ _ _ _ Hw).
      destruct (decide (j = i)) as [->|]; intros Hq.
      + rewrite decide_False by lia. apply Hinv; lia.
      + rewrite decide_False by naive_solver. by apply Hinv.
    - intros q j. rewrite (wr_valid _ _ _ _ _ _ Hw), (wr_erased _ _ _ _ _ _ Hw).
      case_decide; [done | apply Hinv].
  Qed.

Lemma invalidated_inv b p i b' :
    inv pc io b -> wf pc io b' -> invalidated b p i b' -> inv pc io b'.
  Proof.
    intros Hinv Hwf Hv. split; [done | | |].
    - intros j Hj. rewrite (iv_next _ _ _ _ Hv). by apply Hinv.
    - intros q j Hj. rewrite (iv_next _ _ _ _ Hv), (iv_erased _ _ _ _ Hv). by apply Hinv.
    - intros q j. rewrite (iv_valid _ _ _ _ Hv), (iv_erased _ _ _ _ Hv).
      case_decide; [done | apply Hinv].
  Qed.

  (** Writing at the write pointer of an open unit: never refused. *)
Lemma append_spec E b i lpn tick :
    inv pc io b -> 0 <= i < io -> nextAt b i < pc ->
    wpr E (write b (nextAt b i) lpn i tick) (fun r => fst r = true /\ inv pc io (snd r) /\
      written b (nextAt b i) i lpn tick (snd r)).
  Proof.
    intros Hinv Hi Hn. pose proof (inv_next _ _ _ Hinv i Hi).
    eapply wpr_mono; [apply (write_spec pc io); [apply Hinv | lia | done | apply Hinv; lia | lia]|].
    intros r (? & ? & Hw). split_and!; [done | | done].
    eapply (written_inv b); [done | | | | done | exact Hw]; lia.
  Qed.

Lemma invalidate_inv_spec E b p i :
    inv pc io b -> 0 <= p < pc -> 0 <= i < io ->
    wpr E (invalidate b p i) (fun b' => inv pc io b' /\ invalidated b p i b').
  Proof.
    intros Hinv Hp Hi.
    eapply wpr_mono; [apply (invalidate_spec pc io); [apply Hinv | done | done]|].
    intros b' [? ?]. split; [by eapply invalidated_inv | done].
  Qed.

  (** Metadata setters do not touch the view. *)
Lemma inv_meta b b' :
    pageCount b' = pageCount b -> ioUnitInPage b' = ioUnitInPage b ->
    pNextWritePageIndex b' = pNextWritePageIndex b ->
    pValidBits b' = pValidBits b -> pErasedBits b' = pErasedBits b -> pLPNs b' = pLPNs b ->
    validBits b' = validBits b -> erasedBits b' = erasedBits b -> ppLPNs b' = ppLPNs b ->
    inv pc io b -> inv pc io b'.
  Proof.
    intros H1 H2 H3 H4 H5 H6 H7 H8 H9 Hinv.
    assert (validAt b' = validAt b) as Hv by (unfold validAt; congruence).
    assert (erasedAt b' = erasedAt b) as He by (unfold erasedAt; congruence).
    assert (forall i, nextAt b' i = nextAt b i) as Hn by (intros; unfold nextAt; congruence).
    destruct Hinv as [[] Hx Hy Hz]. split.
    - split; rewrite ?H1, ?H2, ?H3, ?H4, ?H5, ?H6, ?H7, ?H8, ?H9; done.
    - intros i Hi. rewrite Hn. auto.
    - intros p i Hi. rewrite Hn, He. auto.
    - intros p i. rewrite Hv, He. auto.
  Qed.

Lemma blank_meta b b' :
    pageCount b' = pageCount b -> ioUnitInPage b' = ioUnitInPage b ->
    pNextWritePageIndex b' = pNextWritePageIndex b ->
    pValidBits b' = pValidBits b -> pErasedBits b' = pErasedBits b -> pLPNs b' = pLPNs b ->
    validBits b' = validBits b -> erasedBits b' = erasedBits b -> ppLPNs b' = ppLPNs b ->
    blank pc io b -> blank pc io b'.
  Proof.
    intros H1 H2 H3 H4 H5 H6 H7 H8 H9 Hb.
    pose proof (inv_meta b b' H1 H2 H3 H4 H5 H6 H7 H8 H9 (blank_inv pc io b Hb)) as Hinv.
    assert (validAt b' = validAt b) as Hv by (unfold validAt; congruence).
    assert (erasedAt b' = erasedAt b) as He by (unfold erasedAt; congruence).
    split; [apply Hinv | rewrite Hv; apply Hb | rewrite He; apply Hb|].
    intros i. unfold nextAt. rewrite H3. apply Hb.
  Qed.

Lemma accessed_inv b tick : inv pc io b -> inv pc io (with_lastAccessed tick b).
  Proof. by apply inv_meta. Qed.
End Invariant.

(** ** Properties *)

(** C37: the block invariant.  The constructors establish it for every layout,
    and [read], [write], [invalidate] and [erase] preserve it: write pointers
    stay within the block, the units at and after a write pointer are erased,
    and no unit is valid and erased.  In particular an append at a write
    pointer below the end of the block is never refused. *)
Theorem block_invariant (pc io : Z) (b : t) (p i lpn tick ix pe : Z) (ty : blockPoolType) :
  inv pc io b -> 0 <= p < pc -> 0 <= i < io ->
  wpr noerr (make_typed ix pc io pe ty) (inv pc io) /\
  wpr noerr (read b p i tick) (fun r => inv pc io (snd r)) /\
  wpr anyerr (write b p lpn i tick) (fun r => inv pc io (snd r)) /\
  (nextAt b i < pc -> wpr noerr (write b (nextAt b i) lpn i tick) (fun r => fst r = true)) /\
  wpr noerr (invalidate b p i) (inv pc io) /\
  wpr noerr (erase b) (inv pc io).
Proof.
  intros Hinv Hp Hi. pose proof (inv_wf _ _ _ Hinv) as Hwf. split_and!.
  - eapply wpr_mono; [apply construct_spec; apply Hwf|]. intros b' (Hb & _). by apply blank_inv.
  - rewrite (read_spec pc io) by done. simpl.
    destruct (validAt b p i); [by apply accessed_inv | done].
  - pose proof (wf_io _ _ _ Hwf) as Hio. destruct (erasedAt b p i) eqn:He.
    + destruct (decide (nextAt b i <= p)) as [Hn|Hn].
      * eapply wpr_mono; [by apply (write_spec pc io)|]. intros r (_ & Hwf' & Hw).
        by eapply written_inv.
      * unfold write. rewrite Hio, (flag_test pc io) by (done || apply Hwf).
        unfold erasedAt in He. rewrite Hio in He. rewrite He. wp_steps.
        rewrite (get_raw_Some _ _ _ (next_get pc io b i Hwf Hi)). wp_steps.
        rewrite (proj2 (Z.ltb_lt _ _)) by lia. exact I.
    + unfold write. rewrite Hio, (flag_test pc io) by (done || apply Hwf).
      unfold erasedAt in He. rewrite Hio in He. rewrite He. exact I.
  - intros Hn. eapply wpr_mono; [by apply append_spec|]. by intros r (? & _).
  - eapply wpr_mono; [by apply invalidate_inv_spec|]. by intros b' [? _].
  - eapply wpr_mono; [by apply (erase_spec pc io)|]. intros b' [Hb _]. by apply blank_inv.
Qed.

(** A block of 4 pages of 2 units, used by the witnesses. *)
Definition sample : t := match make 7 4 2 with Ok b => b | Err _ => snd (move (mk 0 0 0 [] None None [] [] [] [] 0 0 0 0 0 COLD)) end.

Lemma sample_make : make 7 4 2 = Ok sample.
Proof. vm_compute. reflexivity. Defined.

Lemma sample_inv : inv 4 2 sample.
Proof.
  pose proof (construct_spec 4 2 noerr 7 0 COLD ltac:(lia) ltac:(lia)) as H.
  apply wpr_noerr in H as (b & Hb & Hbl & _).
  replace sample with b; [by apply blank_inv|].
  pose proof sample_make as Hs. unfold make in Hs. congruence.
Defined.

Theorem block_invariant_witness : wpr noerr (erase sample) (inv 4 2).
Proof.
  apply (block_invariant 4 2 sample 0 0 0 0 0 0 COLD sample_inv); lia.
Defined.

(** C38: [write] on every branch.  An erased unit at or after the write pointer
    is written: it becomes valid and not erased, holds the LPN, the write
    pointer of its slot moves just past it, and nothing else of the view
    changes.  Otherwise the call panics: "Write to block should sequential" for
    an erased unit before the pointer, "Write to non erased page", and
    "I/O map size mismatch" for a slot the page does not have. *)
Theorem write_outcomes (pc io : Z) (b : t) (p i lpn tick : Z) :
  inv pc io b -> 0 <= p < pc -> 0 <= i ->
  match write b p lpn i tick with
  | Ok (r, b') => i < io /\ erasedAt b p i = true /\ nextAt b i <= p /\
                  r = true /\ written b p i lpn tick b'
  | Err e => e = Panic (if decide (i < io) then
                          if erasedAt b p i then "Write to block should sequential"
                          else "Write to non erased page"
                        else "I/O map size mismatch")%string /\
             (i < io -> erasedAt b p i = true -> p < nextAt b i)
  end.
Proof.
  intros Hinv Hp Hi. pose proof (inv_wf _ _ _ Hinv) as Hwf.
  pose proof (wf_io _ _ _ Hwf) as Hio. pose proof (wf_io_pos _ _ _ Hwf) as Hiop.
  destruct (decide (i < io)) as [Hlt|Hge].
  - destruct (erasedAt b p i) eqn:He.
    + destruct (decide (nextAt b i <= p)) as [Hn|Hn].
      * pose proof (write_spec pc io noerr b p i lpn tick Hwf Hp ltac:(lia) He Hn) as Hw.
        apply wpr_noerr in Hw as ([r b'] & -> & Hr & _ & Hw). simpl in *. done.
      * unfold write. rewrite Hio, (flag_test pc io) by (done || apply Hwf || lia).
        unfold erasedAt in He. rewrite Hio in He. rewrite He. simpl.
        rewrite (get_raw_Some _ _ _ (next_get pc io b i Hwf ltac:(lia))). simpl.
        rewrite (proj2 (Z.ltb_lt _ _)) by lia. split; [done | lia].
    + unfold write. rewrite Hio, (flag_test pc io) by (done || apply Hwf || lia).
      unfold erasedAt in He. rewrite Hio in He. rewrite He. done.
  - unfold write. rewrite Hio, (proj2 (Z.ltb_ge i io)) by lia.
    destruct (Z.eqb_spec i 0); [lia|]. rewrite andb_false_r. done.
Qed.

Theorem write_outcomes_witness :
  match write sample 1 9 2 5 with Ok _ => False | Err e => e = Panic "I/O map size mismatch" end.
Proof.
  pose proof (write_outcomes 4 2 sample 1 2 9 5 sample_inv ltac:(lia) ltac:(lia)) as H.
  destruct (write sample 1 9 2 5) as [[r b']|e]; [lia | exact (proj1 H)].
Defined.

(** The page queries.  [getNextWritePageIndex()] is the largest write
    pointer, [getValidPageCount] the number of pages with a valid unit,
    [getValidPageCountRaw] the number of valid units, [getDirtyPageCount] the
    number of pages with a unit that is neither valid nor erased, in both
    layouts, and [getPageInfo] reports the valid units and LPNs of its page. *)
Theorem page_queries (pc io : Z) (b : t) (p : Z) (map : Bitset.t) :
  wf pc io b -> pc * io < 2 ^ 32 -> Bitset.wf io map -> 0 <= p < pc ->
  wpr noerr (getNextWritePageIndex b) (max_next io b) /\
  getValidPageCount b = Ok (count_range (pageValid io b) pc) /\
  getValidPageCountRaw b = Ok (sum_range (fun p => count_range (validAt b p) io) pc) /\
  getDirtyPageCount b = Ok (count_range (pageDirty io b) pc) /\
  wpr noerr (getPageInfo b p map) (fun '(r, lpns, map') =>
    (r = true <-> exists i, 0 <= i < io /\ validAt b p i = true) /\
    forall i, 0 <= i < io -> vget lpns i = Some (lpnAt b p i) /\
                             Bitset.bit map' i = validAt b p i).
Proof.
  intros Hwf Hov Hmap Hp. split_and!.
  - by apply (getNextWritePageIndex_spec pc).
  - pose proof (getValidPageCount_spec pc io noerr b Hwf) as (r & -> & ->)%wpr_noerr. done.
  - pose proof (getValidPageCountRaw_spec pc io noerr b Hwf Hov) as (r & -> & ->)%wpr_noerr. done.
  - pose proof (getDirtyPageCount_spec pc io noerr b Hwf) as (r & -> & ->)%wpr_noerr. done.
  - eapply wpr_mono; [by apply (getPageInfo_spec pc io)|].
    intros [[r l] m] (Hr & _ & Hl & _ & Hm). simpl in *. split; [done|].
    intros i Hi. split; [by apply Hl | by apply Hm].
Qed.

Theorem page_queries_witness : getValidPageCount sample = Ok 0.
Proof.
  pose proof (Bitset.make_spec 2 ltac:(lia)) as [Hm _].
  destruct (page_queries 4 2 sample 0 (Bitset.make 2) (inv_wf _ _ _ sample_inv)
              ltac:(lia) Hm ltac:(lia)) as (_ & H & _).
  exact H.
Defined.

End Block.
