(* ===== verification/Float32.v ===== *)
(** * [float] arithmetic

    The translation layer compares ratios and weights in single precision.
    [f32] is the IEEE-754 binary32 format of the Standard Library's executable
    specification ([SpecFloat], precision 24, exponent range 128): conversions
    round to nearest even, as the C++ implicit conversions do. *)

From S2P Require Import Prelude.
From Stdlib Require Export SpecFloat.

Definition f32 : Type := spec_float.

(** [(float)z] *)
Definition f32_of_Z (z : Z) : f32 := binary_normalize 24 128 z 0 false.
Definition f32_add : f32 -> f32 -> f32 := SFadd 24 128.
Definition f32_sub : f32 -> f32 -> f32 := SFsub 24 128.
Definition f32_mul : f32 -> f32 -> f32 := SFmul 24 128.
Definition f32_div : f32 -> f32 -> f32 := SFdiv 24 128.
Definition f32_lt : f32 -> f32 -> bool := SFltb.

(** A decimal constant of a configuration file, as the ratio [n / d]. *)
Definition f32_ratio (n d : Z) : f32 := f32_div (f32_of_Z n) (f32_of_Z d).

(** The integer part, towards zero; infinities and NaN have none. *)
Definition f32_trunc (x : f32) : option Z :=
  match x with
  | S754_zero _ => Some 0
  | S754_finite s m e =>
      let a := if 0 <=? e then Z.pos m * 2 ^ e else Z.pos m / 2 ^ (- e) in
      Some (if s then - a else a)
  | _ => None
  end.

(** Conversion to [uint64_t], of a [double] as well: undefined when the integer part does not fit. *)
Definition f32_to_u64 (x : f32) : res Z :=
  match f32_trunc x with
  | Some z => if (0 <=? z) && (z <? 2 ^ 64) then Ok z else Err UB
  | None => Err UB
  end.

Definition f32_to_u32 (x : f32) : res Z :=
  match f32_trunc x with
  | Some z => if (0 <=? z) && (z <? 2 ^ 32) then Ok z else Err UB
  | None => Err UB
  end.

Definition f32_is_nan (x : f32) : bool :=
  match x with S754_nan => true | _ => false end.

(** Promotion to [double] (exact), its operations, and the comparisons of a [float] with a [double] constant. *)
Definition f64_of_f32 (x : f32) : spec_float :=
  match x with
  | S754_finite s m e => binary_normalize 53 1024 (if s then Z.neg m else Z.pos m) e s
  | _ => x
  end.
Definition f64_ratio (n d : Z) : spec_float :=
  SFdiv 53 1024 (binary_normalize 53 1024 n 0 false) (binary_normalize 53 1024 d 0 false).
Definition f64_of_Z (z : Z) : spec_float := binary_normalize 53 1024 z 0 false.
Definition f64_add : spec_float -> spec_float -> spec_float := SFadd 53 1024.
Definition f64_mul : spec_float -> spec_float -> spec_float := SFmul 53 1024.
Definition f64_div : spec_float -> spec_float -> spec_float := SFdiv 53 1024.
Definition f32_gt_f64 (x : f32) (c : spec_float) : bool := SFltb c (f64_of_f32 x).

(** [<] is a strict order on values that are not NaN. *)
Lemma f32_lt_irrefl x : f32_lt x x = false.
Proof.
  unfold f32_lt, SFltb. destruct x as [[]|[]| |[] m e]; simpl; try done.
  - by rewrite Z.compare_refl, Pos.compare_cont_refl.
  - by rewrite Z.compare_refl, Pos.compare_cont_refl.
Qed.

(** The order of the values that are not NaN is lexicographic in (sign class,
    exponent, mantissa). *)
Definition f32_key (x : f32) : Z * Z * Z :=
  match x with
  | S754_infinity s => (if s then -2 else 2, 0, 0)
  | S754_finite s m e => if s then (-1, - e, Z.neg m) else (1, e, Z.pos m)
  | _ => (0, 0, 0)
  end.
Definition key_lt (a b : Z * Z * Z) : Prop :=
  a.1.1 < b.1.1 \/ (a.1.1 = b.1.1 /\ (a.1.2 < b.1.2 \/ (a.1.2 = b.1.2 /\ a.2 < b.2))).

Lemma f32_lt_key x y : f32_is_nan x = false -> f32_is_nan y = false ->
  (f32_lt x y = true <-> key_lt (f32_key x) (f32_key y)).
Proof.
  unfold f32_lt, SFltb, key_lt. destruct x as [[]|[]| |[] m e], y as [[]|[]| |[] m' e'];
    simpl; intros Hx Hy; try done; try (split; [done | lia]); try (split; [lia | done]).
  - change (Pos.compare_cont Eq m m') with (m ?= m')%positive.
    destruct (Z.compare_spec e e'); simpl; [|split; [done | lia]|split; [lia | done]].
    subst. destruct (Pos.compare_spec m m'); simpl; split; try done; lia.
  - change (Pos.compare_cont Eq m m') with (m ?= m')%positive.
    destruct (Z.compare_spec e e'); simpl; [|split; [lia | done]|split; [done | lia]].
    subst. destruct (Pos.compare_spec m m'); simpl; split; try done; lia.
Qed.

(** Not below is transitive. *)
Lemma f32_nlt_trans x y z : f32_is_nan x = false -> f32_is_nan y = false -> f32_is_nan z = false ->
  f32_lt y x = false -> f32_lt z y = false -> f32_lt z x = false.
Proof.
  intros Hx Hy Hz. rewrite <- !not_true_iff_false, !f32_lt_key by done. unfold key_lt. lia.
Qed.

Lemma f32_lt_asym x y : f32_is_nan x = false -> f32_is_nan y = false ->
  f32_lt x y = true -> f32_lt y x = false.
Proof. intros Hx Hy. rewrite <- not_true_iff_false, !f32_lt_key by done. unfold key_lt. lia. Qed.

(** A converted integer is a number. *)
Lemma iter_pos_ind {A} (f : A -> A) (Q : A -> Prop) : (forall x, Q x -> Q (f x)) ->
  forall n x, Q x -> Q (iter_pos f n x).
Proof. intros Hf n. induction n as [n IH|n IH|]; simpl; auto. Qed.

Lemma shr_nonneg r e n : 0 <= shr_m r -> 0 <= shr_m (fst (shr r e n)).
Proof.
  intros Hr. unfold shr. destruct n; simpl; [done | | done].
  apply (iter_pos_ind shr_1 (fun r => 0 <= shr_m r)); [|done].
  intros [m a b] Hm. simpl in Hm. destruct m as [|[]|]; simpl; lia.
Qed.

Lemma shr_fexp_nonneg p ex m e l : 0 <= m -> 0 <= shr_m (fst (shr_fexp p ex m e l)).
Proof. intros Hm. unfold shr_fexp. apply shr_nonneg. by destruct l as [|[]]. Qed.

Lemma round_nonneg m l : 0 <= m -> 0 <= round_nearest_even m l.
Proof. intros Hm. destruct l as [|[]]; simpl; try case_match; lia. Qed.

Lemma binary_round_aux_number p ex s m e l : 0 <= m -> f32_is_nan (binary_round_aux p ex s m e l) = false.
Proof.
  intros Hm. unfold binary_round_aux.
  pose proof (shr_fexp_nonneg p ex m e l Hm) as H1. destruct (shr_fexp p ex m e l) as [r1 e1]. simpl in H1.
  pose proof (shr_fexp_nonneg p ex _ e1 loc_Exact (round_nonneg _ (loc_of_shr_record r1) H1)) as H2.
  destruct (shr_fexp p ex _ e1 loc_Exact) as [r2 e2]. simpl in H2.
  destruct (shr_m r2); [done | by case_match | lia].
Qed.

Lemma f32_of_Z_number z : f32_is_nan (f32_of_Z z) = false.
Proof.
  unfold f32_of_Z, binary_normalize, binary_round. destruct z as [|q|q]; [done | |];
    case_match; apply binary_round_aux_number; lia.
Qed.

Lemma f32_ratio_example : f32_lt (f32_ratio 3 64) (f32_ratio 1 20) = true.
Proof. vm_compute. reflexivity. Qed.

Lemma f64_ratio_example :
  f32_gt_f64 (f32_ratio 33 100000) (f64_ratio 32 100000) = true /\
  f32_gt_f64 (f32_ratio 31 100000) (f64_ratio 32 100000) = false.
Proof. vm_compute. done. Qed.
