(* ===== verification/Types.v ===== *)
(** * util/def.hh, cpu/def.hh, bil/entry.hh and the devices below the FTL

    The request types the layers exchange, the labels of the CPU cost model,
    and the interface ([Device]) through which the FTL calls the physical layer,
    the DRAM, the CPU model, the clock, the error model and the random number
    generator. *)

From S2P Require Import Prelude Bitset Float32.
From Stdlib Require Import Sorted.

(** [LPNRange] *)
Record LPNRange : Type := mkLPNRange { slpn : Z; nlp : Z }.

(** [ICL::Request] *)
Record IclRequest : Type := mkIclRequest {
  icl_reqID : Z;
  icl_reqSubID : Z;
  icl_offset : Z;
  icl_length : Z;
  icl_range : LPNRange;
}.

(** [FTL::Request] *)
Record Request : Type := mkRequest {
  reqID : Z;
  reqSubID : Z;
  lpn : Z;
  ioFlag : Bitset.t;
}.

(** [FTL::Request(iocount)] and [FTL::Request(iocount, ICL::Request &)] *)
Definition FtlRequest_make (iocount : Z) : Request := mkRequest 0 0 0 (Bitset.make iocount).
Definition FtlRequest_of_icl (iocount : Z) (r : IclRequest) : res Request :=
  io ← Bitset.set (Bitset.make iocount) (slpn (icl_range r) mod iocount) true;
  Ok (mkRequest (icl_reqID r) (icl_reqSubID r) (slpn (icl_range r) / iocount) io).

(** [PAL::Request] *)
Record PalRequest : Type := mkPalRequest {
  pal_reqID : Z;
  pal_reqSubID : Z;
  blockIndex : Z;
  pageIndex : Z;
  pal_ioFlag : Bitset.t;
}.

(** [PAL::Request(iocount)] and [PAL::Request(FTL::Request &)] *)
Definition PalRequest_make (iocount : Z) : PalRequest := mkPalRequest 0 0 0 0 (Bitset.make iocount).
Definition PalRequest_of_ftl (r : Request) : PalRequest :=
  mkPalRequest (reqID r) (reqSubID r) 0 0 (Bitset.copy (ioFlag r)).

Definition pal_at (r : PalRequest) (b p : Z) (io : Bitset.t) : PalRequest :=
  mkPalRequest (pal_reqID r) (pal_reqSubID r) b p io.

(** [CPU::NAMESPACE] *)
Inductive NAMESPACE : Type :=
  | NS_FTL | FTL__PAGE_MAPPING | NS_ICL | ICL__GENERIC_CACHE | HIL
  | NVME__CONTROLLER | NVME__PRPLIST | NVME__SGL | NVME__SUBSYSTEM | NVME__NAMESPACE
  | NVME__OCSSD | UFS__DEVICE | SATA__DEVICE.

(** [CPU::FUNCTION], the functions of the storage stack. *)
Inductive FUNCTION : Type :=
  | READ | WRITE | FLUSH | TRIM | FORMAT
  | READ_INTERNAL | WRITE_INTERNAL | ERASE_INTERNAL | TRIM_INTERNAL
  | SELECT_VICTIM_BLOCK | DO_GARBAGE_COLLECTION
  | CREATE_CQ | CREATE_SQ | COLLECT_SQ | HANDLE_REQUEST | WORK | COMPLETION
  | GET_PRPLIST_FROM_PRP | PARSE_SGL_SEGMENT | SUBMIT_COMMAND | CONVERT_UNIT | FORMAT_NVM
  | DATASET_MANAGEMENT | VECTOR_CHUNK_READ | VECTOR_CHUNK_WRITE | VECTOR_CHUNK_RESET
  | PHYSICAL_PAGE_READ | PHYSICAL_PAGE_WRITE | PHYSICAL_BLOCK_ERASE
  | PROCESS_QUERY_COMMAND | PROCESS_COMMAND | PRDT_READ | PRDT_WRITE
  | READ_DMA | READ_NCQ | READ_DMA_SETUP | READ_DMA_DONE
  | WRITE_DMA | WRITE_NCQ | WRITE_DMA_SETUP | WRITE_DMA_DONE.

#[export] Instance NAMESPACE_eq_dec : EqDecision NAMESPACE.
Proof. solve_decision. Defined.
#[export] Instance FUNCTION_eq_dec : EqDecision FUNCTION.
Proof. solve_decision. Defined.

(** ** Block requests

    [BIO_TYPE] and [BIO] of bil/entry.hh; the callback of a request is what the
    operation that completes it is given, its submission time is kept by [Bil.v]. *)
Inductive BIO_TYPE : Type := BIO_READ | BIO_WRITE | BIO_FLUSH | BIO_TRIM | BIO_NUM.
#[export] Instance BIO_TYPE_eq_dec : EqDecision BIO_TYPE.
Proof. solve_decision. Defined.
Record BIO : Type := mkBIO { bio_id : Z; bio_type : BIO_TYPE; bio_offset : Z; bio_length : Z }.

(** ** The devices

    [D] is the joint state of everything the FTL calls: PAL, DRAM, CPU, clock,
    error model, random device.  Each operation may fail (the callee panics);
    the timed ones take and return the tick they are passed by reference. *)
Class Device (D : Type) : Type := {
  pal_read : PalRequest -> Z -> D -> res (Z * D);
  pal_write : PalRequest -> Z -> D -> res (Z * D);
  pal_erase : PalRequest -> Z -> D -> res (Z * D);
  dram_read : Z -> Z -> D -> res (Z * D);
  dram_write : Z -> Z -> D -> res (Z * D);
  applyLatency : NAMESPACE -> FUNCTION -> D -> res (Z * D);
  getTick : D -> Z;
  (** [engine.scheduleEvent(refreshEvent, tick)] *)
  scheduleRefresh : Z -> D -> D;
  (** [ErrorModeling::getRBER(retentionTime, peCycle, layer)]: draws from the model's generator *)
  getRBER : Z -> f32 -> Z -> D -> f32 * D;
  (** [std::uniform_int_distribution(lo, hi)(gen)] *)
  draw : Z -> Z -> D -> Z * D;
  (** the value of an uninitialised local *)
  indeterminate : D -> Z;
}.

(** What the FTL relies on: no callee panics, and time does not go back. *)
Class DeviceLaws (D : Type) `{Device D} : Prop := {
  pal_read_ok r t d : exists t' d', pal_read r t d = Ok (t', d') /\ t <= t';
  pal_write_ok r t d : exists t' d', pal_write r t d = Ok (t', d') /\ t <= t';
  pal_erase_ok r t d : exists t' d', pal_erase r t d = Ok (t', d') /\ t <= t';
  dram_read_ok n t d : exists t' d', dram_read n t d = Ok (t', d') /\ t <= t';
  dram_write_ok n t d : exists t' d', dram_write n t d = Ok (t', d') /\ t <= t';
  applyLatency_ok ns f d : exists l d', applyLatency ns f d = Ok (l, d') /\ 0 <= l;
}.

(** The orders the language leaves open: the iteration order of an
    [unordered_map], and the arrangement [std::sort] gives to equal weights. *)
Class StdOrder : Type := {
  umap_order : forall {A : Type}, gmap Z A -> list (Z * A);
  sort_weights : list (Z * f32) -> list (Z * f32);
  random_fuel : nat;
}.

Class StdOrderLaws `{StdOrder} : Prop := {
  umap_order_perm {A} (m : gmap Z A) : umap_order m ≡ₚ map_to_list m;
  sort_weights_perm l : sort_weights l ≡ₚ l;
  sort_weights_sorted l :
    Forall (fun w => f32_is_nan (snd w) = false) l ->
    forall i j wi wj, (i < j)%nat -> sort_weights l !! i = Some wi -> sort_weights l !! j = Some wj ->
      f32_lt (snd wj) (snd wi) = false;
}.

(** ** A device for the examples

    Each operation takes one tick and is appended to a log; random draws cycle
    through the range. *)
Module TraceDevice.

Inductive event : Type :=
  | EvRead (b p : Z) | EvProgram (b p : Z) | EvErase (b : Z) | EvSchedule (tick : Z).

Record t : Type := mk { log : list event; seed : Z }.

Definition note (e : event) (tick : Z) (d : t) : res (Z * t) :=
  Ok (tick + 1, mk (e :: log d) (seed d)).

#[global] Instance device : Device t := {
  pal_read r := note (EvRead (blockIndex r) (pageIndex r));
  pal_write r := note (EvProgram (blockIndex r) (pageIndex r));
  pal_erase r := note (EvErase (blockIndex r));
  dram_read _ tick d := Ok (tick, d);
  dram_write _ tick d := Ok (tick, d);
  applyLatency _ _ d := Ok (1, d);
  getTick _ := 0;
  scheduleRefresh tick d := mk (EvSchedule tick :: log d) (seed d);
  getRBER _ _ _ d := (S754_zero false, d);
  draw lo hi d := (lo + seed d mod (hi - lo + 1), mk (log d) (seed d + 1));
  indeterminate _ := 0;
}.

#[global] Instance laws : DeviceLaws t.
Proof.
  split; intros; cbn -[Z.add];
    solve [do 2 eexists; split; [reflexivity | lia]].
Qed.

Definition start : t := mk [] 0.

End TraceDevice.

(** Ascending keys, and a stable insertion sort. *)
Module ListOrder.

Fixpoint insert_weight (w : Z * f32) (l : list (Z * f32)) : list (Z * f32) :=
  match l with
  | [] => [w]
  | x :: l' => if f32_lt (snd x) (snd w) then x :: insert_weight w l' else w :: x :: l'
  end.

#[export] Instance order : StdOrder := {
  umap_order A m := map_to_list m;
  sort_weights l := foldr insert_weight [] l;
  random_fuel := 1000;
}.

Lemma insert_weight_perm w l : insert_weight w l ≡ₚ w :: l.
Proof.
  induction l as [|x l IH]; simpl; [done|]. case_match; [|done].
  rewrite IH. constructor.
Qed.

Lemma sort_perm l : foldr insert_weight [] l ≡ₚ l.
Proof. induction l as [|x l IH]; simpl; [done|]. by rewrite insert_weight_perm, IH. Qed.

Definition number (w : Z * f32) : Prop := f32_is_nan (snd w) = false.
Definition ordered : list (Z * f32) -> Prop := StronglySorted (fun w w' => f32_lt (snd w') (snd w) = false).

Lemma insert_weight_ordered w l : number w -> Forall number l -> ordered l -> ordered (insert_weight w l).
Proof.
  intros Hw. induction l as [|x l IH]; simpl; intros Hn Hl; [by repeat constructor|].
  inversion Hn as [|? ? Hx Hn']; subst. inversion Hl as [|? ? Hl' Hall]; subst.
  destruct (f32_lt (snd x) (snd w)) eqn:Hlt.
  - constructor; [by apply IH|]. rewrite insert_weight_perm. constructor; [|done]. by apply f32_lt_asym.
  - constructor; [done|]. constructor; [done|]. rewrite Forall_forall in Hall, Hn' |- *.
    intros y Hy. apply (f32_nlt_trans (snd w) (snd x)); auto. by apply Hn'.
Qed.

Lemma sort_ordered l : Forall number l -> ordered (foldr insert_weight [] l).
Proof.
  induction 1 as [|x l Hx Hl IH]; simpl; [constructor|].
  apply insert_weight_ordered; [done | | done]. by rewrite sort_perm.
Qed.

#[export] Instance order_laws : StdOrderLaws.
Proof.
  split.
  - done.
  - apply sort_perm.
  - intros l Hl. apply sort_ordered in Hl. change (sort_weights l) with (foldr insert_weight [] l).
    induction Hl as [|x k Hk IH Hall]; [done|]. rewrite Forall_forall in Hall.
    intros [|i] [|j] wi wj Hij Hi Hj; simpl in *; try lia; [|by eapply (IH i j); eauto; lia].
    simplify_eq. by eapply Hall, list_elem_of_lookup_2.
Qed.

End ListOrder.
