(* ===== verification/PmState.v ===== *)
(** * ftl/page_mapping.hh, ftl/config.hh: the state of the page-mapping FTL

    The configuration and geometry ([Setup]), the state record of the class
    [PageMapping] split into the parts its operations touch together, and the
    accessors the operations are written with: a container member reached
    through an iterator is a key, and dereferencing the iterator is a lookup
    that is undefined ([UB]) when the key is not there. *)

From S2P Require Import Prelude Bitset Block Float32 Types.

(** ** Configuration *)

Inductive GC_MODE : Type := GC_MODE_0 | GC_MODE_1 | GC_MODE_other.

Inductive EVICT_POLICY : Type :=
  | POLICY_GREEDY | POLICY_COST_BENEFIT | POLICY_RANDOM | POLICY_DCHOICE | POLICY_RECO
  | POLICY_other.

Inductive FILLING_MODE : Type := FILLING_MODE_0 | FILLING_MODE_1 | FILLING_MODE_2.

(** The members of [FTL::Config] the page mapping reads.  The values the two
    enumerations do not name stand for an integer cast out of their range. *)
Record Config : Type := mkConfig {
  gcThreshold : f32;
  badBlockThreshold : Z;
  fillingMode : FILLING_MODE;
  fillingRatio : f32;
  invalidRatio : f32;
  reclaimBlock : Z;
  reclaimThreshold : f32;
  gcMode : GC_MODE;
  evictPolicy : EVICT_POLICY;
  dChoiceParam : Z;
  randomIOTweak : bool;
  refreshFilterNum : Z;
  refreshMode : Z;
  refreshMaxLayerNum : Z;
  refreshGroupingSize : Z;
  refreshMaxRBER : f32;
  initEraseCount : Z;
  recoGCParam : f32;
  hotColdSeperation : Z;
  hotBlocksRatio : f32;
  coolDownWindowSize : Z;
}.

(** [FTL::Parameter] *)
Record FtlParameter : Type := mkParameter {
  totalPhysicalBlocks : Z;
  totalLogicalBlocks : Z;
  pagesInBlock : Z;
  pageSize : Z;
  ioUnitInPage : Z;
  pageCountToMaxPerf : Z;
}.

Class Setup : Type := { conf : Config; param : FtlParameter }.

(** ** State *)

(** A list of free blocks with its counter. *)
Record Pool : Type := mkPool { free : list Block.t; nFree : Z }.

(** One family of open blocks: [last*FreeBlock], [last*FreeBlockIOMap], [last*FreeBlockIndex]. *)
Record Cursor : Type := mkCursor {
  lastFreeBlock : list Z;
  lastFreeBlockIOMap : Bitset.t;
  lastFreeBlockIndex : Z;
}.

(** The refresh queues. *)
Record Refresh : Type := mkRefresh {
  layerQueueNum : list Z;
  insertedLayerCheck : Bitset.t;
  insertedGroupCheck : Bitset.t;
  refreshQueues : list (list Z);
  checkedQueues : list (list Z);
}.

(** Hot/cold separation: limits and windows. *)
Record HotCold : Type := mkHotCold {
  nCooldownBlocks : Z;
  hotBlocksLimit : Z;
  coldBlocksLimit : Z;
  coldRatio : f32;
  hotWindow : list Z;
  coolDownWindow : list Z;
}.

Record Stat : Type := mkStat {
  gcCount : Z;
  reclaimedBlocks : Z;
  validSuperPageCopies : Z;
  validPageCopies : Z;
  refreshGcPageCopies : Z;
  refreshCount : Z;
  refreshedBlocks : Z;
  refreshSuperPageCopies : Z;
  refreshPageCopies : Z;
  refreshCallCount : Z;
  layerCheckCount : Z;
  doubleInsertionCount : Z;
  hotGcCount : Z;
  reclaimedHotBlocks : Z;
  hotValidSuperPageCopies : Z;
  hotValidPageCopies : Z;
  coldGcCount : Z;
  reclaimedColdBlocks : Z;
  coldValidSuperPageCopies : Z;
  coldValidPageCopies : Z;
}.

(** [FTL::Status] *)
Record Status : Type := mkStatus {
  totalLogicalPages : Z;
  mappedLogicalPages : Z;
  freePhysicalBlocks : Z;
}.

(** The mapping table and every block, in use or free. *)
Record Core : Type := mkCore {
  table : gmap Z (list (Z * Z));
  blocks : gmap Z Block.t;
  plainPool : Pool;
  hotPool : Pool;
  coldPool : Pool;
}.

Record t (D : Type) : Type := mk {
  core : Core;
  plainCur : Cursor;
  hotCur : Cursor;
  coldCur : Cursor;
  coolCur : Cursor;
  bReclaimMore : bool;
  refresh : Refresh;
  hotCold : HotCold;
  stat : Stat;
  status : Status;
  dev : D;
}.
Arguments mk {D} _ _ _ _ _ _ _ _ _ _ _.
Arguments core {D} _.
Arguments plainCur {D} _.
Arguments hotCur {D} _.
Arguments coldCur {D} _.
Arguments coolCur {D} _.
Arguments bReclaimMore {D} _.
Arguments refresh {D} _.
Arguments hotCold {D} _.
Arguments stat {D} _.
Arguments status {D} _.
Arguments dev {D} _.

Section Updates.
  Context {D : Type}.
  Implicit Types s : t D.

Definition with_core x s : t D := mk x (plainCur s) (hotCur s) (coldCur s) (coolCur s)
  (bReclaimMore s) (refresh s) (hotCold s) (stat s) (status s) (dev s).
Definition with_plainCur x s : t D := mk (core s) x (hotCur s) (coldCur s) (coolCur s)
  (bReclaimMore s) (refresh s) (hotCold s) (stat s) (status s) (dev s).
Definition with_hotCur x s : t D := mk (core s) (plainCur s) x (coldCur s) (coolCur s)
  (bReclaimMore s) (refresh s) (hotCold s) (stat s) (status s) (dev s).
Definition with_coldCur x s : t D := mk (core s) (plainCur s) (hotCur s) x (coolCur s)
  (bReclaimMore s) (refresh s) (hotCold s) (stat s) (status s) (dev s).
Definition with_coolCur x s : t D := mk (core s) (plainCur s) (hotCur s) (coldCur s) x
  (bReclaimMore s) (refresh s) (hotCold s) (stat s) (status s) (dev s).
Definition with_reclaimMore x s : t D := mk (core s) (plainCur s) (hotCur s) (coldCur s) (coolCur s)
  x (refresh s) (hotCold s) (stat s) (status s) (dev s).
Definition with_refresh x s : t D := mk (core s) (plainCur s) (hotCur s) (coldCur s) (coolCur s)
  (bReclaimMore s) x (hotCold s) (stat s) (status s) (dev s).
Definition with_hotCold x s : t D := mk (core s) (plainCur s) (hotCur s) (coldCur s) (coolCur s)
  (bReclaimMore s) (refresh s) x (stat s) (status s) (dev s).
Definition with_stat x s : t D := mk (core s) (plainCur s) (hotCur s) (coldCur s) (coolCur s)
  (bReclaimMore s) (refresh s) (hotCold s) x (status s) (dev s).
Definition with_status x s : t D := mk (core s) (plainCur s) (hotCur s) (coldCur s) (coolCur s)
  (bReclaimMore s) (refresh s) (hotCold s) (stat s) x (dev s).
Definition with_dev x s : t D := mk (core s) (plainCur s) (hotCur s) (coldCur s) (coolCur s)
  (bReclaimMore s) (refresh s) (hotCold s) (stat s) (status s) x.
End Updates.

Definition core_table x (c : Core) : Core := mkCore x (blocks c) (plainPool c) (hotPool c) (coldPool c).
Definition core_blocks x (c : Core) : Core := mkCore (table c) x (plainPool c) (hotPool c) (coldPool c).
Definition core_plainPool x (c : Core) : Core := mkCore (table c) (blocks c) x (hotPool c) (coldPool c).
Definition core_hotPool x (c : Core) : Core := mkCore (table c) (blocks c) (plainPool c) x (coldPool c).
Definition core_coldPool x (c : Core) : Core := mkCore (table c) (blocks c) (plainPool c) (hotPool c) x.

(** ** Statistics counters (64-bit, wrapping) *)

Definition stat_zero : Stat := mkStat 0 0 0 0 0 0 0 0 0 0 0 0 0 0 0 0 0 0 0 0.

(** [stat.c += n] for the counters the operations increment. *)
Definition stat_gc (n : Z) (x : Stat) : Stat :=
  mkStat (u64 (gcCount x + 1)) (u64 (reclaimedBlocks x + n)) (validSuperPageCopies x)
    (validPageCopies x) (refreshGcPageCopies x) (refreshCount x) (refreshedBlocks x)
    (refreshSuperPageCopies x) (refreshPageCopies x) (refreshCallCount x) (layerCheckCount x)
    (doubleInsertionCount x) (hotGcCount x) (reclaimedHotBlocks x) (hotValidSuperPageCopies x)
    (hotValidPageCopies x) (coldGcCount x) (reclaimedColdBlocks x) (coldValidSuperPageCopies x)
    (coldValidPageCopies x).
Definition stat_hotGc (n : Z) (x : Stat) : Stat :=
  mkStat (gcCount x) (reclaimedBlocks x) (validSuperPageCopies x)
    (validPageCopies x) (refreshGcPageCopies x) (refreshCount x) (refreshedBlocks x)
    (refreshSuperPageCopies x) (refreshPageCopies x) (refreshCallCount x) (layerCheckCount x)
    (doubleInsertionCount x) (u64 (hotGcCount x + 1)) (u64 (reclaimedHotBlocks x + n))
    (hotValidSuperPageCopies x) (hotValidPageCopies x) (coldGcCount x) (reclaimedColdBlocks x)
    (coldValidSuperPageCopies x) (coldValidPageCopies x).
Definition stat_coldGc (n : Z) (x : Stat) : Stat :=
  mkStat (gcCount x) (reclaimedBlocks x) (validSuperPageCopies x)
    (validPageCopies x) (refreshGcPageCopies x) (refreshCount x) (refreshedBlocks x)
    (refreshSuperPageCopies x) (refreshPageCopies x) (refreshCallCount x) (layerCheckCount x)
    (doubleInsertionCount x) (hotGcCount x) (reclaimedHotBlocks x) (hotValidSuperPageCopies x)
    (hotValidPageCopies x) (u64 (coldGcCount x + 1)) (u64 (reclaimedColdBlocks x + n))
    (coldValidSuperPageCopies x) (coldValidPageCopies x).
(** Copies: superpages and pages of plain GC, hot GC, cold GC and refresh, and
    pages copied by a GC that a refresh started. *)
Definition stat_copies (sp p hsp hp csp cp rsp rp rgc : Z) (x : Stat) : Stat :=
  mkStat (gcCount x) (reclaimedBlocks x) (u64 (validSuperPageCopies x + sp))
    (u64 (validPageCopies x + p)) (u64 (refreshGcPageCopies x + rgc)) (refreshCount x)
    (refreshedBlocks x) (u64 (refreshSuperPageCopies x + rsp)) (u64 (refreshPageCopies x + rp))
    (refreshCallCount x) (layerCheckCount x) (doubleInsertionCount x) (hotGcCount x)
    (reclaimedHotBlocks x) (u64 (hotValidSuperPageCopies x + hsp)) (u64 (hotValidPageCopies x + hp))
    (coldGcCount x) (reclaimedColdBlocks x) (u64 (coldValidSuperPageCopies x + csp))
    (u64 (coldValidPageCopies x + cp)).
Definition stat_refreshCalls (n d : Z) (x : Stat) : Stat :=
  mkStat (gcCount x) (reclaimedBlocks x) (validSuperPageCopies x)
    (validPageCopies x) (refreshGcPageCopies x) (refreshCount x) (refreshedBlocks x)
    (refreshSuperPageCopies x) (refreshPageCopies x) n (layerCheckCount x)
    (u64 (doubleInsertionCount x + d)) (hotGcCount x) (reclaimedHotBlocks x)
    (hotValidSuperPageCopies x) (hotValidPageCopies x) (coldGcCount x) (reclaimedColdBlocks x)
    (coldValidSuperPageCopies x) (coldValidPageCopies x).

(** ** Accessors *)

Section Accessors.
  Context {D : Type} `{Device D} `{Setup}.

(** [bitsetSize]: the units mapped separately. *)
Definition bRandomTweak : bool := randomIOTweak conf.
Definition bitsetSize : Z := if bRandomTweak then ioUnitInPage param else 1.

(** [blocks.find(k)->second] *)
Definition getB (k : Z) : M (t D) Block.t :=
  o ← gets (fun s => blocks (core s) !! k);
  match o with Some b => mret b | None => fail UB end.
Definition putB (k : Z) (b : Block.t) : M (t D) unit :=
  modify (fun s => with_core (core_blocks (<[k := b]> (blocks (core s))) (core s)) s).
(** A member function called on [blocks.find(k)->second]. *)
Definition onB {A} (k : Z) (f : Block.t -> res (A * Block.t)) : M (t D) A :=
  b ← getB k; '(a, b) ← lift (f b); putB k b;; mret a.
Definition readB {A} (k : Z) (f : Block.t -> res A) : M (t D) A :=
  b ← getB k; lift (f b).
Definition updB (k : Z) (f : Block.t -> res Block.t) : M (t D) unit :=
  b ← getB k; b ← lift (f b); putB k b.
Definition hasB (k : Z) : M (t D) bool :=
  gets (fun s => bool_decide (is_Some (blocks (core s) !! k))).

(** [table.find(lpn)] and the mapping [mappingList->second.at(idx)]. *)
Definition findT (l : Z) : M (t D) (option (list (Z * Z))) := gets (fun s => table (core s) !! l).
Definition putT (l : Z) (x : list (Z * Z)) : M (t D) unit :=
  modify (fun s => with_core (core_table (<[l := x]> (table (core s))) (core s)) s).
Definition eraseT (l : Z) : M (t D) unit :=
  modify (fun s => with_core (core_table (delete l (table (core s))) (core s)) s).
Definition getMapping (l idx : Z) : M (t D) (Z * Z) :=
  o ← findT l;
  match o with Some x => lift (get_at x idx) | None => fail UB end.
Definition setMapping (l idx : Z) (p : Z * Z) : M (t D) unit :=
  o ← findT l;
  match o with Some x => x ← lift (set_at x idx p); putT l x | None => fail UB end.

(** Calls to the devices. *)
Definition onDev {A} (f : D -> res (A * D)) : M (t D) A := zoom dev with_dev f.
Definition latency (f : FUNCTION) (tick : Z) : M (t D) Z :=
  l ← onDev (applyLatency FTL__PAGE_MAPPING f); mret (u64 (tick + l)).
Definition modStat (f : Stat -> Stat) : M (t D) unit := modify (fun s => with_stat (f (stat s)) s).

(** [x % n] on unsigned integers: undefined for [n = 0]. *)
Definition umod (x n : Z) : res Z := if n =? 0 then Err UB else Ok (x mod n).

(** [for (idx = 0; idx < bitsetSize; idx++) if (map.test(idx) ...)] *)
Definition for_units {A} (body : Z -> A -> M (t D) A) (a : A) : M (t D) A :=
  for_range 0 bitsetSize body a.
End Accessors.
