(* ===== verification/PmRefresh.v ===== *)
(** * ftl/page_mapping.cc: the refresh queues

    [setRefreshPeriod], [insertToQueue], [removeFromQueue]: a layer that is
    programmed is put in the queue of the period in which its predicted error
    rate passes the limit. *)

From S2P Require Import Prelude Bitset Block Float32 Types PmState.

(** [3600000000000000*2] and 1. *)
Definition refresh_period : Z := 7200000000000000.
Definition background_ratio : Z := 1.

Section Queues.
  Context {D : Type} `{Device D} `{Setup}.

Definition getR {A} (f : Refresh -> res A) : M (t D) A :=
  r ← gets refresh; lift (f r).
Definition setQueues q : M (t D) unit := modify (fun s =>
  with_refresh (mkRefresh (layerQueueNum (refresh s)) (insertedLayerCheck (refresh s))
    (insertedGroupCheck (refresh s)) q (checkedQueues (refresh s))) s).
Definition setChecked q : M (t D) unit := modify (fun s =>
  with_refresh (mkRefresh (layerQueueNum (refresh s)) (insertedLayerCheck (refresh s))
    (insertedGroupCheck (refresh s)) (refreshQueues (refresh s)) q) s).
Definition setLayerQueue q : M (t D) unit := modify (fun s =>
  with_refresh (mkRefresh q (insertedLayerCheck (refresh s)) (insertedGroupCheck (refresh s))
    (refreshQueues (refresh s)) (checkedQueues (refresh s))) s).
Definition setLayerCheck b : M (t D) unit := modify (fun s =>
  with_refresh (mkRefresh (layerQueueNum (refresh s)) b (insertedGroupCheck (refresh s))
    (refreshQueues (refresh s)) (checkedQueues (refresh s))) s).

(** [insertedLayerCheck.test(layer)] and [insertedLayerCheck.set(layer, v)] *)
Definition layerTest (layer : Z) : M (t D) bool := getR (fun r => Bitset.test (insertedLayerCheck r) layer).
Definition layerSet (layer : Z) (v : bool) : M (t D) unit :=
  b ← getR (fun r => Bitset.set (insertedLayerCheck r) layer v); setLayerCheck b.
(** [refreshQueues[q].push_back(layer)] *)
Definition pushQueue (q layer : Z) : M (t D) unit :=
  qs ← getR (fun r => l ← get_raw (refreshQueues r) q; set_raw (refreshQueues r) q (l ++ [layer]));
  setQueues qs.
(** [layerQueueNum[layer] = q] *)
Definition setLayerQueueNum (layer q : Z) : M (t D) unit :=
  l ← getR (fun r => set_raw (layerQueueNum r) layer q); setLayerQueue l.

(** The first occurrence of [x]. *)
Fixpoint remove_first (x : Z) (l : list Z) : list Z :=
  match l with
  | [] => []
  | y :: l' => if y =? x then l' else y :: remove_first x l'
  end.

(** The panic after the loop's own exit test is unreachable. *)
Definition removeFromQueue (layerID : Z) : M (t D) unit :=
  queueNum ← getR (fun r => get_raw (layerQueueNum r) layerID);
  qs ← getR (fun r => q ← get_raw (refreshQueues r) queueNum;
                      set_raw (refreshQueues r) queueNum (remove_first layerID q));
  setQueues qs.

Definition insertToQueue (queueNum layerID : Z) : M (t D) unit :=
  refreshcallCount ← gets (fun s => refreshCallCount (stat s) / background_ratio);
  let num_queue := refreshFilterNum conf in
  cur_queue ← lift (umod refreshcallCount num_queue);
  inserted ← layerTest layerID;
  if inserted : bool then
    newQueue ← lift (umod queueNum num_queue);
    oldQueue ← getR (fun r => get_raw (layerQueueNum r) layerID);
    let newQueue := if newQueue <=? cur_queue then u32 (newQueue + num_queue) else newQueue in
    let oldQueue := if oldQueue <=? cur_queue then u32 (oldQueue + num_queue) else oldQueue in
    if 24 <? u32 (newQueue - oldQueue) then
      removeFromQueue layerID;;
      pushQueue (queueNum mod num_queue) layerID;;
      setLayerQueueNum layerID (queueNum mod num_queue)
    else mret tt
  else
    q ← lift (umod queueNum num_queue);
    pushQueue q layerID;;
    setLayerQueueNum layerID q;;
    layerSet layerID true.

(** [errorModel.getRBER(refresh_period * i, eraseCount, layer)] *)
Definition predictRBER (i eraseCount layer : Z) : M (t D) f32 :=
  d ← gets dev;
  let '(r, d) := getRBER (u64 (refresh_period * i)) (f32_of_Z eraseCount) layer d in
  modify (with_dev d);; mret r.

(** [for (i = 1; i <= num_queue; i++)]: insert at the last round, or at the
    first whose predicted error rate passes the limit. *)
Fixpoint find_period (n : nat) (i num_queue : Z) (exceeds : Z -> M (t D) bool)
    (insert_last : M (t D) unit) (insert_at : Z -> M (t D) unit) : M (t D) unit :=
  match n with
  | O => mret tt
  | S n =>
      if i =? num_queue then insert_last
      else
        e ← exceeds i;
        if e : bool then insert_at i
        else find_period n (i + 1) num_queue exceeds insert_last insert_at
  end.

(** Modes 2 and 3: push the layers of a group that are not marked yet. *)
Definition insertUnmarked (q : Z) (layers : list Z) : M (t D) unit :=
  iterM (fun layerIndex =>
    m ← layerTest layerIndex;
    if m : bool then mret tt
    else pushQueue q layerIndex;; layerSet layerIndex true) layers.

(** The layers [groupFirst + k < 64], [k < size], of block [blockNum]. *)
Definition neighbours (blockNum groupFirst size : Z) : list Z :=
  (fun k => u32 (u32 (blockNum * 64) + groupFirst + k)) <$>
    filter (fun k => groupFirst + k < 64) (seqZ 0 size).

Definition maxRBER_const : spec_float := f64_ratio 32 100000.

Definition setRefreshPeriod (eraseCount blockNum layerNum : Z) : M (t D) unit :=
  refreshcallCount ← gets (fun s => refreshCallCount (stat s) / background_ratio);
  let num_queue := refreshFilterNum conf in
  cur_queue ← lift (umod refreshcallCount num_queue);
  let rounds := Z.to_nat num_queue in
  if refreshMode conf =? 0 then
    let layerID := u32 (u32 (blockNum * 64) + layerNum) in
    find_period rounds 1 num_queue
      (fun i => r ← predictRBER i eraseCount (layerID mod 64);
                mret (f32_lt (refreshMaxRBER conf) r))
      (insertToQueue cur_queue layerID)
      (fun i => insertToQueue (u32 (cur_queue + i)) layerID)
  else if refreshMode conf =? 1 then
    let groupingSize := refreshGroupingSize conf in
    if groupingSize =? 0 then fail UB
    else
      let groupFirst := layerNum / groupingSize * groupingSize in
      if layerNum =? groupFirst then
        let group := neighbours blockNum groupFirst groupingSize in
        let groupLast := let g := u32 (groupFirst + groupingSize - 1) in if 64 <=? g then 63 else g in
        find_period rounds 1 num_queue
          (fun i => r ← predictRBER i eraseCount groupLast;
                    mret (f32_lt (refreshMaxRBER conf) r))
          (iterM (fun layer => insertToQueue cur_queue layer) group)
          (fun i => iterM (fun layer => insertToQueue (u32 (cur_queue + i) mod num_queue) layer) group)
      else mret tt
  else if refreshMode conf =? 2 then
    let layerID := u32 (u32 (blockNum * 64) + layerNum) in
    m ← layerTest layerID;
    if m : bool then mret tt
    else
      let groupFirst := if layerNum =? 63 then 63 else layerNum mod 21 in
      let group := (fun k => u32 (u32 (blockNum * 64) + groupFirst + k * 21)) <$>
                     filter (fun k => groupFirst + k * 21 < 64) (seqZ 0 3) in
      find_period rounds 1 num_queue
        (fun i => r ← predictRBER i eraseCount groupFirst; mret (f32_gt_f64 r maxRBER_const))
        (insertUnmarked cur_queue group)
        (fun i => insertUnmarked (u32 (cur_queue + i) mod num_queue) group)
  else if refreshMode conf =? 3 then
    let layerID := u32 (u32 (blockNum * 64) + layerNum) in
    m ← layerTest layerID;
    if m : bool then mret tt
    else
      let groupFirst := if layerNum =? 63 then 63 else layerNum mod 21 / 3 * 3 in
      let group := seqZ 0 3 ≫= fun k => neighbours blockNum (groupFirst + k * 21) 3 in
      let groupLast := let g := groupFirst + 3 - 1 in if 64 <=? g then 63 else g in
      find_period rounds 1 num_queue
        (fun i => r ← predictRBER i eraseCount groupLast; mret (f32_gt_f64 r maxRBER_const))
        (insertUnmarked cur_queue group)
        (fun i => insertUnmarked (u32 (cur_queue + i) mod num_queue) group)
  else mret tt.
End Queues.
