(* ===== verification/PmAlloc.v ===== *)
(** * ftl/page_mapping.cc: allocation of free blocks

    The free-block ratios, the three pools ([getFreeBlock], [getHotFreeBlock],
    [getColdFreeBlock]) and the four families of open blocks
    ([getLastFreeBlock], [getLastHotFreeBlock], [getLastColdFreeBlock],
    [getLastCoolFreeBlock]). *)

From S2P Require Import Prelude Bitset Block Float32 Types PmState.

Section Alloc.
  Context {D : Type} `{Device D} `{Setup}.

Definition freeBlockRatio (s : t D) : f32 :=
  f32_div (f32_of_Z (nFree (plainPool (core s)))) (f32_of_Z (totalPhysicalBlocks param)).
Definition hotFreeBlockRatio (s : t D) : f32 :=
  f32_div (f32_of_Z (nFree (hotPool (core s)))) (f32_of_Z (hotBlocksLimit (hotCold s))).
Definition coldFreeBlockRatio (s : t D) : f32 :=
  f32_div (f32_of_Z (nFree (coldPool (core s))))
    (f32_of_Z (u64 (totalPhysicalBlocks param - hotBlocksLimit (hotCold s)))).

Definition convertBlockIdx (blockIdx : Z) : res Z := umod blockIdx (pageCountToMaxPerf param).

(** The search of the three allocators: the first free block whose index is
    [idx] modulo the stride, else the first; with what is left of the list. *)
Fixpoint find_stride (idx : Z) (l : list Block.t) : option (Block.t * list Block.t) :=
  match l with
  | [] => None
  | b :: l' =>
      if Block.getBlockIndex b mod pageCountToMaxPerf param =? idx then Some (b, l')
      else '(x, r) ← find_stride idx l'; Some (x, b :: r)
  end.
Definition find_free (idx : Z) (l : list Block.t) : option (Block.t * list Block.t) :=
  match find_stride idx l with
  | Some r => Some r
  | None => match l with [] => None | b :: l' => Some (b, l') end
  end.

(** What the three allocators share; [prepare] is the setters the caller applies. *)
Definition takeFree (view : Core -> Pool) (put : Pool -> Core -> Core) (prepare : Block.t -> Block.t)
    (duplicate empty : string) (idx : Z) : M (t D) Z :=
  if pageCountToMaxPerf param <=? idx then mpanic "Index out of range"
  else
    p ← gets (fun s => view (core s));
    if 0 <? nFree p then
      match find_free idx (free p) with
      | None => fail UB
      | Some (b, rest) =>
          let blockIndex := Block.getBlockIndex b in
          h ← hasB blockIndex;
          if h : bool then mpanic duplicate
          else
            putB blockIndex b;;
            now ← gets (fun s => getTick (dev s));
            updB blockIndex (fun b => Ok (prepare (Block.setLastWrittenTime now b)));;
            modify (fun s => with_core (put (mkPool rest (u32 (nFree p - 1))) (core s)) s);;
            mret blockIndex
      end
    else mpanic empty.

Definition getFreeBlock : Z -> M (t D) Z :=
  takeFree plainPool core_plainPool (Block.setRefreshedPageCount 0) "Corrupted" "No free block left".

Definition setHotWindow w : M (t D) unit := modify (fun s =>
  let h := hotCold s in
  with_hotCold (mkHotCold (nCooldownBlocks h) (hotBlocksLimit h) (coldBlocksLimit h) (coldRatio h)
    w (coolDownWindow h)) s).
Definition setCoolWindow w : M (t D) unit := modify (fun s =>
  let h := hotCold s in
  with_hotCold (mkHotCold (nCooldownBlocks h) (hotBlocksLimit h) (coldBlocksLimit h) (coldRatio h)
    (hotWindow h) w) s).

Definition getHotFreeBlock (idx : Z) : M (t D) Z :=
  blockIndex ← takeFree hotPool core_hotPool id
    "Get hot free block - already in block list" "No free block left" idx;
  w ← gets (fun s => hotWindow (hotCold s));
  setHotWindow (w ++ [blockIndex]);;
  updB blockIndex (fun b => Ok (Block.setBlockType Block.HOT b));;
  mret blockIndex.

(** [coolDownWindow.front()] of an empty deque is undefined. *)
Definition getColdFreeBlock (idx : Z) (queueInsert : bool) : M (t D) Z :=
  blockIndex ← takeFree coldPool core_coldPool id
    "Get cold free block - already in block list" "No free cold block left" idx;
  (if queueInsert then
     h ← gets hotCold;
     when (nCooldownBlocks h <=? vlen (coolDownWindow h))
       match coolDownWindow h with
       | [] => fail UB
       | front :: rest =>
           found ← hasB front;
           if found : bool then
             updB front (fun b => Ok (Block.setBlockType Block.COLD b));;
             setCoolWindow rest
           else mpanic "Corrupted. cool block lost"
       end;;
     w ← gets (fun s => coolDownWindow (hotCold s));
     setCoolWindow (w ++ [blockIndex]);;
     updB blockIndex (fun b => Ok (Block.setBlockType Block.COOL b))
   else updB blockIndex (fun b => Ok (Block.setBlockType Block.COLD b)));;
  mret blockIndex.

(** The four [getLast*FreeBlock] differ in the members they use and in the allocator. *)
Definition getLast (view : t D -> Cursor) (put : Cursor -> t D -> t D) (next : Z -> M (t D) Z)
    (iomap : Bitset.t) : M (t D) Z :=
  c ← gets view;
  hit ← (if negb bRandomTweak then mret true
         else lift (m ← Bitset.and_op (lastFreeBlockIOMap c) iomap; Bitset.any m));
  (if hit : bool then
     let i := u32 (lastFreeBlockIndex c + 1) in
     let i := if i =? pageCountToMaxPerf param then 0 else i in
     modify (put (mkCursor (lastFreeBlock c) (Bitset.copy iomap) i))
   else
     m ← lift (Bitset.or_assign (lastFreeBlockIOMap c) iomap);
     modify (put (mkCursor (lastFreeBlock c) m (lastFreeBlockIndex c))));;
  c ← gets view;
  k ← lift (get_at (lastFreeBlock c) (lastFreeBlockIndex c));
  found ← hasB k;
  if found : bool then
    nextPage ← readB k Block.getNextWritePageIndex;
    when (nextPage =? pagesInBlock param)
      (k' ← next (lastFreeBlockIndex c);
       c ← gets view;
       l ← lift (set_at (lastFreeBlock c) (lastFreeBlockIndex c) k');
       modify (put (mkCursor l (lastFreeBlockIOMap c) (lastFreeBlockIndex c)));;
       modify (with_reclaimMore true));;
    c ← gets view;
    lift (get_at (lastFreeBlock c) (lastFreeBlockIndex c))
  else mpanic "Corrupted".

Definition getLastFreeBlock : Bitset.t -> M (t D) Z := getLast plainCur with_plainCur getFreeBlock.
Definition getLastHotFreeBlock : Bitset.t -> M (t D) Z := getLast hotCur with_hotCur getHotFreeBlock.
Definition getLastColdFreeBlock : Bitset.t -> M (t D) Z :=
  getLast coldCur with_coldCur (fun idx => getColdFreeBlock idx false).
Definition getLastCoolFreeBlock : Bitset.t -> M (t D) Z :=
  getLast coolCur with_coolCur (fun idx => getColdFreeBlock idx true).
End Alloc.
