(* ===== verification/PmGc.v ===== *)
(** * ftl/page_mapping.cc: victim selection, garbage collection and refresh

    [calculateVictimWeight], [selectVictimBlock] and their hot and cold
    variants, [eraseInternal], [sepEraseInternal], [doGarbageCollection],
    [sepDoGarbageCollection], [refreshPage] and [refresh_event].  The loop that
    moves one superpage, which the two collectors and the refresh contain, is
    [relocatePage]. *)

From S2P Require Import Prelude Bitset Block Float32 Types PmState PmRefresh PmAlloc.

Section Gc.
  Context {D : Type} `{Device D} `{StdOrder} `{Setup}.

(** ** Victim selection *)

(** The blocks a weight loop does not skip, with [weigh] applied to them. *)
Definition weigh_blocks (keep : Block.t -> bool) (weigh : Block.t -> res f32) (s : t D)
    : res (list (Z * f32)) :=
  foldM (fun '(k, b) weight =>
      if keep b then
        n ← Block.getNextWritePageIndex b;
        if n =? pagesInBlock param then w ← weigh b; Ok (weight ++ [(k, w)])
        else Ok weight
      else Ok weight)
    (umap_order (blocks (core s))) [].

Definition weight_greedy (b : Block.t) : res f32 :=
  v ← Block.getValidPageCountRaw b; Ok (f32_of_Z v).
Definition weight_cost_benefit (tick : Z) (b : Block.t) : res f32 :=
  v ← Block.getValidPageCountRaw b;
  let temp := f32_div (f32_of_Z v) (f32_of_Z (pagesInBlock param)) in
  Ok (f32_div temp (f32_mul (f32_sub (f32_of_Z 1) temp)
                            (f32_of_Z (u64 (tick - Block.getLastAccessedTime b))))).
Definition weight_reco (b : Block.t) : res f32 :=
  v ← Block.getValidPageCountRaw b;
  Ok (f32_sub (f32_of_Z v) (f32_mul (recoGCParam conf) (f32_of_Z (Block.getRefreshedPageCount b)))).

Definition calculateVictimWeight (policy : EVICT_POLICY) (tick : Z) (s : t D) : res (list (Z * f32)) :=
  match policy with
  | POLICY_GREEDY | POLICY_RANDOM | POLICY_DCHOICE => weigh_blocks (fun _ => true) weight_greedy s
  | POLICY_COST_BENEFIT => weigh_blocks (fun _ => true) (weight_cost_benefit tick) s
  | POLICY_RECO => weigh_blocks (fun _ => true) weight_reco s
  | POLICY_other => panic "Invalid evict policy"
  end.

Definition not_hot (b : Block.t) : bool := negb (bool_decide (Block.getBlockType b = Block.HOT)).

Definition calculateColdVictimWeight (policy : EVICT_POLICY) (s : t D) : res (list (Z * f32)) :=
  match policy with
  | POLICY_GREEDY => weigh_blocks not_hot weight_greedy s
  | POLICY_RECO => weigh_blocks not_hot weight_reco s
  | _ => panic "Invalid cold victim evict policy"
  end.

(** The number of blocks to reclaim, before [bReclaimMore]: [total] and [nfree]
    are those of the pool collected. *)
Definition reclaimTarget (total nfree : Z) : res Z :=
  match gcMode conf with
  | GC_MODE_0 => Ok (reclaimBlock conf)
  | GC_MODE_1 =>
      f32_to_u64 (f32_sub (f32_mul (f32_of_Z total) (reclaimThreshold conf)) (f32_of_Z nfree))
  | GC_MODE_other => panic "Invalid GC mode"
  end.

(** [if (bReclaimMore) { nBlocks += more; bReclaimMore = false; }] *)
Definition reclaimMore (more nBlocks : Z) : M (t D) Z :=
  r ← gets bReclaimMore;
  modify (with_reclaimMore false);;
  mret (if r : bool then u64 (nBlocks + more) else nBlocks).

Definition u32_max : Z := 2 ^ 32 - 1.

(** [while (selected.size() < randomRange)]: draw an index, take its block
    unless it is excluded or was taken. *)
Fixpoint select_random (fuel : nat) (range : Z) (except : list Z) (weight selected : list (Z * f32))
    : M (t D) (list (Z * f32)) :=
  if vlen selected <? range then
    match fuel with
    | O => fail NoReturn
    | S fuel =>
        d ← gets dev;
        let '(idx, d) := draw 0 (u64 (vlen weight - 1)) d in
        modify (with_dev d);;
        w ← lift (get_at weight idx);
        if (w.1 <? u32_max) && negb (bool_decide (w.1 ∈ except)) then
          select_random fuel range except (vset weight idx (u32_max, w.2)) (selected ++ [w])
        else select_random fuel range except weight selected
    end
  else mret selected.

Definition selectVictimBlock (tick : Z) (exceptList : list Z) : M (t D) (list Z * Z) :=
  nBlocks ← (nfree ← gets (fun s => nFree (plainPool (core s)));
             lift (reclaimTarget (totalPhysicalBlocks param) nfree));
  nBlocks ← reclaimMore (pageCountToMaxPerf param) nBlocks;
  s ← get;
  weight ← lift (calculateVictimWeight (evictPolicy conf) tick s);
  weight ← match evictPolicy conf with
           | POLICY_RANDOM => select_random random_fuel nBlocks exceptList weight []
           | POLICY_DCHOICE =>
               select_random random_fuel (u64 (dChoiceParam conf * nBlocks)) exceptList weight []
           | _ => mret weight
           end;
  let weight := sort_weights weight in
  let nBlocks := Z.min nBlocks (vlen weight) in
  tick ← latency SELECT_VICTIM_BLOCK tick;
  mret (take (Z.to_nat nBlocks) weight.*1, tick).

Definition selectHotVictimBlock (tick : Z) : M (t D) (list Z * Z) :=
  nBlocks ← (s ← get; lift (reclaimTarget (hotBlocksLimit (hotCold s)) (nFree (hotPool (core s)))));
  nBlocks ← reclaimMore 1 nBlocks;
  w ← gets (fun s => hotWindow (hotCold s));
  let nBlocks := Z.min nBlocks (vlen w) in
  setHotWindow (drop (Z.to_nat nBlocks) w);;
  tick ← latency SELECT_VICTIM_BLOCK tick;
  mret (take (Z.to_nat nBlocks) w, tick).

Definition selectColdVictimBlock (tick : Z) : M (t D) (list Z * Z) :=
  nBlocks ← (s ← get; lift (reclaimTarget (coldBlocksLimit (hotCold s)) (nFree (coldPool (core s)))));
  nBlocks ← reclaimMore 1 nBlocks;
  s ← get;
  weight ← lift (calculateColdVictimWeight (evictPolicy conf) s);
  let weight := sort_weights weight in
  let nBlocks := Z.min nBlocks (vlen weight) in
  let list := take (Z.to_nat nBlocks) weight.*1 in
  iterM (fun k => w ← gets (fun s => coolDownWindow (hotCold s)); setCoolWindow (remove_first k w)) list;;
  tick ← latency SELECT_VICTIM_BLOCK tick;
  mret (list, tick).

(** ** Erase *)

(** The reverse search: the free list from its end; insert after the first
    block found with no more erases, else at the front. *)
Fixpoint insert_rev (b : Block.t) (erased : Z) (rl : list Block.t) : list Block.t :=
  match rl with
  | [] => [b]
  | x :: rl' => if Block.getEraseCount x <=? erased then b :: x :: rl'
                else x :: insert_rev b erased rl'
  end.
Definition insert_free (b : Block.t) (l : list Block.t) : res (list Block.t) :=
  match l with
  | [] => Err BadIterator
  | _ => Ok (rev (insert_rev b (Block.getEraseCount b) (rev l)))
  end.

(** [freeBlocks.emplace(iter, ...); nFreeBlocks++] *)
Definition returnFree (view : Core -> Pool) (put : Pool -> Core -> Core) (b : Block.t) : M (t D) unit :=
  p ← gets (fun s => view (core s));
  l ← lift (insert_free b (free p));
  modify (fun s => with_core (put (mkPool l (u32 (nFree p + 1))) (core s)) s).

(** What both erase functions do before the free list: the checks, the erase,
    the PAL request. *)
Definition eraseBlock (req : PalRequest) (tick : Z) : M (t D) Z :=
  let k := blockIndex req in
  found ← hasB k;
  if found : bool then
    valid ← readB k Block.getValidPageCount;
    if valid =? 0 then
      updB k Block.erase;;
      onDev (pal_erase req tick)
    else mpanic "There are valid pages in victim block"
  else mpanic "No such block".

Definition removeB (k : Z) : M (t D) unit :=
  modify (fun s => with_core (core_blocks (delete k (blocks (core s))) (core s)) s).

Definition eraseInternal (req : PalRequest) (tick : Z) : M (t D) Z :=
  let k := blockIndex req in
  tick ← eraseBlock req tick;
  b ← getB k;
  when (Block.getEraseCount b <? badBlockThreshold conf) (returnFree plainPool core_plainPool b);;
  removeB k;;
  latency ERASE_INTERNAL tick.

(** [sepEraseInternal]: where the iterator of the reverse search points, as the
    index of the block it is before ([None] for [end()]). *)
Fixpoint search_rev (erased : Z) (rl : list Block.t) (after : option Z) : option Z :=
  match rl with
  | [] => after
  | x :: rl' => if Block.getEraseCount x <=? erased then after
                else search_rev erased rl' (Some (Block.getBlockIndex x))
  end.
Definition search_free (erased : Z) (l : list Block.t) : res (option Z) :=
  match l with [] => Err BadIterator | _ => Ok (search_rev erased (rev l) None) end.

(** [emplace(iter, b)]; undefined when the element [iter] points to was erased. *)
Fixpoint emplace_before (b : Block.t) (k : Z) (l : list Block.t) : res (list Block.t) :=
  match l with
  | [] => Err UB
  | x :: l' => if Block.getBlockIndex x =? k then Ok (b :: x :: l')
               else r ← emplace_before b k l'; Ok (x :: r)
  end.
Definition emplace (b : Block.t) (pos : option Z) (l : list Block.t) : res (list Block.t) :=
  match pos with None => Ok (l ++ [b]) | Some k => emplace_before b k l end.

(** [std::find] in an open-block vector: the position, when there is one. *)
Fixpoint find_index (x : Z) (l : list Z) : option Z :=
  match l with
  | [] => None
  | y :: l' => if y =? x then Some 0 else n ← find_index x l'; Some (n + 1)
  end.

(** A cold block that is still the open block of [view] is replaced there first. *)
Definition replaceOpen (view : t D -> Cursor) (put : Cursor -> t D -> t D) (k : Z) : M (t D) unit :=
  c ← gets view;
  match find_index k (lastFreeBlock c) with
  | None => mret tt
  | Some index =>
      k' ← getColdFreeBlock index true;
      c ← gets view;
      l ← lift (set_at (lastFreeBlock c) index k');
      modify (put (mkCursor l (lastFreeBlockIOMap c) (lastFreeBlockIndex c)));;
      modify (with_reclaimMore true)
  end.

Definition emplaceFree (view : Core -> Pool) (put : Pool -> Core -> Core) (pos : option Z)
    (b : Block.t) : M (t D) unit :=
  p ← gets (fun s => view (core s));
  l ← lift (emplace b pos (free p));
  modify (fun s => with_core (put (mkPool l (u32 (nFree p + 1))) (core s)) s).

Definition sepEraseInternal (req : PalRequest) (tick : Z) : M (t D) Z :=
  let k := blockIndex req in
  blockType ← (b ← getB k; mret (Block.getBlockType b));
  tick ← eraseBlock req tick;
  erasedCount ← (b ← getB k; mret (Block.getEraseCount b));
  when (erasedCount <? badBlockThreshold conf)
    match blockType with
    | Block.HOT =>
        p ← gets (fun s => hotPool (core s));
        pos ← lift (search_free erasedCount (free p));
        b ← getB k;
        emplaceFree hotPool core_hotPool pos b
    | _ =>
        p ← gets (fun s => coldPool (core s));
        pos ← lift (search_free erasedCount (free p));
        match blockType with
        | Block.COOL => replaceOpen coolCur with_coolCur k
        | _ => replaceOpen coldCur with_coldCur k
        end;;
        b ← getB k;
        emplaceFree coldPool core_coldPool pos b
    end;;
  removeB k;;
  latency ERASE_INTERNAL tick.

(** ** Moving valid pages *)

(** The requests collected by the loops, and the running tick. *)
Record Plan : Type := mkPlan {
  readRequests : list PalRequest;
  writeRequests : list PalRequest;
  eraseRequests : list PalRequest;
  planTick : Z;
}.

(** What differs between the loops that move pages: the allocator, the panic
    for a missing mapping entry, the update of the source block after an
    invalidation, and the counters per page and per superpage. *)
Record Mover : Type := mkMover {
  mvAlloc : Bitset.t -> M (t D) Z;
  mvMissing : string;
  mvSource : Block.t -> Block.t;
  mvUnit : Stat -> Stat;
  mvSuper : Stat -> Stat;
}.

(** The I/O flags of the request for unit [idx]. *)
Definition unitFlag (io : Bitset.t) (idx : Z) : res Bitset.t :=
  if bRandomTweak then io ← Bitset.reset_all io; Bitset.set io idx true else Bitset.set_all io.

(** One iteration of the loop over the units of a superpage. *)
Definition relocateUnit (mv : Mover) (src page dst beginAt : Z) (lpns : list Z) (bit : Bitset.t)
    (idx : Z) (p : Plan) : M (t D) Plan :=
  v ← lift (Bitset.test bit idx);
  if v : bool then
    updB src (fun b => Block.invalidate b page idx);;
    updB src (fun b => Ok (mvSource mv b));;
    l ← lift (get_at lpns idx);
    o ← findT l;
    match o with
    | None => mpanic (mvMissing mv)
    | Some _ =>
        tick ← onDev (dram_read (u32 (8 * ioUnitInPage param)) (planTick p));
        getMapping l idx;;
        newPageIdx ← readB dst (fun b => Block.getNextWritePageIndexAt b idx);
        setMapping l idx (dst, newPageIdx);;
        onB dst (fun b => Block.write b newPageIdx l idx beginAt);;
        io ← lift (unitFlag bit idx);
        eraseCount ← readB dst (fun b => Ok (Block.getEraseCount b));
        setRefreshPeriod eraseCount dst (newPageIdx mod 64);;
        modStat (mvUnit mv);;
        mret (mkPlan (readRequests p)
                (writeRequests p ++ [pal_at (PalRequest_make (ioUnitInPage param)) dst newPageIdx io])
                (eraseRequests p) tick)
    end
  else mret p.

(** One iteration of the loop over the pages of a block. *)
Definition relocatePage (mv : Mover) (src beginAt page : Z) (p : Plan) : M (t D) Plan :=
  '(valid, lpns, bit) ← readB src (fun b =>
     Block.getPageInfo b page (Bitset.make (ioUnitInPage param)));
  if valid : bool then
    bit ← (if negb bRandomTweak then lift (Bitset.set_all bit) else mret bit);
    dst ← mvAlloc mv bit;
    let p := mkPlan (readRequests p ++ [pal_at (PalRequest_make (ioUnitInPage param)) src page (Bitset.copy bit)])
               (writeRequests p) (eraseRequests p) (planTick p) in
    p ← for_units (relocateUnit mv src page dst beginAt lpns bit) p;
    modStat (mvSuper mv);;
    mret p
  else mret p.

(** Issue [reqs] from [start], and the latest completion. *)
Definition issueAll (op : PalRequest -> Z -> M (t D) Z) (start : Z) (reqs : list PalRequest)
    (finishedAt : Z) : M (t D) Z :=
  foldM (fun req fin => b ← op req start; mret (Z.max fin b)) reqs finishedAt.

(** The body of the two collectors. *)
Definition collect (mv : Mover) (invalid : string) (erase : PalRequest -> Z -> M (t D) Z)
    (blocksToReclaim : list Z) (tick : Z) : M (t D) Z :=
  if decide (blocksToReclaim = []) then mret tick
  else
    beginAt ← gets (fun s => indeterminate (dev s));
    full ← lift (Bitset.set_all (Bitset.make (ioUnitInPage param)));
    plan ← foldM (fun k p =>
        found ← hasB k;
        if found : bool then
          p ← for_range 0 (pagesInBlock param) (relocatePage mv k beginAt) p;
          mret (mkPlan (readRequests p) (writeRequests p)
                  (eraseRequests p ++ [pal_at (PalRequest_make (ioUnitInPage param)) k 0 full])
                  (planTick p))
        else mpanic invalid)
      blocksToReclaim (mkPlan [] [] [] tick);
    readFinishedAt ← issueAll (fun r t => onDev (pal_read r t)) (planTick plan) (readRequests plan) tick;
    writeFinishedAt ← issueAll (fun r t => onDev (pal_write r t)) readFinishedAt (writeRequests plan) tick;
    eraseFinishedAt ← issueAll erase readFinishedAt (eraseRequests plan) tick;
    latency DO_GARBAGE_COLLECTION (Z.max writeFinishedAt eraseFinishedAt).

Definition doGarbageCollection (blocksToReclaim : list Z) (tick : Z) (isRefresh : bool) : M (t D) Z :=
  collect (mkMover getLastFreeBlock "Invalid mapping table entry" id
             (stat_copies 0 1 0 0 0 0 0 0 (if isRefresh then 1 else 0))
             (stat_copies 1 0 0 0 0 0 0 0 0))
    "Invalid block" eraseInternal blocksToReclaim tick.

Definition sepDoGarbageCollection (blocksToReclaim : list Z) (tick : Z) (isRefresh : bool)
    (gcType : Block.blockPoolType) : M (t D) Z :=
  let r := if isRefresh then 1 else 0 in
  collect (mkMover getLastCoolFreeBlock "Invalid mapping table entry" id
             (match gcType with
              | Block.HOT => stat_copies 0 0 0 1 0 0 0 0 r
              | _ => stat_copies 0 0 0 0 0 1 0 0 r
              end)
             (match gcType with
              | Block.HOT => stat_copies 0 0 1 0 0 0 0 0 0
              | _ => stat_copies 0 0 0 0 1 0 0 0 0
              end))
    "Invalid block occured in GC" sepEraseInternal blocksToReclaim tick.

(** ** Collection when free blocks run low *)

(** Select victims and collect them, as the write and refresh paths do; the
    caller's own tick is not advanced. *)
Definition runGc (tick : Z) (isRefresh : bool) : M (t D) unit :=
  '(list, beginAt) ← selectVictimBlock tick [];
  doGarbageCollection list beginAt isRefresh;;
  modStat (stat_gc (vlen list)).
Definition runColdGc (tick : Z) (isRefresh : bool) : M (t D) unit :=
  '(list, beginAt) ← selectColdVictimBlock tick;
  sepDoGarbageCollection list beginAt isRefresh Block.COLD;;
  modStat (stat_coldGc (vlen list)).
Definition runHotGc (tick : Z) : M (t D) unit :=
  '(list, beginAt) ← selectHotVictimBlock tick;
  sepDoGarbageCollection list beginAt false Block.HOT;;
  modStat (stat_hotGc (vlen list)).

Definition refreshGc (tick : Z) : M (t D) unit :=
  s ← get;
  if hotColdSeperation conf =? 0 then
    when (f32_lt (freeBlockRatio s) (gcThreshold conf)) (runGc tick true)
  else
    when (f32_lt (coldFreeBlockRatio s) (gcThreshold conf)) (runColdGc tick true).

(** ** Refresh *)

Definition refreshMover (blockType : Block.blockPoolType) : Mover :=
  mkMover (if hotColdSeperation conf =? 0 then getLastFreeBlock
           else if decide (blockType = Block.COLD) then getLastColdFreeBlock else getLastCoolFreeBlock)
    "Invalid mapping table entry, refresh failed"
    (fun b => Block.setRefreshedPageCount (u32 (Block.getRefreshedPageCount b + 1)) b)
    (stat_copies 0 0 0 0 0 0 0 1 0)
    (stat_copies 0 0 0 0 0 0 1 0 0).

(** The pages [layerIndex], [layerIndex + 64], ... of a block. *)
Definition layerPages (layerIndex : Z) : list Z :=
  (fun j => layerIndex + 64 * j) <$>
    filter (fun j => layerIndex + 64 * j < pagesInBlock param) (seqZ 0 (pagesInBlock param)).

(** One layer taken from the queue. *)
Definition refreshLayer (queueNum layerID beginAt : Z) (p : Plan) : M (t D) Plan :=
  let blockIndex := layerID / 64 in
  let layerIndex := layerID mod 64 in
  q ← getR (fun r => get_raw (layerQueueNum r) layerID);
  if negb (queueNum =? q) then
    modStat (fun x => stat_refreshCalls (refreshCallCount x) 1 x);; mret p
  else
    m ← layerTest layerID;
    if m : bool then
      layerSet layerID false;;
      found ← hasB blockIndex;
      if found : bool then
        blockType ← readB blockIndex (fun b => Ok (Block.getBlockType b));
        foldM (relocatePage (refreshMover blockType) blockIndex beginAt) (layerPages layerIndex) p
      else mret p
    else mpanic "Corrupted layer check bitmap, refresh failed".

Fixpoint refreshLayers (n : nat) (queueNum beginAt : Z) (p : Plan) : M (t D) Plan :=
  match n with
  | O => mret p
  | S n =>
      q ← getR (fun r => get_raw (checkedQueues r) queueNum);
      match q with
      | [] => mret p
      | layerID :: rest =>
          qs ← getR (fun r => set_raw (checkedQueues r) queueNum rest);
          setChecked qs;;
          p ← refreshLayer queueNum layerID beginAt p;
          refreshLayers n queueNum beginAt p
      end
  end.

Definition refreshPage (queueNum tick : Z) : M (t D) Z :=
  refreshGc tick;;
  plan ← refreshLayers (Z.to_nat (u32 (refreshMaxLayerNum conf))) queueNum tick (mkPlan [] [] [] tick);
  readFinishedAt ← issueAll (fun r t => onDev (pal_read r t)) (planTick plan) (readRequests plan) tick;
  writeFinishedAt ← issueAll (fun r t => onDev (pal_write r t)) readFinishedAt (writeRequests plan) tick;
  tick ← latency DO_GARBAGE_COLLECTION (Z.max writeFinishedAt readFinishedAt);
  refreshGc tick;;
  mret tick.

Definition refresh_event (tick : Z) : M (t D) unit :=
  refreshcallCount ← gets (fun s => refreshCallCount (stat s) / background_ratio);
  n ← gets (fun s => vlen (refreshQueues (refresh s)));
  target_queue ← lift (umod (u64 (refreshcallCount + 1)) n);
  tempQueue ← getR (fun r => get_raw (checkedQueues r) target_queue);
  q ← getR (fun r => get_raw (refreshQueues r) target_queue);
  qs ← getR (fun r => set_raw (checkedQueues r) target_queue q);
  setChecked qs;;
  qs ← getR (fun r => set_raw (refreshQueues r) target_queue tempQueue);
  setQueues qs;;
  refreshPage target_queue tick;;
  modStat (fun x => stat_refreshCalls (u64 (refreshCallCount x + 1)) 0 x).

(** The callback registered by [initialize]. *)
Definition refreshEventHandler (tick : Z) : M (t D) unit :=
  refresh_event tick;;
  modify (fun s => with_dev (scheduleRefresh (u64 (tick + 7200000000000000)) (dev s)) s).
End Gc.
