(* ===== verification/PmWrite.v ===== *)
(** * ftl/page_mapping.cc: read, write and trim of a logical page

    [readInternal], [writeInternal], [trimInternal] and the two write functions
    of the hot/cold mode.  The three writes share their first half (invalidate
    the old copies, create the mapping, [invalidateOld]) and the loop that
    programs the units ([programUnits]). *)

From S2P Require Import Prelude Bitset Block Float32 Types PmState PmRefresh PmAlloc PmGc.

Section Write.
  Context {D : Type} `{Device D} `{StdOrder} `{Setup}.

(** [mapping.first < totalPhysicalBlocks && mapping.second < pagesInBlock] *)
Definition is_mapped (m : Z * Z) : bool :=
  (m.1 <? totalPhysicalBlocks param) && (m.2 <? pagesInBlock param).

(** [req.ioFlag.test(idx) || !bRandomTweak] *)
Definition unit_selected (io : Bitset.t) (idx : Z) : res bool :=
  b ← Bitset.test io idx; Ok (b || negb bRandomTweak).

(** The size of the mapping access: [8 * req.ioFlag.count()] or 8. *)
Definition mappingBytes (io : Bitset.t) : res Z :=
  if bRandomTweak then n ← Bitset.count io; Ok (u32 (8 * n)) else Ok 8.

Definition readInternal (req : Request) (tick : Z) : M (t D) Z :=
  let palRequest := PalRequest_of_ftl req in
  o ← findT (lpn req);
  match o with
  | None => mret tick
  | Some _ =>
      bytes ← lift (mappingBytes (ioFlag req));
      tick' ← onDev (dram_read bytes tick);
      finishedAt ← for_units (fun idx finishedAt =>
          sel ← lift (unit_selected (ioFlag req) idx);
          if sel : bool then
            mapping ← getMapping (lpn req) idx;
            if is_mapped mapping then
              io ← lift (unitFlag (pal_ioFlag palRequest) idx);
              found ← hasB mapping.1;
              if found : bool then
                onB mapping.1 (fun b => Block.read b mapping.2 idx tick');;
                beginAt ← onDev (pal_read (pal_at palRequest mapping.1 mapping.2 io) tick');
                mret (Z.max finishedAt beginAt)
              else mpanic "Block is not in use"
            else mret finishedAt
          else mret finishedAt) tick;
      latency READ_INTERNAL finishedAt
  end.

(** The first half of a write: invalidate the old copies of the units that are
    written, or create an empty mapping.  The result is the block of the last
    old copy, which the hot/cold variants go on to look at. *)
Definition invalidateOld (req : Request) : M (t D) (bool * option Z) :=
  o ← findT (lpn req);
  match o with
  | Some _ =>
      last ← for_units (fun idx last =>
          sel ← lift (unit_selected (ioFlag req) idx);
          if sel : bool then
            mapping ← getMapping (lpn req) idx;
            if is_mapped mapping then
              updB mapping.1 (fun b => Block.invalidate b mapping.2 idx);;
              mret (Some mapping.1)
            else mret last
          else mret last) None;
      mret (true, last)
  | None =>
      putT (lpn req) (replicate (Z.to_nat bitsetSize)
                        (u32 (totalPhysicalBlocks param), u32 (pagesInBlock param)));;
      mret (false, None)
  end.

(** The mapping table is read and written in DRAM. *)
Definition accessMapping (req : Request) (sendToPAL : bool) (tick : Z) : M (t D) Z :=
  if sendToPAL then
    bytes ← lift (mappingBytes (ioFlag req));
    tick ← onDev (dram_read bytes tick);
    onDev (dram_write bytes tick)
  else mret tick.

(** The loop over the units: append to block [dst], read the old data if a page
    is partly written, map, send to the PAL ([toPAL]), and predict errors
    ([predict]). *)
Definition programUnits (req : Request) (dst tick : Z) (readPAL writePAL predict : bool) (fin : Z)
    : M (t D) Z :=
  let palRequest := PalRequest_of_ftl req in
  readBeforeWrite ← (if negb bRandomTweak then a ← lift (Bitset.all (ioFlag req)); mret (negb a)
                     else mret false);
  for_units (fun idx finishedAt =>
    sel ← lift (unit_selected (ioFlag req) idx);
    if sel : bool then
      pageIndex ← readB dst (fun b => Block.getNextWritePageIndexAt b idx);
      mapping ← getMapping (lpn req) idx;
      onB dst (fun b => Block.write b pageIndex (lpn req) idx tick);;
      beginAt ← (if readBeforeWrite && readPAL then
                   io ← lift (Bitset.flip_all (Bitset.copy (ioFlag req)));
                   onDev (pal_read (pal_at palRequest mapping.1 mapping.2 io) tick)
                 else mret tick);
      setMapping (lpn req) idx (dst, pageIndex);;
      beginAt ← (if writePAL then
                   io ← lift (unitFlag (ioFlag req) idx);
                   onDev (pal_write (pal_at palRequest dst pageIndex io) beginAt)
                 else mret beginAt);
      when predict
        (eraseCount ← readB dst (fun b => Ok (Block.getEraseCount b));
         setRefreshPeriod eraseCount dst (pageIndex mod 64));;
      mret (Z.max finishedAt beginAt)
    else mret finishedAt) fin.

Definition finishWrite (sendToPAL : bool) (finishedAt tick : Z) : M (t D) Z :=
  if sendToPAL then latency WRITE_INTERNAL finishedAt else mret tick.

(** The part of [writeInternal] that stores the data: everything before the
    garbage collection test. *)
Definition storeData (req : Request) (tick : Z) (sendToPAL : bool) : M (t D) Z :=
  invalidateOld req;;
  dst ← getLastFreeBlock (ioFlag req);
  found ← hasB dst;
  if found : bool then
    tick' ← accessMapping req sendToPAL tick;
    finishedAt ← programUnits req dst tick' sendToPAL sendToPAL true tick;
    finishWrite sendToPAL finishedAt tick'
  else mpanic "No such block".

Definition writeInternal (req : Request) (tick : Z) (sendToPAL : bool) : M (t D) Z :=
  tick ← storeData req tick sendToPAL;
  s ← get;
  when (f32_lt (freeBlockRatio s) (gcThreshold conf))
    (if sendToPAL then runGc tick false
     else mpanic "ftl: GC triggered while in initialization");;
  mret tick.

Definition trimInternal (req : Request) (tick : Z) : M (t D) Z :=
  o ← findT (lpn req);
  match o with
  | None => mret tick
  | Some _ =>
      bytes ← lift (mappingBytes (ioFlag req));
      tick ← onDev (dram_read bytes tick);
      for_units (fun idx (_ : unit) =>
          mapping ← getMapping (lpn req) idx;
          found ← hasB mapping.1;
          if found : bool then updB mapping.1 (fun b => Block.invalidate b mapping.2 idx)
          else mpanic "Block is not in use") tt;;
      eraseT (lpn req);;
      latency TRIM_INTERNAL tick
  end.

(** ** Hot/cold separation *)

(** [block->second.getBlockType()] after the invalidation loop: [block] is an
    unset iterator when no unit was mapped. *)
Definition oldBlockType (dflt : Block.blockPoolType) (old : bool * option Z)
    : M (t D) Block.blockPoolType :=
  match old with
  | (true, Some k) => readB k (fun b => Ok (Block.getBlockType b))
  | (true, None) => fail UB
  | (false, _) => mret dflt
  end.

Definition sepWriteInternal (req : Request) (tick : Z) (sendToPAL : bool) : M (t D) Z :=
  old ← invalidateOld req;
  curBlockType ← oldBlockType Block.COLD old;
  dst ← match curBlockType with
        | Block.HOT | Block.COOL => getLastHotFreeBlock (ioFlag req)
        | Block.COLD => getLastCoolFreeBlock (ioFlag req)
        end;
  found ← hasB dst;
  if found : bool then
    tick' ← accessMapping req sendToPAL tick;
    finishedAt ← programUnits req dst tick' sendToPAL sendToPAL true tick;
    tick ← finishWrite sendToPAL finishedAt tick';
    s ← get;
    when (f32_lt (coldFreeBlockRatio s) (gcThreshold conf))
      (if sendToPAL then runColdGc tick false
       else mpanic "ftl: GC triggered while in initialization by cold");;
    s ← get;
    when (f32_lt (hotFreeBlockRatio s) (gcThreshold conf))
      (if sendToPAL then runHotGc tick
       else mpanic "ftl: GC triggered while in initialization by hot");;
    mret tick
  else mpanic "No such block".

Definition sepHotWriteInternal (req : Request) (tick : Z) (sendToPAL : bool) : M (t D) Z :=
  old ← invalidateOld req;
  curBlockType ← oldBlockType Block.HOT old;
  match curBlockType with
  | Block.HOT =>
      dst ← getLastHotFreeBlock (ioFlag req);
      found ← hasB dst;
      if found : bool then
        programUnits req dst tick sendToPAL false false tick;;
        s ← get;
        if f32_lt (coldFreeBlockRatio s) (gcThreshold conf) then
          mpanic "ftl: Cold GC triggered while in hot block filling"
        else if f32_lt (hotFreeBlockRatio s) (gcThreshold conf) then
          mpanic "ftl: Hot GC triggered while in hot block filling"
        else mret tick
      else mpanic "No such block"
  | _ => mpanic "It cannot be cool or cold block"
  end.
End Write.
