(* ===== verification/PageMapping.v ===== *)
(** * ftl/page_mapping.cc, ftl/ftl.cc: the FTL's public operations

    The constructor, [initialize] (filling included), [read], [write], [trim],
    [format], [getStatus], the statistics, and the wrapper class [FTL]. *)

From S2P Require Import Prelude Algorithm Bitset Block Float32 Types PmState PmRefresh PmAlloc.
From S2P Require Import PmGc PmWrite.

Section PageMapping.
  Context {D : Type} `{Device D} `{StdOrder} `{Setup}.

(** ** Construction *)

Definition emptyPool : Pool := mkPool [] 0.
Definition emptyCursor : Cursor :=
  mkCursor (replicate (Z.to_nat (pageCountToMaxPerf param)) 0) (Bitset.make (ioUnitInPage param)) 0.
Definition emptyRefresh : Refresh := mkRefresh [] (Bitset.make 0) (Bitset.make 0) [] [].

(** Blocks [lo], ..., [hi - 1] of type [ty], as the loops of the constructor make them. *)
Definition makeBlocks (lo hi : Z) (ty : Block.blockPoolType) : res (list Block.t) :=
  mapM (fun i => Block.make_typed i (u32 (pagesInBlock param)) (ioUnitInPage param)
                   (u32 (initEraseCount conf)) ty) (seqZ lo (hi - lo)).

(** The members before the open blocks are allocated: (pools, hot/cold limits). *)
Definition initialPools : res (Pool * Pool * Pool * HotCold) :=
  let n := u32 (totalPhysicalBlocks param) in
  if hotColdSeperation conf =? 0 then
    l ← makeBlocks 0 (totalPhysicalBlocks param) Block.COLD;
    Ok (mkPool l n, emptyPool, emptyPool, mkHotCold 0 0 0 (f32_of_Z 0) [] [])
  else
    hot ← f32_to_u32 (f32_mul (f32_of_Z n) (hotBlocksRatio conf));
    let cold := u32 (n - hot) in
    h ← makeBlocks 0 hot Block.HOT;
    c ← makeBlocks hot (u32 (hot + cold)) Block.COLD;
    Ok (mkPool [] n, mkPool h hot, mkPool c cold,
        mkHotCold (u32 (coolDownWindowSize conf)) hot cold
          (f32_sub (f32_of_Z 1) (hotBlocksRatio conf)) [] []).

(** [lastFreeBlock.at(i) = getFreeBlock(i)] for the families in use. *)
Definition openBlocks (view : t D -> Cursor) (put : Cursor -> t D -> t D)
    (alloc : Z -> M (t D) Z) (i : Z) : M (t D) unit :=
  k ← alloc i;
  c ← gets view;
  l ← lift (set_at (lastFreeBlock c) i k);
  modify (put (mkCursor l (lastFreeBlockIOMap c) (lastFreeBlockIndex c))).

Definition construct (d : D) : res (t D) :=
  '(p, h, c, hc) ← initialPools;
  let s := mk (mkCore ∅ ∅ p h c) emptyCursor emptyCursor emptyCursor emptyCursor
             false emptyRefresh hc stat_zero
             (mkStatus (u64 (totalLogicalBlocks param * pagesInBlock param)) 0 0) d in
  '(_, s) ← for_do 0 (pageCountToMaxPerf param) (fun i =>
      if hotColdSeperation conf =? 0 then openBlocks plainCur with_plainCur getFreeBlock i
      else
        openBlocks hotCur with_hotCur getHotFreeBlock i;;
        openBlocks coolCur with_coolCur (fun i => getColdFreeBlock i true) i;;
        openBlocks coldCur with_coldCur (fun i => getColdFreeBlock i false) i) s;
  Ok s.

(** ** Initialisation *)

(** The queues, and the layer maps for 8 pages per layer. *)
Definition initRefresh : res Refresh :=
  let num := u32 (refreshFilterNum conf) in
  let layers := Algorithm.DIVCEIL64 (u64 (totalPhysicalBlocks param * pagesInBlock param)) 8 in
  let queues := replicate (Z.to_nat num) [] in
  check ← Bitset.reset_all (Bitset.make (u32 layers));
  Ok (mkRefresh (replicate (Z.to_nat layers) 0) check check queues queues).

(** The page counts of the filling, in single precision as the code computes them. *)
Definition pagesToFill (ratio : f32) : res Z :=
  f32_to_u64 (f32_mul (f32_of_Z (u64 (totalLogicalBlocks param * pagesInBlock param))) ratio).
Definition maxPagesBeforeGC : res Z :=
  f32_to_u64 (f32_mul (f32_of_Z (pagesInBlock param))
    (f32_sub (f32_mul (f32_of_Z (totalPhysicalBlocks param))
                      (f32_sub (f32_of_Z 1) (gcThreshold conf)))
             (f32_of_Z (pageCountToMaxPerf param)))).

(** [req.lpn = ...; write(req, tick, false)] with [tick = 0]. *)
Definition fillPage (wr : Request -> Z -> bool -> M (t D) Z) (io : Bitset.t) (l : Z) : M (t D) unit :=
  wr (mkRequest 0 0 l io) 0 false;; mret tt.
Definition fillSeq (wr : Request -> Z -> bool -> M (t D) Z) (io : Bitset.t) (lo hi : Z) : M (t D) unit :=
  for_do lo hi (fillPage wr io).
Definition fillRandom (io : Bitset.t) (n hi : Z) : M (t D) unit :=
  for_do 0 n (fun _ =>
    d ← gets dev;
    let '(l, d) := draw 0 hi d in
    modify (with_dev d);;
    fillPage writeInternal io l).

Definition calculateTotalPages (s : t D) : res (Z * Z) :=
  foldM (fun '(_, b) '(valid, invalid) =>
      v ← Block.getValidPageCount b; i ← Block.getDirtyPageCount b;
      Ok (u64 (valid + v), u64 (invalid + i)))
    (umap_order (blocks (core s))) (0, 0).

Definition fillStep (io : Bitset.t) (nPagesToWarmup nTotal : Z) : M (t D) unit :=
  match fillingMode conf with
  | FILLING_MODE_2 => fillRandom io nPagesToWarmup (u64 (nTotal - 1))
  | _ =>
      if hotColdSeperation conf =? 0 then fillSeq writeInternal io 0 nPagesToWarmup
      else
        h ← gets hotCold;
        coldWarmup ← lift (f32_to_u64 (f32_mul (f32_of_Z nPagesToWarmup) (coldRatio h)));
        fillSeq sepWriteInternal io 0 coldWarmup;;
        fillSeq sepHotWriteInternal io coldWarmup nPagesToWarmup
  end.

Definition invalidateStep (io : Bitset.t) (nPagesToWarmup nPagesToInvalidate nTotal : Z) : M (t D) unit :=
  match fillingMode conf with
  | FILLING_MODE_0 => fillSeq writeInternal io 0 nPagesToInvalidate
  | FILLING_MODE_1 => fillRandom io nPagesToInvalidate (u64 (nPagesToWarmup - 1))
  | FILLING_MODE_2 => fillRandom io nPagesToInvalidate (u64 (nTotal - 1))
  end.

Definition initialize : M (t D) unit :=
  let nTotal := u64 (totalLogicalBlocks param * pagesInBlock param) in
  nPagesToWarmup ← lift (pagesToFill (fillingRatio conf));
  nPagesToInvalidate ← lift (pagesToFill (invalidRatio conf));
  maxPages ← lift maxPagesBeforeGC;
  let nPagesToInvalidate :=
    if maxPages <? u64 (nPagesToWarmup + nPagesToInvalidate) then u64 (maxPages - nPagesToWarmup)
    else nPagesToInvalidate in
  io ← lift (Bitset.set_all (Bitset.make (ioUnitInPage param)));
  r ← lift initRefresh;
  modify (with_refresh r);;
  modify (fun s => with_dev (scheduleRefresh 7200000000000000 (dev s)) s);;
  modStat (stat_refreshCalls 0 0);;
  fillStep io nPagesToWarmup nTotal;;
  invalidateStep io nPagesToWarmup nPagesToInvalidate nTotal;;
  s ← get;
  lift (calculateTotalPages s);;
  mret tt.

(** ** Host operations *)

Definition read (req : Request) (tick : Z) : M (t D) Z :=
  n ← lift (Bitset.count (ioFlag req));
  tick ← (if 0 <? n then readInternal req tick else mret tick);
  latency READ tick.

Definition write (req : Request) (tick : Z) : M (t D) Z :=
  n ← lift (Bitset.count (ioFlag req));
  tick ← (if 0 <? n then
            if hotColdSeperation conf =? 0 then writeInternal req tick true
            else sepWriteInternal req tick true
          else mret tick);
  latency WRITE tick.

Definition trim (req : Request) (tick : Z) : M (t D) Z :=
  tick ← trimInternal req tick;
  latency TRIM tick.

(** [std::sort] and [std::unique] of the collected block indices. *)
Fixpoint insert_uniq (x : Z) (l : list Z) : list Z :=
  match l with
  | [] => [x]
  | y :: l' => if x <? y then x :: l else if x =? y then l else y :: insert_uniq x l'
  end.
Definition sort_unique (l : list Z) : list Z := foldr insert_uniq [] l.

(** The entries of the table in the range, in the table's iteration order. *)
Definition in_format_range (range : LPNRange) (l : Z) : bool :=
  (slpn range <=? l) && (l <? u64 (slpn range + nlp range)).

Definition formatEntry (l : Z) (acc : list Z) : M (t D) (list Z) :=
  acc ← for_units (fun idx acc =>
    mapping ← getMapping l idx;
    found ← hasB mapping.1;
    if found : bool then
      updB mapping.1 (fun b => Block.invalidate b mapping.2 idx);;
      mret (acc ++ [mapping.1])
    else mpanic "Block is not in use") acc;
  eraseT l;;
  mret acc.

Definition format (range : LPNRange) (tick : Z) : M (t D) Z :=
  tbl ← gets (fun s => umap_order (table (core s)));
  list ← foldM formatEntry (filter (fun l => in_format_range range l = true) tbl.*1) [];
  let list := sort_unique list in
  tick ← (if hotColdSeperation conf =? 0 then doGarbageCollection list tick false
          else sepDoGarbageCollection list tick false Block.COLD);
  latency FORMAT tick.

Definition getStatus (lpnBegin lpnEnd : Z) : M (t D) Status :=
  s ← get;
  let total := totalLogicalPages (status s) in
  let mapped :=
    if (lpnBegin =? 0) && (total <=? lpnEnd) then u64 (Z.of_nat (size (table (core s))))
    else u64 (vlen (filter (fun l => is_Some (table (core s) !! l))
                      (seqZ lpnBegin (lpnEnd - lpnBegin)))) in
  let st := mkStatus total mapped (nFree (plainPool (core s))) in
  modify (with_status st);;
  mret st.

(** ** Statistics *)

(** [(float)total * total / (numOfBlocks * sumOfSquares)]; -1 when nothing was erased. *)
Definition calculateWearLeveling (s : t D) : f32 :=
  let add := fun (e : Z) (acc : Z * Z) => (u64 (acc.1 + e), u64 (acc.2 + u64 (e * e))) in
  let acc := fold_left (fun acc '(_, b) => add (Block.getEraseCount b) acc)
               (umap_order (blocks (core s))) (0, 0) in
  let fix backward l acc := match l with
    | [] => acc
    | b :: l' => if Block.getEraseCount b =? 0 then acc else backward l' (add (Block.getEraseCount b) acc)
    end in
  let acc := backward (rev (free (plainPool (core s)))) acc in
  if acc.2 =? 0 then f32_of_Z (-1)
  else f32_div (f32_mul (f32_of_Z acc.1) (f32_of_Z acc.1))
         (f32_of_Z (u64 (totalLogicalBlocks param * acc.2))).

Definition calculateAverageError (s : t D) : f32 :=
  let '(total, n) := fold_left (fun acc '(_, b) =>
      (u64 (acc.1 + Block.getMaxErrorCount b), f32_add acc.2 (f32_of_Z 1)))
    (umap_order (blocks (core s))) (0, f32_of_Z 0) in
  f32_div (f32_of_Z total) n.

(** The values in the order they are pushed: counters, wear levelling, pool sizes. *)
Definition getStatValues (s : t D) : list Z * f32 * list Z :=
  let x := stat s in
  ([gcCount x; reclaimedBlocks x; validSuperPageCopies x; validPageCopies x; refreshGcPageCopies x;
    refreshCount x; refreshedBlocks x; refreshSuperPageCopies x; refreshPageCopies x;
    refreshCallCount x; hotGcCount x; reclaimedHotBlocks x; hotValidSuperPageCopies x;
    hotValidPageCopies x; coldGcCount x; reclaimedColdBlocks x; coldValidSuperPageCopies x;
    coldValidPageCopies x; doubleInsertionCount x],
   calculateWearLeveling s,
   [nFree (plainPool (core s)); nFree (coldPool (core s)); nFree (hotPool (core s))]).

Definition resetStatValues : M (t D) unit := modStat (fun _ => stat_zero).

(** The names of the statistics, in the order of [getStatList]. *)
Definition getStatList (prefix : string) : list string :=
  (fun x => prefix ++ x)%string <$>
  ["page_mapping.gc.count"; "page_mapping.gc.reclaimed_blocks";
   "page_mapping.gc.superpage_copies"; "page_mapping.gc.page_copies";
   "page_mapping.refreshGc.page_copies"; "page_mapping.refresh.count";
   "page_mapping.refresh.refreshed_blocks"; "page_mapping.refresh.superpage_copies";
   "page_mapping.refresh.page_copies"; "page_mapping.refresh.call_count";
   "page_mapping.hot_gc.count"; "page_mapping.hot_gc.reclaimed_blocks";
   "page_mapping.hot_gc.superpage_copies"; "page_mapping.hot_gc.page_copies";
   "page_mapping.cold_gc.count"; "page_mapping.cold_gc.reclaimed_blocks";
   "page_mapping.cold_gc.superpage_copies"; "page_mapping.cold_gc.page_copies";
   "page_mapping.refresh.double_insertion"; "page_mapping.wear_leveling";
   "page_mapping.freeBlock_counts"; "page_mapping.freeColdBlock_counts";
   "page_mapping.freeHotBlock_counts"]%string.

(** ** class FTL *)

(** [f(...); tick += applyLatency(CPU::FTL, ...)] *)
Definition ftlCall (f : FUNCTION) (op : M (t D) Z) : M (t D) Z :=
  tick ← op; l ← onDev (applyLatency NS_FTL f); mret (u64 (tick + l)).
Definition ftl_read (req : Request) (tick : Z) : M (t D) Z := ftlCall READ (read req tick).
Definition ftl_write (req : Request) (tick : Z) : M (t D) Z := ftlCall WRITE (write req tick).
Definition ftl_trim (req : Request) (tick : Z) : M (t D) Z := ftlCall TRIM (trim req tick).
Definition ftl_format (range : LPNRange) (tick : Z) : M (t D) Z := ftlCall FORMAT (format range tick).
Definition ftl_getUsedPageCount (lpnBegin lpnEnd : Z) : M (t D) Z :=
  st ← getStatus lpnBegin lpnEnd; mret (mappedLogicalPages st).

(** The constructor of [FTL], after the parameters: build, check, initialise. *)
Definition ftl_construct (d : D) : res (t D) :=
  s ← construct d;
  if totalPhysicalBlocks param <=? u64 (totalLogicalBlocks param + pageCountToMaxPerf param)
  then panic "FTL Over-Provision Ratio is too small"
  else '(_, s) ← initialize s; Ok s.
End PageMapping.

(** The geometry [FTL] derives from the PAL's parameters. *)
Definition ftlParameter (overProvision : f32) (superBlock block page superPageSize pageInSuperPage : Z)
    : res FtlParameter :=
  n ← f32_to_u64 (f32_mul (f32_of_Z superBlock) (f32_sub (f32_of_Z 1) overProvision));
  w ← (if block =? 0 then Err UB else Ok (superBlock / block));
  Ok (mkParameter superBlock n page superPageSize pageInSuperPage (u32 w)).
