(* ===== verification/PmInv.v ===== *)
(** * The invariant of the page mapping

    [wfc X c]: the mapping table and the blocks agree, except for the logical
    units in [X] whose old copy has been invalidated and whose new copy is not
    written yet.  One lemma per elementary step on the table and the blocks. *)

From S2P Require Import Prelude Bitset Block Float32 Types PmState PmRefresh.

(** The limits the geometry and the configuration must respect.  The refresh
    modes address 64 layers per block, but the layer maps have a position per 8
    pages: the modes need blocks of at least 512 pages. *)
Class Geometry `{Setup} : Prop := {
  geo_N : 0 < totalPhysicalBlocks param < 2 ^ 26;
  geo_P : 0 < pagesInBlock param < 2 ^ 32 - 8;
  geo_U : 0 < ioUnitInPage param < 2 ^ 32 - 8;
  geo_W : 0 < pageCountToMaxPerf param < 2 ^ 32;
  geo_raw : pagesInBlock param * ioUnitInPage param < 2 ^ 32;
  geo_layers : totalPhysicalBlocks param * pagesInBlock param < 2 ^ 32 - 8;
  geo_queues : 0 < refreshFilterNum conf < 2 ^ 31;
  geo_group : 0 < refreshGroupingSize conf < 2 ^ 31;
  geo_reclaim : 0 <= reclaimBlock conf < 2 ^ 64;
  geo_mode : 512 <= pagesInBlock param \/ 3 < refreshMode conf;
}.

Section Inv.
  Context `{Setup}.

Notation N := (totalPhysicalBlocks param).
Notation P := (pagesInBlock param).
Notation U := (ioUnitInPage param).

(** What a mapping that is not in transit says. *)
Definition holds (c : Core) (l i : Z) (m : Z * Z) : Prop :=
  exists b, blocks c !! m.1 = Some b /\ 0 <= m.2 < P /\
            Block.validAt b m.2 i = true /\ Block.lpnAt b m.2 i = l.
Definition unmapped : Z * Z := (N, P).

(** Every free block, of the three pools. *)
Definition frees (c : Core) : list Block.t :=
  free (plainPool c) ++ free (hotPool c) ++ free (coldPool c).

(** The counters of the pools; hot/cold mode leaves [nFreeBlocks] at the total. *)
Record counts_ok (c : Core) : Prop := {
  co_plain : hotColdSeperation conf = 0 -> nFree (plainPool c) = vlen (free (plainPool c));
  co_hot : nFree (hotPool c) = vlen (free (hotPool c));
  co_cold : nFree (coldPool c) = vlen (free (coldPool c));
}.

Record wfc (X : gset (Z * Z)) (c : Core) : Prop := {
  wc_blocks : forall k b, blocks c !! k = Some b -> 0 <= k < N /\ Block.idx b = k /\ Block.inv P U b;
  wc_free : forall b, b ∈ frees c -> 0 <= Block.idx b < N /\ Block.blank P U b /\
                                    blocks c !! Block.idx b = None;
  wc_nodup : NoDup (Block.idx <$> frees c);
  wc_counts : counts_ok c;
  wc_row : forall l row, table c !! l = Some row -> vlen row = bitsetSize;
  wc_entry : forall l row i m, table c !! l = Some row -> vget row i = Some m -> (l, i) ∉ X ->
             m = unmapped \/ holds c l i m;
  wc_valid : forall k b p i, blocks c !! k = Some b -> Block.validAt b p i = true ->
             0 <= i < bitsetSize /\ (Block.lpnAt b p i, i) ∉ X /\
             exists row, table c !! Block.lpnAt b p i = Some row /\ vget row i = Some (k, p);
}.

(** The logical units that have a physical page. *)
Definition live (c : Core) (l i : Z) : Prop :=
  exists row m, table c !! l = Some row /\ vget row i = Some m /\ m.1 < N /\ m.2 < P.

(** Open blocks: positions only; an entry may name a block that is not in use. *)
Record wfcur (c : Cursor) : Prop := {
  wu_len : vlen (lastFreeBlock c) = pageCountToMaxPerf param;
  wu_index : 0 <= lastFreeBlockIndex c < pageCountToMaxPerf param;
  wu_map : Bitset.wf U (lastFreeBlockIOMap c);
}.

(** The number of layers the layer maps have. *)
Definition layers : Z := (N * P - 1) / 8 + 1.

Record wfr (r : Refresh) : Prop := {
  wr_nums : vlen (layerQueueNum r) = layers;
  wr_num : forall l q, vget (layerQueueNum r) l = Some q -> 0 <= q < refreshFilterNum conf;
  wr_check : Bitset.wf layers (insertedLayerCheck r);
  wr_queues : vlen (refreshQueues r) = refreshFilterNum conf;
  wr_checked : vlen (checkedQueues r) = refreshFilterNum conf;
  wr_layers : forall q layer, (q ∈ refreshQueues r \/ q ∈ checkedQueues r) -> layer ∈ q ->
              0 <= layer < layers;
}.

(** ** Elementary facts *)

Section Facts.
  Context (X : gset (Z * Z)) (c : Core) (HW : wfc X c).

Lemma valid_page k b p i : blocks c !! k = Some b -> Block.validAt b p i = true ->
  0 <= p < P /\ 0 <= i < U.
Proof.
  intros Hb Hv. destruct (wc_blocks _ _ HW k b Hb) as (_ & _ & Hinv).
  pose proof (Block.inv_wf _ _ _ Hinv) as Hwf.
  destruct (decide (0 <= p < P /\ 0 <= i < U)) as [|Hout]; [done|].
  unfold Block.validAt in Hv. rewrite (Block.wf_io _ _ _ Hwf) in Hv.
  rewrite (Block.flag_out P U) in Hv; [done | apply Hwf | apply Hwf | done].
Qed.

Lemma row_get l row i : table c !! l = Some row -> 0 <= i < bitsetSize ->
  exists m, vget row i = Some m.
Proof. intros Hl Hi. apply vget_in_range. by rewrite (wc_row _ _ HW l row Hl). Qed.

(** A unit has one valid page. *)
Lemma valid_unique k b p i k' b' p' :
  blocks c !! k = Some b -> Block.validAt b p i = true ->
  blocks c !! k' = Some b' -> Block.validAt b' p' i = true ->
  Block.lpnAt b p i = Block.lpnAt b' p' i -> k = k' /\ p = p'.
Proof.
  intros Hb Hv Hb' Hv' Hl.
  destruct (wc_valid _ _ HW k b p i Hb Hv) as (_ & _ & row & Hrow & Hm).
  destruct (wc_valid _ _ HW k' b' p' i Hb' Hv') as (_ & _ & row' & Hrow' & Hm').
  rewrite <- Hl, Hrow in Hrow'. naive_solver.
Qed.

Lemma holds_mapped l i m : holds c l i m -> m.1 < N /\ m.2 < P.
Proof. intros (b & Hb & Hp & _). destruct (wc_blocks _ _ HW _ _ Hb) as (? & _). lia. Qed.

Lemma live_holds l i : live c l i -> (l, i) ∉ X -> exists row m,
  table c !! l = Some row /\ vget row i = Some m /\ holds c l i m.
Proof.
  intros (row & m & Hrow & Hm & H1 & H2) HX.
  destruct (wc_entry _ _ HW l row i m Hrow Hm HX) as [->|Hh]; [simpl in *; lia | eauto].
Qed.
End Facts.

(** ** Steps *)

Section Steps.
  Context (X : gset (Z * Z)) (c : Core) (HW : wfc X c).

(** A block in use is replaced by one with the same index and at most its
    valid pages; what loses its page must be in transit. *)
Lemma step_block Y k b b' :
  blocks c !! k = Some b -> Block.idx b' = k -> Block.inv P U b' ->
  X ⊆ Y ->
  (forall p i, Block.validAt b' p i = true ->
     Block.validAt b p i = true /\ Block.lpnAt b' p i = Block.lpnAt b p i /\
     (Block.lpnAt b p i, i) ∉ Y) ->
  (forall p i, Block.validAt b p i = true -> Block.validAt b' p i = true \/
     (Block.lpnAt b p i, i) ∈ Y) ->
  (forall k' b' p i, k' <> k -> blocks c !! k' = Some b' -> Block.validAt b' p i = true ->
     (Block.lpnAt b' p i, i) ∉ Y) ->
  wfc Y (core_blocks (<[k := b']> (blocks c)) c).
Proof.
  intros Hb Hk Hinv HXY Hsub Hlost Hothers. destruct HW as [B F ND NC R En V].
  split; simpl; try done; try (by destruct NC).
  - intros k' b''. destruct (decide (k' = k)) as [->|Hne].
    + rewrite lookup_insert_eq. intros [= <-]. split; [|done]. by apply (B k b).
    + rewrite lookup_insert_ne by done. apply B.
  - intros f Hf. destruct (F f Hf) as (? & ? & Hnone). split_and!; [lia | lia | done |].
    rewrite lookup_insert_ne; [done|]. intros ->. congruence.
  - intros l row i m Hrow Hm HY.
    destruct (En l row i m Hrow Hm) as [->|Hh]; [set_solver | by left|]. right.
    destruct Hh as (d & Hd & Hp & Hv & Hl). unfold holds. simpl.
    destruct (decide (m.1 = k)) as [He|Hne].
    + rewrite He in *. simplify_eq. exists b'. rewrite lookup_insert_eq. split_and!; [done | lia | lia | |].
      * by destruct (Hlost (m.2) i Hv).
      * destruct (Hlost (m.2) i Hv) as [Hv'|]; [|done]. by destruct (Hsub _ _ Hv') as (_ & -> & _).
    + exists d. rewrite lookup_insert_ne by done. done.
  - intros k' d p i. destruct (decide (k' = k)) as [->|Hne].
    + rewrite lookup_insert_eq. intros [= <-] Hv. destruct (Hsub p i Hv) as (Hv' & -> & HY).
      destruct (V k b p i Hb Hv') as (Hi & _ & Hrow). done.
    + rewrite lookup_insert_ne by done. intros Hd Hv.
      destruct (V k' d p i Hd Hv) as (Hi & _ & Hrow). split; [done|]. split; [|done].
      by eapply Hothers.
Qed.

(** Same valid pages: only metadata, write pointers or erased bits change. *)
Lemma step_meta k b b' :
  blocks c !! k = Some b -> Block.idx b' = k -> Block.inv P U b' ->
  (forall p i, Block.validAt b' p i = Block.validAt b p i) ->
  (forall p i, Block.validAt b p i = true -> Block.lpnAt b' p i = Block.lpnAt b p i) ->
  wfc X (core_blocks (<[k := b']> (blocks c)) c).
Proof.
  intros Hb Hk Hinv Hv Hl. apply (step_block X k b); try done.
  - intros p i Hvi. rewrite Hv in Hvi. rewrite Hl by done. split_and!; try done.
    by apply (wc_valid _ _ HW k b p i).
  - intros p i Hvi. left. by rewrite Hv.
  - intros k' d p i _ Hd Hvi. by apply (wc_valid _ _ HW k' d p i).
Qed.

(** The page of a mapped unit is invalidated: the unit is in transit. *)
Lemma step_invalidate k b p i b' l row :
  blocks c !! k = Some b -> Block.invalidated b p i b' -> Block.inv P U b' ->
  table c !! l = Some row -> vget row i = Some (k, p) ->
  (Block.validAt b p i = true -> Block.lpnAt b p i = l) ->
  wfc ({[(l, i)]} ∪ X) (core_blocks (<[k := b']> (blocks c)) c).
Proof.
  intros Hb Hiv Hinv Hrow Hm Hl.
  assert (forall k' b' p' i', blocks c !! k' = Some b' -> Block.validAt b' p' i' = true ->
            ~ (k' = k /\ p' = p /\ i' = i) -> (Block.lpnAt b' p' i', i') ∉ ({[(l, i)]} ∪ X : gset (Z * Z))) as Hnot.
  { intros k' d p' i' Hd Hv Hne. destruct (wc_valid _ _ HW _ _ _ _ Hd Hv) as (_ & HX & row' & Hrow' & Hm').
    rewrite elem_of_union, elem_of_singleton. intros [[= Hl' ->]|]; [|done].
    rewrite Hl', Hrow in Hrow'. simplify_eq. naive_solver. }
  apply (step_block _ k b); try done.
  - rewrite (Block.fr_idx _ _ (Block.iv_frame _ _ _ _ Hiv)). by apply (wc_blocks _ _ HW).
  - set_solver.
  - intros p' i'. rewrite (Block.iv_valid _ _ _ _ Hiv), (Block.iv_lpn _ _ _ _ Hiv).
    case_decide as Hc; [done|]. intros Hv. split_and!; [done | done |].
    apply (Hnot k b); [done | done | naive_solver].
  - intros p' i' Hv. rewrite (Block.iv_valid _ _ _ _ Hiv). case_decide as Hc; [|by left].
    right. destruct Hc as [-> ->]. rewrite Hl by done. set_solver.
  - intros k' d p' i' Hne Hd Hv. apply (Hnot k' d); [done | done | naive_solver].
Qed.

(** A unit without a page may be put in transit. *)
Lemma step_transit l i :
  (forall row m, table c !! l = Some row -> vget row i = Some m -> m = unmapped) ->
  wfc ({[(l, i)]} ∪ X) c.
Proof.
  intros Hun. destruct HW as [B F ND NC R En V]. split; try done.
  - intros l' row i' m Hrow Hm HX. apply (En l' row i' m); [done | done | set_solver].
  - intros k b p i' Hb Hv. destruct (V k b p i' Hb Hv) as (Hi & HX & row & Hrow & Hm).
    split; [done|]. split; [|eauto]. rewrite elem_of_union, elem_of_singleton.
    intros [[= Hl ->]|]; [|done]. rewrite Hl in Hrow.
    specialize (Hun _ _ Hrow Hm). apply (f_equal fst) in Hun. simpl in Hun.
    destruct (B k b Hb). lia.
Qed.

(** A new row of unmapped units. *)
Lemma step_new_row l : 0 <= bitsetSize ->
  table c !! l = None ->
  wfc X (core_table (<[l := replicate (Z.to_nat bitsetSize) unmapped]> (table c)) c).
Proof.
  intros HS Hl. destruct HW as [B F ND NC R En V]. split; simpl; try done; try (by destruct NC).
  - intros l' row. destruct (decide (l' = l)) as [->|Hne].
    + rewrite lookup_insert_eq. intros [= <-]. by apply vlen_replicate.
    + rewrite lookup_insert_ne by done. apply R.
  - intros l' row i m. destruct (decide (l' = l)) as [->|Hne].
    + rewrite lookup_insert_eq. intros [= <-] Hm%vget_elem_of _. left.
      by apply elem_of_replicate in Hm as [-> _].
    + rewrite lookup_insert_ne by done. apply En.
  - intros k b p i Hb Hv. destruct (V k b p i Hb Hv) as (Hi & HX & row & Hrow & Hm).
    split_and!; try lia; try done. exists row. split; [|done].
    rewrite lookup_insert_ne; [done|]. intros ->. congruence.
Qed.

(** A unit in transit is written to a page and mapped to it. *)
Lemma step_place k b p i l tick b' row :
  blocks c !! k = Some b -> Block.written b p i l tick b' -> Block.inv P U b' ->
  Block.validAt b p i = false -> 0 <= p < P -> 0 <= i < bitsetSize -> 0 <= i < U ->
  table c !! l = Some row -> (l, i) ∈ X ->
  wfc (X ∖ {[(l, i)]})
      (core_table (<[l := vset row i (k, p)]> (table c)) (core_blocks (<[k := b']> (blocks c)) c)).
Proof.
  intros Hb Hw Hinv Hnv Hp Hi HiU Hrow HX. destruct HW as [B F ND NC R En V].
  pose proof (Block.wf_io _ _ _ (Block.inv_wf _ _ _ (proj2 (proj2 (B k b Hb))))) as Hio.
  assert (0 <= i < vlen row) as Hir by (rewrite (R l row Hrow); lia).
  split; simpl; try done; try (by destruct NC).
  - intros k' d. destruct (decide (k' = k)) as [->|Hne].
    + rewrite lookup_insert_eq. intros [= <-]. split; [by apply (B k b)|]. split; [|done].
      rewrite (Block.fr_idx _ _ (Block.wr_frame _ _ _ _ _ _ Hw)). by apply B.
    + rewrite lookup_insert_ne by done. apply B.
  - intros f Hf. destruct (F f Hf) as (? & ? & Hnone). split_and!; [lia | lia | done |].
    rewrite lookup_insert_ne; [done|]. intros ->. congruence.
  - intros l' row'. destruct (decide (l' = l)) as [->|Hne].
    + rewrite lookup_insert_eq. intros [= <-]. rewrite vlen_vset. by apply (R l).
    + rewrite lookup_insert_ne by done. apply R.
  - intros l' row' i' m Hrow' Hm HX'.
    destruct (decide (l' = l /\ i' = i)) as [[-> ->]|Hne].
    + rewrite lookup_insert_eq in Hrow'. injection Hrow' as <-.
      rewrite vget_vset_eq in Hm by done. injection Hm as <-. right.
      exists b'. simpl. rewrite lookup_insert_eq. split_and!; [done | lia | lia | |].
      * rewrite (Block.wr_valid _ _ _ _ _ _ Hw). by rewrite decide_True.
      * rewrite (Block.wr_lpn _ _ _ _ _ _ Hw) by lia. by rewrite decide_True.
    + assert (exists row0, table c !! l' = Some row0 /\ vget row0 i' = Some m) as (row0 & Hrow0 & Hm0).
      { destruct (decide (l' = l)) as [->|].
        - rewrite lookup_insert_eq in Hrow'. injection Hrow' as <-.
          rewrite vget_vset_ne in Hm by naive_solver. eauto.
        - rewrite lookup_insert_ne in Hrow' by done. eauto. }
      destruct (En l' row0 i' m Hrow0 Hm0) as [->|(d & Hd & Hpm & Hv & Hlpn)]; [set_solver | by left|].
      right. unfold holds. simpl. destruct (decide (m.1 = k)) as [He|He].
      * rewrite He in Hd |- *. assert (d = b) as -> by congruence. exists b'. rewrite lookup_insert_eq.
        assert (~ (m.2 = p /\ i' = i)) as Hnp by (intros [Hp2 ->]; rewrite Hp2 in Hv; congruence).
        assert (0 <= i' < U) by (by apply (valid_page X c HW k b (m.2) i')).
        split_and!; [done | lia | lia | |].
        -- rewrite (Block.wr_valid _ _ _ _ _ _ Hw). by rewrite decide_False.
        -- rewrite (Block.wr_lpn _ _ _ _ _ _ Hw) by lia. by rewrite decide_False.
      * exists d. by rewrite lookup_insert_ne.
  - intros k' d p' i' Hd Hv.
    assert ((k' = k /\ p' = p /\ i' = i) \/
            exists d0, blocks c !! k' = Some d0 /\ Block.validAt d0 p' i' = true /\
                       Block.lpnAt d p' i' = Block.lpnAt d0 p' i') as [(-> & -> & ->)|(d0 & Hd0 & Hv0 & Hl0)].
    { destruct (decide (k' = k)) as [->|Hne].
      - rewrite lookup_insert_eq in Hd. injection Hd as <-.
        rewrite (Block.wr_valid _ _ _ _ _ _ Hw) in Hv. case_decide as Hc; [left; naive_solver|].
        right. exists b. split_and!; [done | done |].
        assert (0 <= i' < U) by (by apply (valid_page X c HW k b p' i')).
        rewrite (Block.wr_lpn _ _ _ _ _ _ Hw) by lia. by rewrite decide_False.
      - rewrite lookup_insert_ne in Hd by done. right. eauto. }
    + rewrite lookup_insert_eq in Hd. injection Hd as <-.
      rewrite (Block.wr_lpn _ _ _ _ _ _ Hw) by lia. rewrite decide_True by done.
      split_and!; [lia | lia | set_solver |].
      exists (vset row i (k, p)). rewrite lookup_insert_eq, vget_vset_eq by done. done.
    + rewrite Hl0. destruct (V k' d0 p' i' Hd0 Hv0) as (Hi' & HX' & row0 & Hrow0 & Hm0).
      split_and!; [lia | lia | set_solver |].
      destruct (decide (Block.lpnAt d0 p' i' = l)) as [He|He].
      * rewrite He in *. simplify_eq. exists (vset row i (k, p)).
        rewrite lookup_insert_eq, vget_vset_ne by (intros ->; done). done.
      * exists row0. by rewrite lookup_insert_ne.
Qed.

(** The row of a logical page whose units are all in transit is removed. *)
Lemma step_delete l :
  (forall i, 0 <= i < bitsetSize -> (l, i) ∈ X) -> (forall x, x ∈ X -> x.1 = l) ->
  wfc ∅ (core_table (delete l (table c)) c).
Proof.
  intros Hall Honly. destruct HW as [B F ND NC R En V]. split; simpl; try done; try (by destruct NC).
  - intros l' row [_ Hrow]%lookup_delete_Some. by apply (R l').
  - intros l' row i m [Hne Hrow]%lookup_delete_Some Hm _. apply (En l' row i m); [done | done |].
    intros Hx. apply Hne. symmetry. by apply (Honly _ Hx).
  - intros k b p i Hb Hv. destruct (V k b p i Hb Hv) as (Hi & HX & row & Hrow & Hm).
    split_and!; [lia | lia | set_solver |]. exists row. split; [|done].
    rewrite lookup_delete_ne; [done|]. intros He. apply HX. rewrite <- He. by apply Hall.
Qed.
End Steps.

(** ** Blocks and pools *)

(** A lens on one of the three pools. *)
Record pool_lens (view : Core -> Pool) (put : Pool -> Core -> Core) : Prop := {
  pl_table : forall p c, table (put p c) = table c;
  pl_blocks : forall p c, blocks (put p c) = blocks c;
  pl_view : forall p c, view (put p c) = p;
  pl_core_blocks : forall x c, view (core_blocks x c) = view c;
  pl_frees : forall c, exists l1 l2, frees c = l1 ++ free (view c) ++ l2 /\
             forall p, frees (put p c) = l1 ++ free p ++ l2;
  pl_counts : forall c p, counts_ok c -> nFree p = vlen (free p) -> counts_ok (put p c);
}.

Lemma plain_lens : pool_lens plainPool core_plainPool.
Proof.
  split; try done.
  - intros c. exists [], (free (hotPool c) ++ free (coldPool c)). done.
  - intros c p [] Hp. by split.
Qed.
Lemma hot_lens : pool_lens hotPool core_hotPool.
Proof.
  split; try done.
  - intros c. exists (free (plainPool c)), (free (coldPool c)). done.
  - intros c p [] Hp. by split.
Qed.
Lemma cold_lens : pool_lens coldPool core_coldPool.
Proof.
  split; try done.
  - intros c. exists (free (plainPool c) ++ free (hotPool c)), [].
    unfold frees. simpl. split; [|intros p]; by rewrite app_nil_r, app_assoc.
  - intros c p [] Hp. by split.
Qed.

(** Blocks and pools change without touching a valid page. *)
Lemma step_storage X c c' :
  wfc X c -> table c' = table c ->
  (forall k b, blocks c' !! k = Some b -> 0 <= k < N /\ Block.idx b = k /\ Block.inv P U b) ->
  (forall b, b ∈ frees c' -> 0 <= Block.idx b < N /\ Block.blank P U b /\
                            blocks c' !! Block.idx b = None) ->
  NoDup (Block.idx <$> frees c') ->
  counts_ok c' ->
  (forall k p i, (exists b, blocks c' !! k = Some b /\ Block.validAt b p i = true) <->
                 (exists b, blocks c !! k = Some b /\ Block.validAt b p i = true)) ->
  (forall k b b' p i, blocks c !! k = Some b -> blocks c' !! k = Some b' ->
     Block.validAt b p i = true -> Block.lpnAt b' p i = Block.lpnAt b p i) ->
  wfc X c'.
Proof.
  intros HW Ht B' F' ND' NC' Hv Hl. destruct HW as [B F ND NC R En V].
  split; try done; rewrite Ht.
  - done.
  - intros l row i m Hrow Hm HX. destruct (En l row i m Hrow Hm HX) as [|(b & Hb & Hp & Hvi & Hlp)]; [by left|].
    right. destruct (proj2 (Hv (m.1) (m.2) i)) as (b' & Hb' & Hv'); [eauto|].
    exists b'. split_and!; [done | lia | lia | done |]. by rewrite (Hl (m.1) b b').
  - intros k b' p i Hb' Hv'. destruct (proj1 (Hv k p i)) as (b & Hb & Hvb); [eauto|].
    rewrite (Hl k b b' p i) by done. by apply V.
Qed.

Lemma frees_index_lt X c : wfc X c -> (length (frees c) <= Z.to_nat N)%nat.
Proof.
  intros HW. rewrite <- (length_fmap Block.idx), <- (length_seqZ 0 N).
  apply submseteq_length, NoDup_submseteq; [apply HW|].
  intros x (b & -> & Hb)%list_elem_of_fmap. apply elem_of_seqZ.
  destruct (wc_free _ _ HW b Hb). lia.
Qed.
End Inv.
