(* ===== verification/PmRefreshProof.v ===== *)
(** * The refresh queues: total, and confined to the refresh state

    [setRefreshPeriod] never fails when its layer is inside the layer maps; it
    changes the refresh record and draws from the error model, nothing else. *)

From S2P Require Import Prelude Bitset Block Float32 Types PmState PmRefresh PmInv.

Section RefreshProof.
  Context {D : Type} `{Device D} `{Geometry}.
  Implicit Types (s : t D) (E : err -> Prop).

(** Only the refresh record and the device differ. *)
Definition refresh_only s s' : Prop :=
  exists r d, s' = with_dev d (with_refresh r s) /\ wfr r.

Lemma refresh_only_refl s : wfr (refresh s) -> refresh_only s s.
Proof. intros Hr. exists (refresh s), (dev s). by destruct s. Qed.

Lemma refresh_only_trans s s1 s2 : refresh_only s s1 -> refresh_only s1 s2 -> refresh_only s s2.
Proof. intros (r & d & -> & _) (r' & d' & -> & Hr'). by exists r', d'. Qed.

Lemma refresh_only_wfr s s' : refresh_only s s' -> wfr (refresh s').
Proof. by intros (r & d & -> & Hr). Qed.

Lemma refresh_only_set s r : wfr r -> refresh_only s (with_refresh r s).
Proof. intros Hr. exists r, (dev s). by destruct s. Qed.

Lemma wpe_getR {A} E (f : Refresh -> res A) (Q : A -> t D -> Prop) s :
  wpr E (f (refresh s)) (fun a => Q a s) -> wpe E (getR f) Q s.
Proof. intros Hf. unfold getR. wp_steps. done. Qed.

Lemma umod_ok E x (Q : Z -> Prop) :
  (forall q, 0 <= q < refreshFilterNum conf -> q = x mod refreshFilterNum conf -> Q q) ->
  wpr E (umod x (refreshFilterNum conf)) Q.
Proof.
  intros HQ. pose proof geo_queues. unfold umod. rewrite (proj2 (Z.eqb_neq _ 0)) by lia.
  apply wpr_ret, HQ; [apply Z.mod_pos_bound; lia | done].
Qed.

Lemma layers_bound : 0 < layers < 2 ^ 32 - 8.
Proof.
  pose proof geo_N. pose proof geo_P. pose proof geo_layers. unfold layers.
  pose proof (Z.mul_pos_pos (totalPhysicalBlocks param) (pagesInBlock param)).
  assert (0 <= (totalPhysicalBlocks param * pagesInBlock param - 1) / 8) by (apply Z.div_pos; lia).
  assert ((totalPhysicalBlocks param * pagesInBlock param - 1) / 8 <= totalPhysicalBlocks param * pagesInBlock param - 1)
    by (apply Z.div_le_upper_bound; lia).
  lia.
Qed.

Section Wfr.
  Context (r : Refresh) (Hr : wfr r).

Lemma queue_get q : 0 <= q < refreshFilterNum conf ->
  exists l, vget (refreshQueues r) q = Some l /\ forall x, x ∈ l -> 0 <= x < layers.
Proof.
  intros Hq. destruct (vget_in_range (refreshQueues r) q) as [l Hl]; [by rewrite (wr_queues _ Hr)|].
  exists l. split; [done|]. intros x. apply (wr_layers _ Hr). left. by eapply vget_elem_of.
Qed.

Lemma checked_get q : 0 <= q < refreshFilterNum conf ->
  exists l, vget (checkedQueues r) q = Some l /\ forall x, x ∈ l -> 0 <= x < layers.
Proof.
  intros Hq. destruct (vget_in_range (checkedQueues r) q) as [l Hl]; [by rewrite (wr_checked _ Hr)|].
  exists l. split; [done|]. intros x. apply (wr_layers _ Hr). right. by eapply vget_elem_of.
Qed.

Lemma elem_of_vset {A} (v : list A) q l x : x ∈ vset v q l -> x ∈ v \/ x = l.
Proof.
  unfold vset. case_match; [by left|]. intros [k Hk]%list_elem_of_lookup.
  apply list_lookup_insert_Some in Hk as [(_ & <- & _)|[_ Hk]]; [by right|].
  left. by eapply list_elem_of_lookup_2.
Qed.

Lemma wfr_queues q l : (forall x, x ∈ l -> 0 <= x < layers) ->
  wfr (mkRefresh (layerQueueNum r) (insertedLayerCheck r) (insertedGroupCheck r)
         (vset (refreshQueues r) q l) (checkedQueues r)).
Proof.
  intros Hl. split; simpl; rewrite ?vlen_vset; try by apply Hr.
  intros q' x [Hq'|Hq'] Hx; [|by apply (wr_layers _ Hr q'); auto].
  apply elem_of_vset in Hq' as [Hin| ->]; [by apply (wr_layers _ Hr q'); auto | by apply Hl].
Qed.

Lemma wfr_checked q l : (forall x, x ∈ l -> 0 <= x < layers) ->
  wfr (mkRefresh (layerQueueNum r) (insertedLayerCheck r) (insertedGroupCheck r)
         (refreshQueues r) (vset (checkedQueues r) q l)).
Proof.
  intros Hl. split; simpl; rewrite ?vlen_vset; try by apply Hr.
  intros q' x [Hq'|Hq'] Hx; [by apply (wr_layers _ Hr q'); auto|].
  apply elem_of_vset in Hq' as [Hin| ->]; [by apply (wr_layers _ Hr q'); auto | by apply Hl].
Qed.

Lemma wfr_num layer q : 0 <= layer < layers -> 0 <= q < refreshFilterNum conf ->
  wfr (mkRefresh (vset (layerQueueNum r) layer q) (insertedLayerCheck r) (insertedGroupCheck r)
         (refreshQueues r) (checkedQueues r)).
Proof.
  intros Hl Hq. split; simpl; rewrite ?vlen_vset; try by apply Hr.
  intros l' q'. rewrite vget_vset by (by rewrite (wr_nums _ Hr)). case_decide; [by intros [= <-] | apply (wr_num _ Hr)].
Qed.

Lemma wfr_check b : Bitset.wf layers b ->
  wfr (mkRefresh (layerQueueNum r) b (insertedGroupCheck r) (refreshQueues r) (checkedQueues r)).
Proof. intros Hb. destruct Hr. by split. Qed.
End Wfr.

(** ** The queue primitives *)

Section Primitives.
  Context (E : err -> Prop) (s : t D) (Hr : wfr (refresh s)).

Lemma layerTest_ok layer : 0 <= layer < layers ->
  wpe E (layerTest layer) (fun b s' => s' = s /\ b = Bitset.bit (insertedLayerCheck (refresh s)) layer) s.
Proof.
  intros Hl. apply wpe_getR. rewrite (Bitset.test_spec layers); [done | apply Hr | done].
Qed.

Lemma layerSet_ok layer v : 0 <= layer < layers ->
  wpe E (layerSet layer v) (fun _ s' => refresh_only s s') s.
Proof.
  intros Hl. unfold layerSet. wp_step. apply wpe_getR.
  eapply wpr_mono; [apply (Bitset.set_spec layers); [apply Hr | done]|].
  intros b [Hb _]. unfold setLayerCheck. wp_step. by apply refresh_only_set, wfr_check.
Qed.

Lemma pushQueue_ok q layer : 0 <= q < refreshFilterNum conf -> 0 <= layer < layers ->
  wpe E (pushQueue q layer) (fun _ s' => refresh_only s s') s.
Proof.
  intros Hq Hl. unfold pushQueue. wp_step. apply wpe_getR.
  destruct (queue_get (refresh s) Hr q Hq) as (l & Hg & Hx).
  rewrite (get_raw_Some _ _ _ Hg). simpl. rewrite set_raw_range by (by rewrite (wr_queues _ Hr)).
  wp_step. unfold setQueues. wp_step. apply refresh_only_set, wfr_queues; [done|].
  intros x [?| ->%list_elem_of_singleton]%elem_of_app; [by apply Hx | done].
Qed.

Lemma setLayerQueueNum_ok layer q : 0 <= q < refreshFilterNum conf -> 0 <= layer < layers ->
  wpe E (setLayerQueueNum layer q) (fun _ s' => refresh_only s s') s.
Proof.
  intros Hq Hl. unfold setLayerQueueNum. wp_step. apply wpe_getR.
  rewrite set_raw_range by (by rewrite (wr_nums _ Hr)). wp_step. unfold setLayerQueue. wp_step.
  by apply refresh_only_set, wfr_num.
Qed.

Lemma remove_first_elem x y l : x ∈ remove_first y l -> x ∈ l.
Proof.
  induction l as [|z l IH]; simpl; [done|]. case_match; [by right|].
  intros [->|Hx]%elem_of_cons; [by left | right; by apply IH].
Qed.

Lemma removeFromQueue_ok layer : 0 <= layer < layers ->
  wpe E (removeFromQueue layer) (fun _ s' => refresh_only s s') s.
Proof.
  intros Hl. unfold removeFromQueue. wp_step. apply wpe_getR.
  destruct (vget_in_range (layerQueueNum (refresh s)) layer) as [q Hq]; [by rewrite (wr_nums _ Hr)|].
  rewrite (get_raw_Some _ _ _ Hq). simpl. pose proof (wr_num _ Hr _ _ Hq) as Hqr.
  wp_step. apply wpe_getR. destruct (queue_get (refresh s) Hr q Hqr) as (l & Hg & Hx).
  rewrite (get_raw_Some _ _ _ Hg). simpl. rewrite set_raw_range by (by rewrite (wr_queues _ Hr)).
  wp_step. unfold setQueues. wp_step. apply refresh_only_set, wfr_queues; [done|].
  intros x Hx'. by apply Hx, (remove_first_elem x layer).
Qed.
End Primitives.

(** Sequencing steps that stay in the refresh state. *)
Lemma refresh_only_bind {A B} E (m : M (t D) A) (f : A -> M (t D) B) s0 s :
  refresh_only s0 s ->
  (wfr (refresh s) -> wpe E m (fun _ s' => refresh_only s s') s) ->
  (forall a s', refresh_only s0 s' -> wpe E (f a) (fun _ s'' => refresh_only s0 s'') s') ->
  wpe E (m ≫= f) (fun _ s' => refresh_only s0 s') s.
Proof.
  intros Hs0 Hm Hf. wp_step. eapply wpe_mono; [apply Hm; by eapply refresh_only_wfr|].
  intros a s' Hs'. apply Hf. by eapply refresh_only_trans.
Qed.

Lemma refresh_only_last {A} E (m : M (t D) A) s0 s :
  refresh_only s0 s ->
  (wfr (refresh s) -> wpe E m (fun _ s' => refresh_only s s') s) ->
  wpe E m (fun _ s' => refresh_only s0 s') s.
Proof.
  intros Hs0 Hm. eapply wpe_mono; [apply Hm; by eapply refresh_only_wfr|].
  intros a s' Hs'. by eapply refresh_only_trans.
Qed.

Lemma insertToQueue_ok E q layer s :
  wfr (refresh s) -> 0 <= layer < layers ->
  wpe E (insertToQueue q layer) (fun _ s' => refresh_only s s') s.
Proof.
  intros Hr Hl. unfold insertToQueue. wp_step. wp_step. wp_step. wp_step.
  apply umod_ok. intros cur Hcur _. wp_step.
  eapply wpe_mono; [by apply layerTest_ok|]. intros b s' [-> _].
  pose proof (refresh_only_refl s Hr) as Hs0. destruct b.
  - wp_step. wp_step. apply umod_ok. intros new Hnew Enew. wp_step. apply wpe_getR.
    destruct (vget_in_range (layerQueueNum (refresh s)) layer) as [old Hold]; [by rewrite (wr_nums _ Hr)|].
    rewrite (get_raw_Some _ _ _ Hold). simpl. case_match; [|by wp_step].
    rewrite <- Enew.
    eapply refresh_only_bind; [done | intros; by apply removeFromQueue_ok|]. intros _ s1 Hs1.
    eapply refresh_only_bind; [done | intros; by apply pushQueue_ok|]. intros _ s2 Hs2.
    eapply refresh_only_last; [done|]. intros. by apply setLayerQueueNum_ok.
  - wp_step. wp_step. apply umod_ok. intros new Hnew _.
    eapply refresh_only_bind; [done | intros; by apply pushQueue_ok|]. intros _ s1 Hs1.
    eapply refresh_only_bind; [done | intros; by apply setLayerQueueNum_ok|]. intros _ s2 Hs2.
    eapply refresh_only_last; [done|]. intros. by apply layerSet_ok.
Qed.

Lemma iterM_refresh {B} E (f : B -> M (t D) unit) l s :
  wfr (refresh s) ->
  (forall x s', x ∈ l -> wfr (refresh s') -> wpe E (f x) (fun _ s'' => refresh_only s' s'') s') ->
  wpe E (iterM f l) (fun _ s' => refresh_only s s') s.
Proof.
  intros Hr Hf. unfold iterM. apply wpe_foldM with
    (I := fun rest (_ : unit) s' => refresh_only s s' /\ (forall x, x ∈ rest -> x ∈ l)).
  - split; [by apply refresh_only_refl | done].
  - intros x rest _ s' [Hs' Hin]. eapply wpe_mono.
    + apply refresh_only_last; [exact Hs'|]. intros Hr'. apply Hf; [apply Hin; by left | done].
    + intros u s'' Hs''. split; [done|]. intros y Hy. apply Hin. by right.
  - by intros _ s' [? _].
Qed.

Lemma predictRBER_ok E i e l s :
  wfr (refresh s) -> wpe E (predictRBER i e l) (fun _ s' => refresh_only s s') s.
Proof.
  intros Hr. unfold predictRBER. wp_step. wp_step. destruct (getRBER _ _ _ _) as [x d].
  wp_step. wp_step. wp_step. exists (refresh s), d. by destruct s.
Qed.

Lemma find_period_ok E n i num (exceeds : Z -> M (t D) bool) last at_ s0 s :
  refresh_only s0 s ->
  (forall i s', wfr (refresh s') -> wpe E (exceeds i) (fun _ s'' => refresh_only s' s'') s') ->
  (forall s', wfr (refresh s') -> wpe E last (fun _ s'' => refresh_only s' s'') s') ->
  (forall i s', wfr (refresh s') -> wpe E (at_ i) (fun _ s'' => refresh_only s' s'') s') ->
  wpe E (find_period n i num exceeds last at_) (fun _ s' => refresh_only s0 s') s.
Proof.
  intros Hs0 He Hl Ha. revert i s Hs0. induction n as [|n IH]; intros i s Hs0; simpl; [by wp_step|].
  case_match; [apply refresh_only_last; auto|].
  eapply refresh_only_bind; [done | auto|]. intros b s1 Hs1.
  destruct b; [apply refresh_only_last; auto | by apply IH].
Qed.

Lemma insertUnmarked_ok E q l s :
  wfr (refresh s) -> 0 <= q < refreshFilterNum conf -> (forall x, x ∈ l -> 0 <= x < layers) ->
  wpe E (insertUnmarked q l) (fun _ s' => refresh_only s s') s.
Proof.
  intros Hr Hq Hl. apply iterM_refresh; [done|]. intros x s' Hx Hr'. pose proof (Hl x Hx).
  wp_step. eapply wpe_mono; [by apply layerTest_ok|]. intros b s1 [-> _].
  destruct b; [wp_step; by apply refresh_only_refl|].
  eapply refresh_only_bind; [by apply refresh_only_refl | intros; by apply pushQueue_ok|].
  intros _ s2 Hs2. eapply refresh_only_last; [done|]. intros. by apply layerSet_ok.
Qed.

(** Layers of a block are inside the layer maps. *)
Lemma layer_in_range blk lay :
  512 <= pagesInBlock param -> 0 <= blk < totalPhysicalBlocks param -> 0 <= lay < 64 ->
  u32 (blk * 64) = blk * 64 /\ u32 (blk * 64 + lay) = blk * 64 + lay /\ 0 <= blk * 64 + lay < layers.
Proof.
  intros HP Hb Hl. pose proof geo_N. rewrite !u32_small by lia. split_and!; try lia.
  unfold layers. set (NP := totalPhysicalBlocks param * pagesInBlock param).
  assert (totalPhysicalBlocks param * 512 <= NP) by (unfold NP; nia).
  assert (totalPhysicalBlocks param * 64 - 1 <= (NP - 1) / 8); [|lia].
  apply Z.div_le_lower_bound; lia.
Qed.

Lemma neighbours_ok blk first size x :
  512 <= pagesInBlock param -> 0 <= blk < totalPhysicalBlocks param -> 0 <= first ->
  x ∈ neighbours blk first size -> 0 <= x < layers.
Proof.
  intros HP Hb Hf (k & -> & Hk)%list_elem_of_fmap.
  apply list_elem_of_filter in Hk as [Hk Hk'%elem_of_seqZ].
  destruct (layer_in_range blk (first + k)) as (Hs1 & Hs2 & H3); [lia | lia | lia|].
  rewrite Hs1. replace (blk * 64 + first + k) with (blk * 64 + (first + k)) by lia. lia.
Qed.

Lemma setRefreshPeriod_ok E e blk lay s :
  wfr (refresh s) -> 0 <= blk < totalPhysicalBlocks param -> 0 <= lay < 64 ->
  wpe E (setRefreshPeriod e blk lay) (fun _ s' => refresh_only s s') s.
Proof.
  intros Hr Hb Hl. unfold setRefreshPeriod. wp_step. wp_step. wp_step. wp_step.
  apply umod_ok. intros cur Hcur _. pose proof geo_mode as Hmode. pose proof geo_queues as Hq.
  pose proof (refresh_only_refl s Hr) as Hs0.
  assert (forall x i, 0 <= u32 (x + i) mod refreshFilterNum conf < refreshFilterNum conf) as Hqmod
    by (intros; apply Z.mod_pos_bound; lia).
  assert (forall (f : f32 -> bool) i e l s', wfr (refresh s') ->
    wpe E (predictRBER i e l ≫= fun r => mret (f r)) (fun _ s'' => refresh_only s' s'') s') as Hpred.
  { intros f i e' l s' Hr'. wp_step. eapply wpe_mono; [by apply predictRBER_ok|].
    intros r s'' Hs''. by wp_step. }
  destruct (decide (512 <= pagesInBlock param)) as [HP|HP].
  2:{ destruct (Z.eqb_spec (refreshMode conf) 0); [lia|].
      destruct (Z.eqb_spec (refreshMode conf) 1); [lia|].
      destruct (Z.eqb_spec (refreshMode conf) 2); [lia|].
      destruct (Z.eqb_spec (refreshMode conf) 3); [lia|]. by wp_step. }
  destruct (layer_in_range blk lay) as (Hu1 & Hu2 & Hlay); [done | done | done|].
  destruct (Z.eqb_spec (refreshMode conf) 0).
  { apply find_period_ok; auto; intros; apply insertToQueue_ok; try done; rewrite Hu1, Hu2; done. }
  destruct (Z.eqb_spec (refreshMode conf) 1).
  { pose proof geo_group as Hg. rewrite (proj2 (Z.eqb_neq _ 0)) by lia. case_match; [|by wp_step].
    assert (forall x, x ∈ neighbours blk (lay / refreshGroupingSize conf * refreshGroupingSize conf)
              (refreshGroupingSize conf) -> 0 <= x < layers) as Hn.
    { intros x. apply neighbours_ok; [done | done|]. apply Z.mul_nonneg_nonneg; [apply Z.div_pos|]; lia. }
    apply find_period_ok; auto; intros; apply iterM_refresh; try done;
      intros x s'' Hx Hr''; apply insertToQueue_ok; auto. }
  destruct (Z.eqb_spec (refreshMode conf) 2).
  { wp_step. rewrite Hu1, Hu2. eapply wpe_mono; [by apply layerTest_ok|]. intros b s' [-> _].
    destruct b; [by wp_step|]. apply find_period_ok; auto; intros; apply insertUnmarked_ok; auto;
      intros x (k & -> & Hk)%list_elem_of_fmap; apply list_elem_of_filter in Hk as [Hk Hk'%elem_of_seqZ];
      pose proof (Z.mod_pos_bound lay 21 ltac:(lia));
      (assert (0 <= (if lay =? 63 then 63 else lay mod 21) + k * 21) by (case_match; lia));
      destruct (layer_in_range blk ((if lay =? 63 then 63 else lay mod 21) + k * 21)) as (_ & Hy & Hz);
        try done; try lia; by rewrite <- Z.add_assoc, Hy. }
  destruct (Z.eqb_spec (refreshMode conf) 3); [|by wp_step].
  wp_step. rewrite Hu1, Hu2. eapply wpe_mono; [by apply layerTest_ok|]. intros b s' [-> _].
  destruct b; [by wp_step|].
  apply find_period_ok; auto; intros; apply insertUnmarked_ok; auto;
    intros x (k & Hx & Hk%elem_of_seqZ)%list_elem_of_bind; eapply neighbours_ok; [done | exact Hb | | exact Hx | | | | exact Hx];
    try done;
    (assert (0 <= lay mod 21 / 3) by (apply Z.div_pos; [apply Z.mod_pos_bound|]; lia); case_match; lia).
Qed.

(** ** What an insertion does to the queues *)

Definition queue_of (r : Refresh) (q : Z) : list Z := default [] (vget (refreshQueues r) q).

(** [layer] was appended to queue [q]. *)
Record appended (q layer : Z) (r r' : Refresh) : Prop := {
  ap_nums : layerQueueNum r' = vset (layerQueueNum r) layer q;
  ap_queues : refreshQueues r' = vset (refreshQueues r) q (queue_of r q ++ [layer]);
  ap_checked : checkedQueues r' = checkedQueues r;
  ap_group : insertedGroupCheck r' = insertedGroupCheck r;
}.

(** Periods are compared on a circle that starts after the current one. *)
Definition ahead (cur q : Z) : Z := if q <=? cur then u32 (q + refreshFilterNum conf) else q.

Lemma ahead_bounds cur q : 0 <= cur < refreshFilterNum conf -> 0 <= q < refreshFilterNum conf ->
  cur < ahead cur q <= cur + refreshFilterNum conf.
Proof.
  intros Hc Hq. pose proof geo_queues. unfold ahead, u32. destruct (Z.leb_spec q cur); [|lia].
  rewrite Z.mod_small by lia. lia.
Qed.

Definition enqueued (cur q layer : Z) (r r' : Refresh) : Prop :=
  let old := default 0 (vget (layerQueueNum r) layer) in
  if Bitset.bit (insertedLayerCheck r) layer then
    if 24 <? u32 (ahead cur q - ahead cur old) then
      appended q layer (mkRefresh (layerQueueNum r) (insertedLayerCheck r) (insertedGroupCheck r)
        (vset (refreshQueues r) old (remove_first layer (queue_of r old))) (checkedQueues r)) r' /\
      insertedLayerCheck r' = insertedLayerCheck r
    else r' = r
  else
    appended q layer r r' /\
    forall x, Bitset.bit (insertedLayerCheck r') x = if decide (x = layer) then true else Bitset.bit (insertedLayerCheck r) x.

Lemma pushQueue_exact E q layer s (Q : unit -> t D -> Prop) : wfr (refresh s) ->
  0 <= q < refreshFilterNum conf ->
  Q tt (with_refresh (mkRefresh (layerQueueNum (refresh s)) (insertedLayerCheck (refresh s))
    (insertedGroupCheck (refresh s)) (vset (refreshQueues (refresh s)) q (queue_of (refresh s) q ++ [layer]))
    (checkedQueues (refresh s))) s) ->
  wpe E (pushQueue q layer) Q s.
Proof.
  intros Hr Hq HQ. unfold pushQueue. wp_step. apply wpe_getR.
  destruct (queue_get (refresh s) Hr q Hq) as (l & Hg & Hx). unfold queue_of in HQ. rewrite Hg in HQ.
  rewrite (get_raw_Some _ _ _ Hg). simpl. rewrite set_raw_range by (by rewrite (wr_queues _ Hr)).
  wp_step. unfold setQueues. by wp_step.
Qed.

Lemma setLayerQueueNum_exact E layer q s (Q : unit -> t D -> Prop) : wfr (refresh s) -> 0 <= layer < layers ->
  Q tt (with_refresh (mkRefresh (vset (layerQueueNum (refresh s)) layer q) (insertedLayerCheck (refresh s))
    (insertedGroupCheck (refresh s)) (refreshQueues (refresh s)) (checkedQueues (refresh s))) s) ->
  wpe E (setLayerQueueNum layer q) Q s.
Proof.
  intros Hr Hl HQ. unfold setLayerQueueNum. wp_step. apply wpe_getR.
  rewrite set_raw_range by (by rewrite (wr_nums _ Hr)). wp_step. unfold setLayerQueue. by wp_step.
Qed.

Lemma queue_of_range r q x : wfr r -> 0 <= q < refreshFilterNum conf -> x ∈ queue_of r q -> 0 <= x < layers.
Proof. intros Hr Hq. unfold queue_of. destruct (queue_get r Hr q Hq) as (l & -> & Hx). apply Hx. Qed.

Lemma insertToQueue_exact E qn layer s : wfr (refresh s) -> 0 <= layer < layers ->
  wpe E (insertToQueue qn layer) (fun _ s' => exists r', s' = with_refresh r' s /\ wfr r' /\
    enqueued ((refreshCallCount (stat s) / background_ratio) mod refreshFilterNum conf)
      (qn mod refreshFilterNum conf) layer (refresh s) r') s.
Proof.
  intros Hr Hl. unfold insertToQueue. wp_step. wp_step. wp_step. wp_step. apply umod_ok. intros cur Hcur ->.
  wp_step. eapply wpe_mono; [by apply layerTest_ok|]. intros m s1 [-> ->]. unfold enqueued.
  assert (forall r q, wfr r -> 0 <= q < refreshFilterNum conf ->
    wfr (mkRefresh (layerQueueNum r) (insertedLayerCheck r) (insertedGroupCheck r)
      (vset (refreshQueues r) q (queue_of r q ++ [layer])) (checkedQueues r))) as Hpush.
  { intros r q Hw Hq. apply (wfr_queues r Hw). intros x [Hx| ->%list_elem_of_singleton]%elem_of_app; [|done].
    by eapply queue_of_range. }
  destruct (Bitset.bit (insertedLayerCheck (refresh s)) layer) eqn:Hbit.
  - wp_step. wp_step. apply umod_ok. intros q Hq Hqe. wp_step. apply wpe_getR.
    destruct (vget_in_range (layerQueueNum (refresh s)) layer) as [old Hold]; [by rewrite (wr_nums _ Hr)|].
    rewrite (get_raw_Some _ _ _ Hold), Hold. rewrite <- Hqe. simpl. pose proof (wr_num _ Hr _ _ Hold) as Hor.
    match goal with |- context [24 <? u32 (?a - ?b)] => change a with (ahead ((refreshCallCount (stat s) / background_ratio) mod refreshFilterNum conf) q);
      change b with (ahead ((refreshCallCount (stat s) / background_ratio) mod refreshFilterNum conf) old) end.
    destruct (24 <? _); [|wp_step; exists (refresh s); split_and!; [by destruct s | done | done]].
    unfold removeFromQueue. wp_step. wp_step. apply wpe_getR. rewrite (get_raw_Some _ _ _ Hold). simpl.
    wp_step. apply wpe_getR. destruct (queue_get (refresh s) Hr old Hor) as (ol & Hg & Hx).
    rewrite (get_raw_Some _ _ _ Hg). simpl. rewrite set_raw_range by (by rewrite (wr_queues _ Hr)).
    wp_step. unfold setQueues. wp_step.
    assert (wfr (mkRefresh (layerQueueNum (refresh s)) (insertedLayerCheck (refresh s)) (insertedGroupCheck (refresh s))
        (vset (refreshQueues (refresh s)) old (remove_first layer ol)) (checkedQueues (refresh s)))) as Hrm.
    { apply (wfr_queues (refresh s) Hr). intros x Hx'. by apply Hx, (remove_first_elem x layer). }
    wp_step. apply pushQueue_exact; [done | done|]. apply setLayerQueueNum_exact; [by apply (Hpush _ q Hrm) | done|].
    eexists. split; [by destruct s|]. split; [by apply (wfr_num _ (Hpush _ q Hrm Hq))|].
    split; [|done]. unfold queue_of. rewrite Hg. by split.
  - wp_step. wp_step. apply umod_ok. intros q Hq Hqe. rewrite <- Hqe.
    wp_step. apply pushQueue_exact; [done | done|].
    wp_step. apply setLayerQueueNum_exact; [by apply (Hpush _ q Hr) | done|].
    unfold layerSet. wp_step. apply wpe_getR. simpl.
    eapply wpr_mono; [apply (Bitset.set_spec layers); [apply Hr | done]|]. intros b [Hb Hbits].
    unfold setLayerCheck. wp_step. eexists. split; [by destruct s|]. simpl. split.
    + apply (wfr_check _ (wfr_num _ (Hpush _ q Hr Hq) layer q Hl Hq) b Hb).
    + split; [by split | done].
Qed.
End RefreshProof.
