(* ===== verification/PmAllocProof.v ===== *)
(** * Allocation preserves the invariant

    [takeFree] moves one block from its pool to the blocks in use; a
    [getLast*FreeBlock] returns a block in use with room in every slot. *)

From S2P Require Import Prelude Bitset Block Float32 Types PmState PmRefresh PmAlloc PmInv.

Section AllocProof.
  Context {D : Type} `{Device D} `{Geometry}.
  Implicit Types (s : t D) (E : err -> Prop) (X : gset (Z * Z)).

Notation N := (totalPhysicalBlocks param).
Notation P := (pagesInBlock param).
Notation U := (ioUnitInPage param).
Notation W := (pageCountToMaxPerf param).

(** ** Accessors under the calculus *)

Lemma wpe_getB E k b (Q : Block.t -> t D -> Prop) s :
  blocks (core s) !! k = Some b -> Q b s -> wpe E (getB k) Q s.
Proof. intros Hb HQ. unfold getB. wp_steps. rewrite Hb. by wp_step. Qed.

Lemma wpe_readB {A} E k b (f : Block.t -> res A) (Q : A -> t D -> Prop) s :
  blocks (core s) !! k = Some b -> wpr E (f b) (fun a => Q a s) -> wpe E (readB k f) Q s.
Proof. intros Hb HQ. unfold readB. wp_step. apply (wpe_getB _ _ b); [done|]. by wp_step. Qed.

Lemma wpe_updB E k b f (Q : unit -> t D -> Prop) s :
  blocks (core s) !! k = Some b ->
  wpr E (f b) (fun b' => Q tt (with_core (core_blocks (<[k := b']> (blocks (core s))) (core s)) s)) ->
  wpe E (updB k f) Q s.
Proof.
  intros Hb HQ. unfold updB. wp_step. apply (wpe_getB _ _ b); [done|]. wp_step. wp_step.
  eapply wpr_mono; [exact HQ|]. intros b' HQ'. unfold putB. by wp_step.
Qed.

Lemma wpe_onB {A} E k b (f : Block.t -> res (A * Block.t)) (Q : A -> t D -> Prop) s :
  blocks (core s) !! k = Some b ->
  wpr E (f b) (fun r => Q r.1 (with_core (core_blocks (<[k := r.2]> (blocks (core s))) (core s)) s)) ->
  wpe E (onB k f) Q s.
Proof.
  intros Hb HQ. unfold onB. wp_step. apply (wpe_getB _ _ b); [done|]. wp_step. wp_step.
  eapply wpr_mono; [exact HQ|]. intros [a b'] HQ'. wp_step. unfold putB. wp_step. by wp_step.
Qed.

Lemma wpe_hasB E k (Q : bool -> t D -> Prop) s :
  Q (bool_decide (is_Some (blocks (core s) !! k))) s -> wpe E (hasB k) Q s.
Proof. intros HQ. unfold hasB. by wp_step. Qed.

(** ** Taking a free block *)

Lemma find_free_spec idx (l : list Block.t) :
  match find_free idx l with
  | None => l = []
  | Some (b, rest) => exists l1 l2, l = l1 ++ b :: l2 /\ rest = l1 ++ l2
  end.
Proof.
  unfold find_free. assert (match find_stride idx l with None => True | Some (b, rest) =>
    exists l1 l2, l = l1 ++ b :: l2 /\ rest = l1 ++ l2 end) as Hs.
  { induction l as [|b l IH]; simpl; [done|]. destruct (_ =? idx); [by exists [], l|].
    destruct (find_stride idx l) as [[x r]|]; simpl; [|done].
    destruct IH as (l1 & l2 & -> & ->). by exists (b :: l1), l2. }
  destruct (find_stride idx l) as [[b rest]|]; [done|].
  destruct l as [|b l]; [done|]. by exists [], l.
Qed.

(** The state after block [k] was taken from the pool [view] and stored as [b]. *)
Record taken (view : Core -> Pool) (c c' : Core) (k : Z) (b : Block.t) : Prop := {
  tk_table : table c' = table c;
  tk_blocks : blocks c' = <[k := b]> (blocks c);
  tk_fresh : blocks c !! k = None;
  tk_blank : Block.blank P U b;
  tk_count : nFree (view c') = nFree (view c) - 1;
  tk_pos : 0 < nFree (view c);
  tk_range : 0 <= k < N;
  tk_free : exists f, f ∈ free (view c) /\ Block.idx f = k /\ Block.eraseCount b = Block.eraseCount f;
}.

Lemma step_take X (view : Core -> Pool) (put : Pool -> Core -> Core) c l1 f l2 b :
  wfc X c -> pool_lens view put -> nFree (view c) = vlen (free (view c)) ->
  free (view c) = l1 ++ f :: l2 -> Block.idx b = Block.idx f -> Block.blank P U b ->
  Block.eraseCount b = Block.eraseCount f ->
  let c' := put (mkPool (l1 ++ l2) (u32 (nFree (view c) - 1)))
                (core_blocks (<[Block.idx f := b]> (blocks c)) c) in
  wfc X c' /\ taken view c c' (Block.idx f) b.
Proof.
  intros HW HL Hn Hf Hidx Hblank Hec c'.
  set (cb := core_blocks (<[Block.idx f := b]> (blocks c)) c) in *.
  destruct (pl_frees _ _ HL cb) as (g1 & g2 & Hfr & Hfr').
  assert (view cb = view c) as Hvw by apply (pl_core_blocks _ _ HL).
  rewrite Hvw, Hf in Hfr. change (frees cb) with (frees c) in Hfr.
  pose proof (frees_index_lt X c HW) as Hlen. pose proof geo_N.
  assert (f ∈ frees c) as Hin by (rewrite Hfr; set_solver).
  destruct (wc_free _ _ HW f Hin) as (Hr & Hbf & Hnone).
  assert (u32 (nFree (view c) - 1) = vlen (l1 ++ l2)) as Hcnt.
  { assert (length (l1 ++ f :: l2) <= length (frees c))%nat as Hle by (rewrite Hfr, !length_app; lia).
    rewrite Hn, Hf. unfold vlen. rewrite !length_app in *. simpl in *. rewrite u32_small by lia. lia. }
  assert (frees c' = g1 ++ (l1 ++ l2) ++ g2) as Hfc by (unfold c'; by rewrite Hfr').
  assert (frees c ≡ₚ f :: frees c') as Hperm.
  { rewrite Hfr, Hfc. solve_Permutation. }
  pose proof (wc_nodup _ _ HW) as HND. rewrite Hperm in HND. simpl in HND.
  apply NoDup_cons in HND as [Hnotin HND].
  assert (blocks c' = <[Block.idx f := b]> (blocks c)) as Hbc by (unfold c'; by rewrite (pl_blocks _ _ HL)).
  split.
  - apply (step_storage X c); try done.
    + unfold c'. by rewrite (pl_table _ _ HL).
    + intros k d. rewrite Hbc. destruct (decide (k = Block.idx f)) as [->|Hne].
      * rewrite lookup_insert_eq. intros [= <-]. split_and!; [lia | lia | done | by apply Block.blank_inv].
      * rewrite lookup_insert_ne by done. apply HW.
    + intros d Hd. assert (d ∈ frees c) as Hd' by (rewrite Hperm; by right).
      destruct (wc_free _ _ HW d Hd') as (? & ? & ?). split_and!; [lia | lia | done |].
      rewrite Hbc, lookup_insert_ne; [done|]. intros He. apply Hnotin. rewrite He.
      apply list_elem_of_fmap. eauto.
    + apply (pl_counts _ _ HL); [|done]. by destruct (wc_counts _ _ HW).
    + intros k p i. rewrite Hbc. destruct (decide (k = Block.idx f)) as [->|Hne].
      * rewrite lookup_insert_eq, Hnone. split; [intros (d & [= <-] & Hv)|by intros (? & ? & ?)].
        by rewrite (Block.bl_valid _ _ _ Hblank) in Hv.
      * by rewrite lookup_insert_ne.
    + intros k d d' p i Hd Hd' Hv. rewrite Hbc in Hd'. destruct (decide (k = Block.idx f)) as [->|Hne].
      * congruence.
      * rewrite lookup_insert_ne in Hd' by done. by simplify_eq.
  - split; try done.
    + unfold c'. by rewrite (pl_table _ _ HL).
    + unfold c'. rewrite (pl_view _ _ HL). simpl. rewrite Hcnt, Hn, Hf. unfold vlen.
      rewrite !length_app. simpl. lia.
    + rewrite Hn, Hf. unfold vlen. rewrite length_app. simpl. lia.
    + exists f. split; [rewrite Hf; set_solver | done].
Qed.

(** Setters applied to a fresh block keep it blank. *)
Definition keeps_blank (f : Block.t -> Block.t) : Prop :=
  forall b, Block.blank P U b ->
    Block.blank P U (f b) /\ Block.idx (f b) = Block.idx b /\ Block.eraseCount (f b) = Block.eraseCount b.

Lemma keeps_written tick f : keeps_blank f -> keeps_blank (fun b => f (Block.setLastWrittenTime tick b)).
Proof.
  intros Hf b Hb. destruct (Hf (Block.setLastWrittenTime tick b)) as (? & ? & ?); [|done].
  by apply (Block.blank_meta P U b).
Qed.

Lemma takeFree_ok X E view put prepare dup empty idx s :
  pool_lens view put -> keeps_blank prepare -> wfc X (core s) ->
  nFree (view (core s)) = vlen (free (view (core s))) -> 0 <= idx < W ->
  (nFree (view (core s)) = 0 -> E (Panic empty)) ->
  wpe E (takeFree view put prepare dup empty idx) (fun k s' => exists c' b,
    s' = with_core c' s /\ wfc X c' /\ taken view (core s) c' k b) s.
Proof.
  intros HL Hprep HW Hn Hidx HE. unfold takeFree. rewrite (proj2 (Z.leb_gt _ _)) by lia.
  wp_step. wp_step. destruct (Z.ltb_spec 0 (nFree (view (core s)))) as [Hpos|Hz].
  2:{ apply wpe_fail, HE. pose proof (vlen_nonneg (free (view (core s)))). lia. }
  pose proof (find_free_spec idx (free (view (core s)))) as Hf.
  destruct (find_free idx (free (view (core s)))) as [[f rest]|].
  2:{ rewrite Hf in Hn. unfold vlen in Hn. simpl in Hn. lia. }
  destruct Hf as (l1 & l2 & Hf & ->). unfold Block.getBlockIndex.
  assert (f ∈ frees (core s)) as Hin.
  { destruct (pl_frees _ _ HL (core s)) as (f1 & f2 & -> & _). rewrite Hf. set_solver. }
  destruct (wc_free _ _ HW f Hin) as (Hr & Hbf & Hnone).
  wp_step. apply wpe_hasB. rewrite Hnone, bool_decide_eq_false_2 by (by intros [? ?]).
  wp_step. unfold putB. wp_step. wp_step. wp_step. wp_step.
  eapply wpe_updB; [simpl; apply lookup_insert_eq|]. wp_step. wp_step. wp_step. wp_step. simpl.
  rewrite insert_insert_eq.
  set (b := prepare _). destruct (keeps_written (getTick (dev s)) _ Hprep f Hbf) as (Hb1 & Hb2 & Hb3).
  destruct (step_take X view put (core s) l1 f l2 b HW HL Hn Hf Hb2 Hb1 Hb3) as [HW' HT].
  eexists _, b. split; [|split; [exact HW' | exact HT]]. by destruct s.
Qed.

Lemma getFreeBlock_ok X E idx s :
  hotColdSeperation conf = 0 -> wfc X (core s) -> 0 <= idx < W ->
  (nFree (plainPool (core s)) = 0 -> E (Panic "No free block left")) ->
  wpe E (getFreeBlock idx) (fun k s' => exists c' b,
    s' = with_core c' s /\ wfc X c' /\ taken plainPool (core s) c' k b) s.
Proof.
  intros Hhc HW Hidx HE. apply takeFree_ok; try done.
  - apply plain_lens.
  - intros b Hb. split; [|done]. by apply (Block.blank_meta P U b).
  - by apply (co_plain _ (wc_counts _ _ HW)).
Qed.

(** ** The open blocks *)

(** Room for one more unit in every slot. *)
Definition open_block (b : Block.t) : Prop := forall i, 0 <= i < U -> Block.nextAt b i < P.

Lemma blank_open b : Block.blank P U b -> open_block b.
Proof. intros Hb i Hi. rewrite (Block.bl_next _ _ _ Hb). pose proof geo_P. lia. Qed.

Lemma next_page_ok E k b (Q : Z -> t D -> Prop) s X :
  wfc X (core s) -> blocks (core s) !! k = Some b ->
  (forall r, (r = P \/ open_block b) -> (r = P -> ~ open_block b) -> Q r s) ->
  wpe E (readB k Block.getNextWritePageIndex) Q s.
Proof.
  intros HW Hb HQ. destruct (wc_blocks _ _ HW k b Hb) as (_ & _ & Hinv).
  apply (wpe_readB _ _ b); [done|].
  eapply wpr_mono; [apply (Block.getNextWritePageIndex_spec P U), Hinv|].
  intros r Hmax. destruct (Block.max_next_full P U b r Hinv Hmax) as [Hr Hne]. apply HQ.
  - destruct (decide (r = P)); [by left | right; exact (Hne ltac:(done))].
  - intros -> Hopen. destruct Hmax as [_ [Hz|(i & Hi & Hni)]]; [pose proof geo_P; lia|].
    specialize (Hopen i Hi). lia.
Qed.

(** What [getLastFreeBlock] does: the cursor moves, and its block is replaced
    when it is full. *)
Record advanced s (k : Z) s' : Prop := {
  ad_state : exists c' cur' more, s' = with_core c' (with_plainCur cur' (with_reclaimMore more s));
  ad_cur : wfcur (plainCur s');
  ad_k : vget (lastFreeBlock (plainCur s')) (lastFreeBlockIndex (plainCur s')) = Some k;
  ad_block : exists b, blocks (core s') !! k = Some b /\ open_block b;
  ad_case :
    (core s' = core s /\ lastFreeBlock (plainCur s') = lastFreeBlock (plainCur s) /\
     bReclaimMore s' = bReclaimMore s) \/
    (exists k0 b0 b, vget (lastFreeBlock (plainCur s)) (lastFreeBlockIndex (plainCur s')) = Some k0 /\
       blocks (core s) !! k0 = Some b0 /\ ~ open_block b0 /\
       taken plainPool (core s) (core s') k b /\
       lastFreeBlock (plainCur s') =
         vset (lastFreeBlock (plainCur s)) (lastFreeBlockIndex (plainCur s')) k /\
       bReclaimMore s' = true);
}.

(** The failures an allocation of the plain mode can have. *)
Definition alloc_error (e : err) : Prop :=
  e = Panic "Corrupted" \/ e = Panic "No free block left".

Lemma getLastFreeBlock_ok X E iomap s :
  hotColdSeperation conf = 0 ->
  wfc X (core s) -> wfcur (plainCur s) -> Bitset.wf U iomap ->
  (forall j k, vget (lastFreeBlock (plainCur s)) j = Some k ->
     blocks (core s) !! k = None -> E (Panic "Corrupted")) ->
  (nFree (plainPool (core s)) = 0 -> E (Panic "No free block left")) ->
  wpe E (getLastFreeBlock iomap) (fun k s' => wfc X (core s') /\ advanced s k s') s.
Proof.
  intros Hhc HW Hc Hio HEc HEn. unfold getLastFreeBlock, getLast. wp_step. wp_step. wp_step.
  set (c := plainCur s) in *. pose proof geo_W as HWp.
  enough (forall cur', lastFreeBlock cur' = lastFreeBlock c -> wfcur cur' ->
    wpe E (c ← gets plainCur;
           k ← lift (get_at (lastFreeBlock c) (lastFreeBlockIndex c));
           found ← hasB k;
           if found : bool then
             nextPage ← readB k Block.getNextWritePageIndex;
             when (nextPage =? P)
               (k' ← getFreeBlock (lastFreeBlockIndex c);
                c ← gets plainCur;
                l ← lift (set_at (lastFreeBlock c) (lastFreeBlockIndex c) k');
                modify (with_plainCur (mkCursor l (lastFreeBlockIOMap c) (lastFreeBlockIndex c)));;
                modify (with_reclaimMore true));;
             c ← gets plainCur;
             lift (get_at (lastFreeBlock c) (lastFreeBlockIndex c))
           else mpanic "Corrupted")
      (fun k s' => wfc X (core s') /\ advanced s k s') (with_plainCur cur' s)) as Hrest.
  { assert (forall hit : bool, wpe E
      (if hit then
         modify (with_plainCur (mkCursor (lastFreeBlock c) (Bitset.copy iomap)
           (if u32 (lastFreeBlockIndex c + 1) =? W then 0 else u32 (lastFreeBlockIndex c + 1))))
       else
         m ← lift (Bitset.or_assign (lastFreeBlockIOMap c) iomap);
         modify (with_plainCur (mkCursor (lastFreeBlock c) m (lastFreeBlockIndex c))))
      (fun _ s' => exists cur', lastFreeBlock cur' = lastFreeBlock c /\ wfcur cur' /\
                                s' = with_plainCur cur' s) s) as Hadv.
    { destruct Hc as [HL HI HM]. intros [].
      - wp_step. eexists. split; [|split; [|done]]; [done|]. split; simpl; [done | |].
        + rewrite u32_small by lia. destruct (Z.eqb_spec (lastFreeBlockIndex c + 1) W); lia.
        + by rewrite (Bitset.copy_spec U).
      - wp_step. wp_step. unfold Bitset.or_assign.
        eapply wpr_mono; [apply (Bitset.bitwise_spec U _ Z.lor orb); [intros; apply Z.lor_nonneg; auto | intros; apply Z.lor_spec | done | done | done]|].
        intros m [Hm _]. wp_step. eexists. split; [|split; [|done]]; [done|]. by split. }
    assert (forall Q : bool -> t D -> Prop, (forall hit, Q hit s) ->
      wpe E (if negb bRandomTweak then mret true
             else lift (m ← Bitset.and_op (lastFreeBlockIOMap c) iomap; Bitset.any m)) Q s) as Hhit.
    { intros Q HQ. destruct (negb bRandomTweak); [by wp_step|]. wp_step. wp_step.
      eapply wpr_mono; [apply (Bitset.and_spec U); [apply Hc | done]|]. intros m [Hm _].
      eapply wpr_mono; [by apply (Bitset.any_spec U)|]. auto. }
    apply Hhit. intros hit. wp_step. eapply wpe_mono; [apply Hadv|].
    intros _ s1 (cur' & Hl & Hc' & ->). by apply Hrest. }
  clear Hc. intros cur' Hl Hc'. wp_step. wp_step. simpl. wp_step. wp_step.
  destruct Hc' as [HL HI HM].
  destruct (vget_in_range (lastFreeBlock cur') (lastFreeBlockIndex cur')) as [k0 Hk0]; [lia|].
  rewrite (get_at_Some _ _ _ Hk0). simpl. wp_step. apply wpe_hasB. simpl.
  destruct (blocks (core s) !! k0) as [b0|] eqn:Hb0.
  2:{ rewrite bool_decide_eq_false_2 by (by intros [? ?]).
      apply wpe_fail, (HEc (lastFreeBlockIndex cur') k0); [by rewrite <- Hl | done]. }
  rewrite bool_decide_eq_true_2 by eauto. wp_step.
  apply (next_page_ok E k0 b0 _ _ X); [done | done|]. intros r Hr Hfull. wp_step. wp_step.
  - wp_step. breflect. subst r.
    eapply wpe_mono; [by apply (getFreeBlock_ok X)|]. intros k s1 (c' & b & -> & HW' & HT).
    wp_step. wp_step. simpl. wp_step. wp_step. rewrite set_at_range by lia. wp_step. wp_step. wp_step.
    wp_step. wp_step. simpl. wp_step.
    rewrite (get_at_Some _ _ k) by (simpl; apply vget_vset_eq; lia). wp_step. simpl.
    split; [done|]. split; simpl.
    + by eexists _, _, _.
    + split; simpl; [by rewrite vlen_vset | done | done].
    + apply vget_vset_eq. lia.
    + exists b. rewrite (tk_blocks _ _ _ _ _ HT), lookup_insert_eq. split; [done|].
      apply blank_open, HT.
    + right. exists k0, b0, b. change (plainCur s) with c. rewrite <- Hl. split_and!; auto.
  - breflect. wp_step. wp_step. wp_step. simpl. rewrite (get_at_Some _ _ _ Hk0). simpl.
    destruct Hr as [|Hopen]; [done|].
    split; [done|]. split; simpl; try done.
    + exists (core s), cur', (bReclaimMore s). by destruct s.
    + eauto.
    + by left.
Qed.
End AllocProof.
