(* ===== verification/PmWriteProof.v ===== *)
(** * Reads, writes and trims of one logical page

    The postconditions of [readInternal], the storing half of [writeInternal]
    and [trimInternal] in the plain mode: the invariant is kept, and the set of
    live units changes as the operation says. *)

From S2P Require Import Prelude Bitset Block Float32 Types PmState PmRefresh PmAlloc PmGc.
From S2P Require Import PmWrite PmInv PmRefreshProof PmAllocProof.

Section WriteProof.
  Context {D : Type} `{DeviceLaws D} `{StdOrder} `{Geometry}.
  Implicit Types (s : t D) (E : err -> Prop) (X : gset (Z * Z)).

Notation N := (totalPhysicalBlocks param).
Notation P := (pagesInBlock param).
Notation U := (ioUnitInPage param).

(** ** Devices, flags and sizes *)

Lemma wpe_onDev E (f : D -> res (Z * D)) tick (Q : Z -> t D -> Prop) s :
  (forall d, exists t' d', f d = Ok (t', d') /\ tick <= t') ->
  (forall t' d', tick <= t' -> Q t' (with_dev d' s)) -> wpe E (onDev f) Q s.
Proof.
  intros Hf HQ. unfold onDev. apply wpe_zoom. destruct (Hf (dev s)) as (t' & d' & Heq & Hle).
  unfold wpe. rewrite Heq. by apply HQ.
Qed.

Lemma wpe_latency E f tick (Q : Z -> t D -> Prop) s :
  (forall t' d', Q t' (with_dev d' s)) -> wpe E (latency f tick) Q s.
Proof.
  intros HQ. unfold latency. wp_step. eapply (wpe_onDev _ _ 0); [intros d; apply applyLatency_ok|].
  intros t' d' _. by wp_step.
Qed.

Lemma units_bound : 0 < bitsetSize <= U.
Proof. pose proof geo_U. unfold bitsetSize. destruct bRandomTweak; lia. Qed.

Lemma unitFlag_ok E io idx : Bitset.wf U io -> 0 <= idx < bitsetSize ->
  wpr E (unitFlag io idx) (Bitset.wf U).
Proof.
  intros Hio Hidx. pose proof units_bound. unfold unitFlag. destruct bRandomTweak.
  - wp_step. eapply wpr_mono; [by apply (Bitset.reset_all_spec U)|]. intros m [Hm _].
    eapply wpr_mono; [apply (Bitset.set_spec U); [done | lia]|]. by intros m' [? _].
  - eapply wpr_mono; [by apply (Bitset.set_all_spec U)|]. by intros m' [? _].
Qed.

Lemma mappingBytes_ok E io : Bitset.wf U io -> wpr E (mappingBytes io) (fun _ => True).
Proof.
  intros Hio. unfold mappingBytes. destruct bRandomTweak; [|done]. wp_step.
  eapply wpr_mono; [by apply (Bitset.count_spec U)|]. done.
Qed.

(** The units a request selects. *)
Definition selected (io : Bitset.t) (i : Z) : bool := Bitset.bit io i || negb bRandomTweak.

Lemma unit_selected_ok io i : Bitset.wf U io -> 0 <= i < bitsetSize ->
  unit_selected io i = Ok (selected io i).
Proof.
  intros Hio Hi. pose proof units_bound. unfold unit_selected.
  by rewrite (Bitset.test_spec U) by (done || lia).
Qed.

(** ** Table accessors *)

Lemma wpe_findT E l (Q : option (list (Z * Z)) -> t D -> Prop) s :
  Q (table (core s) !! l) s -> wpe E (findT l) Q s.
Proof. intros HQ. unfold findT. by wp_step. Qed.

Lemma wpe_getMapping E l i row m (Q : Z * Z -> t D -> Prop) s :
  table (core s) !! l = Some row -> vget row i = Some m -> Q m s -> wpe E (getMapping l i) Q s.
Proof.
  intros Hrow Hm HQ. unfold getMapping. wp_step. apply wpe_findT. rewrite Hrow. wp_step.
  by rewrite (get_at_Some _ _ _ Hm).
Qed.

Lemma wpe_setMapping E l i row m p (Q : unit -> t D -> Prop) s :
  table (core s) !! l = Some row -> vget row i = Some m ->
  Q tt (with_core (core_table (<[l := vset row i p]> (table (core s))) (core s)) s) ->
  wpe E (setMapping l i p) Q s.
Proof.
  intros Hrow Hm HQ. unfold setMapping. wp_step. apply wpe_findT. rewrite Hrow. wp_step. wp_step.
  rewrite set_at_range by (by eapply vget_Some_range). simpl. unfold putT. by wp_step.
Qed.

(** ** The units of a page in transit *)

Definition transit (l : Z) (f : Z -> bool) (lo hi : Z) : gset (Z * Z) :=
  list_to_set ((fun i => (l, i)) <$> filter (fun i => f i = true) (seqZ lo (hi - lo))).

Lemma elem_of_transit l f lo hi l' i :
  (l', i) ∈ transit l f lo hi <-> l' = l /\ lo <= i < hi /\ f i = true.
Proof.
  unfold transit. rewrite elem_of_list_to_set, list_elem_of_fmap. split.
  - intros (j & [= -> ->] & Hj). apply list_elem_of_filter in Hj as [Hf Hj%elem_of_seqZ].
    split_and!; [done | lia | lia | done].
  - intros (-> & Hi & Hf). exists i. split; [done|]. apply list_elem_of_filter.
    split; [done|]. apply elem_of_seqZ. lia.
Qed.

Lemma transit_empty l f lo : transit l f lo lo = ∅.
Proof. apply set_eq. intros [l' i]. rewrite elem_of_transit. set_solver by lia. Qed.

Lemma transit_snoc l f n : 0 <= n ->
  transit l f 0 (n + 1) = if f n then {[(l, n)]} ∪ transit l f 0 n else transit l f 0 n.
Proof.
  intros Hn. apply set_eq. intros [l' i]. destruct (f n) eqn:Hf.
  - rewrite elem_of_union, elem_of_singleton, !elem_of_transit. split.
    + intros (-> & Hi & Hfi). destruct (decide (i = n)) as [->|]; [by left|]. right. split_and!; lia || done.
    + intros [[= -> ->]|(-> & Hi & Hfi)]; split_and!; lia || done.
  - rewrite !elem_of_transit. split; intros (-> & Hi & Hfi); split_and!; try lia; try done.
    destruct (decide (i = n)) as [->|]; [congruence | lia].
Qed.

Lemma transit_uncons l f lo hi : lo < hi ->
  transit l f (lo + 1) hi = if f lo then transit l f lo hi ∖ {[(l, lo)]} else transit l f lo hi.
Proof.
  intros Hlt. apply set_eq. intros [l' i]. destruct (f lo) eqn:Hf.
  - rewrite elem_of_difference, elem_of_singleton, !elem_of_transit. split.
    + intros (-> & Hi & Hfi). split_and!; try lia; try done. intros [= ->]. lia.
    + intros [(-> & Hi & Hfi) Hne]. split_and!; try lia; try done.
      destruct (decide (i = lo)) as [->|]; [done | lia].
  - rewrite !elem_of_transit. split; intros (-> & Hi & Hfi); split_and!; try lia; try done.
    destruct (decide (i = lo)) as [->|]; [congruence | lia].
Qed.

(** ** Invalidation *)

Lemma is_mapped_spec m : is_mapped m = true <-> m.1 < N /\ m.2 < P.
Proof. unfold is_mapped. rewrite andb_true_iff, !Z.ltb_lt. done. Qed.

Lemma unmapped_not_mapped : is_mapped unmapped = false.
Proof. unfold is_mapped, unmapped. simpl. by rewrite (proj2 (Z.ltb_ge _ _)) by lia. Qed.

Lemma invalidate_unit X E l i row m s :
  wfc X (core s) -> table (core s) !! l = Some row -> vget row i = Some m -> (l, i) ∉ X ->
  m <> unmapped ->
  wpe E (updB m.1 (fun b => Block.invalidate b m.2 i)) (fun _ s' => exists b',
    s' = with_core (core_blocks (<[m.1 := b']> (blocks (core s))) (core s)) s /\
    (exists b, blocks (core s) !! m.1 = Some b /\ Block.invalidated b m.2 i b') /\
    wfc ({[(l, i)]} ∪ X) (core s')) s.
Proof.
  intros HW Hrow Hm HX Hne. destruct m as [k p]. simpl in *.
  destruct (wc_entry _ _ HW l row i _ Hrow Hm HX) as [|(b & Hb & Hp & Hv & Hl)]; [done|]. simpl in *.
  destruct (wc_blocks _ _ HW k b Hb) as (_ & _ & Hinv).
  destruct (valid_page _ _ HW k b p i Hb Hv) as [_ Hi].
  apply (wpe_updB _ _ b); [done|].
  eapply wpr_mono; [by apply (Block.invalidate_inv_spec P U)|]. intros b' [Hinv' Hiv].
  exists b'. split; [done|]. split; [by exists b|]. by eapply step_invalidate.
Qed.

(** Invalidate the selected units of a row, as [writeInternal] does. *)
Definition invalidateUnits (req : Request) : M (t D) (option Z) :=
  for_units (fun idx last =>
    sel ← lift (unit_selected (ioFlag req) idx);
    if sel : bool then
      mapping ← getMapping (lpn req) idx;
      if is_mapped mapping then
        updB mapping.1 (fun b => Block.invalidate b mapping.2 idx);; mret (Some mapping.1)
      else mret last
    else mret last) None.

(** [s'] differs from [s] in its blocks only: the same blocks are in use, with
    the same write pointers. *)
Definition same_pointers (bs bs' : gmap Z Block.t) : Prop :=
  forall k, (bs' !! k = None <-> bs !! k = None) /\
    forall b b', bs !! k = Some b -> bs' !! k = Some b' ->
      forall i, Block.nextAt b' i = Block.nextAt b i.
Definition blocks_only s s' : Prop :=
  exists bs, s' = with_core (core_blocks bs (core s)) s /\ same_pointers (blocks (core s)) bs.

Lemma same_pointers_refl bs : same_pointers bs bs.
Proof. intros k. split; [done|]. by intros; simplify_eq. Qed.

Lemma same_pointers_trans bs1 bs2 bs3 :
  same_pointers bs1 bs2 -> same_pointers bs2 bs3 -> same_pointers bs1 bs3.
Proof.
  intros H12 H23 k. destruct (H12 k) as [Hd Hp], (H23 k) as [Hd' Hp']. split; [by rewrite Hd'|].
  intros b b' Hb Hb' i. destruct (bs2 !! k) as [b2|] eqn:Hb2.
  - by rewrite (Hp' b2 b'), (Hp b b2).
  - by rewrite (proj1 Hd eq_refl) in Hb.
Qed.

Lemma blocks_only_refl s : blocks_only s s.
Proof.
  exists (blocks (core s)). split; [by destruct s as [[]]|]. apply same_pointers_refl.
Qed.

Lemma same_pointers_insert bs bs' k b b' :
  same_pointers bs bs' -> bs' !! k = Some b -> (forall i, Block.nextAt b' i = Block.nextAt b i) ->
  same_pointers bs (<[k := b']> bs').
Proof.
  intros Hs Hb Hn k'. destruct (Hs k') as [Hdom Hnext]. destruct (decide (k' = k)) as [->|Hne].
  - rewrite lookup_insert_eq. split.
    + split; [done|]. intros Hnone. apply Hdom in Hnone. congruence.
    + intros d d' Hd [= <-] i. rewrite Hn. by apply Hnext.
  - by rewrite lookup_insert_ne by done.
Qed.

Lemma invalidateUnits_ok E req row s :
  wfc ∅ (core s) -> Bitset.wf U (ioFlag req) -> table (core s) !! lpn req = Some row ->
  wpe E (invalidateUnits req) (fun _ s' => blocks_only s s' /\
    wfc (transit (lpn req) (selected (ioFlag req)) 0 bitsetSize) (core s')) s.
Proof.
  intros HW Hio Hrow. pose proof units_bound as HS. unfold invalidateUnits, for_units.
  apply wpe_for_range with (I := fun i _ s' => blocks_only s s' /\
    wfc (transit (lpn req) (selected (ioFlag req)) 0 i) (core s')); [lia | | | done].
  { rewrite transit_empty. split; [apply blocks_only_refl | done]. }
  intros i last s1 Hi [(bs & -> & Hbs) HW1]. wp_step. wp_step. rewrite unit_selected_ok by done. simpl.
  rewrite transit_snoc by lia.
  destruct (selected (ioFlag req) i) eqn:Hsel; [|by wp_step; split; [by exists bs|]].
  destruct (row_get _ _ HW _ _ i Hrow Hi) as [m Hm].
  wp_step. eapply wpe_getMapping; [exact Hrow | exact Hm|].
  assert ((lpn req, i) ∉ transit (lpn req) (selected (ioFlag req)) 0 i) as Hnot
    by (rewrite elem_of_transit; lia).
  destruct (is_mapped m) eqn:Hmap.
  - wp_step. eapply wpe_mono.
    + eapply invalidate_unit; [exact HW1 | exact Hrow | exact Hm | done |].
      intros ->. by rewrite unmapped_not_mapped in Hmap.
    + intros _ s2 (b' & -> & (b & Hb & Hiv) & HW2). wp_step. split; [|exact HW2].
      eexists. split; [done|]. eapply same_pointers_insert; [done | exact Hb | apply Hiv].
  - wp_step. split; [by exists bs|]. apply step_transit; [done|]. intros row' m' Hrow' Hm'.
    simpl in Hrow'. rewrite Hrow in Hrow'. injection Hrow' as <-. rewrite Hm in Hm'. injection Hm' as <-.
    destruct (wc_entry _ _ HW1 (lpn req) row i m Hrow Hm Hnot) as [|Hh]; [done|].
    apply holds_mapped with (X := transit (lpn req) (selected (ioFlag req)) 0 i) in Hh; [|done].
    apply is_mapped_spec in Hh. congruence.
Qed.

(** ** Placement *)

Lemma nextAt_read E k b i (Q : Z -> t D -> Prop) s X :
  wfc X (core s) -> blocks (core s) !! k = Some b -> 0 <= i < U ->
  Q (Block.nextAt b i) s ->
  wpe E (readB k (fun b => Block.getNextWritePageIndexAt b i)) Q s.
Proof.
  intros HW Hb Hi HQ. apply (wpe_readB _ _ b); [done|]. unfold Block.getNextWritePageIndexAt.
  destruct (wc_blocks _ _ HW k b Hb) as (_ & _ & Hinv).
  by rewrite (get_raw_Some _ _ _ (Block.next_get P U b i (Block.inv_wf _ _ _ Hinv) Hi)).
Qed.

(** Appending a unit in transit to an open block and mapping it. *)
Lemma append_unit X E c k b l i row tick :
  wfc X c -> blocks c !! k = Some b -> Block.nextAt b i < P -> 0 <= i < bitsetSize ->
  table c !! l = Some row -> (l, i) ∈ X ->
  wpr E (Block.write b (Block.nextAt b i) l i tick) (fun r =>
    Block.written b (Block.nextAt b i) i l tick r.2 /\ 0 <= Block.nextAt b i < P /\
    Block.validAt b (Block.nextAt b i) i = false /\
    wfc (X ∖ {[(l, i)]})
      (core_table (<[l := vset row i (k, Block.nextAt b i)]> (table c))
                  (core_blocks (<[k := r.2]> (blocks c)) c))).
Proof.
  intros HW Hb Hn Hi Hrow HX. pose proof units_bound.
  destruct (wc_blocks _ _ HW k b Hb) as (_ & _ & Hinv).
  pose proof (Block.inv_next _ _ _ Hinv i ltac:(lia)).
  assert (Block.validAt b (Block.nextAt b i) i = false) as Hnv.
  { pose proof (Block.inv_erased _ _ _ Hinv (Block.nextAt b i) i ltac:(lia) ltac:(lia)) as He.
    destruct (Block.validAt b (Block.nextAt b i) i) eqn:Hv; [|done].
    apply (Block.inv_valid _ _ _ Hinv) in Hv. congruence. }
  eapply wpr_mono; [apply (Block.append_spec P U); [done | lia | done]|].
  intros [r b'] (_ & Hinv' & Hw). simpl in *. split_and!; try lia; try done.
  eapply step_place; try done; lia.
Qed.

(** What the units already placed look like in the row. *)
Definition placed_row (dst : Z) (f : Z -> bool) (n : Z) (row row' : list (Z * Z)) : Prop :=
  forall j, 0 <= j < bitsetSize ->
    (j < n /\ f j = true -> exists p, vget row' j = Some (dst, p) /\ 0 <= p < P) /\
    (~ (j < n /\ f j = true) -> vget row' j = vget row j).

Record progress (req : Request) (dst n : Z) (row : list (Z * Z)) s s' : Prop := {
  pg_state : exists c r d, s' = with_dev d (with_refresh r (with_core c s));
  pg_pool : plainPool (core s') = plainPool (core s);
  pg_use : forall k, is_Some (blocks (core s) !! k) -> is_Some (blocks (core s') !! k);
  pg_wfr : wfr (refresh s');
  pg_wfc : wfc (transit (lpn req) (selected (ioFlag req)) n bitsetSize) (core s');
  pg_open : exists b, blocks (core s') !! dst = Some b /\
            forall j, n <= j < U -> Block.nextAt b j < P;
  pg_others : forall l, l <> lpn req -> table (core s') !! l = table (core s) !! l;
  pg_row : exists row', table (core s') !! lpn req = Some row' /\
           placed_row dst (selected (ioFlag req)) n row row';
}.

Lemma progress_skip req dst n row s s' : 0 <= n < bitsetSize ->
  selected (ioFlag req) n = false -> progress req dst n row s s' -> progress req dst (n + 1) row s s'.
Proof.
  intros Hn Hsel [Hs Hpl Hu Hr Hc (b & Hb & Ho) Hl (row' & Hrow' & Hp)]. split; try done.
  - rewrite transit_uncons by lia. by rewrite Hsel.
  - exists b. split; [done|]. intros j Hj. apply Ho. lia.
  - exists row'. split; [done|]. intros j Hj. destruct (Hp j Hj) as [Hj1 Hj2]. split.
    + intros [Hjn Hf]. apply Hj1. split; [|done]. destruct (decide (j = n)) as [->|]; [congruence | lia].
    + intros Hnot. apply Hj2. intros [? ?]. apply Hnot. split; [lia | done].
Qed.

Lemma progress_place req dst n row row' s c r d b b' tick s' :
  0 <= n < bitsetSize -> selected (ioFlag req) n = true ->
  progress req dst n row s (with_dev d (with_refresh r (with_core c s))) ->
  blocks c !! dst = Some b -> table c !! lpn req = Some row' ->
  Block.written b (Block.nextAt b n) n (lpn req) tick b' -> 0 <= Block.nextAt b n < P ->
  let c' := core_table (<[lpn req := vset row' n (dst, Block.nextAt b n)]> (table c))
              (core_blocks (<[dst := b']> (blocks c)) c) in
  wfc (transit (lpn req) (selected (ioFlag req)) n bitsetSize ∖ {[(lpn req, n)]}) c' ->
  (exists r' d', s' = with_dev d' (with_refresh r' (with_core c' s)) /\ wfr r') ->
  progress req dst (n + 1) row s s'.
Proof.
  intros Hn Hsel [_ Hpl Hu Hr Hc (b0 & Hb0 & Ho) Hl (row0 & Hrow0 & Hp)] Hb Hrow Hw Hnext c' HW (r' & d' & -> & Hr').
  pose proof units_bound. simpl in *. assert (row0 = row') as -> by congruence.
  assert (b0 = b) as -> by congruence.
  split; simpl; try done.
  - by exists c', r', d'.
  - intros k Hk. apply lookup_insert_is_Some'. right. by apply Hu.
  - rewrite transit_uncons by lia. by rewrite Hsel.
  - exists b'. rewrite lookup_insert_eq. split; [done|]. intros j Hj.
    rewrite (Block.wr_next _ _ _ _ _ _ Hw). rewrite decide_False by lia. apply Ho. lia.
  - intros l Hne. rewrite lookup_insert_ne by done. by apply Hl.
  - exists (vset row' n (dst, Block.nextAt b n)). rewrite lookup_insert_eq. split; [done|].
    assert (vlen row' = bitsetSize) as Hlen by (by eapply (wc_row _ _ Hc)).
    intros j Hj. rewrite vget_vset by lia. destruct (decide (n = j)) as [<-|Hne].
    + split; [by eauto | intros Hnot; exfalso; apply Hnot; split; [lia | done]].
    + destruct (Hp j Hj) as [Hj1 Hj2]. split.
      * intros [Hjn Hf]. apply Hj1. split; [lia | done].
      * intros Hnot. apply Hj2. intros [? ?]. apply Hnot. split; [lia | done].
Qed.

Lemma programUnits_ok E req dst row tick rd wr pred fin s :
  Bitset.wf U (ioFlag req) -> wfr (refresh s) ->
  wfc (transit (lpn req) (selected (ioFlag req)) 0 bitsetSize) (core s) ->
  (exists b, blocks (core s) !! dst = Some b /\ open_block b) ->
  table (core s) !! lpn req = Some row ->
  wpe E (programUnits req dst tick rd wr pred fin) (fun _ s' => progress req dst bitsetSize row s s') s.
Proof.
  intros Hio Hr HW (b & Hb & Ho) Hrow. pose proof units_bound as HS. unfold programUnits.
  wp_step.
  assert (forall Q : bool -> t D -> Prop, (forall x, Q x s) ->
    wpe E (if negb bRandomTweak then a ← lift (Bitset.all (ioFlag req)); mret (negb a) else mret false) Q s)
    as Hall.
  { intros Q HQ. destruct (negb bRandomTweak); [|by wp_step]. wp_step. wp_step.
    eapply wpr_mono; [by apply (Bitset.all_spec U)|]. intros a _. by wp_step. }
  apply Hall. clear Hall. intros before. cbv zeta. unfold for_units.
  apply wpe_for_range with (I := fun i _ s' => progress req dst i row s s'); [lia | | | done].
  { split; try done.
    - exists (core s), (refresh s), (dev s). by destruct s.
    - exists b. split; [done|]. intros j Hj. by apply Ho.
    - exists row. split; [done|]. intros j Hj. split; [lia | done]. }
  clear b Hb Ho. intros i finishedAt s1 Hi HP. wp_step. wp_step. rewrite unit_selected_ok by done. simpl.
  destruct (selected (ioFlag req) i) eqn:Hsel; [|wp_step; by apply progress_skip].
  pose proof HP as [(c1 & r1 & d1 & ->) Hpl1 Hu1 Hr1 HW1 (b & Hb & Ho) _ (row1 & Hrow1 & _)].
  simpl in Hr1, HW1, Hb, Hrow1.
  destruct (row_get _ _ HW1 _ _ i Hrow1 Hi) as [m Hm].
  wp_step. apply (nextAt_read _ _ b _ _ _ (transit (lpn req) (selected (ioFlag req)) i bitsetSize));
    [done | done | lia|].
  wp_step. eapply wpe_getMapping; [exact Hrow1 | exact Hm|].
  wp_step. apply (wpe_onB _ _ b); [done|].
  eapply wpr_mono.
  { apply (append_unit _ E c1 dst b (lpn req) i row1 tick HW1 Hb); [apply Ho; lia | lia | done |].
    apply elem_of_transit. split_and!; [done | lia | lia | done]. }
  intros [x b'] (Hw & Hnext & _ & HW2). simpl in Hw, HW2. simpl. set (p := Block.nextAt b i) in *.
  assert (forall (Q : Z -> t D -> Prop) s', (forall t' d', Q t' (with_dev d' s')) ->
    wpe E (if before && rd then
             io ← lift (Bitset.flip_all (Bitset.copy (ioFlag req)));
             onDev (pal_read (pal_at (PalRequest_of_ftl req) m.1 m.2 io) tick)
           else mret tick) Q s') as Hold.
  { intros Q s' HQ. destruct (before && rd); [|wp_step; specialize (HQ tick (dev s')); by destruct s'].
    wp_step. wp_step. rewrite (Bitset.copy_spec U) by done.
    eapply wpr_mono; [by apply (Bitset.flip_all_spec U)|]. intros io' _.
    eapply wpe_onDev; [intros; apply pal_read_ok|]. auto. }
  wp_step. apply Hold. clear Hold.
  intros beginAt d2. wp_step. eapply wpe_setMapping; [exact Hrow1 | exact Hm|]. simpl.
  assert (forall t' d', wpe E
    (when pred (eraseCount ← readB dst (fun b => Ok (Block.getEraseCount b));
                setRefreshPeriod eraseCount dst (p mod 64));; mret (Z.max finishedAt t'))
    (fun _ s' => progress req dst (i + 1) row s s')
    (with_dev d' (with_refresh r1 (with_core (core_table (<[lpn req := vset row1 i (dst, p)]> (table c1))
       (core_blocks (<[dst := b']> (blocks c1)) c1)) s)))) as Htail.
  { intros t' d'.
    assert (forall s', (exists r' d', s' = with_dev d' (with_refresh r' (with_core
        (core_table (<[lpn req := vset row1 i (dst, p)]> (table c1))
       (core_blocks (<[dst := b']> (blocks c1)) c1)) s)) /\ wfr r') -> progress req dst (i + 1) row s s') as Hfin
      by (intros; eapply progress_place; eauto).
    wp_step. wp_step.
    - wp_step. eapply (wpe_readB _ _ b'); [simpl; apply lookup_insert_eq|]. wp_step.
      eapply wpe_mono.
      { apply setRefreshPeriod_ok; [done | | apply Z.mod_pos_bound; lia].
        by apply (wc_blocks _ _ HW1 dst b). }
      intros u s3 (r3 & d3 & -> & Hr3). wp_step. apply Hfin. by exists r3, d3.
    - wp_step. apply Hfin. by exists r1, d'. }
  wp_step. destruct wr.
  - wp_step. wp_step. eapply wpr_mono; [by apply unitFlag_ok|]. intros io _.
    eapply wpe_onDev; [intros; apply pal_write_ok|]. intros t' d3 _. exact (Htail t' d3).
  - wp_step. exact (Htail beginAt d2).
Qed.

(** ** Storing the data of a request *)

(** The invariant of the plain mode between operations. *)
Record inv s : Prop := {
  in_core : wfc ∅ (core s);
  in_cur : wfcur (plainCur s);
  in_refresh : wfr (refresh s);
}.

(** The open blocks are distinct blocks in use. *)
Definition ready s : Prop :=
  NoDup (lastFreeBlock (plainCur s)) /\
  forall k, k ∈ lastFreeBlock (plainCur s) -> is_Some (blocks (core s) !! k).

Lemma advanced_ready s k s' : wfcur (plainCur s) -> advanced s k s' -> ready s ->
  ready s' /\ nFree (plainPool (core s)) - 1 <= nFree (plainPool (core s')).
Proof.
  intros Hc [_ Hc' Hk _ Hcase] [HND Huse].
  destruct Hcase as [(Hco & Hl & _)|(k0 & b0 & b & Hk0 & Hb0 & _ & HT & Hl & _)].
  - unfold ready. rewrite Hl, Hco. split; [done | lia].
  - unfold ready. rewrite Hl, (tk_count _ _ _ _ _ HT), (tk_blocks _ _ _ _ _ HT). split_and!; [| | lia].
    + apply vset_NoDup; [done|]. intros Hin%Huse. rewrite (tk_fresh _ _ _ _ _ HT) in Hin. by destruct Hin.
    + intros k' [Hin| ->]%elem_of_vset; apply lookup_insert_is_Some'; [right; by apply Huse | by left].
Qed.

Record stored (req : Request) s s' : Prop := {
  so_inv : inv s';
  so_others : forall l, l <> lpn req -> table (core s') !! l = table (core s) !! l;
  so_live : forall i, live (core s') (lpn req) i <->
            live (core s) (lpn req) i \/ (0 <= i < bitsetSize /\ selected (ioFlag req) i = true);
  so_row : table (core s') !! lpn req <> None;
  so_ready : ready s -> ready s' /\ nFree (plainPool (core s)) - 1 <= nFree (plainPool (core s'));
}.

Lemma sentinel_row : (u32 N, u32 P) = unmapped.
Proof. pose proof geo_N. pose proof geo_P. unfold unmapped. by rewrite !u32_small by lia. Qed.

Lemma transit_new l f c n : 0 <= n <= bitsetSize -> wfc ∅ c ->
  table c !! l = Some (replicate (Z.to_nat bitsetSize) unmapped) ->
  wfc (transit l f 0 n) c.
Proof.
  intros Hn HW Hrow. destruct Hn as [Hn _]. revert n Hn. apply natlike_ind; [by rewrite transit_empty|].
  intros n Hn IH. rewrite <- Z.add_1_r, transit_snoc by done. destruct (f n); [|done].
  apply step_transit; [done|]. intros row m Hr Hm%vget_elem_of. simplify_eq.
  by apply elem_of_replicate in Hm as [-> _].
Qed.

Lemma live_row c l row i : table c !! l = Some row ->
  (live c l i <-> exists m, vget row i = Some m /\ m.1 < N /\ m.2 < P).
Proof.
  intros Hrow. split.
  - intros (row' & m & Hrow' & Hm & Hlt). simplify_eq. eauto.
  - intros (m & Hm & Hlt). exists row, m. done.
Qed.

(** The first half of a write, with the row the second half starts from. *)
Lemma invalidateOld_ok E req s :
  wfc ∅ (core s) -> Bitset.wf U (ioFlag req) ->
  wpe E (invalidateOld req) (fun _ s' => exists row bs tb,
    s' = with_core (core_table tb (core_blocks bs (core s))) s /\
    same_pointers (blocks (core s)) bs /\
    wfc (transit (lpn req) (selected (ioFlag req)) 0 bitsetSize) (core s') /\
    table (core s') !! lpn req = Some row /\
    (forall l, l <> lpn req -> table (core s') !! l = table (core s) !! l) /\
    (forall i, live (core s') (lpn req) i <-> live (core s) (lpn req) i)) s.
Proof.
  intros HW Hio. unfold invalidateOld. pose proof units_bound as HS. wp_step. apply wpe_findT.
  destruct (table (core s) !! lpn req) as [row|] eqn:Hrow.
  - wp_step. eapply wpe_mono; [by eapply invalidateUnits_ok|].
    intros last s' [(bs & -> & Hbs) HW']. wp_step. exists row, bs, (table (core s)).
    split_and!; try done.
  - wp_step. unfold putT. wp_step. wp_step. rewrite sentinel_row.
    eexists _, (blocks (core s)), _. split; [|split].
    + by destruct s as [[]].
    + apply same_pointers_refl.
    + simpl. split_and!.
      * apply transit_new; [lia | | simpl; apply lookup_insert_eq]. apply step_new_row; [done | lia | done].
      * apply lookup_insert_eq.
      * intros l Hne. by rewrite lookup_insert_ne.
      * intros i. rewrite (live_row _ _ (replicate (Z.to_nat bitsetSize) unmapped))
          by (simpl; apply lookup_insert_eq). split.
        -- intros (m & Hm%vget_elem_of & Hlt1 & Hlt2). apply elem_of_replicate in Hm as [-> _].
           simpl in *. lia.
        -- intros (row & m & Hr & _). congruence.
Qed.

Lemma storeData_ok E req tick send s :
  hotColdSeperation conf = 0 -> inv s -> Bitset.wf U (ioFlag req) ->
  (forall j k, vget (lastFreeBlock (plainCur s)) j = Some k ->
     blocks (core s) !! k = None -> E (Panic "Corrupted")) ->
  (nFree (plainPool (core s)) = 0 -> E (Panic "No free block left")) ->
  wpe E (storeData req tick send) (fun _ s' => stored req s s') s.
Proof.
  intros Hhc [HW Hc Hr] Hio HEc HEn. unfold storeData. wp_step.
  eapply wpe_mono; [by apply invalidateOld_ok|].
  intros _ s1 (row & bs & tb & -> & Hbs & HW1 & Hrow1 & Hoth1 & Hlive1). wp_step.
  eapply wpe_mono.
  { eapply getLastFreeBlock_ok; [done | exact HW1 | done | done | | done].
    intros j k Hk Hnone. apply (HEc j k Hk). by apply (Hbs k). }
  intros dst s2 [HW2 Had].
  assert (ready s -> ready s2 /\ nFree (plainPool (core s)) - 1 <= nFree (plainPool (core s2))) as Hready.
  { intros [HND Huse]. eapply advanced_ready in Had; [done | done|]. split; [done|].
    intros k Hk%Huse. simpl. destruct (bs !! k) eqn:Hbk; [done|]. apply (Hbs k) in Hbk. by rewrite Hbk in Hk. }
  destruct Had as [(c2 & cur2 & more & ->) Hcur2 _ Hopen Hcase]. simpl in *.
  assert (table c2 = tb) as Htb.
  { destruct Hcase as [[-> _]|(k0 & b0 & b & _ & _ & _ & HT & _)]; [done | apply HT]. }
  wp_step. apply wpe_hasB. simpl. destruct Hopen as (b & Hb & Ho). rewrite Hb.
  rewrite bool_decide_eq_true_2 by eauto. wp_step.
  assert (forall (Q : Z -> t D -> Prop) s', (forall t' d', Q t' (with_dev d' s')) ->
            wpe E (accessMapping req send tick) Q s') as Hacc.
  { intros Q s' HQ. unfold accessMapping. destruct send; [|wp_step; specialize (HQ tick (dev s')); by destruct s'].
    wp_step. wp_step. eapply wpr_mono; [by apply mappingBytes_ok|]. intros n _. wp_step.
    eapply wpe_onDev; [intros; apply dram_read_ok|]. intros t1 d1 _.
    eapply wpe_onDev; [intros; apply dram_write_ok|]. intros t2 d2 _. exact (HQ t2 d2). }
  apply Hacc. intros t' d'. wp_step. eapply wpe_mono.
  { apply (programUnits_ok E req dst row); [done | done | exact HW2 | simpl; eauto|]. simpl. by rewrite Htb. }
  intros fin s3 [(c3 & r3 & d3 & ->) Hpl3 Hu3 Hr3 HW3 _ Hoth3 (row3 & Hrow3 & Hp3)]. simpl in *.
  unfold finishWrite.
  assert (forall d'', stored req s (with_dev d'' (with_dev d3 (with_refresh r3 (with_core c3
    (with_dev d' (with_core c2 (with_plainCur cur2 (with_reclaimMore more
    (with_core (core_table tb (core_blocks bs (core s))) s)))))))))) as Hfin.
  { rewrite transit_empty in HW3. intros d''. split; [by split| | |simpl; by rewrite Hrow3|].
    3:{ intros [[HND Huse] Hn]%Hready. unfold ready. simpl in *. rewrite Hpl3. split; [split; [done|]|done].
        intros k Hk. by apply Hu3, Huse. }
    - intros l Hne. simpl. rewrite Hoth3, Htb by done. by apply Hoth1.
    - intros i. simpl. rewrite <- Hlive1, (live_row _ _ _ _ Hrow3), (live_row (core_table tb (core_blocks bs (core s))) _ _ _ Hrow1).
      destruct (decide (0 <= i < bitsetSize)) as [Hi|Hi].
      + destruct (Hp3 i Hi) as [Hsel Hnsel]. destruct (selected (ioFlag req) i) eqn:Hs.
        * destruct Hsel as (p & Hg & Hp); [split; [lia | done]|].
          split; [by right|]. intros _. exists (dst, p). destruct (wc_blocks _ _ HW2 _ _ Hb) as [Hdst _]. split; [done | simpl; lia].
        * rewrite Hnsel by (intros [_ ?]; congruence). split; [by left | intros [|[_ ?]]; congruence || done].
      + assert (vlen row3 = bitsetSize) as Hl3 by (by eapply (wc_row _ _ HW3)).
        assert (vlen row = bitsetSize) as Hl1 by (by eapply (wc_row _ _ HW1)).
        split; [intros (m & Hm%vget_Some_range & _) | intros [(m & Hm%vget_Some_range & _)|[? _]]]; lia. }
  destruct send.
  - apply wpe_latency. intros tt' d''. apply Hfin.
  - wp_step. apply (Hfin d3).
Qed.

(** ** Trim *)

(** Every unit of page [l] has a physical page. *)
Definition fully_mapped (c : Core) (l : Z) : Prop := forall i, 0 <= i < bitsetSize -> live c l i.

Record trimmed (l : Z) s s' : Prop := {
  tm_inv : inv s';
  tm_table : table (core s') = delete l (table (core s));
  tm_pools : frees (core s') = frees (core s);
  tm_same : same_pointers (blocks (core s)) (blocks (core s'));
}.

Lemma live_invalidated c bs l i : live (core_blocks bs c) l i <-> live c l i.
Proof. done. Qed.

(** The loop of [trimInternal] over the units of a page (also in [format]). *)
Lemma trim_unit E l row i m s (Q : unit -> t D -> Prop) n :
  wfc (transit l (fun _ => true) 0 n) (core s) -> 0 <= n -> i = n -> n < bitsetSize ->
  table (core s) !! l = Some row -> vget row i = Some m ->
  (m = unmapped -> E (Panic "Block is not in use")) ->
  (forall b', m <> unmapped ->
     let s' := with_core (core_blocks (<[m.1 := b']> (blocks (core s))) (core s)) s in
     same_pointers (blocks (core s)) (<[m.1 := b']> (blocks (core s))) ->
     live (core s) l i -> wfc (transit l (fun _ => true) 0 (n + 1)) (core s') -> Q tt s') ->
  wpe E (found ← hasB m.1;
         if found : bool then updB m.1 (fun b => Block.invalidate b m.2 i)
         else mpanic "Block is not in use") Q s.
Proof.
  intros HW Hn -> Hlt Hrow Hm HE HQ.
  assert ((l, n) ∉ transit l (fun _ => true) 0 n) as Hnot by (rewrite elem_of_transit; lia).
  wp_step. apply wpe_hasB. destruct (wc_entry _ _ HW l row n m Hrow Hm Hnot) as [->|Hh].
  - assert (blocks (core s) !! unmapped.1 = None) as ->.
    { destruct (blocks (core s) !! unmapped.1) as [b|] eqn:Hb; [|done].
      destruct (wc_blocks _ _ HW _ _ Hb). simpl in *. lia. }
    rewrite bool_decide_eq_false_2 by (by intros [? ?]). by apply wpe_fail, HE.
  - assert (m <> unmapped) as Hne.
    { intros ->. destruct Hh as (b & Hb & _). destruct (wc_blocks _ _ HW _ _ Hb). simpl in *. lia. }
    pose proof (holds_mapped _ _ HW _ _ _ Hh) as Hmap.
    destruct Hh as (b & Hb & _). rewrite Hb, bool_decide_eq_true_2 by eauto.
    eapply wpe_mono; [by eapply invalidate_unit|].
    intros [] s' (b' & -> & (b0 & Hb0 & Hiv) & HW'). apply HQ; [done | | by exists row, m |].
    + eapply same_pointers_insert; [|exact Hb0 | apply Hiv].
      apply same_pointers_refl.
    + rewrite transit_snoc by done. done.
Qed.

Lemma trimInternal_ok (E : err -> Prop) req tick s :
  inv s -> Bitset.wf U (ioFlag req) ->
  (is_Some (table (core s) !! lpn req) -> ~ fully_mapped (core s) (lpn req) ->
     E (Panic "Block is not in use")) ->
  wpe E (trimInternal req tick) (fun _ s' => trimmed (lpn req) s s' /\
    (is_Some (table (core s) !! lpn req) -> fully_mapped (core s) (lpn req))) s.
Proof.
  intros [HW Hc Hr] Hio HE. unfold trimInternal. pose proof units_bound as HS. wp_step. apply wpe_findT.
  destruct (table (core s) !! lpn req) as [row|] eqn:Hrow.
  2:{ wp_step. split; [|by intros [? ?]]. split; [done | by rewrite delete_id | done |].
      apply same_pointers_refl. }
  wp_step. wp_step. eapply wpr_mono; [by apply mappingBytes_ok|]. intros n _. wp_step.
  eapply wpe_onDev; [intros; apply dram_read_ok|]. intros t1 d1 _. wp_step. unfold for_units.
  apply wpe_for_range with (I := fun i _ s' =>
    (exists bs, s' = with_dev d1 (with_core (core_blocks bs (core s)) s) /\
                same_pointers (blocks (core s)) bs) /\
    wfc (transit (lpn req) (fun _ => true) 0 i) (core s') /\
    forall j, 0 <= j < i -> live (core s) (lpn req) j); [lia | | |].
  - rewrite transit_empty. split_and!; [|done | lia]. exists (blocks (core s)).
    split; [by destruct s as [[]]|]. apply same_pointers_refl.
  - intros i _ s1 Hi ((bs & -> & Hbs) & HW1 & Hl).
    destruct (row_get _ _ HW _ _ i Hrow Hi) as [m Hm].
    wp_step. eapply wpe_getMapping; [exact Hrow | exact Hm|].
    eapply (trim_unit _ _ _ _ _ _ _ i); [exact HW1 | lia | done | lia | exact Hrow | exact Hm | |].
    + intros ->. apply HE; [done|]. intros Hfull. destruct (Hfull i Hi) as (row' & m' & Hr' & Hm' & Hlt).
      rewrite Hrow in Hr'. injection Hr' as <-. rewrite Hm in Hm'. injection Hm' as <-. simpl in Hlt. lia.
    + intros b' Hne s' Hs' Hlive HW'. split_and!; [|exact HW'|].
      * eexists. split; [done|]. by eapply same_pointers_trans.
      * intros j Hj. destruct (decide (j = i)) as [->|]; [exact Hlive | apply Hl; lia].
  - intros _ s1 ((bs & -> & Hbs) & HW1 & Hl). wp_step. unfold eraseT. wp_step.
    apply wpe_latency. intros t2 d2. split.
    + split; simpl; try done. split; simpl; try done.
      apply (step_delete _ _ HW1 (lpn req)).
      * intros i Hi. apply elem_of_transit. done.
      * intros [l' i] Hx. by apply elem_of_transit in Hx as [-> _].
    + intros _. intros i Hi. by apply Hl.
Qed.

(** ** Read *)

(** Blocks that differ in [lastAccessed] only. *)
Definition touched (bs bs' : gmap Z Block.t) : Prop :=
  forall k, bs' !! k = bs !! k \/
    exists b x, bs !! k = Some b /\ bs' !! k = Some (Block.with_lastAccessed x b).

Lemma readInternal_ok E req tick s :
  inv s -> Bitset.wf U (ioFlag req) ->
  wpe E (readInternal req tick) (fun _ s' => inv s' /\ exists bs d,
    s' = with_dev d (with_core (core_blocks bs (core s)) s) /\ touched (blocks (core s)) bs) s.
Proof.
  intros [HW Hc Hr] Hio. unfold readInternal. pose proof units_bound as HS.
  assert (inv s /\ exists bs d, s = with_dev d (with_core (core_blocks bs (core s)) s) /\
            touched (blocks (core s)) bs) as Hrefl.
  { split; [by split|]. exists (blocks (core s)), (dev s). split; [by destruct s as [[]]|]. intros k. by left. }
  wp_step. apply wpe_findT. destruct (table (core s) !! lpn req) as [row|] eqn:Hrow; [|by wp_step].
  wp_step. wp_step. eapply wpr_mono; [by apply mappingBytes_ok|]. intros n _. wp_step.
  eapply wpe_onDev; [intros; apply dram_read_ok|]. intros t1 d1 _. wp_step. unfold for_units.
  apply wpe_for_range with (I := fun i _ s' => inv s' /\ exists bs d,
    s' = with_dev d (with_core (core_blocks bs (core s)) s) /\ touched (blocks (core s)) bs); [lia | | |].
  - destruct Hrefl as (_ & bs & d & Heq & Ht). split; [by split|].
    exists (blocks (core s)), d1. split; [by destruct s as [[]]|]. intros k. by left.
  - intros i fin s1 Hi (Hinv1 & bs & d & -> & Ht). wp_step. wp_step. rewrite unit_selected_ok by done.
    simpl. destruct (selected (ioFlag req) i); [|wp_step; split; [done | by exists bs, d]].
    destruct (row_get _ _ HW _ _ i Hrow Hi) as [m Hm].
    wp_step. eapply wpe_getMapping; [exact Hrow | exact Hm|].
    destruct (is_mapped m) eqn:Hmap; [|wp_step; split; [done | by exists bs, d]].
    wp_step. wp_step. unfold PalRequest_of_ftl. simpl. rewrite (Bitset.copy_spec U) by done.
    eapply wpr_mono; [by apply unitFlag_ok|]. intros io _.
    destruct Hinv1 as [HW1 Hc1 Hr1]. simpl in HW1.
    destruct (wc_entry _ _ HW1 (lpn req) row i m Hrow Hm) as [->|(b & Hb & Hp & Hv & Hl)];
      [set_solver | by rewrite unmapped_not_mapped in Hmap|].
    simpl in Hb. destruct (valid_page _ _ HW1 _ _ _ _ Hb Hv) as [_ HiU].
    destruct (wc_blocks _ _ HW1 _ _ Hb) as (_ & Hidx & Hinvb).
    wp_step. apply wpe_hasB. simpl. rewrite Hb, bool_decide_eq_true_2 by eauto. wp_step.
    eapply wpe_onB; [exact Hb|].
    rewrite (Block.read_spec P U) by (done || apply Hinvb). rewrite Hv. wp_step. simpl. wp_step.
    eapply wpe_onDev; [intros; apply pal_read_ok|]. intros t2 d2 _. wp_step. split.
    + split; simpl; try done. apply (step_meta _ _ HW1 _ b); try done. by apply Block.accessed_inv.
    + eexists _, d2. split; [done|]. intros k. destruct (decide (k = m.1)) as [->|Hne].
      * right. destruct (Ht m.1) as [Heq|(b0 & x & Hb0 & Hb1)].
        -- exists b, t1. rewrite lookup_insert_eq. by rewrite <- Heq.
        -- exists b0, t1. rewrite lookup_insert_eq. split; [done|].
           rewrite Hb in Hb1. by injection Hb1 as ->.
      * rewrite lookup_insert_ne by done. apply Ht.
  - intros fin s1 (Hinv1 & bs & d & -> & Ht). apply wpe_latency. intros t2 d2. split.
    + by destruct Hinv1; split.
    + by exists bs, d2.
Qed.
End WriteProof.
