(* ===== verification/PmGcProof.v ===== *)
(** * Garbage collection keeps the invariant and the live units

    [relocateUnit] and [relocatePage] (one superpage moved), [eraseInternal],
    and the body of the collector.  The lemmas are parametric in a predicate
    [Room] that says how many more superpages the open blocks and the pool can
    take: with a trivial [Room] they give the partial statement (allocation may
    fail), with the potential of [PmProgress] the total one. *)

From S2P Require Import Prelude Bitset Block Float32 Types PmState PmRefresh PmAlloc PmGc.
From S2P Require Import PmWrite PmInv PmRefreshProof PmAllocProof PmWriteProof.
From stdpp Require Import sorting.
From Stdlib Require Import Sorted.
#[local] Open Scope Z_scope.

Section GcProof.
  Context {D : Type} `{DeviceLaws D} `{StdOrder} `{Geometry}.
  Implicit Types (s : t D) (X : gset (Z * Z)).

Notation N := (totalPhysicalBlocks param).
Notation P := (pagesInBlock param).
Notation U := (ioUnitInPage param).

(** ** Moving one superpage *)

(** Setters that leave the pages of a block alone. *)
Definition keeps_pages (f : Block.t -> Block.t) : Prop :=
  forall b, Block.inv P U b ->
    Block.inv P U (f b) /\ Block.idx (f b) = Block.idx b /\
    (forall p i, Block.validAt (f b) p i = Block.validAt b p i) /\
    (forall p i, Block.lpnAt (f b) p i = Block.lpnAt b p i) /\
    (forall i, Block.nextAt (f b) i = Block.nextAt b i).

Lemma keeps_id : keeps_pages id.
Proof. by intros b Hb. Qed.

Lemma keeps_refreshed (f : Block.t -> Z) : keeps_pages (fun b => Block.setRefreshedPageCount (f b) b).
Proof. intros b Hb. split; [by apply (Block.inv_meta P U b) | done]. Qed.

(** One unit, [(page, i)] of [src], moved to the end of slot [i] of [dst]. *)
Record unit_step (src page dst i k : Z) (b b' : Block.t) : Prop := {
  us_next : forall j, Block.nextAt b' j = Block.nextAt b j + (if decide (k = dst /\ j = i) then 1 else 0);
  us_valid : forall p j, Block.validAt b' p j = true ->
    (Block.validAt b p j = true /\ ~ (k = src /\ p = page /\ j = i)) \/
    (k = dst /\ j = i /\ p = Block.nextAt b i);
  us_rest : forall p j, j <> i -> Block.validAt b' p j = Block.validAt b p j /\
    (0 <= j < U -> Block.lpnAt b' p j = Block.lpnAt b p j);
}.

(** After the units of superpage [page] of [src] below [n] went to [dst]. *)
Record block_progress (src page dst n : Z) (bit : Z -> bool) (k : Z) (b b' : Block.t) : Prop := {
  bp_next : forall j, 0 <= j < U -> Block.nextAt b' j =
    Block.nextAt b j + (if decide (k = dst /\ j < n /\ bit j = true) then 1 else 0);
  bp_valid : forall p j, Block.validAt b' p j = true ->
    (Block.validAt b p j = true /\ ~ (k = src /\ p = page /\ 0 <= j < n /\ bit j = true)) \/
    (k = dst /\ 0 <= j < n /\ bit j = true /\ p = Block.nextAt b j);
  bp_rest : forall p j, n <= j -> Block.validAt b' p j = Block.validAt b p j /\
    (0 <= j < U -> Block.lpnAt b' p j = Block.lpnAt b p j);
}.

Lemma block_progress_0 src page dst bit k b : block_progress src page dst 0 bit k b b.
Proof.
  split; [|intros p j Hv; left; split; [done | lia]|done].
  intros j Hj. rewrite decide_False by lia. lia.
Qed.

Lemma block_progress_skip src page dst n bit k b b' :
  bit n = false -> block_progress src page dst n bit k b b' -> block_progress src page dst (n + 1) bit k b b'.
Proof.
  intros Hbit [Hn Hv Hr]. assert (forall j, bit j = true -> j <> n) as Hne by (intros j Hj ->; congruence).
  split.
  - intros j Hj. rewrite Hn by done. f_equal.
    destruct (decide (k = dst /\ j < n /\ bit j = true)) as [(? & ? & Hb)|Hno].
    + rewrite decide_True; [done|]. split_and!; [done | lia | done].
    + rewrite decide_False; [done|]. intros (? & ? & Hb). pose proof (Hne j Hb). apply Hno. split_and!; [done | lia | done].
  - intros p j Hvj. destruct (Hv p j Hvj) as [[Ho Hs]|(? & ? & ? & ?)].
    + left. split; [done|]. intros (? & ? & ? & Hb). pose proof (Hne j Hb). apply Hs. split_and!; try done; lia.
    + right. split_and!; try done; lia.
  - intros p j Hj. apply Hr. lia.
Qed.

Lemma block_progress_step src page dst n bit k b b1 b2 :
  bit n = true -> 0 <= n < U -> block_progress src page dst n bit k b b1 ->
  unit_step src page dst n k b1 b2 -> block_progress src page dst (n + 1) bit k b b2.
Proof.
  intros Hbit HnU [Hn Hv Hr] [Hn' Hv' Hr']. split.
  - intros j Hj. rewrite Hn', Hn by done. destruct (decide (j = n)) as [->|Hne].
    + rewrite (decide_False (P := k = dst /\ n < n /\ bit n = true)) by lia.
      destruct (decide (k = dst)) as [->|].
      * rewrite !decide_True by (split_and!; try done; lia). lia.
      * rewrite !decide_False by naive_solver. lia.
    + rewrite (decide_False (P := k = dst /\ j = n)) by naive_solver. rewrite Z.add_0_r. f_equal.
      destruct (decide (k = dst /\ j < n /\ bit j = true)) as [(? & ? & ?)|Hno].
      * rewrite decide_True; [done|]. split_and!; [done | lia | done].
      * rewrite decide_False; [done|]. intros (? & ? & ?). apply Hno. split_and!; [done | lia | done].
  - intros p j Hvj. destruct (Hv' p j Hvj) as [[Hv1 Hs1]|(-> & -> & ->)].
    + destruct (Hv p j Hv1) as [[Ho Hs]|(? & ? & ? & ?)].
      * left. split; [done|]. intros (-> & -> & ? & ?). destruct (decide (j = n)) as [->|]; [naive_solver|].
        apply Hs. split_and!; try done; lia.
      * right. split_and!; try done; lia.
    + right. rewrite Hn, decide_False by lia. split_and!; try done; lia.
  - intros p j Hj. destruct (Hr' p j ltac:(lia)) as [-> Hl]. destruct (Hr p j ltac:(lia)) as [-> Hl0].
    split; [done|]. intros Hju. by rewrite Hl, Hl0.
Qed.

(** The states before and after the unit steps of a superpage. *)
Record moves (R : Z -> Block.t -> Block.t -> Prop) s s' : Prop := {
  mo_inv : inv s';
  mo_cur : plainCur s' = plainCur s;
  mo_plain : plainPool (core s') = plainPool (core s);
  mo_frees : frees (core s') = frees (core s);
  mo_live : forall l i, live (core s') l i <-> live (core s) l i;
  mo_rows : forall l, table (core s') !! l = None <-> table (core s) !! l = None;
  mo_blocks : forall k, match blocks (core s) !! k with
    | None => blocks (core s') !! k = None
    | Some b => exists b', blocks (core s') !! k = Some b' /\ R k b b'
    end;
}.

Lemma moves_weaken R R' s s1 : moves R s s1 ->
  (forall k b b', blocks (core s) !! k = Some b -> R k b b' -> R' k b b') -> moves R' s s1.
Proof.
  intros [] HR. split; try done. intros k. specialize (mo_blocks0 k).
  destruct (blocks (core s) !! k) as [b|] eqn:Hb; [|done]. destruct mo_blocks0 as (b' & ? & ?). eauto.
Qed.

Lemma moves_refl (R : Z -> Block.t -> Block.t -> Prop) s : inv s ->
  (forall k b, blocks (core s) !! k = Some b -> R k b b) -> moves R s s.
Proof.
  intros Hi HR. split; try done. intros k. destruct (blocks (core s) !! k) as [b|] eqn:Hb; eauto.
Qed.

Lemma moves_trans R R1 R2 s s1 s2 : moves R1 s s1 -> moves R2 s1 s2 ->
  (forall k b b1 b2, blocks (core s) !! k = Some b -> R1 k b b1 -> R2 k b1 b2 -> R k b b2) ->
  moves R s s2.
Proof.
  intros [] [] HR. split; try done; try congruence.
  - intros l i. by rewrite mo_live1.
  - intros l. by rewrite mo_rows1.
  - intros k. specialize (mo_blocks0 k). specialize (mo_blocks1 k).
    destruct (blocks (core s) !! k) as [b|] eqn:Hb.
    + destruct mo_blocks0 as (b1 & Hb1 & H1'). rewrite Hb1 in mo_blocks1.
      destruct mo_blocks1 as (b2 & ? & ?). eauto.
    + by rewrite mo_blocks0 in mo_blocks1.
Qed.

(** Changes of the refresh record, the device and the statistics are invisible. *)
Lemma moves_frame R s s1 r d st :
  moves R s s1 -> wfr r -> moves R s (with_stat st (with_dev d (with_refresh r s1))).
Proof. intros [[] ] Hr. split; try done. Qed.

(** The table row of a unit that has a valid page. *)
Lemma valid_row X c k b p i : wfc X c -> blocks c !! k = Some b -> Block.validAt b p i = true ->
  exists row, table c !! Block.lpnAt b p i = Some row /\ vget row i = Some (k, p) /\
    0 <= i < bitsetSize /\ (Block.lpnAt b p i, i) ∉ X /\ (k, p) <> unmapped.
Proof.
  intros HW Hb Hv. destruct (wc_valid _ _ HW k b p i Hb Hv) as (Hi & HX & row & Hrow & Hm).
  exists row. split_and!; try done; try lia. intros [= -> ->]. destruct (wc_blocks _ _ HW _ _ Hb). lia.
Qed.

(** What the updates of a unit do to the blocks: the source's unit is
    invalidated ([b2]), then the destination ([bd], possibly the same block) is
    appended to ([bd2]). *)
Lemma unit_step_intro (bl : gmap Z Block.t) src page dst i (b b2 bd bd2 : Block.t) :
  bl !! src = Some b ->
  (forall p j, Block.validAt b2 p j = if decide (p = page /\ j = i) then false else Block.validAt b p j) ->
  (forall p j, Block.lpnAt b2 p j = Block.lpnAt b p j) ->
  (forall j, Block.nextAt b2 j = Block.nextAt b j) ->
  <[src := b2]> bl !! dst = Some bd ->
  (forall p j, Block.validAt bd2 p j =
     if decide (p = Block.nextAt bd i /\ j = i) then true else Block.validAt bd p j) ->
  (forall p j, 0 <= j < U -> j <> i -> Block.lpnAt bd2 p j = Block.lpnAt bd p j) ->
  (forall j, Block.nextAt bd2 j = if decide (j = i) then Block.nextAt bd i + 1 else Block.nextAt bd j) ->
  forall k, match bl !! k with
  | None => <[dst := bd2]> (<[src := b2]> bl) !! k = None
  | Some b => exists b', <[dst := bd2]> (<[src := b2]> bl) !! k = Some b' /\
                         unit_step src page dst i k b b'
  end.
Proof.
  intros Hb Hv2 Hl2 Hn2 Hbd Hvd Hld Hnd k.
  assert (forall d, bl !! k = Some d -> exists d1, <[src := b2]> bl !! k = Some d1 /\
    (forall j, Block.nextAt d1 j = Block.nextAt d j) /\
    (forall p j, Block.validAt d1 p j = if decide (k = src /\ p = page /\ j = i) then false else Block.validAt d p j) /\
    (forall p j, Block.lpnAt d1 p j = Block.lpnAt d p j)) as Hmid.
  { intros d Hd. destruct (decide (k = src)) as [->|Hne].
    - exists b2. rewrite lookup_insert_eq. simplify_eq. split_and!; try done.
      intros p j. rewrite Hv2. by do 2 case_decide; try naive_solver.
    - exists d. rewrite lookup_insert_ne by done. split_and!; try done.
      intros p j. by rewrite decide_False by naive_solver. }
  destruct (bl !! k) as [d|] eqn:Hd.
  - destruct (Hmid d eq_refl) as (d1 & Hd1 & Hn1 & Hv1 & Hl1).
    destruct (decide (k = dst)) as [->|Hne].
    + exists bd2. rewrite lookup_insert_eq. split; [done|]. rewrite Hbd in Hd1. injection Hd1 as ->. split.
      * intros j. rewrite Hnd. destruct (decide (j = i)) as [->|].
        -- rewrite decide_True by done. by rewrite Hn1.
        -- rewrite decide_False by naive_solver. rewrite Hn1. lia.
      * intros p j. rewrite Hvd. destruct (decide (p = Block.nextAt d1 i /\ j = i)) as [[Hpe ->]|Hno].
        -- intros _. right. rewrite <- Hn1. done.
        -- rewrite Hv1. destruct (decide (dst = src /\ p = page /\ j = i)); [done|]. intros Hvj. by left.
      * intros p j Hj. rewrite Hvd, decide_False by naive_solver. rewrite Hv1, decide_False by naive_solver.
        split; [done|]. intros Hju. by rewrite Hld, Hl1.
    + exists d1. rewrite lookup_insert_ne by done. split; [done|]. split.
      * intros j. rewrite Hn1, decide_False by naive_solver. lia.
      * intros p j. rewrite Hv1. destruct (decide (k = src /\ p = page /\ j = i)); [done|]. by left.
      * intros p j Hj. by rewrite Hv1, Hl1, decide_False by naive_solver.
  - assert (k <> src) as Hks by (intros ->; congruence).
    assert (k <> dst) as Hkd.
    { intros ->. rewrite lookup_insert_ne in Hbd by done. congruence. }
    by rewrite !lookup_insert_ne by done.
Qed.

Lemma relocateUnit_ok (E : err -> Prop) mv src page dst beginAt lpns bit i p b bd s :
  inv s -> keeps_pages (mvSource mv) -> Bitset.wf U bit -> Bitset.bit bit i = true ->
  blocks (core s) !! src = Some b -> Block.validAt b page i = true ->
  vget lpns i = Some (Block.lpnAt b page i) ->
  blocks (core s) !! dst = Some bd -> Block.nextAt bd i < P ->
  wpe E (relocateUnit mv src page dst beginAt lpns bit i p) (fun p' s' =>
    eraseRequests p' = eraseRequests p /\ moves (unit_step src page dst i) s s') s.
Proof.
  intros [HW Hc Hr] Hmv Hbit Hbi Hb Hv Hlpn Hbd Hnd. pose proof units_bound as HS.
  destruct (valid_row _ _ _ _ _ _ HW Hb Hv) as (row & Hrow & Hm & Hi & _ & Hun).
  set (l := Block.lpnAt b page i) in *.
  destruct (wc_blocks _ _ HW src b Hb) as (Hsrc & Hidx & Hinvb).
  destruct (valid_page _ _ HW _ _ _ _ Hb Hv) as [Hp HiU].
  unfold relocateUnit. wp_step. wp_step. rewrite (Bitset.test_spec U) by done. rewrite Hbi. wp_step.
  wp_step. apply (wpe_updB _ _ b); [done|].
  eapply wpr_mono; [by apply (Block.invalidate_inv_spec P U)|]. intros b1 [Hinv1 Hiv].
  wp_step. eapply wpe_updB; [simpl; apply lookup_insert_eq|]. wp_step. simpl.
  rewrite insert_insert_eq. destruct (Hmv b1 Hinv1) as (Hinv2 & Hidx2 & Hv2 & Hl2 & Hn2).
  set (b2 := mvSource mv b1) in *.
  assert (Block.idx b1 = src) as Hidx1 by (rewrite (Block.fr_idx _ _ (Block.iv_frame _ _ _ _ Hiv)); done).
  assert (wfc ({[(l, i)]} ∪ ∅) (core_blocks (<[src := b2]> (blocks (core s))) (core s))) as HW2.
  { assert (wfc ({[(l, i)]} ∪ ∅) (core_blocks (<[src := b1]> (blocks (core s))) (core s))) as HW1
      by (eapply step_invalidate; eauto).
    pose proof (step_meta _ _ HW1 src b1 b2) as Hmeta. simpl in Hmeta. rewrite insert_insert_eq in Hmeta.
    apply Hmeta; [apply lookup_insert_eq | by rewrite Hidx2 | done | done | done]. }
  wp_step. wp_step. rewrite (get_at_Some _ _ _ Hlpn). wp_step.
  wp_step. apply wpe_findT. simpl. rewrite Hrow. wp_step.
  eapply wpe_onDev; [intros; apply dram_read_ok|]. intros t1 d1 _. wp_step.
  eapply wpe_getMapping; [exact Hrow | exact Hm|].
  assert (exists bd1, <[src := b2]> (blocks (core s)) !! dst = Some bd1 /\
            Block.nextAt bd1 i = Block.nextAt bd i) as (bd1 & Hbd1 & Hnd1).
  { destruct (decide (dst = src)) as [->|Hne].
    - exists b2. rewrite lookup_insert_eq. split; [done|]. rewrite Hn2, (Block.iv_next _ _ _ _ Hiv). congruence.
    - exists bd. by rewrite lookup_insert_ne. }
  wp_step. apply (nextAt_read _ _ bd1 _ _ _ ({[(l, i)]} ∪ ∅)); [exact HW2 | exact Hbd1 | lia|].
  wp_step. eapply wpe_setMapping; [exact Hrow | exact Hm|].
  wp_step. apply (wpe_onB _ _ bd1); [exact Hbd1|].
  eapply wpr_mono.
  { apply (append_unit _ E _ dst bd1 l i row beginAt HW2 Hbd1); [lia | lia | exact Hrow | set_solver]. }
  intros [x bd2] (Hw & Hnext & Hnv & HW3). simpl in Hw, HW3. simpl.
  replace (({[(l, i)]} ∪ ∅) ∖ {[(l, i)]} : gset (Z * Z)) with (∅ : gset (Z * Z)) in HW3 by set_solver.
  wp_step. wp_step. eapply wpr_mono; [by apply unitFlag_ok|]. intros io _.
  wp_step. eapply (wpe_readB _ _ bd2); [simpl; apply lookup_insert_eq|]. wp_step. wp_step.
  eapply wpe_mono.
  { apply setRefreshPeriod_ok; [done | | apply Z.mod_pos_bound; lia].
    by apply (wc_blocks _ _ HW2 dst bd1). }
  intros u s3 (r3 & d3 & -> & Hr3). wp_step. unfold modStat. wp_step. wp_step. split; [done|].
  split; simpl; try done.
  - intros l' i'. destruct (decide (l' = l)) as [->|Hne].
    + rewrite (live_row (core s) l row i' Hrow).
      rewrite (live_row _ _ (vset row i (dst, Block.nextAt bd1 i))) by (simpl; apply lookup_insert_eq).
      assert (vlen row = bitsetSize) as Hlen by (by apply (wc_row _ _ HW l)).
      rewrite vget_vset by lia. destruct (decide (i = i')) as [<-|]; [|done].
      destruct (wc_blocks _ _ HW2 dst bd1 Hbd1) as [Hdst _].
      split; intros _; [exists (src, page) | exists (dst, Block.nextAt bd1 i)]; (split; [done | simpl; lia]).
    + unfold live. simpl. rewrite lookup_insert_ne by done. done.
  - intros l'. destruct (decide (l' = l)) as [->|Hne].
    + rewrite lookup_insert_eq, Hrow. done.
    + by rewrite lookup_insert_ne.
  - apply (unit_step_intro (blocks (core s)) src page dst i b b2 bd1 bd2 Hb); try done.
    + intros p' j. rewrite Hv2. apply (Block.iv_valid _ _ _ _ Hiv).
    + intros p' j. rewrite Hl2. apply (Block.iv_lpn _ _ _ _ Hiv).
    + intros j. rewrite Hn2. apply (Block.iv_next _ _ _ _ Hiv).
    + apply (Block.wr_valid _ _ _ _ _ _ Hw).
    + intros p' j Hj Hji. destruct (wc_blocks _ _ HW2 dst bd1 Hbd1) as (_ & _ & Hinvd).
      rewrite (Block.wr_lpn _ _ _ _ _ _ Hw)
        by (by rewrite (Block.wf_io _ _ _ (Block.inv_wf _ _ _ Hinvd))).
      by rewrite decide_False by (by intros [_ ?]).
    + apply (Block.wr_next _ _ _ _ _ _ Hw).
Qed.

(** ** Erase *)

Lemma insert_rev_perm b e rl : insert_rev b e rl ≡ₚ b :: rl.
Proof.
  induction rl as [|x rl IH]; simpl; [done|]. case_match; [done|]. rewrite IH. by constructor.
Qed.

Lemma insert_free_ok (E : err -> Prop) b l :
  (l = [] -> E BadIterator) -> wpr E (insert_free b l) (fun l' => l' ≡ₚ b :: l).
Proof.
  intros HE. unfold insert_free. destruct l as [|x l]; [by apply HE|]. apply wpr_ret.
  rewrite <- Permutation_rev, insert_rev_perm. constructor. symmetry. apply Permutation_rev.
Qed.

(** The free blocks are kept in the order of their erase counts. *)
Lemma elem_of_rev (l : list Block.t) x : x ∈ rev l <-> x ∈ l.
Proof. by rewrite !list_elem_of_In, <- in_rev. Qed.

Definition by_wear : list Block.t -> Prop :=
  StronglySorted (fun b b' => Block.eraseCount b <= Block.eraseCount b').

Lemma by_wear_rev (l : list Block.t) :
  by_wear (rev l) <-> StronglySorted (fun b b' => Block.eraseCount b' <= Block.eraseCount b) l.
Proof.
  unfold by_wear. induction l as [|b l IH]; simpl; [split; constructor|].
  rewrite StronglySorted_app, IH. split.
  - intros (Hle & Hl & _). constructor; [done|]. apply Forall_forall. intros x Hx.
    apply Hle; [by rewrite elem_of_rev | by left].
  - intros Hs. inversion Hs as [|? ? Hl Hall]; subst. split_and!; [|done | by repeat constructor].
    intros x y Hx ->%list_elem_of_singleton. rewrite Forall_forall in Hall. apply Hall. by rewrite elem_of_rev in Hx.
Qed.

Lemma insert_rev_sorted b rl :
  StronglySorted (fun b b' => Block.eraseCount b' <= Block.eraseCount b) rl ->
  StronglySorted (fun b b' => Block.eraseCount b' <= Block.eraseCount b) (insert_rev b (Block.getEraseCount b) rl).
Proof.
  induction 1 as [|x l Hl IH Hall]; simpl; [by repeat constructor|].
  unfold Block.getEraseCount in *. destruct (Z.leb_spec (Block.eraseCount x) (Block.eraseCount b)).
  - constructor; [by constructor|]. constructor; [done|]. eapply Forall_impl; [exact Hall|]. simpl. lia.
  - constructor; [done|]. rewrite insert_rev_perm. constructor; [lia | done].
Qed.

Lemma insert_free_sorted b l l' : insert_free b l = Ok l' -> by_wear l -> by_wear l'.
Proof.
  unfold insert_free. destruct l as [|x l]; [done|]. intros [= <-] Hl. apply by_wear_rev, insert_rev_sorted.
  apply by_wear_rev. change (rev l ++ [x]) with (rev (x :: l)). by rewrite rev_involutive.
Qed.

(** A block without valid pages leaves the blocks in use; [l] is the pool after. *)
Lemma step_free X view put c k b b' l cnt :
  wfc X c -> pool_lens view put -> blocks c !! k = Some b ->
  (forall p i, Block.validAt b p i = false) -> Block.blank P U b' -> Block.idx b' = k ->
  ((l ≡ₚ b' :: free (view c) /\ cnt = u32 (nFree (view c) + 1)) \/ (l = free (view c) /\ cnt = nFree (view c))) ->
  nFree (view c) = vlen (free (view c)) ->
  let c' := core_blocks (delete k (blocks c)) (put (mkPool l cnt) c) in
  wfc X c'.
Proof.
  intros HW HL Hb Hnv Hblank Hidx Hl Hn c'. pose proof geo_N.
  destruct (pl_frees _ _ HL c) as (g1 & g2 & Hfr & Hfr').
  assert (frees c' = g1 ++ l ++ g2) as Hfc by (exact (Hfr' (mkPool l cnt))).
  destruct (wc_blocks _ _ HW k b Hb) as (Hk & _ & _).
  assert (forall d, d ∈ frees c' -> d = b' \/ d ∈ frees c) as Hin.
  { intros d. rewrite Hfc, Hfr. destruct Hl as [[-> _]|[-> _]]; set_solver. }
  assert (k ∉ (Block.idx <$> frees c)) as Hkf.
  { intros (d & -> & Hd)%list_elem_of_fmap. destruct (wc_free _ _ HW d Hd) as (_ & _ & Hnone). congruence. }
  assert (NoDup (Block.idx <$> frees c')) as HND.
  { pose proof (wc_nodup _ _ HW) as HND. rewrite Hfc. rewrite Hfr in HND, Hkf. destruct Hl as [[Hl _]|[Hl _]]; rewrite Hl; [|done].
    assert (g1 ++ (b' :: free (view c)) ++ g2 ≡ₚ b' :: g1 ++ free (view c) ++ g2) as -> by solve_Permutation.
    simpl. rewrite Hidx. by constructor. }
  assert (length (frees c') <= Z.to_nat N)%nat as Hlen.
  { rewrite <- (length_fmap Block.idx), <- (length_seqZ 0 N).
    apply submseteq_length, NoDup_submseteq; [done|].
    intros x (d & -> & Hd)%list_elem_of_fmap. apply elem_of_seqZ.
    destruct (Hin d Hd) as [->|Hd']; [lia|]. destruct (wc_free _ _ HW d Hd'). lia. }
  apply (step_storage X c); try done.
  - apply (pl_table _ _ HL).
  - intros k' d Hd. simpl in Hd. apply lookup_delete_Some in Hd as [_ Hd]. by apply (wc_blocks _ _ HW).
  - intros d Hd. simpl. destruct (Hin d Hd) as [->|Hd'].
    + split_and!; [lia | lia | done |]. rewrite Hidx. apply lookup_delete_eq.
    + destruct (wc_free _ _ HW d Hd') as (? & ? & ?). split_and!; [lia | lia | done |].
      rewrite lookup_delete_ne; [done|]. intros ->. apply Hkf, list_elem_of_fmap. eauto.
  - assert (counts_ok (put (mkPool l cnt) c)) as Hc.
    { apply (pl_counts _ _ HL); [by apply HW|]. simpl. destruct Hl as [[Hl ->]|[-> ->]]; [|done].
      unfold vlen. rewrite Hl. simpl. rewrite Hfc, !length_app, Hl in Hlen. simpl in Hlen.
      rewrite Hn. unfold vlen. rewrite u32_small by lia. lia. }
    by destruct Hc.
  - intros k' p i. simpl. destruct (decide (k' = k)) as [->|Hne].
    + rewrite lookup_delete_eq, Hb. split; [by intros (? & ? & ?)|]. intros (d & [= <-] & Hv). by rewrite Hnv in Hv.
    + by rewrite lookup_delete_ne.
  - intros k' d d' p i Hd Hd'. simpl in Hd'. apply lookup_delete_Some in Hd' as [_ Hd']. by simplify_eq.
Qed.

Lemma no_valid_count E b : Block.inv P U b ->
  wpr E (Block.getValidPageCount b) (fun n => n = 0 <-> forall p i, Block.validAt b p i = false).
Proof.
  intros Hinv. pose proof (Block.inv_wf _ _ _ Hinv) as Hwf. pose proof geo_P. pose proof geo_U.
  eapply wpr_mono; [by apply (Block.getValidPageCount_spec P U)|]. intros n ->.
  assert (0 <= P) as HP by lia.
  pose proof (count_range_bounds (Block.pageValid U b) P HP) as Hb.
  pose proof (count_range_pos (Block.pageValid U b) P HP) as Hpos. split.
  - intros Hz p i. destruct (Block.validAt b p i) eqn:Hv; [|done].
    destruct (decide (0 <= p < P /\ 0 <= i < U)) as [[Hp Hi]|Hout].
    + assert (0 < count_range (Block.pageValid U b) P); [|lia].
      apply Hpos. exists p. split; [done|]. apply Block.pageValid_exists; [lia|]. by exists i.
    + unfold Block.validAt in Hv. rewrite (Block.wf_io _ _ _ Hwf) in Hv.
      rewrite (Block.flag_out P U) in Hv; [done | apply Hwf | apply Hwf | done].
  - intros Hnv. destruct (decide (count_range (Block.pageValid U b) P = 0)); [done|].
    destruct (proj1 Hpos ltac:(lia)) as (p & Hp & Hv).
    apply Block.pageValid_exists in Hv as (i & _ & Hv); [|lia]. by rewrite Hnv in Hv.
Qed.

(** What erasing block [k] does. *)
Record erased (k : Z) s s' : Prop := {
  er_inv : inv s';
  er_table : table (core s') = table (core s);
  er_blocks : blocks (core s') = delete k (blocks (core s));
  er_free : free (plainPool (core s')) = [] -> free (plainPool (core s)) = [];
  er_cur : plainCur s' = plainCur s;
  er_count : nFree (plainPool (core s')) = nFree (plainPool (core s)) +
    (match blocks (core s) !! k with
     | Some b => if u32 (Block.eraseCount b + 1) <? badBlockThreshold conf then 1 else 0
     | None => 0
     end);
  er_pool : forall b, blocks (core s) !! k = Some b ->
    if u32 (Block.eraseCount b + 1) <? badBlockThreshold conf
    then exists b', free (plainPool (core s')) ≡ₚ b' :: free (plainPool (core s)) /\
         Block.blank P U b' /\ Block.idx b' = k /\ Block.eraseCount b' = u32 (Block.eraseCount b + 1) /\
         (by_wear (free (plainPool (core s))) -> by_wear (free (plainPool (core s'))))
    else free (plainPool (core s')) = free (plainPool (core s));
}.

Lemma eraseInternal_ok (E : err -> Prop) req tick b s :
  hotColdSeperation conf = 0 -> inv s -> blocks (core s) !! blockIndex req = Some b ->
  (~ (forall p i, Block.validAt b p i = false) -> E (Panic "There are valid pages in victim block")) ->
  (free (plainPool (core s)) = [] -> E BadIterator) ->
  wpe E (eraseInternal req tick) (fun _ s' => erased (blockIndex req) s s') s.
Proof.
  intros Hhc [HW Hc Hr] Hb HEv HEb. set (k := blockIndex req) in *.
  destruct (wc_blocks _ _ HW k b Hb) as (Hk & Hidx & Hinvb).
  pose proof (co_plain _ (wc_counts _ _ HW) Hhc) as Hn.
  pose proof (frees_index_lt _ _ HW) as Hlen. pose proof geo_N.
  unfold eraseInternal, eraseBlock. fold k. wp_step. wp_step. apply wpe_hasB.
  rewrite Hb, bool_decide_eq_true_2 by eauto. wp_step. apply (wpe_readB _ _ b); [done|].
  eapply wpr_mono; [by apply no_valid_count|]. intros n Hn0.
  destruct (Z.eqb_spec n 0) as [->|Hne].
  2:{ apply wpe_fail, HEv. intros Hnv. by apply Hne, Hn0. }
  pose proof (proj1 Hn0 eq_refl) as Hnv. wp_step. apply (wpe_updB _ _ b); [done|].
  eapply wpr_mono; [apply (Block.erase_spec P U), Hinvb|]. intros b' (Hblank & Hec & Hidx' & _).
  eapply wpe_onDev; [intros; apply pal_erase_ok|]. intros t1 d1 _. wp_step.
  eapply wpe_getB; [simpl; apply lookup_insert_eq|]. wp_step. unfold Block.getEraseCount. rewrite Hec.
  wp_step.
  - unfold returnFree. wp_step. wp_step. simpl. wp_step. wp_step. eapply wpr_mono; [by apply wpr_result, insert_free_ok|].
    intros l [Hl Hins]. wp_step. unfold removeB. wp_step. wp_step. apply wpe_latency. intros t2 d2.
    pose proof (step_free ∅ plainPool core_plainPool (core s) k b b' l _ HW plain_lens Hb Hnv Hblank
      ltac:(congruence) (or_introl (conj Hl eq_refl)) Hn) as HW'.
    split; simpl; try done.
    + split; simpl; try done. unfold core_blocks, core_plainPool in *. simpl in *.
      by rewrite delete_insert_eq.
    + by rewrite delete_insert_eq.
    + intros ->. by apply Permutation_nil_cons in Hl.
    + rewrite Hb. match goal with Hx : (_ <? _) = true |- _ => rewrite Hx end. rewrite u32_small; [done|]. rewrite Hn. unfold frees, vlen in *.
      rewrite length_app in Hlen. lia.
    + rewrite Hb. intros d [= <-]. match goal with Hx : (_ <? _) = true |- _ => rewrite Hx end. exists b'.
      split_and!; try done; [congruence|]. intros Hs. by eapply insert_free_sorted.
  - wp_step. unfold removeB. wp_step. apply wpe_latency. intros t2 d2.
    pose proof (step_free ∅ plainPool core_plainPool (core s) k b b' _ _ HW plain_lens Hb Hnv Hblank
      ltac:(congruence) (or_intror (conj eq_refl eq_refl)) Hn) as HW'.
    split; simpl; try done.
    + split; simpl; try done. unfold core_blocks, core_plainPool in *. simpl in *.
      rewrite delete_insert_eq. by destruct (plainPool (core s)).
    + by rewrite delete_insert_eq.
    + rewrite Hb. match goal with Hx : (_ <? _) = false |- _ => rewrite Hx end. lia.
    + rewrite Hb. intros d [= <-]. by match goal with Hx : (_ <? _) = false |- _ => rewrite Hx end.
Qed.

(** ** One superpage *)

(** Write pointers after one superpage went to block [dst]. *)
Definition page_step (dst k : Z) (b b' : Block.t) : Prop :=
  forall j, 0 <= j < U ->
    Block.nextAt b j <= Block.nextAt b' j <= Block.nextAt b j + (if decide (k = dst) then 1 else 0).

(** What moving superpage [page] of [src] does to a block in use: a block that
    was full only loses valid units; the superpage has none left. *)
Definition page_effect (src page k : Z) (b b' : Block.t) : Prop :=
  (forall j, 0 <= j < U -> Block.nextAt b j <= Block.nextAt b' j) /\
  (~ open_block b -> forall p j, Block.validAt b' p j = true -> Block.validAt b p j = true) /\
  (k = src -> forall j, Block.validAt b' page j = false).

Record moved (R : Z -> Block.t -> Block.t -> Prop) s s' : Prop := {
  md_inv : inv s';
  md_live : forall l i, live (core s') l i <-> live (core s) l i;
  md_rows : forall l, table (core s') !! l = None <-> table (core s) !! l = None;
  md_blocks : forall k b, blocks (core s) !! k = Some b ->
    exists b', blocks (core s') !! k = Some b' /\ R k b b';
}.

Section Collect.
  Context (E : err -> Prop) (Room : Z -> Core -> Cursor -> Prop).
  Context (room_mono : forall n m c cu, Room n c cu -> m <= n -> Room m c cu).
  Context (room_alloc : forall n c cu, Room (n + 1) c cu -> 0 <= n ->
    (forall j k, vget (lastFreeBlock cu) j = Some k -> blocks c !! k = None -> E (Panic "Corrupted")) /\
    (nFree (plainPool c) = 0 -> E (Panic "No free block left"))).
  Context (room_move : forall n k s s1 s2, Room (n + 1) (core s) (plainCur s) -> 0 <= n ->
    inv s -> wfc ∅ (core s1) -> advanced s k s1 -> moves (page_step k) s1 s2 -> Room n (core s2) (plainCur s2)).
  Context (room_erase : forall c cu, Room 0 c cu -> free (plainPool c) = [] -> E BadIterator).
  Context (plain : hotColdSeperation conf = 0).

(** The unit loop of a superpage. *)
Lemma relocateUnits_ok mv src page dst beginAt lpns bit p b bd s :
  inv s -> keeps_pages (mvSource mv) -> Bitset.wf U bit ->
  blocks (core s) !! src = Some b -> 0 <= page < P ->
  (forall i, 0 <= i < bitsetSize -> Bitset.bit bit i = Block.validAt b page i) ->
  (forall i, 0 <= i < bitsetSize -> vget lpns i = Some (Block.lpnAt b page i)) ->
  blocks (core s) !! dst = Some bd -> open_block bd ->
  wpe E (for_units (relocateUnit mv src page dst beginAt lpns bit) p) (fun p' s' =>
    eraseRequests p' = eraseRequests p /\
    moves (block_progress src page dst bitsetSize (Bitset.bit bit)) s s') s.
Proof.
  intros Hinv Hmv Hbit Hb Hpage Hbits Hlpns Hbd Ho. pose proof units_bound as HS. unfold for_units.
  apply wpe_for_range with (I := fun i p' s' => eraseRequests p' = eraseRequests p /\
    moves (block_progress src page dst i (Bitset.bit bit)) s s'); [lia | | | done].
  { split; [done|]. apply moves_refl; [done|]. intros. apply block_progress_0. }
  intros i p1 s1 Hi [Hp1 Hm]. destruct (Bitset.bit bit i) eqn:Hbi.
  2:{ unfold relocateUnit. wp_step. wp_step. rewrite (Bitset.test_spec U) by (done || lia).
      rewrite Hbi. wp_step. wp_step. split; [done|]. eapply moves_weaken; [exact Hm|].
      intros k d d' _. by apply block_progress_skip. }
  pose proof (mo_blocks _ _ _ Hm src) as Hsrc. rewrite Hb in Hsrc. destruct Hsrc as (b1 & Hb1 & Hprog).
  pose proof (mo_blocks _ _ _ Hm dst) as Hdst. rewrite Hbd in Hdst. destruct Hdst as (bd1 & Hbd1 & Hprogd).
  destruct (bp_rest _ _ _ _ _ _ _ _ Hprog page i ltac:(lia)) as [Hv Hl].
  eapply wpe_mono.
  - apply (relocateUnit_ok E mv src page dst beginAt lpns bit i p1 b1 bd1); try done.
    + apply Hm.
    + by rewrite Hv, <- Hbits.
    + rewrite Hl by lia. by apply Hlpns.
    + rewrite (bp_next _ _ _ _ _ _ _ _ Hprogd) by lia. rewrite decide_False by (intros (_ & ? & _); lia).
      rewrite Z.add_0_r. apply Ho. lia.
  - intros p2 s2 [Hp2 Hm2]. split; [congruence|]. eapply moves_trans; [exact Hm | exact Hm2|].
    intros k d d1 d2 _ Hd1 Hd2. eapply block_progress_step; [done | lia | done | done].
Qed.

Lemma relocatePage_ok n mv src beginAt page p b s :
  inv s -> keeps_pages (mvSource mv) -> mvAlloc mv = getLastFreeBlock ->
  blocks (core s) !! src = Some b -> 0 <= page < P -> 0 <= n -> Room (n + 1) (core s) (plainCur s) ->
  wpe E (relocatePage mv src beginAt page p) (fun p' s' =>
    eraseRequests p' = eraseRequests p /\ Room n (core s') (plainCur s') /\
    moved (page_effect src page) s s') s.
Proof.
  intros Hinv Hmv Hal Hb Hpage Hn HR. pose proof Hinv as [HW Hc Hr]. pose proof units_bound as HS.
  pose proof geo_U as HU.
  destruct (wc_blocks _ _ HW src b Hb) as (_ & _ & Hinvb).
  pose proof (Bitset.make_spec U HU) as [Hmk _].
  unfold relocatePage. wp_step. apply (wpe_readB _ _ b); [done|].
  eapply wpr_mono; [apply (Block.getPageInfo_spec P U); [apply Hinvb | done | done]|].
  intros [[valid lpns] bit] (Hvalid & Hlen & Hlpns & Hbit & Hbits). simpl in *.
  destruct valid.
  2:{ wp_step. split_and!; [done | apply (room_mono (n + 1)); [done | lia]|].
      split; [done | done | done|]. intros k d Hd. exists d. split; [done|]. split; [intros; lia|]. split; [done|].
      intros -> j. rewrite Hb in Hd. injection Hd as <-. destruct (Block.validAt b page j) eqn:Hv; [|done].
      destruct (valid_page _ _ HW _ _ _ _ Hb Hv) as [_ Hj]. exfalso.
      assert (false = true) by (apply Hvalid; eauto). done. }
  assert (exists bit', Bitset.wf U bit' /\
    (forall i, 0 <= i < bitsetSize -> Bitset.bit bit' i = Block.validAt b page i) /\
    forall (Q : Bitset.t -> t D -> Prop), Q bit' s ->
      wpe E (if negb bRandomTweak then lift (Bitset.set_all bit) else mret bit) Q s) as (bit' & Hwb & Hbb & Hset).
  { unfold bitsetSize. destruct bRandomTweak eqn:Htw; simpl.
    - exists bit. split_and!; [done | done|]. intros Q HQ. by wp_step.
    - pose proof (Bitset.set_all_spec U noerr bit Hbit) as (bit' & Heq & Hwb & Hall)%wpr_noerr.
      exists bit'. split_and!; [done | |].
      + intros i Hi. rewrite Hall, bool_decide_eq_true_2 by lia. symmetry.
        destruct (proj1 Hvalid eq_refl) as (j & Hj & Hvj).
        destruct (wc_valid _ _ HW _ _ _ _ Hb Hvj) as [Hj' _]. unfold bitsetSize in Hj'. rewrite Htw in Hj'.
        assert (i = j) as -> by lia. done.
      + intros Q HQ. wp_step. by rewrite Heq. }
  wp_step. apply Hset. clear Hset. rewrite Hal. wp_step.
  destruct (room_alloc n _ _ HR Hn) as [HEc HEn].
  eapply wpe_mono; [by eapply getLastFreeBlock_ok|]. intros dst s1 [HW1 Had].
  pose proof Had as [(c1 & cur1 & more & ->) Hcur1 _ (bd & Hbd & Hopen) Hcase]. simpl in *.
  assert (forall k d, blocks (core s) !! k = Some d -> blocks c1 !! k = Some d) as Hkeep.
  { destruct Hcase as [[-> _]|(k0 & b0 & bn & _ & _ & _ & HT & _)]; [done|].
    intros k d Hd. rewrite (tk_blocks _ _ _ _ _ HT). rewrite lookup_insert_ne; [done|].
    intros ->. rewrite (tk_fresh _ _ _ _ _ HT) in Hd. done. }
  assert (table c1 = table (core s)) as Htab.
  { destruct Hcase as [[-> _]|(k0 & b0 & bn & _ & _ & _ & HT & _)]; [done | apply HT]. }
  assert (inv (with_core c1 (with_plainCur cur1 (with_reclaimMore more s)))) as Hinv1 by (by split).
  wp_step. eapply wpe_mono.
  { apply (relocateUnits_ok mv src page dst beginAt lpns bit' _ b bd); try done.
    - simpl. by apply Hkeep.
    - intros i Hi. apply Hlpns. lia. }
  intros p2 s2 [Hp2 Hm]. wp_step. unfold modStat. wp_step. wp_step.
  assert (moves (block_progress src page dst bitsetSize (Bitset.bit bit'))
    (with_core c1 (with_plainCur cur1 (with_reclaimMore more s))) (with_stat (mvSuper mv (stat s2)) s2)) as Hm'.
  { destruct Hm as [[] ]. by split. }
  clear Hm. split_and!; [done | |].
  - eapply room_move; [exact HR | done | done | | exact Had |]; [exact HW1|].
    eapply moves_weaken; [exact Hm'|]. intros k d d' Hd Hd' j Hj.
    rewrite (bp_next _ _ _ _ _ _ _ _ Hd') by done. do 2 case_decide; naive_solver lia.
  - destruct Hm' as [Hi2 _ _ _ Hl2 Hr2 Hb2]. split; [done | | |].
    + intros l i. rewrite Hl2. unfold live. simpl. by rewrite Htab.
    + intros l. rewrite Hr2. simpl. by rewrite Htab.
    + intros k d Hd. specialize (Hb2 k). simpl in Hb2. rewrite (Hkeep _ _ Hd) in Hb2.
      destruct Hb2 as (d' & Hd' & Hprog). exists d'. split; [done|]. split_and!.
      * intros j Hj. rewrite (bp_next _ _ _ _ _ _ _ _ Hprog) by done. case_decide; lia.
      * intros Hfull p' j Hvj. destruct (bp_valid _ _ _ _ _ _ _ _ Hprog p' j Hvj) as [[? _]|(-> & _)]; [done|].
        exfalso. apply Hfull. pose proof (Hkeep _ _ Hd). by simplify_eq.
      * intros -> j. rewrite Hb in Hd. injection Hd as <-.
        destruct (Block.validAt d' page j) eqn:Hvj; [|done]. exfalso.
        assert (0 <= j < bitsetSize) as Hj.
        { apply (wc_valid _ _ (in_core _ Hi2) _ _ _ _ Hd' Hvj). }
        destruct (bp_valid _ _ _ _ _ _ _ _ Hprog page j Hvj) as [[Hvb Hnot]|(-> & _ & Hbj & Hpg)].
        -- apply Hnot. split_and!; try done; try lia. by rewrite Hbb.
        -- rewrite Hbb in Hbj by done.
           pose proof (Block.inv_valid _ _ _ Hinvb _ _ Hbj) as He.
           rewrite (Block.inv_erased _ _ _ Hinvb) in He; [done | lia | lia].
Qed.

(** ** Victims *)

(** [k] is in use; when victims are known to be full ([fulls]) it is full and
    has no valid unit below page [n]. *)
Definition victim (fulls : bool) (n : Z) (c : Core) (k : Z) : Prop :=
  exists b, blocks c !! k = Some b /\
    (fulls = true -> ~ open_block b /\ forall p j, 0 <= p < n -> Block.validAt b p j = false).

(** The state changed, the contents did not. *)
Record gc_rel s s' : Prop := {
  gr_inv : inv s';
  gr_live : forall l i, live (core s') l i <-> live (core s) l i;
  gr_rows : forall l, table (core s') !! l = None <-> table (core s) !! l = None;
}.

Lemma gc_rel_refl s : inv s -> gc_rel s s.
Proof. done. Qed.
Lemma gc_rel_trans s s1 s2 : gc_rel s s1 -> gc_rel s1 s2 -> gc_rel s s2.
Proof.
  intros [_ L1 R1] [I2 L2 R2]. split; [done | |]; intros; [by rewrite L2 | by rewrite R2].
Qed.
Lemma moved_gc_rel R s s' : moved R s s' -> gc_rel s s'.
Proof. by intros []. Qed.

Lemma victim_moved fulls n src page s s' k :
  moved (page_effect src page) s s' -> victim fulls n (core s) k -> victim fulls n (core s') k.
Proof.
  intros Hm (b & Hb & Hf). destruct (md_blocks _ _ _ Hm k b Hb) as (b' & Hb' & Hmono & Hsub & _).
  exists b'. split; [done|]. intros Hfull. destruct (Hf Hfull) as [Hno Hnv]. split.
  - intros Ho. apply Hno. intros i Hi. pose proof (Hmono i Hi). pose proof (Ho i Hi). lia.
  - intros p j Hp. destruct (Block.validAt b' p j) eqn:Hv; [|done].
    apply Hsub in Hv; [|done]. by rewrite Hnv in Hv.
Qed.

Lemma victim_page fulls n s s' k :
  moved (page_effect k n) s s' -> victim fulls n (core s) k -> victim fulls (n + 1) (core s') k.
Proof.
  intros Hm Hk. destruct (victim_moved fulls n k n s s' k Hm Hk) as (b' & Hb' & Hf).
  destruct Hk as (b & Hb & _). destruct (md_blocks _ _ _ Hm k b Hb) as (b2 & Hb2 & _ & _ & Hpage).
  rewrite Hb' in Hb2. injection Hb2 as <-. exists b'. split; [done|]. intros Hfull.
  destruct (Hf Hfull) as [Hno Hnv]. split; [done|]. intros p j Hp.
  destruct (decide (p = n)) as [->|]; [by apply Hpage | apply Hnv; lia].
Qed.

(** All pages of one victim. *)
Lemma relocateBlock_ok n fulls mv k beginAt p s :
  inv s -> keeps_pages (mvSource mv) -> mvAlloc mv = getLastFreeBlock -> 0 <= n ->
  Room (n + P) (core s) (plainCur s) -> victim fulls 0 (core s) k ->
  wpe E (for_range 0 P (relocatePage mv k beginAt) p) (fun p' s' =>
    eraseRequests p' = eraseRequests p /\ Room n (core s') (plainCur s') /\ gc_rel s s' /\
    (forall m k', victim fulls m (core s) k' -> victim fulls m (core s') k') /\
    victim fulls P (core s') k) s.
Proof.
  intros Hinv Hmv Hal Hn HR Hk. pose proof geo_P as HP.
  apply wpe_for_range with (I := fun i p' s' =>
    eraseRequests p' = eraseRequests p /\ Room (n + (P - i)) (core s') (plainCur s') /\ gc_rel s s' /\
    (forall m k', victim fulls m (core s) k' -> victim fulls m (core s') k') /\
    victim fulls i (core s') k); [lia | | |].
  - split_and!; [done | by rewrite Z.sub_0_r | done | done | done].
  - intros i p1 s1 Hi (Hp1 & HR1 & Hg1 & Hv1 & Hk1). pose proof Hk1 as (b & Hb & _).
    eapply wpe_mono.
    { apply (relocatePage_ok (n + (P - (i + 1))) mv k beginAt i p1 b); try done; [apply Hg1 | lia |].
      by replace (n + (P - (i + 1)) + 1) with (n + (P - i)) by lia. }
    intros p2 s2 (Hp2 & HR2 & Hm). split_and!.
    + congruence.
    + done.
    + eapply gc_rel_trans; [exact Hg1 | by eapply moved_gc_rel].
    + intros m k' Hk'. eapply victim_moved; [exact Hm | by apply Hv1].
    + by apply (victim_page fulls i s1).
  - intros p1 s1 (Hp1 & HR1 & Hg1 & Hv1 & Hk1). split_and!; try done.
    by replace (n + (P - P)) with n in HR1 by lia.
Qed.

(** Requests sent to the devices only. *)
Lemma issueAll_dev op start reqs fin s :
  (forall r tick d, exists t' d', op r tick d = Ok (t', d') /\ tick <= t') ->
  wpe E (issueAll (fun r tick => onDev (op r tick)) start reqs fin) (fun _ s' => exists d, s' = with_dev d s) s.
Proof.
  intros Hop. unfold issueAll. apply wpe_foldM with (I := fun _ _ s' => exists d, s' = with_dev d s).
  - exists (dev s). by destruct s.
  - intros r rest fin' s1 (d & ->). wp_step. eapply wpe_onDev; [intros; apply Hop|].
    intros t' d' _. wp_step. by exists d'.
  - by intros _ s1 ?.
Qed.

Lemma victim_erased fulls n k k' s s' :
  erased k s s' -> k' <> k -> victim fulls n (core s) k' -> victim fulls n (core s') k'.
Proof.
  intros He Hne (b & Hb & Hf). exists b. rewrite (er_blocks _ _ _ He), lookup_delete_ne by done. done.
Qed.

Lemma erased_gc_rel k s s' : erased k s s' -> gc_rel s s'.
Proof.
  intros He. split; [apply He | |]; intros; unfold live; by rewrite (er_table _ _ _ He).
Qed.

(** The erase requests of the victims. *)
Lemma eraseAll_ok fulls start l fin s :
  inv s -> NoDup (blockIndex <$> l) ->
  (forall r, r ∈ l -> victim fulls P (core s) (blockIndex r)) ->
  (fulls = false -> E (Panic "There are valid pages in victim block")) ->
  (free (plainPool (core s)) = [] -> E BadIterator) ->
  wpe E (issueAll eraseInternal start l fin) (fun _ s' =>
    gc_rel s s' /\ forall r, r ∈ l -> blocks (core s') !! blockIndex r = None) s.
Proof.
  intros Hinv HND Hvic HEv HEb. unfold issueAll.
  apply wpe_foldM with (I := fun rest _ s' => gc_rel s s' /\ NoDup (blockIndex <$> rest) /\
    (forall r, r ∈ rest -> victim fulls P (core s') (blockIndex r)) /\
    (forall r, r ∈ l -> r ∈ rest \/ blocks (core s') !! blockIndex r = None) /\
    (free (plainPool (core s')) = [] -> E BadIterator)).
  - split_and!; try done. auto.
  - intros r rest fin' s1 (Hg & HND1 & Hv1 & Hl1 & Hb1). wp_step.
    destruct (Hv1 r ltac:(left)) as (b & Hb & Hf).
    apply NoDup_cons in HND1 as [Hnot HND1]. eapply wpe_mono.
    { apply (eraseInternal_ok E r start b); [done | apply Hg | done | | done].
      intros Hval. destruct fulls; [|by apply HEv]. exfalso. apply Hval. intros p i.
      destruct (Hf eq_refl) as [_ Hnv]. destruct (Block.validAt b p i) eqn:Hv; [|done].
      destruct (valid_page _ _ (in_core _ (gr_inv _ _ Hg)) _ _ _ _ Hb Hv) as [Hp _].
      by rewrite Hnv in Hv. }
    intros t1 s2 He. wp_step. split_and!; try done.
    + eapply gc_rel_trans; [exact Hg | exact (erased_gc_rel _ _ _ He)].
    + intros r' Hr'. eapply victim_erased; [exact He | | apply Hv1; by right].
      intros Heq. apply Hnot. apply list_elem_of_fmap. eauto.
    + intros r' Hr'. rewrite (er_blocks _ _ _ He).
      destruct (Hl1 r' Hr') as [[->|Hin]%elem_of_cons|Hnone]; [right; apply lookup_delete_eq | by left |].
      right. by apply lookup_delete_None; right.
    + intros Hfr. apply Hb1. by apply (er_free _ _ _ He).
  - intros fin' s1 (Hg & _ & _ & Hl1 & _). split; [done|]. intros r Hr.
    destruct (Hl1 r Hr) as [Hin|]; [by apply not_elem_of_nil in Hin | done].
Qed.

Lemma collect_ok fulls mv invalid l tick s :
  inv s -> keeps_pages (mvSource mv) -> mvAlloc mv = getLastFreeBlock ->
  Room (vlen l * P) (core s) (plainCur s) -> NoDup l ->
  (forall k, k ∈ l -> victim fulls 0 (core s) k) ->
  (fulls = false -> E (Panic "There are valid pages in victim block")) ->
  wpe E (collect mv invalid eraseInternal l tick) (fun _ s' =>
    gc_rel s s' /\ forall k, k ∈ l -> blocks (core s') !! k = None) s.
Proof.
  intros Hinv Hmv Hal HR HND Hvic HEv. unfold collect. pose proof geo_P as HP. pose proof geo_U as HU.
  destruct (decide (l = [])) as [->|Hne]; [wp_step; split; [done | by intros k ?%not_elem_of_nil]|].
  wp_step. wp_step. wp_step. wp_step.
  eapply wpr_mono; [apply (Bitset.set_all_spec U), Bitset.make_spec, HU|]. intros full _.
  set (rq := fun k => pal_at (PalRequest_make U) k 0 full).
  wp_step. apply wpe_foldM with (I := fun rest p s' => exists done,
    l = done ++ rest /\ eraseRequests p = rq <$> done /\ Room (vlen rest * P) (core s') (plainCur s') /\
    gc_rel s s' /\ (forall k, k ∈ done -> victim fulls P (core s') k) /\
    (forall k, k ∈ rest -> victim fulls 0 (core s') k)).
  - exists []. split_and!; try done. by intros k ?%not_elem_of_nil.
  - intros k rest p s1 (dn & Hl & Hp & HR1 & Hg & Hd & Hr1).
    pose proof (Hr1 k ltac:(left)) as Hk. pose proof Hk as (b & Hb & _).
    wp_step. apply wpe_hasB. rewrite Hb, bool_decide_eq_true_2 by eauto. wp_step.
    eapply wpe_mono.
    { apply (relocateBlock_ok (vlen rest * P) fulls mv k); try done; [apply Hg | |].
      - apply Z.mul_nonneg_nonneg; [apply vlen_nonneg | lia].
      - replace (vlen rest * P + P) with (vlen (k :: rest) * P); [done|]. unfold vlen. simpl. lia. }
    intros p2 s2 (Hp2 & HR2 & Hg2 & Hv2 & Hk2). wp_step. exists (dn ++ [k]). split_and!.
    + by rewrite <- app_assoc.
    + simpl. by rewrite Hp2, Hp, fmap_app.
    + done.
    + by eapply gc_rel_trans.
    + intros k' [Hk'|Hk']%elem_of_app; [by apply Hv2, Hd | by apply list_elem_of_singleton in Hk' as ->].
    + intros k' Hk'. apply Hv2, Hr1. by right.
  - intros p s1 (dn & Hl & Hp & HR1 & Hg & Hd & _). rewrite app_nil_r in Hl. subst dn.
    wp_step. eapply wpe_mono; [apply issueAll_dev, pal_read_ok|]. intros t1 s2 (d2 & ->).
    wp_step. eapply wpe_mono; [apply issueAll_dev, pal_write_ok|]. intros t2 s3 (d3 & ->).
    assert ((blockIndex <$> eraseRequests p) = l) as Hidx.
    { rewrite Hp, <- list_fmap_compose. apply list_fmap_id. }
    wp_step. eapply wpe_mono.
    { apply (eraseAll_ok fulls); try done.
      - by destruct Hg as [[] _ _]; split.
      - by rewrite Hidx.
      - intros r Hr. apply Hd. rewrite <- Hidx. apply list_elem_of_fmap. eauto.
      - intros Hfr. by eapply room_erase. }
    intros t3 s4 [Hg4 Hgone]. apply wpe_latency. intros t4 d4. split.
    + destruct Hg as [_ L1 R1], Hg4 as [[] L4 R4]. split; simpl; [by split | |]; intros.
      * by rewrite L4.
      * by rewrite R4.
    + intros k Hk. rewrite <- Hidx in Hk. apply list_elem_of_fmap in Hk as (r & -> & Hr). by apply Hgone.
Qed.
End Collect.
End GcProof.
