(* ===== verification/PmSelectProof.v ===== *)
(** * Victim selection returns distinct full blocks *)

From S2P Require Import Prelude Bitset Block Float32 Types PmState PmRefresh PmAlloc PmGc.
From S2P Require Import PmWrite PmInv PmRefreshProof PmAllocProof PmWriteProof PmGcProof.

Section SelectProof.
  Context {D : Type} `{DeviceLaws D} `{StdOrderLaws} `{Geometry}.
  Implicit Types (s : t D) (E : err -> Prop).

Notation N := (totalPhysicalBlocks param).
Notation P := (pagesInBlock param).
Notation U := (ioUnitInPage param).

(** The failures of a selection, by the configuration that allows them. *)
Record select_errors (E : err -> Prop) : Prop := {
  se_mode1 : gcMode conf = GC_MODE_1 -> E UB;
  se_mode : gcMode conf = GC_MODE_other -> E (Panic "Invalid GC mode");
  se_policy : evictPolicy conf = POLICY_other -> E (Panic "Invalid evict policy");
  se_random : evictPolicy conf = POLICY_RANDOM \/ evictPolicy conf = POLICY_DCHOICE ->
              E NoReturn /\ E OutOfRange;
}.

Definition is_full (c : Core) (k : Z) : Prop :=
  exists b, blocks c !! k = Some b /\ ~ open_block b.

(** [k] is a full block that weighs [w]. *)
Definition weighed (weigh : Block.t -> res f32) (c : Core) (k : Z) (w : f32) : Prop :=
  exists b, blocks c !! k = Some b /\ ~ open_block b /\ weigh b = Ok w.

Lemma weighed_full weigh c k w : weighed weigh c k w -> is_full c k.
Proof. intros (b & Hb & Hf & _). by exists b. Qed.

Lemma full_max b n : Block.inv P U b -> Block.max_next U b n -> (n = P <-> ~ open_block b).
Proof.
  intros Hinv Hmax. destruct (Block.max_next_full P U b n Hinv Hmax) as [_ Hne]. split.
  - intros -> Ho. destruct Hmax as [_ [Hz|(i & Hi & Hni)]]; [pose proof geo_P; lia|].
    specialize (Ho i Hi). lia.
  - intros Hf. destruct (decide (n = P)); [done|]. exfalso. apply Hf. exact (Hne ltac:(done)).
Qed.

(** The weight loops keep the full blocks, in the order they are visited. *)
Lemma weigh_loop_ok E X (keep : Block.t -> bool) (weigh : Block.t -> res f32) c l acc :
  wfc X c -> (forall k b, (k, b) ∈ l -> blocks c !! k = Some b) ->
  (forall b, Block.inv P U b -> wpr E (weigh b) (fun _ => True)) ->
  wpr E (foldM (fun '((k, b) : Z * Block.t) (weight : list (Z * f32)) =>
      if keep b then
        n ← Block.getNextWritePageIndex b;
        if n =? P then w ← weigh b; Ok (weight ++ [(k, w)]) else Ok weight
      else Ok weight) l acc)
    (fun ws => exists ws', ws = acc ++ ws' /\ ws'.*1 `sublist_of` l.*1 /\
      (forall k w, (k, w) ∈ ws' -> weighed weigh c k w) /\
      forall k b, (k, b) ∈ l -> keep b = true -> ~ open_block b -> k ∈ ws'.*1).
Proof.
  intros HW Hl Hw. revert acc. induction l as [|[k b] l IH]; intros acc; simpl.
  { exists []. split_and!; [by rewrite app_nil_r | done | |]; by intros k ? ?%not_elem_of_nil. }
  assert (forall k b, (k, b) ∈ l -> blocks c !! k = Some b) as Hl' by (intros; apply Hl; by right).
  pose proof (Hl k b ltac:(left)) as Hb. destruct (wc_blocks _ _ HW k b Hb) as (_ & _ & Hinv).
  assert (forall acc', ~ (keep b = true /\ ~ open_block b) ->
    wpr E (foldM (fun '((k, b) : Z * Block.t) (weight : list (Z * f32)) =>
      if keep b then
        n ← Block.getNextWritePageIndex b;
        if n =? P then w ← weigh b; Ok (weight ++ [(k, w)]) else Ok weight
      else Ok weight) l acc')
    (fun ws => exists ws', ws = acc' ++ ws' /\ ws'.*1 `sublist_of` k :: l.*1 /\
      (forall k w, (k, w) ∈ ws' -> weighed weigh c k w) /\
      forall k0 b0, (k0, b0) ∈ (k, b) :: l -> keep b0 = true -> ~ open_block b0 -> k0 ∈ ws'.*1)) as Hskip.
  { intros acc' Hnot. eapply wpr_mono; [by apply IH|]. intros ws (ws' & -> & Hs & Hf & Hall).
    exists ws'. split_and!; [done | by constructor | done|].
    intros k0 b0 [[= -> ->]|Hin]%elem_of_cons Hk Hfull; [by destruct Hnot | by eapply Hall]. }
  wp_step. destruct (keep b) eqn:Hkeep; [|wp_step; apply Hskip; by intros [? _]]. wp_step.
  eapply wpr_mono; [apply (Block.getNextWritePageIndex_spec P U), Hinv|]. intros n Hmax.
  pose proof (full_max b n Hinv Hmax) as Hfull.
  destruct (Z.eqb_spec n P) as [Hn|Hn]; [|wp_step; apply Hskip; intros [_ Hf]; by apply Hn, Hfull].
  wp_step. eapply wpr_mono; [by apply wpr_result, Hw|]. intros w [_ Hwb]. wp_step.
  eapply wpr_mono; [by apply IH|]. intros ws (ws' & -> & Hs & Hf & Hall).
  exists ((k, w) :: ws'). split_and!.
  - by rewrite <- app_assoc.
  - simpl. by constructor.
  - intros k' w' [[= -> ->]|Hk']%elem_of_cons; [|by apply Hf]. exists b. split_and!; [done | by apply Hfull | done].
  - intros k0 b0 [[= -> ->]|Hin]%elem_of_cons Hk Hf0; simpl; [by left|]. right. by eapply Hall.
Qed.

Lemma weigh_blocks_all E X keep weigh s :
  wfc X (core s) -> (forall b, Block.inv P U b -> wpr E (weigh b) (fun _ => True)) ->
  wpr E (weigh_blocks keep weigh s) (fun ws => NoDup ws.*1 /\
    (forall k w, (k, w) ∈ ws -> weighed weigh (core s) k w) /\
    forall k b, blocks (core s) !! k = Some b -> keep b = true -> ~ open_block b -> k ∈ ws.*1).
Proof.
  intros HW Hw. unfold weigh_blocks.
  eapply wpr_mono; [eapply (weigh_loop_ok E X keep weigh (core s)); [done | | done]|].
  - intros k b Hin. rewrite (umap_order_perm (blocks (core s))) in Hin. by apply elem_of_map_to_list.
  - intros ws (ws' & -> & Hs & Hf & Hall). simpl. split_and!; [|done|].
    + eapply sublist_NoDup; [|exact Hs]. rewrite (umap_order_perm (blocks (core s))).
      apply NoDup_fst_map_to_list.
    + intros k b Hb. apply Hall. rewrite (umap_order_perm (blocks (core s))). by apply elem_of_map_to_list.
Qed.

Lemma weigh_blocks_ok E X keep weigh s :
  wfc X (core s) -> (forall b, Block.inv P U b -> wpr E (weigh b) (fun _ => True)) ->
  wpr E (weigh_blocks keep weigh s) (fun ws =>
    NoDup ws.*1 /\ forall k, k ∈ ws.*1 -> is_full (core s) k).
Proof.
  intros HW Hw. eapply wpr_mono; [by eapply weigh_blocks_all|]. intros ws (HND & Hf & _). split; [done|].
  intros k ([k' w] & -> & Hin)%list_elem_of_fmap. by eapply weighed_full, Hf.
Qed.

Lemma raw_ok E b : Block.inv P U b -> wpr E (Block.getValidPageCountRaw b) (fun _ => True).
Proof.
  intros Hinv. eapply wpr_mono; [apply (Block.getValidPageCountRaw_spec P U); [apply Hinv | apply geo_raw]|].
  done.
Qed.

Lemma weight_ok E b tick : Block.inv P U b ->
  wpr E (weight_greedy b) (fun _ => True) /\ wpr E (weight_cost_benefit tick b) (fun _ => True) /\
  wpr E (weight_reco b) (fun _ => True).
Proof.
  intros Hinv. unfold weight_greedy, weight_cost_benefit, weight_reco.
  split_and!; wp_step; (eapply wpr_mono; [by apply raw_ok | by intros]).
Qed.

Lemma calculateVictimWeight_ok E tick s :
  wfc ∅ (core s) -> select_errors E ->
  wpr E (calculateVictimWeight (evictPolicy conf) tick s) (fun ws =>
    NoDup ws.*1 /\ forall k, k ∈ ws.*1 -> is_full (core s) k).
Proof.
  intros HW [_ _ Hpol _]. unfold calculateVictimWeight.
  destruct (evictPolicy conf); try (by apply Hpol);
    (eapply weigh_blocks_ok; [exact HW | intros b Hb; by apply (weight_ok E b tick)]).
Qed.

(** The random selection: what is taken is distinct, and was offered. *)
Lemma select_random_ok E fuel range except weight sel (A : Z -> Prop) s :
  E NoReturn -> E OutOfRange ->
  NoDup sel.*1 -> (forall k, k ∈ sel.*1 -> A k) ->
  (forall i w, weight !! i = Some w -> w.1 = u32_max \/ (A w.1 /\ w.1 ∉ sel.*1)) ->
  (forall i j w w', weight !! i = Some w -> weight !! j = Some w' -> w.1 = w'.1 -> w.1 <> u32_max -> i = j) ->
  wpe E (select_random fuel range except weight sel) (fun ws s' =>
    NoDup ws.*1 /\ (forall k, k ∈ ws.*1 -> A k) /\ exists d, s' = with_dev d s) s.
Proof.
  intros HE1 HE2. revert weight sel s. induction fuel as [|fuel IH]; intros weight sel s HND HA Hw Huniq; simpl.
  { case_match; [by apply wpe_fail|]. wp_step. split_and!; try done. exists (dev s). by destruct s. }
  case_match; [|wp_step; split_and!; try done; exists (dev s); by destruct s].
  wp_step. wp_step. destruct (draw _ _ _) as [idx d]. wp_step. wp_step. wp_step. wp_step.
  unfold get_at. destruct (vget weight idx) as [w|] eqn:Hg; [|exact HE2]. simpl.
  assert (exists n, idx = Z.of_nat n /\ weight !! n = Some w) as (n & -> & Hn).
  { unfold vget in Hg. destruct (Z.ltb_spec idx 0); [done|]. exists (Z.to_nat idx). split; [lia | done]. }
  assert (forall (Q : list (Z * f32) -> t D -> Prop) m d', (forall ws s', (NoDup ws.*1 /\ (forall k, k ∈ ws.*1 -> A k) /\ exists d, s' = with_dev d (with_dev d' s)) -> Q ws s') ->
     wpe E m (fun ws s' => NoDup ws.*1 /\ (forall k, k ∈ ws.*1 -> A k) /\ exists d, s' = with_dev d (with_dev d' s)) (with_dev d' s) ->
     wpe E m Q (with_dev d' s)) as Hconv by (intros; eapply wpe_mono; eauto).
  destruct ((w.1 <? u32_max) && negb (bool_decide (w.1 ∈ except))) eqn:Htake.
  - breflect. destruct (Hw n w Hn) as [|[HAw Hnw]]; [lia|].
    eapply wpe_mono; [apply IH|].
    + rewrite fmap_app. simpl. apply NoDup_app. split_and!; [done | | by apply NoDup_singleton].
      intros k Hk ->%list_elem_of_singleton. done.
    + intros k. rewrite fmap_app, elem_of_app. intros [?| ->%list_elem_of_singleton]; [by apply HA | done].
    + intros i w' Hi. unfold vset in Hi. destruct (Z.ltb_spec (Z.of_nat n) 0); [lia|].
      rewrite Nat2Z.id in Hi. apply list_lookup_insert_Some in Hi as [(-> & <- & _)|[Hne Hi]]; [by left|].
      destruct (Hw i w' Hi) as [|[? ?]]; [by left|]. destruct (decide (w'.1 = u32_max)) as [|Hmax]; [by left|].
      right. split; [done|]. rewrite fmap_app, elem_of_app. intros [?|Heq%list_elem_of_singleton]; [done|].
      apply Hne. symmetry. by eapply Huniq.
    + intros i j wi wj Hi Hj. unfold vset in Hi, Hj. destruct (Z.ltb_spec (Z.of_nat n) 0); [lia|].
      rewrite Nat2Z.id in Hi, Hj.
      apply list_lookup_insert_Some in Hi as [(-> & <- & _)|[Hni Hi]]; [by simpl|].
      apply list_lookup_insert_Some in Hj as [(-> & <- & _)|[Hnj Hj]]; [by simpl; intros ->|].
      by eapply Huniq.
    + intros ws s' (? & ? & d' & ->). split_and!; try done. by exists d'.
  - eapply wpe_mono; [by apply IH|]. intros ws s' (? & ? & d' & ->). split_and!; try done. by exists d'.
Qed.

(** What a selection changes: the reclaim flag and the devices. *)
Definition flag_only (s s' : t D) : Prop := exists m d, s' = with_dev d (with_reclaimMore m s).

Lemma selectVictimBlock_ok E tick s :
  inv s -> select_errors E ->
  wpe E (selectVictimBlock tick []) (fun r s' =>
    flag_only s s' /\ NoDup r.1 /\ (forall k, k ∈ r.1 -> is_full (core s) k) /\
    (gcMode conf = GC_MODE_0 -> vlen r.1 <= reclaimBlock conf + pageCountToMaxPerf param)) s.
Proof.
  intros [HW Hc Hr] HE. unfold selectVictimBlock. wp_step. wp_step. wp_step. wp_step.
  assert (forall n, wpr E (reclaimTarget (totalPhysicalBlocks param) n)
    (fun m => gcMode conf = GC_MODE_0 -> m = reclaimBlock conf)) as Htarget.
  { intros n. unfold reclaimTarget. destruct (gcMode conf) eqn:Hmode; [done | | by apply (se_mode _ HE)].
    unfold f32_to_u64. destruct (f32_trunc _); [case_match; [done|]|]; by apply (se_mode1 _ HE). }
  eapply wpr_mono; [apply Htarget|]. intros n Hn. wp_step. unfold reclaimMore. wp_step. wp_step. wp_step.
  wp_step. wp_step. wp_step. wp_step. wp_step. wp_step.
  eapply wpr_mono; [by apply calculateVictimWeight_ok|]. intros ws [HND Hfull]. simpl in Hfull.
  wp_step.
  assert (forall weight s', (NoDup weight.*1 /\ (forall k, k ∈ weight.*1 -> is_full (core s) k)) ->
    (exists d, s' = with_dev d (with_reclaimMore false s)) ->
    wpe E (tick ← latency SELECT_VICTIM_BLOCK tick;
           mret (take (Z.to_nat (Z.min (if bReclaimMore s then u64 (n + pageCountToMaxPerf param) else n)
                   (vlen (sort_weights weight)))) (sort_weights weight).*1, tick))
      (fun r s' => flag_only s s' /\ NoDup r.1 /\ (forall k, k ∈ r.1 -> is_full (core s) k) /\
        (gcMode conf = GC_MODE_0 -> vlen r.1 <= reclaimBlock conf + pageCountToMaxPerf param)) s') as Hend.
  { intros weight s' [HN HF] (d & ->). wp_step. apply wpe_latency. intros t2 d2. wp_step. simpl.
    assert ((sort_weights weight).*1 ≡ₚ weight.*1) as Hperm by (by rewrite (sort_weights_perm weight)).
    split; [by exists false, d2|]. split.
    - eapply sublist_NoDup; [|apply sublist_take]. by rewrite Hperm.
    - split.
      + intros k Hk. apply HF. rewrite <- Hperm. apply elem_of_take in Hk as (i & Hi & _).
        by eapply list_elem_of_lookup_2.
      + intros Hm%Hn. subst n. pose proof geo_reclaim. pose proof geo_W. unfold vlen.
        rewrite length_take. assert ((if bReclaimMore s then u64 (reclaimBlock conf + pageCountToMaxPerf param)
          else reclaimBlock conf) <= reclaimBlock conf + pageCountToMaxPerf param); [|lia].
        destruct (bReclaimMore s); [apply Z.mod_le; lia | lia]. }
  assert (forall range, E NoReturn -> E OutOfRange ->
    wpe E (select_random random_fuel range [] ws []) (fun w s' =>
      (NoDup w.*1 /\ (forall k, k ∈ w.*1 -> is_full (core s) k)) /\
      exists d, s' = with_dev d (with_reclaimMore false s)) (with_reclaimMore false s)) as Hrand.
  { intros range HE1 HE2.
    eapply wpe_mono; [apply (select_random_ok E _ _ _ _ _ (is_full (core s))); try done|].
    - by constructor.
    - intros k Hk. by apply not_elem_of_nil in Hk.
    - intros i w Hi. right. split; [|apply not_elem_of_nil]. apply Hfull.
      apply list_elem_of_fmap. exists w. split; [done|]. by eapply list_elem_of_lookup_2.
    - intros i j w w' Hi Hj Heq _. eapply NoDup_lookup; [exact HND | |].
      + by rewrite list_lookup_fmap, Hi.
      + by rewrite list_lookup_fmap, Hj, Heq.
    - intros w s' (? & ? & ?). done. }
  destruct (evictPolicy conf) eqn:Hpol;
    try (wp_step; apply Hend; [done | exists (dev s); by destruct s]);
    destruct (se_random _ HE) as [HE1 HE2]; auto;
    (eapply wpe_mono; [by apply Hrand | intros w s' [? ?]; by apply Hend]).
Qed.

(** ** Greedy selection *)

(** The victims of the deterministic policies: as many as asked for or every
    full block, and no full block that is left weighs less than a victim. *)
Record lightest (weigh : Block.t -> res f32) (c : Core) (n : Z) (l : list Z) : Prop := {
  li_distinct : NoDup l;
  li_full : forall k, k ∈ l -> is_full c k;
  li_count : vlen l = n \/ (vlen l < n /\ forall k, is_full c k -> k ∈ l);
  li_least : forall k k' b b' w w', k ∈ l -> k' ∉ l -> blocks c !! k = Some b -> blocks c !! k' = Some b' ->
    ~ open_block b' -> weigh b = Ok w -> weigh b' = Ok w' -> f32_lt w' w = false;
}.

Lemma sorted_take weigh c ws n : 0 <= n ->
  NoDup ws.*1 -> (forall k w, (k, w) ∈ ws -> weighed weigh c k w /\ f32_is_nan w = false) ->
  (forall k b, blocks c !! k = Some b -> ~ open_block b -> k ∈ ws.*1) ->
  lightest weigh c n (take (Z.to_nat (Z.min n (vlen (sort_weights ws)))) (sort_weights ws).*1).
Proof.
  intros Hn HND Hw Hall. set (sw := sort_weights ws). set (m := Z.to_nat (Z.min n (vlen sw))).
  assert (sw ≡ₚ ws) as Hperm by apply sort_weights_perm.
  assert (forall k w, (k, w) ∈ sw -> weighed weigh c k w /\ f32_is_nan w = false) as Hsw
    by (intros k w; rewrite Hperm; apply Hw).
  assert (forall k, k ∈ take m sw.*1 -> exists i w, (i < m)%nat /\ sw !! i = Some (k, w)) as Htake.
  { intros k (i & Hi & Hlt)%elem_of_take. rewrite list_lookup_fmap in Hi.
    destruct (sw !! i) as [[k' w]|] eqn:Hsi; [|done]. simpl in Hi. injection Hi as ->. by exists i, w. }
  split.
  - eapply sublist_NoDup; [|apply sublist_take]. by rewrite Hperm.
  - intros k (i & w & _ & Hi)%Htake. by eapply weighed_full, Hsw, list_elem_of_lookup_2.
  - unfold vlen in *. rewrite length_take, length_fmap. destruct (decide (n <= Z.of_nat (length sw))); [left; lia|].
    right. split; [lia|]. intros k (b & Hb & Hf). rewrite take_ge by (rewrite length_fmap; lia).
    rewrite Hperm. by eapply Hall.
  - intros k k' b b' w w' (i & w0 & Hi & Hsi)%Htake Hnot Hb Hb' Hf Hwb Hwb'.
    destruct (Hsw k w0) as [(b0 & Hb0 & _ & Hwb0) _]; [by eapply list_elem_of_lookup_2|].
    assert (w0 = w) as -> by congruence.
    assert (k' ∈ sw.*1) as ([k2 w2] & -> & Hin)%list_elem_of_fmap by (rewrite Hperm; by eapply Hall).
    simpl in *. destruct (Hsw _ _ Hin) as [(b2 & Hb2 & _ & Hwb2) _]. assert (w2 = w') as -> by congruence.
    apply list_elem_of_lookup_1 in Hin as [j Hj].
    assert (i < j)%nat.
    { destruct (decide (i < j)%nat); [done|]. exfalso. apply Hnot. apply elem_of_take. exists j.
      rewrite list_lookup_fmap, Hj. split; [done | lia]. }
    refine (sort_weights_sorted ws _ i j (k, w) (k2, w') _ Hsi Hj); [|done].
    apply Forall_forall. intros [k3 w3] Hin3. by apply (Hw k3 w3).
Qed.

(** The number of blocks a collection asks for in [GC_MODE_0]. *)
Definition wanted s : Z :=
  if bReclaimMore s then u64 (reclaimBlock conf + pageCountToMaxPerf param) else reclaimBlock conf.

Lemma greedy_number b : Block.inv P U b -> wpr noerr (weight_greedy b) (fun w => f32_is_nan w = false).
Proof.
  intros Hinv. unfold weight_greedy. wp_step. eapply wpr_mono; [by apply raw_ok|]. intros v _. wp_step.
  apply f32_of_Z_number.
Qed.

Lemma selectVictimBlock_greedy tick s :
  inv s -> gcMode conf = GC_MODE_0 -> evictPolicy conf = POLICY_GREEDY ->
  wpe noerr (selectVictimBlock tick []) (fun r s' =>
    lightest weight_greedy (core s) (wanted s) r.1 /\ exists d, s' = with_dev d (with_reclaimMore false s)) s.
Proof.
  intros [HW Hc Hr] Hmode Hpol. unfold selectVictimBlock, reclaimTarget. rewrite Hmode, Hpol.
  pose proof geo_reclaim. pose proof geo_W.
  wp_step. wp_step. wp_step. wp_step. wp_step. wp_step. unfold reclaimMore. wp_step. wp_step. wp_step.
  wp_step. wp_step. wp_step. wp_step. wp_step. wp_step.
  change (if bReclaimMore s then u64 (reclaimBlock conf + pageCountToMaxPerf param) else reclaimBlock conf)
    with (wanted s).
  eapply wpr_mono.
  { apply (weigh_blocks_all noerr ∅ (fun _ => true) weight_greedy); [done|].
    intros b Hb. eapply wpr_mono; [by apply greedy_number | done]. }
  simpl. intros ws (HND & Hw & Hall). wp_step. wp_step. wp_step. apply wpe_latency. intros t2 d2. wp_step. simpl.
  split; [|by exists d2]. apply sorted_take.
  - unfold wanted. case_match; [apply u64_range | lia].
  - done.
  - intros k w Hin. split; [by apply Hw|]. destruct (Hw k w Hin) as (b & Hb & _ & Hwb).
    destruct (wc_blocks _ _ HW k b Hb) as (_ & _ & Hinvb).
    pose proof (greedy_number b Hinvb) as Hg. by rewrite Hwb in Hg.
  - intros k b Hb. by apply Hall.
Qed.
End SelectProof.
