(* ===== verification/PmSpec.v ===== *)
(** * The host operations refine the abstract specification

    Each operation of [host_op], run from a state that satisfies the invariant,
    either takes the abstract step and keeps the invariant, or fails in one of
    the ways [op_error] lists. *)

From Stdlib Require Import Sorted.
From S2P Require Import Prelude Bitset Block Float32 Types PmState PmRefresh PmAlloc PmGc PmWrite PageMapping PmInv PmRefreshProof PmAllocProof PmWriteProof PmGcProof PmSelectProof.

(** ** What the FTL promises its callers

    The abstract state of the FTL is the set of logical pages it knows, each
    with a flag per unit: mapped or not.  [host_op] is the interface (the
    refresh timer included), [exec] runs an operation on the detailed state and
    [spec_step] on the abstract one. *)

Section Spec.
  Context `{Setup}.

Notation spec := (gmap Z (list bool)).

(** The abstract state of a detailed one. *)
Definition abs (c : Core) : spec := (fun row : list (Z * Z) => is_mapped <$> row) <$> table c.

(** The units of a request, as a list of flags. *)
Definition selection (io : Bitset.t) : list bool := selected io <$> seqZ 0 bitsetSize.

Definition spec_write (io : Bitset.t) (l : Z) (m : spec) : spec :=
  <[l := zip_with orb (default (replicate (Z.to_nat bitsetSize) false) (m !! l)) (selection io)]> m.

(** Trimming a page that is known but not wholly mapped is not supported. *)
Definition spec_trim (l : Z) (m : spec) : option spec :=
  match m !! l with
  | None => Some m
  | Some row => if forallb id row then Some (delete l m) else None
  end.

Definition spec_format (range : LPNRange) (m : spec) : option spec :=
  if decide (map_Forall (fun l row => in_format_range range l = true -> forallb id row = true) m)
  then Some (filter (fun '(l, _) => in_format_range range l = false) m)
  else None.

Inductive host_op : Type :=
  | OpRead (req : Request) (tick : Z)
  | OpWrite (req : Request) (tick : Z)
  | OpTrim (req : Request) (tick : Z)
  | OpFormat (range : LPNRange) (tick : Z)
  | OpRefresh (tick : Z).

Definition spec_step (op : host_op) (m : spec) : option spec :=
  match op with
  | OpRead _ _ | OpRefresh _ => Some m
  | OpWrite req _ =>
      Some (if existsb id (Bitset.bit (ioFlag req) <$> seqZ 0 (ioUnitInPage param))
            then spec_write (ioFlag req) (lpn req) m else m)
  | OpTrim req _ => spec_trim (lpn req) m
  | OpFormat range _ => spec_format range m
  end.

Definition exec {D} `{Device D} `{StdOrder} (op : host_op) : M (t D) unit :=
  match op with
  | OpRead req tick => PageMapping.read req tick;; mret tt
  | OpWrite req tick => PageMapping.write req tick;; mret tt
  | OpTrim req tick => PageMapping.trim req tick;; mret tt
  | OpFormat range tick => PageMapping.format range tick;; mret tt
  | OpRefresh tick => refreshEventHandler tick
  end.

(** Sequences of operations. *)
Definition run {D} `{Device D} `{StdOrder} (ops : list host_op) : M (t D) unit := iterM exec ops.

Fixpoint spec_run (ops : list host_op) (m : spec) : option spec :=
  match ops with
  | [] => Some m
  | op :: ops => match spec_step op m with Some m' => spec_run ops m' | None => None end
  end.

(** The I/O flags of a request have a flag per unit. *)
Definition op_ok (op : host_op) : Prop :=
  match op with
  | OpRead req _ | OpWrite req _ | OpTrim req _ => Bitset.wf (ioUnitInPage param) (ioFlag req)
  | _ => True
  end.

(** ** The abstract state through [live] *)

Lemma abs_lookup c l : abs c !! l = (fun row : list (Z * Z) => is_mapped <$> row) <$> (table c !! l).
Proof. unfold abs. apply lookup_fmap. Qed.

Lemma live_flag c l row i : table c !! l = Some row ->
  (live c l i <-> vget (is_mapped <$> row) i = Some true).
Proof.
  intros Hrow. rewrite (live_row _ _ _ _ Hrow), vget_fmap. split.
  - intros (m & -> & Hlt). simpl. f_equal. by apply is_mapped_spec.
  - destruct (vget row i) as [m|]; [|done]. simpl. intros [= Hm%is_mapped_spec]. eauto.
Qed.

Lemma abs_intro X c m : wfc X c ->
  (forall l, match m !! l with
     | None => table c !! l = None
     | Some fl => table c !! l <> None /\ vlen fl = bitsetSize /\
                  forall i, 0 <= i < bitsetSize -> (vget fl i = Some true <-> live c l i)
     end) -> abs c = m.
Proof.
  intros HW Hm. apply map_eq. intros l. rewrite abs_lookup. specialize (Hm l).
  destruct (m !! l) as [fl|]; [|by rewrite Hm]. destruct Hm as (Hsome & Hlen & Hfl).
  destruct (table c !! l) as [row|] eqn:Hrow; [|done]. simpl. f_equal.
  assert (vlen (is_mapped <$> row) = bitsetSize) as Hl by (rewrite vlen_fmap; by eapply (wc_row _ _ HW)).
  apply vlist_eq; [lia|]. intros i Hi. rewrite Hl in Hi.
  pose proof (live_flag c l row i Hrow) as Hlive. specialize (Hfl i Hi). rewrite Hlive in Hfl.
  destruct (vget_in_range (is_mapped <$> row) i) as [x Hx]; [lia|].
  destruct (vget_in_range fl i) as [y Hy]; [lia|]. rewrite Hx, Hy in *. f_equal.
  destruct x, y; naive_solver.
Qed.

Lemma abs_same X c c' : wfc X c -> wfc X c' ->
  (forall l i, live c' l i <-> live c l i) ->
  (forall l, table c' !! l = None <-> table c !! l = None) -> abs c' = abs c.
Proof.
  intros HW HW' Hlive Hrows. apply (abs_intro X); [done|]. intros l. rewrite abs_lookup.
  destruct (table c !! l) as [row|] eqn:Hrow; simpl; [|by apply Hrows].
  split; [by rewrite Hrows, Hrow|]. split; [rewrite vlen_fmap; by eapply (wc_row _ _ HW)|].
  intros i Hi. rewrite Hlive. symmetry. by apply live_flag.
Qed.

Lemma selection_get io i : 0 <= i < bitsetSize -> vget (selection io) i = Some (selected io i).
Proof.
  intros Hi. unfold selection. rewrite vget_fmap. unfold vget. destruct (Z.ltb_spec i 0); [lia|].
  rewrite (proj2 (lookup_seqZ _ _ _ i)) by lia. done.
Qed.

Lemma vget_zip_with {A B C} (f : A -> B -> C) l k i :
  vget (zip_with f l k) i = x ← vget l i; y ← vget k i; Some (f x y).
Proof. unfold vget. destruct (i <? 0); [done|]. apply lookup_zip_with. Qed.

Lemma all_mapped row : forallb id row = true <-> forall i, 0 <= i < vlen row -> vget row i = Some true.
Proof.
  rewrite forallb_forall. split.
  - intros Hall i Hi. destruct (vget_in_range row i Hi) as [x Hx]. rewrite Hx. f_equal.
    apply Hall. apply list_elem_of_In. by eapply vget_elem_of.
  - intros Hall x Hx%list_elem_of_In%elem_of_vget. destruct Hx as (i & Hi & Hx).
    rewrite Hall in Hx by done. by injection Hx as <-.
Qed.

Lemma fully_mapped_abs X c l row : wfc X c -> table c !! l = Some row ->
  (fully_mapped c l <-> forallb id (is_mapped <$> row) = true).
Proof.
  intros HW Hrow. rewrite all_mapped, vlen_fmap, (wc_row _ _ HW l row Hrow). unfold fully_mapped.
  split; intros Hall i Hi; by apply (live_flag c l row i Hrow), Hall.
Qed.

(** A write in the abstract. *)
Lemma abs_write X c c' io l : 0 <= bitsetSize -> wfc X c -> wfc X c' ->
  (forall l' i, live c' l' i <-> live c l' i \/ (l' = l /\ 0 <= i < bitsetSize /\ selected io i = true)) ->
  (forall l', table c' !! l' = None <-> table c !! l' = None /\ l' <> l) ->
  abs c' = spec_write io l (abs c).
Proof.
  intros HS HW HW' Hlive Hrows. apply (abs_intro X); [done|]. intros l'. unfold spec_write.
  destruct (decide (l' = l)) as [->|Hne].
  - rewrite lookup_insert_eq.
    set (row := default _ (abs c !! l)).
    assert (vlen row = bitsetSize /\ forall i, 0 <= i < bitsetSize -> (vget row i = Some true <-> live c l i)) as [Hl Hr].
    { unfold row. rewrite abs_lookup. destruct (table c !! l) as [r|] eqn:Hrow; simpl.
      - split; [rewrite vlen_fmap; by eapply (wc_row _ _ HW)|]. intros i _. symmetry. by apply live_flag.
      - split; [by apply vlen_replicate|]. intros i Hi. rewrite vget_replicate by done.
        split; [done|]. intros (r & m & Hr & _). congruence. }
    assert (vlen (selection io) = bitsetSize) as Hls.
    { unfold selection. rewrite vlen_fmap. unfold vlen. rewrite length_seqZ. lia. }
    split; [rewrite Hrows; naive_solver|]. split.
    + unfold vlen in *. rewrite length_zip_with. lia.
    + intros i Hi. rewrite vget_zip_with, selection_get, Hlive by done. rewrite <- Hr by done.
      destruct (vget_in_range row i) as [x Hx]; [lia|]. rewrite Hx. simpl.
      destruct x, (selected io i); naive_solver.
  - rewrite lookup_insert_ne by done. rewrite abs_lookup.
    destruct (table c !! l') as [r|] eqn:Hrow; simpl; [|by apply Hrows].
    split; [rewrite Hrows; naive_solver|]. split; [rewrite vlen_fmap; by eapply (wc_row _ _ HW)|].
    intros i Hi. rewrite Hlive. rewrite <- (live_flag c l' r i Hrow). naive_solver.
Qed.
End Spec.

Section OpsProof.
  Context {D : Type} `{DeviceLaws D} `{StdOrderLaws} `{Geometry}.
  Implicit Types (s : t D).

Notation N := (totalPhysicalBlocks param).
Notation P := (pagesInBlock param).
Notation U := (ioUnitInPage param).

(** Running out of blocks or of candidates, and configurations the selection rejects. *)
Inductive resource_error : err -> Prop :=
  | re_corrupted : resource_error (Panic "Corrupted")
  | re_no_free : resource_error (Panic "No free block left")
  | re_iterator : resource_error BadIterator
  | re_mode1 : gcMode conf = GC_MODE_1 -> resource_error UB
  | re_mode : gcMode conf = GC_MODE_other -> resource_error (Panic "Invalid GC mode")
  | re_policy : evictPolicy conf = POLICY_other -> resource_error (Panic "Invalid evict policy")
  | re_random e : evictPolicy conf = POLICY_RANDOM \/ evictPolicy conf = POLICY_DCHOICE ->
      e = NoReturn \/ e = OutOfRange -> resource_error e.

Definition op_error (op : host_op) (m : gmap Z (list bool)) (e : err) : Prop :=
  resource_error e \/
  match op with
  | OpTrim _ _ => e = Panic "Block is not in use" /\ spec_step op m = None
  | OpFormat _ _ => (e = Panic "Block is not in use" /\ spec_step op m = None) \/
                    e = Panic "There are valid pages in victim block"
  | OpRefresh _ => e = Panic "Corrupted layer check bitmap, refresh failed"
  | _ => False
  end.

(** Errors of the collector, with or without full victims. *)
Record gc_errors (E : err -> Prop) : Prop := {
  ge_resource : forall e, resource_error e -> E e;
}.

Lemma select_errors_of E : gc_errors E -> select_errors E.
Proof.
  intros [HE]. split; intros Hc; try (apply HE; by constructor).
  split; apply HE; eapply re_random; eauto.
Qed.

Definition no_room : Z -> Core -> Cursor -> Prop := fun _ _ _ => True.

Lemma partial_collect E fulls mv invalid l tick s :
  hotColdSeperation conf = 0 -> gc_errors E -> inv s -> keeps_pages (mvSource mv) ->
  mvAlloc mv = getLastFreeBlock -> NoDup l ->
  (forall k, k ∈ l -> victim fulls 0 (core s) k) ->
  (fulls = false -> E (Panic "There are valid pages in victim block")) ->
  wpe E (collect mv invalid eraseInternal l tick) (fun _ s' =>
    gc_rel s s' /\ forall k, k ∈ l -> blocks (core s') !! k = None) s.
Proof.
  intros Hhc [HE] Hinv Hmv Hal HND Hvic HEv.
  apply (collect_ok E no_room) with (fulls := fulls); try done.
  - intros n c cu _ _. split; intros; apply HE; constructor.
  - intros c cu _ _. apply HE. constructor.
Qed.

Lemma full_victim c k : is_full c k -> victim true 0 c k.
Proof. intros (b & Hb & Hf). exists b. split; [done|]. intros _. split; [done | lia]. Qed.

Lemma inv_frame s s' : inv s -> core s' = core s -> plainCur s' = plainCur s -> refresh s' = refresh s -> inv s'.
Proof. intros [] H1' H2' H3'. split; by rewrite ?H1', ?H2', ?H3'. Qed.

Lemma gc_rel_frame s s1 : inv s -> core s1 = core s -> plainCur s1 = plainCur s ->
  refresh s1 = refresh s -> gc_rel s s1.
Proof.
  intros Hi Hc Hp Hr. split; [by eapply inv_frame | |]; intros; unfold live; by rewrite Hc.
Qed.

(** Selection and collection, as the write and refresh paths call them. *)
Lemma runGc_ok E tick r s :
  hotColdSeperation conf = 0 -> gc_errors E -> inv s ->
  wpe E (runGc tick r) (fun _ s' => gc_rel s s') s.
Proof.
  intros Hhc HE Hinv. unfold runGc. wp_step.
  eapply wpe_mono; [apply selectVictimBlock_ok; [done | by apply select_errors_of]|].
  intros [l t1] s1 ((m & d & ->) & HND & Hfull & _). simpl in *. wp_step.
  assert (gc_rel s (with_dev d (with_reclaimMore m s))) as Hg1 by (by apply gc_rel_frame).
  unfold doGarbageCollection. eapply wpe_mono.
  { apply (partial_collect E true); try done; [apply Hg1|].
    intros k Hk. by apply full_victim, Hfull. }
  intros t2 s2 [Hg2 _]. unfold modStat. wp_step.
  eapply gc_rel_trans; [exact Hg1|]. eapply gc_rel_trans; [exact Hg2|].
  apply gc_rel_frame; try done. apply Hg2.
Qed.

(** ** Write *)

Record wrote (req : Request) s s' : Prop := {
  wt_inv : inv s';
  wt_live : forall l i, live (core s') l i <->
            live (core s) l i \/ (l = lpn req /\ 0 <= i < bitsetSize /\ selected (ioFlag req) i = true);
  wt_rows : forall l, table (core s') !! l = None <-> table (core s) !! l = None /\ l <> lpn req;
}.

Lemma stored_wrote req s s1 s' : table (core s1) !! lpn req <> None -> stored req s s1 -> gc_rel s1 s' ->
  wrote req s s'.
Proof.
  intros Hrow [Hi Ho Hl] [Hi' Hl' Hr']. split; [done | |].
  - intros l i. rewrite Hl'. destruct (decide (l = lpn req)) as [->|Hne].
    + rewrite Hl. naive_solver.
    + unfold live. rewrite Ho by done. naive_solver.
  - intros l. rewrite Hr'. destruct (decide (l = lpn req)) as [->|Hne]; [naive_solver|].
    rewrite Ho by done. naive_solver.
Qed.

Lemma writeInternal_ok E req tick s :
  hotColdSeperation conf = 0 -> gc_errors E -> inv s -> Bitset.wf U (ioFlag req) ->
  wpe E (writeInternal req tick true) (fun _ s' => wrote req s s') s.
Proof.
  intros Hhc HE Hinv Hio. unfold writeInternal. wp_step. eapply wpe_mono.
  { apply storeData_ok; try done; intros; apply (ge_resource _ HE); constructor. }
  intros t1 s1 Hst. wp_step. wp_step. wp_step.
  pose proof (so_row _ _ _ Hst) as Hrow. pose proof (so_inv _ _ _ Hst) as Hi1. wp_step.
  - eapply wpe_mono; [by apply runGc_ok|]. intros u s2 Hg. wp_step. by eapply stored_wrote.
  - wp_step. eapply stored_wrote; [done | exact Hst | done].
Qed.

(** ** Format *)

Lemma insert_uniq_elem x y l : y ∈ insert_uniq x l <-> y = x \/ y ∈ l.
Proof.
  induction l as [|z l IH]; simpl; [set_solver|].
  destruct (Z.ltb_spec x z); [set_solver|]. destruct (Z.eqb_spec x z); set_solver.
Qed.

Lemma sort_unique_elem y l : y ∈ sort_unique l <-> y ∈ l.
Proof. induction l as [|x l IH]; simpl; [done|]. rewrite insert_uniq_elem, IH. set_solver. Qed.

Lemma insert_uniq_sorted x l : StronglySorted Z.lt l -> StronglySorted Z.lt (insert_uniq x l).
Proof.
  induction 1 as [|z l Hs IH Hall]; simpl; [by repeat constructor|].
  destruct (Z.ltb_spec x z).
  - constructor; [by constructor|]. constructor; [done|]. eapply Forall_impl; [exact Hall|]. simpl. lia.
  - destruct (Z.eqb_spec x z); [by constructor|]. constructor; [done|]. apply Forall_forall.
    intros y [->|Hy]%insert_uniq_elem; [lia|]. by eapply Forall_forall in Hall.
Qed.

Lemma sort_unique_sorted l : StronglySorted Z.lt (sort_unique l).
Proof. induction l as [|x l IH]; simpl; [constructor | by apply insert_uniq_sorted]. Qed.

Lemma sort_unique_NoDup l : NoDup (sort_unique l).
Proof.
  assert (forall l, StronglySorted Z.lt l -> NoDup l) as Hs; [|apply Hs, sort_unique_sorted].
  induction 1 as [|z l' Hs IH Hall]; constructor; [|done].
  intros Hz. eapply Forall_forall in Hall; [|exact Hz]. lia.
Qed.

(** Where the mapping of a unit that is not in transit points. *)
Lemma unit_block X c l row i m : wfc X c -> table c !! l = Some row -> vget row i = Some m -> (l, i) ∉ X ->
  (m = unmapped /\ blocks c !! m.1 = None /\ ~ live c l i) \/
  (m <> unmapped /\ is_Some (blocks c !! m.1) /\ live c l i).
Proof.
  intros HW Hrow Hm HX. destruct (wc_entry _ _ HW l row i m Hrow Hm HX) as [->|Hh].
  - left. split; [done|]. split.
    + destruct (blocks c !! unmapped.1) as [b|] eqn:Hb; [|done].
      destruct (wc_blocks _ _ HW _ _ Hb). simpl in *. lia.
    + intros (row' & m' & Hr' & Hm' & Hlt). simplify_eq. simpl in *. lia.
  - right. pose proof (holds_mapped _ _ HW _ _ _ Hh) as Hlt. destruct Hh as (b & Hb & _).
    split; [|split; [by eauto | by exists row, m]].
    intros ->. destruct (wc_blocks _ _ HW _ _ Hb). simpl in *. lia.
Qed.

(** The state after some entries were removed: only blocks and table changed. *)
Definition cleared (gone : Z -> Prop) s s' : Prop :=
  (exists bs tb, s' = with_core (core_table tb (core_blocks bs (core s))) s) /\
  (forall l, (gone l -> table (core s') !! l = None) /\
             (~ gone l -> table (core s') !! l = table (core s) !! l)).

Lemma formatEntry_ok (E : err -> Prop) l row acc s :
  wfc ∅ (core s) -> table (core s) !! l = Some row ->
  (forall k, k ∈ acc -> is_Some (blocks (core s) !! k)) ->
  (~ fully_mapped (core s) l -> E (Panic "Block is not in use")) ->
  wpe E (formatEntry l acc) (fun acc' s' =>
    wfc ∅ (core s') /\ fully_mapped (core s) l /\
    (forall k, k ∈ acc' -> is_Some (blocks (core s') !! k)) /\
    exists bs, s' = with_core (core_table (delete l (table (core s))) (core_blocks bs (core s))) s) s.
Proof.
  intros HW Hrow Hacc HE. unfold formatEntry. pose proof units_bound as HS. wp_step. unfold for_units.
  apply wpe_for_range with (I := fun i acc' s' =>
    (exists bs, s' = with_core (core_blocks bs (core s)) s) /\
    wfc (transit l (fun _ => true) 0 i) (core s') /\
    (forall k, k ∈ acc' -> is_Some (blocks (core s') !! k)) /\
    forall j, 0 <= j < i -> live (core s) l j); [lia | | |].
  - rewrite transit_empty. split_and!; [|done | done | lia].
    exists (blocks (core s)). by destruct s as [[]].
  - intros i acc1 s1 Hi ((bs & ->) & HW1 & Hacc1 & Hl).
    destruct (row_get _ _ HW _ _ i Hrow Hi) as [m Hm].
    assert ((l, i) ∉ transit l (fun _ => true) 0 i) as Hnot by (rewrite elem_of_transit; lia).
    wp_step. eapply wpe_getMapping; [exact Hrow | exact Hm|]. wp_step. apply wpe_hasB.
    destruct (unit_block _ _ _ _ _ _ HW1 Hrow Hm Hnot) as [(-> & Hnone & Hnl)|(Hne & [b Hb] & Hlive)].
    + rewrite Hnone, bool_decide_eq_false_2 by (by intros [? ?]). apply wpe_fail, HE.
      intros Hfull. by apply Hnl, Hfull.
    + rewrite Hb, bool_decide_eq_true_2 by eauto. wp_step.
      eapply wpe_mono; [by eapply invalidate_unit|].
      intros u s2 (b' & -> & _ & HW2). wp_step. split_and!.
      * by eexists.
      * rewrite transit_snoc by lia. exact HW2.
      * simpl. intros k [Hk|Hk%list_elem_of_singleton]%elem_of_app.
        -- destruct (decide (k = m.1)) as [->|]; [rewrite lookup_insert_eq; by eauto|].
           rewrite lookup_insert_ne by done. by apply Hacc1.
        -- subst k. rewrite lookup_insert_eq. eauto.
      * intros j Hj. destruct (decide (j = i)) as [->|]; [exact Hlive | apply Hl; lia].
  - intros acc1 s1 ((bs & ->) & HW1 & Hacc1 & Hl). wp_step. unfold eraseT. wp_step. wp_step.
    split_and!; try done.
    + apply (step_delete _ _ HW1 l).
      * intros i Hi. apply elem_of_transit. done.
      * intros [l' i] Hx. by apply elem_of_transit in Hx as [-> _].
    + by exists bs.
Qed.

(** The rows of the range are removed one by one. *)
Lemma formatLoop_ok (E : err -> Prop) keys s :
  inv s -> NoDup keys -> (forall l, l ∈ keys -> table (core s) !! l <> None) ->
  ((exists l, l ∈ keys /\ ~ fully_mapped (core s) l) -> E (Panic "Block is not in use")) ->
  wpe E (foldM formatEntry keys []) (fun acc s' =>
    inv s' /\ (forall k, k ∈ acc -> is_Some (blocks (core s') !! k)) /\
    (forall l, l ∈ keys -> fully_mapped (core s) l) /\
    forall l, table (core s') !! l = if decide (l ∈ keys) then None else table (core s) !! l) s.
Proof.
  intros Hinv HND Hrows HE.
  apply wpe_foldM with (I := fun rest acc s' => inv s' /\ NoDup rest /\ (forall l, l ∈ rest -> l ∈ keys) /\
    (forall k, k ∈ acc -> is_Some (blocks (core s') !! k)) /\
    (forall l, l ∈ keys -> l ∈ rest \/ fully_mapped (core s) l) /\
    forall l, table (core s') !! l = if decide (l ∈ keys /\ l ∉ rest) then None else table (core s) !! l).
  - split_and!; try done.
    + by intros k ?%not_elem_of_nil.
    + intros l Hl. by left.
    + intros l. by rewrite decide_False by naive_solver.
  - intros l rest acc s1 (Hi1 & HND1 & Hsub & Hacc & Hdone & Htab).
    apply NoDup_cons in HND1 as [Hnot HND1]. pose proof Hi1 as [HW1 Hc1 Hr1].
    assert (l ∈ keys) as Hlk by (apply Hsub; left).
    assert (table (core s1) !! l = table (core s) !! l) as Hsame.
    { rewrite Htab, decide_False; [done|]. intros [_ Hno]. apply Hno. left. }
    destruct (table (core s1) !! l) as [row|] eqn:Hrow; [|by destruct (Hrows l Hlk)].
    assert (fully_mapped (core s1) l <-> fully_mapped (core s) l) as Hfm.
    { unfold fully_mapped, live. rewrite Hrow, <- Hsame. done. }
    eapply wpe_mono.
    { apply (formatEntry_ok E l row acc s1); [done | done | done|].
      rewrite Hfm. intros Hn. apply HE. by exists l. }
    intros acc2 s2 (HW2 & Hfull & Hacc2 & bs & ->). simpl in *. split_and!; try done.
    + intros l' Hl'. apply Hsub. by right.
    + intros l' Hl'. destruct (Hdone l' Hl') as [[->|]%elem_of_cons|]; [right; by apply Hfm | by left | by right].
    + intros l'. destruct (decide (l' = l)) as [->|Hne].
      * rewrite lookup_delete_eq, decide_True by done. done.
      * rewrite lookup_delete_ne, Htab by done. destruct (decide (l' ∈ keys /\ l' ∉ l :: rest)) as [[? Hno]|Hno].
        -- rewrite decide_True; [done|]. split; [done|]. intros ?. apply Hno. by right.
        -- rewrite decide_False; [done|]. intros [? Hno']. apply Hno. split; [done|].
           by intros [?|?]%elem_of_cons.
  - intros acc s1 (Hi1 & _ & _ & Hacc & Hdone & Htab). split_and!; try done.
    + intros l Hl. destruct (Hdone l Hl) as [?%not_elem_of_nil|]; done.
    + intros l. rewrite Htab. destruct (decide (l ∈ keys)).
      * rewrite decide_True; [done|]. split; [done | apply not_elem_of_nil].
      * by rewrite decide_False by naive_solver.
Qed.

Lemma format_keys range s l :
  let keys := filter (fun l => in_format_range range l = true) (umap_order (table (core s))).*1 in
  NoDup keys /\ (l ∈ keys <-> in_format_range range l = true /\ table (core s) !! l <> None).
Proof.
  intros keys. split.
  - apply NoDup_filter. rewrite (umap_order_perm (table (core s))). apply NoDup_fst_map_to_list.
  - unfold keys. rewrite list_elem_of_filter, (umap_order_perm (table (core s))). split.
    + intros [Hr ([l' row] & -> & Hin)%list_elem_of_fmap]. apply elem_of_map_to_list in Hin.
      simpl in *. by rewrite Hin.
    + intros [Hr Hl]. split; [done|]. destruct (table (core s) !! l) as [row|] eqn:Hrow; [|done].
      apply list_elem_of_fmap. exists (l, row). split; [done|]. by apply elem_of_map_to_list.
Qed.

Lemma format_ok E range tick s :
  hotColdSeperation conf = 0 -> gc_errors E -> inv s ->
  (spec_format range (abs (core s)) = None -> E (Panic "Block is not in use")) ->
  E (Panic "There are valid pages in victim block") ->
  wpe E (format range tick) (fun _ s' =>
    inv s' /\ spec_format range (abs (core s)) = Some (abs (core s'))) s.
Proof.
  intros Hhc HE Hinv HEn HEv. pose proof Hinv as [HW Hc Hr]. unfold format. wp_step. wp_step.
  set (keys := filter _ _).
  assert (forall l, l ∈ keys <-> in_format_range range l = true /\ table (core s) !! l <> None) as Hkeys
    by (intros l; apply format_keys).
  assert ((forall l, l ∈ keys -> fully_mapped (core s) l) <->
    map_Forall (fun l row => in_format_range range l = true -> forallb id row = true) (abs (core s))) as Hfull.
  { split.
    - intros Hall l fl Hfl Hr'. rewrite abs_lookup in Hfl.
      destruct (table (core s) !! l) as [row|] eqn:Hrow; [|done]. simpl in Hfl. injection Hfl as <-.
      apply (fully_mapped_abs ∅ (core s) l row HW Hrow), Hall, Hkeys. split; [done|]. by rewrite Hrow.
    - intros Hall l [Hr' Hl]%Hkeys. destruct (table (core s) !! l) as [row|] eqn:Hrow; [|done].
      apply (fully_mapped_abs ∅ (core s) l row HW Hrow), (Hall l); [|done].
      by rewrite abs_lookup, Hrow. }
  wp_step. eapply wpe_mono.
  { apply (formatLoop_ok E keys s Hinv); [apply (format_keys range s 0) | by intros l [_ ?]%Hkeys|].
    intros (l & Hl & Hn). apply HEn. unfold spec_format. rewrite decide_False; [done|].
    intros Hall. by apply Hn, Hfull. }
  intros acc s1 (Hi1 & Hacc & Hdone & Htab).
  rewrite (proj2 (Z.eqb_eq _ _) Hhc). wp_step. unfold doGarbageCollection. eapply wpe_mono.
  { apply (partial_collect E false); try done; [apply sort_unique_NoDup|].
    intros k Hk. destruct (Hacc k (proj1 (sort_unique_elem k acc) Hk)) as [b Hb]. by exists b. }
  intros t2 s2 [Hg2 _]. apply wpe_latency. intros t3 d3. simpl. split.
  { by destruct (gr_inv _ _ Hg2) as []; split. }
  unfold spec_format. rewrite decide_True by (by apply Hfull). f_equal. symmetry.
  rewrite (abs_same ∅ (core s1) (core s2)); [|apply Hi1 | apply Hg2 | apply Hg2 | apply Hg2].
  apply map_eq. intros l. rewrite abs_lookup, Htab.
  destruct (decide (in_format_range range l = false)) as [Hr'|Hr'].
  - rewrite decide_False by (intros [? _]%Hkeys; congruence). rewrite <- abs_lookup.
    symmetry. apply option_eq. intros fl. rewrite map_lookup_filter_Some. naive_solver.
  - assert (filter (fun '(l, _) => in_format_range range l = false) (abs (core s)) !! l = None) as ->.
    { apply map_lookup_filter_None. right. by intros fl _. }
    case_decide as Hk; [done|].
    destruct (table (core s) !! l) eqn:Hrow; [|done]. exfalso. apply Hk, Hkeys. rewrite Hrow.
    split; [by destruct (in_format_range range l) | done].
Qed.

(** ** Refresh *)

Lemma refresh_only_gc_rel s s' : inv s -> refresh_only s s' -> gc_rel s s'.
Proof. intros [] (r & d & -> & Hr). split; [by split | done | done]. Qed.

Lemma partial_relocatePage E mv src beginAt page p s :
  hotColdSeperation conf = 0 -> gc_errors E -> inv s -> keeps_pages (mvSource mv) ->
  mvAlloc mv = getLastFreeBlock -> is_Some (blocks (core s) !! src) -> 0 <= page < P ->
  wpe E (relocatePage mv src beginAt page p) (fun _ s' =>
    gc_rel s s' /\ is_Some (blocks (core s') !! src)) s.
Proof.
  intros Hhc [HE] Hinv Hmv Hal [b Hb] Hp.
  eapply wpe_mono; [apply (relocatePage_ok E no_room) with (n := 0) (b := b); try done|].
  - intros n c cu _ _. split; intros; apply HE; constructor.
  - intros p' s' (_ & _ & Hm). split; [by eapply moved_gc_rel|].
    destruct (md_blocks _ _ _ Hm src b Hb) as (b' & Hb' & _). eauto.
Qed.

Lemma layerPages_range lay page : 0 <= lay < 64 -> page ∈ layerPages lay -> 0 <= page < P.
Proof.
  intros Hl (j & -> & Hj)%list_elem_of_fmap. apply list_elem_of_filter in Hj as [Hlt Hj%elem_of_seqZ]. lia.
Qed.

Lemma refreshLayer_ok (E : err -> Prop) q layer beginAt p s :
  hotColdSeperation conf = 0 -> gc_errors E ->
  E (Panic "Corrupted layer check bitmap, refresh failed") -> inv s -> 0 <= layer < layers ->
  wpe E (refreshLayer q layer beginAt p) (fun _ s' => gc_rel s s') s.
Proof.
  intros Hhc HE HEc Hinv Hl. pose proof (in_refresh _ Hinv) as Hr. unfold refreshLayer.
  wp_step. apply wpe_getR.
  destruct (vget_in_range (layerQueueNum (refresh s)) layer) as [x Hx]; [by rewrite (wr_nums _ Hr)|].
  rewrite (get_raw_Some _ _ _ Hx). simpl. destruct (negb (q =? x)).
  { wp_step. unfold modStat. wp_step. wp_step. by apply gc_rel_frame. }
  wp_step. eapply wpe_mono; [by apply layerTest_ok|]. intros m s1 [-> _].
  destruct m; [|by apply wpe_fail]. wp_step. eapply wpe_mono; [by apply layerSet_ok|].
  intros u s1 Hs1. pose proof (refresh_only_gc_rel _ _ Hinv Hs1) as Hg1.
  wp_step. apply wpe_hasB. case_bool_decide as Hin; [|by wp_step]. destruct Hin as [b Hb].
  wp_step. apply (wpe_readB _ _ b); [done|]. wp_step.
  apply wpe_foldM with (I := fun rest _ s' => gc_rel s s' /\ is_Some (blocks (core s') !! (layer / 64)) /\
    forall page, page ∈ rest -> 0 <= page < P).
  - split_and!; [done | by eauto |]. intros page. apply layerPages_range. apply Z.mod_pos_bound. lia.
  - intros page rest p1 s2 (Hg2 & Hin2 & Hpg). eapply wpe_mono.
    + apply partial_relocatePage; try done; [apply Hg2 | | | apply Hpg; by left].
      * unfold refreshMover; simpl. apply (keeps_refreshed (fun b => u32 (Block.getRefreshedPageCount b + 1))).
      * unfold refreshMover. simpl. by rewrite (proj2 (Z.eqb_eq _ _) Hhc).
    + intros p2 s3 [Hg3 Hin3]. split_and!; [by eapply gc_rel_trans | done |].
      intros page' Hp'. apply Hpg. by right.
  - by intros p1 s2 (? & _).
Qed.

Lemma refreshLayers_ok (E : err -> Prop) n q beginAt p s :
  hotColdSeperation conf = 0 -> gc_errors E ->
  E (Panic "Corrupted layer check bitmap, refresh failed") -> inv s ->
  0 <= q < refreshFilterNum conf ->
  wpe E (refreshLayers n q beginAt p) (fun _ s' => gc_rel s s') s.
Proof.
  intros Hhc HE HEc Hinv Hq. revert p s Hinv. induction n as [|n IH]; intros p s Hinv; simpl; [by wp_step|].
  pose proof (in_refresh _ Hinv) as Hr. wp_step. apply wpe_getR.
  destruct (checked_get (refresh s) Hr q Hq) as (l & Hg & Hlay). rewrite (get_raw_Some _ _ _ Hg). simpl.
  destruct l as [|layer rest]; [by wp_step|]. wp_step. apply wpe_getR.
  rewrite set_raw_range by (by rewrite (wr_checked _ Hr)). simpl. wp_step. unfold setChecked. wp_step.
  set (s1 := with_refresh _ s).
  assert (gc_rel s s1) as Hg1.
  { apply refresh_only_gc_rel; [done|]. apply refresh_only_set, wfr_checked; [done|].
    intros x Hx. apply Hlay. by right. }
  wp_step. eapply wpe_mono.
  { apply (refreshLayer_ok E); [done | done | done | apply Hg1 | apply Hlay; by left]. }
  intros p1 s2 Hg2. eapply wpe_mono; [apply IH, Hg2|]. intros p2 s3 Hg3.
  eapply gc_rel_trans; [exact Hg1|]. exact (gc_rel_trans _ _ _ Hg2 Hg3).
Qed.

Lemma refreshGc_ok E tick s :
  hotColdSeperation conf = 0 -> gc_errors E -> inv s ->
  wpe E (refreshGc tick) (fun _ s' => gc_rel s s') s.
Proof.
  intros Hhc HE Hinv. unfold refreshGc. wp_step. wp_step.
  rewrite (proj2 (Z.eqb_eq _ _) Hhc). wp_step; [by apply runGc_ok | done].
Qed.

Lemma dev_gc_rel d s : inv s -> gc_rel s (with_dev d s).
Proof. intros. by apply gc_rel_frame. Qed.

Lemma refreshPage_ok (E : err -> Prop) q tick s :
  hotColdSeperation conf = 0 -> gc_errors E ->
  E (Panic "Corrupted layer check bitmap, refresh failed") -> inv s ->
  0 <= q < refreshFilterNum conf ->
  wpe E (refreshPage q tick) (fun _ s' => gc_rel s s') s.
Proof.
  intros Hhc HE HEc Hinv Hq. unfold refreshPage. wp_step.
  eapply wpe_mono; [by apply refreshGc_ok|]. intros u s1 Hg1. wp_step.
  eapply wpe_mono; [apply refreshLayers_ok; try done; apply Hg1|]. intros p s2 Hg2. wp_step.
  pose proof (gc_rel_trans _ _ _ Hg1 Hg2) as Hg.
  eapply wpe_mono; [apply issueAll_dev, pal_read_ok|]. intros t1 s3 (d3 & ->). wp_step.
  eapply wpe_mono; [apply issueAll_dev, pal_write_ok|]. intros t2 s4 (d4 & ->). wp_step.
  apply wpe_latency. intros t5 d5. wp_step.
  assert (gc_rel s (with_dev d5 (with_dev d4 (with_dev d3 s2)))) as Hg5.
  { eapply gc_rel_trans; [exact Hg|]. apply (gc_rel_frame s2); try done. apply Hg. }
  eapply wpe_mono; [apply refreshGc_ok; try done; apply Hg5|]. intros v s6 Hg6. wp_step.
  exact (gc_rel_trans _ _ _ Hg5 Hg6).
Qed.

Lemma refreshEventHandler_ok (E : err -> Prop) tick s :
  hotColdSeperation conf = 0 -> gc_errors E ->
  E (Panic "Corrupted layer check bitmap, refresh failed") -> inv s ->
  wpe E (refreshEventHandler tick) (fun _ s' => gc_rel s s') s.
Proof.
  intros Hhc HE HEc Hinv. pose proof (in_refresh _ Hinv) as Hr.
  unfold refreshEventHandler, refresh_event. do 5 wp_step. wp_step. wp_step.
  rewrite (wr_queues _ Hr). apply umod_ok. intros q Hq _.
  destruct (checked_get (refresh s) Hr q Hq) as (l1 & Hg1 & Hl1).
  destruct (queue_get (refresh s) Hr q Hq) as (l2 & Hg2 & Hl2).
  wp_step. apply wpe_getR. rewrite (get_raw_Some _ _ _ Hg1). simpl.
  wp_step. apply wpe_getR. rewrite (get_raw_Some _ _ _ Hg2). simpl.
  wp_step. apply wpe_getR. rewrite set_raw_range by (by rewrite (wr_checked _ Hr)). simpl.
  wp_step. unfold setChecked. wp_step.
  wp_step. apply wpe_getR. simpl. rewrite set_raw_range by (by rewrite (wr_queues _ Hr)). simpl.
  wp_step. unfold setQueues. wp_step. set (s1 := with_refresh _ _).
  assert (gc_rel s s1) as Hs1.
  { apply refresh_only_gc_rel; [done|].
    exists (refresh s1), (dev s). split; [reflexivity|]. simpl.
    exact (wfr_queues _ (wfr_checked _ Hr q l2 Hl2) q l1 Hl1). }
  wp_step. eapply wpe_mono; [apply (refreshPage_ok E); try done; apply Hs1|].
  intros t2 s2 Hs2. unfold modStat. wp_step. wp_step.
  eapply gc_rel_trans; [exact Hs1|]. eapply gc_rel_trans; [exact Hs2|].
  apply gc_rel_frame; try done. apply Hs2.
Qed.

(** ** The operations *)

Definition reads_only s s' : Prop :=
  exists bs d, s' = with_dev d (with_core (core_blocks bs (core s)) s) /\ touched (blocks (core s)) bs.

Lemma reads_only_dev s s' d : reads_only s s' -> reads_only s (with_dev d s').
Proof. intros (bs & d' & -> & Ht). by exists bs, d. Qed.

Lemma read_ok E req tick s :
  inv s -> Bitset.wf U (ioFlag req) ->
  wpe E (PageMapping.read req tick) (fun _ s' => inv s' /\ reads_only s s') s.
Proof.
  intros Hinv Hio. unfold PageMapping.read. wp_step. wp_step.
  eapply wpr_mono; [by apply (Bitset.count_spec U)|]. intros n _. wp_step.
  assert (wpe E (if 0 <? n then readInternal req tick else mret tick) (fun _ s' => inv s' /\ reads_only s s') s) as Hrd.
  { destruct (0 <? n); [by apply readInternal_ok|]. wp_step. split; [done|].
    exists (blocks (core s)), (dev s). split; [by destruct s as [[]]|]. intros k. by left. }
  eapply wpe_mono; [exact Hrd|]. intros t1 s1 [Hi Hr]. apply wpe_latency. intros t2 d2.
  split; [by destruct Hi; split | by apply reads_only_dev].
Qed.

Lemma write_via E req tick s :
  hotColdSeperation conf = 0 -> inv s -> Bitset.wf U (ioFlag req) ->
  wpe E (writeInternal req tick true) (fun _ s' => wrote req s s') s ->
  wpe E (PageMapping.write req tick) (fun _ s' => inv s' /\
    spec_step (OpWrite req tick) (abs (core s)) = Some (abs (core s'))) s.
Proof.
  intros Hhc Hinv Hio Hwr. unfold PageMapping.write. wp_step. wp_step. pose proof geo_U.
  eapply wpr_mono; [by apply (Bitset.count_spec U)|]. intros n ->. wp_step.
  rewrite (proj2 (Z.eqb_eq _ _) Hhc).
  assert ((0 <? count_range (Bitset.bit (ioFlag req)) U) =
          existsb id (Bitset.bit (ioFlag req) <$> seqZ 0 U)) as ->.
  { apply eq_true_iff_eq. rewrite Z.ltb_lt, count_range_pos, existsb_exists by lia. split.
    - intros (i & Hi & Hb). exists true. split; [|done]. apply list_elem_of_In, list_elem_of_fmap.
      exists i. split; [done|]. apply elem_of_seqZ. lia.
    - intros (x & Hx & Hb). apply list_elem_of_In, list_elem_of_fmap in Hx as (i & -> & Hi%elem_of_seqZ).
      exists i. split; [lia | exact Hb]. }
  destruct (existsb id _) eqn:Hany.
  - eapply wpe_mono; [exact Hwr|]. intros t1 s1 [Hi1 Hl1 Hr1].
    apply wpe_latency. intros t2 d2. split; [by destruct Hi1; split|]. simpl. rewrite Hany. f_equal.
    symmetry. apply (abs_write ∅ (core s) (core s1)); [pose proof units_bound; lia | apply Hinv | apply Hi1 | |].
    + intros l i. apply Hl1.
    + apply Hr1.
  - wp_step. apply wpe_latency. intros t2 d2. split; [by destruct Hinv; split|]. simpl. by rewrite Hany.
Qed.

Lemma write_ok E req tick s :
  hotColdSeperation conf = 0 -> gc_errors E -> inv s -> Bitset.wf U (ioFlag req) ->
  wpe E (PageMapping.write req tick) (fun _ s' => inv s' /\
    spec_step (OpWrite req tick) (abs (core s)) = Some (abs (core s'))) s.
Proof. intros. apply write_via; try done. by apply writeInternal_ok. Qed.

Lemma trim_ok (E : err -> Prop) req tick s :
  inv s -> Bitset.wf U (ioFlag req) ->
  (spec_step (OpTrim req tick) (abs (core s)) = None -> E (Panic "Block is not in use")) ->
  wpe E (PageMapping.trim req tick) (fun _ s' => inv s' /\
    spec_step (OpTrim req tick) (abs (core s)) = Some (abs (core s'))) s.
Proof.
  intros Hinv Hio HE. unfold PageMapping.trim. pose proof (in_core _ Hinv) as HW. simpl in *.
  unfold spec_trim in *. rewrite abs_lookup in *. wp_step.
  eapply wpe_mono.
  { apply (trimInternal_ok E req tick s Hinv Hio). intros [row Hrow] Hnf. apply HE. rewrite Hrow. simpl.
    destruct (forallb id (is_mapped <$> row)) eqn:Hall; [|done].
    exfalso. by apply Hnf, (fully_mapped_abs ∅ _ _ row). }
  intros t1 s1 [[Hi1 Htab _ _] Hfull]. apply wpe_latency. intros t2 d2. simpl.
  split; [by destruct Hi1; split|].
  assert (abs (core s1) = delete (lpn req) (abs (core s))) as Habs.
  { unfold abs. by rewrite Htab, fmap_delete. }
  rewrite Habs. destruct (table (core s) !! lpn req) as [row|] eqn:Hrow; simpl.
  - rewrite (proj1 (fully_mapped_abs ∅ _ _ row HW Hrow)); [done|]. apply Hfull. eauto.
  - f_equal. symmetry. apply delete_id. by rewrite abs_lookup, Hrow.
Qed.

Lemma op_gc_errors op m : gc_errors (op_error op m).
Proof. split. intros e He. by left. Qed.

Lemma gc_rel_abs s s' : inv s -> gc_rel s s' -> abs (core s') = abs (core s).
Proof. intros Hi Hg. apply (abs_same ∅); [apply Hi | apply Hg | apply Hg | apply Hg]. Qed.

Lemma exec_ok op s :
  hotColdSeperation conf = 0 -> inv s -> op_ok op ->
  wpe (op_error op (abs (core s))) (exec op) (fun _ s' =>
    inv s' /\ spec_step op (abs (core s)) = Some (abs (core s'))) s.
Proof.
  intros Hhc Hinv Hop. destruct op as [req tick|req tick|req tick|range tick|tick]; simpl in Hop; unfold exec.
  - wp_step. eapply wpe_mono; [by apply read_ok|]. intros t1 s1 [Hi (bs & d & -> & _)]. wp_step.
    split; [exact Hi | done].
  - wp_step. eapply wpe_mono; [apply write_ok; try done; apply op_gc_errors|].
    intros t1 s1 Hw. by wp_step.
  - wp_step. eapply wpe_mono; [apply trim_ok; try done|].
    + intros Hn. right. done.
    + intros t1 s1 Hw. by wp_step.
  - wp_step. eapply wpe_mono; [apply format_ok; try done; [apply op_gc_errors | |]|].
    + intros Hn. right. by left.
    + right. by right.
    + intros t1 s1 Hw. by wp_step.
  - eapply wpe_mono; [apply refreshEventHandler_ok; try done; [apply op_gc_errors | by right]|].
    intros u s1 Hg. split; [apply Hg|]. simpl. by rewrite (gc_rel_abs s s1).
Qed.
End OpsProof.
