(* ===== verification/PmProgress.v ===== *)
(** * With room, garbage collection and writes do not fail

    The total counterparts of the partial lemmas of [PmSpec]: the collector
    parameterised by the potential of the first part, so that no allocation fails. *)

From S2P Require Import Prelude Bitset Block Float32 Types PmState PmRefresh PmAlloc PmGc PmWrite PageMapping PmInv PmRefreshProof PmAllocProof PmWriteProof PmGcProof PmSelectProof PmSpec.

(** ** Enough room: garbage collection and writes that cannot fail

    The potential of a state is the number of superpages its open blocks and its
    free blocks can still take.  Moving a superpage costs at most one unit of
    potential, replacing a full open block costs nothing; so when the free
    blocks exceed the victims by more than one round of open blocks the
    collector never runs out. *)

(** ** Sums over lists *)

Definition sum_list {A} (f : A -> Z) (l : list A) : Z := foldr (fun x a => f x + a) 0 l.

Section Sums.
  Context {A : Type}.
  Implicit Types (f g : A -> Z) (l : list A).

Lemma sum_list_le f g l : (forall x, x ∈ l -> f x <= g x) -> sum_list f l <= sum_list g l.
Proof.
  induction l as [|x l IH]; simpl; [lia|]. intros Hle.
  pose proof (Hle x ltac:(left)). assert (sum_list f l <= sum_list g l); [|lia].
  apply IH. intros y Hy. apply Hle. by right.
Qed.

Lemma sum_list_const c l : sum_list (fun _ => c) l = c * vlen l.
Proof. unfold vlen. induction l as [|x l IH]; simpl; [lia|]. rewrite IH. lia. Qed.

(** Each term drops by at most one at [k]. *)
Lemma sum_list_drop `{EqDecision A} f g k l : NoDup l ->
  (forall x, x ∈ l -> f x - (if decide (x = k) then 1 else 0) <= g x) ->
  sum_list f l - 1 <= sum_list g l.
Proof.
  induction 1 as [|x l Hx HND IH]; simpl; [lia|]. intros Hle.
  pose proof (Hle x ltac:(left)) as Hlex. destruct (decide (x = k)) as [->|Hne].
  - assert (sum_list f l <= sum_list g l); [|lia]. apply sum_list_le. intros y Hy.
    pose proof (Hle y ltac:(by right)) as Hley. rewrite decide_False in Hley; [lia | congruence].
  - assert (sum_list f l - 1 <= sum_list g l); [|lia]. apply IH. intros y Hy. apply Hle. by right.
Qed.

Lemma sum_list_vset f l i x y : vget l i = Some x ->
  sum_list f (vset l i y) = sum_list f l - f x + f y.
Proof.
  unfold vget, vset. destruct (Z.ltb_spec i 0); [done|]. generalize (Z.to_nat i). clear.
  induction l as [|z l IH]; intros [|n]; simpl; [done | done | intros [= ->]; lia|].
  intros Hn. rewrite IH by done. lia.
Qed.
End Sums.

Section Room.
  Context {D : Type} `{DeviceLaws D} `{StdOrder} `{Geometry}.
  Implicit Types (s : t D).

Notation N := (totalPhysicalBlocks param).
Notation P := (pagesInBlock param).
Notation U := (ioUnitInPage param).
Notation W := (pageCountToMaxPerf param).

(** The highest write pointer of a block, and what the block can still take. *)
Definition top (b : Block.t) : Z := foldr (fun i => Z.max (Block.nextAt b i)) 0 (seqZ 0 U).

Lemma top_bound b x : top b <= x <-> 0 <= x /\ forall i, 0 <= i < U -> Block.nextAt b i <= x.
Proof.
  unfold top. assert (forall l, foldr (fun i => Z.max (Block.nextAt b i)) 0 l <= x <->
    0 <= x /\ forall i, i ∈ l -> Block.nextAt b i <= x) as Hl.
  { induction l as [|i l IH]; simpl.
    - split; [|lia]. intros Hx. split; [done|]. by intros i ?%not_elem_of_nil.
    - rewrite Z.max_lub_iff, IH. split.
      + intros (Hi & Hx & Hr). split; [done|]. intros j [->|Hj]%elem_of_cons; auto.
      + intros (Hx & Hr). split; [apply Hr; by left|]. split; [done|]. intros j Hj. apply Hr. by right. }
  rewrite Hl. split; intros [Hx Hr]; (split; [done|]); intros i Hi; apply Hr; apply elem_of_seqZ in Hi || apply elem_of_seqZ; lia.
Qed.

Lemma top_ge b i : 0 <= i < U -> Block.nextAt b i <= top b.
Proof. intros Hi. by apply (proj1 (top_bound b (top b))). Qed.

Lemma top_nonneg b : 0 <= top b.
Proof. by apply (proj1 (top_bound b (top b))). Qed.

Definition slack (c : Core) (k : Z) : Z :=
  match blocks c !! k with Some b => P - top b | None => 0 end.

Definition potential (c : Core) (cu : Cursor) : Z :=
  P * nFree (plainPool c) + sum_list (slack c) (lastFreeBlock cu).

(** [n] superpages can be moved, and a full round of open blocks remains. *)
Record Room (n : Z) (c : Core) (cu : Cursor) : Prop := {
  ro_len : vlen (lastFreeBlock cu) = W;
  ro_distinct : NoDup (lastFreeBlock cu);
  ro_use : forall k, k ∈ lastFreeBlock cu -> is_Some (blocks c !! k);
  ro_count : nFree (plainPool c) = vlen (free (plainPool c));
  ro_potential : n + W * P < potential c cu;
}.

Lemma slack_le c k : slack c k <= P.
Proof.
  unfold slack. pose proof geo_P. destruct (blocks c !! k) as [b|]; [|lia]. pose proof (top_nonneg b). lia.
Qed.

Lemma room_slack n c cu : Room n c cu -> 0 <= n -> nFree (plainPool c) <> 0.
Proof.
  intros [Hlen _ _ _ Hp] Hn Hz. unfold potential in Hp. rewrite Hz in Hp.
  assert (sum_list (slack c) (lastFreeBlock cu) <= sum_list (fun _ => P) (lastFreeBlock cu)) as Hle.
  { apply sum_list_le. intros k _. apply slack_le. }
  rewrite sum_list_const, Hlen in Hle. lia.
Qed.

Lemma room_mono n m c cu : Room n c cu -> m <= n -> Room m c cu.
Proof. intros [] Hle. split; try done. lia. Qed.

Lemma room_alloc (E : err -> Prop) n c cu : Room (n + 1) c cu -> 0 <= n ->
  (forall j k, vget (lastFreeBlock cu) j = Some k -> blocks c !! k = None -> E (Panic "Corrupted")) /\
  (nFree (plainPool c) = 0 -> E (Panic "No free block left")).
Proof.
  intros HR Hn. split.
  - intros j k Hk%vget_elem_of Hnone. destruct (ro_use _ _ _ HR k Hk) as [b Hb]. congruence.
  - intros Hz. exfalso. apply (room_slack _ _ _ HR); [lia | done].
Qed.

Lemma room_erase (E : err -> Prop) c cu : Room 0 c cu -> free (plainPool c) = [] -> E BadIterator.
Proof.
  intros HR Hf. exfalso. apply (room_slack _ _ _ HR); [lia|]. by rewrite (ro_count _ _ _ HR), Hf.
Qed.

(** Moving a superpage to block [k]. *)
Lemma slack_step k s1 s2 x : moves (page_step k) s1 s2 -> is_Some (blocks (core s1) !! x) ->
  slack (core s1) x - (if decide (x = k) then 1 else 0) <= slack (core s2) x.
Proof.
  intros Hm [b Hb]. pose proof (mo_blocks _ _ _ Hm x) as Hx. rewrite Hb in Hx. destruct Hx as (b' & Hb' & Hs).
  unfold slack. rewrite Hb, Hb'.
  assert (top b' <= top b + (if decide (x = k) then 1 else 0)); [|lia].
  apply top_bound. pose proof (top_nonneg b). split; [destruct (decide (x = k)); lia|].
  intros i Hi. pose proof (Hs i Hi). pose proof (top_ge b i Hi). lia.
Qed.

Lemma room_moves n k s1 s2 : Room (n + 1) (core s1) (plainCur s1) -> moves (page_step k) s1 s2 ->
  Room n (core s2) (plainCur s2).
Proof.
  intros [Hlen HND Huse Hc Hp] Hm. split.
  - by rewrite (mo_cur _ _ _ Hm).
  - by rewrite (mo_cur _ _ _ Hm).
  - intros x Hx. rewrite (mo_cur _ _ _ Hm) in Hx. destruct (Huse x Hx) as [b Hb].
    pose proof (mo_blocks _ _ _ Hm x) as Hx'. rewrite Hb in Hx'. destruct Hx' as (b' & ? & _). eauto.
  - by rewrite (mo_plain _ _ _ Hm).
  - unfold potential in *. rewrite (mo_cur _ _ _ Hm), (mo_plain _ _ _ Hm).
    pose proof (sum_list_drop (slack (core s1)) (slack (core s2)) k _ HND) as Hd.
    assert (sum_list (slack (core s1)) (lastFreeBlock (plainCur s1)) - 1 <=
            sum_list (slack (core s2)) (lastFreeBlock (plainCur s1))); [|lia].
    apply Hd. intros x Hx. apply slack_step; [done | by apply Huse].
Qed.

Lemma full_slack c k b : blocks c !! k = Some b -> ~ open_block b -> slack c k <= 0.
Proof.
  intros Hb Hfull. unfold slack. rewrite Hb. destruct (decide (P <= top b)); [lia|].
  exfalso. apply Hfull. intros i Hi. pose proof (top_ge b i Hi). lia.
Qed.

Lemma blank_slack c k b : blocks c !! k = Some b -> Block.blank P U b -> slack c k = P.
Proof.
  intros Hb Hblank. unfold slack. rewrite Hb. assert (top b <= 0); [|pose proof (top_nonneg b); lia].
  apply top_bound. split; [done|]. intros i Hi. by rewrite (Block.bl_next _ _ _ Hblank).
Qed.

(** Advancing the cursor. *)
Lemma room_advanced n k s s1 : hotColdSeperation conf = 0 -> Room n (core s) (plainCur s) -> inv s ->
  counts_ok (core s1) -> advanced s k s1 -> Room n (core s1) (plainCur s1).
Proof.
  intros Hhc HR Hinv Hco Had. pose proof HR as [Hlen HND Huse Hc Hp].
  destruct (advanced_ready s k s1 (in_cur _ Hinv) Had) as [[HND' Huse'] _]; [by split|].
  split; [apply Had | done | done | by apply (co_plain _ Hco)|].
  destruct (ad_case _ _ _ Had) as [(Hcs & Hl & _)|(k0 & b0 & b & Hk0 & Hb0 & Hfull & HT & Hl & _)].
  - unfold potential. by rewrite Hcs, Hl.
  - unfold potential in *. rewrite Hl, (sum_list_vset _ _ _ _ _ Hk0), (tk_count _ _ _ _ _ HT).
    assert (blocks (core s1) !! k = Some b) as Hb by (rewrite (tk_blocks _ _ _ _ _ HT); apply lookup_insert_eq).
    rewrite (blank_slack _ _ _ Hb (tk_blank _ _ _ _ _ HT)).
    assert (forall x, x ∈ lastFreeBlock (plainCur s) -> slack (core s1) x = slack (core s) x) as Hsame.
    { intros x Hx. unfold slack. rewrite (tk_blocks _ _ _ _ _ HT), lookup_insert_ne; [done|].
      intros <-. destruct (Huse _ Hx) as [? Hu]. rewrite (tk_fresh _ _ _ _ _ HT) in Hu. done. }
    rewrite (Hsame k0) by (by eapply vget_elem_of). pose proof (full_slack _ _ _ Hb0 Hfull).
    assert (sum_list (slack (core s)) (lastFreeBlock (plainCur s)) <=
            sum_list (slack (core s1)) (lastFreeBlock (plainCur s))); [|lia].
    apply sum_list_le. intros x Hx. by rewrite Hsame.
Qed.

Lemma room_move n k s s1 s2 : hotColdSeperation conf = 0 ->
  Room (n + 1) (core s) (plainCur s) -> inv s -> wfc ∅ (core s1) ->
  advanced s k s1 -> moves (page_step k) s1 s2 -> Room n (core s2) (plainCur s2).
Proof.
  intros Hhc HR Hinv HW Had Hm. eapply room_moves; [|exact Hm].
  eapply room_advanced; [done | exact HR | done | by apply HW | done].
Qed.

(** What enough free blocks give. *)
Lemma room_intro n s : hotColdSeperation conf = 0 -> inv s -> ready s -> 0 <= n ->
  n + W < nFree (plainPool (core s)) -> Room (n * P) (core s) (plainCur s).
Proof.
  intros Hhc [HW Hc _] [HND Huse] Hn Hlt. split; [apply Hc | done | done | by apply (co_plain _ (wc_counts _ _ HW))|].
  unfold potential. pose proof geo_P.
  assert (0 <= sum_list (slack (core s)) (lastFreeBlock (plainCur s))); [|nia].
  transitivity (sum_list (fun _ => 0) (lastFreeBlock (plainCur s))); [by rewrite sum_list_const|].
  apply sum_list_le. intros k Hk. destruct (Huse k Hk) as [b Hb]. unfold slack. rewrite Hb.
  destruct (wc_blocks _ _ HW _ _ Hb) as (_ & _ & Hinv). assert (top b <= P); [|lia].
  apply top_bound. split; [lia|]. intros i Hi. by apply (Block.inv_next _ _ _ Hinv).
Qed.
End Room.

Section Progress.
  Context {D : Type} `{DeviceLaws D} `{StdOrderLaws} `{Geometry}.
  Implicit Types (s : t D).

Notation P := (pagesInBlock param).
Notation U := (ioUnitInPage param).
Notation W := (pageCountToMaxPerf param).

(** The configurations of the selection that always terminate. *)
Definition deterministic_gc : Prop :=
  gcMode conf = GC_MODE_0 /\
  (evictPolicy conf = POLICY_GREEDY \/ evictPolicy conf = POLICY_COST_BENEFIT \/ evictPolicy conf = POLICY_RECO).

Lemma deterministic_select : deterministic_gc -> select_errors noerr.
Proof. intros [Hm Hp]. split; rewrite ?Hm; [done | done | |]; naive_solver congruence. Qed.

Lemma total_collect mv invalid l tick s :
  hotColdSeperation conf = 0 -> inv s -> ready s -> keeps_pages (mvSource mv) ->
  mvAlloc mv = getLastFreeBlock -> NoDup l -> (forall k, k ∈ l -> is_full (core s) k) ->
  vlen l + W < nFree (plainPool (core s)) ->
  wpe noerr (collect mv invalid eraseInternal l tick) (fun _ s' =>
    gc_rel s s' /\ forall k, k ∈ l -> blocks (core s') !! k = None) s.
Proof.
  intros Hhc Hinv Hready Hmv Hal HND Hfull Hroom.
  apply (collect_ok noerr Room) with (fulls := true); try done.
  - apply room_mono.
  - apply room_alloc.
  - intros n k s0 s1 s2 HR _ Hi HW Had Hm. by eapply room_move.
  - apply room_erase.
  - apply room_intro; try done. apply vlen_nonneg.
  - intros k Hk. by apply full_victim, Hfull.
Qed.

Lemma runGc_total tick r s :
  hotColdSeperation conf = 0 -> deterministic_gc -> inv s -> ready s ->
  reclaimBlock conf + 2 * W < nFree (plainPool (core s)) ->
  wpe noerr (runGc tick r) (fun _ s' => gc_rel s s') s.
Proof.
  intros Hhc Hdet Hinv Hready Hroom. unfold runGc. wp_step.
  eapply wpe_mono; [apply selectVictimBlock_ok; [done | by apply deterministic_select]|].
  intros [l t1] s1 ((m & d & ->) & HND & Hfull & Hlen). simpl in *. wp_step.
  assert (gc_rel s (with_dev d (with_reclaimMore m s))) as Hg1 by (by apply gc_rel_frame).
  unfold doGarbageCollection. eapply wpe_mono.
  { apply total_collect; try done; [apply Hg1|]. specialize (Hlen (proj1 Hdet)). simpl. lia. }
  intros t2 s2 [Hg2 _]. unfold modStat. wp_step.
  eapply gc_rel_trans; [exact Hg1|]. eapply gc_rel_trans; [exact Hg2|].
  apply gc_rel_frame; try done. apply Hg2.
Qed.

Lemma storeData_total req tick send s :
  hotColdSeperation conf = 0 -> inv s -> ready s -> Bitset.wf U (ioFlag req) ->
  0 < nFree (plainPool (core s)) ->
  wpe noerr (storeData req tick send) (fun _ s' => stored req s s') s.
Proof.
  intros Hhc Hinv [_ Huse] Hio Hn. apply storeData_ok; try done.
  - intros j k Hk%vget_elem_of Hnone. destruct (Huse k Hk). congruence.
  - lia.
Qed.

Lemma writeInternal_total req tick s :
  hotColdSeperation conf = 0 -> deterministic_gc -> inv s -> ready s -> Bitset.wf U (ioFlag req) ->
  reclaimBlock conf + 2 * W + 1 < nFree (plainPool (core s)) ->
  wpe noerr (writeInternal req tick true) (fun _ s' => wrote req s s') s.
Proof.
  intros Hhc Hdet Hinv Hready Hio Hroom. unfold writeInternal. pose proof geo_W. pose proof geo_reclaim.
  wp_step. eapply wpe_mono; [apply storeData_total; try done; lia|].
  intros t1 s1 Hst. wp_step. wp_step. wp_step.
  pose proof (so_row _ _ _ Hst) as Hrow. pose proof (so_inv _ _ _ Hst) as Hi1.
  destruct (so_ready _ _ _ Hst Hready) as [Hready1 Hn1]. wp_step.
  - eapply wpe_mono; [apply runGc_total; try done; lia|]. intros u s2 Hg. wp_step. by eapply stored_wrote.
  - wp_step. eapply stored_wrote; [done | exact Hst | done].
Qed.

Lemma write_total req tick s :
  hotColdSeperation conf = 0 -> deterministic_gc -> inv s -> ready s -> Bitset.wf U (ioFlag req) ->
  reclaimBlock conf + 2 * W + 1 < nFree (plainPool (core s)) ->
  wpe noerr (PageMapping.write req tick) (fun _ s' => inv s' /\
    spec_step (OpWrite req tick) (abs (core s)) = Some (abs (core s'))) s.
Proof. 
  intros Hhc Hdet Hinv Hready Hio Hroom. apply (write_via noerr); try done.
  by apply writeInternal_total.
Qed.
End Progress.
