(* ===== verification/PmInitProof.v ===== *)
(** * Construction and filling establish the invariant *)

From S2P Require Import Prelude Algorithm Bitset Block Float32 Types PmState PmRefresh PmAlloc.
From S2P Require Import PmGc PmWrite PageMapping PmInv PmRefreshProof PmAllocProof.
From S2P Require Import PmWriteProof PmGcProof PmSelectProof PmSpec.

Section InitProof.
  Context {D : Type} `{DeviceLaws D} `{StdOrderLaws} `{Geometry}.
  Implicit Types (s : t D).

Notation N := (totalPhysicalBlocks param).
Notation P := (pagesInBlock param).
Notation U := (ioUnitInPage param).
Notation W := (pageCountToMaxPerf param).

(** ** Construction *)

Lemma makeBlocks_ok E lo hi ty :
  wpr E (makeBlocks lo hi ty) (Forall2 (fun i b => Block.blank P U b /\ Block.idx b = i) (seqZ lo (hi - lo))).
Proof.
  unfold makeBlocks. apply wpr_mapM. intros i _. pose proof geo_P. pose proof geo_U.
  unfold Block.make_typed. rewrite u32_small by lia.
  eapply wpr_mono; [apply (Block.construct_spec P U E); lia|]. by intros b (? & ? & _).
Qed.

Definition bare (l : list Block.t) : Core := mkCore ∅ ∅ (mkPool l N) emptyPool emptyPool.

Lemma bare_wfc l :
  Forall2 (fun i b => Block.blank P U b /\ Block.idx b = i) (seqZ 0 N) l -> wfc ∅ (bare l).
Proof.
  intros Hl. pose proof geo_N. assert (Block.idx <$> l = seqZ 0 N) as Hidx.
  { clear -Hl. induction Hl as [|i b js l [_ <-] _ IH]; [done|]. rewrite fmap_cons. by f_equal. }
  assert (frees (bare l) = l) as Hfr by (unfold frees; simpl; by rewrite app_nil_r).
  split; rewrite ?Hfr; simpl; try done.
  - intros b [n Hb]%list_elem_of_lookup_1. destruct (Forall2_lookup_r _ _ _ _ _ Hl Hb) as (i & Hi & Hblank & ->).
    apply list_elem_of_lookup_2, elem_of_seqZ in Hi. split; [lia | done].
  - rewrite Hidx. apply NoDup_seqZ.
  - split; try done. intros _. simpl. apply Forall2_vlen in Hl. rewrite <- Hl.
    unfold vlen. rewrite length_seqZ. lia.
Qed.

(** After the open blocks below [i] were taken. *)
Record opened (i : Z) s : Prop := {
  op_core : wfc ∅ (core s);
  op_table : table (core s) = ∅;
  op_cur : wfcur (plainCur s);
  op_distinct : NoDup (take (Z.to_nat i) (lastFreeBlock (plainCur s)));
  op_use : forall k, k ∈ take (Z.to_nat i) (lastFreeBlock (plainCur s)) -> is_Some (blocks (core s) !! k);
  op_count : nFree (plainPool (core s)) = N - i;
  op_stat : refreshCallCount (stat s) = 0;
}.

Lemma take_vset {A} (l : list A) i x : 0 <= i < vlen l ->
  take (Z.to_nat (i + 1)) (vset l i x) = take (Z.to_nat i) l ++ [x].
Proof.
  intros Hi. apply list_eq. intros n. unfold vlen in Hi.
  replace (Z.to_nat (i + 1)) with (S (Z.to_nat i)) by lia.
  destruct (decide (n < S (Z.to_nat i))%nat) as [Hn|Hn].
  - rewrite lookup_take_lt, vset_lookup by done. destruct (decide (n = Z.to_nat i)) as [->|].
    + rewrite decide_True by lia. rewrite lookup_app_r by (rewrite length_take; lia).
      rewrite length_take. by replace (Z.to_nat i - Z.to_nat i `min` length l)%nat with 0%nat by lia.
    + rewrite decide_False by lia. rewrite lookup_app_l by (rewrite length_take; lia).
      by rewrite lookup_take_lt by lia.
  - rewrite !lookup_ge_None_2; [done | rewrite length_app, length_take; simpl; lia | rewrite length_take; lia].
Qed.

Lemma openBlock_ok i s : hotColdSeperation conf = 0 -> W <= N -> 0 <= i < W -> opened i s ->
  wpe noerr (openBlocks plainCur with_plainCur getFreeBlock i) (fun _ s' => opened (i + 1) s') s.
Proof.
  intros Hhc HWN Hi [HW Ht Hc HND Huse Hn Hst]. unfold openBlocks. wp_step.
  eapply wpe_mono; [apply (getFreeBlock_ok ∅); try done; intros; lia|].
  intros k s1 (c' & b & -> & HW' & HT). wp_step. wp_step. simpl. wp_step. wp_step.
  pose proof (wu_len _ Hc) as Hlen. rewrite set_at_range by lia. simpl. wp_step.
  split; simpl; try done.
  - by rewrite (tk_table _ _ _ _ _ HT).
  - split; simpl; [by rewrite vlen_vset | apply Hc | apply Hc].
  - rewrite take_vset by lia. apply NoDup_app. split_and!; [done | | apply NoDup_singleton].
    intros k' Hk' ->%list_elem_of_singleton. destruct (Huse _ Hk') as [? Hb].
    by rewrite (tk_fresh _ _ _ _ _ HT) in Hb.
  - rewrite take_vset by lia. rewrite (tk_blocks _ _ _ _ _ HT).
    intros k' [Hk'| ->%list_elem_of_singleton]%elem_of_app; apply lookup_insert_is_Some'; [right; by apply Huse | by left].
  - rewrite (tk_count _ _ _ _ _ HT). lia.
Qed.

(** A constructed mapping: nothing mapped, the open blocks in place. *)
Record constructed s : Prop := {
  cn_core : wfc ∅ (core s);
  cn_table : table (core s) = ∅;
  cn_cur : wfcur (plainCur s);
  cn_ready : ready s;
  cn_count : nFree (plainPool (core s)) = N - W;
  cn_stat : refreshCallCount (stat s) = 0;
}.

Lemma construct_ok d : hotColdSeperation conf = 0 -> W <= N ->
  wpr noerr (construct d) constructed.
Proof.
  intros Hhc HWN. pose proof geo_N. pose proof geo_U. pose proof geo_W.
  unfold construct, initialPools. rewrite (proj2 (Z.eqb_eq _ _) Hhc).
  wp_step. wp_step. eapply wpr_mono; [apply makeBlocks_ok|]. intros l Hl. wp_step.
  rewrite Z.sub_0_r in Hl. wp_step. rewrite u32_small by lia.
  set (s0 := mk _ _ _ _ _ _ _ _ _ _ _).
  assert (wpe noerr (for_do 0 W (openBlocks plainCur with_plainCur getFreeBlock)) (fun _ s' => opened W s') s0) as Hrun.
  { unfold for_do. apply wpe_for_range with (I := fun i (_ : unit) s' => opened i s'); [lia | | | done].
    - split; simpl; try done.
      + by apply bare_wfc.
      + split; simpl; [apply vlen_replicate; lia | lia | apply Bitset.make_spec; lia].
      + constructor.
      + by intros k ?%not_elem_of_nil.
      + lia.
    - intros i _ s' Hi Ho. by apply openBlock_ok. }
  unfold wpe in Hrun. eapply wpr_mono; [exact Hrun|]. intros [u s'] [HW Ht Hc HND Huse Hn Hst].
  simpl in *. rewrite take_ge in HND, Huse by (pose proof (wu_len _ Hc); unfold vlen in *; lia).
  by split.
Qed.

(** ** The refresh state *)

Lemma initRefresh_ok : wpr noerr initRefresh wfr.
Proof.
  pose proof geo_N. pose proof geo_P. pose proof geo_layers. pose proof geo_queues. pose proof layers_bound.
  unfold initRefresh.
  pose proof (Z.mul_pos_pos (totalPhysicalBlocks param) (pagesInBlock param)).
  assert (Algorithm.DIVCEIL64 (u64 (N * P)) 8 = layers) as ->.
  { unfold Algorithm.DIVCEIL64. rewrite (u64_small (N * P)) by lia. rewrite (u64_small (_ - 1)) by lia.
    change ((N * P - 1) / 8 + 1) with layers. rewrite u64_small; [done | lia]. }
  rewrite !u32_small by lia. wp_step.
  eapply wpr_mono; [apply (Bitset.reset_all_spec layers), Bitset.make_spec; lia|]. intros m [Hm _]. wp_step.
  split; simpl; try done; try (apply vlen_replicate; lia).
  - intros l q Hq%vget_elem_of. apply elem_of_replicate in Hq as [-> _]. lia.
  - intros q layer [Hq|Hq] Hin; apply elem_of_replicate in Hq as [-> _]; by apply not_elem_of_nil in Hin.
Qed.

(** ** Filling *)

(** How the initialisation can fail: a page count that does not fit its type,
    or a filling that leaves fewer free blocks than the collector wants. *)
Inductive fill_error : err -> Prop :=
  | fe_range : fill_error UB
  | fe_gc : fill_error (Panic "ftl: GC triggered while in initialization")
  | fe_full : fill_error (Panic "No free block left").

Definition full_io (io : Bitset.t) : Prop :=
  Bitset.wf U io /\ forall i, 0 <= i < U -> Bitset.bit io i = true.

(** The mapping is usable, and the live units are those of [s] and those of the pages in [f]. *)
Record filled (f : Z -> Prop) s s' : Prop := {
  fl_inv : inv s';
  fl_ready : ready s';
  fl_live : forall l i, live (core s') l i <-> live (core s) l i \/ (f l /\ 0 <= i < bitsetSize);
}.

Lemma filled_refl s : inv s -> ready s -> filled (fun _ => False) s s.
Proof. intros Hi Hr. split; [done | done | naive_solver]. Qed.

Lemma filled_trans f g h s s1 s2 : filled f s s1 -> filled g s1 s2 ->
  (forall l, h l <-> f l \/ g l) -> filled h s s2.
Proof. intros [_ _ L1] [I2 R2 L2] Hh. split; [done | done|]. intros l i. rewrite L2, L1, Hh. naive_solver. Qed.

Lemma fillPage_ok io l s : hotColdSeperation conf = 0 -> inv s -> ready s -> full_io io ->
  wpe fill_error (fillPage writeInternal io l) (fun _ s' => filled (fun x => x = l) s s') s.
Proof.
  intros Hhc Hinv Hready [Hio Hbits]. pose proof units_bound. unfold fillPage, writeInternal. wp_step. wp_step.
  eapply wpe_mono.
  { apply storeData_ok; [done | done | done | | intros; constructor].
    intros j k Hk%vget_elem_of Hnone. destruct (proj2 Hready k Hk). congruence. }
  intros t1 s1 Hst. wp_step. wp_step. wp_step. wp_step; [apply wpe_fail; constructor|]. wp_step. wp_step.
  destruct (so_ready _ _ _ Hst Hready) as [Hr1 _]. split; [apply Hst | done|].
  intros x i. destruct (decide (x = l)) as [->|Hne].
  - pose proof (so_live _ _ _ Hst i) as Hl. simpl in Hl. rewrite Hl.
    assert (0 <= i < bitsetSize -> selected io i = true) as Hsel.
    { intros Hi. unfold selected. rewrite Hbits by lia. done. }
    naive_solver.
  - unfold live. rewrite (so_others _ _ _ Hst) by done. naive_solver.
Qed.

Lemma fillSeq_ok io n s : hotColdSeperation conf = 0 -> inv s -> ready s -> full_io io -> 0 <= n ->
  wpe fill_error (fillSeq writeInternal io 0 n) (fun _ s' => filled (fun x => 0 <= x < n) s s') s.
Proof.
  intros Hhc Hinv Hready Hio Hn. unfold fillSeq, for_do.
  apply wpe_for_range with (I := fun i (_ : unit) s' => filled (fun x => 0 <= x < i) s s'); [done | | | done].
  - eapply filled_trans; [by apply filled_refl | by apply filled_refl | intros l; simpl; lia].
  - intros i _ s1 Hi Hf1. eapply wpe_mono; [apply fillPage_ok; try done; apply Hf1|].
    intros u2 s2 Hf2. eapply filled_trans; [exact Hf1 | exact Hf2 | intros x; simpl; lia].
Qed.

Lemma fillRandom_ok io n hi s : hotColdSeperation conf = 0 -> inv s -> ready s -> full_io io -> 0 <= n ->
  wpe fill_error (fillRandom io n hi) (fun _ s' => exists f, filled f s s') s.
Proof.
  intros Hhc Hinv Hready Hio Hn. unfold fillRandom, for_do.
  apply wpe_for_range with (I := fun _ (_ : unit) s' => exists f, filled f s s'); [done | | | done].
  - eexists. by apply filled_refl.
  - intros i _ s1 Hi (f & Hf1). wp_step. wp_step. destruct (draw 0 hi (dev s1)) as [l d]. wp_step. wp_step.
    eapply wpe_mono; [apply fillPage_ok; try done|].
    + by destruct (fl_inv _ _ _ Hf1); split.
    + apply Hf1.
    + intros u2 s2 Hf2. exists (fun x => f x \/ x = l). apply (filled_trans f (fun x => x = l) _ s (with_dev d s1)); [|exact Hf2 | reflexivity].
      destruct Hf1 as [[] ? ?]. by split.
Qed.

Lemma fillStep_ok io n total s :
  hotColdSeperation conf = 0 -> inv s -> ready s -> full_io io -> 0 <= n ->
  wpe fill_error (fillStep io n total) (fun _ s' => exists f, filled f s s' /\
    (fillingMode conf = FILLING_MODE_0 -> forall l, f l <-> 0 <= l < n)) s.
Proof.
  intros Hhc Hinv Hready Hio Hn. unfold fillStep. rewrite (proj2 (Z.eqb_eq _ _) Hhc).
  destruct (fillingMode conf).
  - eapply wpe_mono; [by apply fillSeq_ok|]. intros u s1 Hf. by exists (fun x => 0 <= x < n).
  - eapply wpe_mono; [by apply fillSeq_ok|]. intros u s1 Hf. by exists (fun x => 0 <= x < n).
  - eapply wpe_mono; [by apply fillRandom_ok|]. intros u s1 (f & Hf). by exists f.
Qed.

Lemma invalidateStep_ok io warm n total s :
  hotColdSeperation conf = 0 -> inv s -> ready s -> full_io io -> 0 <= n ->
  wpe fill_error (invalidateStep io warm n total) (fun _ s' => exists f, filled f s s' /\
    (fillingMode conf = FILLING_MODE_0 -> forall l, f l <-> 0 <= l < n)) s.
Proof.
  intros Hhc Hinv Hready Hio Hn. unfold invalidateStep. destruct (fillingMode conf).
  - eapply wpe_mono; [by apply fillSeq_ok|]. intros u s1 Hf. by exists (fun x => 0 <= x < n).
  - eapply wpe_mono; [by apply fillRandom_ok|]. intros u s1 (f & Hf). by exists f.
  - eapply wpe_mono; [by apply fillRandom_ok|]. intros u s1 (f & Hf). by exists f.
Qed.

Lemma f32_to_u64_ok (E : err -> Prop) x : E UB -> wpr E (f32_to_u64 x) (fun n => 0 <= n < 2 ^ 64).
Proof.
  intros HE. unfold f32_to_u64. destruct (f32_trunc x) as [z|]; [|done].
  destruct (Z.leb_spec 0 z), (Z.ltb_spec z (2 ^ 64)); simpl; done.
Qed.

Lemma calculateTotalPages_ok s : inv s -> wpr noerr (calculateTotalPages s) (fun _ => True).
Proof.
  intros [HW _ _]. unfold calculateTotalPages.
  assert (forall l : list (Z * Block.t), (forall k b, (k, b) ∈ l -> Block.inv P U b) -> forall acc,
    wpr noerr (foldM (fun '(_, b) '(valid, invalid) =>
      v ← Block.getValidPageCount b; i ← Block.getDirtyPageCount b;
      Ok (u64 (valid + v), u64 (invalid + i))) l acc) (fun _ => True)) as Hl.
  { induction l as [|[k b] l IH]; intros Hb [v i]; simpl; [done|].
    pose proof (Hb k b ltac:(left)) as Hinvb. pose proof (Block.inv_wf _ _ _ Hinvb).
    wp_step. wp_step. eapply wpr_mono; [by apply (Block.getValidPageCount_spec P U)|]. intros v' _.
    wp_step. eapply wpr_mono; [by apply (Block.getDirtyPageCount_spec P U)|]. intros i' _. wp_step.
    apply IH. intros k' b' Hin. apply (Hb k'). by right. }
  apply Hl. intros k b Hin. rewrite (umap_order_perm (blocks (core s))) in Hin.
  apply elem_of_map_to_list in Hin. by apply (wc_blocks _ _ HW k b).
Qed.

(** The number of pages [initialize] overwrites, from the configured ones. *)
Definition adjusted (warm inval maxp : Z) : Z :=
  if maxp <? u64 (warm + inval) then u64 (maxp - warm) else inval.

Lemma initialize_ok s : hotColdSeperation conf = 0 -> constructed s ->
  wpe fill_error initialize (fun _ s' => inv s' /\ ready s' /\
    (fillingMode conf = FILLING_MODE_0 -> exists warm inval maxp,
       pagesToFill (fillingRatio conf) = Ok warm /\ pagesToFill (invalidRatio conf) = Ok inval /\
       maxPagesBeforeGC = Ok maxp /\
       forall l i, live (core s') l i <->
         0 <= l < Z.max warm (adjusted warm inval maxp) /\ 0 <= i < bitsetSize)) s.
Proof.
  intros Hhc [HW Ht Hc [HND Huse] Hn Hst]. unfold initialize. pose proof geo_U.
  assert (forall l i, ~ live (core s) l i) as Hnone.
  { intros l i (row & m & Hrow & _). by rewrite Ht, lookup_empty in Hrow. }
  wp_step. wp_step. eapply wpr_mono; [apply wpr_result, f32_to_u64_ok; constructor|]. intros warm [Hw Heqw].
  wp_step. wp_step. eapply wpr_mono; [apply wpr_result, f32_to_u64_ok; constructor|]. intros inval [Hi Heqi].
  wp_step. wp_step. eapply wpr_mono; [apply wpr_result, f32_to_u64_ok; constructor|]. intros maxp [Hm Heqm].
  change (if maxp <? u64 (warm + inval) then u64 (maxp - warm) else inval) with (adjusted warm inval maxp).
  assert (0 <= adjusted warm inval maxp) as Hadj.
  { unfold adjusted. case_match; [apply u64_range | lia]. }
  wp_step. wp_step.
  eapply wpr_mono; [apply (Bitset.set_all_spec U), Bitset.make_spec; lia|]. intros io [Hio Hbits].
  assert (full_io io) as Hfull by (split; [done | intros i' Hi'; rewrite Hbits; by apply bool_decide_eq_true_2]).
  wp_step. wp_step. eapply wpr_mono; [eapply (wpr_weaken noerr); [done | apply initRefresh_ok]|]. intros r Hr.
  wp_step. wp_step. wp_step. wp_step. unfold modStat. wp_step. wp_step. simpl.
  set (s0 := with_stat _ _).
  assert (inv s0) as Hinv0 by (by split). assert (ready s0) as Hready0 by (by split).
  assert (forall l i, ~ live (core s0) l i) as Hnone0 by done.
  wp_step. eapply wpe_mono; [apply fillStep_ok; try done; lia|]. intros u1 s1 (f & Hf1 & Hm1).
  wp_step. eapply wpe_mono; [apply invalidateStep_ok; try done; apply Hf1|]. intros u2 s2 (g & Hf2 & Hm2).
  wp_step. wp_step. wp_step. wp_step.
  eapply wpr_mono; [eapply (wpr_weaken noerr); [done | apply calculateTotalPages_ok; apply Hf2]|].
  intros _ _. wp_step. split_and!; [apply Hf2 | apply Hf2|]. intros Hmode. exists warm, inval, maxp.
  split_and!; try done. intros l i. rewrite (fl_live _ _ _ Hf2), (fl_live _ _ _ Hf1), (Hm1 Hmode), (Hm2 Hmode).
  pose proof (Hnone0 l i). split; [intros [[?|?]|?]; [done | lia | lia]|].
  intros [Hl Hj]. destruct (decide (l < warm)); [left; right; lia | right; lia].
Qed.

(** ** The constructor of FTL *)

Lemma ftl_construct_spec d : hotColdSeperation conf = 0 -> W <= N ->
  u64 (totalLogicalBlocks param + W) < N ->
  wpr fill_error (ftl_construct d) (fun s => inv s /\ ready s /\
    (fillingMode conf = FILLING_MODE_0 -> exists warm inval maxp,
       pagesToFill (fillingRatio conf) = Ok warm /\ pagesToFill (invalidRatio conf) = Ok inval /\
       maxPagesBeforeGC = Ok maxp /\
       forall l i, live (core s) l i <->
         0 <= l < Z.max warm (adjusted warm inval maxp) /\ 0 <= i < bitsetSize)).
Proof.
  intros Hhc HWN HL. unfold ftl_construct. wp_step.
  eapply wpr_mono; [eapply (wpr_weaken noerr); [done | by apply construct_ok]|]. intros s Hs.
  rewrite (proj2 (Z.leb_gt _ _)) by lia. wp_step.
  pose proof (initialize_ok s Hhc Hs) as Hi. unfold wpe in Hi.
  eapply wpr_mono; [exact Hi|]. by intros [u s'] Hs'.
Qed.
End InitProof.
