(* ===== verification/PmExample.v ===== *)
(** * Concrete devices for the examples

    Three configurations of the plain mode on [TraceDevice]: [small] (16 blocks
    of 4 superpages of 2 units, half of the logical space filled, refresh modes
    off), [tight] (8 blocks, a high collection threshold) and [layered] (blocks
    of 512 pages, per-layer refresh).  [start] is the state the constructor of
    [FTL] leaves. *)

From S2P Require Import Prelude Algorithm Bitset Block Float32 Types PmState PmRefresh PmAlloc.
From S2P Require Import PmGc PmWrite PageMapping PmInv PmRefreshProof PmAllocProof.
From S2P Require Import PmWriteProof PmGcProof PmSelectProof PmSpec PmInitProof.
Import ListOrder.

Definition plain_config (threshold fill : f32) (reclaim mode : Z) : Config :=
  mkConfig threshold 100000 FILLING_MODE_0 fill (f32_of_Z 0) reclaim (f32_ratio 1 10) GC_MODE_0
    POLICY_GREEDY 3 true 4 mode 100 3 (f32_of_Z 1) 0 (f32_of_Z 0) 0 (f32_ratio 1 10) 64.

Definition small : Setup :=
  {| conf := plain_config (f32_ratio 5 100) (f32_ratio 1 2) 1 5; param := mkParameter 16 12 4 4096 2 2 |}.
Definition tight : Setup :=
  {| conf := plain_config (f32_ratio 4 10) (f32_of_Z 0) 2 5; param := mkParameter 8 5 4 4096 2 2 |}.
Definition layered : Setup :=
  {| conf := plain_config (f32_ratio 5 100) (f32_of_Z 0) 1 0; param := mkParameter 4 2 512 4096 1 1 |}.

Lemma small_geometry : @Geometry small.
Proof. split; simpl; lia. Qed.
Lemma tight_geometry : @Geometry tight.
Proof. split; simpl; lia. Qed.
Lemma layered_geometry : @Geometry layered.
Proof. split; simpl; lia. Qed.

Section Start.
  Context `{Geometry}.

Definition blank_state : t TraceDevice.t :=
  mk (mkCore ∅ ∅ emptyPool emptyPool emptyPool) emptyCursor emptyCursor emptyCursor emptyCursor false
    emptyRefresh (mkHotCold 0 0 0 (f32_of_Z 0) [] []) stat_zero (mkStatus 0 0 0) TraceDevice.start.

(** The state after the constructor of [FTL]. *)
Definition start : t TraceDevice.t :=
  match ftl_construct TraceDevice.start with Ok s => s | Err _ => blank_state end.

Lemma start_ok : hotColdSeperation conf = 0 ->
  pageCountToMaxPerf param <= totalPhysicalBlocks param ->
  u64 (totalLogicalBlocks param + pageCountToMaxPerf param) < totalPhysicalBlocks param ->
  (if ftl_construct TraceDevice.start then true else false) = true ->
  inv start /\ ready start.
Proof.
  intros Hhc HW HL Hok. pose proof (ftl_construct_spec TraceDevice.start Hhc HW HL) as Hs. unfold start.
  destruct (ftl_construct TraceDevice.start) as [s|e]; [|done]. by destruct Hs as (? & ? & _).
Qed.
End Start.

Lemma small_start : @inv _ small (@start small) /\ ready (@start small).
Proof. apply (@start_ok small small_geometry); try done; vm_compute; done. Qed.
Lemma tight_start : @inv _ tight (@start tight) /\ ready (@start tight).
Proof. apply (@start_ok tight tight_geometry); try done; vm_compute; done. Qed.
Lemma layered_start : @inv _ layered (@start layered) /\ ready (@start layered).
Proof. apply (@start_ok layered layered_geometry); try done; vm_compute; done. Qed.

(** Requests for some units of a logical page. *)
Definition flags (n : Z) (units : list Z) : Bitset.t :=
  match foldM (fun i b => Bitset.set b i true) units (Bitset.make n) with
  | Ok b => b
  | Err _ => Bitset.make n
  end.
Lemma flags_wf n units : 0 < n < 2 ^ 32 - 8 -> Forall (fun u => 0 <= u < n) units ->
  Bitset.wf n (flags n units).
Proof.
  intros Hn Hu. unfold flags. destruct (Bitset.make_spec n Hn) as [Hwf _].
  assert (forall b, Bitset.wf n b ->
    wpr noerr (foldM (fun i b => Bitset.set b i true) units b) (Bitset.wf n)) as Hfold.
  { induction Hu as [|u units Hu _ IH]; simpl; intros b Hb; [done|]. wp_step.
    eapply wpr_mono; [by apply (Bitset.set_spec n)|]. intros b' [Hb' _]. by apply IH. }
  specialize (Hfold _ Hwf). by destruct (foldM _ units _).
Qed.
Definition request (n l : Z) (units : list Z) : Request := mkRequest 0 0 l (flags n units).
