(* ===== verification/PmTheorems.v ===== *)
(** * The properties of the page-mapping FTL

    Stated for every device that satisfies [DeviceLaws], every order of the
    hash tables and every geometry within [Geometry]; [PmWitness]
    applies them to the states of [PmExample]. *)

From S2P Require Import Prelude Algorithm Bitset Block Float32 Types PmState PmRefresh PmAlloc.
From S2P Require Import PmGc PmWrite PageMapping PmInv PmRefreshProof PmAllocProof.
From S2P Require Import PmWriteProof PmGcProof PmSelectProof PmSpec PmProgress.
From S2P Require Import PmProgress PmInitProof PmExample.
Import ListOrder.

Section Properties.
  Context {D : Type} `{DeviceLaws D} `{StdOrderLaws} `{Geometry}.
  Implicit Types (s : t D).

Notation N := (totalPhysicalBlocks param).
Notation P := (pagesInBlock param).
Notation U := (ioUnitInPage param).
Notation W := (pageCountToMaxPerf param).

(** ** Runs of host operations *)

Lemma run_ok ops s : hotColdSeperation conf = 0 -> inv s -> Forall op_ok ops ->
  match run ops s with
  | Ok (_, s') => inv s' /\ spec_run ops (abs (core s)) = Some (abs (core s'))
  | Err e => exists pre op post m, ops = pre ++ op :: post /\
      spec_run pre (abs (core s)) = Some m /\ op_error op m e
  end.
Proof.
  intros Hhc. revert s. induction ops as [|op ops IH]; intros s Hinv Hops; [done|].
  apply Forall_cons in Hops as [Hop Hops]. pose proof (exec_ok op s Hhc Hinv Hop) as Hex.
  unfold wpe in Hex. unfold run, iterM. simpl. unfold mbind, M_bind.
  destruct (exec op s) as [[[] s1]|e]; simpl in Hex.
  - destruct Hex as [Hi1 Hs1]. specialize (IH s1 Hi1 Hops). unfold run, iterM in IH.
    match goal with |- context [foldM ?f ops tt s1] => destruct (foldM f ops tt s1) as [[u2 s2]|e] end; simpl; [by rewrite Hs1|].
    destruct IH as (pre & op' & post & m & -> & Hpre & He). exists (op :: pre), op', post, m.
    simpl. by rewrite Hs1.
  - exists [], op, ops, (abs (core s)). done.
Qed.

(** C2: a run of host operations (reads, writes, trims, formats and refresh
    events, garbage collection included) either returns with the invariant kept
    and the abstract page map updated as the specification says, or fails in
    one of the ways [op_error] lists, at an operation the specification has
    reached. *)
Theorem host_ops_refine ops s : hotColdSeperation conf = 0 -> inv s -> Forall op_ok ops ->
  match run ops s with
  | Ok (_, s') => inv s' /\ spec_run ops (abs (core s)) = Some (abs (core s'))
  | Err e => exists pre op post m, ops = pre ++ op :: post /\
      spec_run pre (abs (core s)) = Some m /\ op_error op m e
  end.
Proof. apply run_ok. Qed.

(** The physical unit a logical unit is mapped to. *)
Definition located (c : Core) (l i : Z) (m : Z * Z) : Prop :=
  exists row, table c !! l = Some row /\ vget row i = Some m /\ is_mapped m = true.

(** C1: in every state a run reaches, a mapped logical unit is stored where the
    table says (the block is in use, the unit valid, and its logical page
    number recorded there), and two logical units never share a physical one. *)
Theorem mapping_sound ops s s' : hotColdSeperation conf = 0 -> inv s -> Forall op_ok ops ->
  run ops s = Ok (tt, s') -> forall l i m, located (core s') l i m ->
  (exists b, blocks (core s') !! m.1 = Some b /\ Block.validAt b m.2 i = true /\ Block.lpnAt b m.2 i = l) /\
  forall l' , located (core s') l' i m -> l' = l.
Proof.
  intros Hhc Hinv Hops Hrun. pose proof (run_ok ops s Hhc Hinv Hops) as Hr. rewrite Hrun in Hr.
  destruct Hr as [[HW _ _] _].
  assert (forall l i m, located (core s') l i m ->
    exists b, blocks (core s') !! m.1 = Some b /\ Block.validAt b m.2 i = true /\ Block.lpnAt b m.2 i = l) as Hloc.
  { intros l i m (row & Hrow & Hm & Hmap). destruct (wc_entry _ _ HW l row i m Hrow Hm) as [->|Hh]; [set_solver | |].
    - by rewrite unmapped_not_mapped in Hmap.
    - destruct Hh as (b & Hb & _ & Hv & Hl). by exists b. }
  intros l i m Hl. destruct (Hloc l i m Hl) as (b & Hb & Hv & Hlp). split; [by exists b|].
  intros l' (b' & Hb' & _ & <-)%Hloc. congruence.
Qed.

(** ** Writes and garbage collection *)

(** C17: in the plain mode, with a fixed number of victims and a policy that does
    not draw them at random ([deterministic_gc]), when the open blocks are distinct
    blocks in use and the free blocks exceed the blocks a collection asks for by a
    little more than two rounds of open blocks, a write returns, collection
    included, with the invariant kept and exactly the units of the request added to
    the page map. *)
Theorem write_succeeds req tick s : hotColdSeperation conf = 0 -> deterministic_gc -> inv s -> ready s ->
  Bitset.wf U (ioFlag req) -> reclaimBlock conf + 2 * W + 1 < nFree (plainPool (core s)) ->
  exists tick' s', PageMapping.write req tick s = Ok (tick', s') /\ inv s' /\
    spec_step (OpWrite req tick) (abs (core s)) = Some (abs (core s')).
Proof.
  intros Hhc Hdet Hinv Hready Hio Hroom.
  pose proof (write_total req tick s Hhc Hdet Hinv Hready Hio Hroom) as (t' & s' & Hw)%wpe_noerr. by exists t', s'.
Qed.

(** C16: in the plain mode and when the open blocks are distinct blocks in use
    ([ready]), collecting distinct full blocks with more free blocks than victims and
    open blocks together returns; the same logical units are mapped, and every
    victim has left the blocks in use. *)
Theorem gc_preserves l tick isRefresh s : hotColdSeperation conf = 0 -> inv s -> ready s -> NoDup l ->
  (forall k, k ∈ l -> is_full (core s) k) -> vlen l + W < nFree (plainPool (core s)) ->
  exists tick' s', doGarbageCollection l tick isRefresh s = Ok (tick', s') /\ inv s' /\
    abs (core s') = abs (core s) /\ forall k, k ∈ l -> blocks (core s') !! k = None.
Proof.
  intros Hhc Hinv Hready HND Hfull Hroom.
  pose proof (total_collect (mkMover getLastFreeBlock "Invalid mapping table entry" id
    (stat_copies 0 1 0 0 0 0 0 0 (if isRefresh then 1 else 0)) (stat_copies 1 0 0 0 0 0 0 0 0))
    "Invalid block" l tick s Hhc Hinv Hready keeps_id eq_refl HND Hfull Hroom) as (t' & s' & Hc & Hg & Hgone)%wpe_noerr.
  exists t', s'. split_and!; [exact Hc | apply Hg | by apply gc_rel_abs | done].
Qed.

(** C40: greedy selection returns distinct full blocks, as many as were asked
    for or every full block there is, and no full block left behind has fewer
    valid units (as single-precision weights) than a selected one. *)
Theorem victims_lightest tick s : inv s -> gcMode conf = GC_MODE_0 -> evictPolicy conf = POLICY_GREEDY ->
  exists l tick' s', selectVictimBlock tick [] s = Ok ((l, tick'), s') /\
    lightest weight_greedy (core s) (wanted s) l /\ core s' = core s /\ bReclaimMore s' = false.
Proof.
  intros Hinv Hm Hp. pose proof (selectVictimBlock_greedy tick s Hinv Hm Hp) as ([l t'] & s' & Hs & Hl & d & ->)%wpe_noerr.
  exists l, t', (with_dev d (with_reclaimMore false s)). done.
Qed.

(** C35: in the plain mode, erasing a block in use without valid units returns
    while free blocks remain (with a valid unit the code panics, without a free
    block it is undefined): the block leaves the blocks in use, and unless it is
    worn out it returns, blank and with its erase count increased, to the free
    list, which stays in the order of the erase counts if it was in it. *)
Theorem erase_returns_block req tick b s : hotColdSeperation conf = 0 -> inv s ->
  blocks (core s) !! blockIndex req = Some b -> (forall p i, Block.validAt b p i = false) ->
  free (plainPool (core s)) <> [] ->
  exists tick' s', eraseInternal req tick s = Ok (tick', s') /\ inv s' /\
    blocks (core s') = delete (blockIndex req) (blocks (core s)) /\
    if u32 (Block.eraseCount b + 1) <? badBlockThreshold conf
    then exists b', free (plainPool (core s')) ≡ₚ b' :: free (plainPool (core s)) /\
         Block.blank P U b' /\ Block.idx b' = blockIndex req /\
         Block.eraseCount b' = u32 (Block.eraseCount b + 1) /\
         (by_wear (free (plainPool (core s))) -> by_wear (free (plainPool (core s'))))
    else free (plainPool (core s')) = free (plainPool (core s)).
Proof.
  intros Hhc Hinv Hb Hnv Hne.
  pose proof (eraseInternal_ok noerr req tick b s Hhc Hinv Hb ltac:(done) Hne) as (t' & s' & He & Her)%wpe_noerr.
  exists t', s'. split_and!; [done | apply Her | apply Her | by apply (er_pool _ _ _ Her)].
Qed.

(** ** Trim, read, construction *)

(** A trim of a page the table does not know, or whose units are all
    mapped, returns with the page forgotten; a trim of a page that is only
    partly mapped panics. *)
Theorem trim_exact req tick s : inv s -> Bitset.wf U (ioFlag req) ->
  match spec_step (OpTrim req tick) (abs (core s)) with
  | Some m => exists tick' s', PageMapping.trim req tick s = Ok (tick', s') /\ inv s' /\ abs (core s') = m
  | None => PageMapping.trim req tick s = Err (Panic "Block is not in use")
  end.
Proof.
  intros Hinv Hio. set (none := spec_step (OpTrim req tick) (abs (core s)) = None).
  pose proof (trim_ok (fun e => e = Panic "Block is not in use" /\ none) req tick s Hinv Hio ltac:(done)) as Ht.
  unfold wpe in Ht. destruct (PageMapping.trim req tick s) as [[t' s']|e]; simpl in Ht.
  - destruct Ht as [Hi Hs]. cbn [spec_step]. rewrite Hs. by exists t', s'.
  - destruct Ht as [-> Hn]. unfold none in Hn. by rewrite Hn.
Qed.

(** A read always returns; it changes nothing but the devices and the
    access times of blocks. *)
Theorem read_total req tick s : inv s -> Bitset.wf U (ioFlag req) ->
  exists tick' s', PageMapping.read req tick s = Ok (tick', s') /\ inv s' /\ reads_only s s'.
Proof.
  intros Hinv Hio. pose proof (read_ok noerr req tick s Hinv Hio) as (t' & s' & ? & ? & ?)%wpe_noerr.
  by exists t', s'.
Qed.

(** The constructor of FTL (blocks, open blocks, filling) returns a state
    with the invariant, distinct open blocks in use and, when filling is
    sequential, exactly the configured pages mapped; or it fails because a page
    count does not fit its type or the filling eats the free blocks. *)
Theorem ftl_construct_ok d : hotColdSeperation conf = 0 -> W <= N -> u64 (totalLogicalBlocks param + W) < N ->
  match ftl_construct d with
  | Ok s => inv s /\ ready s /\
      (fillingMode conf = FILLING_MODE_0 -> exists warm inval maxp,
         pagesToFill (fillingRatio conf) = Ok warm /\ pagesToFill (invalidRatio conf) = Ok inval /\
         maxPagesBeforeGC = Ok maxp /\
         forall l i, live (core s) l i <->
           0 <= l < Z.max warm (adjusted warm inval maxp) /\ 0 <= i < bitsetSize)
  | Err e => fill_error e
  end.
Proof. intros Hhc HW HL. exact (ftl_construct_spec d Hhc HW HL). Qed.

(** When the open blocks are distinct blocks in use and a block is free,
    [getLastFreeBlock] returns a block in use that has an unwritten page in
    every slot, and the open blocks stay distinct blocks in use. *)
Theorem open_block_has_room io s : hotColdSeperation conf = 0 -> inv s -> ready s -> Bitset.wf U io ->
  0 < nFree (plainPool (core s)) ->
  exists k s' b, getLastFreeBlock io s = Ok (k, s') /\ inv s' /\ ready s' /\
    blocks (core s') !! k = Some b /\ (forall i, 0 <= i < U -> Block.nextAt b i < P) /\
    nFree (plainPool (core s)) - 1 <= nFree (plainPool (core s')).
Proof.
  intros Hhc Hinv Hready Hio Hn. pose proof Hinv as [HW Hc Hr].
  assert (wpe noerr (getLastFreeBlock io) (fun k s' => wfc ∅ (core s') /\ advanced s k s') s)
    as (k & s' & Hg & HW' & Had)%wpe_noerr.
  { apply getLastFreeBlock_ok; try done; [|lia].
    intros j x Hx%vget_elem_of Hnone. destruct (proj2 Hready x Hx). congruence. }
  destruct (advanced_ready s k s' Hc Had Hready) as [Hready' Hn'].
  destruct (ad_block _ _ _ Had) as (b & Hb & Ho). exists k, s', b. split_and!; try done.
  split; [done | apply Had |]. destruct (ad_state _ _ _ Had) as (? & ? & ? & ->). exact Hr.
Qed.

(** An allocation takes the first free block whose index is congruent to
    the requested one, and the first of the list when there is none; nothing
    else leaves the list. *)
Theorem free_block_choice idx (l : list Block.t) :
  match find_free idx l with
  | None => l = []
  | Some (b, rest) => exists l1 l2, l = l1 ++ b :: l2 /\ rest = l1 ++ l2 /\
      ((Block.idx b mod W = idx /\ forall x, x ∈ l1 -> Block.idx x mod W <> idx) \/
       (l1 = [] /\ forall x, x ∈ l -> Block.idx x mod W <> idx))
  end.
Proof.
  unfold find_free. assert (match find_stride idx l with
    | None => forall x, x ∈ l -> Block.idx x mod W <> idx
    | Some (b, rest) => exists l1 l2, l = l1 ++ b :: l2 /\ rest = l1 ++ l2 /\
        Block.idx b mod W = idx /\ forall x, x ∈ l1 -> Block.idx x mod W <> idx end) as Hs.
  { induction l as [|y l IH]; simpl; [by intros x ?%not_elem_of_nil|]. unfold Block.getBlockIndex.
    destruct (Z.eqb_spec (Block.idx y mod W) idx) as [He|He].
    - exists [], l. split_and!; try done. by intros x ?%not_elem_of_nil.
    - destruct (find_stride idx l) as [[x r]|]; simpl.
      + destruct IH as (l1 & l2 & -> & -> & Hx & Hl1). exists (y :: l1), l2. split_and!; try done.
        intros z [->|Hz]%elem_of_cons; auto.
      + intros z [->|Hz]%elem_of_cons; auto. }
  destruct (find_stride idx l) as [[b rest]|].
  - destruct Hs as (l1 & l2 & ? & ? & ? & ?). exists l1, l2. auto.
  - destruct l as [|b l]; [done|]. exists [], l. auto.
Qed.

(** ** Refresh queues *)

(** Predicting the refresh period of a programmed layer always returns, in
    all four grouping modes, and changes the refresh state and the devices only;
    the queues keep holding layers of the device. *)
Theorem setRefreshPeriod_total e blk lay s : wfr (refresh s) -> 0 <= blk < N -> 0 <= lay < 64 ->
  exists s', setRefreshPeriod e blk lay s = Ok (tt, s') /\ refresh_only s s'.
Proof.
  intros Hr Hb Hl. pose proof (setRefreshPeriod_ok noerr e blk lay s Hr Hb Hl) as ([] & s' & ? & ?)%wpe_noerr.
  by exists s'.
Qed.

(** An insertion into the refresh queues, on every branch: an unmarked
    layer is appended to its queue, recorded and marked; a marked one moves to
    the new queue when that is more than 24 periods ahead of the old one on the
    circle (computed in 32 bits), and nothing changes otherwise. *)
Theorem insertToQueue_outcomes qn layer s : wfr (refresh s) -> 0 <= layer < layers ->
  exists r', insertToQueue qn layer s = Ok (tt, with_refresh r' s) /\ wfr r' /\
    enqueued ((refreshCallCount (stat s) / background_ratio) mod refreshFilterNum conf)
      (qn mod refreshFilterNum conf) layer (refresh s) r'.
Proof.
  intros Hr Hl. pose proof (insertToQueue_exact noerr qn layer s Hr Hl) as ([] & s' & ? & r' & -> & ? & ?)%wpe_noerr.
  by exists r'.
Qed.

(** A marked layer whose new period is {e earlier} than its queued one is
    taken out of its queue and requeued as well: the difference is unsigned.
    The comment in [insertToQueue] says nothing is done in this case. *)
Theorem earlier_period_requeues qn layer s : wfr (refresh s) -> 0 <= layer < layers ->
  let cur := (refreshCallCount (stat s) / background_ratio) mod refreshFilterNum conf in
  let q := qn mod refreshFilterNum conf in
  let old := default 0 (vget (layerQueueNum (refresh s)) layer) in
  Bitset.bit (insertedLayerCheck (refresh s)) layer = true -> ahead cur q < ahead cur old ->
  exists r', insertToQueue qn layer s = Ok (tt, with_refresh r' s) /\
    vget (layerQueueNum r') layer = Some q /\
    queue_of r' old = remove_first layer (queue_of (refresh s) old) /\
    queue_of r' q = queue_of (refresh s) q ++ [layer].
Proof.
  intros Hr Hl cur q old Hbit Hlt.
  pose proof (insertToQueue_exact noerr qn layer s Hr Hl) as ([] & s' & Hi & r' & -> & _ & He)%wpe_noerr.
  pose proof geo_queues as Hg. assert (0 <= cur < refreshFilterNum conf) as Hcur by (apply Z.mod_pos_bound; lia).
  assert (0 <= q < refreshFilterNum conf) as Hq by (apply Z.mod_pos_bound; lia).
  destruct (vget_in_range (layerQueueNum (refresh s)) layer) as [o Ho]; [by rewrite (wr_nums _ Hr)|].
  assert (old = o) as Hoo by (unfold old; by rewrite Ho). pose proof (wr_num _ Hr _ _ Ho) as Hor. rewrite <- Hoo in Hor.
  change (enqueued cur q layer (refresh s) r') in He. unfold enqueued in He. fold old in He. rewrite Hbit in He.
  assert (24 <? u32 (ahead cur q - ahead cur old) = true) as Hcmp.
  { pose proof (ahead_bounds cur q Hcur Hq). pose proof (ahead_bounds cur old Hcur Hor). unfold u32.
    replace (ahead cur q - ahead cur old) with ((ahead cur q - ahead cur old + 2 ^ 32) + (-1) * 2 ^ 32) by lia.
    rewrite Z.mod_add, Z.mod_small by lia. apply Z.ltb_lt. lia. }
  rewrite Hcmp in He. destruct He as [Hap _]. exists r'. split; [exact Hi|].
  assert (old <> q) as Hne by (intros ->; lia).
  rewrite (ap_nums _ _ _ _ Hap). unfold queue_of. rewrite (ap_queues _ _ _ _ Hap). unfold queue_of. simpl.
  rewrite !vget_vset by (rewrite ?vlen_vset, ?(wr_nums _ Hr), ?(wr_queues _ Hr); lia).
  repeat first [rewrite decide_True by done | rewrite decide_False by done]. done.
Qed.
End Properties.

(** ** Status and requests *)

Section Queries.
  Context {D : Type} `{Device D} `{StdOrder} `{Setup}.
  Implicit Types (s : t D).

Lemma keys_in_range {A} (m : gmap Z A) lo hi :
  Z.of_nat (size (filter (fun '(l, _) => lo <= l < hi) m)) =
  vlen (filter (fun l => is_Some (m !! l)) (seqZ lo (hi - lo))).
Proof.
  unfold vlen. f_equal. rewrite <- size_dom.
  assert (dom (filter (fun '(l, _) => lo <= l < hi) m) =
          (list_to_set (filter (fun l => is_Some (m !! l)) (seqZ lo (hi - lo))) : gset Z)) as ->.
  { apply set_eq. intros l. rewrite elem_of_dom, elem_of_list_to_set, list_elem_of_filter, elem_of_seqZ. split.
    - intros [x [Hx Hr]%map_lookup_filter_Some]. split; [by eauto | lia].
    - intros [[x Hx] Hr]. exists x. apply map_lookup_filter_Some. split; [done | lia]. }
  apply size_list_to_set, NoDup_filter, NoDup_seqZ.
Qed.

(** [getStatus] counts the logical pages of the range that the table knows,
    on both of its branches, and reports the counter of free blocks. *)
Theorem status_counts lo hi s :
  (forall l row, table (core s) !! l = Some row -> 0 <= l < totalLogicalPages (status s)) ->
  Z.of_nat (size (table (core s))) < 2 ^ 64 ->
  exists s', getStatus lo hi s = Ok (status s', s') /\
    mappedLogicalPages (status s') =
      Z.of_nat (size (filter (fun '(l, _) => lo <= l < hi) (table (core s)))) /\
    freePhysicalBlocks (status s') = nFree (plainPool (core s)) /\ core s' = core s.
Proof.
  intros Hkeys Hsize.
  exists (with_status (mkStatus (totalLogicalPages (status s))
    (if (lo =? 0) && (totalLogicalPages (status s) <=? hi) then u64 (Z.of_nat (size (table (core s))))
     else u64 (vlen (filter (fun l => is_Some (table (core s) !! l)) (seqZ lo (hi - lo)))))
    (nFree (plainPool (core s)))) s). split; [reflexivity|]. simpl. split; [|done].
  assert (size (filter (fun '(l, _) => (lo <= l < hi)%Z) (table (core s))) <= size (table (core s)))%nat as Hle.
  { rewrite <- !size_dom. apply subseteq_size, dom_filter_subseteq. }
  destruct ((lo =? 0) && (totalLogicalPages (status s) <=? hi)) eqn:Hall.
  - apply andb_true_iff in Hall as [->%Z.eqb_eq Hhi%Z.leb_le]. rewrite u64_small by lia.
    rewrite map_filter_id; [done|]. intros l row Hl. pose proof (Hkeys l row Hl). lia.
  - rewrite <- keys_in_range. apply u64_small. lia.
Qed.

(** The translation of an ICL request keeps the address: the page and the
    only flagged unit give back the logical page number of the request. *)
Theorem request_roundtrip n q : 0 < n < 2 ^ 32 - 8 -> exists r, FtlRequest_of_icl n q = Ok r /\
  Bitset.wf n (ioFlag r) /\
  forall u, Bitset.bit (ioFlag r) u = true <-> 0 <= u < n /\ lpn r * n + u = slpn (icl_range q).
Proof.
  intros Hn. unfold FtlRequest_of_icl. destruct (Bitset.make_spec n Hn) as [Hwf Hbit].
  set (x := slpn (icl_range q)). pose proof (Z.mod_pos_bound x n ltac:(lia)) as Hm.
  pose proof (Bitset.set_spec n noerr (Bitset.make n) (x mod n) true Hwf Hm) as (io & -> & Hio & Hbits)%wpr_noerr.
  eexists. split; [reflexivity|]. split; [done|]. intros u. simpl. rewrite Hbits, Hbit.
  pose proof (Z.div_mod x n ltac:(lia)). destruct (decide (u = x mod n)) as [->|Hne].
  - split; [|done]. intros _. split; [done | lia].
  - split; [done|]. intros [Hu Hx]. exfalso. apply Hne.
    apply (Z.mod_unique x n (x / n) u); lia.
Qed.
End Queries.

(** ** Two ways to lose an open block *)

(** On a device of 8 blocks with 4 pages each, overwriting one logical page
    17 times works and the 18th write panics: the collection of the 17th write
    erased a full block that was still the open block of the other position. *)
Theorem overwriting_panics :
  let _ := tight in let op := OpWrite (request 2 3 [0; 1]) 0 in
  (exists s, run (replicate 17 op) start = Ok (tt, s)) /\
  run (replicate 18 op) start = Err (Panic "Corrupted") /\
  spec_run (replicate 18 op) (abs (core start)) <> None.
Proof. split; [eexists; vm_compute; reflexivity | split; vm_compute; done]. Qed.

(** Formatting a range erases the open blocks that hold its pages, so the
    writes that follow a format panic. *)
Theorem write_after_format_panics :
  let _ := tight in let op := OpWrite (request 2 3 [0; 1]) 0 in
  let ops := [op; OpFormat (mkLPNRange 0 10) 0; op; op] in
  run ops start = Err (Panic "Corrupted") /\ spec_run ops (abs (core start)) <> None.
Proof. split; vm_compute; done. Qed.
