(* ===== verification/PmWitness.v ===== *)
(** * The properties of the page-mapping FTL at concrete states

    Each witness applies a property of [PmTheorems] to a state that a run of
    host operations on one of the devices of [PmExample] reaches; what the
    state looks like is decided by evaluation ([reached]). *)

From S2P Require Import Prelude Algorithm Bitset Block Float32 Types PmState PmRefresh PmAlloc.
From S2P Require Import PmGc PmWrite PageMapping PmInv PmRefreshProof PmAllocProof.
From S2P Require Import PmWriteProof PmGcProof PmSelectProof PmSpec PmProgress.
From S2P Require Import PmProgress PmInitProof PmExample PmTheorems.
Import ListOrder.

Section Reached.
  Context `{Geometry}.

(** What a run returns, as a test. *)
Definition after (ops : list host_op) (check : t TraceDevice.t -> bool) : bool :=
  match run ops start with Ok (_, s) => check s | Err _ => false end.

Lemma reached ops check : hotColdSeperation conf = 0 -> inv start -> Forall op_ok ops ->
  after ops check = true ->
  exists s, run ops start = Ok (tt, s) /\ inv s /\ check s = true /\
    spec_run ops (abs (core start)) = Some (abs (core s)).
Proof.
  intros Hhc Hinv Hops Hc. pose proof (run_ok ops start Hhc Hinv Hops) as Hr. unfold after in Hc.
  destruct (run ops start) as [[[] s]|e]; [|discriminate Hc]. exists s. destruct Hr as [Hi Hs].
  exact (conj eq_refl (conj Hi (conj Hc Hs))).
Qed.

(** Blocks whose every page was programmed. *)
Definition full_check (s : t TraceDevice.t) (k : Z) : bool :=
  match blocks (core s) !! k with
  | Some b => Block.nextAt b 0 =? pagesInBlock param
  | None => false
  end.
Lemma full_check_ok s k : full_check s k = true -> is_full (core s) k.
Proof.
  unfold full_check. destruct (blocks (core s) !! k) as [b|] eqn:Hb; [|discriminate].
  intros Hk%Z.eqb_eq. exists b. split; [exact Hb|]. intros Ho.
  pose proof geo_U as Hio. specialize (Ho 0 ltac:(lia)). lia.
Qed.

(** Blocks without a valid unit. *)
Definition stale_check (s : t TraceDevice.t) (k : Z) : bool :=
  match blocks (core s) !! k with
  | Some b => forallb (fun p => forallb (fun i => negb (Block.validAt b p i))
      (seqZ 0 (ioUnitInPage param))) (seqZ 0 (pagesInBlock param))
  | None => false
  end.

Lemma stale_check_ok s k : inv s -> stale_check s k = true ->
  exists b, blocks (core s) !! k = Some b /\ forall p i, Block.validAt b p i = false.
Proof.
  intros [HW _ _]. unfold stale_check. destruct (blocks (core s) !! k) as [b|] eqn:Hb; [|discriminate].
  rewrite forallb_forall. intros Hall. exists b. split; [reflexivity|]. intros p i.
  destruct (Block.validAt b p i) eqn:Hv; [|reflexivity]. exfalso.
  destruct (valid_page _ _ HW k b p i Hb Hv) as [Hp Hi].
  assert (In p (seqZ 0 (pagesInBlock param))) as Hin by (apply list_elem_of_In, elem_of_seqZ; lia).
  specialize (Hall p Hin). rewrite forallb_forall in Hall.
  assert (In i (seqZ 0 (ioUnitInPage param))) as Hin' by (apply list_elem_of_In, elem_of_seqZ; lia).
  specialize (Hall i Hin'). rewrite Hv in Hall. discriminate Hall.
Qed.
End Reached.

Section Small.
#[local] Existing Instance small.
#[local] Existing Instance small_geometry.

(** A mixed run on the filled device, and one that empties block 0. *)
Definition mixed_run : list host_op :=
  [OpWrite (request 2 3 [0; 1]) 0; OpRead (request 2 3 [1]) 10; OpWrite (request 2 40 [0]) 20;
   OpTrim (request 2 5 [0; 1]) 30; OpFormat (mkLPNRange 6 2) 40].
Definition empty_run : list host_op :=
  map (fun l => OpWrite (request 2 l [0; 1]) 0) [0; 1; 2; 3; 4; 5; 6; 7].

Lemma small_plain : @hotColdSeperation (@conf small) = 0.
Proof. reflexivity. Qed.

Ltac units := apply flags_wf; simpl; repeat constructor; lia.

Lemma mixed_ok : Forall op_ok mixed_run.
Proof. repeat constructor; units. Qed.
Lemma empty_ok : Forall op_ok empty_run.
Proof. repeat constructor; units. Qed.

(** A run and a test of the state it ends in. *)
Ltac reach ops Hok check := destruct (@reached small small_geometry ops check small_plain (proj1 small_start) Hok
  ltac:(vm_compute; reflexivity)) as (s & Hrun & Hinv & Hchk & _).

Lemma host_ops_refine_witness : exists s', run mixed_run start = Ok (tt, s') /\ inv s' /\
  spec_run mixed_run (abs (core start)) = Some (abs (core s')).
Proof.
  pose proof (host_ops_refine mixed_run start small_plain (proj1 small_start) mixed_ok) as Hr.
  reach mixed_run mixed_ok (fun _ : t TraceDevice.t => true).
  rewrite Hrun in Hr. exists s. exact (conj Hrun Hr).
Defined.

Lemma mapping_sound_witness : exists s' b, run mixed_run start = Ok (tt, s') /\
  located (core s') 40 0 (7, 0) /\ blocks (core s') !! 7 = Some b /\
  Block.validAt b 0 0 = true /\ Block.lpnAt b 0 0 = 40.
Proof.
  reach mixed_run mixed_ok (fun s : t TraceDevice.t => bool_decide (table (core s) !! 40 = Some [(7, 0); (16, 4)])).
  apply bool_decide_eq_true in Hchk.
  assert (located (core s) 40 0 (7, 0)) as Hl
    by (exists [(7, 0); (16, 4)]; exact (conj Hchk (conj eq_refl eq_refl))).
  destruct (mapping_sound mixed_run start s small_plain (proj1 small_start) mixed_ok Hrun 40 0 (7, 0) Hl)
    as [(b & Hb & Hv & Hp) _].
  exists s, b. exact (conj Hrun (conj Hl (conj Hb (conj Hv Hp)))).
Defined.

Lemma write_succeeds_witness : exists tick' s',
  PageMapping.write (request 2 3 [0; 1]) 0 start = Ok (tick', s') /\ inv s' /\
  spec_step (OpWrite (request 2 3 [0; 1]) 0) (abs (core start)) = Some (abs (core s')).
Proof.
  apply (write_succeeds (request 2 3 [0; 1]) 0 start small_plain).
  - split; [reflexivity | left; reflexivity].
  - exact (proj1 small_start).
  - exact (proj2 small_start).
  - units.
  - vm_compute. reflexivity.
Defined.

Lemma gc_preserves_witness : exists tick' s',
  doGarbageCollection [0; 3] 0 false start = Ok (tick', s') /\ inv s' /\
  abs (core s') = abs (core start) /\ forall k, k ∈ [0; 3] -> blocks (core s') !! k = None.
Proof.
  apply (gc_preserves [0; 3] 0 false start small_plain).
  - exact (proj1 small_start).
  - exact (proj2 small_start).
  - repeat constructor; set_solver.
  - intros k [->|[->|Hk]%elem_of_cons]%elem_of_cons; [| |by apply not_elem_of_nil in Hk];
      apply full_check_ok; vm_compute; reflexivity.
  - vm_compute. reflexivity.
Defined.

Lemma victims_lightest_witness : exists l tick' s',
  selectVictimBlock 0 [] start = Ok ((l, tick'), s') /\
  lightest weight_greedy (core start) (wanted start) l /\ core s' = core start /\ bReclaimMore s' = false.
Proof. exact (victims_lightest 0 start (proj1 small_start) eq_refl eq_refl). Defined.

Lemma erase_returns_block_witness : exists b s tick' s',
  run empty_run start = Ok (tt, s) /\ blocks (core s) !! 0 = Some b /\
  eraseInternal (mkPalRequest 0 0 0 0 (flags 2 [0; 1])) 0 s = Ok (tick', s') /\ blocks (core s') !! 0 = None.
Proof.
  reach empty_run empty_ok (fun s : t TraceDevice.t => stale_check s 0 && negb (bool_decide (free (plainPool (core s)) = []))).
  apply andb_prop in Hchk as [Hst Hne]. apply negb_true_iff, bool_decide_eq_false in Hne.
  destruct (stale_check_ok s 0 Hinv Hst) as (b & Hb & Hnv).
  destruct (erase_returns_block (mkPalRequest 0 0 0 0 (flags 2 [0; 1])) 0 b s small_plain Hinv Hb Hnv Hne)
    as (t' & s' & He & _ & Hd & _).
  exists b, s, t', s'. refine (conj Hrun (conj Hb (conj He _))). rewrite Hd. apply lookup_delete_eq.
Defined.

Lemma trim_exact_witness : exists tick' s',
  PageMapping.trim (request 2 3 [0; 1]) 0 start = Ok (tick', s') /\ inv s' /\
  spec_step (OpTrim (request 2 3 [0; 1]) 0) (abs (core start)) = Some (abs (core s')).
Proof.
  pose proof (trim_exact (request 2 3 [0; 1]) 0 start (proj1 small_start) ltac:(units)) as Ht.
  destruct (spec_step _ _) as [m|] eqn:Hs.
  - destruct Ht as (t' & s' & Hr & Hi & Ha). exists t', s'. rewrite Ha. exact (conj Hr (conj Hi eq_refl)).
  - exfalso. assert ((if PageMapping.trim (request 2 3 [0; 1]) 0 start then true else false) = true) as Hok
      by (vm_compute; reflexivity). rewrite Ht in Hok. discriminate Hok.
Defined.

Lemma read_total_witness : exists tick' s',
  PageMapping.read (request 2 3 [0; 1]) 0 start = Ok (tick', s') /\ inv s' /\ reads_only start s'.
Proof. exact (read_total (request 2 3 [0; 1]) 0 start (proj1 small_start) ltac:(units)). Defined.

Lemma ftl_construct_ok_witness :
  match ftl_construct TraceDevice.start with Ok s => inv s /\ ready s | Err e => fill_error e end.
Proof.
  pose proof (ftl_construct_ok TraceDevice.start small_plain ltac:(simpl; lia) ltac:(reflexivity)) as Hc.
  destruct (ftl_construct TraceDevice.start) as [s|e]; [|exact Hc].
  destruct Hc as (Hi & Hr & _). exact (conj Hi Hr).
Defined.

Lemma open_block_has_room_witness : exists k s', getLastFreeBlock (flags 2 [0; 1]) start = Ok (k, s') /\ ready s'.
Proof.
  destruct (open_block_has_room (flags 2 [0; 1]) start small_plain (proj1 small_start) (proj2 small_start)
    ltac:(units) ltac:(vm_compute; reflexivity)) as (k & s' & b & Hg & _ & Hr & _).
  exists k, s'. exact (conj Hg Hr).
Defined.
End Small.

(** ** Refresh queues *)

Lemma inserted `{Geometry} qn layer (s : t TraceDevice.t) check : wfr (refresh s) -> 0 <= layer < layers ->
  match insertToQueue qn layer s with Ok (_, s') => check s' | Err _ => false end = true ->
  exists r, insertToQueue qn layer s = Ok (tt, with_refresh r s) /\ wfr r /\ check (with_refresh r s) = true.
Proof.
  intros Hr Hl Hc.
  pose proof (insertToQueue_exact noerr qn layer s Hr Hl) as ([] & s' & Hi & r & -> & Hw & _)%wpe_noerr.
  rewrite Hi in Hc. exists r. exact (conj Hi (conj Hw Hc)).
Qed.

Section Layered.
#[local] Existing Instance layered.
#[local] Existing Instance layered_geometry.

Lemma layered_wfr : wfr (refresh (@start layered)).
Proof. apply layered_start. Qed.

Lemma layered_cur : (refreshCallCount (stat (@start layered)) / background_ratio) mod refreshFilterNum conf = 0.
Proof. vm_compute. reflexivity. Qed.

Lemma setRefreshPeriod_total_witness : exists s', setRefreshPeriod 0 1 5 start = Ok (tt, s') /\ refresh_only start s'.
Proof. exact (setRefreshPeriod_total 0 1 5 start layered_wfr ltac:(simpl; lia) ltac:(lia)). Defined.

Lemma insertToQueue_outcomes_witness : exists r', insertToQueue 103 7 start = Ok (tt, with_refresh r' start) /\
  wfr r' /\ enqueued 0 3 7 (refresh start) r'.
Proof.
  destruct (insertToQueue_outcomes 103 7 start layered_wfr ltac:(vm_compute; split; [intros ? | reflexivity]; discriminate))
    as (r' & Hi & Hw & He). rewrite layered_cur in He. exists r'.
  split; [exact Hi | split; [exact Hw |]]. change (103 mod refreshFilterNum conf) with 3 in He. exact He.
Defined.

Definition queued_3 (s : t TraceDevice.t) : bool :=
  bool_decide (vget (layerQueueNum (refresh s)) 7 = Some 3) && Bitset.bit (insertedLayerCheck (refresh s)) 7
  && bool_decide (queue_of (refresh s) 3 = [7]) && bool_decide (queue_of (refresh s) 1 = []).

(** Layer 7 queued for period 3, then predicted for period 1. *)
Lemma earlier_period_requeues_witness : exists s r' : _,
  insertToQueue 103 7 start = Ok (tt, s) /\ queue_of (refresh s) 3 = [7] /\
  insertToQueue 1 7 s = Ok (tt, with_refresh r' s) /\ queue_of r' 3 = [] /\ queue_of r' 1 = [7].
Proof.
  assert (0 <= 7 < layers) as Hl by (vm_compute; split; [intros ? | reflexivity]; discriminate).
  destruct (inserted 103 7 start queued_3 layered_wfr Hl
    ltac:(vm_compute; reflexivity)) as (r & Hi & Hw & Hc).
  exists (with_refresh r start).
  unfold queued_3 in Hc. apply andb_prop in Hc as [[[Hn%bool_decide_eq_true Hb]%andb_prop Hq%bool_decide_eq_true]%andb_prop Hq10%bool_decide_eq_true].
  destruct (earlier_period_requeues 1 7 (with_refresh r start) Hw Hl Hb) as (r' & Hi' & _ & Ho & Hnew).
  - rewrite Hn. vm_compute. reflexivity.
  - exists r'. rewrite Hn in Ho. refine (conj Hi (conj Hq (conj Hi' (conj _ _)))).
    + change (queue_of r' 3 = remove_first 7 (queue_of (refresh (with_refresh r start)) 3)) in Ho. rewrite Ho, Hq. reflexivity.
    + change (queue_of r' 1 = queue_of (refresh (with_refresh r start)) 1 ++ [7]) in Hnew. rewrite Hnew, Hq10. reflexivity.
Defined.
End Layered.

Section Status.
#[local] Existing Instance small.

Lemma status_counts_witness : exists s', getStatus 10 20 (@start small) = Ok (status s', s') /\
  mappedLogicalPages (status s') =
    Z.of_nat (size (filter (fun '(l, _) => 10 <= l < 20) (table (core (@start small))))).
Proof.
  destruct (status_counts 10 20 (@start small)) as (s' & Hs & Hm & _).
  - intros l row Hl. assert (bool_decide (map_Forall (fun l _ => 0 <= l < totalLogicalPages (status (@start small)))
      (table (core (@start small)))) = true) as Hall by (vm_compute; reflexivity).
    apply bool_decide_eq_true in Hall. exact (Hall l row Hl).
  - vm_compute. reflexivity.
  - exists s'. exact (conj Hs Hm).
Defined.
End Status.

Lemma request_roundtrip_witness : exists r,
  FtlRequest_of_icl 4 (mkIclRequest 0 0 0 0 (mkLPNRange 27 1)) = Ok r /\ lpn r = 6.
Proof.
  destruct (request_roundtrip 4 (mkIclRequest 0 0 0 0 (mkLPNRange 27 1)) ltac:(lia)) as (r & Hr & _).
  exists r. split; [exact Hr|]. injection Hr as <-. reflexivity.
Defined.
