(* ===== verification/Engine.v ===== *)
(** * sim/engine: the event queue

    [Engine] keeps the allocated event functions and a list of pending events
    ordered by tick.  An event function is any program over the interface of
    [SimpleSSD::Simulator] ([prog]), started with the tick of its event
    ([call]). *)

From S2P Require Import Prelude.
From Stdlib Require Import Sorted.

(** Programs over the [Simulator] interface, with the state [X] of their owner
    and the names [F] of event functions. *)
Inductive prog (X F : Type) : Type :=
  | Return (x : X)
  | Allocate (f : F) (k : Z -> prog X F)
  | Schedule (eid tick : Z) (k : prog X F)
  | Deschedule (eid : Z) (k : prog X F)
  | IsScheduled (eid : Z) (k : option Z -> prog X F)
  | Deallocate (eid : Z) (k : prog X F)
  | GetTick (k : Z -> prog X F).
Arguments Return {X F} x.
Arguments Allocate {X F} f k.
Arguments Schedule {X F} eid tick k.
Arguments Deschedule {X F} eid k.
Arguments IsScheduled {X F} eid k.
Arguments Deallocate {X F} eid k.
Arguments GetTick {X F} k.

(** What an event function does when its event fires. *)
Class Handlers (X F : Type) : Type := call : F -> Z -> X -> prog X F.

Module Engine.

(** [Engine]; [world] is the state of the event functions. *)
Record t (X F : Type) : Type := mk {
  simTick : Z;
  counter : Z;
  forceStop : bool;
  eventList : gmap Z F;
  eventQueue : list (Z * Z);
  eventHandled : Z;
  world : X;
}.
Arguments mk {X F} _ _ _ _ _ _ _.
Arguments simTick {X F} _.
Arguments counter {X F} _.
Arguments forceStop {X F} _.
Arguments eventList {X F} _.
Arguments eventQueue {X F} _.
Arguments eventHandled {X F} _.
Arguments world {X F} _.

(** ** The list of pending events *)

(** The loop of [insertEvent]: the last entry of the event with its tick, and
    the first entry with a later tick. *)
Fixpoint scan (eid tick : Z) (i : nat) (q : list (Z * Z)) (old : option (nat * Z)) (ins : option nat)
    : option (nat * Z) * option nat :=
  match q with
  | [] => (old, ins)
  | (e, u) :: q' =>
      let old := if e =? eid then Some (i, u) else old in
      let ins := match ins with
                 | None => if tick <? u then Some i else None
                 | Some _ => ins
                 end in
      scan eid tick (S i) q' old ins
  end.

(** [eventQueue.insert(insert, {eid, tick}); eventQueue.erase(old)]; the result
    says whether the event was queued before. *)
Definition insertEvent (eid tick : Z) (q : list (Z * Z)) : bool * list (Z * Z) :=
  let '(old, ins) := scan eid tick 0 q None None in
  let p := default (length q) ins in
  let q' := take p q ++ (eid, tick) :: drop p q in
  match old with
  | None => (false, q')
  | Some (o, oldTick) =>
      if oldTick =? tick then (false, q)
      else (true, delete (if decide (p <= o)%nat then S o else o) q')
  end.

Fixpoint removeEvent (eid : Z) (q : list (Z * Z)) : list (Z * Z) :=
  match q with
  | [] => []
  | (e, u) :: q' => if e =? eid then q' else (e, u) :: removeEvent eid q'
  end.

(** [isEventExist]: the tick of the event, when it is queued. *)
Fixpoint isEventExist (eid : Z) (q : list (Z * Z)) : option Z :=
  match q with
  | [] => None
  | (e, u) :: q' => if e =? eid then Some u else isEventExist eid q'
  end.

Section Ops.
  Context {X F : Type} `{Handlers X F}.
  Implicit Types (s : t X F).

Definition with_queue (q : list (Z * Z)) s : t X F :=
  mk (simTick s) (counter s) (forceStop s) (eventList s) q (eventHandled s) (world s).
Definition with_list (c : Z) (l : gmap Z F) s : t X F :=
  mk (simTick s) c (forceStop s) l (eventQueue s) (eventHandled s) (world s).
Definition with_world (x : X) s : t X F :=
  mk (simTick s) (counter s) (forceStop s) (eventList s) (eventQueue s) (eventHandled s) x.

(** The constructor. *)
Definition construct (x : X) : t X F := mk 0 0 false ∅ [] 0 x.

Definition getCurrentTick : M (t X F) Z := gets simTick.

Definition allocateEvent (f : F) : M (t X F) Z :=
  s ← get;
  let c := u64 (counter s + 1) in
  match eventList s !! c with
  | Some _ => mpanic "Fail to allocate event"
  | None => modify (with_list c (<[c := f]> (eventList s)));; mret c
  end.

(** The guard the four operations on an event share. *)
Definition known {A} (eid : Z) (m : M (t X F) A) : M (t X F) A :=
  s ← get;
  match eventList s !! eid with
  | Some _ => m
  | None => mpanic "Event does not exists"
  end.

Definition scheduleEvent (eid tick : Z) : M (t X F) unit :=
  known eid
    (now ← gets simTick;
     let tick := if tick <? now then now else tick in
     modify (fun s => with_queue (snd (insertEvent eid tick (eventQueue s))) s)).

Definition descheduleEvent (eid : Z) : M (t X F) unit :=
  known eid (modify (fun s => with_queue (removeEvent eid (eventQueue s)) s)).

Definition isScheduled (eid : Z) : M (t X F) (option Z) :=
  known eid (gets (fun s => isEventExist eid (eventQueue s))).

Definition deallocateEvent (eid : Z) : M (t X F) unit :=
  known eid
    (modify (fun s => with_list (counter s) (delete eid (eventList s))
                        (with_queue (removeEvent eid (eventQueue s)) s))).

Definition stopEngine : M (t X F) unit :=
  modify (fun s => mk (simTick s) (counter s) true (eventList s) (eventQueue s) (eventHandled s) (world s)).

(** Running an event function. *)
Fixpoint exec (p : prog X F) : M (t X F) unit :=
  match p with
  | Return x => modify (with_world x)
  | Allocate f k => e ← allocateEvent f; exec (k e)
  | Schedule e u k => scheduleEvent e u;; exec k
  | Deschedule e k => descheduleEvent e;; exec k
  | IsScheduled e k => o ← isScheduled e; exec (k o)
  | Deallocate e k => deallocateEvent e;; exec k
  | GetTick k => u ← getCurrentTick; exec (k u)
  end.

(** [doNextEvent].  The panic of an event without a function reads the entry
    that was popped just before. *)
Definition doNextEvent : M (t X F) bool :=
  s ← get;
  if forceStop s then mret false
  else
    match eventQueue s with
    | [] => mret false
    | (e, u) :: q =>
        modify (fun s => mk u (counter s) (forceStop s) (eventList s) q (eventHandled s) (world s));;
        match eventList s !! e with
        | None => fail UB
        | Some f => x ← gets world; exec (call f u x)
        end;;
        modify (fun s => mk (simTick s) (counter s) (forceStop s) (eventList s) (eventQueue s)
                           (u64 (eventHandled s + 1)) (world s));;
        mret true
    end.

(** [while (engine.doNextEvent());], for at most [n] rounds. *)
Fixpoint loop (n : nat) : M (t X F) unit :=
  match n with
  | O => mret tt
  | S n => b ← doNextEvent; if b : bool then loop n else mret tt
  end.
End Ops.

(** ** The list of pending events stays sorted *)

Implicit Types (q : list (Z * Z)) (e eid u tick : Z).

Definition by_tick : Z * Z -> Z * Z -> Prop := fun x y => x.2 <= y.2.

(** Insertion after every event that is not later. *)
Fixpoint insort (x : Z * Z) (q : list (Z * Z)) : list (Z * Z) :=
  match q with
  | [] => [x]
  | y :: q' => if x.2 <? y.2 then x :: y :: q' else y :: insort x q'
  end.

Lemma sorted_split tick q : StronglySorted by_tick q ->
  exists l1 l2, q = l1 ++ l2 /\ Forall (fun y => y.2 <= tick) l1 /\ Forall (fun y => tick < y.2) l2.
Proof.
  induction 1 as [|y q Hq (l1 & l2 & -> & Hl1 & Hl2) Hy]; [by exists [], []|].
  destruct (decide (y.2 <= tick)) as [Hle|Hgt].
  - exists (y :: l1), l2. split_and!; [done | by constructor | done].
  - exists [], (y :: l1 ++ l2). split_and!; [done | done |]. constructor; [lia|].
    eapply Forall_impl; [exact Hy|]. unfold by_tick. intros z Hz. lia.
Qed.

Lemma insort_split x l1 l2 : Forall (fun y => y.2 <= x.2) l1 -> Forall (fun y => x.2 < y.2) l2 ->
  insort x (l1 ++ l2) = l1 ++ x :: l2.
Proof.
  intros H1 H2. induction H1 as [|y l1 Hy _ IH]; simpl.
  - destruct H2 as [|y l2 Hy _]; [done|]. simpl. by rewrite (proj2 (Z.ltb_lt _ _)).
  - rewrite (proj2 (Z.ltb_ge _ _)) by done. by rewrite IH.
Qed.

Lemma scan_absent eid tick i q old ins : eid ∉ q.*1 -> (scan eid tick i q old ins).1 = old.
Proof.
  revert i old ins. induction q as [|[e u] q IH]; intros i old ins Hn; [done|]. simpl in *.
  apply not_elem_of_cons in Hn as [Hne Hn]. rewrite (proj2 (Z.eqb_neq e eid)) by done. by apply IH.
Qed.

Lemma scan_present eid tick u a b i old ins : eid ∉ b.*1 ->
  (scan eid tick i (a ++ (eid, u) :: b) old ins).1 = Some ((i + length a)%nat, u).
Proof.
  intros Hb. revert i old ins. induction a as [|[e v] a IH]; intros i old ins; simpl.
  - rewrite Z.eqb_refl, scan_absent by done. do 2 f_equal. lia.
  - rewrite IH. do 2 f_equal. lia.
Qed.

Lemma scan_found eid tick i q old p : (scan eid tick i q old (Some p)).2 = Some p.
Proof. revert i old. induction q as [|[e u] q IH]; intros i old; simpl; [done | apply IH]. Qed.

Lemma scan_position eid tick i l1 l2 old :
  Forall (fun y => y.2 <= tick) l1 -> Forall (fun y => tick < y.2) l2 ->
  default (i + length (l1 ++ l2))%nat (scan eid tick i (l1 ++ l2) old None).2 = (i + length l1)%nat.
Proof.
  intros H1 H2. revert i old. induction H1 as [|[e u] l1 Hu _ IH]; intros i old.
  - destruct H2 as [|[e u] l2 Hu _]; simpl; [lia|]. simpl in Hu.
    rewrite (proj2 (Z.ltb_lt _ _) Hu), scan_found. simpl. lia.
  - simpl in Hu |- *. rewrite (proj2 (Z.ltb_ge _ _) Hu). rewrite <- !Nat.add_succ_comm. apply IH.
Qed.

Lemma removeEvent_absent eid q : eid ∉ q.*1 -> removeEvent eid q = q.
Proof.
  induction q as [|[e u] q IH]; intros Hn; [done|]. simpl in *. apply not_elem_of_cons in Hn as [Hne Hn].
  rewrite (proj2 (Z.eqb_neq e eid)) by done. by rewrite IH.
Qed.

Lemma removeEvent_present eid u a b : eid ∉ a.*1 -> removeEvent eid (a ++ (eid, u) :: b) = a ++ b.
Proof.
  induction a as [|[e v] a IH]; simpl; intros Ha; [by rewrite Z.eqb_refl|].
  apply not_elem_of_cons in Ha as [Hne Ha]. rewrite (proj2 (Z.eqb_neq e eid)) by done. by rewrite IH.
Qed.

Lemma isEventExist_split eid q : 
  match isEventExist eid q with
  | None => eid ∉ q.*1
  | Some u => exists a b, q = a ++ (eid, u) :: b /\ eid ∉ a.*1
  end.
Proof.
  induction q as [|[e u] q IH]; simpl; [apply not_elem_of_nil|]. destruct (Z.eqb_spec e eid) as [->|Hne].
  - exists [], q. split; [done | apply not_elem_of_nil].
  - destruct (isEventExist eid q) as [v|].
    + destruct IH as (a & b & -> & Ha). exists ((e, u) :: a), b. split; [done|]. simpl.
      by apply not_elem_of_cons.
    + by apply not_elem_of_cons.
Qed.

(** Inserting is removing the old entry and insertion sort, except that an
    event scheduled for the tick it already has stays where it is. *)
Lemma insertEvent_insort eid tick q : StronglySorted by_tick q -> NoDup q.*1 ->
  insertEvent eid tick q =
    match isEventExist eid q with
    | Some u => if u =? tick then (false, q) else (true, insort (eid, tick) (removeEvent eid q))
    | None => (false, insort (eid, tick) q)
    end.
Proof.
  intros Hs HND. destruct (sorted_split tick q Hs) as (l1 & l2 & Hq & H1 & H2).
  pose proof (isEventExist_split eid q) as He. unfold insertEvent.
  pose proof (scan_position eid tick 0 l1 l2 None H1 H2) as Hp.
  destruct (scan eid tick 0 q None None) as [old ins] eqn:Hscan. rewrite <- Hq, Hscan in Hp.
  change (0 + length q)%nat with (length q) in Hp. change (0 + length l1)%nat with (length l1) in Hp. simpl in Hp.
  rewrite Hp. replace (take (length l1) q) with l1 by (by rewrite Hq, take_app_length).
  replace (drop (length l1) q) with l2 by (by rewrite Hq, drop_app_length).
  assert (old = (scan eid tick 0 q None None).1) as -> by (by rewrite Hscan).
  destruct (isEventExist eid q) as [u|].
  - destruct He as (a & b & Hab & Ha).
    assert (eid ∉ b.*1) as Hb.
    { rewrite Hab, fmap_app in HND. apply NoDup_app in HND as (_ & _ & HND). simpl in HND. by apply NoDup_cons in HND as [? _]. }
    rewrite Hab, scan_present by done. change (0 + length a)%nat with (length a).
    destruct (Z.eqb_spec u tick) as [->|Hne]; [done|]. f_equal. rewrite removeEvent_present by done.
    rewrite Hab in Hq. apply app_eq_app in Hq as (l & [[Ha1 Hl]|[Hl1 Hl]]).
    + (* the old entry is in the later part *)
      rewrite decide_True by (rewrite Ha1, length_app; lia).
      subst a. rewrite Hl in H2. apply Forall_app in H2 as [H2a H2b].
      apply Forall_cons in H2b as [_ H2b]. rewrite <- app_assoc, insort_split; [|done | by apply Forall_app].
      rewrite Hl. replace (S (length (l1 ++ l))) with (length (l1 ++ (eid, tick) :: l))
        by (rewrite !length_app; simpl; lia).
      rewrite (app_comm_cons l), (app_assoc l1), delete_middle. by rewrite <- app_assoc.
    + destruct l as [|y l]; simpl in Hl.
      * rewrite app_nil_r in Hl1. subst l1. rewrite decide_True by lia. subst l2.
        apply Forall_cons in H2 as [_ H2b]. rewrite insort_split by done.
        replace (S (length a)) with (length (a ++ [(eid, tick)])) by (rewrite length_app; simpl; lia).
        rewrite (app_assoc a [(eid, tick)] ((eid, u) :: b) : a ++ (eid, tick) :: (eid, u) :: b = _).
        by rewrite delete_middle, <- app_assoc.
      * injection Hl as <- ->. subst l1. rewrite decide_False by (rewrite length_app; simpl; lia).
        apply Forall_app in H1 as [H1a [_ H1b]%Forall_cons].
        rewrite app_assoc, insort_split; [|by apply Forall_app | done].
        rewrite <- app_assoc. simpl. by rewrite delete_middle, <- app_assoc.
  - rewrite scan_absent by done. by rewrite Hq, insort_split.
Qed.

Lemma insort_perm x q : insort x q ≡ₚ x :: q.
Proof.
  induction q as [|y q IH]; simpl; [done|]. destruct (x.2 <? y.2); [done|]. rewrite IH. apply Permutation_swap.
Qed.

Lemma insort_sorted x q : StronglySorted by_tick q -> StronglySorted by_tick (insort x q).
Proof.
  induction 1 as [|y q Hq IH Hy]; simpl; [repeat constructor|].
  destruct (Z.ltb_spec x.2 y.2) as [Hlt|Hge].
  - constructor; [by constructor|]. constructor; [unfold by_tick; lia|].
    eapply Forall_impl; [exact Hy|]. unfold by_tick. intros z Hz. lia.
  - constructor; [done|]. rewrite insort_perm. constructor; [done | exact Hy].
Qed.

Lemma removeEvent_sublist eid q : removeEvent eid q `sublist_of` q.
Proof.
  induction q as [|[e u] q IH]; simpl; [constructor|]. destruct (e =? eid); [by apply sublist_cons | by apply sublist_skip].
Qed.

Lemma sublist_sorted q q' : q `sublist_of` q' -> StronglySorted by_tick q' -> StronglySorted by_tick q.
Proof.
  intros Hsub Hs. induction Hsub as [|x l k Hsub IH|x l k Hsub IH]; [done | |].
  - inversion Hs as [|? ? Hk Hx]; subst. constructor; [auto|]. rewrite Forall_forall in Hx |- *.
    intros z Hz. apply Hx. by eapply elem_of_sublist.
  - inversion Hs; subst. auto.
Qed.

Lemma removeEvent_gone eid q : NoDup q.*1 -> eid ∉ (removeEvent eid q).*1.
Proof.
  intros HND. pose proof (isEventExist_split eid q) as He. destruct (isEventExist eid q) as [u|].
  - destruct He as (a & b & -> & Ha). rewrite removeEvent_present by done. rewrite fmap_app in HND |- *.
    apply NoDup_app in HND as (_ & _ & HND). simpl in HND. apply NoDup_cons in HND as [Hb _]. by apply not_elem_of_app.
  - by rewrite removeEvent_absent.
Qed.

(** ** The invariant *)

Section Inv.
  Context {X F : Type}.

Record pending (now : Z) (l : gmap Z F) (q : list (Z * Z)) : Prop := {
  pe_sorted : StronglySorted by_tick q;
  pe_nodup : NoDup q.*1;
  pe_future : forall e u, (e, u) ∈ q -> now <= u;
  pe_known : forall e u, (e, u) ∈ q -> is_Some (l !! e);
}.
Definition inv (s : t X F) : Prop := pending (simTick s) (eventList s) (eventQueue s).

Lemma pending_sublist now l q q' : q' `sublist_of` q -> pending now l q -> pending now l q'.
Proof.
  intros Hsub [Hs HND Hf Hk]. assert (forall y, y ∈ q' -> y ∈ q) as Hin.
  { intros y Hy. by eapply elem_of_sublist. }
  split; [by eapply sublist_sorted | | eauto | eauto].
  eapply sublist_NoDup; [exact HND|]. by apply fmap_sublist.
Qed.

Lemma pending_insort now l q eid tick : pending now l q -> eid ∉ q.*1 -> now <= tick -> is_Some (l !! eid) ->
  pending now l (insort (eid, tick) q).
Proof.
  intros [Hs HND Hf Hk] Hn Ht He. split.
  - by apply insort_sorted.
  - rewrite insort_perm. simpl. by apply NoDup_cons.
  - intros e u. rewrite insort_perm. intros [[= -> ->]|Hy]%elem_of_cons; eauto.
  - intros e u. rewrite insort_perm. intros [[= -> ->]|Hy]%elem_of_cons; eauto.
Qed.

Lemma pending_insert now l q eid tick : pending now l q -> now <= tick -> is_Some (l !! eid) ->
  pending now l (insertEvent eid tick q).2.
Proof.
  intros Hp Ht He. pose proof Hp as [Hs HND Hf Hk]. rewrite insertEvent_insort by done.
  pose proof (isEventExist_split eid q) as Hex. destruct (isEventExist eid q) as [u|].
  - destruct (u =? tick); [done|]. apply pending_insort; try done; [|by apply removeEvent_gone].
    eapply pending_sublist; [apply removeEvent_sublist | done].
  - by apply pending_insort.
Qed.

Lemma pending_list now (l l' : gmap Z F) q : (forall e, is_Some (l !! e) -> is_Some (l' !! e)) ->
  pending now l q -> pending now l' q.
Proof. intros Hl [Hs HND Hf Hk]. split; eauto. Qed.
End Inv.

(** ** What the operations do *)

Section Proofs.
  Context {X F : Type} `{Handlers X F}.
  Implicit Types (s : t X F) (p : prog X F).

(** The ways an event function can misuse the engine. *)
Definition api_err (e : err) : Prop :=
  e = Panic "Fail to allocate event" \/ e = Panic "Event does not exists".

(** Events due by tick [u]. *)
Definition due (u : Z) (q : list (Z * Z)) : nat := length (filter (fun y => y.2 <= u) q).

(** What an event function leaves: the invariant, the clock, and no more events
    due by [u], when it only schedules after [u]. *)
Record stepped (later : bool) (u : Z) s s' : Prop := {
  st_inv : inv s';
  st_tick : simTick s' = simTick s;
  st_stop : forceStop s' = forceStop s;
  st_due : later = true -> (due u (eventQueue s') <= due u (eventQueue s))%nat;
}.

Lemma stepped_refl b u s : inv s -> stepped b u s s.
Proof. by split. Qed.
Lemma stepped_trans b u s s1 s2 : stepped b u s s1 -> stepped b u s1 s2 -> stepped b u s s2.
Proof. intros [Hi Ht Hs Hd] [Hi' Ht' Hs' Hd']. split; [done | congruence | congruence |]. intros Hb. specialize (Hd Hb). specialize (Hd' Hb). lia. Qed.

Lemma due_sublist u q q' : q' `sublist_of` q -> (due u q' <= due u q)%nat.
Proof.
  unfold due. induction 1 as [|x l k Hsub IH|x l k Hsub IH]; [done | |]; rewrite !filter_cons;
    repeat case_decide; simpl; lia.
Qed.

Lemma due_insort u x q : u < x.2 -> due u (insort x q) = due u q.
Proof.
  intros Hx. unfold due. rewrite insort_perm, filter_cons. by rewrite decide_False by lia.
Qed.

Lemma due_insert u eid tick q : StronglySorted by_tick q -> NoDup q.*1 -> u < tick ->
  (due u (insertEvent eid tick q).2 <= due u q)%nat.
Proof.
  intros Hs HND Ht. rewrite insertEvent_insort by done. destruct (isEventExist eid q) as [v|].
  - destruct (v =? tick); [done|]. simpl. rewrite due_insort by done. apply due_sublist, removeEvent_sublist.
  - simpl. by rewrite due_insort.
Qed.

Lemma known_ok {A} eid (m : M (t X F) A) (Q : A -> t X F -> Prop) s :
  (is_Some (eventList s !! eid) -> wpe api_err m Q s) -> wpe api_err (known eid m) Q s.
Proof.
  intros Hm. unfold known. wp_step. wp_step. destruct (eventList s !! eid) as [f|]; [by apply Hm|].
  apply wpe_fail. by right.
Qed.

Lemma allocateEvent_ok b u f s : inv s ->
  wpe api_err (allocateEvent f) (fun _ s' => stepped b u s s') s.
Proof.
  intros Hi. unfold allocateEvent. wp_step. wp_step.
  destruct (eventList s !! u64 (counter s + 1)) eqn:Hc; [apply wpe_fail; by left|].
  wp_step. wp_step. wp_step. split; try done. eapply pending_list; [|exact Hi].
  intros e He. simpl. destruct (decide (e = u64 (counter s + 1))) as [->|Hne]; [by rewrite lookup_insert_eq|].
  by rewrite lookup_insert_ne.
Qed.

Lemma scheduleEvent_ok b u eid tick s : inv s -> (b = true -> u < tick) ->
  wpe api_err (scheduleEvent eid tick) (fun _ s' => stepped b u s s') s.
Proof.
  intros Hi Hu. apply known_ok. intros He. wp_step. wp_step. cbv zeta. wp_step.
  set (tick' := if tick <? simTick s then simTick s else tick).
  assert (simTick s <= tick' /\ tick <= tick') as [Ht Hle].
  { unfold tick'. destruct (Z.ltb_spec tick (simTick s)); lia. }
  split; try done; simpl.
  - by apply pending_insert.
  - intros Hb. apply due_insert; [apply Hi | apply Hi |]. specialize (Hu Hb). lia.
Qed.

Lemma descheduleEvent_ok b u eid s : inv s ->
  wpe api_err (descheduleEvent eid) (fun _ s' => stepped b u s s') s.
Proof.
  intros Hi. apply known_ok. intros He. wp_step. split; try done; simpl.
  - eapply pending_sublist; [apply removeEvent_sublist | exact Hi].
  - intros _. apply due_sublist, removeEvent_sublist.
Qed.

Lemma deallocateEvent_ok b u eid s : inv s ->
  wpe api_err (deallocateEvent eid) (fun _ s' => stepped b u s s') s.
Proof.
  intros Hi. apply known_ok. intros He. wp_step. pose proof Hi as [Hs HND Hf Hk].
  pose proof (pending_sublist _ _ _ _ (removeEvent_sublist eid (eventQueue s)) Hi) as [Hs' HND' Hf' Hk'].
  split; try done; simpl; [split; try done|]; simpl.
  - intros e v Hin. rewrite lookup_delete_ne; [by eapply Hk'|]. intros ->.
    apply (removeEvent_gone e (eventQueue s) HND). by apply (list_elem_of_fmap_2 fst _ (e, v)).
  - intros _. apply due_sublist, removeEvent_sublist.
Qed.

(** Programs that schedule only after tick [u]. *)
Inductive schedules_after (u : Z) : prog X F -> Prop :=
  | sa_Return x : schedules_after u (Return x)
  | sa_Allocate f k : (forall e, schedules_after u (k e)) -> schedules_after u (Allocate f k)
  | sa_Schedule e v k : u < v -> schedules_after u k -> schedules_after u (Schedule e v k)
  | sa_Deschedule e k : schedules_after u k -> schedules_after u (Deschedule e k)
  | sa_IsScheduled e k : (forall o, schedules_after u (k o)) -> schedules_after u (IsScheduled e k)
  | sa_Deallocate e k : schedules_after u k -> schedules_after u (Deallocate e k)
  | sa_GetTick k : (forall v, schedules_after u (k v)) -> schedules_after u (GetTick k).

Lemma event_ok b u p s : inv s -> (b = true -> schedules_after u p) ->
  wpe api_err (exec p) (fun _ s' => stepped b u s s') s.
Proof.
  revert s. induction p as [x|f k IH|e v k IH|e k IH|e k IH|e k IH|k IH]; intros s Hi Hb; cbn [exec].
  - wp_step. by split.
  - wp_step. eapply wpe_mono; [by apply (allocateEvent_ok b u)|]. intros e s1 Hst. simpl in Hst.
    eapply wpe_mono; [apply IH; [apply Hst|]; intros Hb'; specialize (Hb Hb'); by inversion Hb|].
    intros [] s2. by apply stepped_trans.
  - wp_step. eapply wpe_mono; [apply (scheduleEvent_ok b u); [done|]; intros Hb'; specialize (Hb Hb'); by inversion Hb|].
    intros [] s1 Hst. eapply wpe_mono; [apply IH; [apply Hst|]; intros Hb'; specialize (Hb Hb'); by inversion Hb|].
    intros [] s2. by apply stepped_trans.
  - wp_step. eapply wpe_mono; [by apply (descheduleEvent_ok b u)|]. intros [] s1 Hst.
    eapply wpe_mono; [apply IH; [apply Hst|]; intros Hb'; specialize (Hb Hb'); by inversion Hb|].
    intros [] s2. by apply stepped_trans.
  - wp_step. apply known_ok. intros _. wp_step. apply IH; [done|].
    intros Hb'. specialize (Hb Hb'). by inversion Hb.
  - wp_step. eapply wpe_mono; [by apply (deallocateEvent_ok b u)|]. intros [] s1 Hst.
    eapply wpe_mono; [apply IH; [apply Hst|]; intros Hb'; specialize (Hb Hb'); by inversion Hb|].
    intros [] s2. by apply stepped_trans.
  - unfold getCurrentTick. wp_step. wp_step. apply IH; [done|]. intros Hb'. specialize (Hb Hb'). by inversion Hb.
Qed.

(** One round of the loop, on its three branches. *)
Lemma doNextEvent_ok b s : inv s ->
  (b = true -> forall f u x, schedules_after u (call f u x)) ->
  wpe api_err doNextEvent (fun more s' => inv s' /\ simTick s <= simTick s' /\ forceStop s' = forceStop s /\
    match more with
    | false => s' = s /\ (forceStop s = true \/ eventQueue s = [])
    | true => forceStop s = false /\ exists e u q, eventQueue s = (e, u) :: q /\ simTick s' = u /\
        (b = true -> (due u (eventQueue s') <= due u q)%nat)
    end) s.
Proof.
  intros Hi Hlater. unfold doNextEvent. wp_step. wp_step.
  destruct (forceStop s) eqn:Hstop; [wp_step; split_and!; auto; lia|].
  destruct (eventQueue s) as [|[e u] q] eqn:Hq; [wp_step; split_and!; auto; lia|].
  pose proof Hi as [Hs HND Hf Hk]. rewrite Hq in Hs, HND, Hf, Hk.
  assert (simTick s <= u) as Hu by (by apply (Hf e), elem_of_cons; left).
  destruct (Hk e u) as [f Hfe]; [by left|]. rewrite Hfe.
  set (s1 := mk u (counter s) (forceStop s) (eventList s) q (eventHandled s) (world s)).
  assert (inv s1) as Hi1.
  { inversion Hs as [|? ? Hs' Hle]; subst. simpl in HND. apply NoDup_cons in HND as [_ HND].
    split; simpl; [done | done | |].
    - intros e' u' Hin. rewrite Forall_forall in Hle. apply (Hle (e', u') Hin).
    - intros e' u' Hin. eapply Hk. right. exact Hin. }
  do 2 wp_step. wp_step. wp_step. wp_step.
  eapply wpe_mono; [apply (event_ok b u _ s1 Hi1); intros Hb; by apply Hlater|].
  intros [] s2 [Hi2 Ht2 Hs2 Hd2]. wp_step. wp_step. wp_step. split_and!.
  - exact Hi2.
  - simpl. rewrite Ht2. exact Hu.
  - simpl. rewrite Hs2. exact Hstop.
  - done.
  - exists e, u, q. split_and!; [done | exact Ht2 | exact Hd2].
Qed.

Lemma loop_ok n s : inv s ->
  wpe api_err (loop n) (fun _ s' => inv s' /\ simTick s <= simTick s') s.
Proof.
  revert s. induction n as [|n IH]; intros s Hi; cbn [loop]; [wp_step; split; [done | lia]|].
  wp_step. eapply wpe_mono; [by apply (doNextEvent_ok false)|]. intros [] s1 (Hi1 & Ht & _ & _).
  - eapply wpe_mono; [by apply IH|]. intros [] s2 [Hi2 Ht2]. split; [done | lia].
  - wp_step. done.
Qed.

(** ** Time passes every tick *)

(** Some number of rounds either passes tick [T] or ends in an error of an
    event function. *)
Definition passes (T : Z) s : Prop :=
  exists n, wpe api_err (loop n) (fun _ s' => inv s' /\ forall e u, (e, u) ∈ eventQueue s' -> T < u) s.

Lemma passes_step T s : wpe api_err doNextEvent (fun more s' => more = true /\ passes T s') s -> passes T s.
Proof.
  unfold passes, wpe. destruct (doNextEvent s) as [[more s']|e] eqn:Hd; simpl.
  - intros [-> [n Hn]]. exists (S n). cbn [loop]. unfold mbind, M_bind. by rewrite Hd.
  - intros He. exists 1%nat. cbn [loop]. unfold mbind, M_bind. by rewrite Hd.
Qed.

Lemma due_zero u q : due u q = 0%nat -> forall y, y ∈ q -> u < y.2.
Proof.
  unfold due. intros Hd%nil_length_inv y Hy. destruct (decide (y.2 <= u)) as [Hle|]; [|lia].
  exfalso. assert (y ∈ filter (fun y => y.2 <= u) q) as Hin by (by apply list_elem_of_filter).
  rewrite Hd in Hin. by apply not_elem_of_nil in Hin.
Qed.

Lemma due_later u q : Forall (fun y => u < y.2) q -> due u q = 0%nat.
Proof. unfold due. induction 1 as [|y q Hy _ IH]; [done|]. by rewrite filter_cons, decide_False by lia. Qed.

Lemma time_passes_from T d s : (forall f u x, schedules_after u (call f u x)) -> inv s ->
  forceStop s = false -> (forall e u, (e, u) ∈ eventQueue s -> T + 1 - Z.of_nat d <= u) -> passes T s.
Proof.
  intros Hlater. revert s. induction d as [|d IHd]; intros s Hi Hstop Hge.
  { exists 0%nat. apply wpe_ret. split; [done|]. intros e u Hin. specialize (Hge e u Hin). lia. }
  set (u0 := T - Z.of_nat d). remember (due u0 (eventQueue s)) as k eqn:Hk.
  revert s Hi Hstop Hge Hk. induction k as [k IHk] using lt_wf_ind. intros s Hi Hstop Hge Hk.
  destruct (decide (k = 0%nat)) as [->|Hpos].
  { apply IHd; [done | done |]. intros e u Hin. pose proof (due_zero _ _ (eq_sym Hk) (e, u) Hin). simpl in *. lia. }
  apply passes_step. eapply wpe_mono; [apply (doNextEvent_ok true s Hi); auto|].
  intros more s' (Hi' & Ht & Hst & Hmore). destruct more.
  - split; [done|]. destruct Hmore as (_ & e & u & q & Hq & Hu & Hd). specialize (Hd eq_refl).
    assert (u = u0) as ->.
    { assert (u0 <= u) by (unfold u0; specialize (Hge e u); rewrite Hq in Hge; specialize (Hge ltac:(left)); lia).
      destruct (decide (u = u0)) as [|Hne]; [done|]. exfalso. apply Hpos. rewrite Hk, Hq. unfold due.
      rewrite filter_cons, decide_False by (simpl; lia).
      pose proof Hi as [Hs _ _ _]. rewrite Hq in Hs. inversion Hs as [|? ? _ Hall]; subst.
      apply (due_later u0 q). eapply Forall_impl; [exact Hall|]. unfold by_tick. simpl. lia. }
    assert (due u0 (eventQueue s) = S (due u0 q)) as Hc.
    { rewrite Hq. unfold due. rewrite filter_cons, decide_True by (simpl; lia). done. }
    apply (IHk (due u0 (eventQueue s'))); [lia | done | by rewrite Hst | | done].
    intros e' u' Hin. pose proof (pe_future _ _ _ Hi' e' u' Hin). unfold u0 in *. lia.
  - exfalso. destruct Hmore as [_ [Hs|Hs]]; [congruence|]. rewrite Hs in Hk. by apply Hpos.
Qed.
End Proofs.

(** ** Properties *)

Section Properties.
  Context {X F : Type} `{Handlers X F}.
  Implicit Types (s : t X F).

(** C23: whatever the event functions do, any number of rounds of the event loop
    keeps the pending events sorted by tick, distinct, not before the clock and
    backed by a function, and never turns the clock back; it fails only when a
    function names an event that does not exist or no event number is free
    (never by dispatching an event without a function). *)
Theorem event_loop_safe n s : inv s ->
  match loop n s with
  | Ok (_, s') => inv s' /\ simTick s <= simTick s'
  | Err e => api_err e
  end.
Proof. intros Hi. pose proof (loop_ok n s Hi) as Hl. unfold wpe in Hl. by destruct (loop n s) as [[[] s']|e]. Qed.

(** Scheduling an event puts it after the events that are not later and
    before those that are (its old entry removed, a tick in the past raised to
    the clock), except that rescheduling to the same tick keeps its place; an
    unknown event panics. *)
Theorem scheduleEvent_insorts eid tick s : inv s ->
  let tick' := Z.max tick (simTick s) in
  scheduleEvent eid tick s =
    match eventList s !! eid with
    | None => Err (Panic "Event does not exists")
    | Some _ => Ok (tt, with_queue
        (if bool_decide (isEventExist eid (eventQueue s) = Some tick') then eventQueue s
         else insort (eid, tick') (removeEvent eid (eventQueue s))) s)
    end.
Proof.
  intros [Hs HND Hf Hk] tick'. unfold scheduleEvent, known, mbind, M_bind, get. simpl.
  destruct (eventList s !! eid) as [f|]; [|done]. unfold gets, modify.
  assert ((if tick <? simTick s then simTick s else tick) = tick') as ->.
  { unfold tick'. destruct (Z.ltb_spec tick (simTick s)); lia. }
  rewrite insertEvent_insort by done. pose proof (isEventExist_split eid (eventQueue s)) as He.
  destruct (isEventExist eid (eventQueue s)) as [u|].
  - destruct (Z.eqb_spec u tick') as [->|Hne]; [by rewrite bool_decide_true|].
    rewrite bool_decide_false by congruence. done.
  - rewrite bool_decide_false by done. by rewrite removeEvent_absent.
Qed.

(** When event functions only schedule for later than now, the loop passes
    every tick: after finitely many rounds no event that is due by [T] is left
    (or an event function has failed). *)
Theorem time_passes T s : (forall f u x, schedules_after u (call f u x)) -> inv s ->
  forceStop s = false ->
  exists n, match loop n s with
            | Ok (_, s') => inv s' /\ forall e u, (e, u) ∈ eventQueue s' -> T < u
            | Err e => api_err e
            end.
Proof.
  intros Hlater Hi Hstop.
  destruct (time_passes_from T (Z.to_nat (T + 1 - simTick s)) s Hlater Hi Hstop) as [n Hn].
  - intros e u Hin. pose proof (pe_future _ _ _ Hi e u Hin). lia.
  - exists n. unfold wpe in Hn. by destruct (loop n s) as [[[] s']|e].
Qed.
End Properties.

(** ** A periodic event *)

Section Periodic.
(** One event that counts its firings and fires again 10 ticks later. *)
#[local] Instance ticker : Handlers (Z * Z) unit :=
  fun _ u x => Schedule x.1 (u + 10) (Return (x.1, x.2 + 1)).

Definition ticking : t (Z * Z) unit := mk 0 1 false {[ 1 := tt ]} [(1, 5)] 0 (1, 0).

Lemma ticking_inv : inv ticking.
Proof.
  split; simpl; [repeat constructor | repeat constructor; set_solver | |]; intros e u [= -> ->]%list_elem_of_singleton.
  - lia.
  - rewrite lookup_singleton_eq. by eexists.
Qed.

Lemma event_loop_safe_witness : exists s', loop 3 ticking = Ok (tt, s') /\ inv s' /\ world s' = (1, 3).
Proof.
  pose proof (event_loop_safe 3 ticking ticking_inv) as Hl.
  destruct (loop 3 ticking) as [[[] s']|e] eqn:He; [|vm_compute in He; discriminate He].
  exists s'. split; [reflexivity|]. split; [exact (proj1 Hl)|]. vm_compute in He. injection He as <-. reflexivity.
Defined.

Lemma scheduleEvent_insorts_witness : inv ticking /\
  scheduleEvent 1 (-3) ticking = Ok (tt, with_queue [(1, 0)] ticking).
Proof. split; [exact ticking_inv|]. rewrite (scheduleEvent_insorts 1 (-3) ticking ticking_inv). reflexivity. Defined.

Lemma time_passes_witness : exists n, match loop n ticking with
    | Ok (_, s') => inv s' /\ forall e u, (e, u) ∈ eventQueue s' -> 1000 < u
    | Err e => api_err e
    end.
Proof.
  apply (time_passes 1000 ticking); [|exact ticking_inv | reflexivity].
  intros f u x. apply sa_Schedule; [lia | apply sa_Return].
Defined.
End Periodic.
End Engine.
