(* ===== verification/PalAddr.v ===== *)
(** * pal/pal.cc, pal/pal_old.cc, pal/config.cc, pal/old/PAL2.cc: flash addresses

    From a superblock and a superpage to the channels, packages, dies, planes,
    blocks and pages of the flash array: the geometry the [PAL] constructor
    computes, the page allocation order of the configuration, [convertCPDPBP],
    and the physical page numbers of [PAL2]. *)

From S2P Require Import Prelude Bitset Types.
From Stdlib Require Import Ascii.

(** [CPDPBP] *)
Record CPDPBP : Type := mkCPDPBP {
  Channel : Z; Package : Z; Die : Z; Plane : Z; Block : Z; Page : Z;
}.

(** [PAL::Parameter] *)
Record PalParameter : Type := mkPalParameter {
  channel : Z; package : Z; die : Z; plane : Z; block : Z; page : Z;
  superBlock : Z; palPageSize : Z; superPageSize : Z; pageInSuperPage : Z;
}.

(** The configuration values: sizes as [readUint] gives them, the superblock
    mask and the page allocation order. *)
Record PalConfig : Type := mkPalConfig {
  cfChannel : Z; cfPackage : Z; cfDie : Z; cfPlane : Z; cfBlock : Z; cfPage : Z; cfPageSize : Z;
  multiPlane : bool;
  superblockMask : Z;
  pageAllocation : list Z;
  useRandomTweak : bool;
}.

(** [ADDR_INDEX] *)
Definition INDEX_CHANNEL : Z := 1.
Definition INDEX_PACKAGE : Z := 2.
Definition INDEX_DIE : Z := 4.
Definition INDEX_PLANE : Z := 8.

(** ** The page allocation string *)

Definition letter_index (c : ascii) : option Z :=
  if Ascii.eqb c "C" || Ascii.eqb c "c" then Some INDEX_CHANNEL
  else if Ascii.eqb c "W" || Ascii.eqb c "w" then Some INDEX_PACKAGE
  else if Ascii.eqb c "D" || Ascii.eqb c "d" then Some INDEX_DIE
  else if Ascii.eqb c "P" || Ascii.eqb c "p" then Some INDEX_PLANE
  else None.

(** The loop over the letters: the entries set so far, [check] and [fail]. *)
Fixpoint parse_letters (l : list ascii) (i : Z) (pa : list Z) (check : Z) (fail : bool)
    : list Z * Z * bool :=
  match l with
  | [] => (pa, check, fail)
  | c :: l' =>
      let '(i, pa, check, fail) :=
        match letter_index c with
        | None => (i, pa, check, fail)
        | Some ix => (i + 1, vset pa i ix, Z.lor check ix,
                      fail || negb (Z.land check ix =? 0))
        end in
      if i =? 4 then (pa, check, fail) else parse_letters l' i pa check fail
  end.

(** Moving the plane index to the front. *)
Fixpoint plane_first (before after : list Z) : list Z :=
  match after with
  | [] => before
  | x :: after' => if x =? INDEX_PLANE then INDEX_PLANE :: before ++ after'
                   else plane_first (before ++ [x]) after'
  end.

(** [Config::update]: the array [PageAllocation] it leaves. *)
Definition parse_allocation (multi : bool) (s : string) : res (list Z) :=
  let '(pa, check, fail) :=
    parse_letters (String.list_ascii_of_string s) 0
      [INDEX_CHANNEL; INDEX_PACKAGE; INDEX_DIE; INDEX_PLANE] 0 false in
  let fail := fail || negb (check =? 15) in
  let pa := if multi then plane_first [] pa else pa in
  if fail then panic "Invalid page allocation string" else Ok pa.

(** [Config::update]: the mask of the superblock letters. *)
Definition parse_superblock (multi : bool) (dflt : Z) (s : string) : Z :=
  let l := String.list_ascii_of_string s in
  let sb := if (0 <? vlen l)
            then foldl (fun sb c => match letter_index c with Some ix => Z.lor sb ix | None => sb end) 0 l
            else dflt in
  if multi then Z.lor sb INDEX_PLANE else sb.

(** [getPageAllocationConfig]: the array packed in 32 bits. *)
Definition getPageAllocationConfig (pa : list Z) : res Z :=
  a ← get_raw pa 0; b ← get_raw pa 1; c ← get_raw pa 2; d ← get_raw pa 3;
  Ok (u32 (Z.lor (Z.lor (Z.lor a (Z.shiftl b 8)) (Z.shiftl c 16)) (Z.shiftl d 24))).

(** ** The geometry *)

Definition flagged (mask ix : Z) : bool := negb (Z.land mask ix =? 0).

(** [if (superblock & INDEX) superPageSize *= n; else superBlock *= n]; the
    state is [(superPageSize, superBlock)]. *)
Definition scale (inside : bool) (n : Z) (st : Z * Z) : Z * Z :=
  if inside then (u32 (st.1 * n), st.2) else (st.1, u32 (st.2 * n)).

(** The constructor of [PAL]. *)
Definition palParameter (c : PalConfig) : res PalParameter :=
  let sb := superblockMask c in
  let st := (u32 (cfPageSize c), u32 (cfBlock c)) in
  let st := scale (flagged sb INDEX_CHANNEL) (u32 (cfChannel c)) st in
  let st := scale (flagged sb INDEX_PACKAGE) (u32 (cfPackage c)) st in
  let st := scale (flagged sb INDEX_DIE) (u32 (cfDie c)) st in
  let '(sps, sblk) := scale (multiPlane c || flagged sb INDEX_PLANE) (u32 (cfPlane c)) st in
  if u32 (cfPageSize c) =? 0 then Err UB
  else
    let pisp := sps / u32 (cfPageSize c) in
    pisp ← (if multiPlane c then if u32 (cfPlane c) =? 0 then Err UB else Ok (pisp / u32 (cfPlane c))
            else Ok pisp);
    Ok (mkPalParameter (u32 (cfChannel c)) (u32 (cfPackage c)) (u32 (cfDie c)) (u32 (cfPlane c))
          (u32 (cfBlock c)) (u32 (cfPage c)) sblk (u32 (cfPageSize c)) sps pisp).

(** ** Superpages to addresses *)

Definition setField (ix x : Z) (a : CPDPBP) : CPDPBP :=
  if ix =? INDEX_CHANNEL then mkCPDPBP x (Package a) (Die a) (Plane a) (Block a) (Page a)
  else if ix =? INDEX_PACKAGE then mkCPDPBP (Channel a) x (Die a) (Plane a) (Block a) (Page a)
  else if ix =? INDEX_DIE then mkCPDPBP (Channel a) (Package a) x (Plane a) (Block a) (Page a)
  else if ix =? INDEX_PLANE then mkCPDPBP (Channel a) (Package a) (Die a) x (Block a) (Page a)
  else a.

Definition dimension (p : PalParameter) (ix : Z) : Z :=
  if ix =? INDEX_CHANNEL then channel p
  else if ix =? INDEX_PACKAGE then package p
  else if ix =? INDEX_DIE then die p
  else plane p.

(** One iteration of the first loop: an index inside the superblock is put on
    the list of loops, one outside takes its digit of the block number. *)
Definition splitIndex (c : PalConfig) (p : PalParameter) (ix : Z) (st : Z * CPDPBP * list (Z * Z))
    : res (Z * CPDPBP * list (Z * Z)) :=
  let '(tmp, a, ptrs) := st in
  if (ix =? INDEX_CHANNEL) || (ix =? INDEX_PACKAGE) || (ix =? INDEX_DIE)
     || ((ix =? INDEX_PLANE) && negb (multiPlane c)) then
    let n := dimension p ix in
    if flagged (superblockMask c) ix then Ok (tmp, a, ptrs ++ [(n, ix)])
    else if n =? 0 then Err UB
    else Ok (tmp / n, setField ix (tmp mod n) a, ptrs)
  else Ok (tmp, a, ptrs).

(** The nested loops, the outermost first: each flagged unit is appended. *)
Fixpoint visit (io : Bitset.t) (a : CPDPBP) (loops : list (Z * Z)) (fields : list (Z * Z))
    (st : Z * list CPDPBP) : res (Z * list CPDPBP) :=
  match loops with
  | [] =>
      t ← Bitset.test io (u32 st.1);
      Ok (u64 (st.1 + 1),
          if t : bool then st.2 ++ [foldr (fun f a => setField f.1 f.2 a) a fields] else st.2)
  | (n, ix) :: loops' =>
      for_range 0 n (fun x st => visit io a loops' ((ix, x) :: fields) st) st
  end.

(** [convertCPDPBP]; [a0] is the uninitialised local [addr].  The request comes
    back with the I/O flags it is left with. *)
Definition convertCPDPBP (c : PalConfig) (p : PalParameter) (a0 : CPDPBP) (req : PalRequest)
    : res (PalRequest * list CPDPBP) :=
  let n := pageInSuperPage p in
  pa ← getPageAllocationConfig (pageAllocation c);
  io ← (if useRandomTweak c then
          if negb (Bitset.size (pal_ioFlag req) =? n) then panic "Invalid size of I/O flag"
          else Ok (pal_ioFlag req)
        else if negb (Bitset.size (pal_ioFlag req) =? n) then Bitset.set_all (Bitset.make n)
        else Ok (pal_ioFlag req));
  let a := setField INDEX_PLANE 0 a0 in
  '(tmp, a, ptrs) ← for_range 0 4
     (fun i st => splitIndex c p (Z.land (Z.shiftr pa (i * 8)) 255) st) (blockIndex req, a, []);
  let a := mkCPDPBP (Channel a) (Package a) (Die a) (Plane a) (u32 tmp) (pageIndex req) in
  '(units, list) ← visit io a (rev ptrs) [] (0, []);
  if units =? n then
    Ok (mkPalRequest (pal_reqID req) (pal_reqSubID req) (blockIndex req) (pageIndex req) io, list)
  else panic "I/O flag size != # pages in super page".

(** ** Dies and physical page numbers *)

Definition CPDPBPtoDieIdx (p : PalParameter) (a : CPDPBP) : Z :=
  u32 (u32 (Die a + u32 (Package a * die p)) + u32 (u32 (Channel a * die p) * package p)).

(** [RearrangedSizes] with [AddrRemap] = page, block, plane, die, package,
    channel; the entry for misaligned sizes is 0. *)
Record Sizes : Type := mkSizes { RS0 : Z; RS1 : Z; RS2 : Z; RS3 : Z; RS4 : Z; RS5 : Z }.
Definition rearrangedSizes (c : PalConfig) (p : PalParameter) : Sizes :=
  mkSizes (page p) (block p) (if multiPlane c then 1 else plane p) (die p) (package p) (channel p).

Definition udiv (x n : Z) : res Z := if n =? 0 then Err UB else Ok (x / n).
Definition umodulo (x n : Z) : res Z := if n =? 0 then Err UB else Ok (x mod n).

(** [PPNdisassemble], for aligned sizes. *)
Definition PPNdisassemble (r : Sizes) (ppn : Z) : res CPDPBP :=
  let d4 := RS5 r in
  let d3 := u32 (d4 * RS4 r) in
  let d2 := u32 (d3 * RS3 r) in
  let d1 := u32 (d2 * RS2 r) in
  let d0 := u32 (d1 * RS1 r) in
  q0 ← udiv ppn d0; t ← umodulo ppn d0;
  q1 ← udiv t d1; t ← umodulo t d1;
  q2 ← udiv t d2; t ← umodulo t d2;
  q3 ← udiv t d3; t ← umodulo t d3;
  q4 ← udiv t d4; t ← umodulo t d4;
  Ok (mkCPDPBP (u32 t) (u32 q4) (u32 q3) (u32 q2) (u32 q1) (u32 q0)).

(** [AssemblePPN]: 32-bit products, a 64-bit sum. *)
Definition AssemblePPN (r : Sizes) (a : CPDPBP) : Z :=
  let d4 := RS5 r in
  let d3 := u32 (d4 * RS4 r) in
  let d2 := u32 (d3 * RS3 r) in
  let d1 := u32 (d2 * RS2 r) in
  let d0 := u32 (d1 * RS1 r) in
  u64 (u64 (u64 (u64 (u64 (Channel a + u32 (Package a * d4)) + u32 (Die a * d3)) + u32 (Plane a * d2))
    + u32 (Block a * d1)) + u32 (Page a * d0)).
