(* ===== verification/PalAddrProof.v ===== *)
(** * Flash addresses: proofs *)

From S2P Require Import Prelude Bitset Types PalAddr.
From Stdlib Require Import Ascii.

(** The four indices. *)
Definition indices : list Z := [INDEX_CHANNEL; INDEX_PACKAGE; INDEX_DIE; INDEX_PLANE].

Ltac index_cases := unfold indices, INDEX_CHANNEL, INDEX_PACKAGE, INDEX_DIE, INDEX_PLANE in *;
  repeat match goal with
  | H : _ ∈ _ :: _ |- _ => apply elem_of_cons in H as [->|H]
  | H : _ ∈ [] |- _ => apply not_elem_of_nil in H; destruct H
  end.

(** ** The page allocation string *)

Lemma letter_index_range c ix : letter_index c = Some ix -> ix ∈ indices.
Proof.
  unfold letter_index, indices. intros Hc. repeat case_match; simplify_eq; set_solver.
Qed.

Lemma land_indices x y : x ∈ indices -> y ∈ indices -> (Z.land x y = 0 <-> x <> y).
Proof. intros Hx Hy. index_cases; vm_compute; split; congruence. Qed.

(** [check] is the set of the indices seen. *)
Definition mask_of (pre : list Z) : Z := foldr Z.lor 0 pre.

Lemma mask_of_snoc pre x : mask_of (pre ++ [x]) = Z.lor (mask_of pre) x.
Proof.
  unfold mask_of. induction pre as [|y pre IH]; simpl; [by rewrite Z.lor_0_r|]. by rewrite IH, Z.lor_assoc.
Qed.

Lemma mask_of_mem pre x : (forall y, y ∈ pre -> y ∈ indices) -> x ∈ indices ->
  Z.land (mask_of pre) x = 0 <-> x ∉ pre.
Proof.
  unfold mask_of. intros Hpre Hx. induction pre as [|y pre IH]; simpl.
  - rewrite Z.land_0_l. split; [intros _; apply not_elem_of_nil | done].
  - assert (y ∈ indices) as Hy by (apply Hpre; left).
    rewrite Z.land_lor_distr_l, Z.lor_eq_0_iff, (land_indices y x) by done.
    rewrite IH, not_elem_of_cons by (intros z Hz; apply Hpre; by right).
    split; intros [? ?]; split; congruence.
Qed.

(** The state of the loop over the letters: the entries set so far are
    different indices. *)
Record parsed (i : Z) (pa : list Z) (check : Z) : Prop := {
  pd_pre : exists pre rest, pa = pre ++ rest /\ vlen pre = i /\ vlen pa = 4 /\ NoDup pre /\
             (forall y, y ∈ pre -> y ∈ indices) /\ check = mask_of pre;
}.

Lemma parsed_step i pa check ix : parsed i pa check -> i < 4 -> ix ∈ indices -> Z.land check ix = 0 ->
  parsed (i + 1) (vset pa i ix) (Z.lor check ix).
Proof.
  intros [(pre & rest & -> & Hi & Hl & HND & Hpre & ->)] Hlt Hix Hland.
  apply mask_of_mem in Hland; [|done..]. destruct rest as [|r rest].
  { rewrite app_nil_r in Hl. lia. }
  split. exists (pre ++ [ix]), rest. unfold vset. destruct (Z.ltb_spec i 0); [pose proof (vlen_nonneg pre); lia|].
  assert (<[Z.to_nat i := ix]> (pre ++ r :: rest) = pre ++ ix :: rest) as ->.
  { rewrite insert_app_r_alt by (unfold vlen in Hi; lia).
    replace (Z.to_nat i - length pre)%nat with 0%nat by (unfold vlen in Hi; lia). done. }
  split_and!.
  - by rewrite <- app_assoc.
  - unfold vlen in *. rewrite length_app. simpl. lia.
  - unfold vlen in *. rewrite length_app in *. simpl in *. lia.
  - apply NoDup_app. split_and!; [done | | apply NoDup_singleton]. intros x Hx ->%list_elem_of_singleton. done.
  - intros y [Hy| ->%list_elem_of_singleton]%elem_of_app; auto.
  - by rewrite mask_of_snoc.
Qed.

Lemma parse_letters_ok l i pa check fail pa' check' : 
  (fail = false -> parsed i pa check) -> i < 4 ->
  parse_letters l i pa check fail = (pa', check', false) ->
  exists i', parsed i' pa' check'.
Proof.
  revert i pa check fail. induction l as [|c l IH]; intros i pa check fail Hp Hi; simpl.
  - intros [= <- <- ->]. eauto.
  - destruct (letter_index c) as [ix|] eqn:Hc.
    + assert (fail || negb (Z.land check ix =? 0) = false -> parsed (i + 1) (vset pa i ix) (Z.lor check ix)) as Hp'.
      { intros [Hf Hl%negb_false_iff%Z.eqb_eq]%orb_false_iff.
        apply parsed_step; [by apply Hp | done | by eapply letter_index_range | done]. }
      destruct (Z.eqb_spec (i + 1) 4); [|by apply IH; [done | lia]].
      intros [= <- <- Hf]. eauto.
    + destruct (Z.eqb_spec i 4); [lia|]. by apply IH.
Qed.

Lemma parsed_full i pa : parsed i pa 15 -> pa ≡ₚ indices.
Proof.
  intros [(pre & rest & -> & Hi & Hl & HND & Hpre & Hm)].
  assert (forall x, x ∈ indices -> x ∈ pre) as Hall.
  { intros x Hx. destruct (decide (x ∈ pre)) as [|Hn]; [done|].
    apply (mask_of_mem pre x Hpre Hx) in Hn. rewrite <- Hm in Hn. by index_cases; vm_compute in Hn. }
  assert (indices ≡ₚ pre) as Hperm.
  { apply NoDup_Permutation; [|done|]; [repeat constructor; vm_compute; set_solver|]. intros x. split; auto. }
  assert (rest = []) as ->.
  { apply Permutation_length in Hperm. unfold vlen in Hl. rewrite length_app in Hl. simpl in Hperm.
    destruct rest; [done|]. simpl in Hl. lia. }
  by rewrite app_nil_r.
Qed.

Lemma plane_first_perm before after : plane_first before after ≡ₚ before ++ after.
Proof.
  revert before. induction after as [|x after IH]; intros before; simpl; [by rewrite app_nil_r|].
  destruct (Z.eqb_spec x INDEX_PLANE) as [->|Hne].
  - apply Permutation_middle.
  - rewrite IH, <- app_assoc. done.
Qed.

Lemma plane_first_head before after : INDEX_PLANE ∈ after -> exists l, plane_first before after = INDEX_PLANE :: l.
Proof.
  revert before. induction after as [|x after IH]; intros before; simpl; [by intros ?%not_elem_of_nil|].
  intros Hin. destruct (Z.eqb_spec x INDEX_PLANE) as [->|Hne]; [by eexists|].
  apply IH. apply elem_of_cons in Hin as [<-|Hin]; done.
Qed.

(** The array packed in 32 bits and taken apart again. *)
Lemma allocation_byte pa i x : pa ≡ₚ indices -> 0 <= i < 4 -> vget pa i = Some x ->
  exists pk, getPageAllocationConfig pa = Ok pk /\ Z.land (Z.shiftr pk (i * 8)) 255 = x.
Proof.
  intros Hp Hi Hx. assert (forall y, y ∈ pa -> y ∈ indices) as Hin by (intros y; by rewrite Hp).
  apply Permutation_length in Hp. destruct pa as [|a [|b [|c [|d [|]]]]]; try discriminate Hp.
  assert (a ∈ indices /\ b ∈ indices /\ c ∈ indices /\ d ∈ indices) as (Ha & Hb & Hc & Hd)
    by (split_and!; apply Hin; set_solver).
  eexists. split; [reflexivity|].
  assert (i = 0 \/ i = 1 \/ i = 2 \/ i = 3) as Hic by lia.
  clear -Ha Hb Hc Hd Hx Hic.
  destruct Hic as [-> | [-> | [-> | ->]]]; injection Hx as <-; index_cases; reflexivity.
Qed.

(** ** Mixed-radix digits *)

Definition getField (ix : Z) (a : CPDPBP) : Z :=
  if ix =? INDEX_CHANNEL then Channel a
  else if ix =? INDEX_PACKAGE then Package a
  else if ix =? INDEX_DIE then Die a
  else Plane a.

Lemma getField_set ix jx x a : ix ∈ indices -> jx ∈ indices ->
  getField ix (setField jx x a) = if decide (ix = jx) then x else getField ix a.
Proof. intros Hi Hj. index_cases; reflexivity. Qed.

Lemma setField_rest ix x a : Block (setField ix x a) = Block a /\ Page (setField ix x a) = Page a.
Proof. unfold setField. by repeat case_match. Qed.

(** [(n, ix)]: field [ix] counts to [n]. *)
Notation dims := (list (Z * Z)).
Implicit Types (ds : dims).
Definition size_of (ds : dims) : Z := foldr (fun d m => d.1 * m) 1 ds.

Definition positive (ds : dims) : Prop := forall d, d ∈ ds -> 0 < d.1 /\ d.2 ∈ indices.

Lemma positive_cons d ds : positive (d :: ds) <-> (0 < d.1 /\ d.2 ∈ indices) /\ positive ds.
Proof.
  unfold positive. split.
  - intros Hp. split; [apply Hp; left | intros e He; apply Hp; by right].
  - intros [Hd Hp] e [->|He]%elem_of_cons; auto.
Qed.

Lemma size_of_pos ds : positive ds -> 0 < size_of ds.
Proof.
  induction ds as [|d ds IH]; [done|]. intros [[Hd _] Hp]%positive_cons. simpl. specialize (IH Hp). nia.
Qed.

Lemma size_of_perm ds ds' : ds ≡ₚ ds' -> size_of ds = size_of ds'.
Proof. induction 1; simpl; lia. Qed.

Lemma size_of_app ds ds' : size_of (ds ++ ds') = size_of ds * size_of ds'.
Proof. induction ds as [|d ds IH]; simpl; [lia|]. rewrite IH. lia. Qed.

Lemma size_of_rev ds : size_of (rev ds) = size_of ds.
Proof. symmetry. apply size_of_perm, Permutation_rev. Qed.

(** The digits of a block number, the first field the lowest. *)
Fixpoint place (ds : dims) (x : Z) (a : CPDPBP) : CPDPBP :=
  match ds with
  | [] => a
  | (n, ix) :: ds' => place ds' (x / n) (setField ix (x mod n) a)
  end.

(** The number the fields spell, above [q]. *)
Fixpoint spell (ds : dims) (a : CPDPBP) (q : Z) : Z :=
  match ds with
  | [] => q
  | (n, ix) :: ds' => getField ix a + n * spell ds' a q
  end.

Lemma place_other ds x a ix : positive ds -> ix ∈ indices -> ix ∉ ds.*2 -> getField ix (place ds x a) = getField ix a.
Proof.
  revert x a. induction ds as [|[n jx] ds IH]; intros x a Hp Hi Hn; [done|]. simpl in *.
  apply positive_cons in Hp as [[_ Hj] Hp]. apply not_elem_of_cons in Hn as [Hne Hn].
  rewrite IH by done. by rewrite getField_set, decide_False.
Qed.

Lemma place_rest ds x a : Block (place ds x a) = Block a /\ Page (place ds x a) = Page a.
Proof.
  revert x a. induction ds as [|[n jx] ds IH]; intros x a; [done|]. simpl.
  destruct (IH (x / n) (setField jx (x mod n) a)) as [-> ->]. apply setField_rest.
Qed.

Lemma spell_ext ds a b q : (forall ix, ix ∈ ds.*2 -> getField ix a = getField ix b) -> spell ds a q = spell ds b q.
Proof.
  induction ds as [|[n ix] ds IH]; simpl; intros Hab; [done|].
  rewrite (Hab ix) by (left). rewrite IH; [done|]. intros jx Hj. apply Hab. by right.
Qed.

Lemma place_spell ds x a : positive ds -> NoDup ds.*2 ->
  spell ds (place ds x a) (x / size_of ds) = x /\
  forall d, d ∈ ds -> 0 <= getField d.2 (place ds x a) < d.1.
Proof.
  revert x a. induction ds as [|[n ix] ds IH]; intros x a Hp HND; simpl.
  - split; [by rewrite Z.div_1_r | by intros ? ?%not_elem_of_nil].
  - apply positive_cons in Hp as [[Hn Hi] Hp]. simpl in HND, Hn, Hi. apply NoDup_cons in HND as [Hix HND].
    pose proof (size_of_pos ds Hp) as Hs. destruct (IH (x / n) (setField ix (x mod n) a) Hp HND) as [Hsp Hr].
    rewrite <- Z.div_div by lia. rewrite Hsp, place_other by done.
    rewrite getField_set, decide_True by done. split.
    + pose proof (Z.div_mod x n ltac:(lia)). lia.
    + intros d [->|Hd]%elem_of_cons; [|by apply Hr]. simpl. rewrite place_other, getField_set, decide_True by done.
      apply Z.mod_pos_bound. lia.
Qed.

(** The fields of unit [k], the outermost loop first; the assignments pile up
    in front of [fields]. *)
Fixpoint unit_fields (loops : dims) (k : Z) (fields : list (Z * Z)) : list (Z * Z) :=
  match loops with
  | [] => fields
  | (n, ix) :: ls => unit_fields ls (k mod size_of ls) ((ix, k / size_of ls) :: fields)
  end.
Definition assign (a : CPDPBP) (fields : list (Z * Z)) : CPDPBP := foldr (fun f a => setField f.1 f.2 a) a fields.

Fixpoint unit_of (loops : dims) (a : CPDPBP) : Z :=
  match loops with
  | [] => 0
  | (n, ix) :: ls => getField ix a * size_of ls + unit_of ls a
  end.

Lemma assign_other loops k fields a ix : positive loops -> ix ∈ indices -> ix ∉ loops.*2 ->
  getField ix (assign a (unit_fields loops k fields)) = getField ix (assign a fields).
Proof.
  revert k fields. induction loops as [|[n jx] ls IH]; intros k fields Hp Hi Hn; [done|]. simpl in *.
  apply positive_cons in Hp as [[_ Hj] Hp]. apply not_elem_of_cons in Hn as [Hne Hn].
  rewrite IH by done. simpl. by rewrite getField_set, decide_False.
Qed.

Lemma assign_rest fields a : Block (assign a fields) = Block a /\ Page (assign a fields) = Page a.
Proof.
  induction fields as [|f fields IH]; [done|]. simpl. destruct (setField_rest f.1 f.2 (assign a fields)) as [-> ->]. done.
Qed.

Lemma assign_unit_of loops k fields a : positive loops -> NoDup loops.*2 -> 0 <= k < size_of loops ->
  unit_of loops (assign a (unit_fields loops k fields)) = k /\
  forall d, d ∈ loops -> 0 <= getField d.2 (assign a (unit_fields loops k fields)) < d.1.
Proof.
  revert k fields. induction loops as [|[n ix] ls IH]; intros k fields Hp HND Hk; simpl in *.
  - split; [lia | by intros ? ?%not_elem_of_nil].
  - apply positive_cons in Hp as [[Hn Hi] Hp]. simpl in Hn, Hi. apply NoDup_cons in HND as [Hix HND].
    pose proof (size_of_pos ls Hp) as Hs. pose proof (Z.mod_pos_bound k (size_of ls) Hs) as Hm.
    destruct (IH (k mod size_of ls) ((ix, k / size_of ls) :: fields) Hp HND Hm) as [Hu Hr].
    rewrite Hu. rewrite assign_other by done. simpl. rewrite getField_set, decide_True by done. split.
    + pose proof (Z.div_mod k (size_of ls) ltac:(lia)). lia.
    + intros d [->|Hd]%elem_of_cons; [|by apply Hr]. simpl. rewrite assign_other by done. simpl.
      rewrite getField_set, decide_True by done. split; [apply Z.div_pos; lia | apply Z.div_lt_upper_bound; lia].
Qed.

(** ** The nested loops *)

Lemma visit_spec io a n loops t out fields : Bitset.wf n io -> positive loops ->
  0 <= t -> t + size_of loops <= n ->
  visit io a loops fields (t, out) =
    Ok (t + size_of loops,
        out ++ ((fun k => assign a (unit_fields loops (k - t) fields)) <$>
                filter (fun k => Bitset.bit io k = true) (seqZ t (size_of loops)))).
Proof.
  intros Hio. revert t out fields. pose proof (Bitset.wf_pos n io Hio) as Hn0.
  induction loops as [|[m ix] ls IH]; intros t out fields Hp Ht Hle.
  - simpl in Hle |- *. rewrite u32_small, (Bitset.test_spec n) by (done || lia). simpl.
    rewrite u64_small by lia. change (seqZ t 1) with [t]. rewrite filter_cons, filter_nil.
    destruct (Bitset.bit io t) eqn:Hb.
    + rewrite decide_True by done. done.
    + rewrite decide_False by done. by rewrite app_nil_r.
  - apply positive_cons in Hp as [[Hm Hi] Hp]. simpl in Hm, Hi, Hle |- *. pose proof (size_of_pos ls Hp) as Hs.
    set (f := fun k => assign a (unit_fields ls ((k - t) mod size_of ls) ((ix, (k - t) / size_of ls) :: fields))).
    enough (wpr noerr (for_range 0 m (fun x st => visit io a ls ((ix, x) :: fields) st) (t, out))
      (fun st => st = (t + m * size_of ls, out ++ (f <$> filter (fun k => Bitset.bit io k = true) (seqZ t (m * size_of ls))))))
      as (st & -> & ->)%wpr_noerr by done.
    apply wpr_for_range with (I := fun x st => st = (t + x * size_of ls,
      out ++ (f <$> filter (fun k => Bitset.bit io k = true) (seqZ t (x * size_of ls))))); [lia | | | done].
    + simpl. by rewrite app_nil_r, Z.add_0_r.
    + intros x st Hx ->. rewrite IH by (done || nia). simpl. f_equal; [lia|].
      rewrite <- app_assoc. f_equal. replace ((x + 1) * size_of ls) with (x * size_of ls + size_of ls) by lia.
      rewrite seqZ_app by nia. rewrite filter_app, fmap_app. f_equal.
      apply list_fmap_ext. intros j k Hk%list_elem_of_lookup_2.
      apply list_elem_of_filter in Hk as [_ Hk%elem_of_seqZ]. unfold f.
      replace (k - t) with (k - (t + x * size_of ls) + x * size_of ls) by lia.
      rewrite Z.mod_add, Z.div_add, Z.mod_small, Z.div_small by lia. done.
Qed.

(** ** The first loop *)

Section Convert.
  Context (c : PalConfig) (p : PalParameter).

(** In multi-plane mode the plane takes no part in addressing. *)
Definition active (ix : Z) : bool := negb (multiPlane c && (ix =? INDEX_PLANE)).
Definition inside (l : list Z) : dims :=
  (fun ix => (dimension p ix, ix)) <$> filter (fun ix => active ix && flagged (superblockMask c) ix = true) l.
Definition outside (l : list Z) : dims :=
  (fun ix => (dimension p ix, ix)) <$> filter (fun ix => active ix && negb (flagged (superblockMask c) ix) = true) l.

Definition dims_pos : Prop := forall ix, ix ∈ indices -> 0 < dimension p ix.
Context (Hdims : dims_pos).

Lemma inside_positive l : (forall ix, ix ∈ l -> ix ∈ indices) -> positive (inside l).
Proof.
  intros Hl d (ix & -> & [_ Hix]%list_elem_of_filter)%list_elem_of_fmap. simpl. auto.
Qed.
Lemma outside_positive l : (forall ix, ix ∈ l -> ix ∈ indices) -> positive (outside l).
Proof.
  intros Hl d (ix & -> & [_ Hix]%list_elem_of_filter)%list_elem_of_fmap. simpl. auto.
Qed.

Lemma dims_keys (q : Z -> Prop) `{forall ix, Decision (q ix)} l :
  (((fun ix => (dimension p ix, ix)) <$> filter q l).*2 : list Z) = filter q l.
Proof. rewrite <- list_fmap_compose. apply list_fmap_id. Qed.

Lemma splitIndex_active ix : ix ∈ indices ->
  (ix =? INDEX_CHANNEL) || (ix =? INDEX_PACKAGE) || (ix =? INDEX_DIE)
     || ((ix =? INDEX_PLANE) && negb (multiPlane c)) = active ix.
Proof. intros Hi. unfold active. destruct (multiPlane c); index_cases; reflexivity. Qed.

Lemma split_ok l tmp a ptrs : (forall ix, ix ∈ l -> ix ∈ indices) ->
  foldM (splitIndex c p) l (tmp, a, ptrs) =
    Ok (tmp / size_of (outside l), place (outside l) tmp a, ptrs ++ inside l).
Proof.
  revert tmp a ptrs. induction l as [|ix l IH]; intros tmp a ptrs Hl.
  - simpl. by rewrite Z.div_1_r, app_nil_r.
  - assert (ix ∈ indices) as Hi by (apply Hl; left). assert (forall jx, jx ∈ l -> jx ∈ indices) as Hl' by (intros; apply Hl; by right).
    simpl. unfold splitIndex at 1. rewrite splitIndex_active by done.
    unfold inside, outside. rewrite !filter_cons. destruct (active ix) eqn:Ha; simpl.
    + destruct (flagged (superblockMask c) ix) eqn:Hf; simpl.
      * rewrite ?decide_False, ?decide_True by done. rewrite IH by done. rewrite <- app_assoc. done.
      * rewrite ?decide_True, ?decide_False by done. rewrite (proj2 (Z.eqb_neq _ 0)) by (specialize (Hdims ix Hi); lia).
        simpl. rewrite IH by done. simpl. unfold outside. rewrite Z.div_div; [done | specialize (Hdims ix Hi); lia |].
        apply (size_of_pos (outside l)), outside_positive. done.
    + rewrite ?decide_False by done. by rewrite IH.
Qed.

(** ** The address of a unit *)

Context (Hpa : pageAllocation c ≡ₚ indices).
Notation pa := (pageAllocation c).
Notation ins := (inside pa).
Notation outs := (outside pa).

Lemma pa_in ix : ix ∈ pa <-> ix ∈ indices.
Proof. by rewrite Hpa. Qed.

Lemma pa_NoDup : NoDup pa.
Proof. rewrite Hpa. repeat constructor; vm_compute; set_solver. Qed.

Lemma ins_positive : positive ins.
Proof. apply inside_positive. intros ix. apply pa_in. Qed.
Lemma outs_positive : positive outs.
Proof. apply outside_positive. intros ix. apply pa_in. Qed.
Lemma ins_NoDup : NoDup ins.*2.
Proof. unfold inside. rewrite dims_keys. apply NoDup_filter, pa_NoDup. Qed.
Lemma outs_NoDup : NoDup outs.*2.
Proof. unfold outside. rewrite dims_keys. apply NoDup_filter, pa_NoDup. Qed.

Lemma field_cases ix : ix ∈ indices ->
  (ix ∈ ins.*2 /\ ix ∉ outs.*2) \/ (ix ∈ outs.*2 /\ ix ∉ ins.*2) \/
  (ix = INDEX_PLANE /\ multiPlane c = true /\ ix ∉ ins.*2 /\ ix ∉ outs.*2).
Proof.
  intros Hi. unfold inside, outside. rewrite !dims_keys, !list_elem_of_filter, !pa_in.
  destruct (active ix) eqn:Ha; destruct (flagged (superblockMask c) ix) eqn:Hf; simpl; try (naive_solver; fail).
  - right. right. unfold active in Ha. apply negb_false_iff, andb_true_iff in Ha as [? ?%Z.eqb_eq]. naive_solver.
  - right. right. unfold active in Ha. apply negb_false_iff, andb_true_iff in Ha as [? ?%Z.eqb_eq]. naive_solver.
Qed.

Lemma in_dims (ds : dims) ix : ix ∈ ds.*2 -> exists n, (n, ix) ∈ ds.
Proof. intros ([n jx] & -> & Hin)%list_elem_of_fmap. by exists n. Qed.

Lemma dims_fst ix n : (n, ix) ∈ ins \/ (n, ix) ∈ outs -> n = dimension p ix.
Proof. intros [Hin|Hin]; apply list_elem_of_fmap in Hin as (jx & [= -> ->] & _); done. Qed.

(** Unit [k] of page [pg] of superblock [b]. *)
Definition unitAddressFrom (a0 : CPDPBP) (b pg k : Z) : CPDPBP :=
  let a := place outs b (setField INDEX_PLANE 0 a0) in
  assign (mkCPDPBP (Channel a) (Package a) (Die a) (Plane a) (b / size_of outs) pg)
    (unit_fields (rev ins) k []).
Definition unitAddress : Z -> Z -> Z -> CPDPBP := unitAddressFrom (mkCPDPBP 0 0 0 0 0 0).

Lemma address_ext a b : (forall ix, ix ∈ indices -> getField ix a = getField ix b) -> Block a = Block b ->
  Page a = Page b -> a = b.
Proof.
  intros Hf Hb Hpg. pose proof (Hf INDEX_CHANNEL ltac:(left)) as H1. pose proof (Hf INDEX_PACKAGE ltac:(right; left)) as H2.
  pose proof (Hf INDEX_DIE ltac:(do 2 right; left)) as H3. pose proof (Hf INDEX_PLANE ltac:(do 3 right; left)) as H4.
  destruct a, b. unfold getField in *. simpl in *. by subst.
Qed.

Lemma rev_ins : positive (rev ins) /\ NoDup (rev ins).*2 /\ forall ix, ix ∈ (rev ins).*2 <-> ix ∈ ins.*2.
Proof.
  assert (rev ins ≡ₚ ins) as Hr by (symmetry; apply Permutation_rev). split_and!.
  - intros d. rewrite Hr. apply ins_positive.
  - rewrite Hr. apply ins_NoDup.
  - intros ix. by rewrite Hr.
Qed.


Lemma assign_base fs a a' ix : (forall f, f ∈ fs -> f.1 ∈ indices) -> ix ∈ fs.*1 ->
  getField ix (assign a fs) = getField ix (assign a' fs).
Proof.
  induction fs as [|[jx x] fs IH]; simpl; intros Hfs Hin; [by apply not_elem_of_nil in Hin|].
  assert (jx ∈ indices) as Hj by (apply (Hfs (jx, x)); left).
  assert (ix ∈ indices) as Hi.
  { change (ix ∈ ((jx, x) :: fs).*1) in Hin. apply list_elem_of_fmap in Hin as (f & -> & Hf). auto. }
  rewrite !getField_set by done. case_decide as Hne; [done|]. apply IH.
  - intros f Hf. apply Hfs. by right.
  - by apply elem_of_cons in Hin as [|].
Qed.

Lemma unit_fields_keys loops k fields : positive loops -> (forall f, f ∈ fields -> f.1 ∈ indices) ->
  (forall f, f ∈ unit_fields loops k fields -> f.1 ∈ indices) /\
  forall ix, ix ∈ loops.*2 \/ ix ∈ fields.*1 -> ix ∈ (unit_fields loops k fields).*1.
Proof.
  revert k fields. induction loops as [|[n jx] ls IH]; intros k fields Hp Hf; simpl.
  - split; [done|]. intros ix [?%not_elem_of_nil|]; done.
  - apply positive_cons in Hp as [[_ Hj] Hp].
    destruct (IH (k mod size_of ls) ((jx, k / size_of ls) :: fields) Hp) as [Hr Hk].
    { intros f [->|Hin]%elem_of_cons; auto. }
    split; [exact Hr|]. intros ix [[->|Hin]%elem_of_cons|Hin]; apply Hk; simpl; [right; left | by left | right; by right].
Qed.

Lemma place_base ds x a a' ix : positive ds -> ix ∈ ds.*2 -> getField ix (place ds x a) = getField ix (place ds x a').
Proof.
  revert x a a'. induction ds as [|[n jx] ds IH]; simpl; intros x a a' Hp Hin; [by apply not_elem_of_nil in Hin|].
  apply positive_cons in Hp as [[_ Hj] Hp]. destruct (decide (ix ∈ ds.*2)) as [Hd|Hd]; [by apply IH|].
  apply elem_of_cons in Hin as [->|]; [|done]. rewrite !place_other by done. by rewrite !getField_set, !decide_True.
Qed.

(** Each field of the address of a unit: a digit of [k], a digit of [b], or the
    plane 0 of the multi-plane mode. *)
Lemma unit_field a0 b pg k ix : ix ∈ indices ->
  getField ix (unitAddressFrom a0 b pg k) =
    if decide (ix ∈ ins.*2) then getField ix (assign (mkCPDPBP 0 0 0 0 0 0) (unit_fields (rev ins) k []))
    else if decide (ix ∈ outs.*2) then getField ix (place outs b (mkCPDPBP 0 0 0 0 0 0))
    else 0.
Proof.
  intros Hi. destruct rev_ins as (Hrp & HrN & Hrk). unfold unitAddressFrom.
  destruct (unit_fields_keys (rev ins) k [] Hrp) as [Hfr Hfk]; [by intros f ?%not_elem_of_nil|].
  case_decide as Hin; [apply assign_base; [done|]; apply Hfk; left; by apply Hrk|].
  rewrite assign_other by (done || by rewrite Hrk). simpl.
  assert (forall a bl, getField ix (mkCPDPBP (Channel a) (Package a) (Die a) (Plane a) bl pg) = getField ix a) as ->
    by (intros; clear; unfold getField; by repeat case_match).
  case_decide as Hout; [apply place_base; [apply outs_positive | done]|].
  rewrite place_other by (done || apply outs_positive). rewrite getField_set by (done || (do 3 right; left)).
  destruct (field_cases ix Hi) as [[? _]|[[? _]|(-> & _)]]; [done | done|]. by rewrite decide_True.
Qed.

Lemma unit_rest a0 b pg k : Block (unitAddressFrom a0 b pg k) = b / size_of outs /\
  Page (unitAddressFrom a0 b pg k) = pg.
Proof. unfold unitAddressFrom. destruct (assign_rest (unit_fields (rev ins) k []) (mkCPDPBP (Channel (place outs b (setField INDEX_PLANE 0 a0))) (Package (place outs b (setField INDEX_PLANE 0 a0))) (Die (place outs b (setField INDEX_PLANE 0 a0))) (Plane (place outs b (setField INDEX_PLANE 0 a0))) (b / size_of outs) pg)) as [-> ->]. done. Qed.

Lemma unit_base a0 b pg k : unitAddressFrom a0 b pg k = unitAddress b pg k.
Proof.
  unfold unitAddress. apply address_ext.
  - intros ix Hi. by rewrite !unit_field.
  - by rewrite !(proj1 (unit_rest _ _ _ _)).
  - by rewrite !(proj2 (unit_rest _ _ _ _)).
Qed.

(** The block number and the unit can be read off an address. *)
Lemma unit_recover b pg k : 0 <= b -> 0 <= k < size_of ins ->
  spell outs (unitAddress b pg k) (Block (unitAddress b pg k)) = b /\ unit_of (rev ins) (unitAddress b pg k) = k.
Proof.
  intros Hb Hk. destruct rev_ins as (Hrp & HrN & Hrk). split.
  - unfold unitAddress at 2. rewrite (proj1 (unit_rest _ _ _ _)).
    rewrite (spell_ext _ _ (place outs b (mkCPDPBP 0 0 0 0 0 0))).
    + apply place_spell; [apply outs_positive | apply outs_NoDup].
    + intros ix Hix. destruct (in_dims _ _ Hix) as [n Hn]. pose proof (outs_positive _ Hn) as [_ Hi]. simpl in Hi.
      unfold unitAddress. rewrite unit_field by done. destruct (field_cases ix Hi) as [[_ ?]|[[_ Hni]|(_ & _ & _ & ?)]]; [done | | done].
      rewrite decide_False by done. by rewrite decide_True.
  - assert (forall ls a a', (forall ix, ix ∈ (ls : dims).*2 -> getField ix a = getField ix a') -> unit_of ls a = unit_of ls a') as Hext.
    { induction ls as [|[n ix] ls IH]; intros a a' Ha; simpl; [done|]. rewrite (Ha ix) by left.
      rewrite (IH a a'); [done|]. intros jx Hj. apply Ha. by right. }
    rewrite (Hext _ _ (assign (mkCPDPBP 0 0 0 0 0 0) (unit_fields (rev ins) k []))).
    + apply assign_unit_of; [done | done |]. by rewrite size_of_rev.
    + intros ix Hix. destruct (in_dims _ _ Hix) as [n Hn]. pose proof (Hrp _ Hn) as [_ Hi]. simpl in Hi.
      unfold unitAddress. rewrite unit_field by done. apply Hrk in Hix. by rewrite decide_True.
Qed.

(** Every field stays in its dimension. *)
Lemma unit_range b pg k ix : 0 <= k < size_of ins -> ix ∈ indices ->
  0 <= getField ix (unitAddress b pg k) < dimension p ix.
Proof.
  intros Hk Hi. destruct rev_ins as (Hrp & HrN & Hrk). unfold unitAddress. rewrite unit_field by done.
  case_decide as Hin.
  - destruct (in_dims _ _ (proj2 (Hrk ix) Hin)) as [n Hn].
    destruct (assign_unit_of (rev ins) k [] (mkCPDPBP 0 0 0 0 0 0) Hrp HrN) as [_ Hr]; [by rewrite size_of_rev|].
    specialize (Hr _ Hn). simpl in Hr. rewrite (dims_fst ix n) in Hr; [done|]. left.
    by rewrite <- (Permutation_rev ins) in Hn.
  - case_decide as Hout; [|specialize (Hdims ix Hi); lia].
    destruct (in_dims _ _ Hout) as [n Hn].
    destruct (place_spell outs b (mkCPDPBP 0 0 0 0 0 0) outs_positive outs_NoDup) as [_ Hr].
    specialize (Hr _ Hn). simpl in Hr. rewrite (dims_fst ix n) in Hr; [done | by right].
Qed.
End Convert.

(** ** The geometry *)

(** Sizes that do not overflow their 32 bits. *)
Record fits (c : PalConfig) : Prop := {
  ft_pos : 0 < cfChannel c /\ 0 < cfPackage c /\ 0 < cfDie c /\ 0 < cfPlane c /\ 0 < cfBlock c /\
           0 < cfPageSize c;
  ft_page : 0 <= cfPage c < 2 ^ 32;
  ft_bytes : cfPageSize c * (cfChannel c * (cfPackage c * (cfDie c * cfPlane c))) < 2 ^ 32 - 8;
  ft_blocks : cfBlock c * (cfChannel c * (cfPackage c * (cfDie c * cfPlane c))) < 2 ^ 32;
}.

Lemma scale_ok b n x y R : 0 <= x -> 0 <= y -> 0 < n -> 0 < R ->
  x * (n * R) < 2 ^ 32 -> y * (n * R) < 2 ^ 32 ->
  scale b n (x, y) = (x * (if b then n else 1), y * (if b then 1 else n)) /\
  0 <= x * (if b then n else 1) /\ 0 <= y * (if b then 1 else n) /\
  x * (if b then n else 1) * R < 2 ^ 32 /\ y * (if b then 1 else n) * R < 2 ^ 32.
Proof.
  intros Hx Hy Hn HR Hxb Hyb. unfold scale, u32. destruct b; simpl; split_and!; try nia;
    rewrite Z.mod_small by nia; f_equal; lia.
Qed.

Definition weight (b : bool) (n : Z) : Z := if b then n else 1.

Lemma size_inside c p l : size_of (inside c p l) =
  foldr (fun ix m => weight (active c ix && flagged (superblockMask c) ix) (dimension p ix) * m) 1 l.
Proof.
  unfold inside. induction l as [|ix l IH]; [done|]. rewrite filter_cons. cbn [foldr]. rewrite <- IH.
  destruct (decide (active c ix && flagged (superblockMask c) ix = true)) as [->|Hn].
  - rewrite fmap_cons. unfold size_of at 1. simpl. unfold weight. done.
  - apply not_true_is_false in Hn as ->. unfold weight. lia.
Qed.
Lemma size_outside c p l : size_of (outside c p l) =
  foldr (fun ix m => weight (active c ix && negb (flagged (superblockMask c) ix)) (dimension p ix) * m) 1 l.
Proof.
  unfold outside. induction l as [|ix l IH]; [done|]. rewrite filter_cons. cbn [foldr]. rewrite <- IH.
  destruct (decide (active c ix && negb (flagged (superblockMask c) ix) = true)) as [->|Hn].
  - rewrite fmap_cons. unfold size_of at 1. simpl. unfold weight. done.
  - apply not_true_is_false in Hn as ->. unfold weight. lia.
Qed.

Lemma inside_perm c p l l' : l ≡ₚ l' -> size_of (inside c p l) = size_of (inside c p l').
Proof. intros Hl. apply size_of_perm. unfold inside. by rewrite Hl. Qed.
Lemma outside_perm c p l l' : l ≡ₚ l' -> size_of (outside c p l) = size_of (outside c p l').
Proof. intros Hl. apply size_of_perm. unfold outside. by rewrite Hl. Qed.

(** What the constructor computes. *)
Record geometry_of (c : PalConfig) (p : PalParameter) : Prop := {
  go_dims : channel p = cfChannel c /\ package p = cfPackage c /\ die p = cfDie c /\ plane p = cfPlane c /\
            block p = cfBlock c /\ page p = cfPage c;
  go_blocks : superBlock p = cfBlock c * size_of (outside c p (pageAllocation c));
  go_units : pageInSuperPage p = size_of (inside c p (pageAllocation c));
  go_small : 0 < pageInSuperPage p < 2 ^ 32 - 8;
  go_range : 0 < superBlock p < 2 ^ 32;
}.

Lemma palParameter_ok c : fits c -> pageAllocation c ≡ₚ indices ->
  exists p, palParameter c = Ok p /\ geometry_of c p.
Proof.
  intros [(Hc & Hw & Hd & Hp & Hb & Hs) Hpg Hbytes Hblocks] Hpa. unfold palParameter.
  assert (0 < cfChannel c * (cfPackage c * (cfDie c * cfPlane c))) as Hprod by (repeat apply Z.mul_pos_pos; done).
  rewrite (u32_small (cfPageSize c)), (u32_small (cfBlock c)) by nia.
  assert (cfChannel c < 2 ^ 32 /\ cfPackage c < 2 ^ 32 /\ cfDie c < 2 ^ 32 /\ cfPlane c < 2 ^ 32) as (Hcc & Hww & Hdd & Hpp).
  { assert (forall x y, 0 < x -> 0 < y -> x * y < 2 ^ 32 -> x < 2 ^ 32 /\ y < 2 ^ 32) as Hmul by (intros; split; nia).
    destruct (Hmul _ _ Hb Hprod Hblocks) as [_ H1].
    destruct (Hmul (cfChannel c) (cfPackage c * (cfDie c * cfPlane c))) as [? H2]; [lia | by repeat apply Z.mul_pos_pos | done |].
    destruct (Hmul (cfPackage c) (cfDie c * cfPlane c)) as [? H3]; [lia | by apply Z.mul_pos_pos | done |].
    destruct (Hmul (cfDie c) (cfPlane c)); done. }
  rewrite !(u32_small (cfChannel c)), !(u32_small (cfPackage c)), !(u32_small (cfDie c)), !(u32_small (cfPlane c)),
    (u32_small (cfPage c)) by lia.
  set (bc := flagged (superblockMask c) INDEX_CHANNEL). set (bw := flagged (superblockMask c) INDEX_PACKAGE).
  set (bd := flagged (superblockMask c) INDEX_DIE). set (bp := flagged (superblockMask c) INDEX_PLANE).
  edestruct (scale_ok bc (cfChannel c) (cfPageSize c) (cfBlock c) (cfPackage c * (cfDie c * cfPlane c)))
    as (-> & Hx1 & Hy1 & Hx1' & Hy1'); try lia; try (repeat apply Z.mul_pos_pos; done).
  edestruct (scale_ok bw (cfPackage c)) as (-> & Hx2 & Hy2 & Hx2' & Hy2');
    [exact Hx1 | exact Hy1 | done | | exact Hx1' | exact Hy1' |]; [by apply Z.mul_pos_pos|].
  edestruct (scale_ok bd (cfDie c)) as (-> & Hx3 & Hy3 & Hx3' & Hy3');
    [exact Hx2 | exact Hy2 | done | | exact Hx2' | exact Hy2' |]; [done|].
  edestruct (scale_ok (multiPlane c || bp) (cfPlane c)) as (-> & Hx4 & Hy4 & Hx4' & Hy4');
    [exact Hx3 | exact Hy3 | done | | rewrite Z.mul_1_r; exact Hx3' | rewrite Z.mul_1_r; exact Hy3' |]; [done|].
  rewrite (proj2 (Z.eqb_neq (cfPageSize c) 0)) by lia.
  set (w := fun b n => if b : bool then n else 1).
  replace (cfPageSize c * (if bc then cfChannel c else 1) * (if bw then cfPackage c else 1) * (if bd then cfDie c else 1)
    * (if multiPlane c || bp then cfPlane c else 1) / cfPageSize c)
    with (w bc (cfChannel c) * w bw (cfPackage c) * w bd (cfDie c) * w (multiPlane c || bp) (cfPlane c)).
  2:{ symmetry. unfold w. rewrite <- !Z.mul_assoc, Z.mul_comm. apply Z.div_mul. lia. }
  set (p := mkPalParameter (cfChannel c) (cfPackage c) (cfDie c) (cfPlane c) (cfBlock c) (cfPage c)
    (cfBlock c * (if bc then 1 else cfChannel c) * (if bw then 1 else cfPackage c) * (if bd then 1 else cfDie c)
      * (if multiPlane c || bp then 1 else cfPlane c)) (cfPageSize c)
    (cfPageSize c * (if bc then cfChannel c else 1) * (if bw then cfPackage c else 1) * (if bd then cfDie c else 1)
      * (if multiPlane c || bp then cfPlane c else 1))
    (w bc (cfChannel c) * w bw (cfPackage c) * w bd (cfDie c) * w (negb (multiPlane c) && bp) (cfPlane c))).
  exists p. split.
  { unfold p. destruct (multiPlane c) eqn:Hm; simpl.
    - rewrite (proj2 (Z.eqb_neq (cfPlane c) 0)) by lia. simpl. change (w true (cfPlane c)) with (cfPlane c). rewrite Z.div_mul by lia.
      change (w false (cfPlane c)) with 1. by rewrite !Z.mul_1_r.
    - done. }
  split.
  - done.
  - rewrite (outside_perm c p _ _ Hpa), size_outside. unfold p, weight, active, dimension. simpl.
    fold bc bw bd bp. destruct (multiPlane c), bc, bw, bd, bp; simpl; lia.
  - rewrite (inside_perm c p _ _ Hpa), size_inside. unfold p, weight, active, dimension, w. simpl.
    fold bc bw bd bp. destruct (multiPlane c), bc, bw, bd, bp; simpl; lia.
  - assert (forall a a' b b', 0 < a <= a' -> 0 < b <= b' -> 0 < a * b <= a' * b') as Hmul by (intros; nia).
    assert (forall b n, 0 < n -> 0 < w b n <= n) as Hw0 by (intros [] n ?; unfold w; lia).
    unfold p. simpl. pose proof (Hmul _ _ _ _ (Hmul _ _ _ _ (Hmul _ _ _ _ (Hw0 bc _ Hc) (Hw0 bw _ Hw)) (Hw0 bd _ Hd))
      (Hw0 (negb (multiPlane c) && bp) _ Hp)). nia.
  - unfold p. simpl. split; [|lia].
    repeat apply Z.mul_pos_pos; repeat case_match; lia.
Qed.

(** ** Die indices *)

(** An address inside the flash array. *)
Definition in_array (p : PalParameter) (a : CPDPBP) : Prop :=
  0 <= Channel a < channel p /\ 0 <= Package a < package p /\ 0 <= Die a < die p /\
  0 <= Plane a < plane p /\ 0 <= Block a < block p.

Lemma digit_step d n q x : 0 < d -> 0 < n -> 0 <= x < d -> 0 <= q < n ->
  (x + q * d) / d = q /\ (x + q * d) mod d = x /\ 0 <= x + q * d < d * n.
Proof.
  intros Hd Hn Hx Hq. rewrite Z.div_add, Z.mod_add, Z.div_small, Z.mod_small by lia. split_and!; [lia | lia | nia | nia].
Qed.

Lemma die_index p x : 0 < channel p * (die p * package p) < 2 ^ 32 ->
  0 <= Channel x < channel p -> 0 <= Package x < package p -> 0 <= Die x < die p ->
  CPDPBPtoDieIdx p x = Die x + Package x * die p + Channel x * (die p * package p) /\
  0 <= Die x + Package x * die p < die p * package p.
Proof.
  intros Hb Cx Wx Dx. assert (0 < die p * package p) as Hdw by nia.
  destruct (digit_step (die p) (package p) (Package x) (Die x)) as (_ & _ & R1); [lia.. |].
  destruct (digit_step (die p * package p) (channel p) (Channel x) (Die x + Package x * die p)) as (_ & _ & R2); [lia.. |].
  split; [|exact R1]. assert (0 <= Package x * die p) by nia.
  assert (0 <= Channel x * die p) as N by nia.
  assert (Channel x * die p <= Channel x * (die p * package p)) as L by nia.
  unfold CPDPBPtoDieIdx. rewrite (u32_small (Package x * die p)), (u32_small (Die x + _)) by lia.
  rewrite (u32_small (Channel x * die p)) by lia. rewrite <- Z.mul_assoc, (u32_small (Channel x * _)) by lia.
  rewrite u32_small by lia. lia.
Qed.
