(* ===== verification/PalTheorems.v ===== *)
(** * Properties of flash addresses *)

From S2P Require Import Prelude Bitset Types PalAddr PalAddrProof.
From Stdlib Require Import Ascii.

Lemma filter_all {A} (q : A -> Prop) `{forall x, Decision (q x)} (l : list A) : (forall x, x ∈ l -> q x) -> filter q l = l.
Proof.
  induction l as [|x l IH]; intros Hq; [done|]. rewrite filter_cons, decide_True by (apply Hq; left).
  by rewrite IH by (intros y Hy; apply Hq; by right).
Qed.

Lemma parse_four x y z w a b c d : [x; y; z; w] ≡ₚ indices ->
  letter_index a = Some x -> letter_index b = Some y -> letter_index c = Some z -> letter_index d = Some w ->
  parse_letters [a; b; c; d] 0 indices 0 false = ([x; y; z; w], 15, false).
Proof.
  intros Hp Ha Hb Hc Hd. simpl. rewrite Ha. simpl. rewrite Hb. simpl. rewrite Hc. simpl. rewrite Hd.
  assert (forall u, u ∈ [x; y; z; w] -> u ∈ indices) as Hin by (intros u; by rewrite Hp).
  assert (NoDup [x; y; z; w]) as HND by (rewrite Hp; refine (bool_decide_eq_true_1 _ _); reflexivity).
  assert (x ∈ indices /\ y ∈ indices /\ z ∈ indices /\ w ∈ indices) as (Hx & Hy & Hz & Hw)
    by (split_and!; apply Hin; set_solver).
  clear -Hx Hy Hz Hw HND. index_cases; try reflexivity; exfalso; revert HND;
    refine (bool_decide_eq_false_1 _ _); reflexivity.
Qed.

(** The page allocation string is accepted only as an order of the four
    address indices (the plane first in multi-plane mode), and the packed form
    gives every entry back; anything else panics.  The four letters in any
    order are accepted. *)
Theorem page_allocation_parsed multi s :
  (forall order, letter_index <$> String.list_ascii_of_string s = Some <$> order -> order ≡ₚ indices ->
     parse_allocation multi s = Ok (if multi then plane_first [] order else order)) /\
  match parse_allocation multi s with
  | Ok pa => pa ≡ₚ indices /\ (multi = true -> exists l, pa = INDEX_PLANE :: l) /\
      forall i x, vget pa i = Some x -> exists pk, getPageAllocationConfig pa = Ok pk /\
        Z.land (Z.shiftr pk (i * 8)) 255 = x
  | Err e => e = Panic "Invalid page allocation string"
  end.
Proof.
  unfold parse_allocation. change [INDEX_CHANNEL; INDEX_PACKAGE; INDEX_DIE; INDEX_PLANE] with indices. split.
  { intros order Hs Hp. pose proof (Permutation_length Hp) as Hlen. pose proof (f_equal length Hs) as Hl.
    rewrite !length_fmap, Hlen in Hl. destruct (String.list_ascii_of_string s) as [|a [|b [|c [|d [|]]]]]; try discriminate Hl.
    destruct order as [|x [|y [|z [|w [|]]]]]; try discriminate Hlen. injection Hs as Ha Hb Hc Hd.
    rewrite (parse_four x y z w) by done. reflexivity. }
  destruct (parse_letters (String.list_ascii_of_string s) 0 indices 0 false) as [[pa check] fail] eqn:Hl.
  destruct fail; [done|]. destruct (Z.eqb_spec check 15) as [->|]; [|done]. simpl.
  apply parse_letters_ok in Hl as [i' Hp%parsed_full]; [| | lia].
  2:{ intros _. split. exists [], indices. split_and!; try done; [by apply NoDup_nil | by intros y ?%not_elem_of_nil]. }
  assert ((if multi then plane_first [] pa else pa) ≡ₚ indices) as Hperm.
  { destruct multi; [|done]. by rewrite plane_first_perm. }
  split_and!; [done | |].
  - intros ->. apply plane_first_head. rewrite Hp. by vm_compute; set_solver.
  - intros i x Hx. apply allocation_byte; [done | | done]. pose proof (vget_Some_range _ _ _ Hx) as Hr.
    unfold vlen in Hr. by rewrite (Permutation_length Hperm) in Hr.
Qed.

Section Properties.
  Context (c : PalConfig) (p : PalParameter).

Lemma geometry_dims : fits c -> geometry_of c p -> dims_pos p.
Proof.
  intros [(Hc & Hw & Hd & Hp & _) _ _ _] [(E1 & E2 & E3 & E4 & _) _ _ _ _] ix Hi.
  index_cases; unfold dimension; simpl; lia.
Qed.

Lemma convert_loops a0 b pg io : fits c -> pageAllocation c ≡ₚ indices -> geometry_of c p ->
  0 <= b < superBlock p -> Bitset.wf (pageInSuperPage p) io ->
  (pa ← getPageAllocationConfig (pageAllocation c);
   '(tmp, a, ptrs) ← for_range 0 4
     (fun i st => splitIndex c p (Z.land (Z.shiftr pa (i * 8)) 255) st) (b, setField INDEX_PLANE 0 a0, []);
   visit io (mkCPDPBP (Channel a) (Package a) (Die a) (Plane a) (u32 tmp) pg) (rev ptrs) [] (0, [])) =
  Ok (pageInSuperPage p, unitAddress c p b pg <$>
        filter (fun k => Bitset.bit io k = true) (seqZ 0 (pageInSuperPage p))).
Proof.
  intros Hfit Hpa Hgo Hb Hio. pose proof (geometry_dims Hfit Hgo) as Hdims.
  destruct (vget_in_range (pageAllocation c) 0) as [x0 H0];
    [unfold vlen; rewrite (Permutation_length Hpa); simpl; lia|].
  destruct (allocation_byte _ 0 _ Hpa ltac:(lia) H0) as (pk & Hpk & _). rewrite Hpk. simpl.
  assert (for_range 0 4 (fun i st => splitIndex c p (Z.land (Z.shiftr pk (i * 8)) 255) st) (b, setField INDEX_PLANE 0 a0, [])
    = foldM (splitIndex c p) (pageAllocation c) (b, setField INDEX_PLANE 0 a0, [])) as ->.
  { assert (forall i x, vget (pageAllocation c) i = Some x -> 0 <= i < 4 -> Z.land (Z.shiftr pk (i * 8)) 255 = x) as Hbyte.
    { intros i x Hx Hi. destruct (allocation_byte _ i x Hpa Hi Hx) as (pk' & Hpk' & Hx'). congruence. }
    unfold for_range. change (seqZ 0 (4 - 0)) with [0; 1; 2; 3].
    apply Permutation_length in Hpa. destruct (pageAllocation c) as [|y0 [|y1 [|y2 [|y3 [|]]]]]; try discriminate Hpa.
    simpl foldM. rewrite (Hbyte 0 y0), (Hbyte 1 y1), (Hbyte 2 y2), (Hbyte 3 y3) by (done || lia). done. }
  rewrite split_ok by (done || (intros ix; by rewrite Hpa)). simpl.
  pose proof (outs_positive c p Hdims Hpa) as Hop. pose proof (size_of_pos _ Hop) as Hos.
  destruct (rev_ins c p Hdims Hpa) as (Hrp & _ & _).
  rewrite (visit_spec _ _ (pageInSuperPage p)) by (done || (rewrite size_of_rev, <- (go_units _ _ Hgo); lia)).
  rewrite size_of_rev, <- (go_units _ _ Hgo). simpl. f_equal. f_equal.
  apply list_fmap_ext. intros j k _. rewrite <- (unit_base c p Hdims Hpa a0). unfold unitAddressFrom.
  rewrite Z.sub_0_r. rewrite u32_small; [done|]. split; [apply Z.div_pos; lia|].
  apply Z.div_lt_upper_bound; [lia|]. pose proof (go_range _ _ Hgo). nia.
Qed.

Lemma convert_with a0 req io : fits c -> pageAllocation c ≡ₚ indices -> geometry_of c p ->
  0 <= blockIndex req < superBlock p -> Bitset.wf (pageInSuperPage p) io ->
  (if useRandomTweak c then
     if negb (Bitset.size (pal_ioFlag req) =? pageInSuperPage p) then panic "Invalid size of I/O flag"
     else Ok (pal_ioFlag req)
   else if negb (Bitset.size (pal_ioFlag req) =? pageInSuperPage p)
        then Bitset.set_all (Bitset.make (pageInSuperPage p))
        else Ok (pal_ioFlag req)) = Ok io ->
  convertCPDPBP c p a0 req =
    Ok (mkPalRequest (pal_reqID req) (pal_reqSubID req) (blockIndex req) (pageIndex req) io,
        unitAddress c p (blockIndex req) (pageIndex req) <$>
          filter (fun k => Bitset.bit io k = true) (seqZ 0 (pageInSuperPage p))).
Proof.
  intros Hfit Hpa Hgo Hb Hio Hpick.
  pose proof (convert_loops a0 (blockIndex req) (pageIndex req) io Hfit Hpa Hgo Hb Hio) as Hl.
  unfold convertCPDPBP. destruct (getPageAllocationConfig (pageAllocation c)) as [pk|]; [|discriminate Hl].
  simpl in Hl |- *. unfold panic in Hpick. unfold panic. rewrite Hpick. simpl.
  destruct (for_range 0 4 _ _) as [[[tmp a] ptrs]|]; [|discriminate Hl]. simpl in Hl |- *.
  rewrite Hl. simpl. by rewrite Z.eqb_refl.
Qed.

(** The flags a request is served with. *)
Lemma pick_flags req : geometry_of c p ->
  Bitset.wf (pageInSuperPage p) (pal_ioFlag req) \/
    (useRandomTweak c = false /\ Bitset.size (pal_ioFlag req) <> pageInSuperPage p) ->
  exists io, Bitset.wf (pageInSuperPage p) io /\
    (Bitset.size (pal_ioFlag req) <> pageInSuperPage p ->
       forall k, 0 <= k < pageInSuperPage p -> Bitset.bit io k = true) /\
    (if useRandomTweak c then
       if negb (Bitset.size (pal_ioFlag req) =? pageInSuperPage p) then panic "Invalid size of I/O flag"
       else Ok (pal_ioFlag req)
     else if negb (Bitset.size (pal_ioFlag req) =? pageInSuperPage p)
          then Bitset.set_all (Bitset.make (pageInSuperPage p))
          else Ok (pal_ioFlag req)) = Ok io.
Proof.
  intros Hgo [Hio|[Ht Hsz]].
  - exists (pal_ioFlag req). pose proof (Bitset.wf_size _ _ Hio : Bitset.size (pal_ioFlag req) = _) as Hs.
    split_and!; [done | done |]. rewrite Hs, Z.eqb_refl. simpl. by case_match.
  - rewrite Ht, (proj2 (Z.eqb_neq _ _)) by done.
    destruct (Bitset.make_spec (pageInSuperPage p) (go_small _ _ Hgo)) as [Hmk _].
    pose proof (Bitset.set_all_spec _ noerr _ Hmk) as (io & Hio & Hwf & Hbits)%wpr_noerr.
    exists io. split_and!; [done | | exact Hio]. intros _ k Hk. rewrite Hbits. by rewrite bool_decide_true.
Qed.

(** [convertCPDPBP] lists the addresses of the flagged units of a superpage
    in the order of the units.  Flags of another size panic under the I/O tweak
    and otherwise stand for the whole superpage. *)
Theorem convert_units a0 req : fits c -> pageAllocation c ≡ₚ indices -> palParameter c = Ok p ->
  0 <= blockIndex req < superBlock p ->
  let n := pageInSuperPage p in
  let units io := unitAddress c p (blockIndex req) (pageIndex req) <$>
                    filter (fun k => Bitset.bit io k = true) (seqZ 0 n) in
  (Bitset.wf n (pal_ioFlag req) -> exists req', convertCPDPBP c p a0 req = Ok (req', units (pal_ioFlag req))) /\
  (Bitset.size (pal_ioFlag req) <> n ->
    if useRandomTweak c then convertCPDPBP c p a0 req = Err (Panic "Invalid size of I/O flag")
    else exists req', convertCPDPBP c p a0 req =
           Ok (req', unitAddress c p (blockIndex req) (pageIndex req) <$> seqZ 0 n)).
Proof.
  intros Hfit Hpa Hpar Hb n units.
  destruct (palParameter_ok c Hfit Hpa) as (p' & Hp' & Hgo). assert (p' = p) as -> by congruence. split.
  - intros Hio. eexists. apply convert_with; try done.
    rewrite (Bitset.wf_size _ _ Hio : Bitset.size (pal_ioFlag req) = _), Z.eqb_refl. simpl. by case_match.
  - intros Hsz. destruct (useRandomTweak c) eqn:Ht.
    + unfold convertCPDPBP. rewrite Ht, (proj2 (Z.eqb_neq _ _)) by done. simpl.
      destruct (vget_in_range (pageAllocation c) 0) as [x0 H0];
        [unfold vlen; rewrite (Permutation_length Hpa); simpl; lia|].
      destruct (allocation_byte _ 0 _ Hpa ltac:(lia) H0) as (pk & -> & _). done.
    + destruct (pick_flags req Hgo) as (io & Hwf & Hbits & Hio); [by right|].
      eexists. rewrite (convert_with a0 req io) by done.
      do 3 f_equal. apply filter_all. intros k Hk%elem_of_seqZ. apply Hbits; [done | lia].
Qed.

Lemma unit_in_array b pg k : fits c -> pageAllocation c ≡ₚ indices -> geometry_of c p ->
  0 <= b < superBlock p -> 0 <= k < pageInSuperPage p -> in_array p (unitAddress c p b pg k).
Proof.
  intros Hfit Hpa Hgo Hb Hk. pose proof (geometry_dims Hfit Hgo) as Hdims.
  pose proof (size_of_pos _ (outs_positive c p Hdims Hpa)) as Hos.
  rewrite (go_units _ _ Hgo) in Hk. pose proof (go_blocks _ _ Hgo) as Hgb.
  assert (Hrange : forall ix, ix ∈ indices -> 0 <= getField ix (unitAddress c p b pg k) < dimension p ix)
    by (intros ix; by apply unit_range).
  unfold in_array.
  pose proof (Hrange INDEX_CHANNEL ltac:(left) : 0 <= Channel _ < channel p).
  pose proof (Hrange INDEX_PACKAGE ltac:(right; left) : 0 <= Package _ < package p).
  pose proof (Hrange INDEX_DIE ltac:(do 2 right; left) : 0 <= Die _ < die p).
  pose proof (Hrange INDEX_PLANE ltac:(do 3 right; left) : 0 <= Plane _ < plane p).
  assert (Block (unitAddress c p b pg k) = b / size_of (outside c p (pageAllocation c))) as -> by apply unit_rest.
  destruct (go_dims _ _ Hgo) as (_ & _ & _ & _ & -> & _).
  split_and!; try lia; [apply Z.div_pos; lia | apply Z.div_lt_upper_bound; lia].
Qed.

(** The units of all superpages are different physical pages of the array:
    the address of unit [k] of superblock [b] lies in the array, and block,
    page and unit can be read off it. *)
Theorem units_distinct b pg k : fits c -> pageAllocation c ≡ₚ indices -> palParameter c = Ok p ->
  0 <= b < superBlock p -> 0 <= k < pageInSuperPage p ->
  in_array p (unitAddress c p b pg k) /\ Page (unitAddress c p b pg k) = pg /\
  forall b' pg' k', 0 <= b' < superBlock p -> 0 <= k' < pageInSuperPage p ->
    unitAddress c p b pg k = unitAddress c p b' pg' k' -> b = b' /\ pg = pg' /\ k = k'.
Proof.
  intros Hfit Hpa Hpar Hb Hk.
  destruct (palParameter_ok c Hfit Hpa) as (p' & Hp' & Hgo). assert (p' = p) as -> by congruence.
  pose proof (geometry_dims Hfit Hgo) as Hdims.
  pose proof (size_of_pos _ (outs_positive c p Hdims Hpa)) as Hos.
  split_and!.
  - by apply unit_in_array.
  - apply unit_rest.
  - intros b' pg' k' Hb' Hk' He. rewrite (go_units _ _ Hgo) in Hk, Hk'. pose proof (go_blocks _ _ Hgo) as Hgb.
    destruct (unit_recover c p Hdims Hpa b pg k ltac:(lia) Hk) as [Hrb Hrk].
    destruct (unit_recover c p Hdims Hpa b' pg' k' ltac:(lia) Hk') as [Hrb' Hrk'].
    split_and!; [by rewrite <- Hrb, <- Hrb', He | | by rewrite <- Hrk, <- Hrk', He].
    apply (f_equal Page) in He. unfold unitAddress in He. by rewrite !(proj2 (unit_rest _ _ _ _ _ _)) in He.
Qed.
End Properties.

(** ** Physical page numbers and dies *)

Section Numbers.
  Context (r : Sizes).

(** Sizes whose product fits 32 bits. *)
Record sizes_fit : Prop := {
  sf_pos : 0 < RS0 r /\ 0 < RS1 r /\ 0 < RS2 r /\ 0 < RS3 r /\ 0 < RS4 r /\ 0 < RS5 r;
  sf_total : RS5 r * RS4 r * RS3 r * RS2 r * RS1 r * RS0 r < 2 ^ 32;
}.
Definition fields_in (a : CPDPBP) : Prop :=
  0 <= Channel a < RS5 r /\ 0 <= Package a < RS4 r /\ 0 <= Die a < RS3 r /\ 0 <= Plane a < RS2 r /\
  0 <= Block a < RS1 r /\ 0 <= Page a < RS0 r.

Lemma factors_lt x y b : 0 < x -> 0 < y -> x * y < b -> x < b /\ y < b.
Proof. intros; split; nia. Qed.

(** The place values. *)
Lemma places : sizes_fit ->
  let d4 := RS5 r in let d3 := d4 * RS4 r in let d2 := d3 * RS3 r in let d1 := d2 * RS2 r in let d0 := d1 * RS1 r in
  (u32 (d4 * RS4 r) = d3 /\ u32 (d3 * RS3 r) = d2 /\ u32 (d2 * RS2 r) = d1 /\ u32 (d1 * RS1 r) = d0) /\
  (0 < d4 /\ 0 < d3 /\ 0 < d2 /\ 0 < d1 /\ 0 < d0) /\ d0 * RS0 r < 2 ^ 32 /\
  (RS5 r < 2 ^ 32 /\ RS4 r < 2 ^ 32 /\ RS3 r < 2 ^ 32 /\ RS2 r < 2 ^ 32 /\ RS1 r < 2 ^ 32 /\ RS0 r < 2 ^ 32).
Proof.
  intros [(H0 & H1 & H2 & H3 & H4 & H5) Ht] d4 d3 d2 d1 d0.
  assert (0 < d3 /\ 0 < d2 /\ 0 < d1 /\ 0 < d0) as (P3 & P2 & P1 & P0)
    by (split_and!; unfold d0, d1, d2, d3, d4; repeat apply Z.mul_pos_pos; lia).
  assert (d0 * RS0 r < 2 ^ 32) as HT by (unfold d0, d1, d2, d3, d4; lia).
  destruct (factors_lt d0 (RS0 r) _ P0 H0 HT) as [B0 F0].
  destruct (factors_lt d1 (RS1 r) _ P1 H1 B0) as [B1 F1]. destruct (factors_lt d2 (RS2 r) _ P2 H2 B1) as [B2 F2].
  destruct (factors_lt d3 (RS3 r) _ P3 H3 B2) as [B3 F3]. destruct (factors_lt d4 (RS4 r) _ H5 H4 B3) as [B4 F4].
  split_and!; try lia; apply u32_small; fold d3 d2 d1 d0; lia.
Qed.

(** C34: page numbers and addresses correspond: numbering an address of the array
    and taking the number apart gives the address back, and every number below
    the page count is the number of the address it is taken apart into. *)
Theorem ppn_roundtrip : sizes_fit ->
  (forall a, fields_in a -> PPNdisassemble r (AssemblePPN r a) = Ok a) /\
  (forall n, 0 <= n < RS5 r * RS4 r * RS3 r * RS2 r * RS1 r * RS0 r ->
     exists a, PPNdisassemble r n = Ok a /\ fields_in a /\ AssemblePPN r a = n).
Proof.
  intros Hfit. pose proof (places Hfit) as Hpl. destruct Hfit as [(H0 & H1 & H2 & H3 & H4 & H5) Ht].
  unfold PPNdisassemble, AssemblePPN, udiv, umodulo.
  cbv zeta in Hpl. destruct Hpl as ((E3 & E2 & E1 & E0) & (P4 & P3 & P2 & P1 & P0) & HT & (F5 & F4 & F3 & F2 & F1 & F0)).
  rewrite E3, E2, E1, E0. set (d4 := RS5 r) in *. set (d3 := d4 * RS4 r) in *. set (d2 := d3 * RS3 r) in *.
  set (d1 := d2 * RS2 r) in *. set (d0 := d1 * RS1 r) in *.
  rewrite !(proj2 (Z.eqb_neq _ 0)) by lia. split.
  - intros [ch pk di pl bl pg] (B5 & B4 & B3 & B2 & B1 & B0). simpl in B5, B4, B3, B2, B1, B0 |- *.
    destruct (digit_step d4 (RS4 r) pk ch) as (Q4 & M4 & R3); [lia.. |]. fold d3 in R3.
    destruct (digit_step d3 (RS3 r) di (ch + pk * d4)) as (Q3 & M3 & R2); [lia.. |]. fold d2 in R2.
    destruct (digit_step d2 (RS2 r) pl (ch + pk * d4 + di * d3)) as (Q2 & M2 & R1); [lia.. |]. fold d1 in R1.
    destruct (digit_step d1 (RS1 r) bl (ch + pk * d4 + di * d3 + pl * d2)) as (Q1 & M1 & R0); [lia.. |]. fold d0 in R0.
    destruct (digit_step d0 (RS0 r) pg (ch + pk * d4 + di * d3 + pl * d2 + bl * d1)) as (Q0 & M0 & R); [lia.. |].
    assert (0 <= pk * d4 /\ 0 <= di * d3 /\ 0 <= pl * d2 /\ 0 <= bl * d1 /\ 0 <= pg * d0) as (N4 & N3 & N2 & N1 & N0)
      by (split_and!; apply Z.mul_nonneg_nonneg; lia).
    clearbody d0 d1 d2 d3 d4.
    rewrite (u32_small (pk * d4)), (u32_small (di * d3)), (u32_small (pl * d2)), (u32_small (bl * d1)), (u32_small (pg * d0)) by lia.
    rewrite (u64_small (ch + _)), (u64_small (_ + di * d3)), (u64_small (_ + pl * d2)), (u64_small (_ + bl * d1)),
      (u64_small (_ + pg * d0)) by lia.
    rewrite M0, Q0, M1, Q1, M2, Q2, M3, Q3, M4, Q4, !u32_small by lia. done.
  - intros n Hn. fold d4 d3 d2 d1 d0 in Hn.
    assert (forall x d m, 0 < d -> 0 <= x < d * m -> x = x mod d + x / d * d /\ 0 <= x mod d < d /\ 0 <= x / d < m) as Hdm.
    { intros x d m Hd Hx. pose proof (Z.div_mod x d ltac:(lia)). pose proof (Z.mod_pos_bound x d Hd).
      split_and!; [lia | lia | lia | apply Z.div_pos; lia | apply Z.div_lt_upper_bound; lia]. }
    destruct (Hdm n d0 (RS0 r) P0 Hn) as (En & X0 & B0).
    destruct (Hdm (n mod d0) d1 (RS1 r) P1 X0) as (En1 & X1 & B1).
    destruct (Hdm (n mod d0 mod d1) d2 (RS2 r) P2 X1) as (En2 & X2 & B2).
    destruct (Hdm (n mod d0 mod d1 mod d2) d3 (RS3 r) P3 X2) as (En3 & X3 & B3).
    destruct (Hdm (n mod d0 mod d1 mod d2 mod d3) d4 (RS4 r) P4 X3) as (En4 & X4 & B4).
    set (q0 := n / d0) in *. set (x0 := n mod d0) in *. set (q1 := x0 / d1) in *. set (x1 := x0 mod d1) in *.
    set (q2 := x1 / d2) in *. set (x2 := x1 mod d2) in *. set (q3 := x2 / d3) in *. set (x3 := x2 mod d3) in *.
    set (q4 := x3 / d4) in *. set (x4 := x3 mod d4) in *.
    assert (0 <= q4 * d4 /\ 0 <= q3 * d3 /\ 0 <= q2 * d2 /\ 0 <= q1 * d1 /\ 0 <= q0 * d0) as (N4 & N3 & N2 & N1 & N0)
      by (split_and!; apply Z.mul_nonneg_nonneg; lia).
    exists (mkCPDPBP x4 q4 q3 q2 q1 q0). split.
    { transitivity (Ok (mkCPDPBP (u32 x4) (u32 q4) (u32 q3) (u32 q2) (u32 q1) (u32 q0))); [reflexivity|].
      clearbody q4 x4 q3 x3 q2 x2 q1 x1 q0 x0. by rewrite !u32_small by lia. }
    clearbody q4 x4 q3 x3 q2 x2 q1 x1 q0 x0. split; [repeat split; simpl; fold d4; lia|].
    simpl. clearbody d0 d1 d2 d3 d4.
    rewrite (u32_small (q4 * d4)), (u32_small (q3 * d3)), (u32_small (q2 * d2)), (u32_small (q1 * d1)), (u32_small (q0 * d0)) by lia.
    rewrite (u64_small (x4 + _)), (u64_small (_ + q3 * d3)), (u64_small (_ + q2 * d2)), (u64_small (_ + q1 * d1)),
      (u64_small (_ + q0 * d0)) by lia. lia.
Qed.

(** Dies are numbered without collision: the index is below the number of
    dies, and channel, package and die can be read off it. *)
Theorem die_index_distinct p a b : 0 < channel p * (die p * package p) < 2 ^ 32 -> in_array p a -> in_array p b ->
  0 <= CPDPBPtoDieIdx p a < channel p * (die p * package p) /\
  (CPDPBPtoDieIdx p a = CPDPBPtoDieIdx p b -> Channel a = Channel b /\ Package a = Package b /\ Die a = Die b).
Proof.
  intros Hb (Ca & Wa & Da & _) (Cb & Wb & Db & _).
  destruct (die_index p a Hb Ca Wa Da) as [-> Ra], (die_index p b Hb Cb Wb Db) as [-> Rb].
  split; [nia|]. intros He.
  assert (0 < die p * package p) as Hdw by nia.
  destruct (digit_step (die p * package p) (channel p) (Channel a) (Die a + Package a * die p)) as (Qa & Ma & _); [lia.. |].
  destruct (digit_step (die p * package p) (channel p) (Channel b) (Die b + Package b * die p)) as (Qb & Mb & _); [lia.. |].
  rewrite He, Mb in Ma. rewrite He, Qb in Qa.
  destruct (digit_step (die p) (package p) (Package a) (Die a)) as (Qa' & Ma' & _); [lia.. |].
  destruct (digit_step (die p) (package p) (Package b) (Die b)) as (Qb' & Mb' & _); [lia.. |].
  rewrite <- Ma, Mb' in Ma'. rewrite <- Ma, Qb' in Qa'. lia.
Qed.
End Numbers.

(** ** A small array *)

(** Two channels and two packages, one die of one plane, four blocks of four
    pages; superblocks span channels and packages. *)
Definition small_array : PalConfig := mkPalConfig 2 2 1 1 4 4 512 false 3 indices true.
Definition small_parameter : PalParameter := mkPalParameter 2 2 1 1 4 4 4 512 2048 4.

Lemma small_array_fits : fits small_array.
Proof. split; simpl; lia. Qed.

Lemma small_flags_wf : Bitset.wf 4 (Bitset.mk [5] 4 1).
Proof.
  pose proof (Bitset.set_spec 4 noerr _ 0 true (proj1 (Bitset.make_spec 4 ltac:(lia))) ltac:(lia)) as [H1 _].
  pose proof (Bitset.set_spec 4 noerr _ 2 true H1 ltac:(lia)) as [H2 _]. exact H2.
Qed.

Lemma convert_units_witness :
  let io := Bitset.mk [5] 4 1 in
  exists req', convertCPDPBP small_array small_parameter (mkCPDPBP 9 9 9 9 9 9) (mkPalRequest 0 0 3 1 io)
    = Ok (req', [mkCPDPBP 0 0 0 0 3 1; mkCPDPBP 0 1 0 0 3 1]).
Proof.
  intros io. destruct (convert_units small_array small_parameter (mkCPDPBP 9 9 9 9 9 9) (mkPalRequest 0 0 3 1 io)
    small_array_fits (Permutation_refl _) eq_refl ltac:(simpl; lia)) as [Hc _].
  destruct (Hc small_flags_wf) as [req' Hr]. exists req'. rewrite Hr. reflexivity.
Defined.

Lemma units_distinct_witness :
  in_array small_parameter (unitAddress small_array small_parameter 3 1 2) /\
  unitAddress small_array small_parameter 3 1 2 = mkCPDPBP 0 1 0 0 3 1.
Proof.
  split; [|reflexivity].
  exact (proj1 (units_distinct small_array small_parameter 3 1 2 small_array_fits (Permutation_refl _) eq_refl
    ltac:(simpl; lia) ltac:(simpl; lia))).
Defined.

Lemma ppn_roundtrip_witness :
  PPNdisassemble (mkSizes 4 4 1 1 2 2) (AssemblePPN (mkSizes 4 4 1 1 2 2) (mkCPDPBP 1 0 0 0 3 2)) =
    Ok (mkCPDPBP 1 0 0 0 3 2).
Proof.
  apply (ppn_roundtrip (mkSizes 4 4 1 1 2 2)); [split; simpl; lia | repeat split; simpl; lia].
Defined.

Lemma die_index_distinct_witness :
  0 <= CPDPBPtoDieIdx small_parameter (mkCPDPBP 1 1 0 0 0 0) < 4.
Proof.
  apply (die_index_distinct small_parameter (mkCPDPBP 1 1 0 0 0 0) (mkCPDPBP 1 1 0 0 0 0));
    [simpl; lia | repeat split; simpl; lia | repeat split; simpl; lia].
Defined.
