(* ===== verification/Latency.v ===== *)
(** * pal/old/Latency*.cc: the timing of flash operations *)

From S2P Require Import Prelude.

(** [PAL_OPERATION] *)
Inductive PAL_OPERATION : Type := OPER_READ | OPER_WRITE | OPER_ERASE | OPER_NUM.

#[export] Instance PAL_OPERATION_eq_dec : EqDecision PAL_OPERATION.
Proof. solve_decision. Defined.

(** What a resource is busy for. *)
Inductive BUSY : Type :=
  BUSY_DMA0WAIT | BUSY_DMA0 | BUSY_MEM | BUSY_DMA1WAIT | BUSY_DMA1 | BUSY_END | BUSY_NUM.

(** [PAGETiming], [DMATiming], [NANDTiming], [NANDPower] *)
Record PAGETiming : Type := mkPageTiming { pt_read : Z; pt_write : Z }.
Record DMATiming : Type := mkDmaTiming { dt_read : Z; dt_write : Z; dt_erase : Z }.
Record NANDTiming : Type := mkNandTiming {
  lsb : PAGETiming; csb : PAGETiming; msb : PAGETiming;
  dma0 : DMATiming; dma1 : DMATiming; t_erase : Z;
}.
Record NANDPower : Type := mkNandPower {
  voltage : Z; i_read : Z; i_program : Z; i_erase : Z; i_busIdle : Z; i_standby : Z;
}.

(** The latency classes, chosen by [NAND_FLASH_TYPE]. *)
Inductive NAND : Type := NAND_SLC | NAND_MLC | NAND_TLC.
Record Latency : Type := mkLatency { nand : NAND; timing : NANDTiming; power : NANDPower }.

Definition PAGE_LSB : Z := 0.
Definition PAGE_CSB : Z := 1.

Definition dma_time (t : DMATiming) (Oper : PAL_OPERATION) : Z :=
  match Oper with OPER_READ => dt_read t | OPER_WRITE => dt_write t | _ => dt_erase t end.

Definition page_time (t : PAGETiming) (Oper : PAL_OPERATION) : Z :=
  match Oper with OPER_READ => pt_read t | _ => pt_write t end.

(** [LatencySLC] *)
Definition SLC_GetPageType (AddrPage : Z) : Z := PAGE_LSB.
Definition SLC_GetLatency (t : NANDTiming) (AddrPage : Z) (Oper : PAL_OPERATION) (Busy : BUSY) : Z :=
  match Busy with
  | BUSY_DMA0 => dma_time (dma0 t) Oper
  | BUSY_DMA1 => dma_time (dma1 t) Oper
  | BUSY_MEM => match Oper with
                | OPER_READ => pt_read (lsb t)
                | OPER_WRITE => pt_write (lsb t)
                | _ => t_erase t
                end
  | _ => 10
  end.

(** [LatencyMLC] *)
Definition MLC_GetPageType (AddrPage : Z) : Z := u8 (AddrPage mod 2).
Definition MLC_GetLatency (t : NANDTiming) (AddrPage : Z) (Oper : PAL_OPERATION) (Busy : BUSY) : Z :=
  match Busy with
  | BUSY_DMA0 => dma_time (dma0 t) Oper
  | BUSY_DMA1 => dma_time (dma1 t) Oper
  | BUSY_MEM =>
      if bool_decide (Oper = OPER_ERASE) then t_erase t
      else page_time (if MLC_GetPageType AddrPage =? PAGE_LSB then lsb t else msb t) Oper
  | _ => 10
  end.

(** [LatencyTLC] *)
Definition TLC_GetPageType (AddrPage : Z) : Z :=
  if AddrPage <=? 5 then PAGE_LSB
  else if AddrPage <=? 7 then PAGE_CSB
  else u8 (Z.shiftr (u32 (AddrPage - 8)) 1 mod 3).
Definition TLC_GetLatency (t : NANDTiming) (AddrPage : Z) (Oper : PAL_OPERATION) (Busy : BUSY) : Z :=
  let pType := TLC_GetPageType AddrPage in
  match Busy with
  | BUSY_DMA0 => dma_time (dma0 t) Oper
  | BUSY_DMA1 => dma_time (dma1 t) Oper
  | BUSY_MEM =>
      if bool_decide (Oper = OPER_ERASE) then t_erase t
      else page_time (if pType =? PAGE_LSB then lsb t else if pType =? PAGE_CSB then csb t else msb t) Oper
  | _ => 10
  end.

(** The virtual calls. *)
Definition GetPageType (l : Latency) (AddrPage : Z) : Z :=
  match nand l with
  | NAND_SLC => SLC_GetPageType AddrPage
  | NAND_MLC => MLC_GetPageType AddrPage
  | NAND_TLC => TLC_GetPageType AddrPage
  end.
Definition GetLatency (l : Latency) : Z -> PAL_OPERATION -> BUSY -> Z :=
  match nand l with
  | NAND_SLC => SLC_GetLatency (timing l)
  | NAND_MLC => MLC_GetLatency (timing l)
  | NAND_TLC => TLC_GetLatency (timing l)
  end.

(** [GetPower], in nW. *)
Definition GetPower (l : Latency) (Oper : PAL_OPERATION) (Busy : BUSY) : Z :=
  let w := power l in
  match Busy with
  | BUSY_DMA0 | BUSY_DMA1 => u64 (voltage w * i_busIdle w)
  | BUSY_MEM => match Oper with
                | OPER_READ => u64 (voltage w * i_read w)
                | OPER_WRITE => u64 (voltage w * i_program w)
                | _ => u64 (voltage w * i_erase w)
                end
  | _ => u64 (voltage w * i_standby w)
  end.
