(* ===== verification/FreeSlots.v ===== *)
(** * pal/old/PAL2.cc: free slots of a channel or a die

    The time of a resource: everything from its start point on is free, and so
    are the slots listed below it.  The slots are filed by length in buckets
    ([std::map<len, std::map<start, end>>]); a map is the list of its entries
    in key order. *)

From S2P Require Import Prelude.
From Stdlib Require Import Sorted.

(** A bucket, and the buckets of a resource by their minimal length. *)
Notation bucket := (list (Z * Z)).
Notation buckets := (list (Z * list (Z * Z))).

(** ** Ordered maps *)

(** [m.upper_bound(k)], as a position. *)
Fixpoint upper_bound {V} (k : Z) (m : list (Z * V)) : nat :=
  match m with
  | [] => 0
  | (k', _) :: m' => if k <? k' then 0 else S (upper_bound k m')
  end.

(** [m.insert({k, v})]: nothing happens when the key is there. *)
Fixpoint map_insert {V} (k : Z) (v : V) (m : list (Z * V)) : list (Z * V) :=
  match m with
  | [] => [(k, v)]
  | (k', v') :: m' =>
      if k <? k' then (k, v) :: (k', v') :: m'
      else if k =? k' then (k', v') :: m'
      else (k', v') :: map_insert k v m'
  end.

Fixpoint map_find {V} (k : Z) (m : list (Z * V)) : option V :=
  match m with
  | [] => None
  | (k', v) :: m' => if k' =? k then Some v else map_find k m'
  end.

Fixpoint map_erase {V} (k : Z) (m : list (Z * V)) : list (Z * V) :=
  match m with
  | [] => []
  | (k', v) :: m' => if k' =? k then m' else (k', v) :: map_erase k m'
  end.

(** ** [FindFreeTime] *)

(** The first slot from an iterator on that is long enough. *)
Fixpoint first_fit (tickLen : Z) (l : bucket) : option Z :=
  match l with
  | [] => None
  | (s, e) :: l' => if u64 (u64 (tickLen + s) - 1) <=? e then Some s else first_fit tickLen l'
  end.

(** The slot before the iterator, when it covers the request. *)
Definition covering (tickLen tickFrom : Z) (b : bucket) : option Z :=
  match upper_bound tickFrom b with
  | O => None
  | S n => match b !! n with
           | Some (s, e) => if u64 (u64 (tickLen + tickFrom) - 1) <=? e then Some s else None
           | None => None
           end
  end.

Definition no_tick : Z := 2 ^ 64 - 1.

(** The loop over the buckets with the best start so far. *)
Fixpoint search_buckets (tickLen tickFrom : Z) (l : buckets) (minTick : Z) : option (Z * bool) :=
  match l with
  | [] => if minTick =? no_tick then None else Some (minTick, true)
  | (_, b) :: l' =>
      match covering tickLen tickFrom b with
      | Some s => Some (s, false)
      | None =>
          let minTick :=
            match first_fit tickLen (drop (upper_bound tickFrom b) b) with
            | Some s => if (minTick =? no_tick) || (s <? minTick) then s else minTick
            | None => minTick
            end in
          search_buckets tickLen tickFrom l' minTick
      end
  end.

(** [FindFreeTime]: the start of a slot and whether it lies after [tickFrom];
    without buckets the iterator before [end()] is undefined. *)
Definition FindFreeTime (bs : buckets) (tickLen tickFrom : Z) : res (option (Z * bool)) :=
  let n := upper_bound tickLen bs in
  if bool_decide (n = length bs) then
    match last bs with
    | None => Err BadIterator
    | Some (_, b) =>
        match covering tickLen tickFrom b with
        | Some s => Ok (Some (s, false))
        | None =>
            match first_fit tickLen (drop (upper_bound tickFrom b) b) with
            | Some s => Ok (Some (s, true))
            | None => Ok None
            end
        end
    end
  else Ok (search_buckets tickLen tickFrom (drop (pred n) bs) no_tick).

(** ** [AddFreeSlot], [InsertFreeSlot] *)

(** The slot goes to the last bucket that is not longer; one shorter than every
    bucket is lost. *)
Definition AddFreeSlot (bs : buckets) (tickLen tickFrom : Z) : buckets :=
  match upper_bound tickLen bs with
  | O => bs
  | S n => alter (fun kb : Z * bucket =>
             (kb.1, map_insert tickFrom (u64 (u64 (tickFrom + tickLen) - 1)) kb.2)) n bs
  end.

(** The search for the bucket that has a slot starting at [startTick]. *)
Fixpoint find_slot (startTick : Z) (l : buckets) (i : nat) : option (nat * Z) :=
  match l with
  | [] => None
  | (_, b) :: l' => match map_find startTick b with
                    | Some e => Some (i, e)
                    | None => find_slot startTick l' (S i)
                    end
  end.

Definition assert_ (b : bool) : res unit := if b then Ok tt else Err (Panic "assertion failed").

(** [InsertFreeSlot]: take [tickLen] ticks from [tickFrom] on out of the slot
    that starts at [startTick]; [split] files the ticks as a slot of their own. *)
Definition InsertFreeSlot (bs : buckets) (tickLen tickFrom startTick startPoint : Z) (split : bool)
    : res (buckets * Z) :=
  if startTick =? startPoint then
    if tickFrom =? startTick then
      let bs := if split then AddFreeSlot bs tickLen startPoint else bs in
      Ok (bs, u64 (startPoint + tickLen))
    else
      assert_ (startTick <? tickFrom);;
      let bs := if split then AddFreeSlot bs tickLen tickFrom else bs in
      Ok (AddFreeSlot bs (u64 (tickFrom - startTick)) startTick, u64 (tickFrom + tickLen))
  else
    let n := pred (upper_bound tickLen bs) in
    match find_slot startTick (drop n bs) n with
    | None => Ok (bs, startPoint)
    | Some (i, tmpEndTick) =>
        let bs := alter (fun kb : Z * bucket => (kb.1, map_erase startTick kb.2)) i bs in
        if startTick <? tickFrom then
          let bs := AddFreeSlot bs (u64 (tickFrom - startTick)) startTick in
          let bs := if split then AddFreeSlot bs tickLen tickFrom else bs in
          assert_ (tickLen <=? u64 (u64 (tmpEndTick - tickFrom) + 1));;
          Ok (if u64 (u64 (tickLen + tickFrom) - 1) <? tmpEndTick
              then AddFreeSlot bs (u64 (tmpEndTick - u64 (u64 (tickFrom + tickLen) - 1))) (u64 (tickFrom + tickLen))
              else bs, startPoint)
        else
          assert_ (startTick =? tickFrom);;
          assert_ (tickLen <=? u64 (u64 (tmpEndTick - tickFrom) + 1));;
          let bs := if split then AddFreeSlot bs tickLen startTick else bs in
          Ok (if u64 (u64 (tickLen + tickFrom) - 1) <? tmpEndTick
              then AddFreeSlot bs (u64 (tmpEndTick - u64 (u64 (tickFrom + tickLen) - 1))) (u64 (startTick + tickLen))
              else bs, startPoint)
    end.

(** [FlushAFreeSlot]: per bucket, the leading slots that ended before now. *)
Fixpoint drop_past (currentTick : Z) (b : bucket) : bucket :=
  match b with
  | [] => []
  | (s, e) :: b' => if e <? currentTick then drop_past currentTick b' else b
  end.
Definition FlushAFreeSlot (bs : buckets) (currentTick : Z) : buckets :=
  (fun kb => (kb.1, drop_past currentTick kb.2)) <$> bs.
