(* ===== verification/FreeSlotsProof.v ===== *)
(** * Free slots: what the operations do to the free time *)

From S2P Require Import Prelude FreeSlots.
From Stdlib Require Import Sorted.

(** ** Ordered maps *)

Section Maps.
  Context {V : Type}.
  Implicit Types (m : list (Z * V)) (k : Z) (v : V).

Definition by_key : Z * V -> Z * V -> Prop := fun x y => x.1 < y.1.

Lemma sorted_app m1 m2 : StronglySorted by_key (m1 ++ m2) <->
  StronglySorted by_key m1 /\ StronglySorted by_key m2 /\ forall x y, x ∈ m1 -> y ∈ m2 -> x.1 < y.1.
Proof.
  induction m1 as [|x m1 IH]; simpl.
  - split; [intros Hs; split_and!; [constructor | done | by intros ? ? ?%not_elem_of_nil] | by intros (_ & ? & _)].
  - split.
    + inversion 1 as [|? ? Hs Hx]; subst. apply IH in Hs as (H1 & H2 & H12). rewrite Forall_forall in Hx. split_and!.
      * constructor; [done|]. apply Forall_forall. intros y Hy. apply Hx, elem_of_app. by left.
      * done.
      * intros a b [->|Ha]%elem_of_cons Hb; [|by apply H12]. apply Hx, elem_of_app. by right.
    + intros (H1 & H2 & H12). inversion H1 as [|? ? Hs Hx]; subst. constructor.
      * apply IH. split_and!; try done. intros a b Ha Hb. apply H12; [by right | done].
      * apply Forall_app. split; [done|]. apply Forall_forall. intros y Hy. apply H12; [by left | done].
Qed.

Lemma sorted_unique m x y : StronglySorted by_key m -> x ∈ m -> y ∈ m -> x.1 = y.1 -> x = y.
Proof.
  induction 1 as [|z m Hs IH Hz]; [by intros ?%not_elem_of_nil|]. rewrite Forall_forall in Hz.
  unfold by_key in Hz. intros [->|Hx]%elem_of_cons [->|Hy]%elem_of_cons He; auto.
  - specialize (Hz y Hy). lia.
  - specialize (Hz x Hx). lia.
Qed.

Lemma upper_bound_split k m : StronglySorted by_key m ->
  (forall x, x ∈ take (upper_bound k m) m -> x.1 <= k) /\
  (forall x, x ∈ drop (upper_bound k m) m -> k < x.1).
Proof.
  induction 1 as [|[k' v] m Hs IH Hx]; simpl; [split; by intros ? ?%not_elem_of_nil|].
  rewrite Forall_forall in Hx. unfold by_key in Hx. simpl in Hx. destruct (Z.ltb_spec k k'); simpl.
  - split; [by intros ? ?%not_elem_of_nil|]. intros x [->|Hin]%elem_of_cons; [done|]. specialize (Hx x Hin). lia.
  - destruct IH as [IH1 IH2]. split; [|done]. intros x [->|Hin]%elem_of_cons; [done | auto].
Qed.

Lemma upper_bound_le k m : (upper_bound k m <= length m)%nat.
Proof. induction m as [|[k' v] m IH]; simpl; [done|]. destruct (k <? k'); simpl; lia. Qed.

Lemma map_insert_elem k v m x : StronglySorted by_key m -> (forall y, y ∈ m -> y.1 <> k) ->
  x ∈ map_insert k v m <-> x = (k, v) \/ x ∈ m.
Proof.
  induction 1 as [|[k' v'] m Hs IH Hx]; intros Hn; simpl.
  - rewrite list_elem_of_singleton. split; [by left | intros [?|?%not_elem_of_nil]; done].
  - destruct (k <? k'); [by rewrite elem_of_cons|].
    destruct (Z.eqb_spec k k') as [->|]; [exfalso; by apply (Hn (k', v')); [left|]|].
    rewrite !elem_of_cons, IH by (intros y Hy; apply Hn; by right). tauto.
Qed.

Lemma map_insert_sorted k v m : StronglySorted by_key m -> (forall y, y ∈ m -> y.1 <> k) ->
  StronglySorted by_key (map_insert k v m).
Proof.
  intros Hs. pose proof Hs as Hs'. induction Hs as [|[k' v'] m Hs IH Hx]; intros Hn; simpl; [repeat constructor|].
  rewrite Forall_forall in Hx. unfold by_key in Hx. simpl in Hx.
  destruct (Z.ltb_spec k k').
  - constructor; [done|]. apply Forall_forall. intros y [->|Hy]%elem_of_cons; [done|].
    specialize (Hx y Hy). unfold by_key. simpl. lia.
  - destruct (Z.eqb_spec k k') as [->|Hne]; [done|]. constructor.
    + apply IH; [done|]. intros y Hy. apply Hn. by right.
    + apply Forall_forall. intros y [->|Hy]%map_insert_elem; [unfold by_key; simpl; lia | by apply Hx | done |].
      intros z Hz. apply Hn. by right.
Qed.

Lemma map_find_elem k v m : map_find k m = Some v -> (k, v) ∈ m.
Proof.
  induction m as [|[k' v'] m IH]; simpl; [done|]. destruct (Z.eqb_spec k' k) as [->|].
  - intros [= ->]. by left.
  - intros Hf. right. auto.
Qed.

Lemma map_find_Some k v m : StronglySorted by_key m -> (k, v) ∈ m -> map_find k m = Some v.
Proof.
  intros Hs Hin. destruct (map_find k m) as [v'|] eqn:Hf.
  - apply map_find_elem in Hf. by assert ((k, v') = (k, v)) as [= ->] by (by apply (sorted_unique m)).
  - exfalso. clear Hs. induction m as [|[k' v'] m IH]; [by apply not_elem_of_nil in Hin|]. simpl in Hf.
    destruct (Z.eqb_spec k' k) as [->|]; [done|]. apply elem_of_cons in Hin as [[= -> ->]|Hin]; auto.
Qed.

Lemma map_erase_elem k m x : StronglySorted by_key m -> x ∈ map_erase k m <-> x ∈ m /\ x.1 <> k.
Proof.
  induction 1 as [|[k' v'] m Hs IH Hx]; simpl.
  - split; [by intros ?%not_elem_of_nil | by intros [?%not_elem_of_nil _]].
  - rewrite Forall_forall in Hx. unfold by_key in Hx. simpl in Hx. destruct (Z.eqb_spec k' k) as [->|Hne].
    + split; [|by intros [[->|?]%elem_of_cons ?]]. intros Hin. split; [by right|]. specialize (Hx x Hin). lia.
    + rewrite !elem_of_cons, IH. split; [intros [->|[? ?]]; auto | intros [[->|?] ?]; auto].
Qed.

Lemma map_erase_sorted k m : StronglySorted by_key m -> StronglySorted by_key (map_erase k m).
Proof.
  induction 1 as [|[k' v'] m Hs IH Hx]; simpl; [constructor|]. destruct (k' =? k); [done|]. constructor; [done|].
  rewrite Forall_forall in Hx |- *. intros y [Hy _]%map_erase_elem; auto.
Qed.

Lemma alter_split (f : Z * V -> Z * V) n m x : m !! n = Some x ->
  exists l1 l2, m = l1 ++ x :: l2 /\ length l1 = n /\ alter f n m = l1 ++ f x :: l2.
Proof.
  revert n. induction m as [|y m IH]; intros [|n]; simpl; try done.
  - intros [= ->]. by exists [], m.
  - intros (l1 & l2 & -> & <- & Ha)%IH. exists (y :: l1), l2. split_and!; [done | done |]. simpl. unfold alter in Ha. by rewrite Ha.
Qed.
End Maps.

(** ** Slots *)

Definition Slot (bs : buckets) (s e : Z) : Prop := exists k b, (k, b) ∈ bs /\ (s, e) ∈ b.

(** The free time of a resource. *)
Definition Free (bs : buckets) (sp t : Z) : Prop := sp <= t \/ exists s e, Slot bs s e /\ s <= t <= e.

(** Buckets sorted by length, slots by start; slots filed under the longest
    length they reach, ending before the start point, and disjoint. *)
Record wfb (bs : buckets) (sp : Z) : Prop := {
  wb_keys : StronglySorted by_key bs;
  wb_sorted : forall k b, (k, b) ∈ bs -> StronglySorted by_key b;
  wb_len : forall k b s e, (k, b) ∈ bs -> (s, e) ∈ b -> 0 <= s <= e /\ k <= e - s + 1;
  wb_filed : forall k b s e k' b', (k, b) ∈ bs -> (s, e) ∈ b -> (k', b') ∈ bs -> k < k' -> e - s + 1 < k';
  wb_end : forall s e, Slot bs s e -> e < sp;
  wb_disjoint : forall s e s' e', Slot bs s e -> Slot bs s' e' -> (s, e) = (s', e') \/ e < s' \/ e' < s;
}.

Section Slots.
  Context (bs : buckets) (sp : Z) (HW : wfb bs sp).

Lemma slot_range s e : Slot bs s e -> 0 <= s <= e.
Proof. intros (k & b & Hk & Hb). by apply (wb_len bs sp HW k b s e). Qed.

(** A slot is found from the bucket before the requested length on. *)
Lemma slot_bucket s e k b tickLen : (k, b) ∈ bs -> (s, e) ∈ b -> tickLen <= e - s + 1 ->
  (k, b) ∈ drop (pred (upper_bound tickLen bs)) bs.
Proof.
  intros Hk Hs Hlen. destruct (upper_bound_split tickLen bs (wb_keys _ _ HW)) as [Hlo Hhi].
  pose proof (upper_bound_le tickLen bs) as Hub. revert Hlo Hhi Hub. generalize (upper_bound tickLen bs). intros n Hlo Hhi Hub. rewrite <- (take_drop (pred n) bs) in Hk. apply elem_of_app in Hk as [Hk|]; [|done]. exfalso.
  destruct n as [|n]; [by apply not_elem_of_nil in Hk|]. simpl in Hk.
  assert (is_Some (bs !! n)) as [[k' b'] Hb'].
  { apply lookup_lt_is_Some. lia. }
  pose proof (wb_keys _ _ HW) as Hsort. rewrite <- (take_drop_middle bs n _ Hb') in Hsort.
  apply sorted_app in Hsort as (_ & _ & Hlt). specialize (Hlt (k, b) (k', b') Hk ltac:(left)). simpl in Hlt.
  assert ((k, b) ∈ bs) as Hkin by (apply elem_of_take in Hk as (i & Hi & _); by eapply list_elem_of_lookup_2).
  pose proof (wb_filed _ _ HW k b s e k' b' Hkin Hs ltac:(by eapply list_elem_of_lookup_2) Hlt).
  assert (k' <= tickLen); [|lia]. apply (Hlo (k', b')). apply elem_of_take. exists n. split; [done | lia].
Qed.
End Slots.

(** ** The search for free time *)

(** A request of [tl] ticks from [from] on fits into a slot, possibly later. *)
Definition fits (tl from s e : Z) : Prop := Z.max from s + tl - 1 <= e.

(** The earliest slot of a collection that a request fits into. *)
Definition earliest (S : Z -> Z -> Prop) (tl from : Z) (o : option (Z * bool)) : Prop :=
  match o with
  | None => forall s e, S s e -> ~ fits tl from s e
  | Some (s, c) => (exists e, S s e /\ fits tl from s e) /\ c = (from <? s) /\
      forall s' e', S s' e' -> fits tl from s' e' -> s <= s'
  end.

Definition disjoint (S : Z -> Z -> Prop) : Prop :=
  forall s e s' e', S s e -> S s' e' -> (s, e) = (s', e') \/ e < s' \/ e' < s.

Section Search.
  Context (tl from : Z) (Htl : 1 <= tl) (Hfrom : 0 <= from) (Hsum : tl + from < 2 ^ 64).
  Context (hi : Z) (Hhi : tl + hi < 2 ^ 64).

(** A bucket whose slots end before [hi]. *)
Record wf_bucket (b : bucket) : Prop := {
  bk_sorted : StronglySorted by_key b;
  bk_range : forall s e, (s, e) ∈ b -> 0 <= s <= e /\ e < hi;
  bk_disjoint : disjoint (fun s e => (s, e) ∈ b);
}.

Lemma covering_spec b : wf_bucket b ->
  match covering tl from b with
  | Some s => exists e, (s, e) ∈ b /\ s <= from /\ from + tl - 1 <= e
  | None => forall s e, (s, e) ∈ b -> s <= from -> e < from + tl - 1
  end.
Proof.
  intros [Hs Hr Hd]. unfold covering. rewrite (u64_small (tl + from)), u64_small by lia.
  destruct (upper_bound_split from b Hs) as [Hlo Hup]. pose proof (upper_bound_le from b) as Hub.
  revert Hlo Hup Hub. generalize (upper_bound from b). intros [|n] Hlo Hup Hub.
  - intros s e Hin Hle. specialize (Hup (s, e) Hin). simpl in Hup. lia.
  - destruct (lookup_lt_is_Some_2 b n) as [[s e] Hn]; [lia|]. rewrite Hn.
    assert ((s, e) ∈ take (S n) b) as Hin.
    { apply elem_of_take. exists n. split; [done | lia]. }
    pose proof (Hlo _ Hin) as Hsf. simpl in Hsf. assert ((s, e) ∈ b) as Hinb by (by eapply list_elem_of_lookup_2).
    assert (forall s' e', (s', e') ∈ b -> s' <= from -> (s', e') = (s, e) \/ e' < s) as Hother.
    { intros s' e' Hin' Hle'. destruct (Hd s e s' e' Hinb Hin') as [He | [Hlt | Hlt]]; [by left | | by right].
      exfalso. rewrite <- (take_drop (S n) b) in Hin'. apply elem_of_app in Hin' as [Ht|Ht].
      - rewrite <- (take_drop_middle b n _ Hn) in Hs. apply sorted_app in Hs as (_ & _ & Hlt').
        apply elem_of_take in Ht as (i & Hi & Hin'). destruct (decide (i = n)) as [->|Hne].
        + rewrite Hn in Hi. injection Hi as -> ->. specialize (Hr _ _ Hinb). lia.
        + specialize (Hlt' (s', e') (s, e)). simpl in Hlt'. specialize (Hr _ _ Hinb).
          assert (s' < s); [|lia]. apply Hlt'; [apply elem_of_take; exists i; split; [done | lia] | left].
      - specialize (Hup _ Ht). simpl in Hup. lia. }
    destruct (Z.leb_spec (tl + from - 1) e).
    + exists e. split_and!; [done | done | lia].
    + intros s' e' Hin' Hle'. destruct (Hother s' e' Hin' Hle') as [[= -> ->]|]; lia.
Qed.

Lemma first_fit_spec l : StronglySorted by_key l -> (forall s e, (s, e) ∈ l -> 0 <= s <= e /\ e < hi) ->
  match first_fit tl l with
  | Some s => exists e, (s, e) ∈ l /\ s + tl - 1 <= e /\
                forall s' e', (s', e') ∈ l -> s' + tl - 1 <= e' -> s <= s'
  | None => forall s e, (s, e) ∈ l -> e < s + tl - 1
  end.
Proof.
  induction 1 as [|[s e] l Hs IH Hx]; intros Hr; simpl; [by intros ? ? ?%not_elem_of_nil|].
  destruct (Hr s e) as [Hse Hehi]; [left|]. rewrite (u64_small (tl + s)), u64_small by lia.
  rewrite Forall_forall in Hx. unfold by_key in Hx. destruct (Z.leb_spec (tl + s - 1) e).
  - exists e. split_and!; [left | lia |]. intros s' e' [[= -> ->]|Hin]%elem_of_cons _; [done|].
    specialize (Hx _ Hin). simpl in Hx. lia.
  - specialize (IH ltac:(intros s' e' Hin; apply Hr; by right)). destruct (first_fit tl l) as [s0|].
    + destruct IH as (e0 & Hin & Hle & Hmin). exists e0. split_and!; [by right | done |].
      intros s' e' [[= -> ->]|Hin']%elem_of_cons Hf; [lia | by apply (Hmin s' e')].
    + intros s' e' [[= -> ->]|Hin]%elem_of_cons; [lia | by apply IH].
Qed.

(** The slots of a bucket that start after [from]. *)
Lemma later_spec b : wf_bucket b ->
  match first_fit tl (drop (upper_bound from b) b) with
  | Some s => from < s /\ exists e, (s, e) ∈ b /\ s + tl - 1 <= e /\
                forall s' e', (s', e') ∈ b -> from < s' -> s' + tl - 1 <= e' -> s <= s'
  | None => forall s e, (s, e) ∈ b -> from < s -> e < s + tl - 1
  end.
Proof.
  intros [Hs Hr Hd]. destruct (upper_bound_split from b Hs) as [Hlo Hup].
  pose proof Hs as Hs'. rewrite <- (take_drop (upper_bound from b) b) in Hs'. apply sorted_app in Hs' as (_ & Hsd & _).
  assert (forall x, x ∈ drop (upper_bound from b) b -> x ∈ b) as Hsub.
  { intros x Hin. rewrite <- (take_drop (upper_bound from b) b). apply elem_of_app. by right. }
  assert (forall s e, (s, e) ∈ b -> from < s -> (s, e) ∈ drop (upper_bound from b) b) as Hback.
  { intros s e Hin Hlt. rewrite <- (take_drop (upper_bound from b) b) in Hin. apply elem_of_app in Hin as [Hin|]; [|done].
    specialize (Hlo _ Hin). simpl in Hlo. lia. }
  pose proof (first_fit_spec _ Hsd ltac:(intros s e Hin; apply Hr; auto)) as Hf.
  destruct (first_fit tl _) as [s|].
  - destruct Hf as (e & Hin & Hle & Hmin). split; [by apply (Hup _ Hin)|]. exists e. split_and!; [auto | done |].
    intros s' e' Hin' Hlt. apply Hmin. auto.
  - intros s e Hin Hlt. apply Hf. auto.
Qed.

(** One bucket. *)
Lemma bucket_spec b : wf_bucket b ->
  earliest (fun s e => (s, e) ∈ b) tl from
    (match covering tl from b with
     | Some s => Some (s, false)
     | None => match first_fit tl (drop (upper_bound from b) b) with
               | Some s => Some (s, true)
               | None => None
               end
     end).
Proof.
  intros Hb. pose proof (covering_spec b Hb) as Hc. pose proof (later_spec b Hb) as Hl. pose proof Hb as [Hs Hr Hd].
  unfold earliest, fits. destruct (covering tl from b) as [s|].
  - destruct Hc as (e & Hin & Hle & Hfit). split_and!; [exists e; split; [done | lia] | |].
    + symmetry. apply Z.ltb_ge. lia.
    + intros s' e' Hin' Hf'. destruct (Hd s e s' e' Hin Hin') as [[= -> ->] | [?|?]]; [done | lia | lia].
  - destruct (first_fit tl _) as [s|].
    + destruct Hl as (Hlt & e & Hin & Hfit & Hmin). split_and!; [exists e; split; [done | lia] | |].
      * symmetry. by apply Z.ltb_lt.
      * intros s' e' Hin' Hf'. destruct (decide (s' <= from)) as [Hle|Hgt]; [specialize (Hc s' e' Hin' Hle); lia|].
        apply (Hmin s' e'); [done | lia | lia].
    + intros s' e' Hin' Hf'. destruct (decide (s' <= from)) as [Hle|Hgt]; [specialize (Hc s' e' Hin' Hle); lia|].
      specialize (Hl s' e' Hin' ltac:(lia)). lia.
Qed.

(** All buckets from an iterator on: [D] are the slots seen before. *)
Lemma search_spec l minTick (D : Z -> Z -> Prop) :
  (forall k b, (k, b) ∈ l -> wf_bucket b) ->
  let S s e := D s e \/ exists k b, (k, b) ∈ l /\ (s, e) ∈ b in
  disjoint S -> (forall s e, S s e -> 0 <= s /\ e < hi) ->
  earliest D tl from (if minTick =? no_tick then None else Some (minTick, true)) ->
  earliest S tl from (search_buckets tl from l minTick).
Proof.
  revert minTick D. induction l as [|[k b] l IH]; intros minTick D Hwf S Hdis Hrange Hmin; simpl.
  - assert (forall s e, S s e <-> D s e) as HSD.
    { intros s e. unfold S. split; [|by left]. intros [?|(k & b & ?%not_elem_of_nil & _)]; done. }
    unfold earliest in *. destruct (minTick =? no_tick).
    + intros s e ?%HSD. by apply Hmin.
    + destruct Hmin as ((e & He & Hf) & Hc & Hm). split_and!; [exists e; by rewrite HSD | done |].
      intros s' e' ?%HSD. by apply (Hm s' e').
  - pose proof (bucket_spec b (Hwf k b ltac:(left))) as Hb.
    assert (forall s e, S s e <-> (D s e \/ (s, e) ∈ b) \/ exists k b, (k, b) ∈ l /\ (s, e) ∈ b) as HS.
    { intros s e. unfold S. split.
      - intros [?|(k' & b' & [[= -> ->]|Hin]%elem_of_cons & Hse)]; [tauto | tauto |]. right. eauto.
      - intros [[?|?]|(k' & b' & ? & ?)]; [tauto | |]; right; [exists k, b | exists k', b']; (split; [|done]);
          [left | by right]. }
    destruct (covering tl from b) as [s|].
    + destruct Hb as ((e & Hin & Hf) & Hc & _). split_and!; [exists e | done |].
      * split; [|done]. apply HS. left. by right.
      * intros s' e' Hs' Hf'. assert (S s e) as Hse by (apply HS; left; by right).
        destruct (Hdis s e s' e' Hse Hs') as [[= -> ->] | [Hlt|Hlt]]; [done | |];
          unfold fits in *; symmetry in Hc; apply Z.ltb_ge in Hc; lia.
    + set (minTick' := match first_fit tl _ with
        | Some s => if (minTick =? no_tick) || (s <? minTick) then s else minTick | None => minTick end).
      assert (earliest (fun s e => D s e \/ (s, e) ∈ b) tl from
                (if minTick' =? no_tick then None else Some (minTick', true))) as Hmin'.
      { unfold minTick'. destruct (first_fit tl _) as [s|].
        - destruct Hb as ((e & Hin & Hf) & Hc & Hbm).
          assert (s < no_tick) as Hsn.
          { assert (S s e) as Hse by (apply HS; left; by right). destruct (Hrange s e Hse). unfold fits in Hf. unfold no_tick. lia. }
          destruct (Z.eqb_spec minTick no_tick) as [->|Hne]; simpl.
          + rewrite (proj2 (Z.eqb_neq s no_tick)) by lia. split_and!; [exists e; tauto | done |].
            intros s' e' [Hd|Hb'] Hf'; [exfalso; by apply (Hmin s' e') | by apply (Hbm s' e')].
          + destruct Hmin as ((e0 & He0 & Hf0) & Hc0 & Hm0). destruct (Z.ltb_spec s minTick).
            * rewrite (proj2 (Z.eqb_neq s no_tick)) by lia. split_and!; [exists e; tauto | done |].
              intros s' e' [Hd|Hb'] Hf'; [specialize (Hm0 s' e' Hd Hf'); lia | by apply (Hbm s' e')].
            * rewrite (proj2 (Z.eqb_neq minTick no_tick)) by done. split_and!; [exists e0; tauto | done |].
              intros s' e' [Hd|Hb'] Hf'; [by apply (Hm0 s' e') | specialize (Hbm s' e' Hb' Hf'); lia].
        - destruct (minTick =? no_tick).
          + intros s' e' [Hd|Hb'] Hf'; [by apply (Hmin s' e') | by apply (Hb s' e')].
          + destruct Hmin as ((e0 & He0 & Hf0) & Hc0 & Hm0). split_and!; [exists e0; tauto | done |].
            intros s' e' [Hd|Hb'] Hf'; [by apply (Hm0 s' e') | exfalso; by apply (Hb s' e')]. }
      specialize (IH minTick' (fun s e => D s e \/ (s, e) ∈ b) ltac:(intros k' b' Hin; apply (Hwf k' b'); by right)). simpl in IH.
      assert (earliest (fun s e => (D s e \/ (s, e) ∈ b) \/ exists k b, (k, b) ∈ l /\ (s, e) ∈ b) tl from
                (search_buckets tl from l minTick')) as Hres.
      { apply IH; [| |done].
        - intros s e s' e' H1%HS H2%HS. by apply Hdis.
        - intros s e H1%HS. by apply Hrange. }
      unfold earliest in Hres |- *. destruct (search_buckets tl from l minTick') as [[s c]|].
      * destruct Hres as ((e & He%HS & Hf) & Hc & Hm). split_and!; [by exists e | done |].
        intros s' e' Hs'%HS. by apply (Hm s' e').
      * intros s' e' Hs'%HS. by apply Hres.
Qed.
End Search.

Lemma earliest_ext (S S' : Z -> Z -> Prop) tl from o :
  (forall s e, S s e -> S' s e) -> (forall s e, S' s e -> fits tl from s e -> S s e) ->
  earliest S tl from o -> earliest S' tl from o.
Proof.
  intros Hin Hback. unfold earliest. destruct o as [[s c]|].
  - intros ((e & He & Hf) & Hc & Hm). split_and!; [exists e; auto | done |]. intros s' e' Hs' Hf'. eapply Hm; eauto.
  - intros Hn s e Hs Hf. by apply (Hn s e); auto.
Qed.

Lemma wfb_bucket bs sp k b : wfb bs sp -> (k, b) ∈ bs -> wf_bucket sp b.
Proof.
  intros HW Hk. split.
  - by apply (wb_sorted _ _ HW k).
  - intros s e Hin. split; [by apply (wb_len _ _ HW k b)|]. apply (wb_end _ _ HW s). by exists k, b.
  - intros s e s' e' H1 H2. apply (wb_disjoint _ _ HW); by exists k, b.
Qed.

Lemma FindFreeTime_spec bs sp tl from : wfb bs sp -> bs <> [] -> 1 <= tl -> 0 <= from ->
  tl + from < 2 ^ 64 -> tl + sp < 2 ^ 64 ->
  exists o, FindFreeTime bs tl from = Ok o /\ earliest (Slot bs) tl from o.
Proof.
  intros HW Hne Htl Hfrom Hsum Hsp. unfold FindFreeTime.
  assert (forall s e, Slot bs s e -> fits tl from s e -> exists k b, (k, b) ∈ drop (pred (upper_bound tl bs)) bs /\ (s, e) ∈ b)
    as Hfar.
  { intros s e (k & b & Hk & Hb) Hf. exists k, b. split; [|done]. apply (slot_bucket bs sp HW s e); [done | done |].
    unfold fits in Hf. lia. }
  destruct (bool_decide (upper_bound tl bs = length bs)) eqn:Hend.
  - apply bool_decide_eq_true in Hend. rewrite Hend in Hfar.
    destruct (last bs) as [[k b]|] eqn:Hlast; [|by apply last_None in Hlast].
    pose proof (last_Some_elem_of _ _ Hlast) as Hkin.
    pose proof (bucket_spec tl from Htl Hfrom Hsum sp Hsp b (wfb_bucket bs sp k b HW Hkin)) as Hb.
    set (o := match covering tl from b with
      | Some s => Some (s, false)
      | None => match first_fit tl (drop (upper_bound from b) b) with Some s => Some (s, true) | None => None end
      end) in Hb.
    exists o. split; [unfold o; destruct (covering tl from b); [|destruct (first_fit tl _)]; reflexivity|].
    apply (earliest_ext (fun s e => (s, e) ∈ b)); [by intros s e Hin; exists k, b | | done].
    intros s e Hs Hf. destruct (Hfar s e Hs Hf) as (k' & b' & Hk' & Hb').
    apply last_Some in Hlast as [l ->]. rewrite length_app, Nat.add_comm in Hk'. simpl in Hk'.
    rewrite drop_app_length in Hk'. apply list_elem_of_singleton in Hk' as [= -> ->]. done.
  - eexists. split; [reflexivity|]. set (l := drop (pred (upper_bound tl bs)) bs).
    assert (forall x, x ∈ l -> x ∈ bs) as Hl.
    { intros x Hx. unfold l in Hx. rewrite <- (take_drop (pred (upper_bound tl bs)) bs). apply elem_of_app. by right. }
    apply (earliest_ext (fun s e => False \/ exists k b, (k, b) ∈ l /\ (s, e) ∈ b)).
    + intros s e [[]|(k & b & Hk & Hb)]. exists k, b. auto.
    + intros s e Hs Hf. right. by apply Hfar.
    + apply (search_spec tl from Htl Hfrom Hsum sp Hsp l no_tick (fun _ _ => False)).
      * intros k b Hk. apply (wfb_bucket bs sp k b HW). auto.
      * intros s e s' e' [[]|(k & b & Hk & Hb)] [[]|(k' & b' & Hk' & Hb')].
        apply (wb_disjoint _ _ HW); [exists k, b | exists k', b']; auto.
      * intros s e [[]|(k & b & Hk & Hb)]. assert (Slot bs s e) as Hs by (exists k, b; auto).
        split; [by apply (slot_range bs sp HW s e) | by apply (wb_end _ _ HW s)].
      * rewrite Z.eqb_refl. by intros s e [].
Qed.

(** ** Filing and taking slots *)

(** Some bucket is not longer than [n]. *)
Definition reachable (bs : buckets) (n : Z) : Prop := exists k b, (k, b) ∈ bs /\ k <= n.

(** The keys of the buckets stay. *)
Definition same_keys (bs bs' : buckets) : Prop := bs'.*1 = bs.*1.

Lemma reachable_keys bs bs' n : same_keys bs bs' -> reachable bs n -> reachable bs' n.
Proof.
  intros Hk (k & b & Hin & Hle). assert (k ∈ bs'.*1) as (x & -> & Hx)%list_elem_of_fmap.
  { rewrite Hk. by apply (list_elem_of_fmap_2 fst _ (k, b)). }
  exists x.1, x.2. by destruct x.
Qed.

Lemma wfb_grow bs sp sp' : wfb bs sp -> sp <= sp' -> wfb bs sp'.
Proof.
  intros [H1 H2 H3 H4 H5 H6] Hle. split; try done. intros s e Hs. specialize (H5 s e Hs). lia.
Qed.

(** Replacing the slots of one bucket. *)
Lemma replace_bucket bs sp l1 l2 k b b' : wfb bs sp -> bs = l1 ++ (k, b) :: l2 -> StronglySorted by_key b' ->
  (forall s e, (s, e) ∈ b' -> (0 <= s <= e /\ k <= e - s + 1) /\ e < sp /\
     forall k2 b2, (k2, b2) ∈ bs -> k < k2 -> e - s + 1 < k2) ->
  disjoint (Slot (l1 ++ (k, b') :: l2)) ->
  wfb (l1 ++ (k, b') :: l2) sp /\ same_keys bs (l1 ++ (k, b') :: l2).
Proof.
  intros HW Hbs Hs' Hb' Hdis.
  assert (forall k1 b1, (k1, b1) ∈ l1 ++ (k, b') :: l2 -> (k1 = k /\ b1 = b') \/ (k1, b1) ∈ bs) as Horig.
  { intros k1 b1. rewrite Hbs, !elem_of_app, !elem_of_cons. intros [?|[[= -> ->]|?]]; auto. }
  assert (forall k1 b1, (k1, b1) ∈ l1 ++ (k, b') :: l2 -> exists b0, (k1, b0) ∈ bs) as Hkey.
  { intros k1 b1 [[-> ->]|?]%Horig; [|by exists b1]. exists b. rewrite Hbs. apply elem_of_app. right. left. }
  split; [|by unfold same_keys; rewrite Hbs, !fmap_app]. split.
  - pose proof (wb_keys _ _ HW) as Hs. rewrite Hbs in Hs. apply sorted_app in Hs as (S1 & S2 & S12).
    inversion S2 as [|? ? S2' Sx]; subst. apply sorted_app. split_and!; [done | by constructor |].
    intros x y Hx [->|Hy]%elem_of_cons; [apply (S12 x (k, b)); [done | left] | apply S12; [done | by right]].
  - intros k1 b1 [[-> ->]|Hin]%Horig; [done | by apply (wb_sorted _ _ HW k1)].
  - intros k1 b1 s e [[-> ->]|Hin]%Horig Hse; [by apply Hb' | by apply (wb_len _ _ HW k1 b1)].
  - intros k1 b1 s e k2 b2 Hin1 Hse [b3 Hin3]%Hkey Hlt. apply Horig in Hin1 as [[-> ->]|Hin1].
    + by apply (proj2 (proj2 (Hb' s e Hse)) k2 b3).
    + by apply (wb_filed _ _ HW k1 b1 s e k2 b3).
  - intros s e (k1 & b1 & [[-> ->]|Hin]%Horig & Hse); [by destruct (Hb' s e Hse) as (_ & ? & _) | apply (wb_end _ _ HW s); by exists k1, b1].
  - done.
Qed.

(** The slots besides those of one bucket. *)
Lemma slot_split l1 l2 k b : exists R, (forall s e, Slot (l1 ++ (k, b) :: l2) s e <-> (s, e) ∈ b \/ R s e) /\
  forall b' s e, Slot (l1 ++ (k, b') :: l2) s e <-> (s, e) ∈ b' \/ R s e.
Proof.
  exists (fun s e => exists k1 b1, (k1, b1) ∈ l1 ++ l2 /\ (s, e) ∈ b1).
  assert (forall b' s e, Slot (l1 ++ (k, b') :: l2) s e <-> (s, e) ∈ b' \/ exists k1 b1, (k1, b1) ∈ l1 ++ l2 /\ (s, e) ∈ b1) as Hs.
  { intros b' s e. unfold Slot. setoid_rewrite elem_of_app. setoid_rewrite elem_of_cons. split.
    - intros (k1 & b1 & [?|[[= -> ->]|?]] & Hse); [right | by left | right]; exists k1, b1; auto.
    - intros [Hse|(k1 & b1 & [?|?] & Hse)]; [exists k, b' | exists k1, b1 | exists k1, b1]; auto. }
  auto.
Qed.

(** The slots of [len] ticks go to the longest bucket not above. *)
Lemma next_bucket bs sp len n k b : wfb bs sp -> upper_bound len bs = S n -> bs !! n = Some (k, b) ->
  k <= len /\ forall k' b', (k', b') ∈ bs -> k < k' -> len < k'.
Proof.
  intros HW Hub Hn. destruct (upper_bound_split len bs (wb_keys _ _ HW)) as [Hlo Hup]. rewrite Hub in Hlo, Hup. split.
  - apply (Hlo (k, b)). apply elem_of_take. exists n. split; [done | lia].
  - intros k' b' Hin Hlt. rewrite <- (take_drop (S n) bs) in Hin. apply elem_of_app in Hin as [Hin|Hin]; [|by apply (Hup _ Hin)].
    exfalso. pose proof (wb_keys _ _ HW) as Hs. rewrite <- (take_drop_middle bs n _ Hn) in Hs.
    apply sorted_app in Hs as (_ & _ & Hlt'). apply elem_of_take in Hin as (i & Hi & Hin').
    destruct (decide (i = n)) as [->|Hne]; [rewrite Hn in Hi; injection Hi as -> ->; lia|].
    specialize (Hlt' (k', b') (k, b)). simpl in Hlt'. assert (k' < k); [|lia].
    apply Hlt'; [apply elem_of_take; exists i; split; [done | lia] | left].
Qed.

Lemma add_file bs sp len from : wfb bs sp -> 1 <= len -> 0 <= from -> from + len < 2 ^ 64 -> from + len <= sp ->
  (forall s e, Slot bs s e -> e < from \/ from + len <= s) ->
  wfb (AddFreeSlot bs len from) sp /\ same_keys bs (AddFreeSlot bs len from) /\
  (forall s e, Slot (AddFreeSlot bs len from) s e <->
    Slot bs s e \/ (s = from /\ e = from + len - 1 /\ reachable bs len)).
Proof.
  intros HW Hlen Hfrom Hsum Hsp Hfree. unfold AddFreeSlot. pose proof (upper_bound_le len bs) as Hub.
  destruct (upper_bound len bs) as [|n] eqn:Hn.
  { split_and!; [done | done |]. intros s e. split; [by left|]. intros [?|(-> & -> & k & b & Hk & Hle)]; [done|].
    destruct (upper_bound_split len bs (wb_keys _ _ HW)) as [_ Hup]. rewrite Hn in Hup.
    specialize (Hup _ Hk). simpl in Hup. lia. }
  destruct (lookup_lt_is_Some_2 bs n) as [[k b] Hk]; [lia|].
  destruct (next_bucket bs sp len n k b HW Hn Hk) as [Hkl Hnext].
  assert ((k, b) ∈ bs) as Hkin by (by eapply list_elem_of_lookup_2).
  edestruct (alter_split (fun kb : Z * bucket =>
    (kb.1, map_insert from (u64 (u64 (from + len) - 1)) kb.2)) n bs (k, b) Hk) as (l1 & l2 & Hbs & Hl1 & ->).
  simpl. rewrite (u64_small (from + len)), u64_small by lia. set (b' := map_insert from (from + len - 1) b).
  assert (forall y, y ∈ b -> y.1 <> from) as Hnew.
  { intros [s e] Hy He. simpl in He. subst s. assert (Slot bs from e) as Hs by (by exists k, b).
    pose proof (slot_range bs sp HW _ _ Hs). specialize (Hfree _ _ Hs). lia. }
  pose proof (wb_sorted _ _ HW k b Hkin) as Hsb.
  assert (forall x, x ∈ b' <-> x = (from, from + len - 1) \/ x ∈ b) as Hb' by (intros x; by apply map_insert_elem).
  assert (forall s e, Slot (l1 ++ (k, b') :: l2) s e <-> Slot bs s e \/ (s = from /\ e = from + len - 1)) as Hslot.
  { intros s e. destruct (slot_split l1 l2 k b) as (R & HR & HR'). rewrite HR', Hb', Hbs, HR.
    split; [intros [[[= -> ->]|?]|?]; auto | intros [[?|?]|[-> ->]]; auto]. }
  destruct (replace_bucket bs sp l1 l2 k b b') as [HW' Hkeys]; [done | done | by apply map_insert_sorted | | |].
  - intros s e [[= -> ->]|Hse]%Hb'; [split_and!; try lia; intros k2 b2 Hin Hlt; specialize (Hnext _ _ Hin Hlt); lia|].
    destruct (wb_len _ _ HW k b s e Hkin Hse) as [? ?]. assert (e < sp) by (apply (wb_end _ _ HW s); by exists k, b).
    split_and!; try lia. intros k2 b2 Hin Hlt. by apply (wb_filed _ _ HW k b s e k2 b2).
  - intros s e s' e' [H1|[-> ->]]%Hslot [H2|[-> ->]]%Hslot.
    + by apply (wb_disjoint _ _ HW).
    + specialize (Hfree _ _ H1). right. lia.
    + specialize (Hfree _ _ H2). right. lia.
    + by left.
  - split_and!; [done | done |]. intros s e. rewrite Hslot. split; [|tauto]. intros [?|[-> ->]]; [by left|].
    right. split_and!; [done | done |]. by exists k, b.
Qed.

Lemma find_slot_elem s0 i e0 n bs : find_slot s0 (drop n bs) n = Some (i, e0) ->
  exists k b, bs !! i = Some (k, b) /\ (s0, e0) ∈ b.
Proof.
  remember (drop n bs) as l eqn:Hl. revert n Hl. induction l as [|[k b] l IH]; intros n Hl; simpl; [done|].
  assert (bs !! n = Some (k, b)) as Hn by (rewrite <- (Nat.add_0_r n), <- lookup_drop, <- Hl; done).
  destruct (map_find s0 b) as [e|] eqn:Hf.
  - intros [= <- <-]. exists k, b. split; [done|]. by apply map_find_elem.
  - apply IH. rewrite (drop_S bs _ n Hn) in Hl. by injection Hl.
Qed.

(** A start belongs to one slot, filed in one bucket. *)
Lemma slot_unique bs sp s e e' : wfb bs sp -> Slot bs s e -> Slot bs s e' -> e = e'.
Proof.
  intros HW H1 H2. pose proof (slot_range bs sp HW _ _ H1). pose proof (slot_range bs sp HW _ _ H2).
  destruct (wb_disjoint _ _ HW _ _ _ _ H1 H2) as [[= ->] | [?|?]]; [done | lia | lia].
Qed.
Lemma bucket_unique bs sp k b k' b' s e : wfb bs sp -> (k, b) ∈ bs -> (k', b') ∈ bs -> (s, e) ∈ b -> (s, e) ∈ b' -> k = k'.
Proof.
  intros HW H1 H2 Hb Hb'. destruct (Z.lt_trichotomy k k') as [Hlt|[->|Hlt]]; [|done|].
  - pose proof (wb_filed _ _ HW k b s e k' b' H1 Hb H2 Hlt). pose proof (proj2 (wb_len _ _ HW k' b' s e H2 Hb')). lia.
  - pose proof (wb_filed _ _ HW k' b' s e k b H2 Hb' H1 Hlt). pose proof (proj2 (wb_len _ _ HW k b s e H1 Hb)). lia.
Qed.

(** Erasing the slot that starts at [s0]. *)
Lemma erase_slot bs sp n s0 i e0 : wfb bs sp -> find_slot s0 (drop n bs) n = Some (i, e0) ->
  let bs' := alter (fun kb : Z * bucket => (kb.1, map_erase s0 kb.2)) i bs in
  Slot bs s0 e0 /\ wfb bs' sp /\ same_keys bs bs' /\ forall s e, Slot bs' s e <-> Slot bs s e /\ s <> s0.
Proof.
  intros HW (k & b & Hi & Hb)%find_slot_elem bs'. assert ((k, b) ∈ bs) as Hkin by (by eapply list_elem_of_lookup_2).
  assert (Slot bs s0 e0) as Hs0 by (by exists k, b).
  edestruct (alter_split (fun kb : Z * bucket => (kb.1, map_erase s0 kb.2)) i bs (k, b) Hi)
    as (l1 & l2 & Hbs & Hl1 & Hal). simpl in Hal. fold bs' in Hal. rewrite Hal. clear bs' Hal.
  pose proof (wb_sorted _ _ HW k b Hkin) as Hsb.
  assert (forall s e, Slot (l1 ++ (k, map_erase s0 b) :: l2) s e <-> Slot bs s e /\ s <> s0) as Hslot.
  { intros s e. destruct (slot_split l1 l2 k b) as (R & HR & HR'). rewrite HR', (map_erase_elem _ _ _ Hsb), Hbs, HR. simpl.
    split; [|tauto]. intros [[? ?]|HRs]; [tauto|]. split; [by right|]. intros ->.
    (* a second slot at [s0] would be filed in another bucket *)
    assert (Slot bs s0 e) as Hse by (rewrite Hbs; apply HR; by right).
    assert (e = e0) as -> by (by apply (slot_unique bs sp s0)).
    assert (Slot (l1 ++ (k, []) :: l2) s0 e0) as (k1 & b1 & Hin & Hb1) by (apply HR'; by right).
    rewrite elem_of_app, elem_of_cons in Hin. destruct Hin as [Hin|[[= -> ->]|Hin]]; [|by apply not_elem_of_nil in Hb1|].
    - assert ((k1, b1) ∈ bs) as Hin' by (rewrite Hbs; apply elem_of_app; by left).
      pose proof (bucket_unique bs sp _ _ _ _ _ _ HW Hin' Hkin Hb1 Hb) as ->. pose proof (wb_keys _ _ HW) as Hs.
      rewrite Hbs in Hs. apply sorted_app in Hs as (_ & _ & Hlt). specialize (Hlt (k, b1) (k, b) Hin ltac:(left)). simpl in Hlt. lia.
    - assert ((k1, b1) ∈ bs) as Hin' by (rewrite Hbs; apply elem_of_app; right; by right).
      pose proof (bucket_unique bs sp _ _ _ _ _ _ HW Hin' Hkin Hb1 Hb) as ->. pose proof (wb_keys _ _ HW) as Hs.
      rewrite Hbs in Hs. apply sorted_app in Hs as (_ & Hs & _). inversion Hs as [|? ? _ Hlt]; subst.
      rewrite Forall_forall in Hlt. specialize (Hlt _ Hin). unfold by_key in Hlt. simpl in Hlt. lia. }
  destruct (replace_bucket bs sp l1 l2 k b (map_erase s0 b)) as [HW' Hkeys]; [done | done | by apply map_erase_sorted | | |].
  - intros s e [Hse _]%(map_erase_elem _ _ _ Hsb). destruct (wb_len _ _ HW k b s e Hkin Hse) as [? ?].
    assert (e < sp) by (apply (wb_end _ _ HW s); by exists k, b). split_and!; try lia.
    intros k2 b2 Hin Hlt. by apply (wb_filed _ _ HW k b s e k2 b2).
  - intros s e s' e' [H1 _]%Hslot [H2 _]%Hslot. by apply (wb_disjoint _ _ HW).
  - done.
Qed.

(** [if (c) AddFreeSlot(...)] *)
Definition file_if (c : bool) (bs : buckets) (len from : Z) : buckets := if c then AddFreeSlot bs len from else bs.

Lemma file_if_spec c bs sp len from : wfb bs sp ->
  (c = true -> 1 <= len /\ 0 <= from /\ from + len < 2 ^ 64 /\ from + len <= sp /\
     forall s e, Slot bs s e -> e < from \/ from + len <= s) ->
  wfb (file_if c bs len from) sp /\ same_keys bs (file_if c bs len from) /\
  (forall s e, Slot (file_if c bs len from) s e <->
    Slot bs s e \/ (c = true /\ s = from /\ e = from + len - 1 /\ reachable bs len)).
Proof.
  intros HW Hc. destruct c; simpl.
  - destruct Hc as (? & ? & ? & ? & ?); [done|]. destruct (add_file bs sp len from) as (? & ? & Hs); try done.
    split_and!; [done | done |]. intros s e. rewrite Hs. tauto.
  - split_and!; [done | done |]. intros s e. split; [by left | by intros [?|[? _]]].
Qed.

Lemma find_slot_some bs sp s e tickLen : wfb bs sp -> Slot bs s e -> tickLen <= e - s + 1 ->
  let n := pred (upper_bound tickLen bs) in exists i, find_slot s (drop n bs) n = Some (i, e).
Proof.
  intros HW (k & b & Hk & Hb) Hlen n. pose proof (slot_bucket bs sp HW s e k b tickLen Hk Hb Hlen) as Hin. fold n in Hin.
  assert (forall l i, (forall x, x ∈ l -> x ∈ bs) -> (k, b) ∈ l -> exists j e', find_slot s l i = Some (j, e')) as Hfind.
  { clear Hin. induction l as [|[k1 b1] l IH]; intros i Hl Hin; [by apply not_elem_of_nil in Hin|]. simpl.
    destruct (map_find s b1) as [e'|] eqn:Hf; [by eauto|]. apply IH; [intros x Hx; apply Hl; by right|].
    apply elem_of_cons in Hin as [[= -> ->]|Hin]; [|done]. rewrite (map_find_Some s e) in Hf; [done | | done].
    by apply (wb_sorted _ _ HW k1). }
  destruct (Hfind (drop n bs) n) as (j & e' & Hf); [|done|].
  { intros x Hx. rewrite <- (take_drop n bs). apply elem_of_app. by right. }
  exists j. rewrite Hf. do 2 f_equal. destruct (erase_slot bs sp n s j e' HW Hf) as (Hs' & _).
  apply (slot_unique bs sp s); [done | done |]. by exists k, b.
Qed.

(** The slots a request leaves of the slot or the tail it is taken from. *)
Definition leaves (bs : buckets) (len from start : Z) (e : option Z) (split : bool) (s' e' : Z) : Prop :=
  (start < from /\ s' = start /\ e' = from - 1 /\ reachable bs (from - start)) \/
  (split = true /\ s' = from /\ e' = from + len - 1 /\ reachable bs len) \/
  match e with
  | Some e => from + len <= e /\ s' = from + len /\ e' = e /\ reachable bs (e - (from + len) + 1)
  | None => False
  end.

(** Where a request may be taken from: a slot that covers it, or the tail. *)
Definition source (bs : buckets) (sp len from start : Z) (e : option Z) : Prop :=
  start <= from /\
  match e with
  | Some e => Slot bs start e /\ from + len - 1 <= e
  | None => start = sp
  end.

Lemma InsertFreeSlot_spec bs sp len from start e split : wfb bs sp -> 1 <= len -> 0 <= from -> 0 <= sp ->
  from + len < 2 ^ 64 -> sp < 2 ^ 64 -> source bs sp len from start e ->
  exists bs' sp', InsertFreeSlot bs len from start sp split = Ok (bs', sp') /\
    wfb bs' sp' /\ same_keys bs bs' /\ sp' = (if e then sp else from + len) /\
    forall s' e', Slot bs' s' e' <-> (Slot bs s' e' /\ s' <> start) \/ leaves bs len from start e split s' e'.
Proof.
  intros HW Hlen Hfrom Hsp Hsum Hspb [Hle Hsrc]. unfold InsertFreeSlot. destruct e as [e|].
  - destruct Hsrc as [Hs Hfit]. pose proof (slot_range bs sp HW _ _ Hs) as Hr. pose proof (wb_end _ _ HW _ _ Hs) as Hend.
    rewrite (proj2 (Z.eqb_neq start sp)) by lia.
    destruct (find_slot_some bs sp start e len HW Hs ltac:(lia)) as [i Hf]. rewrite Hf.
    destruct (erase_slot bs sp _ start i e HW Hf) as (_ & HW1 & Hk1 & Hs1).
    set (bs1 := alter _ i bs) in *.
    assert (forall s' e', Slot bs1 s' e' -> e' < start \/ e < s') as Hd1.
    { intros s' e' [Hs' Hne]%Hs1. destruct (wb_disjoint _ _ HW _ _ _ _ Hs Hs') as [[= -> ->] | [?|?]]; [done | lia | lia]. }
    destruct (file_if_spec (start <? from) bs1 sp (from - start) start HW1) as (HW2 & Hk2 & Hs2).
    { intros Hlt%Z.ltb_lt. split_and!; try lia. intros s' e' Hs'. specialize (Hd1 _ _ Hs'). lia. }
    set (bs2 := file_if (start <? from) bs1 (from - start) start) in *.
    destruct (file_if_spec split bs2 sp len from HW2) as (HW3 & Hk3 & Hs3).
    { intros _. split_and!; try lia. intros s' e' [Hs'|(_ & -> & -> & _)]%Hs2; [specialize (Hd1 _ _ Hs'); lia | lia]. }
    set (bs3 := file_if split bs2 len from) in *.
    destruct (file_if_spec (len + from - 1 <? e) bs3 sp (e - (from + len - 1)) (from + len) HW3) as (HW4 & Hk4 & Hs4).
    { intros Hlt%Z.ltb_lt. split_and!; try lia.
      intros s' e' [[Hs'|(_ & -> & -> & _)]%Hs2|(_ & -> & -> & _)]%Hs3; [specialize (Hd1 _ _ Hs'); lia | lia | lia]. }
    set (bs4 := file_if (len + from - 1 <? e) bs3 (e - (from + len - 1)) (from + len)) in *.
    exists bs4, sp. assert (same_keys bs bs2) as K2 by (unfold same_keys in *; congruence).
    assert (same_keys bs bs3) as K3 by (unfold same_keys in *; congruence).
    assert (same_keys bs bs4) as K4 by (unfold same_keys in *; congruence).
    split_and!; [|done | done | done |].
      assert (u64 (u64 (e - from) + 1) = e - from + 1) as -> by (rewrite (u64_small (e - from)), u64_small by lia; done).
      rewrite (u64_small (from - start)), (u64_small (len + from)), (u64_small (from + len)) by lia.
      rewrite (u64_small (len + from - 1)), (u64_small (from + len - 1)) by lia.
      rewrite (u64_small (e - (from + len - 1))), (u64_small (start + len)) by lia.
      rewrite (proj2 (Z.leb_le len _)) by lia. unfold bs4, bs3, bs2, file_if.
      destruct (Z.ltb_spec start from) as [Hlt|Hge]; [reflexivity|]. assert (start = from) as <- by lia.
      rewrite Z.eqb_refl. reflexivity.
    + intros s' e'. rewrite Hs4, Hs3, Hs2, Hs1. unfold leaves. rewrite !Z.ltb_lt.
      assert (forall n, reachable bs1 n <-> reachable bs n) as R1.
      { intros n. split; apply reachable_keys; [by symmetry | done]. }
      assert (forall n, reachable bs2 n <-> reachable bs n) as R2.
      { intros n. split; apply reachable_keys; [by symmetry | done]. }
      assert (forall n, reachable bs3 n <-> reachable bs n) as R3.
      { intros n. split; apply reachable_keys; [by symmetry | done]. }
      rewrite R1, R2, R3. replace (e - (from + len) + 1) with (e - (from + len - 1)) by lia.
      replace (start + (from - start) - 1) with (from - 1) by lia.
      replace (from + len + (e - (from + len - 1)) - 1) with e by lia. intuition lia.
  - subst start. rewrite Z.eqb_refl.
    assert (wfb bs (from + len)) as HW0 by (apply (wfb_grow bs sp); [done | lia]).
    assert (forall s' e', Slot bs s' e' -> e' < sp) as Hend by apply (wb_end _ _ HW).
    destruct (file_if_spec split bs (from + len) len from HW0) as (HW2 & Hk2 & Hs2).
    { intros _. split_and!; try lia. intros s' e' Hs'. specialize (Hend _ _ Hs'). lia. }
    set (bs2 := file_if split bs len from) in *.
    destruct (file_if_spec (sp <? from) bs2 (from + len) (from - sp) sp HW2) as (HW3 & Hk3 & Hs3).
    { intros Hlt%Z.ltb_lt. split_and!; try lia. intros s' e' [Hs'|(_ & -> & -> & _)]%Hs2; [specialize (Hend _ _ Hs'); lia | lia]. }
    set (bs3 := file_if (sp <? from) bs2 (from - sp) sp) in *.
    exists bs3, (from + len). assert (same_keys bs bs3) as K3 by (unfold same_keys in *; congruence).
    split_and!; [|done | done | done |].
    + unfold bs3, bs2, file_if. destruct (Z.eqb_spec from sp) as [->|Hne].
      * rewrite Z.ltb_irrefl, u64_small by lia. reflexivity.
      * rewrite (proj2 (Z.ltb_lt sp from)) by lia. simpl. rewrite !u64_small by lia. reflexivity.
    + intros s' e'. rewrite Hs3, Hs2. unfold leaves. rewrite Z.ltb_lt.
      assert (forall n, reachable bs2 n <-> reachable bs n) as R2.
      { intros n. split; apply reachable_keys; [by symmetry | done]. }
      rewrite R2. replace (sp + (from - sp) - 1) with (from - 1) by lia. split.
      * intros [[?|?]|?]; [left; split; [done|] | tauto | tauto]. intros ->.
        pose proof (slot_range bs sp HW _ _ ltac:(eassumption)). specialize (Hend _ _ ltac:(eassumption)). lia.
      * tauto.
Qed.
