(* ===== verification/Pal2.v ===== *)
(** * pal/old/PAL2.cc, pal/pal_old.cc: the schedule of the flash operations

    Every channel and every die has a time line of free slots
    ([FreeSlots.v]).  A command takes the channel for its two transfers and the
    die from the first to the end of the second; [TimelineScheduling] searches
    the earliest such place.  The counters of [PALStatistics] are floating point
    sums; a call that adds to them is a [StatCall] of a log. *)

From S2P Require Import Prelude Bitset Types PalAddr FreeSlots Latency.

(** [TimeSlot] *)
Record TimeSlot : Type := mkTimeSlot { StartTick : Z; EndTick : Z }.
Definition TimeSlot_make (startTick duration : Z) : TimeSlot :=
  mkTimeSlot startTick (u64 (u64 (startTick + duration) - 1)).

(** [Command] *)
Record Command : Type := mkCommand {
  arrived : Z; finished : Z; ppn : Z; operation : PAL_OPERATION; mergeSnapshot : bool; size : Z;
}.
Definition Command_make (t a : Z) (op : PAL_OPERATION) (s : Z) : Command := mkCommand t 0 a op false s.

(** The free time of a channel or a die. *)
Record Resource : Type := mkResource { slots : buckets; startPoint : Z }.

(** The ticks [AddLatency] computes and the energies in pJ. *)
Record Ticks : Type := mkTicks {
  TICK_DMA0WAIT : Z; TICK_DMA0 : Z; TICK_MEM : Z; TICK_DMA1WAIT : Z; TICK_DMA1 : Z;
  TICK_FULL : Z; TICK_PROC : Z;
  energy_dma0 : Z; energy_mem : Z; energy_dma1 : Z;
}.

Inductive StatCall : Type :=
  | AddLatency (CMD : Command) (CPD : CPDPBP) (dieIdx : Z) (DMA0 MEM DMA1 : TimeSlot) (confType : Z) (t : Ticks)
  | MergeSnapshot
  | UpdateCapacity.

(** [PAL2] with the statistics it writes. *)
Record Pal2 : Type := mkPal2 {
  Ch : list Resource;
  Di : list Resource;
  MergedTimeSlots : list TimeSlot;
  OpTimeStamp : list bucket;
  OpBusyTime : list Z;
  ExactBusyTime : Z;
  LastTick : Z;
  statLog : list StatCall;
}.

(** ** The constructor *)

(** [m[k] = new map]: an empty bucket per length. *)
Definition empty_buckets (keys : list Z) : buckets :=
  foldl (fun m k => map_insert k [] m) [] keys.

Definition channel_keys (SPDIV PGDIV : Z) : res (list Z) :=
  if u32 (PGDIV * SPDIV) =? 0 then Err UB
  else
    let cmd := 100000 / SPDIV in
    let xfer := 185000000 / u32 (PGDIV * SPDIV) in
    Ok [cmd; u32 (cmd + cmd); xfer; u32 (xfer + cmd); 1500000 / SPDIV].

Definition die_keys (t : NAND) (SPDIV : Z) : list Z :=
  let cmd := 100000 / SPDIV in
  match t with
  | NAND_SLC => [u32 (25000000 + cmd); u32 (300000000 + cmd); u32 (2000000000 + cmd)]
  | NAND_MLC => [u32 (40000000 + cmd); u32 (90000000 + cmd); u32 (500000000 + cmd); u32 (1300000000 + cmd);
                 3500000000 + cmd]
  | NAND_TLC => [u32 (58000000 + cmd); u32 (78000000 + cmd); u32 (107000000 + cmd); u32 (558000000 + cmd);
                 2201000000 + cmd; 5001000000 + cmd; 2274000000 + cmd]
  end.

(** [PAL2::PAL2]; [LastTick] is left uninitialised by the statistics. *)
Definition PAL2_make (p : PalParameter) (l : Latency) (dmaSpeed pageSize lastTick : Z) : res Pal2 :=
  if pageSize =? 0 then Err UB else
  let SPDIV := u32 (dmaSpeed / 50) in
  let PGDIV := u32 (16384 / pageSize) in
  if (SPDIV =? 0) || (PGDIV =? 0) then panic "SPDIV or PGDIV is 0" else
  ck ← channel_keys SPDIV PGDIV;
  let totalDie := u32 (u32 (channel p * package p) * die p) in
  Ok (mkPal2 (replicate (Z.to_nat (channel p)) (mkResource (empty_buckets ck) 0))
        (replicate (Z.to_nat totalDie) (mkResource (empty_buckets (die_keys (nand l) SPDIV)) 0))
        [] [[]; []; []] [0; 0; 0] 0 lastTick []).

(** ** Searching a resource *)

(** Every search of [TimelineScheduling] is followed by the same code: without
    a slot the command goes to the rightmost free time.  Result: the place, the
    start of its slot and whether the command was delayed. *)
Definition search (r : Resource) (tickLen tickFrom : Z) : res (Z * Z * bool) :=
  o ← FindFreeTime (slots r) tickLen tickFrom;
  Ok match o with
     | None => if tickFrom <? startPoint r then (startPoint r, startPoint r, true)
               else (tickFrom, startPoint r, false)
     | Some (s, conflicts) => (if conflicts : bool then s else tickFrom, s, conflicts)
     end.

(** The searches that only compare the slot. *)
Definition verify (r : Resource) (tickLen tickFrom : Z) : res (Z * bool) :=
  o ← FindFreeTime (slots r) tickLen tickFrom;
  Ok match o with None => (startPoint r, false) | Some sc => sc end.

Definition insert_slot (r : Resource) (tickLen tickFrom startTick : Z) (split : bool) : res Resource :=
  '(bs, sp) ← InsertFreeSlot (slots r) tickLen tickFrom startTick (startPoint r) split;
  Ok (mkResource bs sp).

Definition CONFLICT_DMA0 : Z := 1.
Definition CONFLICT_MEM : Z := 2.
Definition CONFLICT_DMA1 : Z := 4.
Definition conflict_with (c : Z) (k : Z) : bool := negb (Z.land c k =? 0).

(** A place: the start of the first transfer, its slot on the channel, the slot
    on the die. *)
Record Place : Type := mkPlace { DMA0tickFrom : Z; tickDMA0 : Z; tickMEM : Z }.

(** LOOP1: a place for the first transfer and the memory operation. *)
Fixpoint LOOP1 (fuel : nat) (ch di : Resource) (latDMA0 latMEM : Z) (from confType : Z) : res (Place * Z) :=
  match fuel with
  | O => Err NoReturn
  | S fuel =>
      '(from, tick0, conflicts) ← search ch latDMA0 from;
      let confType := if conflicts && negb (conflict_with confType CONFLICT_MEM)
                      then Z.lor confType CONFLICT_DMA0 else confType in
      '(memFrom, tickM, _) ← search di (u64 (latDMA0 + latMEM)) from;
      if tickM =? tick0 then Ok (mkPlace from tick0 tickM, confType)
      else
        '(vrfy, conflicts) ← verify ch latDMA0 memFrom;
        if vrfy =? tick0 then Ok (mkPlace memFrom tick0 tickM, confType)
        else
          let confType := if conflicts && negb (conflict_with confType CONFLICT_DMA0)
                          then Z.lor confType CONFLICT_MEM else confType in
          LOOP1 fuel ch di latDMA0 latMEM memFrom confType
  end.

(** Rounds of each loop: one per slot of the die and two more. *)
Definition rounds (di : Resource) : nat := S (S (length (mjoin (slots di).*2))).

(** A schedule: the place, the second transfer with its slot, the die time. *)
Record Plan : Type := mkPlan { place : Place; DMA1tickFrom : Z; tickDMA1 : Z; totalLat : Z }.

(** LOOP0: adds a place for the second transfer; the die has to be free until
    its end. *)
Fixpoint LOOP0 (fuel : nat) (ch di : Resource) (latDMA0 latMEM latDMA1 latANTI : Z) (from confType : Z)
    : res (Plan * Z) :=
  match fuel with
  | O => Err NoReturn
  | S fuel =>
      '(pl, confType) ← LOOP1 (rounds di) ch di latDMA0 latMEM from confType;
      '(from1, tick1, _) ← search ch (u64 (latDMA1 + latANTI)) (u64 (DMA0tickFrom pl + u64 (latDMA0 + latMEM)));
      let total := u64 (u64 (u64 (from1 + latDMA1) + latANTI) - DMA0tickFrom pl) in
      '(vrfy, _) ← verify di total (DMA0tickFrom pl);
      if vrfy =? tickMEM pl then Ok (mkPlan pl from1 tick1 total, confType)
      else LOOP0 fuel ch di latDMA0 latMEM latDMA1 latANTI vrfy (Z.lor confType CONFLICT_DMA1)
  end.

(** Step 5: taking the slots.  Result: the resources and the slots of the first
    transfer, the die and the second transfer. *)
Definition assign (ch di : Resource) (latDMA0 latDMA1 latANTI : Z) (pn : Plan)
    : res (Resource * Resource * TimeSlot * TimeSlot * TimeSlot) :=
  let from0 := DMA0tickFrom (place pn) in
  let tick0 := tickDMA0 (place pn) in
  let tickM := tickMEM (place pn) in
  ch ← insert_slot ch latDMA0 from0 tick0 false;
  '(from1, tick1, _) ← search ch (u64 (latDMA1 + latANTI)) (DMA1tickFrom pn);
  ch ← (if tick1 <? from1 then insert_slot ch latDMA1 (u64 (from1 + latANTI)) tick1 false
        else insert_slot ch latDMA1 (u64 (tick1 + latANTI)) tick1 false);
  di ← insert_slot di (totalLat pn) from0 tickM false;
  let tsDMA0 := TimeSlot_make (if from0 <? tick0 then tick0 else from0) latDMA0 in
  let tsDMA1 := TimeSlot_make (u64 ((if from1 <? tick1 then tick1 else from1) + latANTI)) latDMA1 in
  let tsMEM := TimeSlot_make (if from0 <? tickM then tickM else from0) (totalLat pn) in
  let tmpTick := if tick0 <? from0 then u64 (from0 + latDMA0) else u64 (tick0 + latDMA0) in
  '(from2, tick2, _) ← search ch (u64 (latANTI * 2)) tmpTick;
  ch ← (if from2 =? tmpTick then insert_slot ch (u64 (latANTI * 2)) from2 tick2 true else Ok ch);
  Ok (ch, di, tsDMA0, tsMEM, tsDMA1).

(** ** The busy time *)

(** The slot of a tick: inside it, or to the right of it. *)
Fixpoint find_pos (x : Z) (ms : list TimeSlot) : nat * bool :=
  match ms with
  | [] => (0%nat, false)
  | t :: ms' =>
      if (StartTick t <=? x) && (x <=? EndTick t) then (0%nat, true)
      else match ms' with
           | [] => (0%nat, false)
           | t' :: _ => if x <? StartTick t' then (0%nat, false)
                        else let '(i, inside) := find_pos x ms' in (S i, inside)
           end
  end.

(** The merge of the slot of a command; an iterator is a position, and erasing
    from behind [spos] towards an [epos] not behind it runs off the end. *)
Definition merge (ms : list TimeSlot) (ts : TimeSlot) : res (list TimeSlot) :=
  let own := TimeSlot_make (StartTick ts) (u64 (u64 (EndTick ts - StartTick ts) + 1)) in
  match ms with
  | [] => Ok [own]
  | _ =>
      let '(spos, s_in) := find_pos (StartTick ts) ms in
      let '(epos, e_in) := find_pos (EndTick ts) ms in
      if bool_decide (spos = epos) && s_in && e_in then Ok ms
      else
        let '(l, spos, epos) :=
          if negb s_in then
            (take (S spos) ms ++ own :: drop (S spos) ms, spos,
             if bool_decide (spos = epos) then S spos else if bool_decide (epos < spos)%nat then epos else S epos)
          else (TimeSlot_make (StartTick ts) 999 :: ms, 0%nat, S epos) in
        match l !! epos with
        | None => Err UB
        | Some te =>
            let l := alter (fun t => mkTimeSlot (StartTick t) (if e_in then EndTick te else EndTick ts)) spos l in
            if bool_decide (epos <= spos)%nat then Err UB
            else Ok (take (S spos) l ++ drop (S epos) l)
        end
  end.

(** One entry of [FlushOpTimeStamp]: the interval so far and the busy time. *)
Definition flush_stamp (st : Z * Z * Z) (e : Z * Z) : Z * Z * Z :=
  let '(start_tick, end_tick, busy) := st in
  if (start_tick =? no_tick) && (end_tick =? no_tick) then (e.1, e.2, busy)
  else if (e.1 <? end_tick) && (e.2 <=? end_tick) then st
  else if (e.1 <? end_tick) && (end_tick <? e.2) then (start_tick, e.2, busy)
  else if end_tick <=? e.1 then (e.1, e.2, u64 (busy + u64 (u64 (end_tick - start_tick) + 1)))
  else st.
Definition FlushOpTimeStamp (stamps : list bucket) (busy : list Z) : list bucket * list Z :=
  ((fun _ => []) <$> stamps,
   zip_with (fun b n => let '(s, e, n) := foldl flush_stamp (no_tick, no_tick, n) b in u64 (n + u64 (u64 (e - s) + 1)))
     stamps busy).

Definition oper_index (op : PAL_OPERATION) : nat :=
  match op with OPER_READ => 0 | OPER_WRITE => 1 | OPER_ERASE => 2 | OPER_NUM => 3 end.

(** [OpTimeStamp[op][start] = end], keeping the later end of an entry. *)
Definition stamp (start end_ : Z) (b : bucket) : bucket :=
  match map_find start b with
  | Some e => if e <? end_ then (fun kv : Z * Z => if kv.1 =? start then (kv.1, end_) else kv) <$> b else b
  | None => map_insert start end_ b
  end.

(** The ticks of [PALStatistics::AddLatency]. *)
Definition time_all (l : Latency) (cmd : Command) (a : CPDPBP) (t0 tM t1 : TimeSlot) : Ticks :=
  let d0 := GetLatency l (Page a) (operation cmd) BUSY_DMA0 in
  let dM := GetLatency l (Page a) (operation cmd) BUSY_MEM in
  let d1 := GetLatency l (Page a) (operation cmd) BUSY_DMA1 in
  mkTicks (u64 (StartTick t0 - arrived cmd)) d0 dM
    (u64 (u64 (u64 (EndTick tM - StartTick tM) + 1) - u64 (u64 (d0 + dM) + d1))) d1
    (u64 (u64 (EndTick t1 - arrived cmd) + 1)) (u64 (u64 (d0 + dM) + d1))
    (u64 (GetPower l (operation cmd) BUSY_DMA0 * d0) / 1000000000)
    (u64 (GetPower l (operation cmd) BUSY_MEM * dM) / 1000000000)
    (u64 (GetPower l (operation cmd) BUSY_DMA1 * d1) / 1000000000).

(** ** [TimelineScheduling] and [submit] *)

Definition TimelineScheduling (p : PalParameter) (l : Latency) (req : Command) (a : CPDPBP) (s : Pal2)
    : res (Command * Pal2) :=
  let dieIdx := CPDPBPtoDieIdx p a in
  ch ← get_raw (Ch s) (Channel a);
  di ← get_raw (Di s) dieIdx;
  let latDMA0 := GetLatency l (Page a) (operation req) BUSY_DMA0 in
  let latMEM := GetLatency l (Page a) (operation req) BUSY_MEM in
  let latDMA1 := GetLatency l (Page a) (operation req) BUSY_DMA1 in
  let latANTI := GetLatency l (Page a) OPER_READ BUSY_DMA0 in
  '(pn, confType) ← LOOP0 (rounds di) ch di latDMA0 latMEM latDMA1 latANTI (arrived req) 0;
  '(ch, di, t0, tM, t1) ← assign ch di latDMA0 latDMA1 latANTI pn;
  ms ← merge (MergedTimeSlots s) tM;
  let req := mkCommand (arrived req) (EndTick t1) (ppn req) (operation req) (mergeSnapshot req) (size req) in
  st ← get_raw (OpTimeStamp s) (Z.of_nat (oper_index (operation req)));
  let stamps := vset (OpTimeStamp s) (Z.of_nat (oper_index (operation req))) (stamp (StartTick t0) (EndTick t1) st) in
  let '(stamps, busy) := FlushOpTimeStamp stamps (OpBusyTime s) in
  let log := statLog s ++
    [AddLatency req a dieIdx t0 tM t1 confType (time_all l req a t0 tM t1)] ++
    (if bool_decide (operation req = OPER_ERASE) || mergeSnapshot req then [MergeSnapshot] else []) in
  Ok (req, mkPal2 (vset (Ch s) (Channel a) ch) (vset (Di s) dieIdx di) ms stamps busy (ExactBusyTime s)
             (if LastTick s <? EndTick t1 then EndTick t1 else LastTick s) log).

Definition submit := TimelineScheduling.

(** ** Flushing the past *)

(** [FlushATimeSlotBusyTime]: the slots left and the time they add. *)
Fixpoint FlushATimeSlotBusyTime (ms : list TimeSlot) (currentTick sum : Z) : list TimeSlot * Z :=
  match ms with
  | [] => ([], sum)
  | t :: ms' => if EndTick t <? currentTick
                then FlushATimeSlotBusyTime ms' currentTick (u64 (sum + u64 (u64 (EndTick t - StartTick t) + 1)))
                else (ms, sum)
  end.

Definition FlushTimeSlots (currentTick : Z) (s : Pal2) : Pal2 :=
  let '(ms, sum) := FlushATimeSlotBusyTime (MergedTimeSlots s) currentTick (ExactBusyTime s) in
  mkPal2 (Ch s) (Di s) ms (OpTimeStamp s) (OpBusyTime s) sum (LastTick s) (statLog s ++ [UpdateCapacity]).

Definition flush_resource (currentTick : Z) (r : Resource) : Resource :=
  mkResource (FlushAFreeSlot (slots r) currentTick) (startPoint r).
Definition FlushFreeSlots (currentTick : Z) (s : Pal2) : Pal2 :=
  FlushTimeSlots currentTick
    (mkPal2 (flush_resource currentTick <$> Ch s) (flush_resource currentTick <$> Di s) (MergedTimeSlots s)
       (OpTimeStamp s) (OpBusyTime s) (ExactBusyTime s) (LastTick s) (statLog s)).

(** ** [PALOLD] *)

Record PalOld : Type := mkPalOld { pal : Pal2; readCount : Z; writeCount : Z; eraseCount : Z }.

Definition FLUSH_PERIOD : Z := 100000000000.
Definition FLUSH_RANGE : Z := 10000000000.

(** [flushFunction]: the state and the tick of the next flush event. *)
Definition flushFunction (tick : Z) (s : PalOld) : PalOld * Z :=
  let now := u64 (tick - FLUSH_RANGE) in
  (mkPalOld (FlushTimeSlots now (FlushFreeSlots now (pal s))) (readCount s) (writeCount s) (eraseCount s),
   u64 (tick + FLUSH_PERIOD)).

Definition count (op : PAL_OPERATION) (s : PalOld) (p : Pal2) : PalOld :=
  match op with
  | OPER_READ => mkPalOld p (u64 (readCount s + 1)) (writeCount s) (eraseCount s)
  | OPER_WRITE => mkPalOld p (readCount s) (u64 (writeCount s + 1)) (eraseCount s)
  | _ => mkPalOld p (readCount s) (writeCount s) (u64 (eraseCount s + 1))
  end.

(** The bodies of [read], [write] and [erase] differ in the operation and the
    size: every flagged unit of the superpage is submitted with the same
    arrival, and the request finishes with the last of them. *)
Definition submit_all (c : PalConfig) (p : PalParameter) (l : Latency) (op : PAL_OPERATION) (sz : Z)
    (a0 : CPDPBP) (req : PalRequest) (tick : Z) (s : PalOld) : res (PalRequest * Z * PalOld) :=
  '(req, units) ← convertCPDPBP c p a0 req;
  '(cmd, fin, s) ← foldM (fun a '(cmd, fin, s) =>
      '(cmd, q) ← submit p l cmd a (pal s);
      Ok (cmd, Z.max fin (finished cmd), count op s q)) units (Command_make tick 0 op sz, tick, s);
  Ok (req, fin, s).

Definition read (c : PalConfig) (p : PalParameter) (l : Latency) (a0 : CPDPBP) (req : PalRequest) (tick : Z)
    (s : PalOld) : res (PalRequest * Z * PalOld) :=
  submit_all c p l OPER_READ (superPageSize p) a0 req tick s.
Definition write (c : PalConfig) (p : PalParameter) (l : Latency) (a0 : CPDPBP) (req : PalRequest) (tick : Z)
    (s : PalOld) : res (PalRequest * Z * PalOld) :=
  submit_all c p l OPER_WRITE (superPageSize p) a0 req tick s.
Definition erase (c : PalConfig) (p : PalParameter) (l : Latency) (a0 : CPDPBP) (req : PalRequest) (tick : Z)
    (s : PalOld) : res (PalRequest * Z * PalOld) :=
  submit_all c p l OPER_ERASE (u32 (superPageSize p * page p)) a0 req tick s.

(** The interface of [ocssd.cc]: one address. *)
Definition submit_one (p : PalParameter) (l : Latency) (op : PAL_OPERATION) (sz : Z) (a : CPDPBP) (tick : Z) (s : PalOld)
    : res (Z * PalOld) :=
  '(cmd, q) ← submit p l (Command_make tick 0 op sz) a (pal s);
  Ok (finished cmd, count op s q).
