(* ===== verification/Pal2Proof.v ===== *)
(** * The state of the flash timing model

    Its invariant ([ok]: time lines well formed, every logged reservation out of
    the free time, no two reservations of one resource overlapping), kept by
    every command and every flush. *)

From Stdlib Require Import Sorted.
From S2P Require Import Prelude Bitset Types PalAddr PalAddrProof Latency FreeSlots FreeSlotsProof Pal2.

(** ** The schedule of one command

    What a search finds, that both loops end, and the times a command takes
    from its channel and its die. *)

(** ** Resources *)

Record wfr (r : Resource) : Prop := {
  wr_slots : wfb (slots r) (startPoint r);
  wr_ne : slots r <> [];
  wr_point : 0 <= startPoint r;
}.

Definition free (r : Resource) (t : Z) : Prop := Free (slots r) (startPoint r) t.

(** The slot that a search for [tl] ticks from [from] on ends at: the earliest
    that is long enough, or the rightmost free time. *)
Definition At (r : Resource) (tl from st : Z) : Prop :=
  (exists e, Slot (slots r) st e /\ fits tl from st e /\
     forall s' e', Slot (slots r) s' e' -> fits tl from s' e' -> st <= s') \/
  (st = startPoint r /\ forall s e, Slot (slots r) s e -> ~ fits tl from s e).

(** [tl] ticks from [from] on are free within the slot at [st]. *)
Definition covered (r : Resource) (tl from st : Z) : Prop :=
  exists e, source (slots r) (startPoint r) tl from st e.

Section Resource.
  Context (r : Resource) (HR : wfr r).

Lemma slot_below s e : Slot (slots r) s e -> 0 <= s <= e /\ e < startPoint r.
Proof.
  intros Hs. split; [by apply (slot_range _ _ (wr_slots _ HR) s e) | by apply (wb_end _ _ (wr_slots _ HR) s)].
Qed.

Lemma At_le tl from st : At r tl from st -> 0 <= st <= startPoint r.
Proof.
  pose proof (wr_point _ HR). intros [(e & Hs & _)|[-> _]]; [|lia]. pose proof (slot_below _ _ Hs). lia.
Qed.

Lemma At_unique tl from st st' : At r tl from st -> At r tl from st' -> st = st'.
Proof.
  intros [(e & Hs & Hf & Hm)|[-> Hn]] [(e' & Hs' & Hf' & Hm')|[-> Hn']].
  - specialize (Hm _ _ Hs' Hf'). specialize (Hm' _ _ Hs Hf). lia.
  - by destruct (Hn' _ _ Hs).
  - by destruct (Hn _ _ Hs').
  - done.
Qed.

Lemma fits_mono tl tl' from from' s e : tl <= tl' -> from <= from' -> fits tl' from' s e -> fits tl from s e.
Proof. unfold fits. lia. Qed.

(** Searching again from the place found ends at the same slot. *)
Lemma At_again tl from st : At r tl from st -> At r tl (Z.max from st) st.
Proof.
  intros [(e & Hs & Hf & Hm)|[-> Hn]].
  - left. exists e. split_and!; [done | unfold fits in *; lia |]. intros s' e' Hs' Hf'. apply (Hm s' e' Hs').
    apply (fits_mono tl tl from (Z.max from st)); [lia | lia | done].
  - right. split; [done|]. intros s e Hs Hf. apply (Hn s e Hs). eapply fits_mono; [| |exact Hf]; lia.
Qed.

Lemma At_mono tl tl' from from' st st' : tl <= tl' -> from <= from' ->
  At r tl from st -> At r tl' from' st' -> st <= st'.
Proof.
  intros Htl Hfrom Hat [(e & Hs & Hf & _)|[-> _]]; [|by destruct (At_le _ _ _ Hat)].
  apply (fits_mono tl tl' from from') in Hf; [|done..].
  destruct Hat as [(e0 & Hs0 & Hf0 & Hm)|[-> Hn]]; [by apply (Hm st' e) | by destruct (Hn st' e)].
Qed.

(** A longer request that the slot under [from] does not cover ends later. *)
Lemma At_advance tl tl' from st st' : 1 <= tl -> tl <= tl' -> st <= from ->
  At r tl from st -> At r tl' from st' -> st' <> st -> from < st'.
Proof.
  intros Hpos Htl Hle Hat Hat' Hne. pose proof (At_mono tl tl' from from st st' Htl ltac:(lia) Hat Hat') as Hst.
  destruct Hat as [(e & Hs & Hf & _)|[-> _]].
  2:{ pose proof (At_le _ _ _ Hat'). lia. }
  unfold fits in Hf. destruct Hat' as [(e' & Hs' & _)|[-> _]]; [|pose proof (slot_below _ _ Hs); lia].
  pose proof (slot_below _ _ Hs').
  destruct (wb_disjoint _ _ (wr_slots _ HR) _ _ _ _ Hs Hs') as [[= -> ->] | [?|?]]; [done | lia | lia].
Qed.

Lemma At_covered tl from st : At r tl from st -> covered r tl (Z.max from st) st.
Proof.
  intros [(e & Hs & Hf & _)|[-> _]].
  - exists (Some e). split; [lia|]. split; [done|]. unfold fits in Hf. lia.
  - exists None. split; [lia | done].
Qed.

Lemma covered_At tl from st st' : 1 <= tl -> covered r tl from st -> At r tl from st' -> st' <= from.
Proof.
  intros Htl (e & Hle & He) Hat. destruct e as [e|]; [|subst; apply At_le in Hat; lia].
  destruct He as [Hs Hf]. destruct Hat as [(e0 & _ & _ & Hm)|[-> Hn]].
  - specialize (Hm st e Hs ltac:(unfold fits; lia)). lia.
  - destruct (Hn st e Hs). unfold fits. lia.
Qed.

Lemma covered_sub tl from st tl' from' : from <= from' -> from' + tl' <= from + tl -> covered r tl from st ->
  covered r tl' from' st.
Proof.
  intros H1 H2 (e & Hle & He). exists e. split; [lia|]. destruct e; [|done]. destruct He. split; [done | lia].
Qed.

Lemma covered_free tl from st t : covered r tl from st -> from <= t < from + tl -> free r t.
Proof.
  intros (e & Hle & He) Ht. destruct e as [e|].
  - right. exists st, e. destruct He. split; [done | lia].
  - left. subst. lia.
Qed.

(** ** The searches *)

Lemma earliest_At tl from o : earliest (Slot (slots r)) tl from o ->
  At r tl from (match o with Some (s, _) => s | None => startPoint r end).
Proof. destruct o as [[s c]|]; [intros ((e & ? & ?) & _ & ?); left; eauto | intros Hn; right; done]. Qed.

Context (tl from : Z) (Htl : 1 <= tl) (Hfrom : 0 <= from).
Context (Hsum : tl + from < 2 ^ 64) (Hsp : tl + startPoint r < 2 ^ 64).

Lemma search_ok : exists st c, search r tl from = Ok (Z.max from st, st, c) /\ At r tl from st.
Proof.
  destruct (FindFreeTime_spec (slots r) (startPoint r) tl from (wr_slots _ HR) (wr_ne _ HR) Htl Hfrom Hsum Hsp)
    as (o & Ho & He). pose proof (earliest_At tl from o He) as Hat. unfold search. rewrite Ho. simpl.
  destruct o as [[s c]|].
  - destruct He as (_ & -> & _). exists s, (from <? s). split; [|done]. do 3 f_equal.
    destruct (Z.ltb_spec from s); lia.
  - destruct (Z.ltb_spec from (startPoint r)) as [Hlt|Hge].
    + exists (startPoint r), true. split; [|done]. do 3 f_equal. lia.
    + exists (startPoint r), false. split; [|done]. do 3 f_equal. lia.
Qed.

Lemma verify_ok : exists st c, verify r tl from = Ok (st, c) /\ At r tl from st.
Proof.
  destruct (FindFreeTime_spec (slots r) (startPoint r) tl from (wr_slots _ HR) (wr_ne _ HR) Htl Hfrom Hsum Hsp)
    as (o & Ho & He). pose proof (earliest_At tl from o He) as Hat. unfold verify. rewrite Ho. simpl.
  destruct o as [[s c]|]; [exists s, c | exists (startPoint r), false]; done.
Qed.
End Resource.

(** ** Taking a slot *)

Definition no_later (r r' : Resource) : Prop :=
  same_keys (slots r) (slots r') /\ (forall t, free r' t -> free r t).

Lemma Free_insert bs sp bs' sp' len from start e split t : wfb bs sp -> 1 <= len -> source bs sp len from start e ->
  sp' = (if e then sp else from + len) ->
  (forall s' e', Slot bs' s' e' <-> (Slot bs s' e' /\ s' <> start) \/ leaves bs len from start e split s' e') ->
  Free bs' sp' t -> Free bs sp t /\ (split = false -> ~ from <= t < from + len).
Proof.
  intros HW Hlen [Hle Hsrc] -> Hs [Hsp|(s' & e' & Hs' & Ht)].
  - destruct e as [e|]; [destruct Hsrc as [Hse Hfit]; pose proof (wb_end _ _ HW _ _ Hse) | subst].
    + split; [by left | lia].
    + split; [left; lia | lia].
  - apply Hs in Hs' as [[Hs' Hne]|Hl].
    + split; [right; eauto|]. intros _. destruct e as [e|].
      * destruct Hsrc as [Hse Hfit].
        destruct (wb_disjoint _ _ HW _ _ _ _ Hse Hs') as [[= -> ->] | [?|?]]; [done | lia | lia].
      * subst. pose proof (wb_end _ _ HW _ _ Hs'). lia.
    + unfold leaves in Hl. destruct e as [e|].
      * destruct Hsrc as [Hse Hfit]. split; [right; exists start, e; split; [done|]; lia | intuition (try congruence; lia)].
      * subst. split; [left; lia | intuition (try congruence; lia)].
Qed.

Section Insert.
  Context (r : Resource) (HR : wfr r).

Lemma insert_ok len from st split : 1 <= len -> 0 <= from -> from + len < 2 ^ 64 -> startPoint r < 2 ^ 64 ->
  covered r len from st ->
  exists r', insert_slot r len from st split = Ok r' /\ wfr r' /\ no_later r r' /\
    startPoint r <= startPoint r' <= Z.max (startPoint r) (from + len) /\
    (split = false -> forall t, free r' t -> ~ from <= t < from + len) /\
    forall l a st', covered r l a st' -> from + len <= a -> 1 <= l -> reachable (slots r) (a + l - (from + len)) ->
      exists st'', covered r' l a st''.
Proof.
  intros Hlen Hfrom Hsum Hspb (e & Hsrc). pose proof (wr_slots _ HR) as HW. pose proof (wr_point _ HR) as Hp.
  destruct (InsertFreeSlot_spec (slots r) (startPoint r) len from st e split HW Hlen Hfrom Hp Hsum Hspb Hsrc)
    as (bs' & sp' & Hi & HW' & Hk & Hsp' & Hs). unfold insert_slot. rewrite Hi. simpl.
  assert (startPoint r <= sp' <= Z.max (startPoint r) (from + len)) as Hr.
  { destruct Hsrc as [Hle Hsrc]. destruct e; [lia|]. subst. lia. }
  pose proof (fun t => Free_insert _ _ bs' sp' len from st e split t HW Hlen Hsrc Hsp' Hs) as Hfree.
  exists (mkResource bs' sp'). split; [done|]. split_and!.
  - split; simpl; [done | | lia]. intros ->. apply (wr_ne _ HR). unfold same_keys in Hk. simpl in Hk.
    by destruct (slots r).
  - split; [done|]. intros t Ht. by apply (Hfree t).
  - simpl. lia.
  - simpl. lia.
  - intros Hsplit t Ht. by apply (Hfree t Ht).
  - intros l a st' (ea & Hla & Hea) Hge Hl Hreach. simpl. destruct ea as [ea|].
    + destruct Hea as [Hse Hfit]. destruct (decide (st' = st)) as [->|Hne].
      * destruct Hsrc as [Hle Hsrc]. destruct e as [e|]; [|subst; pose proof (slot_below r HR _ _ Hse); lia].
        destruct Hsrc as [Hs0 _]. pose proof (slot_unique _ _ _ _ _ HW Hs0 Hse) as ->.
        exists (from + len), (Some ea). split; [lia|]. split; [|lia]. simpl. apply Hs. right. right. right.
        split_and!; [lia | done | done |]. destruct Hreach as (k & b & Hkb & Hk0). exists k, b. split; [done | lia].
      * exists st', (Some ea). split; [done|]. simpl. split; [|done]. apply Hs. left. done.
    + subst st'. exists sp', None. split; [|done]. lia.
Qed.
End Insert.

(** ** The loops *)

(** The starts a search on the die can end at, and how many are still ahead. *)
Definition starts (r : Resource) : list Z := startPoint r :: (mjoin (slots r).*2).*1.
Definition ahead (r : Resource) (from : Z) : nat := length (filter (fun s => from < s) (starts r)).

Lemma starts_rounds r from : (ahead r from < rounds r)%nat.
Proof.
  unfold ahead, rounds. pose proof (length_filter (fun s => from < s) (starts r)) as H.
  assert (length (starts r) = S (length (mjoin (slots r).*2))) as Hl by (unfold starts; simpl; by rewrite length_fmap).
  lia.
Qed.

Lemma At_start r tl from st : At r tl from st -> st ∈ starts r.
Proof.
  intros [(e & (k & b & Hk & Hb) & _)|[-> _]]; [right | left].
  apply (list_elem_of_fmap_2 fst _ (st, e)). apply list_elem_of_join. exists b. split; [done|].
  by apply (list_elem_of_fmap_2 snd _ (k, b)).
Qed.

Lemma filter_shrinks (P Q : Z -> Prop) `{forall x, Decision (P x), forall x, Decision (Q x)} (l : list Z) :
  (forall x, Q x -> P x) ->
  (length (filter Q l) <= length (filter P l))%nat /\
  (forall y, y ∈ l -> P y -> ~ Q y -> (length (filter Q l) < length (filter P l))%nat).
Proof.
  intros HQP. induction l as [|x l [IH1 IH2]]; [split; [done | by intros y ?%not_elem_of_nil]|].
  rewrite !filter_cons. split.
  - destruct (decide (Q x)) as [HQ|]; [rewrite decide_True by auto; simpl; lia|].
    destruct (decide (P x)); simpl; lia.
  - intros y [->|Hy]%elem_of_cons HP HnQ.
    + rewrite decide_False, decide_True by done. simpl. lia.
    + specialize (IH2 y Hy HP HnQ). destruct (decide (Q x)) as [HQ|]; [rewrite decide_True by auto; simpl; lia|].
      destruct (decide (P x)); simpl; lia.
Qed.

Lemma ahead_mono r from from' : from <= from' -> (ahead r from' <= ahead r from)%nat.
Proof. intros Hle. apply filter_shrinks. intros x. lia. Qed.

Lemma ahead_lt r from st : st ∈ starts r -> from < st -> (ahead r st < ahead r from)%nat.
Proof.
  intros Hin Hlt. apply (filter_shrinks (fun s => from < s) (fun s => st < s)) with (y := st); [intros x; lia | done | done | lia].
Qed.

Section Loops.
  Context (ch di : Resource) (HC : wfr ch) (HD : wfr di).
  Context (lat0 latM lat1 anti H L : Z).
  Context (Hpos : 1 <= lat0 /\ 1 <= latM /\ 1 <= lat1 /\ 1 <= anti) (HL : lat0 + latM + lat1 + anti * 2 <= L).
  Context (Hch : startPoint ch <= H) (Hdi : startPoint di <= H) (Hbound : 2 * H + 2 * L < 2 ^ 64).

(** A place found by LOOP1. *)
Record placed (from : Z) (pl : Place) : Prop := {
  pd_from : from <= DMA0tickFrom pl <= H;
  pd_ch : At ch lat0 (DMA0tickFrom pl) (tickDMA0 pl);
  pd_ch_le : tickDMA0 pl <= DMA0tickFrom pl;
  pd_di : At di (lat0 + latM) (DMA0tickFrom pl) (tickMEM pl);
  pd_di_le : tickMEM pl <= DMA0tickFrom pl;
}.

Lemma placed_later from from' pl : from <= from' -> placed from' pl -> placed from pl.
Proof. intros Hle [? ? ? ? ?]. split; try done. lia. Qed.

Lemma LOOP1_spec fuel from conf : (ahead di from < fuel)%nat -> 0 <= from <= H ->
  exists pl conf', LOOP1 fuel ch di lat0 latM from conf = Ok (pl, conf') /\ placed from pl.
Proof.
  revert from conf. induction fuel as [|fuel IH]; intros from conf Hfuel Hfrom; [lia|]. simpl.
  pose proof (wr_point _ HC). pose proof (wr_point _ HD).
  destruct (search_ok ch HC lat0 from) as (st & c & Hs & Hat); [lia..|]. rewrite Hs. simpl.
  pose proof (At_le ch HC _ _ _ Hat) as Hst. pose proof (At_again ch _ _ _ Hat) as Hat'. set (f := Z.max from st) in *.
  rewrite (u64_small (lat0 + latM)) by lia.
  destruct (search_ok di HD (lat0 + latM) f) as (tM & cM & HsM & HatM); [lia..|]. rewrite HsM. simpl.
  pose proof (At_le di HD _ _ _ HatM) as HtM. pose proof (At_again di _ _ _ HatM) as HatM'. set (m := Z.max f tM) in *.
  destruct (Z.eqb_spec tM st) as [->|Hne].
  { eexists _, _. split; [done|]. replace m with f in HatM' by lia. split; simpl; (done || lia). }
  destruct (verify_ok ch HC lat0 m) as (v & cv & Hv & Hatv); [lia..|]. rewrite Hv. simpl.
  destruct (Z.eqb_spec v st) as [->|Hne'].
  { eexists _, _. split; [done|]. split; simpl; (done || lia). }
  assert (f < tM) as Hlt.
  { destruct (Z.le_gt_cases tM f) as [Hle|]; [|lia]. destruct Hne'. replace m with f in Hatv by lia.
    apply (At_unique ch _ _ _ _ Hatv Hat'). }
  replace m with tM in * by lia. edestruct (IH tM) as (pl & conf' & HI & Hpl); [| |].
  - pose proof (ahead_lt di from tM (At_start _ _ _ _ HatM) ltac:(lia)). lia.
  - lia.
  - rewrite HI. eexists _, _. split; [done|]. apply (placed_later from tM); [lia | done].
Qed.

(** A complete schedule. *)
Record planned (from : Z) (pn : Plan) : Prop := {
  pn_placed : placed from (place pn);
  pn_dma1 : DMA1tickFrom pn = Z.max (DMA0tickFrom (place pn) + (lat0 + latM)) (tickDMA1 pn);
  pn_ch : At ch (lat1 + anti) (DMA0tickFrom (place pn) + (lat0 + latM)) (tickDMA1 pn);
  pn_total : totalLat pn = DMA1tickFrom pn + lat1 + anti - DMA0tickFrom (place pn);
  pn_di : At di (totalLat pn) (DMA0tickFrom (place pn)) (tickMEM (place pn));
}.

Lemma LOOP0_spec fuel from conf : (ahead di from < fuel)%nat -> 0 <= from <= H ->
  exists pn conf', LOOP0 fuel ch di lat0 latM lat1 anti from conf = Ok (pn, conf') /\ planned from pn.
Proof.
  revert from conf. induction fuel as [|fuel IH]; intros from conf Hfuel Hfrom; [lia|]. cbn [LOOP0].
  pose proof (wr_point _ HC). pose proof (wr_point _ HD).
  destruct (LOOP1_spec (rounds di) from conf (starts_rounds di from) Hfrom) as (pl & conf' & Hl & Hpl). rewrite Hl. simpl.
  pose proof Hpl as [Hf Hat0 Hle0 HatM HleM]. set (d := DMA0tickFrom pl) in *.
  rewrite (u64_small (lat0 + latM)), (u64_small (lat1 + anti)), (u64_small (d + (lat0 + latM))) by lia.
  destruct (search_ok ch HC (lat1 + anti) (d + (lat0 + latM))) as (t1 & c & Hs & Hat1); [lia..|]. rewrite Hs. simpl.
  pose proof (At_le ch HC _ _ _ Hat1) as Ht1. set (a := Z.max (d + (lat0 + latM)) t1) in *.
  rewrite (u64_small (a + lat1)), (u64_small (a + lat1 + anti)), (u64_small (a + lat1 + anti - d)) by lia.
  set (total := a + lat1 + anti - d) in *.
  destruct (verify_ok di HD total d) as (v & cv & Hv & Hatv); [lia..|]. rewrite Hv. simpl.
  destruct (Z.eqb_spec v (tickMEM pl)) as [->|Hne].
  { eexists _, _. split; [done|]. by split. }
  assert (d < v) as Hlt.
  { apply (At_advance di HD (lat0 + latM) total d (tickMEM pl)); [lia | lia | done..]. }
  pose proof (At_le di HD _ _ _ Hatv) as Hvb. destruct (IH v (Z.lor conf' CONFLICT_DMA1)) as (pn & conf'' & HI & [Hp ? ? ? ?]).
  - pose proof (ahead_lt di from v (At_start _ _ _ _ Hatv) ltac:(lia)). lia.
  - lia.
  - rewrite HI. eexists _, _. split; [done|]. split; try done. apply (placed_later from v); [lia | done].
Qed.
End Loops.

(** ** Taking the times of a schedule *)

Lemma reachable_mono bs n n' : reachable bs n -> n <= n' -> reachable bs n'.
Proof. intros (k & b & Hin & Hle) Hn. exists k, b. split; [done | lia]. Qed.

Lemma TimeSlot_make_small s d : 0 <= s -> 1 <= d -> s + d < 2 ^ 64 -> TimeSlot_make s d = mkTimeSlot s (s + d - 1).
Proof. intros. unfold TimeSlot_make. rewrite (u64_small (s + d)), u64_small by lia. done. Qed.

Lemma no_later_trans r1 r2 r3 : no_later r1 r2 -> no_later r2 r3 -> no_later r1 r3.
Proof. intros [K1 F1] [K2 F2]. split; [unfold same_keys in *; congruence | auto]. Qed.

Definition inside (ts : TimeSlot) (t : Z) : Prop := StartTick ts <= t <= EndTick ts.

Section Assign.
  Context (ch di : Resource) (HC : wfr ch) (HD : wfr di).
  Context (lat0 latM lat1 anti H L : Z).
  Context (Hpos : 1 <= lat0 /\ 1 <= latM /\ 1 <= lat1 /\ 1 <= anti) (HL : lat0 + latM + lat1 + anti * 2 <= L).
  Context (Hch : startPoint ch <= H) (Hdi : startPoint di <= H) (Hbound : 2 * H + 2 * L < 2 ^ 64).
  Context (Hreach : reachable (slots ch) (latM + lat1 + anti)).

(** The last search: the ticks after the first transfer that a later command
    may use are filed as a slot of their own. *)
Lemma anticipate r from : wfr r -> startPoint r <= H + L -> 0 <= from -> from + anti * 2 <= H + L ->
  exists r', ('(from2, tick2, _) ← search r (u64 (anti * 2)) from;
              if from2 =? from then insert_slot r (u64 (anti * 2)) from2 tick2 true else Ok r) = Ok r' /\
    wfr r' /\ no_later r r' /\ startPoint r' <= H + L.
Proof.
  intros HW Hp Hf Hs. pose proof (wr_point _ HW). rewrite (u64_small (anti * 2)) by lia.
  destruct (search_ok r HW (anti * 2) from) as (st & c & Hr & Hat); [lia..|]. rewrite Hr. simpl.
  destruct (Z.eqb_spec (Z.max from st) from) as [Heq|]; [|exists r; split_and!; done].
  pose proof (At_covered r _ _ _ Hat) as Hcov. rewrite Heq in *.
  destruct (insert_ok r HW (anti * 2) from st true) as (r' & Hi & HW' & Hn & Hp' & _); [lia..|done|].
  exists r'. split_and!; [done.. | lia].
Qed.

Lemma assign_spec from pn : planned ch di lat0 latM lat1 anti H from pn -> 0 <= from ->
  exists ch' di', let t0 := DMA0tickFrom (place pn) in let t1 := DMA1tickFrom pn + anti in
    assign ch di lat0 lat1 anti pn =
      Ok (ch', di', mkTimeSlot t0 (t0 + lat0 - 1), mkTimeSlot t0 (t1 + lat1 - 1), mkTimeSlot t1 (t1 + lat1 - 1)) /\
    from <= t0 <= H /\ t0 + lat0 + latM + anti <= t1 /\ t1 + lat1 <= H + L /\
    wfr ch' /\ no_later ch ch' /\ startPoint ch' <= H + L /\
    wfr di' /\ no_later di di' /\ startPoint di' <= H + L /\
    (forall t, inside (mkTimeSlot t0 (t0 + lat0 - 1)) t \/ inside (mkTimeSlot t1 (t1 + lat1 - 1)) t ->
       free ch t /\ ~ free ch' t) /\
    (forall t, inside (mkTimeSlot t0 (t1 + lat1 - 1)) t -> free di t /\ ~ free di' t).
Proof.
  intros [[Hf Hat0 Hle0 HatM HleM] Ha Hat1 Ht Hatd] Hfrom. simpl. unfold assign.
  pose proof (wr_point _ HC). pose proof (wr_point _ HD).
  pose proof (At_le ch HC _ _ _ Hat1) as Ht1. pose proof (At_covered ch _ _ _ Hat1) as Hcov1.
  rewrite <- Ha in Hcov1. pose proof (At_covered ch _ _ _ Hat0) as Hcov0. pose proof (At_covered di _ _ _ Hatd) as Hcovd.
  rewrite Z.max_l in Hcov0, Hcovd by lia. destruct pn as [[d st0 stM] a st1 total]. simpl in *. subst total.
  destruct (insert_ok ch HC lat0 d st0 false) as (c1 & Hi1 & HW1 & Hn1 & Hp1 & Hx1 & Hk1); [lia..|done|].
  rewrite Hi1. cbn [mbind res_bind].
  destruct (Hk1 (lat1 + anti) a st1 Hcov1 ltac:(lia) ltac:(lia)) as (st1' & Hcov1').
  { apply (reachable_mono _ (latM + lat1 + anti)); [done | lia]. }
  rewrite (u64_small (lat1 + anti)) by lia.
  destruct (search_ok c1 HW1 (lat1 + anti) a) as (s2 & x2 & Hs2 & Hat2); [lia..|]. rewrite Hs2. cbn [mbind res_bind].
  pose proof (covered_At c1 HW1 (lat1 + anti) a st1' s2 ltac:(lia) Hcov1' Hat2) as Hle2. rewrite Z.max_l by done.
  pose proof (At_covered c1 _ _ _ Hat2) as Hcov2. rewrite Z.max_l in Hcov2 by done.
  assert ((if s2 <? a then insert_slot c1 lat1 (u64 (a + anti)) s2 false
           else insert_slot c1 lat1 (u64 (s2 + anti)) s2 false) = insert_slot c1 lat1 (a + anti) s2 false) as ->.
  { destruct (Z.ltb_spec s2 a); [|replace s2 with a by lia]; rewrite u64_small by lia; done. }
  destruct (insert_ok c1 HW1 lat1 (a + anti) s2 false) as (c2 & Hi2 & HW2 & Hn2 & Hp2 & Hx2 & _); [lia..| |].
  { apply (covered_sub c1 (lat1 + anti) a); [lia | lia | done]. }
  rewrite Hi2. cbn [mbind res_bind].
  destruct (insert_ok di HD (a + lat1 + anti - d) d stM false) as (d1 & Hi3 & HWd & Hnd & Hpd & Hxd & _); [lia..|done|].
  rewrite Hi3. cbn [mbind res_bind].
  rewrite (proj2 (Z.ltb_ge d st0)), (proj2 (Z.ltb_ge d stM)), (proj2 (Z.ltb_ge a s2)) by lia.
  assert ((if st0 <? d then u64 (d + lat0) else u64 (st0 + lat0)) = d + lat0) as ->.
  { destruct (Z.ltb_spec st0 d); [|replace st0 with d by lia]; rewrite u64_small by lia; done. }
  destruct (anticipate c2 (d + lat0)) as (c3 & Hi4 & HW4 & Hn4 & Hp4); [done | lia..|].
  revert Hi4. destruct (search c2 (u64 (anti * 2)) (d + lat0)) as [[[f2 s3] x3]|]; [|done]. cbn [mbind res_bind].
  intros Hi4. rewrite Hi4. cbn [mbind res_bind]. rewrite (u64_small (a + anti)) by lia.
  rewrite !TimeSlot_make_small by lia. exists c3, d1. replace (d + (a + lat1 + anti - d) - 1) with (a + anti + lat1 - 1) by lia.
  pose proof (no_later_trans _ _ _ Hn1 Hn2) as Hn12. pose proof (no_later_trans _ _ _ Hn12 Hn4) as Hn14.
  split_and!; try done; try lia; unfold inside; simpl.
  - intros t Hin. split.
    + destruct Hin; [apply (covered_free ch lat0 d st0) | apply (covered_free ch (lat1 + anti) a st1)]; (done || lia).
    + intros Hfr. destruct Hn4 as [_ Hf4]. specialize (Hf4 t Hfr). destruct Hin; [|by apply (Hx2 eq_refl t Hf4); lia].
      destruct Hn2 as [_ Hf2]. apply (Hx1 eq_refl t (Hf2 t Hf4)). lia.
  - intros t Hin. split; [apply (covered_free di (a + lat1 + anti - d) d stM); (done || lia)|].
    intros Hfr. apply (Hxd eq_refl t Hfr). lia.
Qed.
End Assign.

(** ** Merged slots *)

(** The list of merged slots never grows past one slot. *)
Lemma merge_single ms ts : (length ms <= 1)%nat -> StartTick ts <= EndTick ts ->
  exists ms', merge ms ts = Ok ms' /\ length ms' = 1%nat.
Proof.
  intros Hms Hts. destruct ms as [|t [|]]; [by eexists | | simpl in Hms; lia]. unfold merge. simpl find_pos.
  destruct ((StartTick t <=? StartTick ts) && (StartTick ts <=? EndTick t)) eqn:Hs;
    destruct ((StartTick t <=? EndTick ts) && (EndTick ts <=? EndTick t)) eqn:He; by eexists.
Qed.

(** A slot after an idle time swallows it, and one that starts inside the last
    slot drops the time before its start. *)
Example merge_counts_idle : merge [mkTimeSlot 0 9] (mkTimeSlot 20 29) = Ok [mkTimeSlot 0 29].
Proof. reflexivity. Qed.
Example merge_drops_busy : merge [mkTimeSlot 0 9] (mkTimeSlot 5 14) = Ok [mkTimeSlot 5 14].
Proof. reflexivity. Qed.
Example merge_before : merge [mkTimeSlot 50 59] (mkTimeSlot 0 9) = Ok [mkTimeSlot 50 9].
Proof. reflexivity. Qed.
Example idle_operations_count : FlushOpTimeStamp [[(0, 9)]; []; []] [0; 0; 0] = ([[]; []; []], [10; 1; 1]).
Proof. reflexivity. Qed.

(** ** Flushing *)

Lemma drop_past_suffix now b : exists l, b = l ++ drop_past now b /\ forall s e, (s, e) ∈ l -> e < now.
Proof.
  induction b as [|[s e] b (l & Hl & Hlt)]; [by exists []; split; [done | intros ? ? ?%not_elem_of_nil]|]. simpl.
  destruct (Z.ltb_spec e now) as [H|H]; [|by exists []; split; [done | intros ? ? ?%not_elem_of_nil]].
  exists ((s, e) :: l). split; [by rewrite Hl at 1|]. intros s' e' [[= -> ->]|?]%elem_of_cons; [done | by eapply Hlt].
Qed.

Lemma drop_past_elem now b x : x ∈ drop_past now b -> x ∈ b.
Proof. destruct (drop_past_suffix now b) as (l & Hl & _). intros Hx. rewrite Hl. apply elem_of_app. by right. Qed.

Lemma drop_past_sorted now b : StronglySorted by_key b -> StronglySorted by_key (drop_past now b).
Proof.
  destruct (drop_past_suffix now b) as (l & Hl & _). intros Hs. rewrite Hl in Hs. by apply sorted_app in Hs as (_ & ? & _).
Qed.

Lemma FlushAFreeSlot_elem now bs k b' :
  (k, b') ∈ FlushAFreeSlot bs now <-> exists b, b' = drop_past now b /\ (k, b) ∈ bs.
Proof.
  unfold FlushAFreeSlot. split.
  - intros ([k0 b] & [= -> ->] & Hin)%list_elem_of_fmap. by exists b.
  - intros (b & -> & Hin). apply list_elem_of_fmap. by exists (k, b).
Qed.

Lemma FlushAFreeSlot_Slot now bs s e : Slot (FlushAFreeSlot bs now) s e -> Slot bs s e.
Proof.
  intros (k & b' & Hin & Hb). apply FlushAFreeSlot_elem in Hin as (b & -> & Hin). exists k, b.
  split; [done | by apply drop_past_elem in Hb].
Qed.

Lemma FlushAFreeSlot_keys now bs : same_keys bs (FlushAFreeSlot bs now).
Proof. unfold same_keys, FlushAFreeSlot. rewrite <- list_fmap_compose. by apply list_fmap_ext. Qed.

Lemma sorted_keys (l1 l2 : buckets) : l1.*1 = l2.*1 -> StronglySorted by_key l1 -> StronglySorted by_key l2.
Proof.
  revert l2. induction l1 as [|x l1 IH]; intros [|y l2] Hk Hs; try discriminate Hk; [constructor|].
  injection Hk as Hxy Hk. change (l1.*1 = l2.*1) in Hk. apply StronglySorted_inv in Hs as [Hs Hf]. constructor; [by apply IH|].
  rewrite Forall_forall in Hf |- *. intros z Hz. apply (list_elem_of_fmap_2 fst) in Hz. rewrite <- Hk in Hz.
  apply list_elem_of_fmap in Hz as (z' & Hzz & Hz'). specialize (Hf z' Hz'). unfold by_key in *. congruence.
Qed.

Lemma flush_wfb now bs sp : wfb bs sp -> wfb (FlushAFreeSlot bs now) sp.
Proof.
  intros [H1 H2 H3 H4 H5 H6]. split.
  - eapply sorted_keys; [|exact H1]. symmetry. apply FlushAFreeSlot_keys.
  - intros k b' (b & -> & Hin)%FlushAFreeSlot_elem. apply drop_past_sorted. by apply (H2 k).
  - intros k b' s e (b & -> & Hin)%FlushAFreeSlot_elem Hse%drop_past_elem. by apply (H3 k b).
  - intros k b' s e k2 b2 (b & -> & Hin)%FlushAFreeSlot_elem Hse%drop_past_elem (b3 & -> & Hin3)%FlushAFreeSlot_elem Hlt.
    by apply (H4 k b s e k2 b3).
  - intros s e Hs%FlushAFreeSlot_Slot. by apply (H5 s).
  - intros s e s' e' Hs%FlushAFreeSlot_Slot Hs'%FlushAFreeSlot_Slot. by apply H6.
Qed.

Lemma flush_wfr now r : wfr r -> wfr (flush_resource now r) /\ no_later r (flush_resource now r).
Proof.
  intros [HW Hne Hp]. split.
  - split; simpl; [by apply flush_wfb | | done]. intros H. apply Hne. unfold FlushAFreeSlot in H.
    by apply fmap_nil_inv in H.
  - split; [apply FlushAFreeSlot_keys|]. intros t [?|(s & e & Hs%FlushAFreeSlot_Slot & ?)]; [by left | right; eauto].
Qed.

(** Only past free time is dropped. *)
Lemma flush_future now r t : wfr r -> free r t -> now <= t -> free (flush_resource now r) t.
Proof.
  intros HR [?|(s & e & (k & b & Hk & Hb) & Ht)] Hnow; [by left | right]. exists s, e. split; [|done].
  exists k, (drop_past now b). split; [apply FlushAFreeSlot_elem; eauto|].
  destruct (drop_past_suffix now b) as (l & Hl & Hlt). rewrite Hl in Hb. apply elem_of_app in Hb as [Hb|]; [|done].
  specialize (Hlt _ _ Hb). lia.
Qed.

(** ** Reservations *)

(** The resources a logged command kept busy at a tick. *)
Definition on_channel (c : StatCall) (i t : Z) : Prop :=
  match c with AddLatency _ a _ t0 _ t1 _ _ => Channel a = i /\ (inside t0 t \/ inside t1 t) | _ => False end.
Definition on_die (c : StatCall) (i t : Z) : Prop :=
  match c with AddLatency _ _ d _ tM _ _ _ => d = i /\ inside tM t | _ => False end.

Definition exclusive (busy : StatCall -> Z -> Z -> Prop) (log : list StatCall) : Prop :=
  forall j k x y i t, log !! j = Some x -> log !! k = Some y -> busy x i t -> busy y i t -> j = k.

Definition freeAt (rs : list Resource) (i t : Z) : Prop := exists r, vget rs i = Some r /\ free r t.

(** Reservations are not free, and none overlaps another. *)
Record booked (busy : StatCall -> Z -> Z -> Prop) (rs : list Resource) (log : list StatCall) : Prop := {
  bk_taken : forall x i t, x ∈ log -> busy x i t -> ~ freeAt rs i t;
  bk_excl : exclusive busy log;
}.

Lemma booked_quiet busy rs log x : (forall i t, ~ busy x i t) -> booked busy rs log -> booked busy rs (log ++ [x]).
Proof.
  intros Hx [Ht He]. split.
  - intros y i t [?| ->%list_elem_of_singleton]%elem_of_app Hb; [by eapply Ht | by apply Hx in Hb].
  - intros j k y z i t Hj Hk Hy Hz. apply lookup_snoc_Some in Hj as [[Hjl Hj]|[-> <-]]; [|by apply Hx in Hy].
    apply lookup_snoc_Some in Hk as [[Hkl Hk]|[-> <-]]; [|by apply Hx in Hz]. by eapply He.
Qed.

Lemma booked_less busy rs rs' log : (forall i t, freeAt rs' i t -> freeAt rs i t) -> booked busy rs log -> booked busy rs' log.
Proof. intros Hle [Ht He]. split; [|done]. intros x i t Hx Hb Hf. by eapply Ht, Hle. Qed.

Lemma booked_add busy rs rs' log x : (forall i t, freeAt rs' i t -> freeAt rs i t) ->
  (forall i t, busy x i t -> freeAt rs i t /\ ~ freeAt rs' i t) ->
  booked busy rs log -> booked busy rs' (log ++ [x]).
Proof.
  intros Hle Hx [Ht He]. split.
  - intros y i t [Hy| ->%list_elem_of_singleton]%elem_of_app Hb; [|by apply Hx]. intros Hf. by eapply Ht, Hle.
  - intros j k y z i t Hj Hk Hy Hz. apply lookup_snoc_Some in Hj as [[Hjl Hj]|[-> <-]], Hk as [[Hkl Hk]|[-> <-]];
      [by eapply He | | | done].
    + exfalso. destruct (Hx i t Hz) as [Hf _]. by apply (Ht y i t); [eapply list_elem_of_lookup_2 | |].
    + exfalso. destruct (Hx i t Hy) as [Hf _]. by apply (Ht z i t); [eapply list_elem_of_lookup_2 | |].
Qed.

(** ** The state *)

(** Latencies: positive, and one command takes at most [L] ticks. *)
Record timed (l : Latency) (L : Z) : Prop := {
  tm_pos : forall pg op, op <> OPER_NUM ->
    1 <= GetLatency l pg op BUSY_DMA0 /\ 1 <= GetLatency l pg op BUSY_MEM /\ 1 <= GetLatency l pg op BUSY_DMA1;
  tm_sum : forall pg op, op <> OPER_NUM ->
    GetLatency l pg op BUSY_DMA0 + GetLatency l pg op BUSY_MEM + GetLatency l pg op BUSY_DMA1 +
    GetLatency l pg OPER_READ BUSY_DMA0 * 2 <= L;
}.

(** The ticks between the transfers of a command reach a bucket. *)
Definition gap_reachable (l : Latency) (r : Resource) : Prop := forall pg op, op <> OPER_NUM ->
  reachable (slots r)
    (GetLatency l pg op BUSY_MEM + GetLatency l pg op BUSY_DMA1 + GetLatency l pg OPER_READ BUSY_DMA0).

Section State.
  Context (p : PalParameter) (l : Latency).

Record ok (T : Z) (s : Pal2) : Prop := {
  ok_ch_len : vlen (Ch s) = channel p;
  ok_di_len : vlen (Di s) = channel p * (die p * package p);
  ok_ch : forall r, r ∈ Ch s -> wfr r /\ startPoint r <= T /\ gap_reachable l r;
  ok_di : forall r, r ∈ Di s -> wfr r /\ startPoint r <= T;
  ok_merged : (length (MergedTimeSlots s) <= 1)%nat;
  ok_stamps : OpTimeStamp s = [[]; []; []];
  ok_busy : length (OpBusyTime s) = 3%nat;
  ok_channels : booked on_channel (Ch s) (statLog s);
  ok_dies : booked on_die (Di s) (statLog s);
}.

Lemma gap_keys r r' : same_keys (slots r) (slots r') -> gap_reachable l r -> gap_reachable l r'.
Proof. intros Hk Hg pg op Hop. apply (reachable_keys (slots r)); [done | by apply Hg]. Qed.

Lemma vset_elem {A} (v : list A) i x y : y ∈ vset v i x -> y = x \/ y ∈ v.
Proof.
  unfold vset. destruct (i <? 0); [by right|]. intros (n & Hn)%list_elem_of_lookup.
  apply list_lookup_insert_Some in Hn as [(_ & -> & _)|[_ Hn]]; [by left | right; by eapply list_elem_of_lookup_2].
Qed.

(** Free time after one resource is replaced. *)
Lemma freeAt_vset rs i r r' : vget rs i = Some r -> (forall t, free r' t -> free r t) ->
  (forall j t, freeAt (vset rs i r') j t -> freeAt rs j t) /\
  (forall t, free r t -> ~ free r' t -> freeAt rs i t /\ ~ freeAt (vset rs i r') i t).
Proof.
  intros Hg Hle. pose proof (vget_Some_range _ _ _ Hg) as Hr. split.
  - intros j t (x & Hx & Hf). destruct (decide (j = i)) as [->|Hne].
    + rewrite vget_vset_eq in Hx by done. injection Hx as <-. exists r. auto.
    + rewrite vget_vset_ne in Hx by done. by exists x.
  - intros t Hf Hn. split; [by exists r|]. intros (x & Hx & Hfx). rewrite vget_vset_eq in Hx by done.
    by injection Hx as <-.
Qed.

(** The operation stamps of one command. *)
Lemma stamps_single op start end_ busy : op <> OPER_NUM -> length busy = 3%nat ->
  exists st, get_raw [[]; []; [] : bucket] (Z.of_nat (oper_index op)) = Ok st /\ exists busy',
    FlushOpTimeStamp (vset [[]; []; []] (Z.of_nat (oper_index op)) (stamp start end_ st)) busy = ([[]; []; []], busy') /\
    length busy' = 3%nat.
Proof.
  intros Hop Hb. destruct busy as [|x [|y [|z [|]]]]; try discriminate Hb.
  destruct op; try done; eexists; (split; [reflexivity|]); eexists; (split; [reflexivity|]); reflexivity.
Qed.

(** The times of a command as the statistics get them. *)
Definition scheduled (cmd cmd' : Command) (a : CPDPBP) (s s' : Pal2) : Prop :=
  let lat := GetLatency l (Page a) (operation cmd) in
  exists t0 tM t1 conf, 
    let x := AddLatency cmd' a (CPDPBPtoDieIdx p a) t0 tM t1 conf (time_all l cmd' a t0 tM t1) in
    cmd' = mkCommand (arrived cmd) (EndTick t1) (ppn cmd) (operation cmd) (mergeSnapshot cmd) (size cmd) /\
    (exists q, statLog s' = (statLog s ++ [x]) ++ q /\ (q = [] \/ q = [MergeSnapshot])) /\
    (forall t, inside t0 t \/ inside t1 t -> freeAt (Ch s) (Channel a) t) /\
    (forall t, inside tM t -> freeAt (Di s) (CPDPBPtoDieIdx p a) t) /\
    arrived cmd <= StartTick t0 /\ EndTick t0 = StartTick t0 + lat BUSY_DMA0 - 1 /\
    EndTick t0 + lat BUSY_MEM < StartTick t1 /\ EndTick t1 = StartTick t1 + lat BUSY_DMA1 - 1 /\
    tM = mkTimeSlot (StartTick t0) (EndTick t1) /\
    (let w := time_all l cmd' a t0 tM t1 in
     TICK_FULL w = EndTick t1 - arrived cmd + 1 /\
     TICK_FULL w = TICK_DMA0WAIT w + TICK_DMA0 w + TICK_MEM w + TICK_DMA1WAIT w + TICK_DMA1 w).

#[local] Arguments GetLatency _ : simpl never.

Context (L : Z) (HT : timed l L) (Hdies : 0 < channel p * (die p * package p) < 2 ^ 32).

Lemma submit_ok T cmd a s : ok T s -> in_array p a -> operation cmd <> OPER_NUM -> 0 <= arrived cmd <= T ->
  2 * T + 2 * L < 2 ^ 64 ->
  exists cmd' s', submit p l cmd a s = Ok (cmd', s') /\ ok (T + L) s' /\ scheduled cmd cmd' a s s'.
Proof.
  intros Hok (HaC & HaW & HaD & _) Hop Harr Hbound. pose proof Hok as [Hcl Hdl Hch Hdi Hms Hst Hbs Hbc Hbd].
  destruct (die_index p a Hdies HaC HaW HaD) as [Hidx Hrng].
  set (ix := CPDPBPtoDieIdx p a) in *. assert (0 <= ix < vlen (Di s)) as Hix by nia. clear Hidx Hrng.
  destruct (vget_in_range (Ch s) (Channel a)) as [ch Hgc]; [lia|].
  destruct (vget_in_range (Di s) ix) as [di Hgd]; [done|].
  destruct (Hch ch (vget_elem_of _ _ _ Hgc)) as (HC & HCp & Hgap).
  destruct (Hdi di (vget_elem_of _ _ _ Hgd)) as (HD & HDp).
  unfold submit, TimelineScheduling. fold ix. rewrite (get_raw_Some _ _ _ Hgc), (get_raw_Some _ _ _ Hgd). cbn [mbind res_bind]. cbv zeta.
  pose proof (tm_pos l L HT (Page a) (operation cmd) Hop) as (P0 & PM & P1).
  pose proof (tm_pos l L HT (Page a) OPER_READ ltac:(done)) as (PA & _).
  pose proof (tm_sum l L HT (Page a) (operation cmd) Hop) as Hsum. pose proof (Hgap (Page a) (operation cmd) Hop) as Hre.
  set (lat0 := GetLatency l (Page a) (operation cmd) BUSY_DMA0) in *.
  set (latM := GetLatency l (Page a) (operation cmd) BUSY_MEM) in *.
  set (lat1 := GetLatency l (Page a) (operation cmd) BUSY_DMA1) in *.
  set (anti := GetLatency l (Page a) OPER_READ BUSY_DMA0) in *.
  destruct (LOOP0_spec ch di HC HD lat0 latM lat1 anti T L ltac:(lia) Hsum HCp HDp Hbound (rounds di) (arrived cmd) 0
    (starts_rounds di _) Harr) as (pn & conf & Hl & Hpn). rewrite Hl. cbn [mbind res_bind].
  destruct (assign_spec ch di HC HD lat0 latM lat1 anti T L ltac:(lia) Hsum HCp HDp Hbound Hre (arrived cmd) pn Hpn
    ltac:(lia)) as (ch' & di' & Has & Hd & Hgapt & Hend & HC' & [Kc Fc] & Pc & HD' & [Kd Fd] & Pd & Hcf & Hdf).
  cbv zeta in Has. rewrite Has. cbn [mbind res_bind].
  set (d := DMA0tickFrom (place pn)) in *. set (e := DMA1tickFrom pn + anti) in *.
  set (t0 := mkTimeSlot d (d + lat0 - 1)) in *. set (tM := mkTimeSlot d (e + lat1 - 1)) in *.
  set (t1 := mkTimeSlot e (e + lat1 - 1)) in *.
  destruct (merge_single (MergedTimeSlots s) tM Hms) as (ms & Hmg & Hml); [simpl; lia|]. rewrite Hmg. cbn [mbind res_bind]. cbv zeta. cbn [operation].
  destruct (stamps_single (operation cmd) (StartTick t0) (EndTick t1) (OpBusyTime s) Hop Hbs) as (st & Hgs & busy & Hfl & Hbl).
  rewrite Hst, Hgs. cbn [mbind res_bind]. rewrite Hfl. cbn [mergeSnapshot].
  set (cmd' := mkCommand (arrived cmd) _ _ _ _ _). set (x := AddLatency _ _ _ _ _ _ _ _). eexists cmd', _. split; [reflexivity|].
  destruct (freeAt_vset (Ch s) (Channel a) ch ch' Hgc Fc) as [Gc1 Gc2].
  destruct (freeAt_vset (Di s) ix di di' Hgd Fd) as [Gd1 Gd2].
  assert (booked on_channel (vset (Ch s) (Channel a) ch') (statLog s ++ [x])) as Bc.
  { apply (booked_add _ (Ch s)); [done | | done]. intros i t (<- & Hin). destruct (Hcf t Hin). by apply Gc2. }
  assert (booked on_die (vset (Di s) ix di') (statLog s ++ [x])) as Bd.
  { apply (booked_add _ (Di s)); [done | | done]. intros i t (<- & Hin). destruct (Hdf t Hin). by apply Gd2. }
  split.
  - split; simpl; try done; rewrite ?vlen_vset; try done.
    + intros r [->|Hr]%vset_elem; [split_and!; [done | lia | by eapply gap_keys]|].
      destruct (Hch r Hr) as (? & ? & ?). split_and!; [done | lia | done].
    + intros r [->|Hr]%vset_elem; [split; [done | lia]|]. destruct (Hdi r Hr). split; [done | lia].
    + lia.
    + rewrite cons_middle, app_assoc. destruct (_ || _); [|by rewrite app_nil_r]. apply booked_quiet; [|done]. by intros ? ? [].
    + rewrite cons_middle, app_assoc. destruct (_ || _); [|by rewrite app_nil_r]. apply booked_quiet; [|done]. by intros ? ? [].
  - exists t0, tM, t1, conf. cbv zeta. split_and!; try done; simpl; try lia.
    + eexists. split; [rewrite cons_middle, app_assoc; reflexivity|]. destruct (_ || _); auto.
    + intros t Hin. apply Gc2; apply Hcf; done.
    + intros t Hin. apply Gd2; apply Hdf; done.
    + rewrite (u64_small (e + lat1 - 1 - arrived cmd)), u64_small by lia. lia.
    + fold lat0 latM lat1. rewrite (u64_small (d - _)), (u64_small (e + lat1 - 1 - d)), (u64_small (e + lat1 - 1 - d + 1)) by lia.
      rewrite (u64_small (lat0 + latM)), (u64_small (lat0 + latM + lat1)) by lia.
      rewrite (u64_small (e + lat1 - 1 - arrived cmd)), !u64_small by lia. lia.
Qed.

Lemma flush_ok T now s : ok T s -> ok T (FlushTimeSlots now (FlushFreeSlots now s)).
Proof.
  intros [Hcl Hdl Hch Hdi Hms Hst Hbs Hbc Hbd].
  assert (forall rs i t, (forall r, r ∈ rs -> wfr r) -> freeAt (flush_resource now <$> rs) i t -> freeAt rs i t) as Hless.
  { intros rs i t Hrs (r' & Hr' & Hf). rewrite vget_fmap in Hr'. apply fmap_Some in Hr' as (r & Hr & ->). exists r.
    split; [done|]. by apply (flush_wfr now r (Hrs r (vget_elem_of _ _ _ Hr))). }
  assert (forall ms sum, (length (FlushATimeSlotBusyTime ms now sum).1 <= length ms)%nat) as Hlen.
  { induction ms as [|t ms IH]; intros sum; simpl; [done|]. destruct (_ <? _); [|done]. specialize (IH (u64 (sum + u64 (u64 (EndTick t - StartTick t) + 1)))). lia. }
  unfold FlushFreeSlots, FlushTimeSlots. simpl.
  pose proof (Hlen (MergedTimeSlots s) (ExactBusyTime s)) as H1. destruct (FlushATimeSlotBusyTime _ _ _) as [m1 s1].
  simpl in *. pose proof (Hlen m1 s1) as H2. destruct (FlushATimeSlotBusyTime _ _ _) as [m2 s2]. simpl in *.
  split; simpl; rewrite ?vlen_fmap; try done.
  - intros r' (r & -> & Hr)%list_elem_of_fmap. destruct (Hch r Hr) as (HW & ? & Hg). destruct (flush_wfr now r HW) as [? [Hk _]].
    split_and!; [done | done | by eapply gap_keys].
  - intros r' (r & -> & Hr)%list_elem_of_fmap. destruct (Hdi r Hr) as (HW & ?). by destruct (flush_wfr now r HW).
  - lia.
  - do 2 (apply booked_quiet; [by intros ? ? []|]). eapply booked_less; [|exact Hbc]. intros i t. apply Hless. intros r Hr. by apply Hch.
  - do 2 (apply booked_quiet; [by intros ? ? []|]). eapply booked_less; [|exact Hbd]. intros i t. apply Hless. intros r Hr. by apply Hdi.
Qed.
End State.
