(* ===== verification/Pal2Theorems.v ===== *)
(** * Properties of the flash timing model

    What read, write and erase of a superpage do, and that no sequence of
    requests and flushes ever books a channel or a die twice. *)

From S2P Require Import Prelude Bitset Types PalAddr PalAddrProof PalTheorems.
From S2P Require Import FreeSlots FreeSlotsProof Latency Pal2 Pal2Proof.
From Stdlib Require Import Sorted.

(** The addresses and the last ticks of the commands of a log. *)
Definition units_of (log : list StatCall) : list CPDPBP :=
  omap (fun c => match c with AddLatency _ a _ _ _ _ _ _ => Some a | _ => None end) log.
Definition ends_of (log : list StatCall) : list Z :=
  omap (fun c => match c with AddLatency _ _ _ _ _ t1 _ _ => Some (EndTick t1) | _ => None end) log.

Definition op_count (op : PAL_OPERATION) (s : PalOld) : Z :=
  match op with OPER_READ => readCount s | OPER_WRITE => writeCount s | _ => eraseCount s end.

Lemma ok_mono p l T T' s : T <= T' -> ok p l T s -> ok p l T' s.
Proof.
  intros Hle [H1 H2 H3 H4 H5 H6 H7 H8 H9]. split; try done.
  - intros r Hr. destruct (H3 r Hr) as (? & ? & ?). split_and!; [done | lia | done].
  - intros r Hr. destruct (H4 r Hr). split; [done | lia].
Qed.

(** ** The initial state *)

Lemma empty_buckets_ok keys : StronglySorted by_key (empty_buckets keys) /\
  (forall kb, kb ∈ empty_buckets keys -> kb.2 = []) /\ (forall k, k ∈ keys -> (k, []) ∈ empty_buckets keys).
Proof.
  unfold empty_buckets.
  enough (forall (m : buckets) pre, StronglySorted by_key m -> (forall kb, kb ∈ m -> kb.2 = []) ->
    (forall k, k ∈ pre -> (k, []) ∈ m) ->
    let m' := foldl (fun m k => map_insert k [] m) m keys in
    StronglySorted by_key m' /\ (forall kb, kb ∈ m' -> kb.2 = []) /\ forall k, k ∈ pre ++ keys -> (k, []) ∈ m') as Hgen.
  { destruct (Hgen [] []) as (H1 & H2 & H3); [constructor | by intros ? ?%not_elem_of_nil.. |].
    split_and!; done. }
  induction keys as [|k keys IH]; intros m pre Hs He Hp; simpl; [by rewrite app_nil_r|].
  rewrite cons_middle, app_assoc.
  assert (forall m : buckets, StronglySorted by_key m -> (forall kb, kb ∈ m -> kb.2 = []) ->
    StronglySorted by_key (map_insert k [] m) /\ (forall kb, kb ∈ map_insert k [] m -> kb = (k, []) \/ kb ∈ m) /\
    (k, []) ∈ map_insert k [] m /\ forall kb, kb ∈ m -> kb ∈ map_insert k [] m) as Hins.
  { clear. induction m as [|[k' b'] m IH]; intros Hs He; simpl.
    - split_and!; [repeat constructor | by intros kb [->|?]%elem_of_cons; auto | left | by intros kb ?%not_elem_of_nil].
    - apply StronglySorted_inv in Hs as [Hs Hf]. rewrite Forall_forall in Hf. destruct (Z.ltb_spec k k').
      + split_and!; [|by intros kb [->|?]%elem_of_cons; auto | left | by intros; right].
        constructor; [constructor; [done | by rewrite Forall_forall]|]. apply Forall_forall.
        intros y [->|Hy]%elem_of_cons; [done|]. specialize (Hf y Hy). unfold by_key in *. simpl in *. lia.
      + destruct (Z.eqb_spec k k') as [->|Hne].
        * specialize (He _ ltac:(left)) as He'. simpl in He'. subst b'.
          split_and!; [constructor; [done | by rewrite Forall_forall] | by auto | left | done].
        * destruct IH as (I1 & I2 & I3 & I4); [done | intros kb Hkb; apply He; by right|]. split_and!.
          -- constructor; [done|]. apply Forall_forall. intros y [->|Hy]%I2; [unfold by_key; simpl; lia | by apply Hf].
          -- intros kb [->|[->|?]%I2]%elem_of_cons; [right; left | by left | right; by right].
          -- by right.
          -- intros kb [->|?]%elem_of_cons; [left | right; by apply I4]. }
  destruct (Hins m Hs He) as (I1 & I2 & I3 & I4). apply IH; [done | |].
  - intros kb [->|?]%I2; [done | by apply He].
  - intros k' [Hk| ->%list_elem_of_singleton]%elem_of_app; [by apply I4, Hp | done].
Qed.

Lemma fresh_wfr keys : keys <> [] -> wfr (mkResource (empty_buckets keys) 0).
Proof.
  intros Hne. destruct (empty_buckets_ok keys) as (Hs & He & Hk).
  assert (forall s e, ~ Slot (empty_buckets keys) s e) as Hno.
  { intros s e (k & b & Hin & Hb). specialize (He _ Hin). simpl in He. subst b. by apply not_elem_of_nil in Hb. }
  assert (forall k b s e, (k, b) ∈ empty_buckets keys -> (s, e) ∈ b -> False) as Hno' by (intros k b s e ? ?; apply (Hno s e); by exists k, b).
  split; simpl; [split | | lia].
  - done.
  - intros k b Hin. specialize (He _ Hin). simpl in He. subst b. constructor.
  - intros k b s e H1 H2. by destruct (Hno' k b s e).
  - intros k b s e k' b' H1 H2. by destruct (Hno' k b s e).
  - intros s e H1. by destruct (Hno s e).
  - intros s e s' e' H1. by destruct (Hno s e).
  - intros Hn. destruct keys as [|k keys]; [done|]. specialize (Hk k ltac:(left)). rewrite Hn in Hk.
    by apply not_elem_of_nil in Hk.
Qed.

(** The device fits the model: the shortest command is not longer than any
    pause between the transfers. *)
Record device (c : PalConfig) (p : PalParameter) (l : Latency) (dmaSpeed pageSize L : Z) : Prop := {
  dv_fits : PalAddrProof.fits c;
  dv_alloc : pageAllocation c ≡ₚ indices;
  dv_param : palParameter c = Ok p;
  dv_timed : timed l L;
  dv_speed : 1 <= u32 (dmaSpeed / 50) /\ 1 <= u32 (16384 / pageSize) /\ pageSize <> 0 /\
             u32 (u32 (16384 / pageSize) * u32 (dmaSpeed / 50)) <> 0;
  dv_gap : forall pg op, op <> OPER_NUM -> 100000 / u32 (dmaSpeed / 50) <=
    GetLatency l pg op BUSY_MEM + GetLatency l pg op BUSY_DMA1 + GetLatency l pg OPER_READ BUSY_DMA0;
}.

Section Device.
  Context (c : PalConfig) (p : PalParameter) (l : Latency) (dmaSpeed pageSize L : Z).
  Context (HV : device c p l dmaSpeed pageSize L).

Lemma device_geometry : geometry_of c p /\ 0 < channel p * (die p * package p) < 2 ^ 32.
Proof.
  destruct (palParameter_ok c (dv_fits _ _ _ _ _ _ HV) (dv_alloc _ _ _ _ _ _ HV)) as (p' & Hp' & Hgo).
  rewrite (dv_param _ _ _ _ _ _ HV) in Hp'. injection Hp' as <-. split; [done|].
  destruct (dv_fits _ _ _ _ _ _ HV) as [(Hc & Hw & Hd & Hp & Hb & Hs) _ Hbytes _].
  destruct (go_dims _ _ Hgo) as (-> & -> & -> & _).
  assert (0 < cfDie c * cfPackage c) by nia. split; [nia|].
  assert (cfChannel c * (cfDie c * cfPackage c) <= cfPageSize c * (cfChannel c * (cfPackage c * (cfDie c * cfPlane c)))); [|lia].
  replace (cfPageSize c * (cfChannel c * (cfPackage c * (cfDie c * cfPlane c))))
    with (cfChannel c * (cfDie c * cfPackage c) * (cfPageSize c * cfPlane c)) by ring.
  assert (0 < cfChannel c * (cfDie c * cfPackage c)) by nia. assert (1 <= cfPageSize c * cfPlane c) by nia. nia.
Qed.

Lemma make_ok t : exists s, PAL2_make p l dmaSpeed pageSize t = Ok s /\ ok p l 0 s /\ statLog s = [].
Proof.
  destruct device_geometry as [Hgo Hdies]. destruct (dv_speed _ _ _ _ _ _ HV) as (H1 & H2 & H3 & H4).
  destruct (go_dims _ _ Hgo) as (Hc & Hw & Hd & _). destruct (dv_fits _ _ _ _ _ _ HV) as [(Pc & Pw & Pd & _) _ _ _].
  rewrite <- Hc in Pc. rewrite <- Hw in Pw. rewrite <- Hd in Pd.
  unfold PAL2_make, channel_keys. rewrite (proj2 (Z.eqb_neq pageSize 0)) by done.
  rewrite (proj2 (Z.eqb_neq (u32 (dmaSpeed / 50)) 0)), (proj2 (Z.eqb_neq (u32 (16384 / pageSize)) 0)) by lia. simpl.
  rewrite (proj2 (Z.eqb_neq _ 0)) by done. simpl. set (cmd := 100000 / u32 (dmaSpeed / 50)) in *.
  assert (channel p * package p * die p = channel p * (die p * package p)) as Hprod by ring.
  assert (0 < channel p * package p) as Hcp by nia. assert (channel p * package p < 2 ^ 32) as Hcp' by nia.
  rewrite (u32_small (channel p * package p)), Hprod, (u32_small (channel p * (die p * package p))) by lia.
  eexists. split; [reflexivity|]. split; [|done]. split; simpl; try done.
  - by rewrite vlen_replicate by lia.
  - by rewrite vlen_replicate by lia.
  - intros r (-> & _)%elem_of_replicate. split_and!; [by apply fresh_wfr | simpl; lia |]. intros pg op Hop. simpl.
    eexists cmd, []. split; [apply empty_buckets_ok; left | by apply (dv_gap _ _ _ _ _ _ HV)].
  - intros r (-> & _)%elem_of_replicate. split; [|simpl; lia]. apply fresh_wfr. by destruct (nand l).
  - lia.
  - split; [by intros x i t' ?%not_elem_of_nil | by intros j k x y i t' ?].
  - split; [by intros x i t' ?%not_elem_of_nil | by intros j k x y i t' ?].
Qed.

(** ** Requests *)

Lemma count_pal op s q : pal (count op s q) = q.
Proof. by destruct op. Qed.
Lemma op_count_count op s q : op_count op (count op s q) = u64 (op_count op s + 1).
Proof. by destruct op. Qed.

(** Submitting units one after the other. *)
Lemma submit_units op units T n cmd fin s : op <> OPER_NUM -> ok p l T (pal s) -> operation cmd = op ->
  0 <= arrived cmd <= T -> (forall a, a ∈ units -> in_array p a) -> (length units <= n)%nat ->
  2 * (T + Z.of_nat n * L) + 2 * L < 2 ^ 64 -> 0 <= L ->
  exists cmd' s' calls,
    foldM (fun a '(cmd, fin, s) => '(cmd, q) ← submit p l cmd a (pal s);
             Ok (cmd, Z.max fin (finished cmd), count op s q)) units (cmd, fin, s) =
      Ok (cmd', foldl Z.max fin (ends_of calls), s') /\
    ok p l (T + Z.of_nat n * L) (pal s') /\ statLog (pal s') = statLog (pal s) ++ calls /\ units_of calls = units /\
    (0 <= op_count op s -> op_count op s + Z.of_nat (length units) < 2 ^ 64 ->
     op_count op s' = op_count op s + Z.of_nat (length units)).
Proof.
  intros Hop. revert T n cmd fin s. induction units as [|a units IH]; intros T n cmd fin s Hok Hco Harr Hin Hn Hb HL.
  - exists cmd, s, []. simpl. split_and!; [done | by apply (ok_mono _ _ T); [lia|] | by rewrite app_nil_r | done | lia].
  - simpl in Hn. destruct n as [|n]; [lia|]. simpl foldM.
    destruct (submit_ok p l L (dv_timed _ _ _ _ _ _ HV) (proj2 device_geometry) T cmd a (pal s) Hok (Hin a ltac:(left))
      ltac:(by rewrite Hco) Harr ltac:(lia)) as (cmd1 & s1 & Hs & Hok1 & t0 & tM & t1 & conf & Hc1 & (q & Hlog & Hq) & _).
    rewrite Hs. cbn [mbind res_bind].
    destruct (IH (T + L) n cmd1 (Z.max fin (finished cmd1)) (count op s s1)) as (cmd' & s' & calls & Hf & Hok' & Hl' & Hu & Hcnt).
    + by rewrite count_pal.
    + by rewrite Hc1.
    + rewrite Hc1. simpl. lia.
    + intros b Hb'. apply Hin. by right.
    + lia.
    + lia.
    + done.
    + set (x := AddLatency _ _ _ _ _ _ _ _) in Hlog. exists cmd', s', ([x] ++ q ++ calls). split_and!.
      * rewrite Hf. do 3 f_equal. rewrite Hc1. destruct Hq as [-> | ->]; done.
      * replace (T + Z.of_nat (S n) * L) with (T + L + Z.of_nat n * L) by lia. done.
      * rewrite Hl', count_pal, Hlog. by rewrite !app_assoc.
      * destruct Hq as [-> | ->]; simpl; by rewrite Hu.
      * intros H0 H1. simpl in H1. rewrite Hcnt; rewrite op_count_count; rewrite u64_small by lia; simpl; lia.
Qed.

(** The units a request addresses. *)
Definition flagged_units (req : PalRequest) : list CPDPBP :=
  let n := pageInSuperPage p in
  unitAddress c p (blockIndex req) (pageIndex req) <$>
    filter (fun k => Bitset.size (pal_ioFlag req) <> n \/ Bitset.bit (pal_ioFlag req) k = true) (seqZ 0 n).

(** Requests [PALOLD] is made for: the flags have the size of a superpage, or
    they stand for all of it. *)
Definition valid_request (req : PalRequest) : Prop :=
  0 <= blockIndex req < superBlock p /\
  (Bitset.wf (pageInSuperPage p) (pal_ioFlag req) \/
   (useRandomTweak c = false /\ Bitset.size (pal_ioFlag req) <> pageInSuperPage p)).

Lemma filter_iff {A} (P Q : A -> Prop) `{forall x, Decision (P x), forall x, Decision (Q x)} (k : list A) :
  (forall x, x ∈ k -> P x <-> Q x) -> filter P k = filter Q k.
Proof.
  induction k as [|x k IH]; intros Hpq; [done|]. rewrite !filter_cons, IH by (intros y Hy; apply Hpq; by right).
  pose proof (Hpq x ltac:(left)). destruct (decide (P x)), (decide (Q x)); tauto || done.
Qed.

Lemma convert_flagged a0 req : valid_request req ->
  exists req', convertCPDPBP c p a0 req = Ok (req', flagged_units req) /\
    (forall a, a ∈ flagged_units req -> in_array p a) /\
    (length (flagged_units req) <= Z.to_nat (pageInSuperPage p))%nat.
Proof.
  intros [Hb Hio]. destruct device_geometry as [Hgo _].
  destruct (pick_flags c p req Hgo Hio) as (io & Hwf & Hall & Hpick). eexists. split_and!.
  - rewrite (convert_with c p a0 req io (dv_fits _ _ _ _ _ _ HV) (dv_alloc _ _ _ _ _ _ HV) Hgo Hb Hwf Hpick).
    do 2 f_equal. unfold flagged_units. f_equal. apply filter_iff. intros k Hk%elem_of_seqZ.
    destruct (decide (Bitset.size (pal_ioFlag req) = pageInSuperPage p)) as [Heq|Hne].
    + rewrite Heq, Z.eqb_refl in Hpick. simpl in Hpick.
      assert (io = pal_ioFlag req) as -> by (destruct (useRandomTweak c); congruence). tauto.
    + rewrite Hall by (done || lia). tauto.
  - intros a (k & -> & [_ Hk%elem_of_seqZ]%list_elem_of_filter)%list_elem_of_fmap.
    apply unit_in_array; [apply HV | apply HV | done | done | lia].
  - unfold flagged_units. rewrite length_fmap. etrans; [apply length_filter|]. rewrite length_seqZ. lia.
Qed.

(** One command.  From any state of the model [submit] returns: the channel
    is free for both transfers and the die from the first to the end of the
    second, not before the arrival and the memory operation in between; the
    command finishes with the second transfer, and the ticks the statistics get
    add up to the time from arrival to the end. *)
Theorem command_scheduled T cmd a s : ok p l T s -> in_array p a -> operation cmd <> OPER_NUM ->
  0 <= arrived cmd <= T -> 2 * T + 2 * L < 2 ^ 64 ->
  exists cmd' s', submit p l cmd a s = Ok (cmd', s') /\ ok p l (T + L) s' /\ scheduled p l cmd cmd' a s s'.
Proof. apply (submit_ok p l L (dv_timed _ _ _ _ _ _ HV)), device_geometry. Qed.

(** C22: read, write and erase of a superpage return, book every flagged unit
    once and in order, count each, and finish with the last of them. *)
Theorem superpage_scheduled op sz a0 req tick T s : op <> OPER_NUM -> valid_request req ->
  ok p l T (pal s) -> 0 <= tick <= T -> 0 <= L ->
  2 * (T + pageInSuperPage p * L) + 2 * L < 2 ^ 64 ->
  exists req' s' calls,
    submit_all c p l op sz a0 req tick s = Ok (req', foldl Z.max tick (ends_of calls), s') /\
    ok p l (T + pageInSuperPage p * L) (pal s') /\
    statLog (pal s') = statLog (pal s) ++ calls /\ units_of calls = flagged_units req /\
    (0 <= op_count op s -> op_count op s + vlen (flagged_units req) < 2 ^ 64 ->
     op_count op s' = op_count op s + vlen (flagged_units req)).
Proof.
  intros Hop Hreq Hok Htick HL Hb. pose proof (go_small _ _ (proj1 device_geometry)) as Hn.
  destruct (convert_flagged a0 req Hreq) as (req' & Hc & Hin & Hlen).
  destruct (submit_units op (flagged_units req) T (Z.to_nat (pageInSuperPage p)) (Command_make tick 0 op sz) tick s)
    as (cmd' & s' & calls & Hf & Hok' & Hlog & Hu & Hcnt); try done.
  { rewrite Z2Nat.id by lia. done. }
  rewrite Z2Nat.id in Hok' by lia. exists req', s', calls. split_and!; [|done..].
  unfold submit_all. rewrite Hc. cbn [mbind res_bind]. rewrite Hf. done.
Qed.

(** ** Runs *)

(** What the layers above ask of [PALOLD], and its own flush event. *)
Inductive PalEvent : Type :=
  | EvSuper (op : PAL_OPERATION) (sz : Z) (a0 : CPDPBP) (req : PalRequest) (tick : Z)
  | EvUnit (op : PAL_OPERATION) (sz : Z) (a : CPDPBP) (tick : Z)
  | EvFlush (tick : Z).

Definition pal_step (ev : PalEvent) (s : PalOld) : res PalOld :=
  match ev with
  | EvSuper op sz a0 req tick => '(_, _, s) ← submit_all c p l op sz a0 req tick s; Ok s
  | EvUnit op sz a tick => '(_, s) ← submit_one p l op sz a tick s; Ok s
  | EvFlush tick => Ok (flushFunction tick s).1
  end.

Definition valid_event (T : Z) (ev : PalEvent) : Prop :=
  match ev with
  | EvSuper op _ _ req tick => op <> OPER_NUM /\ valid_request req /\ 0 <= tick <= T
  | EvUnit op _ a tick => op <> OPER_NUM /\ in_array p a /\ 0 <= tick <= T
  | EvFlush _ => True
  end.

Lemma step_ok T ev s : valid_event T ev -> ok p l T (pal s) -> 0 <= L ->
  2 * (T + pageInSuperPage p * L) + 2 * L < 2 ^ 64 ->
  exists s', pal_step ev s = Ok s' /\ ok p l (T + pageInSuperPage p * L) (pal s').
Proof.
  intros Hv Hok HL Hb. pose proof (go_small _ _ (proj1 device_geometry)) as Hn. destruct ev as [op sz a0 req tick|op sz a tick|tick]; simpl in *.
  - destruct Hv as (Hop & Hreq & Htick). destruct (convert_flagged a0 req Hreq) as (req' & Hc & Hin & Hlen).
    destruct (submit_units op (flagged_units req) T (Z.to_nat (pageInSuperPage p)) (Command_make tick 0 op sz) tick s)
      as (cmd' & s' & calls & Hf & Hok' & _); try done.
    { rewrite Z2Nat.id by lia. done. }
    rewrite Z2Nat.id in Hok' by lia. exists s'. split; [|done].
    unfold submit_all. rewrite Hc. cbn [mbind res_bind]. rewrite Hf. done.
  - destruct Hv as (Hop & Ha & Htick).
    destruct (submit_ok p l L (dv_timed _ _ _ _ _ _ HV) (proj2 device_geometry) T (Command_make tick 0 op sz) a (pal s) Hok Ha
      Hop Htick ltac:(nia)) as (cmd1 & s1 & Hs & Hok1 & _).
    unfold submit_one. rewrite Hs. cbn [mbind res_bind]. eexists. split; [done|]. rewrite count_pal.
    apply (ok_mono _ _ (T + L)); [nia | done].
  - eexists. split; [done|]. simpl. apply (ok_mono _ _ T); [nia|]. by apply flush_ok.
Qed.

(** C19: over any sequence of superpage requests, unit requests and flushes no
    tick of a channel or of a die is booked by two commands, and none of the
    calls fails. *)
Theorem never_booked_twice t evs T : Forall (valid_event T) evs -> 0 <= T -> 0 <= L ->
  2 * (T + vlen evs * (pageInSuperPage p * L)) + 2 * L < 2 ^ 64 ->
  exists s0 s, PAL2_make p l dmaSpeed pageSize t = Ok s0 /\
    foldM pal_step evs (mkPalOld s0 0 0 0) = Ok s /\
    exclusive on_channel (statLog (pal s)) /\ exclusive on_die (statLog (pal s)).
Proof.
  intros Hv HT HL Hb. pose proof (go_small _ _ (proj1 device_geometry)) as Hn.
  destruct (make_ok t) as (s0 & Hs0 & Hok & _). exists s0.
  enough (forall T' s, T <= T' -> ok p l T' (pal s) -> 2 * (T' + vlen evs * (pageInSuperPage p * L)) + 2 * L < 2 ^ 64 ->
    exists s', foldM pal_step evs s = Ok s' /\ exists T'', ok p l T'' (pal s')) as Hrun.
  { destruct (Hrun T (mkPalOld s0 0 0 0)) as (s & Hs & T'' & [_ _ _ _ _ _ _ [_ Hc] [_ Hd]]); [done | | done |].
    - by apply (ok_mono _ _ 0).
    - by exists s. }
  clear Hb Hok. induction Hv as [|ev evs Hev Hv IH]; intros T' s HT' Hok Hb; [exists s; split; [done | by exists T']|].
  assert (vlen (ev :: evs) = vlen evs + 1) as Hlen by (unfold vlen; simpl; lia). rewrite Hlen in Hb.
  pose proof (vlen_nonneg evs) as Hvl.
  destruct (step_ok T' ev s) as (s1 & Hs1 & Hok1); [| done | done | nia |].
  { destruct ev; simpl in *; intuition lia. }
  simpl. rewrite Hs1. cbn [mbind res_bind]. apply (IH (T' + pageInSuperPage p * L)); [nia | done | nia].
Qed.
End Device.

(** ** A small device *)

(** SLC flash at 400 MT/s on the array of [small_array]. *)
Definition small_latency : Latency :=
  mkLatency NAND_SLC
    (mkNandTiming (mkPageTiming 25000000 300000000) (mkPageTiming 0 0) (mkPageTiming 0 0)
       (mkDmaTiming 17500 1250000 12500) (mkDmaTiming 1230000 2500 2500) 2000000000)
    (mkNandPower 3300 25000 25000 25000 5000 10).

Lemma small_device : device small_array small_parameter small_latency 400 512 2100000000.
Proof.
  split; [apply small_array_fits | done | reflexivity | | vm_compute; split_and!; done |].
  - split; intros pg op Hop; destruct op; try done; unfold GetLatency; simpl; lia.
  - intros pg op Hop. change (100000 / u32 (400 / 50)) with 12500. destruct op; try done; unfold GetLatency; simpl; lia.
Qed.

Definition small_request : PalRequest := mkPalRequest 0 0 3 1 (Bitset.mk [5] 4 1).

Lemma small_request_valid : valid_request small_array small_parameter small_request.
Proof. split; [simpl; lia | left; apply small_flags_wf]. Qed.

(** A read as first command of a fresh device. *)
Lemma command_scheduled_witness : exists s0 cmd' s',
  PAL2_make small_parameter small_latency 400 512 0 = Ok s0 /\
  submit small_parameter small_latency (Command_make 1000 0 OPER_READ 2048) (mkCPDPBP 1 0 0 0 3 1) s0 = Ok (cmd', s').
Proof.
  destruct (make_ok _ _ _ _ _ _ small_device 0) as (s0 & Hs0 & Hok & _).
  destruct (command_scheduled small_array small_parameter small_latency 400 512 2100000000 small_device 1000
    (Command_make 1000 0 OPER_READ 2048) (mkCPDPBP 1 0 0 0 3 1) s0) as (cmd' & s' & Hs & _);
    [by apply (ok_mono _ _ 0) | repeat split; simpl; lia | done | simpl; lia | lia |].
  by exists s0, cmd', s'.
Defined.

(** A superpage write with two flagged units. *)
Lemma superpage_scheduled_witness : exists s0 req' fin s' calls,
  PAL2_make small_parameter small_latency 400 512 0 = Ok s0 /\
  write small_array small_parameter small_latency (mkCPDPBP 9 9 9 9 9 9) small_request 1000 (mkPalOld s0 0 0 0) =
    Ok (req', fin, s') /\
  units_of calls = [mkCPDPBP 0 0 0 0 3 1; mkCPDPBP 0 1 0 0 3 1] /\ statLog (pal s') = calls /\ writeCount s' = 2.
Proof.
  destruct (make_ok _ _ _ _ _ _ small_device 0) as (s0 & Hs0 & Hok & Hlog).
  destruct (superpage_scheduled small_array small_parameter small_latency 400 512 2100000000 small_device OPER_WRITE 2048
    (mkCPDPBP 9 9 9 9 9 9) small_request 1000 1000 (mkPalOld s0 0 0 0)) as (req' & s' & calls & Hs & _ & Hl & Hu & Hc);
    [done | exact small_request_valid | by apply (ok_mono _ _ 0) | lia | lia | simpl; lia |].
  exists s0, req', (foldl Z.max 1000 (ends_of calls)), s', calls. split_and!; [done | exact Hs | by rewrite Hu | |].
  - rewrite Hl. simpl. by rewrite Hlog.
  - apply Hc; [simpl; lia | vm_compute; done].
Defined.

(** Superpage and unit requests around a flush. *)
Lemma never_booked_twice_witness : exists s0 s,
  PAL2_make small_parameter small_latency 400 512 0 = Ok s0 /\
  foldM (pal_step small_array small_parameter small_latency)
    [EvSuper OPER_WRITE 2048 (mkCPDPBP 9 9 9 9 9 9) small_request 0; EvFlush 100000000000;
     EvUnit OPER_ERASE 8192 (mkCPDPBP 0 1 0 0 2 0) 500; EvSuper OPER_READ 2048 (mkCPDPBP 9 9 9 9 9 9) small_request 1000]
    (mkPalOld s0 0 0 0) = Ok s /\
  exclusive on_channel (statLog (pal s)) /\ exclusive on_die (statLog (pal s)).
Proof.
  apply (never_booked_twice small_array small_parameter small_latency 400 512 2100000000 small_device 0 _ 1000);
    [| lia | lia | vm_compute; done].
  pose proof small_request_valid. rewrite !Forall_cons, Forall_nil. unfold valid_event.
  split_and!; simpl; (done || lia).
Defined.
