(* ===== verification/Cache.v ===== *)
(** * icl/generic_cache.cc: the write-back cache over the FTL

    Lines in sets of ways; a pointer to a line is its set and way.  The FTL, the
    DRAM, the cost model of the CPU and the random generator are the interface
    [IclBelow]. *)

From S2P Require Import Prelude Bitset Float32 Types.

(** ** The layers below *)

Inductive FtlCall : Type :=
  | FtlRead (r : Request) (tick : Z)
  | FtlWrite (r : Request) (tick : Z)
  | FtlTrim (r : Request) (tick : Z)
  | FtlFormat (range : LPNRange) (tick : Z).

Class IclBelow (F : Type) : Type := {
  ftl_call : FtlCall -> F -> res (Z * F);
  (** [pDRAM->read(line, size, tick)]; the address only identifies the line *)
  ddr_read : option (Z * Z) -> Z -> Z -> F -> res (Z * F);
  ddr_write : option (Z * Z) -> Z -> Z -> F -> res (Z * F);
  setScheduling : bool -> F -> F;
  cpuLatency : NAMESPACE -> FUNCTION -> F -> res (Z * F);
  (** [uniform_int_distribution(0, hi)(gen)] *)
  random_to : Z -> F -> Z * F;
}.

(** ** Data *)

(** [Line] *)
Record Line : Type := mkLine { tag : Z; lastAccessed : Z; insertedAt : Z; dirty : bool; valid : bool }.
Definition Line_new : Line := mkLine 0 0 0 false false.

Inductive EVICT_POLICY : Type := POLICY_RANDOM | POLICY_FIFO | POLICY_LEAST_RECENTLY_USED.
Inductive PREFETCH_MODE : Type := MODE_SUPERPAGE | MODE_ALL.

#[export] Instance EVICT_POLICY_eq_dec : EqDecision EVICT_POLICY.
Proof. solve_decision. Defined.
#[export] Instance PREFETCH_MODE_eq_dec : EqDecision PREFETCH_MODE.
Proof. solve_decision. Defined.

(** The constants of the constructor. *)
Record CacheParam : Type := mkCacheParam {
  superPageSize : Z; parallelIO : Z; lineCountInSuperPage : Z; lineCountInMaxIO : Z; lineSize : Z;
  setSize : Z; waySize : Z; distMax : Z;
  prefetchIOCount : Z; prefetchIORatio : f32;
  useReadCaching : bool; useWriteCaching : bool; useReadPrefetch : bool; bSuperPage : bool;
  evictMode : PREFETCH_MODE; prefetchMode : PREFETCH_MODE; policy : EVICT_POLICY;
  cacheLatency : Z; icl_core : Z;
}.

Record SequentialDetect : Type := mkDetect {
  enabled : bool; lastRequest : IclRequest; hitCounter : Z; accessCounter : Z;
}.

Record t (F : Type) : Type := mk {
  cacheData : list (list Line);
  evictData : list (list (option (Z * Z)));
  readDetect : SequentialDetect;
  prefetchTrigger : Z;
  lastPrefetched : Z;
  stat_request : Z * Z;
  stat_cache : Z * Z;
  below : F;
}.
Arguments mk {F}.
Arguments cacheData {F}. Arguments evictData {F}. Arguments readDetect {F}. Arguments prefetchTrigger {F}.
Arguments lastPrefetched {F}. Arguments stat_request {F}. Arguments stat_cache {F}. Arguments below {F}.

Definition max_u64 : Z := 2 ^ 64 - 1.

(** Tables: [v[i][j]]. *)
Definition get2 {A} (d : list (list A)) (i j : Z) : option A := vget d i ≫= fun r => vget r j.
Definition put2 {A} (d : list (list A)) (i j : Z) (x : A) : list (list A) :=
  match vget d i with Some r => vset d i (vset r j x) | None => d end.

(** ** The constructor *)

(** The configuration values; [cfgWaySize] as configured. *)
Record CacheConfig : Type := mkCacheConfig {
  cfgReadCache : bool; cfgWriteCache : bool; cfgPrefetch : bool; cfgPrefetchCount : Z; cfgPrefetchRatio : f32;
  cfgPrefetchMode : PREFETCH_MODE; cfgEvictPolicy : EVICT_POLICY; cfgEvictMode : PREFETCH_MODE;
  cfgCacheSize : Z; cfgWaySize : Z; cfgCacheLatency : Z; cfgCore : Z; cfgRandomTweak : bool;
}.

(** The parameters; [dist] is built from the way size as configured, before a
    zero is replaced, and [bSuperPage] stays [dflt] unless it is set. *)
Definition cacheParam (c : CacheConfig) (pageSize ioUnitInPage pageCountToMaxPerf : Z) (dflt : bool) : res CacheParam :=
  if ioUnitInPage =? 0 then Err UB else
  let line := u32 (pageSize / ioUnitInPage) in
  let super := if negb (line =? pageSize) then true else dflt in
  let '(line, count, max) :=
    if cfgRandomTweak c then (line, ioUnitInPage, u32 (pageCountToMaxPerf * ioUnitInPage))
    else (pageSize, 1, pageCountToMaxPerf) in
  let make sets ways :=
    mkCacheParam pageSize pageCountToMaxPerf count max line sets ways (u32 (u32 (cfgWaySize c) - 1))
      (u32 (cfgPrefetchCount c)) (cfgPrefetchRatio c) (cfgReadCache c) (cfgWriteCache c) (cfgPrefetch c) super
      (cfgEvictMode c) (cfgPrefetchMode c) (cfgEvictPolicy c) (cfgCacheLatency c) (cfgCore c) in
  if negb (cfgReadCache c) && negb (cfgWriteCache c) then Ok (make 0 (u32 (cfgWaySize c)))
  else if line =? 0 then Err UB
  else
    let ways := u32 (cfgWaySize c) in
    if ways =? 0 then Ok (make 1 (u32 (Z.max (cfgCacheSize c / line) 1)))
    else Ok (make (u32 (Z.max (cfgCacheSize c / line / ways) 1)) ways).

Section Cache.
  Context {F : Type} `{IclBelow F} (P : CacheParam).
Notation C := (t F).

(** Without caching the constructor returns before it makes the tables and
    clears the counters, which then hold no defined value (zero here). *)
Definition cache_new (f : F) : C :=
  let on := useReadCaching P || useWriteCaching P in
  mk (if on then replicate (Z.to_nat (setSize P)) (replicate (Z.to_nat (waySize P)) Line_new) else [])
     (if on then replicate (Z.to_nat (lineCountInSuperPage P)) (replicate (Z.to_nat (parallelIO P)) None) else [])
     (mkDetect false (mkIclRequest 1 0 0 0 (mkLPNRange 0 0)) 0 0) max_u64 0 (0, 0) (0, 0) f.

(** ** Access *)

Definition setData (d : list (list Line)) (s : C) : C :=
  mk d (evictData s) (readDetect s) (prefetchTrigger s) (lastPrefetched s) (stat_request s) (stat_cache s) (below s).
Definition setEvict (e : list (list (option (Z * Z)))) (s : C) : C :=
  mk (cacheData s) e (readDetect s) (prefetchTrigger s) (lastPrefetched s) (stat_request s) (stat_cache s) (below s).
Definition setDetect (d : SequentialDetect) (s : C) : C :=
  mk (cacheData s) (evictData s) d (prefetchTrigger s) (lastPrefetched s) (stat_request s) (stat_cache s) (below s).
Definition setPrefetch (trigger last : Z) (s : C) : C :=
  mk (cacheData s) (evictData s) (readDetect s) trigger last (stat_request s) (stat_cache s) (below s).
Definition setStat (r c : Z * Z) (s : C) : C :=
  mk (cacheData s) (evictData s) (readDetect s) (prefetchTrigger s) (lastPrefetched s) r c (below s).
Definition setBelow (f : F) (s : C) : C :=
  mk (cacheData s) (evictData s) (readDetect s) (prefetchTrigger s) (lastPrefetched s) (stat_request s) (stat_cache s) f.

Definition under {A} (op : F -> res (A * F)) : M C A := zoom below setBelow op.
Definition ftl (c : FtlCall) : M C Z := under (ftl_call c).

(** [cacheData[set][way]] *)
Definition getLine (set way : Z) : M C Line :=
  fun s => match get2 (cacheData s) set way with Some x => Ok (x, s) | None => Err UB end.
Definition updLine (set way : Z) (f : Line -> Line) : M C unit :=
  x ← getLine set way; modify (fun s => setData (put2 (cacheData s) set way (f x)) s).

(** [evictData[row][col]] *)
Definition getEvict (row col : Z) : M C (option (Z * Z)) :=
  fun s => match get2 (evictData s) row col with Some x => Ok (x, s) | None => Err UB end.
Definition updEvict (row col : Z) (x : option (Z * Z)) : M C unit :=
  getEvict row col;; modify (fun s => setEvict (put2 (evictData s) row col x) s).

(** ** Geometry and searches *)

Definition getCacheLatency : Z := if icl_core P =? 0 then 0 else cacheLatency P / icl_core P.
(** [tick += getCacheLatency() * 8] *)
Definition metaAccess (tick : Z) : Z := u64 (tick + u64 (getCacheLatency * 8)).

Definition calcSetIndex (lca : Z) : res Z := if setSize P =? 0 then Err UB else Ok (u32 (lca mod setSize P)).
Definition calcIOPosition (lca : Z) : res (Z * Z) :=
  if (lineCountInMaxIO P =? 0) || (lineCountInSuperPage P =? 0) then Err UB
  else let tmp := u32 (lca mod lineCountInMaxIO P) in
       Ok (tmp mod lineCountInSuperPage P, tmp / lineCountInSuperPage P).

(** The loops over the ways of a set read the lines of [cacheData[setIdx]]. *)
Definition waysOf (setIdx : Z) : M C (list Line) :=
  fun s => match vget (cacheData s) setIdx with
           | Some ws => if vlen ws <? waySize P then Err UB else Ok (take (Z.to_nat (waySize P)) ws, s)
           | None => Err UB
           end.

(** [getEmptyWay]: the invalid way inserted first. *)
Fixpoint emptyWay (ws : list Line) (i : Z) (ret min tick : Z) : Z * Z :=
  match ws with
  | [] => (ret, tick)
  | x :: ws' =>
      if negb (valid x) then
        if insertedAt x <? min then emptyWay ws' (i + 1) i (insertedAt x) (metaAccess tick)
        else emptyWay ws' (i + 1) ret min (metaAccess tick)
      else emptyWay ws' (i + 1) ret min tick
  end.
Definition getEmptyWay (setIdx tick : Z) : M C (Z * Z) :=
  ws ← waysOf setIdx; mret (emptyWay ws 0 (waySize P) max_u64 tick).

Fixpoint validWay (lca : Z) (ws : list Line) (i tick : Z) : Z * Z :=
  match ws with
  | [] => (i, tick)
  | x :: ws' => if valid x && (tag x =? lca) then (i, metaAccess tick) else validWay lca ws' (i + 1) (metaAccess tick)
  end.
Definition getValidWay (lca tick : Z) : M C (Z * Z) :=
  setIdx ← lift (calcSetIndex lca); ws ← waysOf setIdx; mret (validWay lca ws 0 tick).

(** The key of the ordered policies. *)
Definition age (x : Line) : Z :=
  match policy P with POLICY_FIFO => insertedAt x | _ => lastAccessed x end.

(** [evictFunction] *)
Fixpoint oldestWay (ws : list Line) (i : Z) (ret min tick : Z) : Z * Z :=
  match ws with
  | [] => (ret, tick)
  | x :: ws' => if age x <? min then oldestWay ws' (i + 1) i (age x) (metaAccess tick)
                else oldestWay ws' (i + 1) ret min (metaAccess tick)
  end.
Definition evictFunction (setIdx tick : Z) : M C (Z * Z) :=
  match policy P with
  | POLICY_RANDOM => w ← under (fun f => Ok (random_to (distMax P) f)); mret (w, tick)
  | _ => ws ← waysOf setIdx; mret (oldestWay ws 0 0 max_u64 tick)
  end.

(** [compareFunction] *)
Definition compareFunction (a b : option (Z * Z)) : M C (option (Z * Z)) :=
  match a, b with
  | Some (sa, wa), Some (sb, wb) =>
      match policy P with
      | POLICY_RANDOM => r ← under (fun f => Ok (random_to (distMax P) f));
                         mret (if waySize P / 2 <? r then a else b)
      | _ => x ← getLine sa wa; y ← getLine sb wb; mret (if age x <? age y then a else b)
      end
  | Some _, None => mret a
  | None, _ => mret b
  end.

(** [x >= y]: no comparison holds with a NaN. *)
Definition f32_ge (x y : f32) : bool := negb (f32_lt x y) && negb (f32_is_nan x) && negb (f32_is_nan y).

(** [checkSequential] on [readDetect] *)
Definition checkSequential (req : IclRequest) (d : SequentialDetect) : res SequentialDetect :=
  let last := lastRequest d in
  if icl_reqID last =? icl_reqID req then
    Ok (mkDetect (enabled d) (mkIclRequest (icl_reqID last) (icl_reqSubID last) (icl_offset req) (icl_length req)
          (icl_range req)) (hitCounter d) (accessCounter d))
  else
    let next := u64 (u64 (u64 (slpn (icl_range last) * lineSize P) + icl_offset last) + icl_length last) in
    let '(en, hit, acc) :=
      if next =? u64 (u64 (slpn (icl_range req) * lineSize P) + icl_offset req) then
        if enabled d then (true, hitCounter d, accessCounter d)
        else
          let hit := u32 (hitCounter d + 1) in
          let acc := u32 (accessCounter d + u64 (icl_offset last + icl_length last)) in
          ((prefetchIOCount P <=? hit) &&
             f32_ge (f32_div (f32_of_Z acc) (f32_of_Z (superPageSize P))) (prefetchIORatio P), hit, acc)
      else (false, 0, 0) in
    Ok (mkDetect en req hit acc).

(** ** Eviction *)

(** One entry of [evictData]; [reqInternal] is reused from entry to entry. *)
Definition evictEntry (tick : Z) (flush : bool) (row col : Z) (req : Request) : M C Request :=
  e ← getEvict row col;
  match e with
  | None => mret req
  | Some (set, way) =>
      x ← getLine set way;
      '(req, beginAt) ← (if valid x && dirty x then
          io ← lift (Bitset.reset_all (ioFlag req)); io ← lift (Bitset.set io row true);
          let req := mkRequest (reqID req) (reqSubID req) (tag x / lineCountInSuperPage P) io in
          beginAt ← ftl (FtlWrite req tick); mret (req, beginAt)
        else mret (req, tick));
      updLine set way (fun x => mkLine (if flush then 0 else tag x) beginAt beginAt false (if flush then false else valid x));;
      updEvict row col None;; mret req
  end.

Definition evictCache (tick : Z) (flush : bool) : M C unit :=
  for_range 0 (lineCountInSuperPage P) (fun row req =>
    for_range 0 (parallelIO P) (fun col req => evictEntry tick flush row col req) req)
    (FtlRequest_make (lineCountInSuperPage P));; mret tt.

(** ** [read] *)

(** One line of the fill: the way chosen for it. *)
Definition fillWay (tick lca : Z) (st : list (Z * (Z * Z)) * Z) : M C (list (Z * (Z * Z)) * Z) :=
  let '(readList, finishedAt) := st in
  '(way, beginAt) ← getValidWay lca tick;
  if negb (way =? waySize P) then mret st
  else
    setIdx ← lift (calcSetIndex lca);
    '(way, beginAt) ← getEmptyWay setIdx beginAt;
    '(way, beginAt) ← (if way =? waySize P then
        '(way, beginAt) ← evictFunction setIdx beginAt;
        x ← getLine setIdx way;
        when (dirty x) ('(row, col) ← lift (calcIOPosition (tag x)); updEvict row col (Some (setIdx, way)));;
        mret (way, beginAt)
      else mret (way, beginAt));
    updLine setIdx way (fun x => mkLine (tag x) beginAt beginAt false true);;
    mret (readList ++ [(lca, (setIdx, way))], Z.max finishedAt beginAt).

(** The read of a chosen line from the FTL. *)
Definition loadLine (slpn tick : Z) (e : Z * (Z * Z)) (st : Request * Z) : M C (Request * Z) :=
  let '(lca, (setIdx, way)) := e in
  let '(req, finishedAt) := st in
  io ← lift (Bitset.reset_all (ioFlag req)); io ← lift (Bitset.set io (lca mod lineCountInSuperPage P) true);
  let req := mkRequest (reqID req) (reqSubID req) (lca / lineCountInSuperPage P) io in
  beginAt ← ftl (FtlRead req tick);
  x ← getLine setIdx way;
  dramAt ← under (ddr_write (Some (setIdx, way)) (lineSize P) (insertedAt x));
  let beginAt := Z.max beginAt dramAt in
  updLine setIdx way (fun x => mkLine lca beginAt beginAt (dirty x) (valid x));;
  mret (req, if lca =? slpn then beginAt else finishedAt).

(** From the label [ICL_GENERIC_CACHE_READ] on; [ret] tells a prefetch. *)
Definition fill (ret : bool) (arrived : Z) (req : IclRequest) (tick : Z) : M C Z :=
  reqInternal ← lift (FtlRequest_of_icl (lineCountInSuperPage P) req);
  en ← gets (fun s : C => enabled (readDetect s));
  let beginLCA := slpn (icl_range req) in
  endLCA ← (if en : bool then
      under (fun f => Ok (tt, setScheduling false f));;
      let '(endLCA, trigger) :=
        if bool_decide (prefetchMode P = MODE_ALL) || negb (bSuperPage P)
        then (u64 (beginLCA + lineCountInMaxIO P), u64 (beginLCA + lineCountInMaxIO P / 2))
        else (u64 (beginLCA + lineCountInSuperPage P), u64 (beginLCA + lineCountInSuperPage P / 2)) in
      modify (setPrefetch trigger endLCA);; mret endLCA
    else mret (u64 (beginLCA + 1)));
  '(readList, finishedAt) ← for_range beginLCA endLCA (fillWay tick) ([], tick);
  let tick := finishedAt in
  evictCache tick true;;
  '(_, finishedAt) ← foldM (loadLine (slpn (icl_range req)) tick) readList (reqInternal, finishedAt);
  if en : bool then
    under (fun f => Ok (tt, setScheduling true f));; mret (if ret then arrived else finishedAt)
  else mret finishedAt.

Definition countRead (hit : bool) : M C unit :=
  modify (fun s => setStat (u64 ((stat_request s).1 + 1), (stat_request s).2)
                     (if hit then u64 ((stat_cache s).1 + 1) else (stat_cache s).1, (stat_cache s).2) s).
Definition countWrite (hit : bool) : M C unit :=
  modify (fun s => setStat ((stat_request s).1, u64 ((stat_request s).2 + 1))
                     ((stat_cache s).1, if hit then u64 ((stat_cache s).2 + 1) else (stat_cache s).2) s).

Definition with_slpn (req : IclRequest) (l : Z) : IclRequest :=
  mkIclRequest (icl_reqID req) (icl_reqSubID req) (icl_offset req) (icl_length req) (mkLPNRange l (nlp (icl_range req))).

(** [read] with the read cache: the hit flag, the request as it is left, the tick. *)
Definition readCached (req : IclRequest) (arrived : Z) : M C (bool * IclRequest * Z) :=
  let lca := slpn (icl_range req) in
  setIdx ← lift (calcSetIndex lca);
  when (useReadPrefetch P)
    (d ← gets readDetect; d ← lift (checkSequential req d); modify (setDetect d));;
  '(way, tick) ← getValidWay lca arrived;
  if negb (way =? waySize P) then
    let tickBackup := tick in
    x ← getLine setIdx way;
    let tick := if tick <? insertedAt x then insertedAt x else tick in
    updLine setIdx way (fun x => mkLine (tag x) tick (insertedAt x) (dirty x) (valid x));;
    tick ← under (ddr_read (Some (setIdx, way)) (icl_length req) tick);
    trigger ← gets prefetchTrigger;
    if useReadPrefetch P && (lca =? trigger) then
      last ← gets lastPrefetched;
      let req := with_slpn req last in
      tick ← fill true tick req tickBackup; mret (true, req, tick)
    else mret (true, req, tick)
  else tick ← fill false arrived req tick; mret (false, req, tick).

Definition read (req : IclRequest) (tick : Z) : M C (bool * IclRequest * Z) :=
  r ← (if useReadCaching P then
      r ← readCached req tick;
      l ← under (cpuLatency ICL__GENERIC_CACHE READ); mret (r.1, u64 (r.2 + l))
    else
      reqInternal ← lift (FtlRequest_of_icl (lineCountInSuperPage P) req);
      tick ← under (ddr_write None (icl_length req) tick);
      tick ← ftl (FtlRead reqInternal tick); mret (false, req, tick));
  countRead r.1.1;; mret r.

(** ** [write] *)

(** Data put into a line: a whole line is on flash already. *)
Definition putData (setIdx way lca length flash : Z) (isDirty : bool) (fresh : bool) (tick : Z) : M C Z :=
  x ← getLine setIdx way;
  let tick := if tick <? insertedAt x then insertedAt x else tick in
  let at_ := if isDirty then tick else flash in
  updLine setIdx way (fun x => mkLine (if fresh then lca else tag x) at_ at_ isDirty (if fresh then true else valid x));;
  under (ddr_write (Some (setIdx, way)) length tick).

(** The candidates: per row and column the line [compareFunction] prefers. *)
Definition collectLine (setIdx way : Z) : M C unit :=
  x ← getLine setIdx way;
  when (valid x)
    ('(row, col) ← lift (calcIOPosition (tag x));
     e ← getEvict row col; e ← compareFunction e (Some (setIdx, way)); updEvict row col e).
Definition collect : M C unit :=
  for_do 0 (setSize P) (fun setIdx => for_do 0 (waySize P) (fun way => collectLine setIdx way)).

(** [MODE_SUPERPAGE]: one candidate per row, in the last column. *)
Definition narrow : M C unit :=
  for_do 0 (lineCountInSuperPage P) (fun row => for_do 0 (u32 (parallelIO P - 1)) (fun col =>
    a ← getEvict row col; b ← getEvict row (col + 1); e ← compareFunction a b;
    updEvict row (col + 1) e;; updEvict row col None)).

(** Does a candidate free a way of the set? *)
Definition haveSet (setToFlush : Z) : M C bool :=
  for_range 0 (lineCountInSuperPage P) (fun row have =>
    for_range 0 (parallelIO P) (fun col have =>
      e ← getEvict row col;
      match e with
      | Some (set, way) => x ← getLine set way; i ← lift (calcSetIndex (tag x));
                           mret (if i =? setToFlush then true else have)
      | None => mret have
      end) have) false.

Definition pickLine (setToFlush : Z) : M C (option (Z * Z)) :=
  for_range 0 (waySize P) (fun way best =>
    x ← getLine setToFlush way;
    if valid x then compareFunction best (Some (setToFlush, way)) else mret best) None.

(** The eviction of a write that finds its set full. *)
Definition makeRoom (setToFlush : Z) (tick : Z) : M C Z :=
  collect;;
  when (bool_decide (evictMode P = MODE_SUPERPAGE)) narrow;;
  have ← haveSet setToFlush;
  when (negb have)
    (e ← pickLine setToFlush;
     match e with
     | Some (set, way) => x ← getLine set way; '(row, col) ← lift (calcIOPosition (tag x)); updEvict row col e
     | None => mret tt
     end);;
  let tick := u64 (tick + u64 (u64 (u64 (getCacheLatency * setSize P) * waySize P) * 8)) in
  evictCache tick true;; mret tick.

(** [write] with the write cache. *)
Definition writeCached (req : IclRequest) (tick flash : Z) (isDirty : bool) : M C (bool * Z) :=
  let lca := slpn (icl_range req) in
  setIdx ← lift (calcSetIndex lca);
  '(way, tick) ← getValidWay lca tick;
  if negb (way =? waySize P) then
    tick ← putData setIdx way lca (icl_length req) flash isDirty false tick; mret (true, tick)
  else
    '(way, tick) ← getEmptyWay setIdx tick;
    if negb (way =? waySize P) then
      tick ← putData setIdx way lca (icl_length req) flash isDirty true tick; mret (true, tick)
    else
      tick ← makeRoom setIdx tick;
      '(way, tick) ← getEmptyWay setIdx tick;
      if way =? waySize P then mpanic "Cache corrupted!"
      else
        tick ← under (ddr_write (Some (setIdx, way)) (icl_length req) tick);
        updLine setIdx way (fun _ => mkLine lca tick tick true true);; mret (false, tick).

Definition write (req : IclRequest) (tick : Z) : M C (bool * Z) :=
  reqInternal ← lift (FtlRequest_of_icl (lineCountInSuperPage P) req);
  let isDirty := icl_length req <? lineSize P in
  flash ← (if isDirty then mret tick else ftl (FtlWrite reqInternal tick));
  r ← (if useWriteCaching P then
      r ← writeCached req tick flash isDirty;
      l ← under (cpuLatency ICL__GENERIC_CACHE WRITE); mret (r.1, u64 (r.2 + l))
    else
      tick ← (if isDirty then ftl (FtlWrite reqInternal tick) else mret flash);
      under (fun f => Ok (tt, setScheduling false f));;
      tick ← under (ddr_read None (icl_length req) tick);
      under (fun f => Ok (tt, setScheduling true f));; mret (false, tick));
  countWrite r.1;; mret r.

(** ** [flush], [trim], [format] *)

Definition in_range (range : LPNRange) (l : Z) : bool := (slpn range <=? l) && (l <? u64 (slpn range + nlp range)).

(** One line of [flush] (write back when dirty) or [trim] (always): the flags of
    [reqInternal] add up from line to line. *)
Definition dropLine (mk_call : Request -> Z -> FtlCall) (needed : Line -> bool) (range : LPNRange) (set way : Z)
    (st : Request * Z * Z) : M C (Request * Z * Z) :=
  let '(req, tick, finishedAt) := st in
  x ← getLine set way;
  let tick := metaAccess tick in
  if in_range range (tag x) then
    r ← (if needed x then
        io ← lift (Bitset.set (ioFlag req) (tag x mod lineCountInSuperPage P) true);
        let req := mkRequest (reqID req) (reqSubID req) (tag x / lineCountInSuperPage P) io in
        ftlTick ← ftl (mk_call req tick); mret (req, Z.max finishedAt ftlTick)
      else mret (req, finishedAt));
    updLine set way (fun x => mkLine (tag x) (lastAccessed x) (insertedAt x) (dirty x) false);;
    mret (r.1, tick, r.2)
  else mret (req, tick, finishedAt).

Definition dropLines (mk_call : Request -> Z -> FtlCall) (needed : Line -> bool) (range : LPNRange) (f : FUNCTION)
    (tick : Z) : M C Z :=
  if useReadCaching P || useWriteCaching P then
    st ← for_range 0 (setSize P) (fun set st =>
      for_range 0 (waySize P) (fun way st => dropLine mk_call needed range set way st) st)
      (FtlRequest_make (lineCountInSuperPage P), tick, tick);
    l ← under (cpuLatency ICL__GENERIC_CACHE f);
    mret (u64 (Z.max st.1.2 st.2 + l))
  else mret tick.

Definition flush (range : LPNRange) (tick : Z) : M C Z := dropLines FtlWrite dirty range FLUSH tick.
Definition trim (range : LPNRange) (tick : Z) : M C Z := dropLines FtlTrim (fun _ => true) range TRIM tick.

(** The range is left in pages of the FTL. *)
Definition format (range : LPNRange) (tick : Z) : M C (LPNRange * Z) :=
  tick ← (if useReadCaching P || useWriteCaching P then
      for_range 0 (nlp range) (fun i tick =>
        let lpn := u64 (slpn range + i) in
        setIdx ← lift (calcSetIndex lpn);
        '(way, tick) ← getValidWay lpn tick;
        when (negb (way =? waySize P))
          (updLine setIdx way (fun x => mkLine (tag x) (lastAccessed x) (insertedAt x) (dirty x) false));;
        mret tick) tick
    else mret tick);
  let n := lineCountInSuperPage P in
  let range := mkLPNRange (slpn range / n) (u64 (u64 (nlp range - 1) / n + 1)) in
  tick ← ftl (FtlFormat range tick);
  l ← under (cpuLatency ICL__GENERIC_CACHE FORMAT);
  mret (range, u64 (tick + l)).

Definition resetStatValues : M C unit := modify (setStat (0, 0) (0, 0)).
End Cache.
