(* ===== verification/CacheProof.v ===== *)
(** * The cache: its invariant and its steps *)

From S2P Require Import Prelude Bitset Float32 Types Cache.

(** ** Tables *)

Section Table.
  Context {A : Type}.
  Implicit Types d : list (list A).

(** [R] rows of [K] entries. *)
Record grid (R K : Z) d : Prop := {
  gr_rows : vlen d = R;
  gr_cols : forall i r, vget d i = Some r -> vlen r = K;
}.

Lemma get2_in R K d i j : grid R K d -> 0 <= i < R -> 0 <= j < K -> exists x, get2 d i j = Some x.
Proof.
  intros [HR HK] Hi Hj. destruct (vget_in_range d i) as [r Hr]; [lia|]. specialize (HK i r Hr).
  destruct (vget_in_range r j) as [x Hx]; [lia|]. exists x. unfold get2. by rewrite Hr.
Qed.

Lemma get2_range R K d i j x : grid R K d -> get2 d i j = Some x -> 0 <= i < R /\ 0 <= j < K.
Proof.
  intros [HR HK] Hg. unfold get2 in Hg. destruct (vget d i) as [r|] eqn:Hr; [|done]. simpl in Hg.
  pose proof (vget_Some_range _ _ _ Hr). pose proof (vget_Some_range _ _ _ Hg). specialize (HK i r Hr). lia.
Qed.

Lemma put2_grid R K d i j x : grid R K d -> grid R K (put2 d i j x).
Proof.
  intros [HR HK]. unfold put2. destruct (vget d i) as [r|] eqn:Hr; [|done].
  pose proof (vget_Some_range _ _ _ Hr) as Hi. split; [by rewrite vlen_vset|]. intros i' r' Hr'.
  destruct (decide (i' = i)) as [->|Hne].
  - rewrite vget_vset_eq in Hr' by done. injection Hr' as <-. rewrite vlen_vset. by eapply HK.
  - rewrite vget_vset_ne in Hr' by done. by eapply HK.
Qed.

Lemma get2_put2 R K d i j x i' j' : grid R K d -> 0 <= i < R -> 0 <= j < K ->
  get2 (put2 d i j x) i' j' = if bool_decide (i' = i /\ j' = j) then Some x else get2 d i' j'.
Proof.
  intros [HR HK] Hi Hj. destruct (vget_in_range d i) as [r Hr]; [lia|]. specialize (HK i r Hr).
  unfold get2, put2. rewrite Hr. case_bool_decide as Hd.
  - destruct Hd as [-> ->]. rewrite vget_vset_eq by lia. simpl. by rewrite vget_vset_eq by lia.
  - destruct (decide (i' = i)) as [->|Hne]; [|by rewrite vget_vset_ne].
    rewrite vget_vset_eq, Hr by lia. simpl. destruct (decide (j' = j)) as [->|Hne']; [tauto|].
    by rewrite vget_vset_ne.
Qed.
End Table.

Lemma vget_tail {A} (x : A) l w i : i + 1 <= w -> vget (x :: l) (w - i) = vget l (w - (i + 1)).
Proof.
  intros Hw. unfold vget. rewrite (proj2 (Z.ltb_ge (w - i) 0)), (proj2 (Z.ltb_ge (w - (i + 1)) 0)) by lia.
  by replace (Z.to_nat (w - i)) with (S (Z.to_nat (w - (i + 1)))) by lia.
Qed.

(** ** The layers below *)

(** What the cache relies on: the layers fail only with [E]; the FTL's history
    of calls; completion times below the largest tick; [dist] within its bounds. *)
Class IclBelowLaws (E : err -> Prop) (F : Type) `{IclBelow F} : Type := {
  history : F -> list FtlCall;
  ftl_law c f : wpe E (ftl_call c) (fun t f' => 0 <= t < max_u64 /\ history f' = history f ++ [c]) f;
  ddr_read_law l n t f : wpe E (ddr_read l n t) (fun _ f' => history f' = history f) f;
  ddr_write_law l n t f : wpe E (ddr_write l n t) (fun t' f' => 0 <= t' < max_u64 /\ history f' = history f) f;
  setScheduling_law b f : history (setScheduling b f) = history f;
  cpu_law ns g f : wpe E (cpuLatency ns g) (fun _ f' => history f' = history f) f;
  random_law hi f : history (random_to hi f).2 = history f;
  random_range hi f : 0 <= hi -> 0 <= (random_to hi f).1 <= hi;
}.

(** Parameters the constructor makes for a cache that is used. *)
Record sane (P : CacheParam) : Prop := {
  sn_sets : 0 < setSize P < 2 ^ 32;
  sn_ways : 0 < waySize P < 2 ^ 32;
  sn_units : 0 < lineCountInSuperPage P < 2 ^ 32 - 8;
  sn_parallel : 0 < parallelIO P < 2 ^ 32;
  sn_io : lineCountInMaxIO P = parallelIO P * lineCountInSuperPage P /\ lineCountInMaxIO P < 2 ^ 32;
}.

Section Proof.
  Context {F : Type} (E : err -> Prop) `{IclBelowLaws E F} (P : CacheParam) (HP : sane P).
Notation C := (Cache.t F).
  Implicit Types s : C.

Definition line s (set way : Z) : option Line := get2 (cacheData s) set way.
Definition ev s (row col : Z) : option (option (Z * Z)) := get2 (evictData s) row col.
Definition hist s : list FtlCall := history (below s).

(** The tables have their sizes, and every line an insertion time. *)
Record shape s : Prop := {
  sh_data : grid (setSize P) (waySize P) (cacheData s);
  sh_evict : grid (lineCountInSuperPage P) (parallelIO P) (evictData s);
  sh_age : forall set way x, line s set way = Some x -> 0 <= insertedAt x < max_u64 /\ 0 <= tag x;
}.

(** ** Steps *)

Lemma getLine_wp set way x (Q : Line -> C -> Prop) s : line s set way = Some x -> Q x s -> wpe E (getLine set way) Q s.
Proof. unfold line, wpe, getLine. by intros ->. Qed.

Lemma updLine_wp set way f x (Q : unit -> C -> Prop) s : line s set way = Some x ->
  Q tt (setData (put2 (cacheData s) set way (f x)) s) -> wpe E (updLine set way f) Q s.
Proof. intros Hl HQ. unfold updLine. wp_step. eapply getLine_wp; [done|]. by wp_step. Qed.

Lemma getEvict_wp row col e (Q : option (Z * Z) -> C -> Prop) s : ev s row col = Some e -> Q e s ->
  wpe E (getEvict row col) Q s.
Proof. unfold ev, wpe, getEvict. by intros ->. Qed.

Lemma updEvict_wp row col e e0 (Q : unit -> C -> Prop) s : ev s row col = Some e0 ->
  Q tt (setEvict (put2 (evictData s) row col e) s) -> wpe E (updEvict row col e) Q s.
Proof. intros Hl HQ. unfold updEvict. wp_step. eapply getEvict_wp; [done|]. by wp_step. Qed.

Lemma line_put set way x s set' way' : shape s -> is_Some (line s set way) ->
  line (setData (put2 (cacheData s) set way x) s) set' way' =
    if bool_decide (set' = set /\ way' = way) then Some x else line s set' way'.
Proof.
  intros Hs [y Hy]. destruct (get2_range _ _ _ _ _ _ (sh_data _ Hs) Hy). by apply (get2_put2 (setSize P) (waySize P)); [apply Hs | |].
Qed.

Lemma ev_put row col e s row' col' : shape s -> is_Some (ev s row col) ->
  ev (setEvict (put2 (evictData s) row col e) s) row' col' =
    if bool_decide (row' = row /\ col' = col) then Some e else ev s row' col'.
Proof.
  intros Hs [y Hy]. destruct (get2_range _ _ _ _ _ _ (sh_evict _ Hs) Hy).
  by apply (get2_put2 (lineCountInSuperPage P) (parallelIO P)); [apply Hs | |].
Qed.

Lemma shape_data set way x s : shape s -> is_Some (line s set way) -> 0 <= insertedAt x < max_u64 -> 0 <= tag x ->
  shape (setData (put2 (cacheData s) set way x) s).
Proof.
  intros Hs Hl Hx Ht. split; simpl; [by apply put2_grid, Hs | apply Hs |]. intros set' way' y.
  rewrite line_put by done. case_bool_decide; [by intros [= <-] | by apply Hs].
Qed.

Lemma shape_evict row col e s : shape s -> shape (setEvict (put2 (evictData s) row col e) s).
Proof. intros Hs. split; simpl; [apply Hs | by apply put2_grid, Hs | apply Hs]. Qed.

Lemma line_in s set way : shape s -> 0 <= set < setSize P -> 0 <= way < waySize P -> exists x, line s set way = Some x.
Proof. intros Hs Hi Hj. by apply (get2_in (setSize P) (waySize P)); [apply Hs | |]. Qed.

Lemma line_range s set way x : shape s -> line s set way = Some x -> 0 <= set < setSize P /\ 0 <= way < waySize P.
Proof. intros Hs. by apply get2_range, Hs. Qed.

Lemma ev_in s row col : shape s -> 0 <= row < lineCountInSuperPage P -> 0 <= col < parallelIO P ->
  exists e, ev s row col = Some e.
Proof. intros Hs Hi Hj. by apply (get2_in (lineCountInSuperPage P) (parallelIO P)); [apply Hs | |]. Qed.

Lemma ev_range s row col e : shape s -> ev s row col = Some e ->
  0 <= row < lineCountInSuperPage P /\ 0 <= col < parallelIO P.
Proof. intros Hs. by apply get2_range, Hs. Qed.

(** Everything but the layers below stays. *)
Definition same_tables s s' : Prop := cacheData s' = cacheData s /\ evictData s' = evictData s.

Lemma same_line s s' set way : same_tables s s' -> line s' set way = line s set way.
Proof. intros [Hd _]. unfold line. by rewrite Hd. Qed.
Lemma same_ev s s' row col : same_tables s s' -> ev s' row col = ev s row col.
Proof. intros [_ He]. unfold ev. by rewrite He. Qed.
Lemma same_shape s s' : same_tables s s' -> shape s -> shape s'.
Proof. intros [Hd He] [H1 H2 H3]. split; rewrite ?Hd, ?He; try done. unfold line in *. by rewrite Hd. Qed.

Lemma ftl_wp c (Q : Z -> C -> Prop) s :
  (forall t s', 0 <= t < max_u64 -> same_tables s s' -> hist s' = hist s ++ [c] -> Q t s') -> wpe E (ftl c) Q s.
Proof.
  intros HQ. unfold ftl, under. apply wpe_zoom. eapply wpe_mono; [apply ftl_law|]. intros t f [Ht Hh].
  by apply HQ.
Qed.

Lemma under_wp {A} (op : F -> res (A * F)) (R : A -> Prop) (Q : A -> C -> Prop) s :
  wpe E op (fun a f' => R a /\ history f' = history (below s)) (below s) ->
  (forall a s', R a -> same_tables s s' -> hist s' = hist s -> Q a s') -> wpe E (under op) Q s.
Proof.
  intros Hop HQ. unfold under. apply wpe_zoom. eapply wpe_mono; [exact Hop|]. intros a f [Ha Hh]. by apply HQ.
Qed.

(** ** Geometry and searches *)

Lemma calcSetIndex_ok lca : 0 <= lca -> calcSetIndex P lca = Ok (lca mod setSize P) /\ 0 <= lca mod setSize P < setSize P.
Proof.
  intros Hl. pose proof (sn_sets P HP). pose proof (Z.mod_pos_bound lca (setSize P) ltac:(lia)). unfold calcSetIndex.
  rewrite (proj2 (Z.eqb_neq _ 0)), u32_small by lia. split; [done | lia].
Qed.

Lemma calcIOPosition_ok lca : 0 <= lca -> exists col, calcIOPosition P lca = Ok (lca mod lineCountInSuperPage P, col) /\
  0 <= lca mod lineCountInSuperPage P < lineCountInSuperPage P /\ 0 <= col < parallelIO P.
Proof.
  intros Hl. pose proof (sn_units P HP). pose proof (sn_parallel P HP). destruct (sn_io P HP) as [Heq Hlt].
  set (n := lineCountInSuperPage P) in *. set (m := parallelIO P) in *. unfold calcIOPosition. fold n. rewrite Heq in *.
  assert (0 < m * n) by nia. pose proof (Z.mod_pos_bound lca (m * n) ltac:(lia)) as Hm.
  rewrite !(proj2 (Z.eqb_neq _ 0)) by lia. simpl. rewrite u32_small by lia. exists (lca mod (m * n) / n).
  rewrite (Z.mul_comm m n) in *. rewrite Z.rem_mul_r by lia.
  rewrite (Z.mul_comm n (_ mod m)), Z_mod_plus_full, Z.mod_mod by lia.
  pose proof (Z.mod_pos_bound lca n ltac:(lia)). pose proof (Z.mod_pos_bound (lca / n) m ltac:(lia)).
  rewrite Z.div_add, (Z.div_small (lca mod n)) by lia. split_and!; (done || lia).
Qed.

(** The ways of a set. *)
Definition ways s (set : Z) (ws : list Line) : Prop :=
  vlen ws = waySize P /\ forall i, vget ws i = line s set i.

Lemma waysOf_wp set (Q : list Line -> C -> Prop) s : shape s -> 0 <= set < setSize P ->
  (forall ws, ways s set ws -> Q ws s) -> wpe E (waysOf P set) Q s.
Proof.
  intros Hs Hset HQ. unfold wpe, waysOf. destruct (vget_in_range (cacheData s) set) as [ws Hws].
  { rewrite (gr_rows _ _ _ (sh_data _ Hs)). lia. }
  pose proof (gr_cols _ _ _ (sh_data _ Hs) _ _ Hws) as Hlen. rewrite Hws, Hlen, Z.ltb_irrefl. simpl. apply HQ.
  assert (take (Z.to_nat (waySize P)) ws = ws) as -> by (apply take_ge; unfold vlen in Hlen; lia).
  split; [done|]. intros i. unfold line, get2. by rewrite Hws.
Qed.

(** What one look at a line costs. *)
Definition step : Z := 8 * getCacheLatency P.

Context (Hlat : 0 <= getCacheLatency P).

Lemma metaAccess_le tick : 0 <= tick -> tick + step < 2 ^ 64 -> metaAccess P tick = tick + step.
Proof.
  intros Ht Hb. unfold metaAccess, step in *. rewrite (u64_small (getCacheLatency P * 8)), u64_small by lia. lia.
Qed.

Lemma validWay_spec lca ws i tick : 0 <= tick -> tick + vlen ws * step < 2 ^ 64 ->
  let '(w, tick') := validWay P lca ws i tick in
  tick <= tick' <= tick + vlen ws * step /\
  ((w = i + vlen ws /\ forall x, x ∈ ws -> valid x = true -> tag x <> lca) \/
   (i <= w < i + vlen ws /\ exists x, vget ws (w - i) = Some x /\ valid x = true /\ tag x = lca)).
Proof.
  assert (0 <= step) as Hst by (unfold step; lia).
  revert i tick. induction ws as [|x ws IH]; intros i tick Ht Hb; simpl.
  - split; [unfold vlen; simpl; lia|]. left. split; [unfold vlen; simpl; lia | by intros x ?%not_elem_of_nil].
  - assert (vlen (x :: ws) = vlen ws + 1) as Hlen by (unfold vlen; simpl; lia). rewrite Hlen in *.
    pose proof (vlen_nonneg ws). assert (0 <= vlen ws * step) by nia. rewrite metaAccess_le by lia.
    destruct (valid x && (tag x =? lca)) eqn:Hx.
    + breflect. split; [lia|]. right. split; [lia|]. exists x. by rewrite Z.sub_diag.
    + specialize (IH (i + 1) (tick + step) ltac:(lia) ltac:(lia)). destruct (validWay _ _ _ _ _) as [w tick'].
      destruct IH as [Ht' [[-> Hno]|[Hw (y & Hy & Hv)]]].
      * split; [lia|]. left. split; [lia|]. intros y [->|Hy]%elem_of_cons Hv; [|by apply Hno].
        rewrite Hv in Hx. simpl in Hx. by breflect.
      * split; [lia|]. right. split; [lia|]. exists y. by rewrite vget_tail by lia.
Qed.

Lemma emptyWay_spec ws i n min tick : 0 <= tick -> tick + vlen ws * step < 2 ^ 64 -> i + vlen ws <= n -> 0 <= i ->
  let '(w, tick') := emptyWay P ws i n min tick in
  tick <= tick' <= tick + vlen ws * step /\
  ((w = n /\ forall x, x ∈ ws -> valid x = false -> min <= insertedAt x) \/
   (i <= w < i + vlen ws /\ exists x, vget ws (w - i) = Some x /\ valid x = false)).
Proof.
  assert (0 <= step) as Hst by (unfold step; lia).
  assert (forall ws i m min tick, 0 <= tick -> tick + vlen ws * step < 2 ^ 64 -> 0 <= i ->
    let '(w, tick') := emptyWay P ws i m min tick in
    tick <= tick' <= tick + vlen ws * step /\
    ((w = m /\ forall x, x ∈ ws -> valid x = false -> min <= insertedAt x) \/
     (i <= w < i + vlen ws /\ exists x, vget ws (w - i) = Some x /\ valid x = false))) as Hgen.
  2:{ intros. by apply Hgen. }
  clear ws i n min tick. intros ws. induction ws as [|x ws IH]; intros i m min tick Ht Hb Hi; simpl.
  - split; [unfold vlen; simpl; lia|]. left. split; [done | by intros x ?%not_elem_of_nil].
  - assert (vlen (x :: ws) = vlen ws + 1) as Hlen by (unfold vlen; simpl; lia). rewrite Hlen in *.
    pose proof (vlen_nonneg ws). assert (0 <= vlen ws * step) by nia. rewrite metaAccess_le by lia.
    destruct (valid x) eqn:Hv; simpl.
    + specialize (IH (i + 1) m min tick ltac:(lia) ltac:(lia) ltac:(lia)). destruct (emptyWay _ _ _ _ _ _) as [w tick'].
      destruct IH as [Ht' [[-> Hno]|[Hw (y & Hy & Hvy)]]]; (split; [lia|]).
      * left. split; [done|]. intros y [->|Hy]%elem_of_cons Hvy; [congruence | by apply Hno].
      * right. split; [lia|]. exists y. by rewrite vget_tail by lia.
    + destruct (Z.ltb_spec (insertedAt x) min) as [Hlt|Hge].
      * specialize (IH (i + 1) i (insertedAt x) (tick + step) ltac:(lia) ltac:(lia) ltac:(lia)).
        destruct (emptyWay _ _ _ _ _ _) as [w tick']. destruct IH as [Ht' [[-> Hno]|[Hw (y & Hy & Hvy)]]]; (split; [lia|]).
        -- right. split; [lia|]. exists x. by rewrite Z.sub_diag.
        -- right. split; [lia|]. exists y. by rewrite vget_tail by lia.
      * specialize (IH (i + 1) m min (tick + step) ltac:(lia) ltac:(lia) ltac:(lia)).
        destruct (emptyWay _ _ _ _ _ _) as [w tick']. destruct IH as [Ht' [[-> Hno]|[Hw (y & Hy & Hvy)]]]; (split; [lia|]).
        -- left. split; [done|]. intros y [->|Hy]%elem_of_cons Hvy; [done | by apply Hno].
        -- right. split; [lia|]. exists y. by rewrite vget_tail by lia.
Qed.

Lemma getValidWay_wp lca tick (Q : Z * Z -> C -> Prop) s : shape s -> 0 <= lca -> 0 <= tick ->
  tick + waySize P * step < 2 ^ 64 ->
  (forall w t, tick <= t <= tick + waySize P * step ->
    (w = waySize P /\ (forall i x, line s (lca mod setSize P) i = Some x -> valid x = true -> tag x <> lca)) \/
    (0 <= w < waySize P /\ exists x, line s (lca mod setSize P) w = Some x /\ valid x = true /\ tag x = lca) ->
    Q (w, t) s) ->
  wpe E (getValidWay P lca tick) Q s.
Proof.
  intros Hs Hl Ht Hb HQ. destruct (calcSetIndex_ok lca Hl) as [Hc Hset]. unfold getValidWay. wp_step. wp_step.
  rewrite Hc. simpl. wp_step. apply waysOf_wp; [done.. |]. intros ws [Hlen Hws]. wp_step.
  pose proof (validWay_spec lca ws 0 tick Ht ltac:(rewrite Hlen; lia)) as Hv. destruct (validWay _ _ _ _ _) as [w t].
  rewrite Hlen in Hv. destruct Hv as [Ht' [[-> Hno]|[Hw (x & Hx & Hvx)]]]; (apply HQ; [done|]).
  - left. split; [lia|]. intros i x Hi. rewrite <- Hws in Hi. apply Hno. by eapply vget_elem_of.
  - right. split; [lia|]. exists x. rewrite <- Hws. by rewrite Z.sub_0_r in Hx.
Qed.

Lemma getEmptyWay_wp set tick (Q : Z * Z -> C -> Prop) s : shape s -> 0 <= set < setSize P -> 0 <= tick ->
  tick + waySize P * step < 2 ^ 64 ->
  (forall w t, tick <= t <= tick + waySize P * step ->
    (w = waySize P /\ (forall i x, line s set i = Some x -> valid x = true)) \/
    (0 <= w < waySize P /\ exists x, line s set w = Some x /\ valid x = false) ->
    Q (w, t) s) ->
  wpe E (getEmptyWay P set tick) Q s.
Proof.
  intros Hs Hset Ht Hb HQ. unfold getEmptyWay. wp_step. apply waysOf_wp; [done.. |]. intros ws [Hlen Hws]. wp_step.
  pose proof (emptyWay_spec ws 0 (waySize P) max_u64 tick Ht ltac:(rewrite Hlen; lia) ltac:(lia) ltac:(lia)) as Hv.
  destruct (emptyWay _ _ _ _ _ _) as [w t]. rewrite Hlen in Hv.
  destruct Hv as [Ht' [[-> Hno]|[Hw (x & Hx & Hvx)]]]; (apply HQ; [done|]).
  - left. split; [done|]. intros i x Hi. destruct (valid x) eqn:Hvx; [done|].
    pose proof (sh_age _ Hs _ _ _ Hi) as [Hage _]. rewrite <- Hws in Hi.
    specialize (Hno x (vget_elem_of _ _ _ Hi) Hvx). lia.
  - right. split; [lia|]. exists x. rewrite <- Hws. by rewrite Z.sub_0_r in Hx.
Qed.

Lemma compareFunction_wp a b (Q : option (Z * Z) -> C -> Prop) s :
  (forall set way, a = Some (set, way) \/ b = Some (set, way) -> is_Some (line s set way)) ->
  (forall e s', same_tables s s' -> hist s' = hist s -> (e = a \/ e = b) -> (is_Some a \/ is_Some b -> is_Some e) -> Q e s') ->
  wpe E (compareFunction P a b) Q s.
Proof.
  intros Hl HQ. assert (same_tables s s) as Hsame by done.
  destruct a as [[sa wa]|], b as [[sb wb]|]; simpl; try (wp_step; apply HQ; naive_solver).
  destruct (Hl sa wa ltac:(by left)) as [x Hx], (Hl sb wb ltac:(by right)) as [y Hy].
  assert (wpe E (x ← getLine sa wa; y ← getLine sb wb;
    mret (if age P x <? age P y then Some (sa, wa) else Some (sb, wb))) Q s) as Hord.
  { wp_step. eapply getLine_wp; [done|]. wp_step. eapply getLine_wp; [done|]. wp_step. apply HQ; [done | done | |]; case_match; eauto. }
  destruct (policy P); [|exact Hord..]. wp_step. apply (under_wp _ (fun _ => True)).
  - unfold wpe. simpl. split; [done | apply random_law].
  - intros r s' _ Hs' Hh. wp_step. apply HQ; [done | done | |]; case_match; eauto.
Qed.
End Proof.
