(* ===== verification/CacheWrite.v ===== *)
(** * The cache: making room and writing *)

From S2P Require Import Prelude Bitset Float32 Types Cache CacheProof.

(** ** The cache: eviction *)

Section Evict.
  Context {F : Type} (E : err -> Prop) `{IclBelowLaws E F} (P : CacheParam) (HP : sane P).
  Context (Hlat : 0 <= getCacheLatency P).
Notation C := (Cache.t F).
Notation units := (lineCountInSuperPage P).
  Implicit Types s : C.

(** A call that writes exactly the unit [l]. *)
Definition names (r : Request) (l : Z) : Prop :=
  lpn r = l / units /\ Bitset.wf units (ioFlag r) /\
  forall j, 0 <= j < units -> Bitset.bit (ioFlag r) j = bool_decide (j = l mod units).
Definition written (h : list FtlCall) (l : Z) : Prop := exists r t, FtlWrite r t ∈ h /\ names r l.

Lemma written_app h h' l : written h l \/ written h' l -> written (h ++ h') l.
Proof. intros [(r & t & Hin & Hr)|(r & t & Hin & Hr)]; exists r, t; (split; [apply elem_of_app; auto | done]). Qed.

(** The entries of [evictData] point to valid lines of their row. *)
Definition pointers s : Prop := forall row col set way, ev s row col = Some (Some (set, way)) ->
  exists x, line s set way = Some x /\ (valid x = true -> tag x mod units = row).

(** What eviction does to the lines: nothing, or it drops a line and has written
    it before when it was dirty. *)
Record evicted s s' : Prop := {
  evd_shape : shape P s';
  evd_hist : exists h, hist E s' = hist E s ++ h /\
    forall set way x, line s set way = Some x -> exists x', line s' set way = Some x' /\
      (x' = x \/ (valid x' = false /\ (valid x = true -> dirty x = true -> written h (tag x))));
}.

Lemma evicted_refl s s' : shape P s' -> same_tables s s' -> hist E s' = hist E s -> evicted s s'.
Proof.
  intros Hs Hst Hh. split; [done|]. exists []. rewrite app_nil_r. split; [done|]. intros set way x Hx.
  exists x. rewrite (same_line s s') by done. auto.
Qed.

Lemma evicted_trans s1 s2 s3 : evicted s1 s2 -> evicted s2 s3 -> evicted s1 s3.
Proof.
  intros [_ (h1 & Hh1 & H1)] [Hs (h2 & Hh2 & H2)]. split; [done|]. exists (h1 ++ h2).
  split; [by rewrite Hh2, Hh1, app_assoc|]. intros set way x Hx. destruct (H1 set way x Hx) as (x2 & Hx2 & Hr).
  destruct (H2 set way x2 Hx2) as (x3 & Hx3 & Hr'). exists x3. split; [done|].
  destruct Hr as [-> | [Hv Hw]]; destruct Hr' as [-> | [Hv' Hw']].
  - by left.
  - right. split; [done|]. intros. apply written_app. auto.
  - right. split; [done|]. intros. apply written_app. auto.
  - right. split; [done|]. intros. apply written_app. auto.
Qed.

Lemma evicted_invalid s s' set way x : evicted s s' -> line s set way = Some x -> valid x = false ->
  exists x', line s' set way = Some x' /\ valid x' = false.
Proof.
  intros [_ (h & _ & Hl)] Hx Hv. destruct (Hl set way x Hx) as (x' & Hx' & [->|[? _]]); eauto.
Qed.

(** [req.ioFlag.reset(); req.ioFlag.set(unit)] *)
Lemma one_unit io l : Bitset.wf units io -> 0 <= l ->
  exists io1 io2, Bitset.reset_all io = Ok io1 /\ Bitset.set io1 (l mod units) true = Ok io2 /\
    Bitset.wf units io2 /\ forall j, 0 <= j < units -> Bitset.bit io2 j = bool_decide (j = l mod units).
Proof.
  intros Hio Hl. pose proof (sn_units P HP). pose proof (Z.mod_pos_bound l units ltac:(lia)) as Hm.
  pose proof (Bitset.reset_all_spec units noerr io Hio) as (io1 & Ho1 & Hw1 & Hb1)%wpr_noerr.
  pose proof (Bitset.set_spec units noerr io1 (l mod units) true Hw1 Hm) as (io2 & Ho2 & Hw2 & Hb2)%wpr_noerr.
  exists io1, io2. split_and!; try done. intros j Hj. rewrite Hb2, Hb1. by destruct (decide (j = l mod units)); [rewrite bool_decide_true | rewrite bool_decide_false].
Qed.

(** Only lines of [D] change, and nothing is written when they are clean. *)
Definition clean_at (D : Z -> Z -> Prop) s : Prop := forall set way x, D set way -> line s set way = Some x ->
  valid x && dirty x = false.
Record touches (D : Z -> Z -> Prop) s s' : Prop := {
  tc_lines : forall set way, ~ D set way -> line s' set way = line s set way;
  tc_quiet : clean_at D s -> hist E s' = hist E s;
}.

Lemma touches_refl D s : touches D s s.
Proof. by split. Qed.

Lemma touches_trans (D D1 : Z -> Z -> Prop) s1 s2 s3 : (forall set way, D1 set way -> D set way) -> shape P s1 ->
  evicted s1 s2 -> touches D s1 s2 -> touches D1 s2 s3 -> touches D s1 s3.
Proof.
  intros Hsub Hs1 [Hs2 (h & _ & Hl)] [HL HQ] [HL1 HQ1]. split.
  - intros set way Hn. rewrite HL1 by auto. by apply HL.
  - intros Hc. rewrite HQ1, HQ; [done | done |]. intros set way x Hd Hx. destruct (line_range P s2 set way x Hs2 Hx).
    destruct (line_in P s1 set way) as [y Hy]; [done..|].
    destruct (Hl set way y Hy) as (x' & Hx' & Hr). assert (x' = x) as -> by congruence. destruct Hr as [-> | [Hv _]]; [|by rewrite Hv].
    by apply (Hc set way); [apply Hsub|].
Qed.

Lemma evictEntry_wp tick row col req e (Q : Request -> C -> Prop) s :
  shape P s -> pointers s -> 0 <= tick < max_u64 -> ev s row col = Some e -> Bitset.wf units (ioFlag req) ->
  (forall req' s', Bitset.wf units (ioFlag req') -> evicted s s' ->
    (forall r c, ev s' r c = if bool_decide (r = row /\ c = col) then Some None else ev s r c) ->
    (forall set way, e = Some (set, way) -> exists x', line s' set way = Some x' /\ valid x' = false) ->
    touches (fun set way => e = Some (set, way)) s s' -> Q req' s') ->
  wpe E (evictEntry P tick true row col req) Q s.
Proof.
  intros Hs Hp Htick He Hio HQ. unfold evictEntry. wp_step. eapply getEvict_wp; [done|].
  destruct e as [[set way]|].
  2:{ wp_step. apply HQ; [done | by apply evicted_refl | | done | apply touches_refl].
      intros r c. case_bool_decide as Hd; [|done]. by destruct Hd as [-> ->]. }
  destruct (Hp row col set way He) as (x & Hx & Hrow). pose proof (sh_age P s Hs set way x Hx) as [Hage Htag].
  wp_step. eapply getLine_wp; [done|]. wp_step.
  (* the line is dropped at [at_], whatever was written *)
  assert (forall req' at_ s1 h, Bitset.wf units (ioFlag req') -> 0 <= at_ < max_u64 -> same_tables s s1 ->
    hist E s1 = hist E s ++ h -> (valid x = true -> dirty x = true -> written h (tag x)) ->
    (valid x && dirty x = false -> h = []) -> wpe E (updLine set way (fun _ => mkLine 0 at_ at_ false false);; updEvict row col None;; mret req') Q s1) as Hdrop.
  { intros req' at_ s1 h Hio' Hat Hst Hh Hw Hnil. pose proof (same_shape P s s1 Hst Hs) as Hs1.
    assert (line s1 set way = Some x) as Hx1 by (by rewrite (same_line s s1)).
    assert (ev s1 row col = Some (Some (set, way))) as He1 by (by rewrite (same_ev s s1)).
    wp_step. eapply updLine_wp; [exact Hx1|]. set (x' := mkLine 0 at_ at_ false false).
    set (s2 := setData _ s1). assert (shape P s2) as Hs2 by (apply shape_data; [done | by eexists | done | simpl; lia]).
    assert (forall set' way', line s2 set' way' = if bool_decide (set' = set /\ way' = way) then Some x' else line s set' way') as Hl2.
    { intros set' way'. unfold s2. rewrite (line_put P) by (done || by eexists). by rewrite (same_line s s1). }
    wp_step. eapply updEvict_wp; [exact He1|]. set (s3 := setEvict _ s2).
    assert (shape P s3) as Hs3 by (by apply shape_evict).
    wp_step. apply HQ; [done | | | |].
    - split; [done|]. exists h. split; [exact Hh|]. intros set' way' y Hy. change (line s3 set' way') with (line s2 set' way').
      rewrite Hl2. case_bool_decide as Hd; [|exists y; auto]. destruct Hd as [-> ->]. exists x'. split; [done|]. right.
      split; [done|]. assert (y = x) as -> by congruence. exact Hw.
    - intros r c. unfold s3. rewrite (ev_put P) by (done || by eexists). case_bool_decide; [done|]. by apply (same_ev s s1).
    - intros set' way' [= <- <-]. exists x'. change (line s3 set way) with (line s2 set way). rewrite Hl2.
      by rewrite bool_decide_true by done.
    - split.
      + intros set' way' Hn. change (line s3 set' way') with (line s2 set' way'). rewrite Hl2. rewrite bool_decide_false by naive_solver.
        done.
      + intros Hc. change (hist E s3) with (hist E s1). rewrite Hh, Hnil, app_nil_r; [done | by apply (Hc set way)]. }
  destruct (valid x && dirty x) eqn:Hvd.
  - apply andb_true_iff in Hvd as [Hv Hd]. destruct (one_unit (ioFlag req) (tag x) Hio Htag) as (io1 & io2 & Ho1 & Ho2 & Hw2 & Hb2).
    rewrite (Hrow Hv) in Ho2. wp_step. wp_step. rewrite Ho1. simpl. wp_step. wp_step. rewrite Ho2. simpl.
    wp_step. apply (ftl_wp E). intros t s1 Ht Hst Hh. wp_step.
    eapply Hdrop; [exact Hw2 | exact Ht | exact Hst | exact Hh | | done]. intros _ _. eexists _, _. split; [apply list_elem_of_singleton; reflexivity|].
    split_and!; [done | done |]. simpl. exact Hb2.
  - wp_step. eapply (Hdrop req tick s []); [done | done | done | by rewrite app_nil_r | | done].
    intros Hv Hd. by rewrite Hv, Hd in Hvd.
Qed.

(** The entries visited before ([row], [col]). *)
Definition before (row col r c : Z) : Prop := r < row \/ (r = row /\ c < col).
#[export] Instance before_dec row col r c : Decision (before row col r c).
Proof. unfold before. apply _. Defined.

(** The lines the entries point to. *)
Definition pointed s (set way : Z) : Prop := exists row col, ev s row col = Some (Some (set, way)).

Record progress s0 (row col : Z) (req : Request) s : Prop := {
  pg_io : Bitset.wf units (ioFlag req);
  pg_evicted : evicted s0 s;
  pg_ev : forall r c e, ev s0 r c = Some e -> ev s r c = Some (if bool_decide (before row col r c) then None else e);
  pg_done : forall r c set way, ev s0 r c = Some (Some (set, way)) -> before row col r c ->
    exists x', line s set way = Some x' /\ valid x' = false;
  pg_touches : touches (pointed s0) s0 s;
}.

Lemma progress_start s : shape P s -> progress s 0 0 (FtlRequest_make units) s.
Proof.
  intros Hs. split.
  - apply Bitset.make_spec, HP.
  - by apply evicted_refl.
  - intros r c e He. pose proof (ev_range P s r c e Hs He). rewrite bool_decide_false; [done|]. unfold before. lia.
  - intros r c set way He Hb. pose proof (ev_range P s r c _ Hs He). unfold before in Hb. lia.
  - apply touches_refl.
Qed.

Lemma pointers_evicted s0 s row col : pointers s0 -> evicted s0 s ->
  (forall r c e, ev s0 r c = Some e -> ev s r c = Some (if bool_decide (before row col r c) then None else e)) ->
  shape P s0 -> shape P s -> pointers s.
Proof.
  intros Hp [_ (h & _ & Hl)] He Hs0 Hs r c set way Hev. destruct (ev_range P s r c _ Hs Hev) as [Hr Hc].
  destruct (ev_in P s0 r c Hs0 Hr Hc) as [e He0]. rewrite (He r c e He0) in Hev. case_bool_decide; [done|].
  injection Hev as ->. destruct (Hp r c set way He0) as (x & Hx & Hrow). destruct (Hl set way x Hx) as (x' & Hx' & [-> | [Hv _]]).
  - by exists x.
  - exists x'. split; [done | congruence].
Qed.

Lemma evictCache_wp tick (Q : unit -> C -> Prop) s : shape P s -> pointers s -> 0 <= tick < max_u64 ->
  (forall s', evicted s s' -> (forall r c e, ev s' r c = Some e -> e = None) ->
    (forall r c set way, ev s r c = Some (Some (set, way)) -> exists x', line s' set way = Some x' /\ valid x' = false) ->
    touches (pointed s) s s' -> Q tt s') ->
  wpe E (evictCache P tick true) Q s.
Proof.
  intros Hs Hp Htick HQ. pose proof (sn_units P HP). pose proof (sn_parallel P HP). unfold evictCache. wp_step.
  apply (wpe_for_range _ (fun row req s' => progress s row 0 req s')); [lia | by apply progress_start | |].
  - intros row req s1 Hrow Hpg.
    apply (wpe_for_range _ (fun col req s' => progress s row col req s')); [lia | done | |].
    + intros col req2 s2 Hcol [Hio Hev He Hd Htc]. pose proof (evd_shape _ _ Hev) as Hs2.
      destruct (ev_in P s row col Hs Hrow Hcol) as [e He0].
      pose proof (He row col e He0) as He2. rewrite bool_decide_false in He2 by (unfold before; lia).
      eapply evictEntry_wp; [done | by eapply pointers_evicted | done | exact He2 | done |].
      intros req3 s3 Hio3 Hev3 Hev3' Hpt Htc3. split; [done | by eapply evicted_trans | | |].
      * intros r c e' Hec. rewrite Hev3', (He r c e' Hec). case_bool_decide as Hd1.
        -- rewrite bool_decide_true; [done|]. unfold before. lia.
        -- f_equal. repeat case_bool_decide; try done; unfold before in *; lia.
      * intros r c set way Hec Hb. destruct (decide (before row col r c)) as [Hb'|Hnb].
        -- destruct (Hd r c set way Hec Hb') as (x & Hx & Hv). by apply (evicted_invalid s2 s3 set way x).
        -- assert (r = row /\ c = col) as [-> ->] by (unfold before in *; lia). apply Hpt. congruence.
      * eapply touches_trans; [| exact Hs | exact Hev | exact Htc | exact Htc3]. intros set way ->. by exists row, col.
    + intros req2 s2 [Hio Hev He Hd Htc].
      assert (forall r c e, ev s r c = Some e -> before row (parallelIO P) r c <-> before (row + 1) 0 r c) as Hiff.
      { intros r c e Hec. pose proof (ev_range P s r c e Hs Hec). unfold before. lia. }
      split; [done | done | | | done].
      * intros r c e Hec. rewrite (He r c e Hec). f_equal. by erewrite bool_decide_ext by (by eapply Hiff).
      * intros r c set way Hec Hb. by apply (Hd r c); [|eapply Hiff].
  - intros req s1 [Hio Hev He Hd Htc]. wp_step. apply HQ; [done | | | done].
    + intros r c e Hec. destruct (ev_range P s1 r c e (evd_shape _ _ Hev) Hec) as [Hr Hc].
      destruct (ev_in P s r c Hs Hr Hc) as [e0 He0]. rewrite (He r c e0 He0) in Hec.
      rewrite bool_decide_true in Hec by (unfold before; lia). congruence.
    + intros r c set way Hec. destruct (ev_range P s r c _ Hs Hec). apply (Hd r c); [done | unfold before; lia].
Qed.
End Evict.

Section Room.
  Context {F : Type} (E : err -> Prop) `{IclBelowLaws E F} (P : CacheParam) (HP : sane P).
  Context (Hlat : 0 <= getCacheLatency P).
Notation C := (Cache.t F).
Notation units := (lineCountInSuperPage P).
  Implicit Types s : C.

(** A line lies in the set of its tag, once. *)
Record placed s : Prop := {
  pl_set : forall set way x, line s set way = Some x -> valid x = true -> tag x mod setSize P = set;
  pl_once : forall set way way' x y, line s set way = Some x -> line s set way' = Some y ->
    valid x = true -> valid y = true -> tag x = tag y -> way = way';
}.

Record cache_ok s : Prop := {
  ck_shape : shape P s;
  ck_evict : forall row col e, ev s row col = Some e -> e = None;
  ck_placed : placed s;
}.

Lemma placed_evicted s s' : placed s -> shape P s -> evicted E P s s' -> placed s'.
Proof.
  intros [Hset Honce] Hs [Hs' (h & _ & Hl)].
  assert (forall set way x', line s' set way = Some x' -> valid x' = true -> line s set way = Some x') as Hback.
  { intros set way x' Hx' Hv. destruct (line_range P s' set way x' Hs' Hx') as [Hr Hc].
    destruct (line_in P s set way Hs Hr Hc) as [x Hx]. destruct (Hl set way x Hx) as (y & Hy & [-> | [? _]]); congruence. }
  split.
  - intros set way x Hx Hv. by apply (Hset set way x); [apply Hback|].
  - intros set way way' x y Hx Hy Hvx Hvy. apply (Honce set way way' x y); [by apply Hback.. | done | done].
Qed.

(** While candidates are collected only [evictData] changes: its entries point
    to valid lines of their row. *)
Record collecting s0 s : Prop := {
  co_shape : shape P s;
  co_data : cacheData s = cacheData s0;
  co_hist : hist E s = hist E s0;
  co_ptr : forall row col set way, ev s row col = Some (Some (set, way)) ->
    exists x, line s0 set way = Some x /\ valid x = true /\ tag x mod units = row;
}.

Lemma co_line s0 s set way : collecting s0 s -> line s set way = line s0 set way.
Proof. intros [_ Hd _ _]. unfold line. by rewrite Hd. Qed.

Lemma co_same s0 s s' : collecting s0 s -> same_tables s s' -> hist E s' = hist E s -> collecting s0 s'.
Proof.
  intros [Hs Hd Hh Hp] Hst Hh'. split; [by apply (same_shape P s) | destruct Hst; congruence | congruence |].
  intros row col set way. rewrite (same_ev s s') by done. apply Hp.
Qed.

Lemma co_set s0 s row col e : collecting s0 s -> is_Some (ev s row col) ->
  (forall set way, e = Some (set, way) -> exists x, line s0 set way = Some x /\ valid x = true /\ tag x mod units = row) ->
  collecting s0 (setEvict (put2 (evictData s) row col e) s).
Proof.
  intros [Hs Hd Hh Hp] Hev He. split; [by apply shape_evict | done | done |].
  intros row' col' set way. rewrite (ev_put P) by done. case_bool_decide as Hdec; [|by apply Hp].
  destruct Hdec as [-> ->]. intros [= ->]. by apply He.
Qed.

(** Comparing two candidates of a row. *)
Lemma compare_co a b (Q : option (Z * Z) -> C -> Prop) s0 s row : collecting s0 s ->
  (forall set way, a = Some (set, way) \/ b = Some (set, way) ->
     exists x, line s0 set way = Some x /\ valid x = true /\ tag x mod units = row) ->
  (forall e s', collecting s0 s' -> same_tables s s' ->
     (forall set way, e = Some (set, way) -> exists x, line s0 set way = Some x /\ valid x = true /\ tag x mod units = row) ->
     (e = a \/ e = b) -> (is_Some a \/ is_Some b -> is_Some e) -> Q e s') ->
  wpe E (compareFunction P a b) Q s.
Proof.
  intros Hco Hab HQ. apply (compareFunction_wp E).
  - intros set way Hin. destruct (Hab set way Hin) as (x & Hx & _). exists x. by rewrite (co_line s0 s).
  - intros e s' Hst Hh He Hsome. apply HQ; [by eapply co_same | done | | done | done].
    intros set way ->. apply Hab. destruct He as [<-|<-]; auto.
Qed.

Lemma collectLine_wp set way (Q : unit -> C -> Prop) s0 s : collecting s0 s -> shape P s0 ->
  0 <= set < setSize P -> 0 <= way < waySize P -> (forall s', collecting s0 s' -> Q tt s') ->
  wpe E (collectLine P set way) Q s.
Proof.
  intros Hco Hs0 Hset Hway HQ. destruct (line_in P s0 set way Hs0 Hset Hway) as [x Hx]. unfold collectLine.
  wp_step. eapply getLine_wp; [by rewrite (co_line s0 s)|]. apply wpe_when; intros Hv; [|by apply HQ].
  pose proof (sh_age P s0 Hs0 _ _ _ Hx) as [_ Htag].
  destruct (calcIOPosition_ok P HP (tag x) Htag) as (col & Hc & Hrow & Hcol). wp_step. wp_step. rewrite Hc. simpl.
  destruct (ev_in P s _ _ (co_shape _ _ Hco) Hrow Hcol) as [e He]. wp_step. eapply getEvict_wp; [exact He|].
  wp_step. eapply (compare_co _ _ _ s0 s (tag x mod units)); [done | |].
  - intros set' way' [->|[= <- <-]]; [by eapply co_ptr | by exists x].
  - intros e' s1 Hco1 Hst Hptr _ _. eapply updEvict_wp; [by rewrite (same_ev s s1)|]. apply HQ.
    apply co_set; [done | rewrite (same_ev s s1) by done; by eexists | done].
Qed.

Lemma collect_wp (Q : unit -> C -> Prop) s0 : shape P s0 -> (forall row col e, ev s0 row col = Some e -> e = None) ->
  (forall s', collecting s0 s' -> Q tt s') -> wpe E (collect P) Q s0.
Proof.
  intros Hs0 Hnone HQ. pose proof (sn_sets P HP). pose proof (sn_ways P HP). unfold collect, for_do.
  apply (wpe_for_range _ (fun _ _ => collecting s0)); [lia | | | by intros [] s' Hco; apply HQ].
  - split; try done. intros row col set way He. by apply Hnone in He.
  - intros set [] s1 Hset Hco1. apply (wpe_for_range _ (fun _ _ => collecting s0)); [lia | done | | done].
    intros way [] s2 Hway Hco2. by eapply collectLine_wp; [exact Hco2 | ..].
Qed.

Lemma narrow_wp (Q : unit -> C -> Prop) s0 s : collecting s0 s -> (forall s', collecting s0 s' -> Q tt s') ->
  wpe E (narrow P) Q s.
Proof.
  intros Hco HQ. pose proof (sn_units P HP). pose proof (sn_parallel P HP). unfold narrow, for_do.
  rewrite u32_small by lia.
  apply (wpe_for_range _ (fun _ _ => collecting s0)); [lia | done | | by intros [] s' ?; apply HQ].
  intros row [] s1 Hrow Hco1. apply (wpe_for_range _ (fun _ _ => collecting s0)); [lia | done | | done].
  intros col [] s2 Hcol Hco2. pose proof (co_shape _ _ Hco2) as Hs2.
  destruct (ev_in P s2 row col Hs2) as [a Ha]; [lia..|]. destruct (ev_in P s2 row (col + 1) Hs2) as [b Hb]; [lia..|].
  wp_step. eapply getEvict_wp; [exact Ha|]. wp_step. eapply getEvict_wp; [exact Hb|]. wp_step.
  eapply (compare_co _ _ _ s0 s2 row); [done | intros set way [->| ->]; by eapply co_ptr |].
  intros e s3 Hco3 Hst Hptr _ _. wp_step. eapply updEvict_wp; [by rewrite (same_ev s2 s3)|]. set (s4 := setEvict _ s3).
  assert (collecting s0 s4) as Hco4.
  { apply co_set; [done | rewrite (same_ev s2 s3) by done; by eexists | done]. }
  assert (ev s4 row col = Some a) as Ha4.
  { unfold s4. rewrite (ev_put P); [|apply Hco3 | rewrite (same_ev s2 s3) by done; by eexists].
    rewrite bool_decide_false by lia. by rewrite (same_ev s2 s3). }
  eapply updEvict_wp; [exact Ha4|]. apply co_set; [done | by eexists | done].
Qed.

Lemma haveSet_wp set (Q : bool -> C -> Prop) s0 s : collecting s0 s -> shape P s0 ->
  (forall have, (have = true -> exists row col set' way x, ev s row col = Some (Some (set', way)) /\
     line s0 set' way = Some x /\ valid x = true /\ tag x mod setSize P = set) -> Q have s) ->
  wpe E (haveSet P set) Q s.
Proof.
  intros Hco Hs0 HQ. pose proof (sn_units P HP). pose proof (sn_parallel P HP). unfold haveSet.
  set (I := fun (_ : Z) have s' => s' = s /\ (have = true -> exists row col set' way x, ev s row col = Some (Some (set', way)) /\
     line s0 set' way = Some x /\ valid x = true /\ tag x mod setSize P = set)).
  apply (wpe_for_range _ I); [lia | by split | | by intros have s' [-> Hh]; apply HQ].
  intros row have s1 Hrow Hi. apply (wpe_for_range _ I); [lia | exact Hi | | done].
  clear have s1 Hi. intros col have s1 Hcol [-> Hh]. pose proof (co_shape _ _ Hco) as Hs.
  destruct (ev_in P s row col Hs Hrow Hcol) as [e He]. wp_step. eapply getEvict_wp; [exact He|].
  destruct e as [[set' way]|]; [|by wp_step].
  destruct (co_ptr _ _ Hco row col set' way He) as (x & Hx & Hv & _). wp_step.
  eapply getLine_wp; [by rewrite (co_line s0 s)|]. pose proof (sh_age P s0 Hs0 _ _ _ Hx) as [_ Htag].
  destruct (calcSetIndex_ok P HP (tag x) Htag) as [Hc _]. wp_step. wp_step. rewrite Hc. simpl. wp_step. split; [done|].
  destruct (Z.eqb_spec (tag x mod setSize P) set) as [Heq|]; [|done]. intros _. by exists row, col, set', way, x.
Qed.

Lemma pickLine_wp set (Q : option (Z * Z) -> C -> Prop) s0 s : collecting s0 s -> shape P s0 -> 0 <= set < setSize P ->
  (forall way x, line s0 set way = Some x -> valid x = true) ->
  (forall way x s', collecting s0 s' -> same_tables s s' -> line s0 set way = Some x -> Q (Some (set, way)) s') ->
  wpe E (pickLine P set) Q s.
Proof.
  intros Hco Hs0 Hset Hall HQ. pose proof (sn_ways P HP). unfold pickLine.
  apply (wpe_for_range _ (fun i best s' => collecting s0 s' /\ same_tables s s' /\
    (i = 0 /\ best = None \/ exists way x, best = Some (set, way) /\ line s0 set way = Some x))); [lia | split_and!; [done | done | by left] | |].
  - intros way best s1 Hway (Hco1 & Hst1 & Hb). destruct (line_in P s0 set way Hs0 Hset Hway) as [x Hx].
    wp_step. eapply getLine_wp; [by rewrite (co_line s0 s1)|]. rewrite (Hall way x Hx).
    apply (compareFunction_wp E).
    + intros set' way' [->|[= <- <-]]; rewrite (co_line s0 s1) by done; [|by eexists].
      destruct Hb as [[_ ?]|(? & ? & [= -> ->] & ?)]; [done | by eexists].
    + intros e s2 Hst2 Hh2 He Hsome. split_and!; [by eapply co_same | destruct Hst1, Hst2; split; congruence |]. right.
      destruct He as [-> | ->]; [|by exists way, x]. destruct Hb as [[_ ->]|Hb]; [|done].
      destruct (Hsome ltac:(right; by eexists)) as [? [=]].
  - intros best s1 (Hco1 & Hst1 & [[? _]|(way & x & -> & Hx)]); [lia|]. by eapply HQ.
Qed.

Lemma evicted_from s0 s s' : cacheData s = cacheData s0 -> hist E s = hist E s0 -> evicted E P s s' -> evicted E P s0 s'.
Proof.
  intros Hd Hh [Hs (h & Hh' & Hl)]. split; [done|]. exists h. split; [congruence|]. unfold line in *. by rewrite <- Hd.
Qed.

Notation look := (step P).

(** A full set loses a line, and no dirty line is dropped unwritten. *)
Lemma makeRoom_wp set tick (Q : Z -> C -> Prop) s : cache_ok s -> 0 <= set < setSize P ->
  (forall way x, line s set way = Some x -> valid x = true) -> 0 <= tick -> tick + setSize P * waySize P * look < max_u64 ->
  (forall s', evicted E P s s' -> (forall row col e, ev s' row col = Some e -> e = None) ->
     (exists way x, line s' set way = Some x /\ valid x = false) -> Q (tick + setSize P * waySize P * look) s') ->
  wpe E (makeRoom P set tick) Q s.
Proof.
  intros [Hs Hnone [Hset Honce]] Hrange Hall Htick Hcost HQ. pose proof (sn_sets P HP). pose proof (sn_ways P HP).
  unfold makeRoom, step in *.
  assert (0 <= getCacheLatency P * setSize P) as N1 by nia. assert (0 <= getCacheLatency P * setSize P * waySize P) as N2 by nia.
  assert (getCacheLatency P * setSize P <= getCacheLatency P * setSize P * waySize P) as N3 by nia.
  assert (setSize P * waySize P * (8 * getCacheLatency P) = getCacheLatency P * setSize P * waySize P * 8) as N4 by ring.
  unfold max_u64 in *. rewrite N4 in *.
  assert (forall s1, collecting s s1 -> (exists row col set' way x, ev s1 row col = Some (Some (set', way)) /\
      line s set' way = Some x /\ valid x = true /\ tag x mod setSize P = set) ->
    wpe E (evictCache P (u64 (tick + u64 (u64 (u64 (getCacheLatency P * setSize P) * waySize P) * 8))) true;;
           mret (u64 (tick + u64 (u64 (u64 (getCacheLatency P * setSize P) * waySize P) * 8)))) Q s1) as Hgo.
  { intros s1 [Hs1 Hd1 Hh1 Hp1] (row & col & set' & way & x & Hev & Hx & Hv & Ht).
    rewrite (u64_small (getCacheLatency P * setSize P)), (u64_small (getCacheLatency P * setSize P * waySize P)) by lia.
    rewrite (u64_small (_ * 8)), u64_small by lia. wp_step. apply (evictCache_wp E P HP); [done | | unfold max_u64; lia |].
    - intros r c st w He. destruct (Hp1 r c st w He) as (y & Hy & _ & Hr). exists y. split; [|done]. unfold line in *. by rewrite Hd1.
    - intros s2 Hev2 Hn2 Hinv _. wp_step. apply HQ; [by apply (evicted_from s s1) | done |].
      destruct (Hinv row col set' way Hev) as (x' & Hx' & Hv'). rewrite (Hset set' way x Hx Hv) in Ht. subst set'. by exists way, x'. }
  wp_step. apply (collect_wp _ s Hs Hnone). intros s1 Hco1. wp_step.
  assert (forall s2, collecting s s2 -> wpe E (have ← haveSet P set;
    when (negb have)
      (e ← pickLine P set;
       match e with
       | Some (set, way) => x ← getLine set way; '(row, col) ← lift (calcIOPosition P (tag x)); updEvict row col e
       | None => mret tt
       end);;
    evictCache P (u64 (tick + u64 (u64 (u64 (getCacheLatency P * setSize P) * waySize P) * 8))) true;;
    mret (u64 (tick + u64 (u64 (u64 (getCacheLatency P * setSize P) * waySize P) * 8)))) Q s2) as Hrest.
  { intros s2 Hco2. wp_step. apply (haveSet_wp set _ s s2 Hco2 Hs). intros have Hhave. wp_step. apply wpe_when; intros Hn.
    - wp_step. eapply (pickLine_wp set _ s s2); [done.. |]. intros way x s3 Hco3 Hst3 Hx.
      pose proof (sh_age P s Hs _ _ _ Hx) as [_ Htag]. wp_step. eapply getLine_wp; [by rewrite (co_line s s3)|].
      destruct (calcIOPosition_ok P HP (tag x) Htag) as (col & Hc & Hrow & Hcol). wp_step. wp_step. rewrite Hc. simpl.
      destruct (ev_in P s3 _ _ (co_shape _ _ Hco3) Hrow Hcol) as [e He]. eapply updEvict_wp; [exact He|]. apply Hgo.
      + apply co_set; [done | by eexists |]. intros st w [= <- <-]. exists x. split_and!; [done | by eapply Hall | done].
      + eexists _, _, set, way, x. split_and!; [rewrite (ev_put P); [by rewrite bool_decide_true | apply Hco3 | by eexists]
          | done | by eapply Hall | eapply Hset; [done | by eapply Hall]].
    - apply negb_false_iff in Hn as ->. by apply Hgo, Hhave. }
  apply wpe_when; intros _; [|by apply Hrest]. eapply narrow_wp; [exact Hco1|]. apply Hrest.
Qed.

(** ** Writing a line *)

(** The data of unit [l] is in the cache, and dirty or written. *)
Definition holds s (h : list FtlCall) (l : Z) : Prop := exists set way x,
  line s set way = Some x /\ valid x = true /\ tag x = l /\ (dirty x = true \/ written P h l).

(** No dirty line but that of [l] is lost: it stays, or it was written. *)
Definition keeps s s' (h : list FtlCall) (l : Z) : Prop := forall set way x, line s set way = Some x ->
  valid x = true -> dirty x = true -> tag x <> l -> line s' set way = Some x \/ written P h (tag x).

(** What a write guarantees. *)
Record stored s s' (l : Z) : Prop := {
  st_ok : cache_ok s';
  st_data : exists h, hist E s' = hist E s ++ h /\ holds s' h l /\ keeps s s' h l;
}.

Lemma cache_ok_put set way x s : cache_ok s -> is_Some (line s set way) -> 0 <= insertedAt x < max_u64 -> 0 <= tag x ->
  tag x mod setSize P = set ->
  (forall way' y, way' <> way -> line s set way' = Some y -> valid y = true -> tag y <> tag x) ->
  cache_ok (setData (put2 (cacheData s) set way x) s).
Proof.
  intros [Hs Hn [Hset Honce]] Hl Hage Htag Hmod Hothers. split; [by apply shape_data | done |]. split.
  - intros set' way' y. rewrite (line_put P) by done. case_bool_decide as Hd; [|by eapply Hset].
    destruct Hd as [-> ->]. by intros [= <-].
  - intros set' way1 way2 y z. rewrite !(line_put P) by done. repeat case_bool_decide; naive_solver.
Qed.

Lemma cache_ok_same s s' : same_tables s s' -> cache_ok s -> cache_ok s'.
Proof.
  intros Hst [Hs Hn [Hset Honce]]. split; [by apply (same_shape P s) | |].
  - intros row col e. rewrite (same_ev s s') by done. apply Hn.
  - split; [intros set way x; rewrite (same_line s s') by done; apply Hset |].
    intros set way way' x y. rewrite !(same_line s s') by done. apply Honce.
Qed.

(** Storing into a way that holds [l] or nothing. *)
Lemma store_wp set way l x new (op : F -> res (Z * F)) (Q : Z -> C -> Prop) s0 s h :
  (forall f, wpe E op (fun t f' => 0 <= t < max_u64 /\ history f' = history f) f) ->
  cache_ok s -> set = l mod setSize P -> line s set way = Some x -> (valid x = true -> tag x = l) ->
  (forall way' y, line s set way' = Some y -> valid y = true -> tag y = l -> way' = way) ->
  0 <= insertedAt new < max_u64 -> 0 <= l -> tag new = l -> valid new = true -> (dirty new = true \/ written P h l) ->
  keeps s0 s h l -> hist E s = hist E s0 ++ h -> (forall t s', 0 <= t < max_u64 -> stored s0 s' l -> Q t s') ->
  wpe E (updLine set way (fun _ => new);; under op) Q s.
Proof.
  intros Hop Hok -> Hx Hvx Honly Hage Hl Ht Hv Hd Hk Hh HQ. wp_step. eapply updLine_wp; [exact Hx|].
  set (s1 := setData _ s). pose proof (ck_shape _ Hok) as Hs.
  assert (cache_ok s1) as Hok1.
  { apply cache_ok_put; [done | by eexists | done | by rewrite Ht | by rewrite Ht |]. rewrite Ht.
    intros way' y Hne Hy Hvy Hty. by destruct Hne; apply (Honly way' y). }
  apply (under_wp E _ (fun t => 0 <= t < max_u64)); [apply Hop|]. intros t s2 Htb Hst Hh2.
  apply HQ; [done|]. split; [by apply (cache_ok_same s1)|]. exists h.
  split; [by rewrite Hh2 | split].
  - exists (l mod setSize P), way, new. split; [|done]. rewrite (same_line s1 s2) by done. unfold s1.
    rewrite (line_put P) by (done || by eexists). by rewrite bool_decide_true.
  - intros set' way' y Hy Hvy Hdy Hne. destruct (Hk set' way' y Hy Hvy Hdy Hne) as [Hys|]; [|by right]. left.
    rewrite (same_line s1 s2) by done. unfold s1. rewrite (line_put P) by (done || by eexists).
    case_bool_decide as Hc; [|done]. destruct Hc as [-> ->]. assert (y = x) as -> by congruence. by apply Hvx in Hvy.
Qed.

Lemma keeps_refl s s' l h : same_tables s s' -> keeps s s' h l.
Proof. intros Hst set way x Hx _ _ _. left. by rewrite (same_line s s'). Qed.

(** The request of the FTL names the unit of the cache request. *)
Lemma of_icl_names req : 0 <= slpn (icl_range req) ->
  exists r, FtlRequest_of_icl units req = Ok r /\ names P r (slpn (icl_range req)).
Proof.
  intros Hl. pose proof (sn_units P HP) as Hn. pose proof (Z.mod_pos_bound (slpn (icl_range req)) units ltac:(lia)) as Hm.
  destruct (Bitset.make_spec units ltac:(lia)) as [Hw0 Hb0].
  pose proof (Bitset.set_spec units noerr _ (slpn (icl_range req) mod units) true Hw0 Hm) as (io & Ho & Hw & Hb)%wpr_noerr.
  unfold FtlRequest_of_icl. rewrite Ho. eexists. split; [reflexivity|]. split_and!; [done | done |]. simpl. intros j Hj.
  rewrite Hb, Hb0. by destruct (decide (j = slpn (icl_range req) mod units)); [rewrite bool_decide_true | rewrite bool_decide_false].
Qed.

Lemma putData_wp set way l length flash (d fresh : bool) tick x (Q : Z -> C -> Prop) s0 s h :
  cache_ok s -> set = l mod setSize P -> 0 <= l -> line s set way = Some x ->
  (if fresh then valid x = false else valid x = true /\ tag x = l) ->
  (forall way' y, line s set way' = Some y -> valid y = true -> tag y = l -> way' = way) ->
  0 <= tick < max_u64 -> 0 <= flash < max_u64 -> (d = false -> written P h l) ->
  keeps s0 s h l -> hist E s = hist E s0 ++ h -> (forall t s', 0 <= t < max_u64 -> stored s0 s' l -> Q t s') ->
  wpe E (putData set way l length flash d fresh tick) Q s.
Proof.
  intros Hok Hset Hl Hx Hf Honly Ht Hfl Hd Hk Hh HQ. unfold putData. wp_step. eapply getLine_wp; [exact Hx|].
  pose proof (sh_age P s (ck_shape _ Hok) _ _ _ Hx) as [Hage _]. cbv zeta.
  set (t := if tick <? insertedAt x then insertedAt x else tick).
  assert (0 <= t < max_u64) as Htb by (unfold t; destruct (tick <? insertedAt x); lia).
  set (new := mkLine l (if d then t else flash) (if d then t else flash) d true).
  assert (wpe E (updLine set way (fun _ => new);; under (ddr_write (Some (set, way)) length t)) Q s) as Hs.
  { apply (store_wp set way l x new _ Q s0 s h); try done.
    - intros f. apply ddr_write_law.
    - intros Hv. destruct fresh; [congruence | tauto].
    - simpl. by destruct d.
    - destruct d; [by left | right; by apply Hd]. }
  revert Hs. unfold updLine, wpe, mbind, M_bind, getLine, modify. unfold line in Hx. rewrite Hx. simpl.
  destruct fresh; [done|]. destruct Hf as [-> ->]. done.
Qed.

Notation budget := ((3 * waySize P + setSize P * waySize P) * look).

Lemma writeCached_wp req tick flash (d : bool) (Q : bool * Z -> C -> Prop) s0 s h : cache_ok s ->
  0 <= slpn (icl_range req) -> 0 <= tick -> tick + budget < max_u64 -> 0 <= flash < max_u64 ->
  (d = false -> written P h (slpn (icl_range req))) -> same_tables s0 s -> hist E s = hist E s0 ++ h ->
  (forall r s', stored s0 s' (slpn (icl_range req)) -> Q r s') ->
  wpe E (writeCached P req tick flash d) Q s.
Proof.
  intros Hok Hl Ht Hb Hfl Hd Hst Hh HQ. pose proof (ck_shape _ Hok) as Hs. pose proof (sn_sets P HP). pose proof (sn_ways P HP).
  set (l := slpn (icl_range req)) in *. destruct (calcSetIndex_ok P HP l Hl) as [Hc Hrange].
  assert (0 <= look) as Hlk by (unfold step; lia). assert (0 <= waySize P * look) as N1 by nia.
  assert (0 <= setSize P * waySize P * look) as N2 by nia.
  assert (budget = waySize P * look + waySize P * look + waySize P * look + setSize P * waySize P * look) as Hbud by ring.
  rewrite Hbud in Hb. unfold max_u64 in Hb.
  unfold writeCached. fold l. wp_step. wp_step. rewrite Hc. simpl. wp_step.
  apply (getValidWay_wp E P HP Hlat); [done | done | done | lia |]. intros w t Hwt Hw.
  destruct Hw as [[-> Hno]|[Hw (x & Hx & Hv & Htag)]].
  2:{ rewrite (proj2 (Z.eqb_neq w (waySize P))) by lia. simpl. wp_step.
      eapply (putData_wp _ _ _ _ _ _ _ _ x _ s0 s h); try done; [| unfold max_u64; lia | by apply keeps_refl |].
      - intros way' y Hy Hvy Hty. eapply (pl_once _ (ck_placed _ Hok)); [exact Hy | exact Hx | done | done | congruence].
      - intros t' s' _ Hs'. wp_step. by apply HQ. }
  rewrite Z.eqb_refl. simpl. wp_step. apply (getEmptyWay_wp E P Hlat); [done | done | lia | lia |].
  intros w t2 Hwt2 Hw. destruct Hw as [[-> Hall]|[Hw (x & Hx & Hv)]].
  2:{ rewrite (proj2 (Z.eqb_neq w (waySize P))) by lia. simpl. wp_step.
      eapply (putData_wp _ _ _ _ _ _ _ _ x _ s0 s h); try done; [| unfold max_u64; lia | by apply keeps_refl |].
      - intros way' y Hy Hvy Hty. by destruct (Hno way' y Hy Hvy).
      - intros t' s' _ Hs'. wp_step. by apply HQ. }
  rewrite Z.eqb_refl. simpl. wp_step. apply makeRoom_wp; [done | done | done | lia | unfold max_u64; lia |].
  intros s1 Hev Hnone1 (way1 & x1 & Hx1 & Hv1).
  assert (cache_ok s1) as Hok1 by (split; [apply Hev | done | by eapply placed_evicted; [apply Hok | | exact Hev]]).
  destruct Hev as [Hs1 (h1 & Hh1 & Hl1)]. wp_step.
  apply (getEmptyWay_wp E P Hlat); [done | done | lia | lia |]. intros w t3 Hwt3 Hw3.
  destruct Hw3 as [[-> Hall1]|[Hw3 (x3 & Hx3 & Hv3)]]; [specialize (Hall1 _ _ Hx1); congruence|].
  rewrite (proj2 (Z.eqb_neq w (waySize P))) by lia. wp_step.
  apply (under_wp E _ (fun t => 0 <= t < max_u64)); [apply ddr_write_law|]. intros t4 s2 Ht4 Hst2 Hh2. wp_step.
  assert (line s2 (l mod setSize P) w = Some x3) as Hx3' by (by rewrite (same_line s1 s2)).
  assert (keeps s0 s2 (h ++ h1) l) as Hk.
  { intros set way y Hy Hvy Hdy Hne. rewrite <- (same_line s0 s) in Hy by done.
    destruct (Hl1 set way y Hy) as (y' & Hy' & [-> | [_ Hw']]); [left; by rewrite (same_line s1 s2)|].
    right. apply written_app. auto. }
  assert (wpe E (updLine (l mod setSize P) w (fun _ => mkLine l t4 t4 true true);; under (fun f => Ok (t4, f)))
    (fun _ s' => stored s0 s' l) s2) as Hfin.
  { eapply (store_wp _ w l x3 _ _ _ s0 s2 (h ++ h1)); [| by apply (cache_ok_same s1) | done | exact Hx3' | congruence | | exact Ht4
      | done | done | done | by left | exact Hk | | done].
    - intros f. unfold wpe. simpl. done.
    - intros way' y Hy Hvy Hty. rewrite (same_line s1 s2) in Hy by done. exfalso.
      destruct (line_range P s1 _ _ _ Hs1 Hy) as [R1 R2]. destruct (line_in P s _ _ Hs R1 R2) as [y0 Hy0].
      destruct (Hl1 _ _ y0 Hy0) as (y' & Hy' & [-> | [? _]]); [|congruence].
      assert (y = y0) as -> by congruence. by apply (Hno way' y0 Hy0).
    - by rewrite Hh2, Hh1, Hh, app_assoc. }
  unfold wpe, mbind, M_bind in Hfin |- *. destruct (updLine _ _ _ s2) as [[[] s3]|]; [|done]. simpl in *.
  apply HQ. by destruct s3.
Qed.

Lemma stored_same s s1 s2 l : same_tables s1 s2 -> hist E s2 = hist E s1 -> stored s s1 l -> stored s s2 l.
Proof.
  intros Hst Hh [Hok (h & Hh1 & (set & way & x & Hx & Hv) & Hk)]. split; [by apply (cache_ok_same s1)|].
  exists h. split; [by rewrite Hh|]. split.
  - exists set, way, x. by rewrite (same_line s1 s2).
  - intros set' way' y Hy Hvy Hd Hne. rewrite (same_line s1 s2) by done. by apply Hk.
Qed.

(** A request for a whole line is written to flash before. *)
Lemma write_wp req tick (Q : bool * Z -> C -> Prop) s : cache_ok s -> useWriteCaching P = true ->
  0 <= slpn (icl_range req) -> 0 <= tick -> tick + budget < max_u64 ->
  (forall r s', stored s s' (slpn (icl_range req)) -> Q r s') ->
  wpe E (write P req tick) Q s.
Proof.
  intros Hok Hw Hl Ht Hb HQ. destruct (of_icl_names req Hl) as (r & Hr & Hn). unfold write. rewrite Hw.
  pose proof (sn_sets P HP). pose proof (sn_ways P HP). assert (0 <= look) by (unfold step; lia).
  assert (0 <= budget) by nia.
  assert (forall flash (d : bool) s1 h, 0 <= flash < max_u64 -> (d = false -> written P h (slpn (icl_range req))) ->
    same_tables s s1 -> hist E s1 = hist E s ++ h ->
    wpe E (r ← (r ← writeCached P req tick flash d; l ← under (cpuLatency ICL__GENERIC_CACHE WRITE); mret (r.1, u64 (r.2 + l)));
      countWrite r.1;; mret r) Q s1) as Hrest.
  { intros flash d s1 h Hfl Hd Hst Hh. wp_step. wp_step. eapply (writeCached_wp _ _ _ _ _ s s1 h); try done; [by apply (cache_ok_same s)|].
    intros [hit t] s2 Hs2. wp_step. apply (under_wp E _ (fun _ => True)); [eapply wpe_mono; [apply cpu_law | done]|].
    intros k s3 _ Hst3 Hh3. wp_step. wp_step. unfold countWrite. wp_step. wp_step. apply HQ. by apply (stored_same s s2). }
  wp_step. wp_step. rewrite Hr. cbn [wpr]. cbv zeta. wp_step. destruct (icl_length req <? lineSize P).
  - wp_step. apply (Hrest tick true s []); [lia | done | done | by rewrite app_nil_r].
  - apply (ftl_wp E). intros t s1 Htb Hst Hh. apply (Hrest t false s1 [FtlWrite r tick]); [done | | done | done].
    intros _. exists r, tick. split; [by apply list_elem_of_singleton | done].
Qed.
End Room.
