(* ===== verification/CacheRead.v ===== *)
(** * The cache: reading without read-ahead *)

From S2P Require Import Prelude Bitset Float32 Types Cache CacheProof CacheWrite.

Section Fill.
  Context {F : Type} (E : err -> Prop) `{IclBelowLaws E F} (P : CacheParam) (HP : sane P).
  Context (Hlat : 0 <= getCacheLatency P) (Hdist : 0 <= distMax P < waySize P).
Notation C := (Cache.t F).
Notation units := (lineCountInSuperPage P).
Notation look := (step P).
Notation all_valid s set := (forall way x, line s set way = Some x -> valid x = true).
  Implicit Types s : C.

Lemma oldestWay_spec ws i ret min tick : 0 <= tick -> tick + vlen ws * look < 2 ^ 64 ->
  let '(w, tick') := oldestWay P ws i ret min tick in
  tick <= tick' <= tick + vlen ws * look /\ (w = ret \/ i <= w < i + vlen ws).
Proof.
  assert (0 <= look) as Hst by (unfold step; lia).
  revert i ret min tick. induction ws as [|x ws IH]; intros i ret min tick Ht Hb; simpl.
  - unfold vlen. simpl. lia.
  - assert (vlen (x :: ws) = vlen ws + 1) as Hlen by (unfold vlen; simpl; lia). rewrite Hlen in *.
    pose proof (vlen_nonneg ws). assert (0 <= vlen ws * look) by nia. rewrite metaAccess_le by lia.
    destruct (age P x <? min).
    + specialize (IH (i + 1) i (age P x) (tick + look) ltac:(lia) ltac:(lia)). destruct (oldestWay _ _ _ _ _ _). lia.
    + specialize (IH (i + 1) ret min (tick + look) ltac:(lia) ltac:(lia)). destruct (oldestWay _ _ _ _ _ _). lia.
Qed.

(** The victim is a way of the set. *)
Lemma evictFunction_wp set tick (Q : Z * Z -> C -> Prop) s : shape P s -> 0 <= set < setSize P -> 0 <= tick ->
  tick + waySize P * look < 2 ^ 64 ->
  (forall w t s', 0 <= w < waySize P -> tick <= t <= tick + waySize P * look -> same_tables s s' ->
    hist E s' = hist E s -> Q (w, t) s') ->
  wpe E (evictFunction P set tick) Q s.
Proof.
  intros Hs Hset Ht Hb HQ. assert (0 <= look) as Hst by (unfold step; lia). pose proof (sn_ways P HP) as Hways.
  assert (0 <= waySize P * look) by nia.
  assert (wpe E (ws ← waysOf P set; mret (oldestWay P ws 0 0 max_u64 tick)) Q s) as Hord.
  { wp_step. apply (waysOf_wp E P); [done.. |]. intros ws [Hlen _]. wp_step.
    pose proof (oldestWay_spec ws 0 0 max_u64 tick Ht ltac:(rewrite Hlen; lia)) as Hw. rewrite Hlen in Hw.
    destruct (oldestWay _ _ _ _ _ _). apply HQ; [lia | lia | done | done]. }
  unfold evictFunction. destruct (policy P); [|exact Hord..]. wp_step.
  apply (under_wp E _ (fun w => 0 <= w < waySize P)).
  - unfold wpe. simpl. split; [|apply random_law]. pose proof (random_range (E := E) (distMax P) (below s) ltac:(lia)). lia.
  - intros w s' Hw Hst' Hh. wp_step. by apply HQ; [| lia | |].
Qed.

(** The way chosen for the line: an empty one, or in a full set a victim, which
    is a candidate of the eviction when it is dirty. *)
Record chosen s s1 (set way : Z) (x : Line) (at_ : Z) : Prop := {
  ch_shape : shape P s1;
  ch_line : line s set way = Some x;
  ch_full : valid x = false \/ all_valid s set;
  ch_lines : forall set' way', line s1 set' way' =
    if bool_decide (set' = set /\ way' = way) then Some (mkLine (tag x) at_ at_ false true) else line s set' way';
  ch_pointed : forall row col set' way', ev s1 row col = Some (Some (set', way')) ->
    set' = set /\ way' = way /\ row = tag x mod units /\ valid x = true /\ dirty x = true;
  ch_dirty : valid x = true -> dirty x = true -> pointed s1 set way;
  ch_hist : hist E s1 = hist E s;
}.

Definition no_candidates s : Prop := forall row col e, ev s row col = Some e -> e = None.

(** The choice, from a state that may already point to the victim. *)
Lemma choose s s1 set way x at_ : shape P s -> shape P s1 -> cacheData s1 = cacheData s -> hist E s1 = hist E s ->
  line s set way = Some x -> (valid x = false \/ all_valid s set) -> 0 <= at_ < max_u64 ->
  (forall row col set' way', ev s1 row col = Some (Some (set', way')) ->
    set' = set /\ way' = way /\ row = tag x mod units /\ valid x = true /\ dirty x = true) ->
  (valid x = true -> dirty x = true -> pointed s1 set way) ->
  chosen s (setData (put2 (cacheData s1) set way (mkLine (tag x) at_ at_ false true)) s1) set way x at_.
Proof.
  intros Hs Hs1 Hd Hh Hx Hfull Hat Hp Hpt. pose proof (sh_age P s Hs _ _ _ Hx) as [_ Htag].
  assert (forall set' way', line s1 set' way' = line s set' way') as Hl by (intros; unfold line; by rewrite Hd).
  assert (line s1 set way = Some x) as Hx1 by (by rewrite Hl).
  split; try done.
  - by apply shape_data; [| by eexists | |].
  - intros set' way'. rewrite (line_put P) by (done || by eexists). by rewrite Hl.
Qed.

Lemma fillWay_wp l tick (Q : list (Z * (Z * Z)) * Z -> C -> Prop) s : shape P s -> no_candidates s ->
  0 <= l -> 0 <= tick -> tick + 3 * (waySize P * look) < max_u64 ->
  (forall i x, line s (l mod setSize P) i = Some x -> valid x = true -> tag x <> l) ->
  (forall way x at_ s1, 0 <= at_ < max_u64 -> chosen s s1 (l mod setSize P) way x at_ ->
    Q ([(l, (l mod setSize P, way))], Z.max tick at_) s1) ->
  wpe E (fillWay P tick l ([], tick)) Q s.
Proof.
  intros Hs Hnone Hl Ht Hb Hmiss HQ. assert (0 <= look) as Hst by (unfold step; lia). pose proof (sn_ways P HP) as Hways.
  assert (0 <= waySize P * look) by nia. unfold max_u64 in Hb. destruct (calcSetIndex_ok P HP l Hl) as [Hc Hset].
  unfold fillWay. wp_step. apply (getValidWay_wp E P HP Hlat); [done.. | lia |]. intros w t Hwt Hw.
  destruct Hw as [[-> _]|[_ (x & Hx & Hv & Htag)]]; [|by destruct (Hmiss w x Hx Hv)]. rewrite Z.eqb_refl. cbn [negb].
  wp_step. wp_step. rewrite Hc. simpl. wp_step. apply (getEmptyWay_wp E P Hlat); [done | done | lia | lia |].
  intros w2 t2 Hwt2 Hw2. wp_step. destruct Hw2 as [[-> Hall]|[Hw2 (x & Hx & Hv)]].
  2:{ rewrite (proj2 (Z.eqb_neq w2 (waySize P))) by lia. wp_step. wp_step. eapply updLine_wp; [exact Hx|]. wp_step.
      apply (HQ w2 x); [unfold max_u64; lia|].
      apply choose; [done | done | done | done | done | by left | unfold max_u64; lia | | congruence].
      intros row col set' way' He. by apply Hnone in He. }
  rewrite Z.eqb_refl. wp_step. apply evictFunction_wp; [done | done | lia | lia |]. intros w3 t3 s3 Hw3 Ht3 Hst3 Hh3.
  destruct (line_in P s _ w3 Hs Hset Hw3) as [x Hx]. pose proof (same_shape P s s3 Hst3 Hs) as Hs3.
  assert (line s3 (l mod setSize P) w3 = Some x) as Hx3 by (by rewrite (same_line s s3)).
  pose proof (Hall w3 x Hx) as Hv. pose proof (sh_age P s Hs _ _ _ Hx) as [_ Htag].
  wp_step. eapply getLine_wp; [exact Hx3|]. wp_step. apply wpe_when; intros Hd.
  - destruct (calcIOPosition_ok P HP (tag x) Htag) as (col & Hp & Hrow & Hcol). wp_step. wp_step. rewrite Hp. simpl.
    destruct (ev_in P s3 _ _ Hs3 Hrow Hcol) as [e He]. eapply updEvict_wp; [exact He|]. wp_step. wp_step.
    eapply updLine_wp; [exact Hx3|]. wp_step. apply (HQ w3 x); [unfold max_u64; lia|].
    apply choose; [done | by apply shape_evict | apply Hst3 | done | done | by right | unfold max_u64; lia | |].
    + intros row' col' set' way'. rewrite (ev_put P) by (done || by eexists). case_bool_decide as Hdec; [naive_solver|].
      rewrite (same_ev s s3) by done. intros Hn. by apply Hnone in Hn.
    + intros _ _. exists (tag x mod units), col. rewrite (ev_put P) by (done || by eexists). by rewrite bool_decide_true.
  - wp_step. wp_step. eapply updLine_wp; [exact Hx3|]. wp_step. apply (HQ w3 x); [unfold max_u64; lia|].
    apply choose; [done | done | apply Hst3 | done | done | by right | unfold max_u64; lia | | congruence].
    intros row' col' set' way'. rewrite (same_ev s s3) by done. intros Hn. by apply Hnone in Hn.
Qed.

(** Eviction after the choice: the victim's line is dropped if it was dirty;
    the line was marked clean before, so nothing is written. *)
Lemma evict_chosen s s1 set way x at_ tick (Q : unit -> C -> Prop) : chosen s s1 set way x at_ -> 0 <= tick < max_u64 ->
  (forall s2 y, shape P s2 -> no_candidates s2 -> hist E s2 = hist E s -> line s2 set way = Some y ->
    valid y = negb (valid x && dirty x) -> (valid y = true -> dirty y = false) ->
    (forall set' way', (set', way') <> (set, way) -> line s2 set' way' = line s set' way') -> Q tt s2) ->
  wpe E (evictCache P tick true) Q s1.
Proof.
  intros [Hs1 Hx Hfull Hl Hp Hpt Hh] Ht HQ. pose proof (Hl set way) as Hx1. rewrite bool_decide_true in Hx1 by done.
  apply (evictCache_wp E P HP); [done | | done |].
  - intros row col set' way' He. destruct (Hp row col set' way' He) as (-> & -> & -> & _). eexists. split; [exact Hx1|]. done.
  - intros s2 Hev Hn2 Hinv Htc. assert (forall set' way', pointed s1 set' way' -> (set', way') = (set, way)) as Hone.
    { intros set' way' (row & col & He). by destruct (Hp row col set' way' He) as (-> & -> & _). }
    assert (forall set' way', (set', way') <> (set, way) -> line s2 set' way' = line s set' way') as Hothers.
    { intros set' way' Hne. rewrite (tc_lines E _ _ _ Htc) by (by intros Hpd%Hone). rewrite Hl. by rewrite bool_decide_false by naive_solver. }
    assert (hist E s2 = hist E s) as Hh2.
    { rewrite (tc_quiet E _ _ _ Htc); [done|]. intros set' way' z Hpd Hz. apply Hone in Hpd as [= -> ->].
      rewrite Hx1 in Hz. injection Hz as <-. done. }
    destruct (valid x && dirty x) eqn:Hvd.
    + apply andb_true_iff in Hvd as [Hv Hd]. destruct (Hpt Hv Hd) as (row & col & He).
      destruct (Hinv row col set way He) as (y & Hy & Hvy). apply (HQ s2 y); try done; [apply Hev | congruence].
    + apply (HQ s2 (mkLine (tag x) at_ at_ false true)); try done; [apply Hev |]. rewrite (tc_lines E _ _ _ Htc); [exact Hx1|].
      intros (row & col & He). destruct (Hp _ _ _ _ He) as (_ & _ & _ & Hv & Hd). by rewrite Hv, Hd in Hvd.
Qed.

(** What a read miss does: one unit is read into the line of [way], which held [x]. *)
Record refilled s s' (l way : Z) (x y : Line) : Prop := {
  rf_victim : line s (l mod setSize P) way = Some x;
  rf_full : valid x = false \/ all_valid s (l mod setSize P);
  rf_line : line s' (l mod setSize P) way = Some y;
  rf_tag : tag y = l;
  rf_valid : valid y = negb (valid x && dirty x);
  rf_clean : valid y = true -> dirty y = false;
  rf_others : forall set' way', (set', way') <> (l mod setSize P, way) -> line s' set' way' = line s set' way';
  rf_call : exists r t, hist E s' = hist E s ++ [FtlRead r t] /\ names P r l;
}.

(** The cache stays well formed when a miss refills a line. *)
Lemma refilled_ok s s' l way x y : cache_ok P s -> shape P s' -> no_candidates s' -> refilled s s' l way x y ->
  (forall i z, line s (l mod setSize P) i = Some z -> valid z = true -> tag z <> l) -> cache_ok P s'.
Proof.
  intros [_ _ [Hset Honce]] Hs' Hn [Hx _ Hy Ht Hv _ Ho _] Hmiss. split; [done | done |]. split.
  - intros set' way' z. destruct (decide ((set', way') = (l mod setSize P, way))) as [[= -> ->]|Hne].
    + rewrite Hy. intros [= <-] _. by rewrite Ht.
    + rewrite Ho by done. apply Hset.
  - intros set' way1 way2 z1 z2 Hz1 Hz2 Hv1 Hv2 Heq.
    destruct (decide ((set', way1) = (l mod setSize P, way))) as [He1|Hne1];
      destruct (decide ((set', way2) = (l mod setSize P, way))) as [He2|Hne2].
    + congruence.
    + injection He1 as -> ->. rewrite Ho in Hz2 by done. destruct (Hmiss _ _ Hz2 Hv2). congruence.
    + injection He2 as -> ->. rewrite Ho in Hz1 by done. destruct (Hmiss _ _ Hz1 Hv1). congruence.
    + rewrite Ho in Hz1, Hz2 by done. by eapply (Honce set' way1 way2).
Qed.

Lemma fill_wp arrived req tick (Q : Z -> C -> Prop) s : cache_ok P s -> enabled (readDetect s) = false ->
  0 <= slpn (icl_range req) < max_u64 -> 0 <= tick -> tick + 3 * (waySize P * look) < max_u64 ->
  (forall i x, line s (slpn (icl_range req) mod setSize P) i = Some x -> valid x = true -> tag x <> slpn (icl_range req)) ->
  (forall t s' way x y, refilled s s' (slpn (icl_range req)) way x y -> cache_ok P s' -> Q t s') ->
  wpe E (fill P false arrived req tick) Q s.
Proof.
  intros Hok Hen Hl Ht Hb Hmiss HQ. set (l := slpn (icl_range req)) in *. pose proof (ck_shape P _ Hok) as Hs.
  destruct (of_icl_names P HP req) as (r & Hr & Hn); [fold l; lia|]. pose proof (sn_ways P HP). assert (0 <= look) by (unfold step; lia).
  assert (0 <= waySize P * look) by nia. unfold fill. wp_step. wp_step. rewrite Hr. simpl. wp_step. wp_step. rewrite Hen.
  wp_step. wp_step. fold l. wp_step. rewrite u64_small by (unfold max_u64 in *; lia).
  apply (wpe_for_range _ (fun i st s' => i = l /\ st = ([], tick) /\ s' = s \/ i = l + 1 /\ exists way x at_,
    0 <= at_ < max_u64 /\ chosen s s' (l mod setSize P) way x at_ /\ st = ([(l, (l mod setSize P, way))], Z.max tick at_))); [lia | by left | |].
  { intros i st s1 Hi [(-> & -> & ->)|[-> _]]; [|lia]. apply fillWay_wp; [done | exact (ck_evict P _ Hok) | lia | done | done | done |].
    intros way x at_ s1 Hat Hch. right. split; [done|]. by exists way, x, at_. }
  intros st s1 [[? _]|(_ & way & x & at_ & Hat & Hch & ->)]; [lia|]. wp_step.
  eapply evict_chosen; [exact Hch | lia |]. intros s2 y Hs2 Hn2 Hh2 Hy Hv Hd Ho. simpl. wp_step.
  destruct (one_unit P HP (ioFlag r) l) as (io1 & io2 & Ho1 & Ho2 & Hw2 & Hb2); [apply (proj1 (proj2 Hn)) | lia|].
  wp_step. wp_step. wp_step. rewrite Ho1. simpl. wp_step. wp_step. rewrite Ho2. simpl. wp_step. apply (ftl_wp E). intros t s3 Ht3 Hst3 Hh3.
  wp_step. assert (line s3 (l mod setSize P) way = Some y) as Hy3 by (by rewrite (same_line s2 s3)).
  eapply getLine_wp; [exact Hy3|]. wp_step. apply (under_wp E _ (fun t => 0 <= t < max_u64)); [apply ddr_write_law|].
  intros t4 s4 Ht4 Hst4 Hh4. assert (line s4 (l mod setSize P) way = Some y) as Hy4 by (by rewrite (same_line s3 s4)).
  wp_step. eapply updLine_wp; [exact Hy4|]. rewrite Z.eqb_refl. wp_step. wp_step. wp_step. set (s5 := setData _ s4).
  assert (shape P s4) as Hs4 by (by apply (same_shape P s3), (same_shape P s2)).
  assert (forall set' way', line s5 set' way' = if bool_decide (set' = l mod setSize P /\ way' = way)
      then Some (mkLine l (Z.max t t4) (Z.max t t4) (dirty y) (valid y)) else line s2 set' way') as Hl5.
  { intros set' way'. unfold s5. rewrite (line_put P) by (done || by eexists). by rewrite (same_line s3 s4), (same_line s2 s3). }
  pose proof (Hl5 (l mod setSize P) way) as Hy5. rewrite bool_decide_true in Hy5 by done.
  assert (refilled s s5 l way x (mkLine l (Z.max t t4) (Z.max t t4) (dirty y) (valid y))) as Hrf.
  { split; try done; [apply Hch | apply Hch | |].
    - intros set' way' Hne. rewrite Hl5. rewrite bool_decide_false by naive_solver. by apply Ho.
    - eexists _, _. change (hist E s5) with (hist E s4). rewrite Hh4, Hh3, Hh2. split; [reflexivity|]. done. }
  eapply HQ; [exact Hrf|]. eapply refilled_ok; [exact Hok | | | exact Hrf | exact Hmiss].
  - apply shape_data; [done | by eexists | simpl; lia | simpl; lia].
  - intros row col e. change (ev s5 row col) with (ev s4 row col). rewrite (same_ev s3 s4), (same_ev s2 s3) by done. apply Hn2.
Qed.

(** What a read without read-ahead does. *)
Definition hit_effect s s' (l : Z) : Prop := hist E s' = hist E s /\ exists way x at_,
  line s (l mod setSize P) way = Some x /\ valid x = true /\ tag x = l /\
  forall set' way', line s' set' way' = if bool_decide (set' = l mod setSize P /\ way' = way)
    then Some (mkLine (tag x) at_ (insertedAt x) (dirty x) (valid x)) else line s set' way'.
Definition miss_effect s s' (l : Z) : Prop :=
  (forall way x, line s (l mod setSize P) way = Some x -> valid x = true -> tag x <> l) /\
  exists way x y, refilled s s' l way x y.
Definition read_effect s s' (l : Z) (hit : bool) : Prop :=
  cache_ok P s' /\ if hit then hit_effect s s' l else miss_effect s s' l.

Lemma read_effect_same s s1 s2 l hit : same_tables s1 s2 -> hist E s2 = hist E s1 -> read_effect s s1 l hit -> read_effect s s2 l hit.
Proof.
  intros Hst Hh [Hok Heff]. split; [by apply (cache_ok_same P s1)|].
  assert (forall set way, line s2 set way = line s1 set way) as Hl by (intros; by apply same_line). destruct hit.
  - destruct Heff as [Hh1 (way & x & at_ & Hx & Hv & Ht & Ho)]. split; [by rewrite Hh|]. exists way, x, at_.
    split_and!; try done. intros. by rewrite Hl.
  - destruct Heff as [Hmiss (way & x & y & [H1 H2 H3 H4 H5 H6 H7 H8])]. split; [done|]. exists way, x, y.
    split; try done; [by rewrite Hl | intros; rewrite Hl; by apply H7 | by rewrite Hh].
Qed.

Lemma readCached_wp req tick (Q : bool * IclRequest * Z -> C -> Prop) s : cache_ok P s -> useReadPrefetch P = false ->
  enabled (readDetect s) = false -> 0 <= slpn (icl_range req) < max_u64 -> 0 <= tick ->
  tick + 4 * (waySize P * look) < max_u64 ->
  (forall hit t s', read_effect s s' (slpn (icl_range req)) hit -> Q (hit, req, t) s') ->
  wpe E (readCached P req tick) Q s.
Proof.
  intros Hok Hpre Hen Hl Ht Hb HQ. set (l := slpn (icl_range req)) in *. pose proof (ck_shape P _ Hok) as Hs.
  pose proof (sn_ways P HP). assert (0 <= look) by (unfold step; lia). assert (0 <= waySize P * look) by nia.
  destruct (calcSetIndex_ok P HP l) as [Hc Hset]; [lia|]. unfold readCached. wp_step. wp_step. fold l. rewrite Hc. simpl.
  rewrite Hpre. wp_step. wp_step; [done|]. clear H4. wp_step.
  apply (getValidWay_wp E P HP Hlat); [done | lia | done | unfold max_u64 in *; lia |]. intros w t Hwt Hw.
  destruct Hw as [[-> Hmiss]|[Hw (x & Hx & Hv & Htag)]].
  - rewrite Z.eqb_refl. simpl. wp_step. apply fill_wp; try done; [lia | lia |]. intros t' s' way x y Hrf Hok'. wp_step.
    apply HQ. split; [done|]. split; [done|]. by exists way, x, y.
  - rewrite (proj2 (Z.eqb_neq w (waySize P))) by lia. simpl. wp_step. eapply getLine_wp; [exact Hx|]. wp_step.
    eapply updLine_wp; [exact Hx|]. wp_step.
    apply (under_wp E _ (fun _ => True)); [eapply wpe_mono; [apply ddr_read_law | done]|]. intros t2 s2 _ Hst2 Hh2.
    wp_step. wp_step. wp_step. apply HQ. apply (read_effect_same s _ s2) with (1 := Hst2); [exact Hh2|].
    pose proof (sh_age P s Hs _ _ _ Hx) as [Hage Htg]. split.
    + apply cache_ok_put; [done | by eexists | done | done | by rewrite Htag |]. intros way' y Hne Hy Hvy Hty. destruct Hne.
      by eapply (pl_once P _ (ck_placed P _ Hok)).
    + split; [done|]. eexists w, x, _. split_and!; [done | done | done |]. intros set' way'. by rewrite (line_put P) by (done || by eexists).
Qed.

Lemma read_wp req tick (Q : bool * IclRequest * Z -> C -> Prop) s : cache_ok P s -> useReadCaching P = true ->
  useReadPrefetch P = false -> enabled (readDetect s) = false -> 0 <= slpn (icl_range req) < max_u64 -> 0 <= tick ->
  tick + 4 * (waySize P * look) < max_u64 ->
  (forall hit t s', read_effect s s' (slpn (icl_range req)) hit -> Q (hit, req, t) s') ->
  wpe E (Cache.read P req tick) Q s.
Proof.
  intros Hok Hread Hpre Hen Hl Ht Hb HQ. unfold Cache.read. rewrite Hread. wp_step. wp_step.
  apply readCached_wp; [done.. |]. intros hit t s1 Heff. wp_step.
  apply (under_wp E _ (fun _ => True)); [eapply wpe_mono; [apply cpu_law | done]|]. intros k s2 _ Hst Hh. wp_step.
  unfold countRead. wp_step. wp_step. wp_step. apply HQ. by apply (read_effect_same s s1).
Qed.

End Fill.
