(* ===== verification/CacheTheorems.v ===== *)
(** * The cache: theorems and an example *)

From S2P Require Import Prelude Bitset Float32 Types Cache CacheProof CacheWrite CacheRead.

(** ** The cache: flush and trim *)

Section Drop.
  Context {F : Type} (E : err -> Prop) `{IclBelowLaws E F} (P : CacheParam) (HP : sane P).
Notation C := (Cache.t F).
Notation units := (lineCountInSuperPage P).
  Context (mk_call : Request -> Z -> FtlCall) (needed : Line -> bool) (range : LPNRange).
  Implicit Types s : C.

(** A call that reaches the unit [l], and maybe others of its super page. *)
Definition covers (r : Request) (l : Z) : Prop := lpn r = l / units /\ Bitset.bit (ioFlag r) (l mod units) = true.

Definition invalidated (x : Line) : Line := mkLine (tag x) (lastAccessed x) (insertedAt x) (dirty x) false.
Definition drop (x : Line) : Line := if in_range range (tag x) then invalidated x else x.
(** The line [x] of [s] is one the operation calls the FTL for. *)
Definition due s (x : Line) : Prop := (exists set way, line s set way = Some x) /\ in_range range (tag x) = true /\ needed x = true.

(** The calls [h] are the due ones of the lines that [D] selects. *)
Record calls s (D : Z -> Z -> Prop) (h : list FtlCall) : Prop := {
  cl_made : forall set way x, line s set way = Some x -> D set way -> in_range range (tag x) = true -> needed x = true ->
    exists r t, mk_call r t ∈ h /\ covers r (tag x);
  cl_due : forall c, c ∈ h -> exists x r t, due s x /\ c = mk_call r t /\ covers r (tag x);
}.

Record dropped s (D : Z -> Z -> Prop) s' : Prop := {
  dr_shape : shape P s';
  dr_evict : evictData s' = evictData s;
  dr_done : forall set way x, line s set way = Some x -> D set way -> line s' set way = Some (drop x);
  dr_left : forall set way, ~ D set way -> line s' set way = line s set way;
  dr_calls : exists h, hist E s' = hist E s ++ h /\ calls s D h;
}.

(** [D] may be exchanged for one that agrees on the lines there are. *)
Lemma dropped_iff s (D D' : Z -> Z -> Prop) s' : shape P s ->
  (forall set way, 0 <= set < setSize P -> 0 <= way < waySize P -> D set way <-> D' set way) ->
  dropped s D s' -> dropped s D' s'.
Proof.
  intros Hs Hiff [Hs' He Hd Hl (h & Hh & Hm & Hc)].
  assert (forall set way x, line s set way = Some x -> D set way <-> D' set way) as Hx.
  { intros set way x Hx. destruct (line_range P s set way x Hs Hx). by apply Hiff. }
  split; [done | done | | |].
  - intros set way x Hl' HD. apply Hd; [done | by eapply Hx].
  - intros set way HD. destruct (line s set way) as [x|] eqn:Hl'.
    + rewrite <- Hl'. apply Hl. by rewrite Hx.
    + destruct (line s' set way) as [y|] eqn:Hy; [|done]. destruct (line_range P s' set way y Hs' Hy) as [R1 R2].
      destruct (line_in P s set way Hs R1 R2). congruence.
  - exists h. split; [done|]. split; [|done]. intros set way x Hl' HD. apply (Hm set way); [done | by eapply Hx].
Qed.

Lemma dropLine_wp set way req tick fin (Q : Request * Z * Z -> C -> Prop) s x : shape P s -> line s set way = Some x ->
  Bitset.wf units (ioFlag req) ->
  (forall st s', Bitset.wf units (ioFlag st.1.1) -> shape P s' -> evictData s' = evictData s ->
    (forall set' way', line s' set' way' = if bool_decide (set' = set /\ way' = way) then Some (drop x) else line s set' way') ->
    (exists h, hist E s' = hist E s ++ h /\
      if in_range range (tag x) && needed x then exists r t, h = [mk_call r t] /\ covers r (tag x) else h = []) -> Q st s') ->
  wpe E (dropLine P mk_call needed range set way (req, tick, fin)) Q s.
Proof.
  intros Hs Hx Hio HQ. pose proof (sn_units P HP) as Hu. pose proof (sh_age P s Hs _ _ _ Hx) as [Hage Htag].
  unfold dropLine. wp_step. eapply getLine_wp; [exact Hx|].
  destruct (in_range range (tag x)) eqn:Hr.
  2:{ wp_step. apply HQ; [done | done | done | | exists []; by rewrite app_nil_r].
      intros set' way'. case_bool_decide as Hd; [|done]. destruct Hd as [-> ->]. unfold drop. by rewrite Hr. }
  (* the line is dropped after the calls [h] *)
  assert (forall (r : Request * Z) t s1 h, Bitset.wf units (ioFlag r.1) -> same_tables s s1 -> hist E s1 = hist E s ++ h ->
    (if true && needed x then exists r t, h = [mk_call r t] /\ covers r (tag x) else h = []) ->
    wpe E (updLine set way (fun x => mkLine (tag x) (lastAccessed x) (insertedAt x) (dirty x) false);; mret (r.1, t, r.2)) Q s1) as Hfin.
  { intros r t s1 h Hio' Hst Hh Hcalls. assert (line s1 set way = Some x) as Hx1 by (by rewrite (same_line s s1)).
    pose proof (same_shape P s s1 Hst Hs) as Hs1.
    wp_step. eapply updLine_wp; [exact Hx1|]. wp_step. apply HQ; [done | by apply shape_data; [| eexists | |] | apply Hst | |].
    - intros set' way'. rewrite (line_put P) by (done || by eexists). rewrite (same_line s s1) by done. unfold drop. by rewrite Hr.
    - exists h. split; [exact Hh | done]. }
  wp_step. destruct (needed x).
  - pose proof (Z.mod_pos_bound (tag x) units ltac:(lia)) as Hm.
    pose proof (Bitset.set_spec units noerr (ioFlag req) (tag x mod units) true Hio Hm) as (io & Ho & Hw & Hb)%wpr_noerr.
    wp_step. wp_step. rewrite Ho. cbn [wpr]. cbv zeta. wp_step.
    apply (ftl_wp E). intros t s1 _ Hst Hh. wp_step. set (r := mkRequest _ _ _ _) in *.
    apply (Hfin (r, Z.max fin t) _ s1 [mk_call r (metaAccess P tick)]); [exact Hw | done | done |]. simpl.
    exists r, (metaAccess P tick). split; [done|]. split; [done|]. simpl. rewrite Hb. by destruct (decide _).
  - wp_step. apply (Hfin (req, fin) _ s []); [done | done | by rewrite app_nil_r | done].
Qed.

(** One more line. *)
Lemma dropped_step s (D D' : Z -> Z -> Prop) s1 s2 set way x : shape P s -> dropped s D s1 -> ~ D set way ->
  line s set way = Some x -> (forall set' way', D' set' way' <-> D set' way' \/ (set' = set /\ way' = way)) ->
  shape P s2 -> evictData s2 = evictData s1 ->
  (forall set' way', line s2 set' way' = if bool_decide (set' = set /\ way' = way) then Some (drop x) else line s1 set' way') ->
  (exists h, hist E s2 = hist E s1 ++ h /\
    if in_range range (tag x) && needed x then exists r t, h = [mk_call r t] /\ covers r (tag x) else h = []) ->
  dropped s D' s2.
Proof.
  intros Hs [Hs1 He Hd Hl (h & Hh & Hm & Hc)] HnD Hx HD' Hs2 He2 Hl2 (h2 & Hh2 & Hcalls). split.
  - done.
  - congruence.
  - intros set' way' y Hy HD. rewrite Hl2. case_bool_decide as Hdec; [destruct Hdec as [-> ->]; congruence|].
    apply Hd; [done|]. apply HD' in HD. tauto.
  - intros set' way' HD. rewrite Hl2, bool_decide_false; [apply Hl|]; rewrite HD' in HD; tauto.
  - exists (h ++ h2). split; [by rewrite Hh2, Hh, app_assoc|]. split.
    + intros set' way' y Hy HD Hr Hn. apply HD' in HD as [HD|[-> ->]].
      * destruct (Hm set' way' y) as (r & t & Hin & Hcov); [done..|]. exists r, t. split; [|done]. apply elem_of_app. by left.
      * assert (y = x) as -> by congruence. rewrite Hr, Hn in Hcalls. destruct Hcalls as (r & t & -> & Hcov).
        exists r, t. split; [|done]. apply elem_of_app. right. by apply list_elem_of_singleton.
    + intros c [Hin|Hin]%elem_of_app; [by apply Hc|]. destruct (in_range range (tag x) && needed x) eqn:Hrn.
      * destruct Hcalls as (r & t & -> & Hcov). apply list_elem_of_singleton in Hin as ->.
        apply andb_true_iff in Hrn as [Hr Hn]. exists x, r, t. split; [split; [by exists set, way | done] | done].
      * subst h2. by apply not_elem_of_nil in Hin.
Qed.

Lemma dropped_start s : shape P s -> dropped s (fun _ _ => False) s.
Proof. intros Hs. split; try done. exists []. rewrite app_nil_r. split; [done|]. by split; [|intros c ?%not_elem_of_nil]. Qed.

Lemma dropLines_wp f tick (Q : Z -> C -> Prop) s : shape P s -> useReadCaching P || useWriteCaching P = true ->
  (forall t s1 s', dropped s (fun _ _ => True) s1 -> same_tables s1 s' -> hist E s' = hist E s1 -> Q t s') ->
  wpe E (dropLines P mk_call needed range f tick) Q s.
Proof.
  intros Hs Hon HQ. pose proof (sn_sets P HP). pose proof (sn_ways P HP). unfold dropLines. rewrite Hon. wp_step.
  set (I := fun set way (st : Request * Z * Z) s' => Bitset.wf units (ioFlag st.1.1) /\ dropped s (before set way) s').
  apply (wpe_for_range _ (fun set st s' => I set 0 st s')); [lia | | |].
  - split; [apply Bitset.make_spec, HP|]. eapply dropped_iff; [done | | by apply dropped_start]. unfold before. intros. split; [done | lia].
  - intros set st s1 Hset HI. apply (wpe_for_range _ (fun way st s' => I set way st s')); [lia | done | |].
    + intros way [[req t] fin] s2 Hway [Hio Hd]. destruct (line_in P s set way Hs Hset Hway) as [x Hx].
      assert (~ before set way set way) as Hnb by (unfold before; lia).
      eapply dropLine_wp; [apply Hd | by rewrite (dr_left _ _ _ Hd) | done |].
      intros st2 s3 Hio2 Hs3 He3 Hl3 Hh3. split; [done|].
      eapply (dropped_step s (before set way)); [exact Hs | exact Hd | exact Hnb | exact Hx | | done | done | exact Hl3 | exact Hh3].
      intros set' way'. unfold before. lia.
    + intros st2 s2 [Hio Hd]. split; [done|]. eapply dropped_iff; [done | | exact Hd]. unfold before. intros. lia.
  - intros st s1 [_ Hd]. wp_step. apply (under_wp E _ (fun _ => True)); [eapply wpe_mono; [apply cpu_law | done]|].
    intros l s2 _ Hst Hh. wp_step. eapply (HQ _ s1); [| done | done].
    eapply dropped_iff; [done | | exact Hd]. unfold before. intros. split; [done | lia].
Qed.

(** The cache stays well formed, and no line of the range is valid any more. *)
Lemma dropped_ok s s1 s' : cache_ok P s -> dropped s (fun _ _ => True) s1 -> same_tables s1 s' -> cache_ok P s'.
Proof.
  intros [Hs Hn [Hset Honce]] [Hs1 He Hd _ _] Hst. apply (cache_ok_same P s1 s' Hst).
  assert (forall set way y, line s1 set way = Some y -> valid y = true -> line s set way = Some y) as Hback.
  { intros set way y Hy Hv. destruct (line_range P s1 set way y Hs1 Hy) as [R1 R2].
    destruct (line_in P s set way Hs R1 R2) as [x Hx]. pose proof (Hd set way x Hx I) as Hy'. unfold drop in Hy'.
    destruct (in_range range (tag x)); [|congruence]. assert (y = invalidated x) as -> by congruence. done. }
  split; [done | |].
  - intros row col e. unfold ev. rewrite He. apply Hn.
  - split; [intros set way x Hx Hv; by apply (Hset set way); [apply Hback|]|].
    intros set way way' x y Hx Hy Hvx Hvy. by apply (Honce set way way' x y); [apply Hback.. | |].
Qed.
End Drop.

(** ** Sequences of writes and flushes *)

Inductive CacheOp : Type := OpWrite (req : IclRequest) (tick : Z) | OpFlush (range : LPNRange) (tick : Z).

Definition writes (ops : list CacheOp) (l : Z) : Prop :=
  exists req tick, OpWrite req tick ∈ ops /\ slpn (icl_range req) = l.

Section Ops.
  Context {F : Type} `{IclBelow F} (P : CacheParam).

(** One operation of the sequence, and the sequence. *)
Definition run_op (op : CacheOp) (_ : unit) : M (Cache.t F) unit :=
  match op with
  | OpWrite req tick => write P req tick;; mret tt
  | OpFlush range tick => flush P range tick;; mret tt
  end.
Definition run_ops (ops : list CacheOp) : M (Cache.t F) unit := foldM run_op ops tt.
End Ops.

(** Ticks that leave room for the accesses to the tags. *)
Definition write_budget (P : CacheParam) : Z := (3 * waySize P + setSize P * waySize P) * step P.
Definition fits (P : CacheParam) (op : CacheOp) : Prop :=
  match op with
  | OpWrite req tick => 0 <= slpn (icl_range req) /\ 0 <= tick /\ tick + write_budget P < max_u64
  | OpFlush _ _ => True
  end.

Section Theorems.
  Context {F : Type} (E : err -> Prop) `{IclBelowLaws E F} (P : CacheParam) (HP : sane P).
  Context (Hlat : 0 <= getCacheLatency P).
Notation C := (Cache.t F).
  Implicit Types s : C.

(** The data of the unit is in the cache and dirty, or the FTL has got it. *)
Definition safe s (l : Z) : Prop :=
  (exists set way x, line s set way = Some x /\ valid x = true /\ dirty x = true /\ tag x = l) \/
  (exists r t, FtlWrite r t ∈ hist E s /\ covers P r l).

Lemma written_covers h l : 0 <= l -> written P h l -> exists r t, FtlWrite r t ∈ h /\ covers P r l.
Proof.
  intros Hl (r & t & Hin & Hn & Hw & Hb). exists r, t. split; [done|]. split; [done|]. pose proof (sn_units P HP).
  rewrite Hb by (apply Z.mod_pos_bound; lia). by apply bool_decide_true.
Qed.

Lemma safe_history s s' h l : hist E s' = hist E s ++ h -> (exists r t, FtlWrite r t ∈ hist E s ++ h /\ covers P r l) -> safe s' l.
Proof. intros Hh (r & t & Hin & Hc). right. exists r, t. by rewrite Hh. Qed.

Lemma stored_safe s s' l l' : cache_ok P s -> 0 <= l -> stored E P s s' l -> (l' = l \/ safe s l') -> safe s' l'.
Proof.
  intros Hok Hl [_ (h & Hh & (set & way & x & Hx & Hv & Ht & Hd) & Hk)] Hcase.
  assert (safe s' l) as Hnew.
  { destruct Hd as [Hd|Hw]; [left; by exists set, way, x|]. apply (written_covers _ _ Hl) in Hw as (r & t & Hin & Hc).
    apply (safe_history s s' h); [done|]. exists r, t. rewrite elem_of_app. auto. }
  destruct (decide (l' = l)) as [->|Hne]; [done|]. destruct Hcase as [?|[(set' & way' & y & Hy & Hvy & Hdy & Hty)|(r & t & Hin & Hc)]]; [done | |].
  - destruct (Hk set' way' y Hy Hvy Hdy) as [Hy'|Hw]; [congruence | left; by exists set', way', y |]. rewrite Hty in Hw.
    pose proof (sh_age P s (ck_shape P s Hok) _ _ _ Hy) as [_ Htag].
    apply written_covers in Hw as (r & t & Hin & Hc); [|lia]. apply (safe_history s s' h); [done|]. exists r, t. rewrite elem_of_app. auto.
  - apply (safe_history s s' h); [done|]. exists r, t. rewrite elem_of_app. auto.
Qed.

Lemma flush_wp range tick (Q : Z -> C -> Prop) s : cache_ok P s -> useReadCaching P || useWriteCaching P = true ->
  (forall t s1 s', dropped E P FtlWrite dirty range s (fun _ _ => True) s1 -> same_tables s1 s' -> hist E s' = hist E s1 ->
    cache_ok P s' -> Q t s') -> wpe E (flush P range tick) Q s.
Proof.
  intros Hok Hon HQ. apply (dropLines_wp E P HP); [apply Hok | done |]. intros t s1 s' Hd Hst Hh.
  by eapply HQ; [| | | eapply dropped_ok].
Qed.

Lemma flushed_safe range s s1 s' l : dropped E P FtlWrite dirty range s (fun _ _ => True) s1 -> same_tables s1 s' ->
  hist E s' = hist E s1 -> safe s l -> safe s' l.
Proof.
  intros [_ _ Hd _ (h & Hh & Hm & _)] Hst Hh' [(set & way & x & Hx & Hv & Hdx & Ht)|(r & t & Hin & Hc)].
  - pose proof (Hd set way x Hx I) as Hx'. unfold drop in Hx'. destruct (in_range range (tag x)) eqn:Hr.
    + destruct (Hm set way x Hx I Hr Hdx) as (r & t & Hin & Hc). apply (safe_history s s' h); [congruence|].
      exists r, t. rewrite elem_of_app, <- Ht. auto.
    + left. exists set, way, x. by rewrite (same_line s1 s').
  - apply (safe_history s s' h); [congruence|]. exists r, t. rewrite elem_of_app. auto.
Qed.

Lemma run_ops_wp ops (Q : unit -> C -> Prop) s : cache_ok P s -> useWriteCaching P = true -> Forall (fits P) ops ->
  (forall s', cache_ok P s' -> (forall l, writes ops l \/ safe s l -> safe s' l) -> Q tt s') ->
  wpe E (run_ops P ops) Q s.
Proof.
  intros Hok Hon Hfit HQ. unfold run_ops.
  apply (wpe_foldM E (fun rest _ s' => Forall (fits P) rest /\ cache_ok P s' /\
    forall l, writes ops l \/ safe s l -> writes rest l \/ safe s' l)).
  - split_and!; [done | done |]. tauto.
  - intros op rest [] s1 (Hf & Hok1 & Hsafe). apply Forall_cons in Hf as [Hop Hf]. destruct op as [req tick|range tick]; simpl.
    + destruct Hop as (Hl & Ht & Hb). wp_step. apply (write_wp E P HP Hlat); [done.. |]. intros r s2 Hst. wp_step.
      split_and!; [done | apply Hst |]. intros l Hc. destruct (Hsafe l Hc) as [(req' & t' & [[= -> ->]|Hin]%elem_of_cons & <-)|Hs].
      * right. eapply stored_safe; [exact Hok1 | exact Hl | exact Hst | by left].
      * left. by exists req', t'.
      * right. eapply stored_safe; [exact Hok1 | exact Hl | exact Hst | by right].
    + wp_step. apply flush_wp; [done | by rewrite Hon, orb_true_r |]. intros t s2 s3 Hd Hst Hh Hok3. wp_step.
      split_and!; [done | done |]. intros l Hc. destruct (Hsafe l Hc) as [(req' & t' & [[=]|Hin]%elem_of_cons & <-)|Hs].
      * left. by exists req', t'.
      * right. by eapply flushed_safe.
  - intros [] s' (_ & Hok' & Hsafe). apply HQ; [done|]. intros l Hc. destruct (Hsafe l Hc) as [(r & t & Hin & _)|]; [|done].
    by apply not_elem_of_nil in Hin.
Qed.

(** The constructor's cache. *)
Lemma get2_replicate {A} (R K : Z) (a x : A) i j :
  get2 (replicate (Z.to_nat R) (replicate (Z.to_nat K) a)) i j = Some x -> x = a.
Proof.
  unfold get2, vget. destruct (i <? 0); [done|]. simpl. destruct (_ !! Z.to_nat i) as [r|] eqn:Hr; [|done].
  apply lookup_replicate in Hr as [-> _]. simpl. destruct (j <? 0); [done|]. by intros [-> _]%lookup_replicate.
Qed.

Lemma grid_replicate {A} (R K : Z) (a : A) : 0 <= R -> 0 <= K -> grid R K (replicate (Z.to_nat R) (replicate (Z.to_nat K) a)).
Proof.
  intros HR HK. split; [unfold vlen; rewrite length_replicate; lia|]. intros i r Hr. unfold vget in Hr.
  destruct (i <? 0); [done|]. apply lookup_replicate in Hr as [-> _]. unfold vlen. rewrite length_replicate. lia.
Qed.

Lemma cache_new_ok (f : F) : useReadCaching P || useWriteCaching P = true -> cache_ok P (cache_new P f).
Proof.
  intros Hon. pose proof (sn_sets P HP). pose proof (sn_ways P HP). pose proof (sn_units P HP). pose proof (sn_parallel P HP).
  unfold cache_new. rewrite Hon. split.
  - split; [apply grid_replicate; lia.. |]. intros set way x ->%get2_replicate. simpl. unfold max_u64. lia.
  - by intros row col e ->%get2_replicate.
  - split; [by intros set way x ->%get2_replicate | by intros set way way' x y ->%get2_replicate].
Qed.
End Theorems.

(** ** An example

    The layers below that take every call, count it and answer at tick 1000. *)
Record CallLog : Type := mkLog { made : list FtlCall }.

#[export] Instance log_below : IclBelow CallLog := {|
  ftl_call c f := Ok (1000, mkLog (made f ++ [c]));
  ddr_read _ _ t f := Ok (t + 10, f);
  ddr_write _ _ t f := Ok (1500, f);
  setScheduling _ f := f;
  cpuLatency _ _ f := Ok (5, f);
  random_to _ f := (0, f);
|}.

#[export] Instance log_laws : IclBelowLaws noerr CallLog.
Proof.
  refine {| history := made |}; unfold wpe; simpl; try done.
Defined.

(** Units of 512 bytes, two to a page of 1024; two sets of one way. *)
Definition small_config : CacheConfig :=
  mkCacheConfig true true false 1 (f32_of_Z 1) MODE_ALL POLICY_LEAST_RECENTLY_USED MODE_ALL 1024 1 10 1 true.
Definition small_cache : CacheParam :=
  match cacheParam small_config 1024 2 2 false with Ok p => p | Err _ => mkCacheParam 0 0 0 0 0 0 0 0 0 (f32_of_Z 0) false false false false MODE_ALL MODE_ALL POLICY_RANDOM 0 0 end.

Lemma small_sane : sane small_cache /\ 0 <= getCacheLatency small_cache /\ 0 <= distMax small_cache < waySize small_cache.
Proof. by vm_compute. Qed.

Definition request (l length : Z) : IclRequest := mkIclRequest 1 1 0 length (mkLPNRange l 1).
Definition empty_cache : Cache.t CallLog := cache_new small_cache (mkLog []).

Lemma empty_cache_ok : cache_ok small_cache empty_cache.
Proof. by apply cache_new_ok; [apply small_sane|]. Qed.

(** Unit 4 written in part, and in the way of unit 6. *)
Definition one_write : Cache.t CallLog :=
  match write small_cache (request 4 100) 50 empty_cache with Ok (_, s) => s | Err _ => empty_cache end.

Lemma one_write_ok : cache_ok small_cache one_write.
Proof.
  assert (stored noerr small_cache empty_cache one_write 4) as H; [|apply H].
  pose proof (write_wp noerr small_cache (proj1 small_sane) (proj1 (proj2 small_sane)) (request 4 100) 50
    (fun _ s => stored noerr small_cache empty_cache s 4) empty_cache empty_cache_ok) as Hw.
  unfold wpe in Hw. unfold one_write. destruct (write _ _ _ _) as [[? s]|] eqn:Hrun; [|by vm_compute in Hrun].
  apply Hw; try done.
Qed.

(** ** The theorems *)

Section Main.
  Context {F : Type} (E : err -> Prop) `{IclBelowLaws E F} (P : CacheParam) (HP : sane P).
  Context (Hlat : 0 <= getCacheLatency P).

(** C6: from the cache the constructor makes, any sequence of writes and
    flushes runs with no error but those of the layers below (a full set always
    yields a way: the panic on a corrupted cache is not reached), the cache stays
    well formed, and the data of every unit ever written is in a dirty line or in
    a write the FTL received. *)
Theorem written_data_is_safe ops (f : F) : useWriteCaching P = true -> Forall (fits P) ops ->
  wpe E (run_ops P ops) (fun _ s' => cache_ok P s' /\ forall l, writes ops l -> safe E P s' l) (cache_new P f).
Proof.
  intros Hon Hfit. apply (run_ops_wp E P HP Hlat); [| done | done | by auto].
  apply (cache_new_ok P HP). by rewrite Hon, orb_true_r.
Qed.

(** C25: a write from any well-formed cache.  The unit is in the cache
    afterwards, dirty or written through, and no other dirty line is lost
    without a write of exactly its unit to the FTL. *)
Theorem write_keeps_data req tick s : cache_ok P s -> useWriteCaching P = true -> fits P (OpWrite req tick) ->
  wpe E (write P req tick) (fun _ s' => stored E P s s' (slpn (icl_range req))) s.
Proof. intros Hok Hon (Hl & Ht & Hb). by apply (write_wp E P HP Hlat). Qed.

(** C32: a read without read-ahead from any well-formed cache.  A hit calls
    nothing and touches only the time of the last access.  A miss makes one call,
    a read of exactly the unit, into one way of the set: an invalid one if there
    is one.  A dirty victim is never written back, and the line read in its place
    is left invalid. *)
Theorem read_fills_one_line req tick s : cache_ok P s -> useReadCaching P = true -> useReadPrefetch P = false ->
  enabled (readDetect s) = false -> 0 <= distMax P < waySize P -> 0 <= slpn (icl_range req) < max_u64 ->
  0 <= tick -> tick + 4 * (waySize P * step P) < max_u64 ->
  wpe E (Cache.read P req tick) (fun r s' => r.1.2 = req /\ read_effect E P s s' (slpn (icl_range req)) r.1.1) s.
Proof. intros. by apply (read_wp E P HP Hlat). Qed.

(** C33: a flush from any well-formed cache.  The lines of the range become
    invalid and the others stay; every dirty line of the range is in the range of
    a write the FTL receives, and it receives no write without such a line. *)
Theorem flush_writes_dirty_lines range tick s : cache_ok P s -> useReadCaching P || useWriteCaching P = true ->
  wpe E (flush P range tick) (fun _ s' => cache_ok P s' /\
    (forall set way x, line s set way = Some x -> line s' set way = Some (drop range x)) /\
    exists h, hist E s' = hist E s ++ h /\ calls P FtlWrite dirty range s (fun _ _ => True) h) s.
Proof.
  intros Hok Hon. apply (flush_wp E P HP); [done | done |]. intros t s1 s' Hd Hst Hh Hok'. split; [done|]. split.
  - intros set way x Hx. rewrite (same_line s1 s') by done. by apply (dr_done _ _ _ _ _ _ _ _ Hd).
  - destruct (dr_calls _ _ _ _ _ _ _ _ Hd) as (h & Hh1 & Hc). exists h. by rewrite Hh.
Qed.
End Main.

(** The example sequence fills a set three times over and flushes. *)
Definition example_ops : list CacheOp :=
  [OpWrite (request 4 100) 50; OpWrite (request 6 100) 2000; OpWrite (request 8 512) 4000; OpWrite (request 5 10) 5000;
   OpFlush (mkLPNRange 0 7) 6000].

Lemma example_fits : Forall (fits small_cache) example_ops.
Proof. do 5 (apply List.Forall_cons; [by vm_compute|]). apply List.Forall_nil. Qed.

Lemma written_data_is_safe_witness : exists s', run_ops small_cache example_ops empty_cache = Ok (tt, s') /\
  safe noerr small_cache s' 4 /\ safe noerr small_cache s' 8.
Proof.
  pose proof (written_data_is_safe noerr small_cache (proj1 small_sane) (proj1 (proj2 small_sane)) example_ops (mkLog [])) as Hw.
  specialize (Hw eq_refl example_fits). apply (proj1 (wpe_noerr _ _ _)) in Hw as ([] & s' & Hrun & _ & Hs). exists s'. split; [exact Hrun|].
  split; apply Hs; [exists (request 4 100), 50 | exists (request 8 512), 4000];
    (split; [apply list_elem_of_In; simpl; tauto | reflexivity]).
Defined.

Lemma write_keeps_data_witness : exists r s', write small_cache (request 6 100) 3000 one_write = Ok (r, s') /\
  stored noerr small_cache one_write s' 6.
Proof.
  pose proof (write_keeps_data noerr small_cache (proj1 small_sane) (proj1 (proj2 small_sane)) (request 6 100) 3000
    one_write one_write_ok eq_refl ltac:(by vm_compute)) as Hw.
  apply (proj1 (wpe_noerr _ _ _)) in Hw as (r & s' & Hrun & Hs). exists r, s'. split; [exact Hrun | exact Hs].
Defined.

(** The unit of the dirty victim is lost. *)
Lemma read_fills_one_line_witness : exists t s' x y, Cache.read small_cache (request 6 512) 3000 one_write = Ok (false, request 6 512, t, s') /\
  dirty x = true /\ tag x = 4 /\ valid y = false /\ refilled noerr small_cache one_write s' 6 0 x y.
Proof.
  pose proof (read_fills_one_line noerr small_cache (proj1 small_sane) (proj1 (proj2 small_sane)) (request 6 512) 3000
    one_write one_write_ok eq_refl eq_refl eq_refl (proj2 (proj2 small_sane)) ltac:(by vm_compute) ltac:(by vm_compute) ltac:(by vm_compute)) as Hw.
  apply (proj1 (wpe_noerr _ _ _)) in Hw as ([[hit req] t] & s' & Hrun & Hreq & Heff). cbn [fst snd] in *.
  assert (hit = false) as -> by (vm_compute in Hrun; congruence). subst req.
  destruct Heff as [_ [_ (way & x & y & Hr)]]. pose proof (rf_victim _ _ _ _ _ _ _ _ Hr) as Hx.
  destruct (line_range _ _ _ _ _ (ck_shape _ _ one_write_ok) Hx) as [_ Hway]. change (waySize small_cache) with 1 in Hway.
  assert (way = 0) as -> by lia.
  exists t, s', x, y. split; [exact Hrun|]. assert (x = mkLine 4 210 210 true true) as -> by (vm_compute in Hx; congruence).
  split; [reflexivity|]. split; [reflexivity|]. split; [exact (rf_valid _ _ _ _ _ _ _ _ Hr) | exact Hr].
Defined.

Lemma flush_writes_dirty_lines_witness : exists t s', flush small_cache (mkLPNRange 0 7) 3000 one_write = Ok (t, s') /\
  line s' 0 0 = Some (mkLine 4 210 210 true false).
Proof.
  pose proof (flush_writes_dirty_lines noerr small_cache (proj1 small_sane) (mkLPNRange 0 7) 3000
    one_write one_write_ok eq_refl) as Hw.
  apply (proj1 (wpe_noerr _ _ _)) in Hw as (t & s' & Hrun & _ & Hl & _). exists t, s'. split; [exact Hrun|].
  specialize (Hl 0 0 _ ltac:(by vm_compute)). exact Hl.
Defined.
