(* ===== verification/Icl.v ===== *)
(** * icl/icl.cc: the internal cache layer

    A host request over several logical pages is cut into one request per page.
    The cache is an interface, of which the cache of Cache.v is an instance. *)

From S2P Require Import Prelude Bitset Float32 Types PmState Cache.

(** ** The interface of a cache (icl/abstract_cache.hh)

    The tick, the request of a read and the range of a format are passed by
    reference; a write leaves the request as it is.  [icl_cpu] is [applyLatency(CPU::ICL, ...)]. *)
Class AbstractCache (C : Type) : Type := {
  cache_read : IclRequest -> Z -> C -> res ((IclRequest * Z) * C);
  cache_write : IclRequest -> Z -> C -> res ((IclRequest * Z) * C);
  cache_flush : LPNRange -> Z -> C -> res (Z * C);
  cache_trim : LPNRange -> Z -> C -> res (Z * C);
  cache_format : LPNRange -> Z -> C -> res ((LPNRange * Z) * C);
  icl_cpu : FUNCTION -> C -> res (Z * C);
}.

(** What the layer relies on: the identity and the length of a request stay. *)
Class AbstractCacheLaws (C : Type) `{AbstractCache C} : Prop := {
  cache_read_keeps r t s r' t' s' : cache_read r t s = Ok (r', t', s') ->
    icl_reqID r' = icl_reqID r /\ icl_length r' = icl_length r /\ nlp (icl_range r') = nlp (icl_range r);
  cache_write_keeps r t s r' t' s' : cache_write r t s = Ok (r', t', s') ->
    icl_reqID r' = icl_reqID r /\ icl_length r' = icl_length r /\ nlp (icl_range r') = nlp (icl_range r);
}.

(** [GenericCache] *)
#[export] Instance generic_cache {F} `{IclBelow F} (P : CacheParam) : AbstractCache (Cache.t F) := {|
  cache_read r t s := '(_, r, t, s) ← Cache.read P r t s; Ok (r, t, s);
  cache_write r t s := '(_, t, s) ← Cache.write P r t s; Ok (r, t, s);
  cache_flush := Cache.flush P;
  cache_trim := Cache.trim P;
  cache_format := Cache.format P;
  icl_cpu f := under (cpuLatency NS_ICL f);
|}.

(** ** The layer *)

(** The values the constructor derives from the parameters of the FTL; the
    quotients are 32 bit wide, the product 64. *)
Record IclParam : Type := mkIclParam { totalLogicalPages : Z; logicalPageSize : Z }.
Definition ICL_make (p : FtlParameter) (randomTweak : bool) : res IclParam :=
  if randomTweak then
    if ioUnitInPage p =? 0 then Err UB
    else Ok (mkIclParam (u64 (u64 (totalLogicalBlocks p * pagesInBlock p) * ioUnitInPage p)) (pageSize p / ioUnitInPage p))
  else Ok (mkIclParam (u64 (totalLogicalBlocks p * pagesInBlock p)) (pageSize p)).

Definition getLPNInfo (q : IclParam) : Z * Z := (totalLogicalPages q, logicalPageSize q).

Section Icl.
  Context {C : Type} `{AbstractCache C} (q : IclParam).

(** One page: [reqInternal], the bytes left and the latest end. *)
Definition page (op : IclRequest -> Z -> C -> res ((IclRequest * Z) * C)) (req : IclRequest) (tick i : Z)
    (st : IclRequest * Z * Z) : M C (IclRequest * Z * Z) :=
  let '(r, reqRemain, finishedAt) := st in
  let r := mkIclRequest (icl_reqID r) (u64 (i + 1)) (icl_offset r)
             (Z.min reqRemain (u64 (logicalPageSize q - icl_offset r)))
             (mkLPNRange (u64 (slpn (icl_range req) + i)) (nlp (icl_range r))) in
  '(r, beginAt) ← op r tick;
  mret (mkIclRequest (icl_reqID r) (icl_reqSubID r) 0 (icl_length r) (icl_range r),
        u64 (reqRemain - icl_length r), Z.max finishedAt beginAt).

Definition transfer (op : IclRequest -> Z -> C -> res ((IclRequest * Z) * C)) (f : FUNCTION) (req : IclRequest) (tick : Z) : M C Z :=
  '(_, _, finishedAt) ← for_range 0 (nlp (icl_range req)) (page op req tick)
    (mkIclRequest (icl_reqID req) 0 (icl_offset req) 0 (mkLPNRange 0 0), icl_length req, tick);
  l ← icl_cpu f; mret (u64 (finishedAt + l)).

Definition read (req : IclRequest) (tick : Z) : M C Z := transfer cache_read READ req tick.
Definition write (req : IclRequest) (tick : Z) : M C Z := transfer cache_write WRITE req tick.

Definition flush (range : LPNRange) (tick : Z) : M C Z :=
  tick ← cache_flush range tick; l ← icl_cpu FLUSH; mret (u64 (tick + l)).
Definition trim (range : LPNRange) (tick : Z) : M C Z :=
  tick ← cache_trim range tick; l ← icl_cpu TRIM; mret (u64 (tick + l)).
Definition format (range : LPNRange) (tick : Z) : M C (LPNRange * Z) :=
  '(range, tick) ← cache_format range tick; l ← icl_cpu FORMAT; mret (range, u64 (tick + l)).

(** [getUsedPageCount]; [used] is the one of the FTL. *)
Definition getUsedPageCount (p : FtlParameter) (used : Z -> Z -> Z) (lcaBegin lcaEnd : Z) : res Z :=
  if ioUnitInPage p =? 0 then Err UB
  else Ok (u64 (used (lcaBegin / ioUnitInPage p) (lcaEnd / ioUnitInPage p) * ioUnitInPage p)).
End Icl.
