(* ===== verification/IclProof.v ===== *)
(** * The internal cache layer: one request per page *)

From S2P Require Import Prelude Bitset Float32 Types PmState Cache Icl.

(** ** The cache of Cache.v keeps requests *)

Lemma wpe_any {S A} (m : M S A) (Q : A -> S -> Prop) s : (forall a s', Q a s') -> wpe anyerr m Q s.
Proof. intros HQ. unfold wpe, wpr. destruct (m s) as [[]|]; [apply HQ | exact I]. Qed.

Section Keeps.
  Context {F : Type} `{IclBelow F} (P : CacheParam).

Lemma read_returns req tick s : wpe anyerr (Cache.read P req tick) (fun r _ => exists l, r.1.2 = req \/ r.1.2 = with_slpn req l) s.
Proof.
  unfold Cache.read. apply wpe_bind, (wpe_mono anyerr _ (fun r (_ : Cache.t F) => exists l, r.1.2 = req \/ r.1.2 = with_slpn req l)).
  2:{ intros r s1 Hr. wp_step. apply wpe_any. intros _ s2. by wp_step. }
  destruct (useReadCaching P).
  - wp_step. apply (wpe_mono anyerr _ (fun r (_ : Cache.t F) => exists l, r.1.2 = req \/ r.1.2 = with_slpn req l)).
    2:{ intros r s1 Hr. wp_step. apply wpe_any. intros l s2. by wp_step. }
    unfold readCached. wp_step. apply wpe_any. intros set s1. wp_step. apply wpe_any. intros _ s2. wp_step.
    apply wpe_any. intros [way t] s3. destruct (negb _).
    + do 4 (wp_step; apply wpe_any; intros ? ?). destruct (_ && _).
      * do 2 (wp_step; apply wpe_any; intros ? ?). wp_step. eexists. by right.
      * wp_step. exists 0. by left.
    + wp_step. apply wpe_any. intros t' s4. wp_step. exists 0. by left.
  - do 3 (wp_step; apply wpe_any; intros ? ?). wp_step. exists 0. by left.
Qed.

#[export] Instance generic_cache_laws : @AbstractCacheLaws _ (generic_cache P).
Proof.
  split; intros r t s r' t' s'; simpl.
  - pose proof (read_returns r t s) as Hr. unfold wpe in Hr. destruct (Cache.read P r t s) as [[[[hit r1] t1] s1]|]; [|done].
    simpl in *. intros [= -> -> ->]. destruct Hr as (l & [-> | ->]); done.
  - destruct (Cache.write P r t s) as [[[hit t1] s1]|]; [|done]. simpl. by intros [= <- -> ->].
Qed.
End Keeps.

(** ** Pages *)

(** A host request: it starts in its first page and its pages just cover it. *)
Record page_request (L : Z) (r : IclRequest) : Prop := {
  pr_page : 0 < L < 2 ^ 32;
  pr_offset : 0 <= icl_offset r < L;
  pr_length : 0 < icl_length r;
  pr_end : icl_offset r + icl_length r <= nlp (icl_range r) * L < icl_offset r + icl_length r + L;
  pr_range : 0 <= slpn (icl_range r) /\ (slpn (icl_range r) + nlp (icl_range r)) * L < 2 ^ 64;
}.

(** The first byte of a request and the byte behind it. *)
Definition first_byte (L : Z) (r : IclRequest) : Z := slpn (icl_range r) * L + icl_offset r.
Definition end_byte (L : Z) (r : IclRequest) : Z := first_byte L r + icl_length r.

(** The part of the request in its page [i], and all parts. *)
Definition piece (L : Z) (r : IclRequest) (i : Z) : IclRequest :=
  let start := if i =? 0 then icl_offset r else 0 in
  let stop := Z.min L (icl_offset r + icl_length r - i * L) in
  mkIclRequest (icl_reqID r) (i + 1) start (stop - start) (mkLPNRange (slpn (icl_range r) + i) 0).
Definition pieces (L : Z) (r : IclRequest) : list IclRequest := piece L r <$> seqZ 0 (nlp (icl_range r)).

(** The requests one after the other from the same tick; the last to end counts. *)
Definition serve {C} (op : IclRequest -> Z -> C -> res ((IclRequest * Z) * C)) (rs : list IclRequest) (tick fin : Z) : M C Z :=
  foldM (fun r fin => '(_, t) ← op r tick; mret (Z.max fin t)) rs fin.

(** Requests follow each other without a gap, each within a page. *)
Fixpoint tiles (L from to : Z) (rs : list IclRequest) : Prop :=
  match rs with
  | [] => from = to
  | r :: rs' => first_byte L r = from /\ 0 <= icl_offset r /\ 0 < icl_length r /\ icl_offset r + icl_length r <= L /\
                tiles L (end_byte L r) to rs'
  end.

Lemma piece_length L r i : page_request L r -> 0 <= i < nlp (icl_range r) ->
  0 < icl_length (piece L r i) /\ 0 <= icl_offset (piece L r i) /\ icl_offset (piece L r i) + icl_length (piece L r i) <= L /\
  first_byte L (piece L r i) = Z.max (first_byte L r) ((slpn (icl_range r) + i) * L) /\
  end_byte L (piece L r i) = Z.min ((slpn (icl_range r) + i + 1) * L) (end_byte L r).
Proof.
  intros [Hp Ho Hl He Hr] Hi. unfold end_byte, first_byte, piece. simpl. destruct (Z.eqb_spec i 0) as [->|Hne]; simpl; nia.
Qed.

Lemma tiles_pieces L r : page_request L r -> tiles L (first_byte L r) (end_byte L r) (pieces L r).
Proof.
  intros HP. pose proof HP as [Hp Ho Hl He Hr]. unfold pieces.
  assert (0 < nlp (icl_range r)) as Hn by nia.
  enough (forall k i, 0 <= i -> i + Z.of_nat k = nlp (icl_range r) ->
    tiles L (if i =? nlp (icl_range r) then end_byte L r else first_byte L (piece L r i)) (end_byte L r) (piece L r <$> seqZ i (Z.of_nat k))) as Hgen.
  { specialize (Hgen (Z.to_nat (nlp (icl_range r))) 0 ltac:(lia) ltac:(lia)). rewrite Z2Nat.id in Hgen by lia.
    rewrite (proj2 (Z.eqb_neq 0 _)) in Hgen by lia. destruct (piece_length L r 0 HP ltac:(lia)) as (_ & _ & _ & Hf & _).
    rewrite Hf, Z.add_0_r in Hgen. rewrite Z.max_l in Hgen by (unfold first_byte; lia). exact Hgen. }
  induction k as [|k IH]; intros i Hi Hk.
  - simpl. rewrite (proj2 (Z.eqb_eq i _)) by lia. done.
  - rewrite (proj2 (Z.eqb_neq i _)) by lia. rewrite seqZ_cons, fmap_cons by lia. cbn [tiles].
    destruct (piece_length L r i HP ltac:(lia)) as (H1 & H2 & H3 & _ & H5). split_and!; try done.
    replace (Z.pred (Z.of_nat (S k))) with (Z.of_nat k) by lia. specialize (IH (Z.succ i) ltac:(lia) ltac:(lia)).
    destruct (Z.eqb_spec (Z.succ i) (nlp (icl_range r))) as [Heq|Hne].
    + rewrite H5. rewrite Z.min_r; [exact IH|]. unfold end_byte, first_byte. nia.
    + destruct (piece_length L r (Z.succ i) HP ltac:(lia)) as (_ & _ & _ & Hf & _). rewrite Hf in IH. rewrite H5.
      replace (Z.min _ _) with (Z.max (first_byte L r) ((slpn (icl_range r) + Z.succ i) * L)); [exact IH|].
      unfold end_byte, first_byte. nia.
Qed.

Section Transfer.
  Context {C : Type} `{AbstractCache C} (q : IclParam) (req : IclRequest).
Notation L := (logicalPageSize q).
  Context (HP : page_request L req).
  Context (op : IclRequest -> Z -> C -> res ((IclRequest * Z) * C)).
  Context (Hop : forall r t s r' t' s', op r t s = Ok (r', t', s') ->
    icl_reqID r' = icl_reqID r /\ icl_length r' = icl_length r /\ nlp (icl_range r') = nlp (icl_range r)).

(** The loop from page [i] on; [r] is [reqInternal] as the pages before left it. *)
Lemma pages_serve k i r remain fin tick s : 0 <= i -> i + Z.of_nat k = nlp (icl_range req) ->
  icl_reqID r = icl_reqID req -> nlp (icl_range r) = 0 -> icl_offset r = (if i =? 0 then icl_offset req else 0) ->
  remain = (if i =? 0 then icl_length req else Z.max 0 (icl_offset req + icl_length req - i * L)) ->
  ('(_, _, fin) ← foldM (page q op req tick) (seqZ i (Z.of_nat k)) (r, remain, fin); mret fin) s =
  serve op (piece L req <$> seqZ i (Z.of_nat k)) tick fin s.
Proof.
  pose proof HP as [Hp Ho Hl He Hr].
  revert i r remain fin s. induction k as [|k IH]; intros i r remain fin s Hi Hk Hid Hn Hoff Hrem.
  - done.
  - rewrite !seqZ_cons, fmap_cons by lia. unfold serve in *. cbn [foldM].
    set (r1 := mkIclRequest (icl_reqID r) (u64 (i + 1)) (icl_offset r) (Z.min remain (u64 (L - icl_offset r)))
      (mkLPNRange (u64 (slpn (icl_range req) + i)) (nlp (icl_range r)))).
    destruct (piece_length L req i HP ltac:(lia)) as (Hlen & _).
    assert (r1 = piece L req i) as Hr1.
    { unfold r1, piece in *. simpl in *. rewrite Hid, Hn, Hoff, Hrem. clear IH.
      assert (slpn (icl_range req) + i + 1 <= slpn (icl_range req) + nlp (icl_range req)) by lia.
      rewrite (u64_small (i + 1)), (u64_small (slpn _ + i)) by nia.
      destruct (Z.eqb_spec i 0) as [->|Hne]; rewrite u64_small by lia; f_equal; lia. }
    change (page q op req tick i (r, remain, fin)) with (('(r2, beginAt) ← (op r1 tick : M C _);
      mret (mkIclRequest (icl_reqID r2) (icl_reqSubID r2) 0 (icl_length r2) (icl_range r2),
            u64 (remain - icl_length r2), Z.max fin beginAt)) : M C _).
    rewrite Hr1. unfold mbind, M_bind. simpl.
    destruct (op (piece L req i) tick s) as [[[r' t] s']|] eqn:Hrun; [|done]. simpl.
    destruct (Hop _ _ _ _ _ _ Hrun) as (Hid' & Hlen' & Hn').
    replace (Z.pred (Z.of_nat (S k))) with (Z.of_nat k) by lia.
    apply (IH (Z.succ i)); [lia | lia | exact Hid' | exact Hn' | | ].
    + by rewrite (proj2 (Z.eqb_neq _ _)) by lia.
    + rewrite (proj2 (Z.eqb_neq (Z.succ i) 0)) by lia. rewrite Hlen', Hrem. unfold piece in *. simpl in *.
      destruct (Z.eqb_spec i 0) as [->|Hne]; rewrite u64_small by nia; nia.
Qed.

Lemma transfer_serve f tick s : transfer q op f req tick s =
  (fin ← serve op (pieces L req) tick tick; l ← icl_cpu f; mret (u64 (fin + l))) s.
Proof.
  assert (0 < nlp (icl_range req)) as Hn by (pose proof HP as [Hp Ho Hl He Hr]; nia).
  pose proof (pages_serve (Z.to_nat (nlp (icl_range req))) 0 (mkIclRequest (icl_reqID req) 0 (icl_offset req) 0 (mkLPNRange 0 0))
    (icl_length req) tick tick s ltac:(lia) ltac:(lia) eq_refl eq_refl eq_refl eq_refl) as Heq.
  rewrite Z2Nat.id in Heq by lia. unfold transfer, for_range, pieces. rewrite Z.sub_0_r.
  unfold mbind, M_bind in *. rewrite <- Heq. case_match; [|done].
  match goal with p : (_ * C)%type |- _ => by destruct p as [[[? ?] ?] ?] end.
Qed.
End Transfer.
