(* ===== verification/Hil.v ===== *)
(** * hil/hil.cc: the host interface layer

    Requests become jobs of the CPU; a job calls the cache layer and puts the
    request into a queue ordered by the tick it ends at; an event of the engine
    takes the ended requests out and calls their completion functions. *)

From S2P Require Import Prelude Bitset Float32 Types PmState Icl.

(** [HIL::Request]; the completion function with its context is a number. *)
Record HilRequest : Type := mkHilRequest {
  hil_reqID : Z; hil_reqSubID : Z; hil_offset : Z; hil_length : Z; hil_range : LPNRange;
  hil_finishedAt : Z; hil_function : Z;
}.
Definition HilRequest_make (f : Z) : HilRequest := mkHilRequest 0 0 0 0 (mkLPNRange 0 0) 0 f.
(** [ICL::Request(HIL::Request &)] *)
Definition icl_of_hil (r : HilRequest) : IclRequest :=
  mkIclRequest (hil_reqID r) (hil_reqSubID r) (hil_offset r) (hil_length r) (hil_range r).

Definition with_reqID (id : Z) (r : HilRequest) : HilRequest :=
  mkHilRequest id (hil_reqSubID r) (hil_offset r) (hil_length r) (hil_range r) (hil_finishedAt r) (hil_function r).
Definition with_range (range : LPNRange) (r : HilRequest) : HilRequest :=
  mkHilRequest (hil_reqID r) (hil_reqSubID r) (hil_offset r) (hil_length r) range (hil_finishedAt r) (hil_function r).
Definition with_finishedAt (tick : Z) (r : HilRequest) : HilRequest :=
  mkHilRequest (hil_reqID r) (hil_reqSubID r) (hil_offset r) (hil_length r) (hil_range r) tick (hil_function r).

(** The five operations. *)
Inductive HilOp : Type := HilRead | HilWrite | HilFlush | HilTrim | HilFormat (erase : bool).

(** The label the job has for the CPU. *)
Definition job_function (op : HilOp) : FUNCTION :=
  match op with HilRead => READ | HilWrite => WRITE | _ => FLUSH end.

(** [std::priority_queue]: the top is a request that ends first; which of several
    is open.  The list is the top and the rest. *)
Class PriorityQueue : Type := {
  pq_push : HilRequest -> list HilRequest -> list HilRequest;
  pq_pop : list HilRequest -> list HilRequest;
}.

(** [stat] *)
Record HilStat : Type := mkHilStat { request : list Z; busy : list Z; iosize : list Z; lastBusyAt : list Z }.

Record t (C : Type) : Type := mk {
  pICL : C;
  reqCount : Z;
  lastScheduled : Z;
  completionQueue : list HilRequest;
  stat : HilStat;
  (** the clock, the pending completion event and the jobs given to the CPU *)
  now : Z;
  completionEvent : option Z;
  jobs : list (HilOp * HilRequest);
  (** the completion functions called, with the tick they got *)
  called : list (Z * HilRequest);
}.
Arguments mk {C}. Arguments pICL {C}. Arguments reqCount {C}. Arguments lastScheduled {C}. Arguments completionQueue {C}.
Arguments stat {C}. Arguments now {C}. Arguments completionEvent {C}. Arguments jobs {C}. Arguments called {C}.

Definition stat_zero : HilStat := mkHilStat [0; 0] [0; 0; 0] [0; 0] [0; 0; 0].

Section Hil.
  Context {C : Type} `{AbstractCache C} `{PriorityQueue} (q : IclParam).
Notation S := (t C).
  Implicit Types s : S.

Definition HIL_make (c : C) (tick : Z) : S := mk c 0 0 [] stat_zero tick None [] [].

Definition set_icl (c : C) (s : S) : S :=
  mk c (reqCount s) (lastScheduled s) (completionQueue s) (stat s) (now s) (completionEvent s) (jobs s) (called s).
Definition set_count (n : Z) (s : S) : S :=
  mk (pICL s) n (lastScheduled s) (completionQueue s) (stat s) (now s) (completionEvent s) (jobs s) (called s).
Definition set_queue (l : list HilRequest) (s : S) : S :=
  mk (pICL s) (reqCount s) (lastScheduled s) l (stat s) (now s) (completionEvent s) (jobs s) (called s).
Definition set_stat (x : HilStat) (s : S) : S :=
  mk (pICL s) (reqCount s) (lastScheduled s) (completionQueue s) x (now s) (completionEvent s) (jobs s) (called s).
Definition set_jobs (l : list (HilOp * HilRequest)) (s : S) : S :=
  mk (pICL s) (reqCount s) (lastScheduled s) (completionQueue s) (stat s) (now s) (completionEvent s) l (called s).
Definition add_call (r : HilRequest) (s : S) : S :=
  mk (pICL s) (reqCount s) (lastScheduled s) (completionQueue s) (stat s) (now s) (completionEvent s) (jobs s)
    (called s ++ [(now s, r)]).
(** [schedule]: the pending event moves; a past tick becomes the present one. *)
Definition schedule (tick : Z) (s : S) : S :=
  mk (pICL s) (reqCount s) tick (completionQueue s) (stat s) (now s) (Some (Z.max tick (now s))) (jobs s) (called s).
(** The engine runs the event, or time passes without it. *)
Definition event_due (tick : Z) (s : S) : S :=
  mk (pICL s) (reqCount s) (lastScheduled s) (completionQueue s) (stat s) tick None (jobs s) (called s).
Definition pass_to (tick : Z) (s : S) : S :=
  mk (pICL s) (reqCount s) (lastScheduled s) (completionQueue s) (stat s) tick (completionEvent s) (jobs s) (called s).

Definition updateBusyTime (idx begin end_ : Z) (x : HilStat) : HilStat :=
  match vget (lastBusyAt x) idx, vget (busy x) idx with
  | Some last, Some b =>
      if end_ <=? last then x
      else mkHilStat (request x) (vset (busy x) idx (u64 (b + u64 (end_ - (if begin <? last then last else begin))))) (iosize x)
             (vset (lastBusyAt x) idx end_)
  | _, _ => x
  end.

Definition countIO (idx length : Z) (x : HilStat) : HilStat :=
  match vget (request x) idx, vget (iosize x) idx with
  | Some n, Some b => mkHilStat (vset (request x) idx (u64 (n + 1))) (busy x) (vset (iosize x) idx (u64 (b + length))) (lastBusyAt x)
  | _, _ => x
  end.

(** [updateCompletion]; [lastScheduled] is set by [schedule]. *)
Definition updateCompletion (s : S) : S :=
  match completionQueue s with
  | top :: _ => if lastScheduled s =? hil_finishedAt top then s else schedule (hil_finishedAt top) s
  | [] => s
  end.

(** The call of the cache layer, with the range as it is left. *)
Definition serveIO (op : HilOp) (r : HilRequest) (tick : Z) : M C (LPNRange * Z) :=
  let keep (m : M C Z) : M C (LPNRange * Z) := tick ← m; mret (hil_range r, tick) in
  match op with
  | HilRead => keep (Icl.read q (icl_of_hil r) tick)
  | HilWrite => keep (Icl.write q (icl_of_hil r) tick)
  | HilFlush => keep (Icl.flush (hil_range r) tick)
  | HilTrim => keep (Icl.trim (hil_range r) tick)
  | HilFormat erase => if erase then Icl.format (hil_range r) tick else keep (Icl.trim (hil_range r) tick)
  end.

(** [doRead], [doWrite], [doFlush]: a job the CPU runs at [beginAt]. *)
Definition doIO (op : HilOp) (r : HilRequest) (beginAt : Z) : M S unit :=
  n ← gets reqCount;
  let counts := match op with HilFormat _ => false | _ => true end in
  when counts (modify (set_count (u64 (n + 1))));;
  let r := if counts then with_reqID (u64 (n + 1)) r else r in
  '(range, tick) ← zoom pICL set_icl (serveIO op r beginAt);
  modify (fun s =>
    match op with
    | HilRead => set_stat (updateBusyTime 2 beginAt tick (updateBusyTime 0 beginAt tick (countIO 0 (hil_length r) (stat s)))) s
    | HilWrite => set_stat (updateBusyTime 2 beginAt tick (updateBusyTime 1 beginAt tick (countIO 1 (hil_length r) (stat s)))) s
    | _ => s
    end);;
  modify (fun s => updateCompletion (set_queue (pq_push (with_finishedAt tick (with_range range r)) (completionQueue s)) s)).

(** [read], [write], [flush], [trim], [format]: the job is handed to the CPU. *)
Definition submit (op : HilOp) (r : HilRequest) : M S unit := modify (fun s => set_jobs (jobs s ++ [(op, r)]) s).

(** [completion]: at most the whole queue is taken out. *)
Fixpoint complete (n : nat) (tick : Z) (s : S) : S :=
  match n, completionQueue s with
  | Datatypes.S n', r :: _ =>
      if hil_finishedAt r <=? tick then complete n' tick (set_queue (pq_pop (completionQueue s)) (add_call r s)) else s
  | _, _ => s
  end.
Definition completion (s : S) : S := updateCompletion (complete (length (completionQueue s)) (now s) s).

(** ** Steps *)

(** The CPU runs any of its jobs now; the event fires; or time passes, up to the
    event at the latest. *)
Inductive hil_step : S -> S -> Prop :=
  | step_job s s' l op r l' : jobs s = l ++ (op, r) :: l' -> doIO op r (now s) (set_jobs (l ++ l') s) = Ok (tt, s') -> hil_step s s'
  | step_event s tick : completionEvent s = Some tick -> now s <= tick -> hil_step s (completion (event_due tick s))
  | step_pass s tick : now s <= tick -> (forall e, completionEvent s = Some e -> tick <= e) -> hil_step s (pass_to tick s).

(** A run from [s0] in which the requests with the functions [fs] arrive. *)
Inductive hil_run (s0 : S) : list Z -> S -> Prop :=
  | run_start : hil_run s0 [] s0
  | run_submit fs s s' op r : hil_run s0 fs s -> submit op r s = Ok (tt, s') -> hil_run s0 (hil_function r :: fs) s'
  | run_step fs s s' : hil_run s0 fs s -> hil_step s s' -> hil_run s0 fs s'.
End Hil.
