(* ===== verification/Subsystem.v ===== *)
(** * hil/nvme/subsystem.cc: namespaces over the logical pages

    Creation and destruction of namespaces, the bytes a command on logical
    blocks reaches, and the requests handed to the layer below.  The disk image
    of a namespace is switched off. *)

From S2P Require Import Prelude Bitset Float32 Types PmState Icl Hil.

(** [Namespace::Information] *)
Record Information : Type := mkInformation {
  size : Z; capacity : Z; utilization : Z; sizeInByteL : Z; sizeInByteH : Z;
  lbaFormatIndex : Z; dataProtectionSettings : Z; namespaceSharingCapabilities : Z;
  lbaSize : Z; range : LPNRange;
}.

(** [Namespace]; the address stands for the object, which pointers are compared with. *)
Record Namespace : Type := mkNamespace {
  nsid : Z; info : Information; attached : bool; formatFinishedAt : Z; address : Z;
}.
Definition set_info (i : Information) (ns : Namespace) : Namespace :=
  mkNamespace (nsid ns) i (attached ns) (formatFinishedAt ns) (address ns).
Definition attach (b : bool) (ns : Namespace) : Namespace :=
  mkNamespace (nsid ns) (info ns) b (formatFinishedAt ns) (address ns).
(** [format] *)
Definition format (tick : Z) (ns : Namespace) : Namespace :=
  mkNamespace (nsid ns) (info ns) (attached ns) tick (address ns).

(** The part of [Subsystem] the namespaces live in. *)
Record t : Type := mk {
  lNamespaces : list Namespace;
  sub_icl : IclParam;
  allocatedLogicalPages : Z;
}.

Definition NSID_NONE : Z := 0.
Definition NSID_LOWEST : Z := 1.
Definition NSID_ALL : Z := 2 ^ 32 - 1.

Definition nLBAFormat : Z := 4.
Definition lbaSizes : list Z := [512; 1024; 2048; 4096].

Definition set_range (r : LPNRange) (i : Information) : Information :=
  mkInformation (size i) (capacity i) (utilization i) (sizeInByteL i) (sizeInByteH i) (lbaFormatIndex i)
    (dataProtectionSettings i) (namespaceSharingCapabilities i) (lbaSize i) r.
Definition set_sizeInByte (l h : Z) (i : Information) : Information :=
  mkInformation (size i) (capacity i) (utilization i) l h (lbaFormatIndex i)
    (dataProtectionSettings i) (namespaceSharingCapabilities i) (lbaSize i) (range i).

(** [std::list::sort] with a strict order is stable. *)
Section Sort.
  Context {A : Type} (key : A -> Z).
Fixpoint insert_by (x : A) (l : list A) : list A :=
    match l with
    | [] => [x]
    | y :: l' => if key x <=? key y then x :: l else y :: insert_by x l'
    end.
Definition sort_by (l : list A) : list A := foldr insert_by [] l.
End Sort.

Section Subsystem.
  Implicit Types s : t.

Notation L s := (logicalPageSize (sub_icl s)).

(** ** Requests *)

(** [convertUnit]: the request for [nlblk] logical blocks from [slba]. *)
Definition convertUnit (q : IclParam) (i : Information) (slba nlblk : Z) (r : HilRequest) : res HilRequest :=
  if lbaSize i =? 0 then Err UB else
  let fill slpn nlp off :=
    mkHilRequest (hil_reqID r) (hil_reqSubID r) off (u64 (nlblk * lbaSize i))
      (mkLPNRange (u64 (slpn + Types.slpn (range i))) nlp) (hil_finishedAt r) (hil_function r) in
  let lbaratio := logicalPageSize q / lbaSize i in
  if lbaratio =? 0 then
    if logicalPageSize q =? 0 then Err UB
    else let lbaratio := lbaSize i / logicalPageSize q in
         Ok (fill (u64 (slba * lbaratio)) (u64 (nlblk * lbaratio)) 0)
  else
    let off := slba mod lbaratio in
    Ok (fill (slba / lbaratio) (u64 (u64 (u64 (nlblk + off) + lbaratio) - 1) / lbaratio) (u64 (off * lbaSize i))).

(** The request of [Subsystem::read], [write] and [trim], and of [flush]. *)
Definition command (s : t) (ns : Namespace) (slba nlblk func : Z) : res HilRequest :=
  convertUnit (sub_icl s) (info ns) slba nlblk (HilRequest_make func).
Definition flush_command (s : t) (ns : Namespace) (func : Z) : HilRequest :=
  let rng := range (info ns) in
  mkHilRequest 0 0 0 (u64 (nlp rng * L s)) rng 0 func.

(** ** Allocation *)

(** The loop that should merge neighbours leaves at its first test, since the
    iterator it tests is not yet the end. *)
Definition merge (allocated : list LPNRange) : list LPNRange := allocated.

(** One allocated range splits the last free one. *)
Definition invert_step (r : LPNRange) (unallocated : list LPNRange) : res (list LPNRange) :=
  match last unallocated with
  | Some b =>
      if (slpn b <=? slpn r) && (u64 (slpn r + nlp r) <=? u64 (slpn b + nlp b)) then
        Ok (removelast unallocated ++
            [mkLPNRange (slpn b) (u64 (slpn r - slpn b));
             mkLPNRange (u64 (slpn r + nlp r)) (u64 (u64 (u64 (slpn b + nlp b) - slpn r) - nlp r))])
      else panic "BUG"
  | None => Err UB
  end.
Definition invert (total : Z) (allocated : list LPNRange) : res (list LPNRange) :=
  foldM invert_step allocated [mkLPNRange 0 total].

(** The free ranges. *)
Definition free_ranges (s : t) : res (list LPNRange) :=
  invert (totalLogicalPages (sub_icl s)) (merge (sort_by slpn ((fun ns => range (info ns)) <$> lNamespaces s))).

(** The first free range with room gives its first pages; [old] stays without one. *)
Fixpoint first_fit (requested : Z) (unallocated : list LPNRange) (old : LPNRange) : LPNRange :=
  match unallocated with
  | [] => old
  | r :: rest => if requested <=? nlp r then mkLPNRange (slpn r) requested else first_fit requested rest old
  end.

Definition requestedLogicalPages (s : t) (i : Information) : res Z :=
  if L s =? 0 then Err UB
  else match vget lbaSizes (lbaFormatIndex i) with
       | Some n => Ok (u64 (size i / L s * n))
       | None => Err UB
       end.

(** [new Namespace]: an object apart from the living ones. *)
Definition new_address (l : list Namespace) : Z := 1 + foldr (fun ns n => Z.max (address ns) n) 0 l.
Definition new_namespace (id : Z) (i : Information) (l : list Namespace) : Namespace :=
  mkNamespace id i false 0 (new_address l).

(** [createNamespace]: success, and [*info] as it is left. *)
Definition createNamespace (id : Z) (i : Information) (s : t) : res (bool * Information * t) :=
  requested ← requestedLogicalPages s i;
  if u64 (totalLogicalPages (sub_icl s) - allocatedLogicalPages s) <? requested then Ok (false, i, s)
  else
    unallocated ← free_ranges s;
    let i := set_range (first_fit requested unallocated (range i)) i in
    if nlp (range i) =? 0 then Ok (false, i, s)
    else
      let i := set_sizeInByte (u64 (requested * L s)) 0 i in
      Ok (true, i, mk (sort_by nsid (lNamespaces s ++ [new_namespace id i (lNamespaces s)])) (sub_icl s)
                     (u64 (allocatedLogicalPages s + requested))).

(** [destroyNamespace]: the first namespace of that number. *)
Fixpoint remove_first (id : Z) (l : list Namespace) : option (Namespace * list Namespace) :=
  match l with
  | [] => None
  | ns :: l' => if nsid ns =? id then Some (ns, l')
                else '(x, rest) ← remove_first id l'; Some (x, ns :: rest)
  end.
Definition destroyNamespace (id : Z) (s : t) : res (bool * t) :=
  match remove_first id (lNamespaces s) with
  | Some (ns, rest) =>
      if L s =? 0 then Err UB
      else Ok (true, mk rest (sub_icl s)
             (u64 (allocatedLogicalPages s - u64 (size (info ns) * lbaSize (info ns)) / L s)))
  | None => Ok (false, s)
  end.

Definition getNVMCapacity (s : t) : Z * Z :=
  (u64 (totalLogicalPages (sub_icl s) * L s), u64 (allocatedLogicalPages s * L s)).
Definition validNamespaceCount (s : t) : Z := u32 (vlen (lNamespaces s)).

(** [Namespace::attach] on the last namespace, as [init] uses it. *)
Definition attach_back (s : t) : t :=
  match last (lNamespaces s) with
  | Some ns => mk (removelast (lNamespaces s) ++ [attach true ns]) (sub_icl s) (allocatedLogicalPages s)
  | None => s
  end.

(** ** [init]: the default namespaces *)

Fixpoint formatIndex (lba : Z) (sizes : list Z) (i : Z) : Z :=
  match sizes with
  | [] => i
  | n :: sizes' => if n =? lba then i else formatIndex lba sizes' (i + 1)
  end.

(** One [Information] serves all creations. *)
Definition init_one (n totalSize : Z) (i : Z) (st : Information * t) : res (Information * t) :=
  let '(inf, s) := st in
  let inf := mkInformation (totalSize / n) (totalSize / n) (utilization inf) (sizeInByteL inf) (sizeInByteH inf)
    (lbaFormatIndex inf) (dataProtectionSettings inf) (namespaceSharingCapabilities inf) (lbaSize inf) (range inf) in
  '(ok, inf, s) ← createNamespace (u32 (NSID_LOWEST + i)) inf s;
  if ok : bool then Ok (inf, attach_back s) else panic "Failed to create namespace".

Definition init (q : IclParam) (nNamespaces lba : Z) (uninit : Information) : res t :=
  let s := mk [] q 0 in
  let n := u16 nNamespaces in
  if n =? 0 then Ok s
  else
    let idx := formatIndex lba lbaSizes 0 in
    if idx =? nLBAFormat then panic "Failed to setting LBA size (512B ~ 4KB)"
    else if lba =? 0 then Err UB
    else
      let totalSize := u64 (totalLogicalPages q * logicalPageSize q) / lba in
      let inf := mkInformation (size uninit) (capacity uninit) (utilization uninit) (sizeInByteL uninit) (sizeInByteH uninit)
        idx 0 0 lba (mkLPNRange 0 0) in
      '(_, s) ← for_range 0 n (init_one n totalSize) (inf, s);
      Ok s.

(** ** Namespace management *)

(** The number of a new namespace, chosen when the command arrives. *)
Fixpoint next_nsid (l : list Namespace) (id : Z) : Z :=
  match l with
  | [] => id
  | ns :: l' => if nsid ns =? id then next_nsid l' (u32 (id + 1)) else id
  end.
Definition new_nsid (s : t) : Z := next_nsid (lNamespaces s) NSID_LOWEST.

Inductive Status : Type :=
  | STATUS_SUCCESS (dword0 : Z) | STATUS_ABORT_INVALID_FORMAT | STATUS_INVALID_FIELD
  | STATUS_NAMESPACE_INSUFFICIENT_CAPACITY | STATUS_ABORT_INVALID_NAMESPACE | STATUS_NAMESPACE_ID_UNAVAILABLE.

(** The end of a creation, once the host's buffer has been read: a refused
    format, sharing or protection setting sets its status and goes on. *)
Definition create_done (id : Z) (i : Information) (s : t) : res (Status * t) :=
  let status :=
    if nLBAFormat <=? lbaFormatIndex i then STATUS_ABORT_INVALID_FORMAT
    else if negb (namespaceSharingCapabilities i =? 0) then STATUS_INVALID_FIELD
    else if negb (dataProtectionSettings i =? 0) then STATUS_INVALID_FIELD
    else STATUS_SUCCESS 0 in
  match vget lbaSizes (lbaFormatIndex i) with
  | None => Err UB
  | Some n =>
      let i := mkInformation (size i) (capacity i) (utilization i) (sizeInByteL i) (sizeInByteH i) (lbaFormatIndex i)
        (dataProtectionSettings i) (namespaceSharingCapabilities i) n (range i) in
      '(ok, _, s) ← createNamespace id i s;
      Ok (if ok : bool then match status with STATUS_SUCCESS _ => STATUS_SUCCESS id | e => e end
          else STATUS_NAMESPACE_INSUFFICIENT_CAPACITY, s)
  end.

(** A creation whose buffer is read before the next command. *)
Definition create_command (i : Information) (s : t) : res (Status * t) :=
  let id := new_nsid s in
  if id =? NSID_ALL then Ok (STATUS_NAMESPACE_ID_UNAVAILABLE, s) else create_done id i s.

(** The deletion. *)
Definition delete_command (id : Z) (s : t) : res (Status * t) :=
  '(found, s) ← destroyNamespace id s;
  Ok (if found : bool then STATUS_SUCCESS 0 else STATUS_ABORT_INVALID_NAMESPACE, s).
End Subsystem.
