(* ===== verification/SubsystemTheorems.v ===== *)
(** * Namespaces and requests: theorems *)

From Stdlib Require Import Sorted Permutation.
From S2P Require Import Prelude Bitset Float32 Types PmState Cache CacheProof CacheTheorems Icl IclProof Hil Subsystem.

(** ** Namespaces: allocation *)

(** ** Sorting *)

Section SortBy.
  Context {A : Type} (key : A -> Z).

Lemma insert_by_perm x l : insert_by key x l ≡ₚ x :: l.
Proof. induction l as [|y l IH]; simpl; [done|]. destruct (key x <=? key y); [done|]. rewrite IH. apply perm_swap. Qed.

Lemma sort_by_perm l : sort_by key l ≡ₚ l.
Proof. induction l as [|x l IH]; simpl; [done|]. by rewrite insert_by_perm, IH. Qed.

Definition ascending : list A -> Prop := StronglySorted (fun a b => key a <= key b).

Lemma insert_by_sorted x l : ascending l -> ascending (insert_by key x l).
Proof.
  induction l as [|y l IH]; intros Hs; simpl; [by repeat constructor|]. apply StronglySorted_inv in Hs as [Hs Hy].
  destruct (Z.leb_spec (key x) (key y)) as [Hle|Hlt].
  - constructor; [by constructor|]. constructor; [done|]. eapply List.Forall_impl; [|exact Hy]. simpl. lia.
  - constructor; [by apply IH|]. rewrite insert_by_perm. constructor; [lia | done].
Qed.

Lemma sort_by_sorted l : ascending (sort_by key l).
Proof. induction l as [|x l IH]; simpl; [constructor | by apply insert_by_sorted]. Qed.
End SortBy.

(** ** Ranges *)

Definition behind (a b : LPNRange) : Prop := slpn a + nlp a <= slpn b.
Definition disj (a b : LPNRange) : Prop := behind a b \/ behind b a.

Fixpoint apart (l : list LPNRange) : Prop :=
  match l with [] => True | r :: l' => Forall (disj r) l' /\ apart l' end.

Lemma disj_sym a b : disj a b -> disj b a.
Proof. unfold disj. tauto. Qed.

#[export] Instance apart_proper : Proper ((≡ₚ) ==> iff) apart.
Proof.
  assert (forall l l', l ≡ₚ l' -> apart l -> apart l') as Hp; [|intros l l' Hl; split; by apply Hp].
  induction 1 as [| x l l' Hl IH | x y l | l1 l2 l3 _ IH1 _ IH2]; simpl; try done.
  - intros [Hx Ha]. split; [by rewrite <- Hl | by apply IH].
  - intros [[Hyx Hy]%Forall_cons [Hx Ha]]. split_and!; [|done..]. constructor; [by apply disj_sym | done].
  - intros Ha. by apply IH2, IH1.
Qed.

(** Ranges one behind the other within [lo] and [hi]. *)
Fixpoint chain (lo hi : Z) (l : list LPNRange) : Prop :=
  match l with
  | [] => lo <= hi
  | r :: l' => lo <= slpn r /\ 0 < nlp r /\ chain (slpn r + nlp r) hi l'
  end.

Lemma chain_bounds lo hi l : chain lo hi l -> lo <= hi.
Proof. revert lo. induction l as [|r l IH]; intros lo; simpl; [done|]. intros (? & ? & ?%IH). lia. Qed.

Definition within (hi : Z) (r : LPNRange) : Prop := 0 <= slpn r /\ 0 < nlp r /\ slpn r + nlp r <= hi.

Lemma sorted_chain lo hi l : ascending slpn l -> apart l -> Forall (within hi) l -> Forall (fun r => lo <= slpn r) l -> lo <= hi ->
  chain lo hi l.
Proof.
  revert lo. induction l as [|r l IH]; intros lo Hs Ha Hw Hlo Hle; simpl; [done|].
  apply StronglySorted_inv in Hs as [Hs Hr]. destruct Ha as [Hd Ha]. apply Forall_cons in Hw as [(H1 & H2 & H3) Hw].
  apply Forall_cons in Hlo as [Hl Hlo]. split_and!; [done | done |]. apply IH; try done.
  rewrite Forall_forall in *. intros x Hx. specialize (Hr x Hx). specialize (Hd x Hx). specialize (Hw x Hx) as (? & ? & ?).
  unfold disj, behind in Hd. lia.
Qed.

(** The free ranges between and around them. *)
Fixpoint gaps (lo hi : Z) (l : list LPNRange) : list LPNRange :=
  match l with
  | [] => [mkLPNRange lo (hi - lo)]
  | r :: l' => mkLPNRange lo (slpn r - lo) :: gaps (slpn r + nlp r) hi l'
  end.

Lemma invert_gaps pre lo hi l : chain lo hi l -> 0 <= lo -> hi < 2 ^ 64 ->
  foldM invert_step l (pre ++ [mkLPNRange lo (hi - lo)]) = Ok (pre ++ gaps lo hi l).
Proof.
  revert pre lo. induction l as [|r l IH]; intros pre lo Hc Hlo Hhi; [done|]. cbn [foldM gaps].
  destruct Hc as (H1 & H2 & Hc). pose proof (chain_bounds _ _ _ Hc) as Hb. unfold invert_step at 2.
  rewrite last_snoc. cbn [slpn nlp]. rewrite !(u64_small (slpn r + nlp r)), (u64_small (lo + (hi - lo))), (u64_small (slpn r - lo)),
    (u64_small (lo + (hi - lo) - slpn r)), u64_small by lia.
  rewrite (proj2 (Z.leb_le lo _)), (proj2 (Z.leb_le _ (lo + (hi - lo)))) by lia. cbn [andb mbind res_bind].
  rewrite removelast_last. replace (lo + (hi - lo) - slpn r - nlp r) with (hi - (slpn r + nlp r)) by ring.
  rewrite cons_middle, app_assoc. rewrite IH by (done || lia). by rewrite <- app_assoc.
Qed.

Lemma gaps_disjoint lo hi l g : chain lo hi l -> g ∈ gaps lo hi l ->
  lo <= slpn g /\ 0 <= nlp g /\ slpn g + nlp g <= hi /\ Forall (disj g) l.
Proof.
  revert lo. induction l as [|r l IH]; intros lo Hc Hg; simpl in *.
  - apply list_elem_of_singleton in Hg as ->. simpl. split_and!; [lia.. | done].
  - destruct Hc as (H1 & H2 & Hc). pose proof (chain_bounds _ _ _ Hc). apply elem_of_cons in Hg as [->|Hg]; simpl.
    + split_and!; [lia | lia | lia |]. constructor; [left; unfold behind; simpl; lia|].
      clear IH. assert (forall a, slpn r <= a -> chain a hi l -> Forall (disj (mkLPNRange lo (slpn r - lo))) l) as Hgen.
      { clear Hc. induction l as [|r' l IH]; intros a Ha Hc; [done|]. destruct Hc as (H3 & H4 & Hc).
        constructor; [left; unfold behind; simpl; lia | apply (IH (slpn r' + nlp r')); [lia | done]]. }
      apply (Hgen (slpn r + nlp r)); [lia | done].
    + destruct (IH _ Hc Hg) as (H3 & H4 & H5 & H6). split_and!; [lia | lia | lia |]. constructor; [right; unfold behind; lia | done].
Qed.

Lemma first_room_spec n l old : (exists g, g ∈ l /\ n <= nlp g /\ first_fit n l old = mkLPNRange (slpn g) n) \/
  (first_fit n l old = old /\ forall g, g ∈ l -> nlp g < n).
Proof.
  induction l as [|r l IH]; simpl; [right; split; [done | by intros g ?%not_elem_of_nil]|].
  destruct (Z.leb_spec n (nlp r)) as [Hle|Hlt].
  - left. exists r. split_and!; [left | done | done].
  - destruct IH as [(g & Hg & Hn & Hf)|[Hf Hno]]; [left; exists g; split_and!; [by right | done | done] | right; split; [done|]].
    intros g [->|Hg]%elem_of_cons; [done | by apply Hno].
Qed.

(** ** Namespaces *)

Notation ranges s := ((fun ns => range (info ns)) <$> lNamespaces s).
Notation total s := (totalLogicalPages (sub_icl s)).
Notation L s := (logicalPageSize (sub_icl s)).

(** Namespaces lie in the logical pages, apart from each other, in the order of their numbers. *)
Record ns_ok (s : t) : Prop := {
  ns_page : 0 < L s < 2 ^ 32;
  ns_total : 0 <= total s < 2 ^ 64;
  ns_within : Forall (within (total s)) (ranges s);
  ns_apart : apart (ranges s);
  ns_order : StronglySorted (fun a b => nsid a < nsid b) (lNamespaces s);
  ns_ids : Forall (fun ns => NSID_LOWEST <= nsid ns < NSID_ALL) (lNamespaces s);
}.

Lemma free_ranges_ok s : ns_ok s -> exists l, free_ranges s = Ok (gaps 0 (total s) l) /\ chain 0 (total s) l /\ l ≡ₚ ranges s.
Proof.
  intros [_ Ht Hw Ha _ _]. exists (sort_by slpn (ranges s)). unfold free_ranges, merge, invert.
  pose proof (sort_by_perm slpn (ranges s)) as Hp.
  assert (chain 0 (total s) (sort_by slpn (ranges s))) as Hc.
  { apply sorted_chain; [apply sort_by_sorted | by rewrite Hp | by rewrite Hp | rewrite Hp | lia].
    eapply List.Forall_impl; [|exact Hw]. unfold within. lia. }
  split_and!; [|done | done]. pose proof (invert_gaps [] 0 (total s) _ Hc ltac:(lia) ltac:(lia)) as Hi.
  rewrite Z.sub_0_r in Hi. exact Hi.
Qed.

Lemma strictly (l : list Namespace) : ascending nsid l -> NoDup (nsid <$> l) -> StronglySorted (fun a b => nsid a < nsid b) l.
Proof.
  induction l as [|x l IH]; intros Hs Hn; [constructor|]. apply StronglySorted_inv in Hs as [Hs Hx].
  rewrite fmap_cons in Hn. apply NoDup_cons in Hn as [Hnx Hn]. constructor; [by apply IH|].
  rewrite Forall_forall in *. intros y Hy. specialize (Hx y Hy). assert (nsid x <> nsid y); [|lia].
  intros Heq. apply Hnx. rewrite Heq. by apply list_elem_of_fmap_2.
Qed.

Lemma strictly_nodup (l : list Namespace) : StronglySorted (fun a b => nsid a < nsid b) l -> NoDup (nsid <$> l).
Proof.
  induction l as [|x l IH]; intros Hs; [constructor|]. apply StronglySorted_inv in Hs as [Hs Hx].
  rewrite fmap_cons. apply NoDup_cons. split; [|by apply IH]. intros (y & Heq & Hy)%list_elem_of_fmap.
  rewrite Forall_forall in Hx. specialize (Hx y Hy). lia.
Qed.

(** A refusal leaves everything as it was; it comes from a size below one page,
    from the accounting, or when no free range is long enough. *)
Definition refused (n : Z) (s : t) : Prop :=
  n = 0 \/ u64 (total s - allocatedLogicalPages s) < n \/
  forall l, free_ranges s = Ok l -> forall g, g ∈ l -> nlp g < n.

Lemma createNamespace_ok id i s : ns_ok s -> 0 <= lbaFormatIndex i < nLBAFormat ->
  NSID_LOWEST <= id < NSID_ALL -> id ∉ (nsid <$> lNamespaces s) -> nlp (range i) = 0 ->
  exists n r, requestedLogicalPages s i = Ok n /\
    ((createNamespace id i s = Ok (false, set_range r i, s) /\ nlp r = 0 /\ refused n s) \/
     (exists l, let i' := set_sizeInByte (u64 (n * L s)) 0 (set_range r i) in
        let s' := mk l (sub_icl s) (u64 (allocatedLogicalPages s + n)) in
        createNamespace id i s = Ok (true, i', s') /\ nlp r = n /\ l ≡ₚ new_namespace id i' (lNamespaces s) :: lNamespaces s /\ ns_ok s')).
Proof.
  intros Hok Hidx Hid Hnew Hfresh. pose proof Hok as [HL Ht Hw Ha Ho Hi]. unfold nLBAFormat in Hidx.
  destruct (vget_in_range lbaSizes (lbaFormatIndex i)) as [m Hm]; [exact Hidx|].
  exists (u64 (size i / L s * m)). unfold createNamespace, requestedLogicalPages. rewrite (proj2 (Z.eqb_neq _ 0)), Hm by lia.
  set (n := u64 _). assert (0 <= n < 2 ^ 64) as Hn by apply u64_range. cbn [mbind res_bind].
  assert (set_range (range i) i = i) as Hsame by (by destruct i).
  destruct (Z.ltb_spec (u64 (total s - allocatedLogicalPages s)) n) as [Hlt|Hge].
  { exists (range i). rewrite Hsame. split; [done|]. left. split; [done|]. split; [done | right; by left]. }
  destruct (free_ranges_ok s Hok) as (l & Hf & Hc & Hp). rewrite Hf. cbn [mbind res_bind].
  destruct (first_room_spec n (gaps 0 (total s) l) (range i)) as [(g & Hg & Hng & Hff)|[Hff Hno]]; rewrite Hff.
  2:{ exists (range i). rewrite Hsame, Hfresh. split; [done|]. left. split; [done|]. split; [done|]. right. right. intros l' Hl'. rewrite Hf in Hl'. by injection Hl' as <-. }
  exists (mkLPNRange (slpn g) n). split; [done|]. cbn [range set_range nlp].
  destruct (Z.eqb_spec n 0) as [Hz|Hnz]; [left; split; [done | split; [done | by left]]|].
  right. eexists. cbv zeta. split; [reflexivity|]. split; [done|].
  set (x := new_namespace id _ _). set (l' := sort_by nsid _).
  assert (l' ≡ₚ x :: lNamespaces s) as Hp' by (unfold l'; by rewrite sort_by_perm, Permutation_app_comm).
  split; [done|]. destruct (gaps_disjoint _ _ _ _ Hc Hg) as (G1 & G2 & G3 & G4).
  assert ((fun ns => range (info ns)) <$> l' ≡ₚ mkLPNRange (slpn g) n :: ranges s) as Hpr by (rewrite Hp'; done).
  split; cbn [sub_icl lNamespaces]; [done | done | | | |].
  - rewrite Hpr. constructor; [unfold within; simpl; lia | done].
  - rewrite Hpr. split; [|done]. rewrite <- Hp. eapply List.Forall_impl; [|exact G4]. unfold disj, behind. simpl. lia.
  - apply strictly; [apply sort_by_sorted|]. rewrite Hp'. rewrite fmap_cons. apply NoDup_cons. split; [done | by apply strictly_nodup].
  - rewrite Hp'. by constructor.
Qed.

Lemma remove_first_spec id (l : list Namespace) :
  match remove_first id l with
  | Some (x, l') => nsid x = id /\ l ≡ₚ x :: l' /\ sublist l' l
  | None => id ∉ (nsid <$> l)
  end.
Proof.
  induction l as [|y l IH]; simpl; [apply not_elem_of_nil|]. destruct (Z.eqb_spec (nsid y) id) as [He|Hne].
  - split_and!; [done | done | by apply sublist_cons].
  - destruct (remove_first id l) as [[x l']|]; simpl.
    + destruct IH as (Hx & Hp & Hs). split_and!; [done | rewrite Hp; apply perm_swap | by apply sublist_skip].
    + rewrite not_elem_of_cons. auto.
Qed.

Lemma sublist_keeps_order {A} (R : A -> A -> Prop) l l' : sublist l' l -> StronglySorted R l -> StronglySorted R l'.
Proof.
  induction 1 as [|x l1 l2 Hs IH|x l1 l2 Hs IH]; intros Hl; [done | |]; apply StronglySorted_inv in Hl as [Hl Hx].
  - constructor; [by apply IH|]. rewrite Forall_forall in *. intros y Hy. by eapply Hx, elem_of_sublist.
  - by apply IH.
Qed.

Lemma destroyNamespace_ok id s : ns_ok s ->
  if bool_decide (id ∈ (nsid <$> lNamespaces s))
  then exists x l a, destroyNamespace id s = Ok (true, mk l (sub_icl s) a) /\ nsid x = id /\ lNamespaces s ≡ₚ x :: l /\
    ns_ok (mk l (sub_icl s) a)
  else destroyNamespace id s = Ok (false, s).
Proof.
  intros [HL Ht Hw Ha Ho Hi]. unfold destroyNamespace. pose proof (remove_first_spec id (lNamespaces s)) as Hr.
  destruct (remove_first id (lNamespaces s)) as [[x l]|]; [|by rewrite bool_decide_false].
  destruct Hr as (Hx & Hp & Hs). rewrite bool_decide_true by (rewrite Hp, fmap_cons, Hx; left).
  rewrite (proj2 (Z.eqb_neq _ 0)) by lia. eexists x, l, _. split; [reflexivity|]. split_and!; [done | done |].
  rewrite Hp in Hw, Ha, Hi. rewrite fmap_cons in Hw, Ha. apply Forall_cons in Hw as [_ Hw]. destruct Ha as [_ Ha].
  apply Forall_cons in Hi as [_ Hi]. split; try done. by eapply sublist_keeps_order.
Qed.

(** The number of a new namespace is not in use. *)
Lemma next_nsid_spec (l : list Namespace) id : StronglySorted (fun a b => nsid a < nsid b) l ->
  Forall (fun ns => id <= nsid ns < NSID_ALL) l -> 0 <= id <= NSID_ALL ->
  id <= next_nsid l id <= NSID_ALL /\ next_nsid l id ∉ (nsid <$> l).
Proof.
  revert id. induction l as [|x l IH]; intros id Hs Hf Hid; simpl; [split; [lia | apply not_elem_of_nil]|].
  apply StronglySorted_inv in Hs as [Hs Hx]. apply Forall_cons in Hf as [[H1 H2] Hf]. rewrite Forall_forall in Hx.
  destruct (Z.eqb_spec (nsid x) id) as [He|Hne].
  - unfold NSID_ALL in *. rewrite u32_small by lia. destruct (IH (id + 1)) as [Hb Hni]; [done | | lia |].
    + apply Forall_forall. intros y Hy. rewrite Forall_forall in Hf. specialize (Hx y Hy). specialize (Hf y Hy). lia.
    + split; [lia|]. rewrite not_elem_of_cons. split; [lia | done].
  - split; [lia|]. rewrite not_elem_of_cons. split; [done|]. intros (y & Heq & Hy)%list_elem_of_fmap. specialize (Hx y Hy). lia.
Qed.

(** ** Sequences of namespace commands *)

Inductive NsOp : Type := NsCreate (i : Information) | NsDelete (id : Z).

Definition ns_step (op : NsOp) (s : t) : res t :=
  match op with
  | NsCreate i => '(_, s) ← create_command i s; Ok s
  | NsDelete id => '(_, s) ← delete_command id s; Ok s
  end.

(** A known format, and a range not yet given. *)
Definition ns_fits (op : NsOp) : Prop :=
  match op with NsCreate i => 0 <= lbaFormatIndex i < nLBAFormat /\ nlp (range i) = 0 | NsDelete _ => True end.

Lemma create_done_ok id i s : ns_ok s -> ns_fits (NsCreate i) -> NSID_LOWEST <= id < NSID_ALL -> id ∉ (nsid <$> lNamespaces s) ->
  exists st s', create_done id i s = Ok (st, s') /\ ns_ok s' /\ sub_icl s' = sub_icl s.
Proof.
  intros Hok [Hidx Hr] Hid Hnew. unfold create_done.
  destruct (vget_in_range lbaSizes (lbaFormatIndex i)) as [n Hn]; [exact Hidx|]. rewrite Hn. set (i' := mkInformation _ _ _ _ _ _ _ _ _ _).
  destruct (createNamespace_ok id i' s) as (m & r & _ & [(Hc & _)|(l & Hc & _ & _ & Hok')]); [done.. | |]; rewrite Hc; simpl; eauto.
Qed.

Lemma ns_step_ok op s : ns_ok s -> ns_fits op -> exists s', ns_step op s = Ok s' /\ ns_ok s' /\ sub_icl s' = sub_icl s.
Proof.
  intros Hok Hf. destruct op as [i|id]; simpl.
  - unfold create_command. destruct (next_nsid_spec (lNamespaces s) NSID_LOWEST) as [Hb Hni]; [apply Hok | apply Hok | done |].
    fold (new_nsid s) in *. destruct (Z.eqb_spec (new_nsid s) NSID_ALL) as [_|Hne]; [by exists s|].
    destruct (create_done_ok (new_nsid s) i s) as (st & s' & Hd & Hok'); [done | done | lia | done |]. rewrite Hd. simpl. by exists s'.
  - unfold delete_command. pose proof (destroyNamespace_ok id s Hok) as Hd. case_bool_decide.
    + destruct Hd as (x & l & a & Hd & _ & _ & Hok'). rewrite Hd. simpl. by eexists.
    + rewrite Hd. simpl. by exists s.
Qed.

Definition ns_start (q : IclParam) : t := mk [] q 0.

Lemma ns_run ops s : ns_ok s -> Forall ns_fits ops -> exists s', foldM ns_step ops s = Ok s' /\ ns_ok s' /\ sub_icl s' = sub_icl s.
Proof.
  revert s. induction ops as [|op ops IH]; intros s Hok Hf; [by exists s|]. apply Forall_cons in Hf as [Hop Hf].
  destruct (ns_step_ok op s Hok Hop) as (s1 & Hs1 & Hok1 & Hq). destruct (IH s1 Hok1 Hf) as (s2 & Hs2 & Hok2 & Hq2).
  exists s2. simpl. rewrite Hs1. simpl. split; [done|]. split; [done | congruence].
Qed.

(** ** Requests *)

(** The bytes of blocks [slba], ... of a namespace within the logical pages. *)
Definition block_byte (q : IclParam) (ns : Namespace) (slba : Z) : Z :=
  slpn (range (info ns)) * logicalPageSize q + slba * lbaSize (info ns).

(** Blocks and pages are multiples of each other, and no byte up to the end of the page after the blocks is
    beyond 63 bits.  The blocks need not lie in the namespace: the program does not check that they do. *)
Record blocks_fit (q : IclParam) (ns : Namespace) (slba nlblk : Z) : Prop := {
  bi_page : 0 < logicalPageSize q < 2 ^ 32;
  bi_size : 0 < lbaSize (info ns) < 2 ^ 32;
  bi_multiple : (lbaSize (info ns) | logicalPageSize q) \/ (logicalPageSize q | lbaSize (info ns));
  bi_blocks : 0 <= slba /\ 0 < nlblk;
  bi_range : 0 <= slpn (range (info ns));
  bi_end : block_byte q ns (slba + nlblk) + logicalPageSize q <= 2 ^ 63;
}.
(** The pages from the start of the namespace to the end of a number of blocks. *)
Definition pages_to (q : IclParam) (ns : Namespace) (n : Z) : Z :=
  (n * lbaSize (info ns) + logicalPageSize q - 1) / logicalPageSize q.

Lemma pages_to_bounds q ns n : 0 < logicalPageSize q ->
  n * lbaSize (info ns) <= pages_to q ns n * logicalPageSize q < n * lbaSize (info ns) + logicalPageSize q.
Proof.
  intros HL. unfold pages_to. set (x := n * lbaSize (info ns)). set (L := logicalPageSize q) in *.
  pose proof (Z.div_mod (x + L - 1) L ltac:(lia)). pose proof (Z.mod_pos_bound (x + L - 1) L HL). nia.
Qed.

(** Blocks of [b] bytes in pages of [k] blocks. *)
Lemma pages_of_blocks k b slba nlblk m : 0 < k -> 0 < b -> 0 <= slba -> 0 < nlblk -> slba + nlblk <= m * k ->
  let n := (nlblk + slba mod k + k - 1) / k in
  (slba mod k + nlblk) * b <= n * (k * b) < (slba mod k + nlblk) * b + k * b /\ 0 < n /\ slba / k + n <= m.
Proof.
  intros Hk Hb Hs Hn Hm n. pose proof (Z.div_mod slba k ltac:(lia)) as Hd. pose proof (Z.mod_pos_bound slba k Hk) as Ho.
  set (off := slba mod k) in *. set (d := slba / k) in *.
  pose proof (Z.div_mod (nlblk + off + k - 1) k ltac:(lia)) as Hq. pose proof (Z.mod_pos_bound (nlblk + off + k - 1) k Hk) as Hr.
  fold n in Hq. assert (off + nlblk <= n * k) as N1 by lia. assert (n * k < off + nlblk + k) as N2 by lia.
  split_and!; nia.
Qed.

(** The sizes that keep the products below the word size. *)
Lemma product_bounds L b m a x : 0 < L -> 0 < b -> 0 <= x -> x * b <= m * L -> 0 <= a -> (a + m) * L < 2 ^ 63 ->
  0 <= m /\ m * L < 2 ^ 63 /\ x * b < 2 ^ 63 /\ x < 2 ^ 63 /\ m < 2 ^ 63 /\ a < 2 ^ 63.
Proof. intros HL Hb Hx Hle Ha Hlt. assert (0 <= m) by nia. assert (m * L < 2 ^ 63) by nia. split_and!; nia. Qed.

Lemma convertUnit_ok q ns slba nlblk r : blocks_fit q ns slba nlblk ->
  exists r', convertUnit q (info ns) slba nlblk r = Ok r' /\ page_request (logicalPageSize q) (icl_of_hil r') /\
    first_byte (logicalPageSize q) (icl_of_hil r') = block_byte q ns slba /\
    hil_length r' = nlblk * lbaSize (info ns) /\
    slpn (range (info ns)) <= slpn (hil_range r') /\
    slpn (hil_range r') + nlp (hil_range r') <= slpn (range (info ns)) + pages_to q ns (slba + nlblk).
Proof.
  intros [HL Hb Hm [Hs Hn] Hr Ht]. unfold convertUnit. unfold block_byte in Ht |- *.
  destruct (pages_to_bounds q ns (slba + nlblk) (proj1 HL)) as [He Hlt].
  set (L := logicalPageSize q) in *. set (b := lbaSize (info ns)) in *. set (a := slpn (range (info ns))) in *. set (m := pages_to q ns (slba + nlblk)) in *.
  assert ((a + m) * L < 2 ^ 63) as Ham by lia. clear Ht Hlt. rename Ham into Ht.
  destruct (product_bounds L b m a (slba + nlblk)) as (B1 & B2 & B3 & B4 & B5 & B6); [lia.. | exact He | done | done |].
  rewrite (proj2 (Z.eqb_neq b 0)) by lia. assert (0 <= slba * b) as Hsb by nia. assert (0 < nlblk * b) as Hnb by nia.
  rewrite Z.mul_add_distr_r in B3.
  destruct (Z.eqb_spec (L / b) 0) as [Hz|Hnz].
  - assert (L < b) as Hlt by (apply Z.div_small_iff in Hz; lia). rewrite (proj2 (Z.eqb_neq L 0)) by lia.
    destruct Hm as [Hd|[k Hk]]; [apply Z.divide_pos_le in Hd; lia|].
    assert (b / L = k) as -> by (rewrite Hk; apply Z.div_mul; lia). clear Hz Hlt. rewrite Hk in *.
    assert (0 < k) by nia. assert ((slba + nlblk) * k <= m) as Hk2 by nia. rewrite Z.mul_add_distr_r in Hk2.
    assert (0 <= slba * k) by nia. assert (0 < nlblk * k) by nia.
    rewrite (u64_small (slba * k)), (u64_small (nlblk * k)), (u64_small (nlblk * (k * L))), u64_small by lia.
    eexists. split; [reflexivity|]. unfold first_byte. cbn [hil_length hil_range hil_offset icl_of_hil icl_offset icl_length icl_range slpn nlp].
    rewrite !Z.mul_assoc in *. assert ((slba * k + a + nlblk * k) * L <= (a + m) * L) by (apply Z.mul_le_mono_nonneg_r; lia).
    split_and!; [split; cbn [icl_of_hil icl_offset icl_length icl_range hil_offset hil_length hil_range slpn nlp]; lia | lia..].
  - assert (exists k, L = k * b) as [k Hk].
    { destruct Hm as [[k Hk]|Hd]; [by exists k|]. exists 1. apply Z.divide_pos_le in Hd; [|lia].
      destruct (Z.eq_dec b L); [lia|]. destruct Hnz. apply Z.div_small. lia. }
    assert (L / b = k) as -> by (rewrite Hk; apply Z.div_mul; lia). rewrite Hk in *. assert (0 < k) as Hk0 by nia. clear Hnz Hm.
    assert (slba + nlblk <= m * k) as Hin by nia. assert (k < 2 ^ 32) by nia.
    destruct (pages_of_blocks k b slba nlblk m) as (P1 & P2 & P3); [done | lia | done | done | done |].
    pose proof (Z.mod_pos_bound slba k Hk0) as Ho. pose proof (Z.div_pos slba k Hs Hk0) as Hdp.
    pose proof (Z.div_mod slba k ltac:(lia)) as Hdm. set (off := slba mod k) in *. set (d := slba / k) in *.
    assert (off * b < k * b) as Hob by (apply Z.mul_lt_mono_pos_r; lia). assert (0 <= off * b) by nia.
    rewrite (u64_small (d + a)), (u64_small (nlblk * b)), (u64_small (off * b)), (u64_small (nlblk + off)),
      (u64_small (nlblk + off + k)), (u64_small (nlblk + off + k - 1)) by lia.
    eexists. split; [reflexivity|]. unfold first_byte. cbn [hil_length hil_range hil_offset icl_of_hil icl_offset icl_length icl_range slpn nlp].
    set (n := (nlblk + off + k - 1) / k) in *. rewrite Z.mul_add_distr_r in P1.
    assert ((d + a + n) * (k * b) <= (a + m) * (k * b)) by (apply Z.mul_le_mono_nonneg_r; lia).
    split_and!; [split; cbn [icl_of_hil icl_offset icl_length icl_range hil_offset hil_length hil_range slpn nlp]; lia | | lia | lia | lia].
    transitivity (a * (k * b) + (k * d + off) * b); [ring | by rewrite <- Hdm].
Qed.

(** ** The theorems *)

(** A piece lies in the pages of the namespace. *)
Definition in_pages (ns : Namespace) (r : IclRequest) : Prop :=
  slpn (range (info ns)) <= slpn (icl_range r) < slpn (range (info ns)) + nlp (range (info ns)).

Lemma pieces_in L ns r : page_request L r -> slpn (range (info ns)) <= slpn (icl_range r) ->
  (Forall (in_pages ns) (pieces L r) <-> slpn (icl_range r) + nlp (icl_range r) <= slpn (range (info ns)) + nlp (range (info ns))).
Proof.
  intros HP Hlo. rewrite Forall_forall. split.
  - intros Hall. assert (0 < nlp (icl_range r)) as Hpos by (destruct HP; nia).
    specialize (Hall (piece L r (nlp (icl_range r) - 1))). unfold in_pages, piece in Hall. simpl in Hall.
    enough (slpn (icl_range r) + (nlp (icl_range r) - 1) < slpn (range (info ns)) + nlp (range (info ns))) by lia.
    apply Hall. apply list_elem_of_fmap. exists (nlp (icl_range r) - 1). split; [done|]. apply elem_of_seqZ. lia.
  - intros Hhi p (i & -> & Hi)%list_elem_of_fmap. apply elem_of_seqZ in Hi. unfold in_pages, piece. simpl. lia.
Qed.

Lemma in_size q ns slba nlblk req : page_request (logicalPageSize q) req ->
  block_byte q ns (slba + nlblk) = end_byte (logicalPageSize q) req ->
  slpn (icl_range req) + nlp (icl_range req) <= slpn (range (info ns)) + pages_to q ns (slba + nlblk) ->
  slpn (icl_range req) + nlp (icl_range req) <= slpn (range (info ns)) + nlp (range (info ns)) <->
  (slba + nlblk) * lbaSize (info ns) <= nlp (range (info ns)) * logicalPageSize q.
Proof.
  intros HP Hend Hle. assert (0 < logicalPageSize q) as HL by (destruct HP; lia). pose proof (pages_to_bounds q ns (slba + nlblk) HL) as [Hp1 Hp2]. split.
  - intros Hin. unfold block_byte, end_byte, first_byte in Hend. destruct HP. nia.
  - intros Hin. assert (pages_to q ns (slba + nlblk) <= nlp (range (info ns))) by nia. lia.
Qed.


(** C31: any sequence of creations in a known LBA format and of deletions of
    namespaces runs without the allocator's panic; the namespaces that exist lie in
    the logical pages, no two share a page, and their numbers ascend.  A creation in
    an unknown format is not refused: it reads outside the table of formats. *)
Theorem namespaces_apart q ops : 0 < logicalPageSize q < 2 ^ 32 -> 0 <= totalLogicalPages q < 2 ^ 64 -> Forall ns_fits ops ->
  exists s, foldM ns_step ops (ns_start q) = Ok s /\ ns_ok s /\ sub_icl s = q.
Proof. intros HL Ht Hf. apply ns_run; [|done]. split; try done; constructor. Qed.

(** The pages a namespace gets fall short of its size by the rest of the
    size modulo the page size, in blocks.  So two namespaces of one device can
    share a page: the last blocks of the first are the first of the second. *)
Theorem namespaces_can_share_blocks :
  (forall s i n b, requestedLogicalPages s i = Ok n -> vget lbaSizes (lbaFormatIndex i) = Some b -> 0 < logicalPageSize (sub_icl s) ->
    0 <= size i / logicalPageSize (sub_icl s) * b < 2 ^ 64 ->
    n * logicalPageSize (sub_icl s) + size i mod logicalPageSize (sub_icl s) * b = size i * b) /\
  exists q ops s ns1 ns2 r1 r2, foldM ns_step ops (ns_start q) = Ok s /\ ns1 ∈ lNamespaces s /\ ns2 ∈ lNamespaces s /\
    nsid ns1 <> nsid ns2 /\ 4096 < size (info ns1) /\ command s ns1 4096 1 0 = Ok r1 /\ command s ns2 0 1 0 = Ok r2 /\
    first_byte (logicalPageSize q) (icl_of_hil r1) = first_byte (logicalPageSize q) (icl_of_hil r2).
Proof.
  split.
  - intros s i n b Hr Hb HL Hbound. unfold requestedLogicalPages in Hr. rewrite (proj2 (Z.eqb_neq _ 0)), Hb in Hr by lia.
    injection Hr as <-. rewrite u64_small by lia. pose proof (Z.div_mod (size i) (logicalPageSize (sub_icl s)) ltac:(lia)) as Hd.
    transitivity ((logicalPageSize (sub_icl s) * (size i / logicalPageSize (sub_icl s)) + size i mod logicalPageSize (sub_icl s)) * b); [ring|].
    by rewrite <- Hd.
  - set (i := fun n => mkInformation n n 0 0 0 0 0 0 0 (mkLPNRange 0 0)).
    exists (mkIclParam 2048 4096), [NsCreate (i 4104); NsCreate (i 4096)]. eexists. eexists (mkNamespace 1 _ false 0 1), (mkNamespace 2 _ false 0 2), _, _.
    split; [vm_compute; reflexivity|]. split; [left|]. split; [right; left|]. split_and!; try done; vm_compute; reflexivity.
Qed.

(** ** Witnesses *)

Definition small_information (n : Z) : Information := mkInformation n n 0 0 0 1 0 0 1024 (mkLPNRange 0 0).
Definition small_subsystem : IclParam := mkIclParam 100 512.

Lemma namespaces_apart_witness : exists s,
  foldM ns_step [NsCreate (small_information 512); NsCreate (small_information 512); NsDelete 1] (ns_start small_subsystem) = Ok s /\ ns_ok s.
Proof.
  destruct (namespaces_apart small_subsystem [NsCreate (small_information 512); NsCreate (small_information 512); NsDelete 1])
    as (s & Hs & Hok & _); [done | done | repeat constructor; done | by exists s].
Defined.

(** Blocks of 512 bytes in pages of 1024, on the cache of the example. *)
Definition small_namespace : Namespace := mkNamespace 1 (mkInformation 32 32 0 0 0 0 0 0 512 (mkLPNRange 4 16)) true 0 1.
Definition small_device_pages : t := mk [small_namespace] (mkIclParam 64 1024) 16.

