(* ===== verification/HilTheorems.v ===== *)
(** * The host interface layer: theorem and example *)

From Stdlib Require Import Permutation.
From S2P Require Import Prelude Bitset Float32 Types PmState Icl Hil Subsystem SubsystemTheorems.

(** ** The host interface layer: every request completes once, when it ends *)

(** The top of the queue ends first. *)
Definition heap (l : list HilRequest) : Prop :=
  match l with [] => True | x :: l' => Forall (fun y => hil_finishedAt x <= hil_finishedAt y) l' end.

Class PriorityQueueLaws `{PriorityQueue} : Prop := {
  pq_push_perm x l : pq_push x l ≡ₚ x :: l;
  pq_push_heap x l : heap l -> heap (pq_push x l);
  pq_pop_perm x l : pq_pop (x :: l) ≡ₚ l;
  pq_pop_heap l : heap l -> heap (pq_pop l);
}.

Section Invariant.
  Context {C : Type} `{AbstractCache C} `{PriorityQueueLaws} (q : IclParam).
Notation S := (Hil.t C).
  Implicit Types s : S.

(** Every operation of the cache layer takes time, up to the horizon [T]. *)
Context (T : Z) (Htime : forall op r tick c range tick' c', tick <= T -> serveIO q op r tick c = Ok (range, tick', c') -> tick < tick').

(** The event is pending for the request that ends first; without one the last
    tick it was scheduled for is over. *)
Definition event_for s : Prop :=
  match completionQueue s with
  | [] => completionEvent s = None /\ lastScheduled s <= now s
  | top :: _ => completionEvent s = Some (hil_finishedAt top) /\ lastScheduled s = hil_finishedAt top
  end.

Record hil_ok s : Prop := {
  hk_heap : heap (completionQueue s);
  hk_ahead : Forall (fun r => now s <= hil_finishedAt r) (completionQueue s);
  hk_event : event_for s;
  hk_called : Forall (fun c => c.1 = hil_finishedAt c.2) (called s);
}.

(** The completion functions in the layer. *)
Definition tokens s : list Z :=
  hil_function <$> ((snd <$> jobs s) ++ completionQueue s ++ (snd <$> called s)).

Lemma heap_head x l y : heap (x :: l) -> y ∈ x :: l -> hil_finishedAt x <= hil_finishedAt y.
Proof. intros Hh [->|Hy]%elem_of_cons; [done|]. simpl in Hh. rewrite Forall_forall in Hh. auto. Qed.

(** [updateCompletion] restores the event after a change of the queue, if the
    last scheduled tick is pending, over, or not the new top's. *)
Lemma updateCompletion_ok s : heap (completionQueue s) -> Forall (fun r => now s <= hil_finishedAt r) (completionQueue s) ->
  Forall (fun c => c.1 = hil_finishedAt c.2) (called s) ->
  (completionQueue s = [] -> completionEvent s = None /\ lastScheduled s <= now s) ->
  (forall top l, completionQueue s = top :: l -> lastScheduled s = hil_finishedAt top -> completionEvent s = Some (hil_finishedAt top)) ->
  hil_ok (updateCompletion s).
Proof.
  intros Hh Ha Hc Hnil Htop. unfold updateCompletion. destruct (completionQueue s) as [|top l] eqn:Hq.
  - split; rewrite ?Hq; try done. unfold event_for. rewrite Hq. by apply Hnil.
  - destruct (Z.eqb_spec (lastScheduled s) (hil_finishedAt top)) as [He|Hne].
    + split; rewrite ?Hq; try done. unfold event_for. rewrite Hq. split; [by eapply Htop | done].
    + split; simpl; rewrite ?Hq; try done. unfold event_for. simpl. rewrite Hq. split; [|done].
      apply Forall_cons in Ha as [Ha _]. by rewrite Z.max_l.
Qed.

Lemma updateCompletion_tokens s : tokens (updateCompletion s) = tokens s.
Proof. unfold updateCompletion. destruct (completionQueue s) as [|top l]; [done|]. by destruct (_ =? _). Qed.

(** ** Jobs *)

Lemma push_ok r s : hil_ok s -> now s < hil_finishedAt r ->
  hil_ok (updateCompletion (set_queue (pq_push r (completionQueue s)) s)).
Proof.
  intros [Hh Ha He Hc] Hr. apply updateCompletion_ok; simpl; [by apply pq_push_heap | | done | |].
  - rewrite pq_push_perm. constructor; [lia | done].
  - intros Hn. pose proof (pq_push_perm r (completionQueue s)) as Hp. rewrite Hn in Hp. by apply Permutation_nil_cons in Hp.
  - intros top l Hq Hl. unfold event_for in He. destruct (completionQueue s) as [|x k] eqn:Hk.
    + pose proof (pq_push_perm r []) as Hp. rewrite Hq in Hp. apply Permutation_singleton_r in Hp. injection Hp as -> ->. lia.
    + destruct He as [He Hx]. congruence.
Qed.

(** Nothing changes but the cache layer, the counter and the statistics. *)
Definition quiet s s1 : Prop := completionQueue s1 = completionQueue s /\ lastScheduled s1 = lastScheduled s /\ now s1 = now s /\
  completionEvent s1 = completionEvent s /\ jobs s1 = jobs s /\ called s1 = called s.

(** The end of a job: the request is queued with its tick. *)
Lemma job_end s s1 r tick : hil_ok s -> now s < tick -> quiet s s1 ->
  let s2 := updateCompletion (set_queue (pq_push (with_finishedAt tick r) (completionQueue s1)) s1) in
  hil_ok s2 /\ tokens s2 ≡ₚ hil_function r :: tokens s.
Proof.
  intros [Hh Ha He Hc] Ht (Q1 & Q2 & Q3 & Q4 & Q5 & Q6) s2. split.
  - apply push_ok; [split; unfold event_for; rewrite ?Q1, ?Q2, ?Q3, ?Q4, ?Q6; done | by rewrite Q3].
  - unfold s2. rewrite updateCompletion_tokens. unfold tokens. simpl. rewrite pq_push_perm, Q1, Q5, Q6.
    rewrite !fmap_app. simpl. by rewrite <- Permutation_middle.
Qed.

Lemma doIO_ok op r s : hil_ok s -> now s <= T -> wpe anyerr (doIO q op r (now s)) (fun _ s' => hil_ok s' /\ tokens s' ≡ₚ hil_function r :: tokens s) s.
Proof.
  intros Hok HT. unfold doIO. wp_step. wp_step. cbv zeta. set (counts := match op with HilFormat _ => false | _ => true end).
  set (r' := if counts then with_reqID (u64 (reqCount s + 1)) r else r).
  assert (hil_function r' = hil_function r) as Hf by (unfold r'; by destruct counts). rewrite <- Hf.
  assert (forall s0, quiet s s0 -> wpe anyerr ('(range, tick) ← zoom pICL set_icl (serveIO q op r' (now s));
    modify (fun x => match op with
      | HilRead => set_stat (updateBusyTime 2 (now s) tick (updateBusyTime 0 (now s) tick (countIO 0 (hil_length r') (stat x)))) x
      | HilWrite => set_stat (updateBusyTime 2 (now s) tick (updateBusyTime 1 (now s) tick (countIO 1 (hil_length r') (stat x)))) x
      | _ => x end);;
    modify (fun s => updateCompletion (set_queue (pq_push (with_finishedAt tick (with_range range r')) (completionQueue s)) s)))
    (fun _ s' => hil_ok s' /\ tokens s' ≡ₚ hil_function r' :: tokens s) s0) as Hrest.
  { intros s0 Hq. wp_step. apply wpe_zoom. apply wpe_anyerr. intros [range tick] c' Hrun. wp_step. wp_step. wp_step.
    change (hil_function r') with (hil_function (with_range range r')). apply job_end; [done | by eapply Htime | by destruct op]. }
  wp_step. apply wpe_when; intros _; by apply Hrest.
Qed.

(** Taking a job out. *)
Lemma take_job s l op r l' : jobs s = l ++ (op, r) :: l' -> hil_ok s ->
  hil_ok (set_jobs (l ++ l') s) /\ hil_function r :: tokens (set_jobs (l ++ l') s) ≡ₚ tokens s.
Proof.
  intros Hj [Hh Ha He Hc]. split; [done|]. unfold tokens. simpl. rewrite Hj, !fmap_app, fmap_cons. simpl.
  by rewrite <- !app_assoc, Permutation_middle.
Qed.

(** ** The completion event *)

Lemma complete_ok n tick s : (length (completionQueue s) <= n)%nat -> now s = tick -> heap (completionQueue s) ->
  Forall (fun r => now s <= hil_finishedAt r) (completionQueue s) -> Forall (fun c => c.1 = hil_finishedAt c.2) (called s) ->
  let s' := complete n tick s in
  heap (completionQueue s') /\ Forall (fun r => tick < hil_finishedAt r) (completionQueue s') /\
  Forall (fun c => c.1 = hil_finishedAt c.2) (called s') /\ tokens s' ≡ₚ tokens s /\
  now s' = now s /\ lastScheduled s' = lastScheduled s /\ completionEvent s' = completionEvent s /\
  exists k, called s' = called s ++ (pair tick <$> k) /\ completionQueue s ≡ₚ k ++ completionQueue s'.
Proof.
  revert s. induction n as [|n IH]; intros s Hn Hnow Hh Ha Hc; simpl.
  - assert (completionQueue s = []) as Hq by (apply nil_length_inv; lia). rewrite Hq in *. split_and!; try done.
    exists []. by rewrite app_nil_r.
  - destruct (completionQueue s) as [|r l] eqn:Hq.
    + rewrite Hq. split_and!; try done. exists []. by rewrite app_nil_r.
    + destruct (Z.leb_spec (hil_finishedAt r) tick) as [Hle|Hgt].
      * apply Forall_cons in Ha as [Hr Ha]. pose proof (pq_pop_perm r l) as Hp.
        set (s1 := set_queue (pq_pop (r :: l)) (add_call r s)).
        destruct (IH s1) as (I1 & I2 & I3 & I4 & I5 & I6 & I7 & k & I8 & I9); unfold s1; simpl.
        -- rewrite Hp. simpl in Hn. lia.
        -- done.
        -- by apply pq_pop_heap.
        -- by rewrite Hp.
        -- apply Forall_app. split; [done|]. constructor; [simpl; lia | done].
        -- fold s1. split_and!; try done.
           ++ rewrite I4. unfold s1, tokens. simpl. rewrite Hq, Hp, !fmap_app, !fmap_cons. simpl.
              apply Permutation_app_head. rewrite app_assoc. by rewrite <- Permutation_cons_append.
           ++ exists (r :: k). rewrite I8. unfold s1. simpl. rewrite <- app_assoc, Hnow. split; [done|].
              apply perm_skip. exact (Permutation_trans (Permutation_sym Hp) I9).
      * rewrite Hq. split_and!; try done; [| exists []; by rewrite app_nil_r]. apply Forall_forall. intros y Hy.
        pose proof (heap_head r l y Hh Hy). lia.
Qed.

Lemma completion_ok s tick : hil_ok s -> completionEvent s = Some tick ->
  let s' := completion (event_due tick s) in
  hil_ok s' /\ tokens s' ≡ₚ tokens s /\ now s' = tick /\
  Forall (fun r => tick < hil_finishedAt r) (completionQueue s') /\
  exists k, called s' = called s ++ (pair tick <$> k) /\ completionQueue s ≡ₚ k ++ completionQueue s'.
Proof.
  intros [Hh Ha He Hc] Hev. unfold completion. set (s0 := event_due tick s).
  assert (exists top l, completionQueue s = top :: l /\ tick = hil_finishedAt top /\ lastScheduled s = tick) as (top & l & Hq & Ht & Hl).
  { unfold event_for in He. destruct (completionQueue s) as [|top l]; [destruct He; congruence|]. exists top, l. destruct He. split_and!; congruence. }
  assert (Forall (fun r => tick <= hil_finishedAt r) (completionQueue s)) as Ha'.
  { rewrite Hq in *. apply Forall_forall. intros y Hy. rewrite Ht. by eapply heap_head. }
  destruct (complete_ok (length (completionQueue s0)) tick s0) as (I1 & I2 & I3 & I4 & I5 & I6 & I7 & k & I8 & I9); [done.. |].
  change (now s0) with tick in *. set (s1 := complete _ tick s0) in *.
  assert (forall s2, s2 = updateCompletion s1 -> completionQueue s2 = completionQueue s1 /\ called s2 = called s1 /\ now s2 = now s1) as Hsame.
  { intros s2 ->. unfold updateCompletion. destruct (completionQueue s1) eqn:Hq1; [done|]. destruct (_ =? _); [done|]. by simpl. }
  destruct (Hsame _ eq_refl) as (Hsq & Hsc & Hsn). split_and!.
  - apply updateCompletion_ok; [done | | done | |].
    + rewrite I5. eapply List.Forall_impl; [|exact I2]. simpl. lia.
    + intros _. rewrite I5, I6, I7. simpl. split; [done | lia].
    + intros top' l' Hq' Hlast. rewrite I6 in Hlast. simpl in Hlast. rewrite Hq' in I2. apply Forall_cons in I2 as [I2 _]. lia.
  - by rewrite updateCompletion_tokens, I4.
  - by rewrite Hsn.
  - by rewrite Hsq.
  - exists k. by rewrite Hsq, Hsc.
Qed.

Lemma hil_step_time s s' : hil_step q s s' -> now s <= now s'.
Proof.
  intros Hstep. destruct Hstep as [s s' l op r l' Hj Hrun | s tick Hev Hle | s tick Hle Hev].
  - enough (wpe anyerr (doIO q op r (now s)) (fun _ (x : S) => now x = now s) (set_jobs (l ++ l') s)) as Hw.
    { rewrite wpe_anyerr in Hw. by rewrite (Hw tt s' Hrun). }
    unfold doIO. wp_step. wp_step. cbv zeta.
    assert (forall y : S, now (updateCompletion y) = now y) as Hu.
    { intros y. unfold updateCompletion. destruct (completionQueue y); [done|]. by destruct (_ =? _). }
    wp_step. apply wpe_when; intros _; wp_steps; apply wpe_zoom, wpe_anyerr; intros [range tick] c' _; wp_steps; rewrite Hu; by destruct op.
  - unfold completion. assert (forall y : S, now (updateCompletion y) = now y) as Hu.
    { intros y. unfold updateCompletion. destruct (completionQueue y); [done|]. by destruct (_ =? _). }
    rewrite Hu. assert (forall n (y : S), now (complete n tick y) = now y) as ->; [|done].
    induction n as [|n IH]; intros y; simpl; [done|]. destruct (completionQueue y); [done|]. destruct (_ <=? _); [by rewrite IH | done].
  - done.
Qed.

Lemma hil_step_ok s s' : hil_step q s s' -> hil_ok s -> now s <= T -> hil_ok s' /\ tokens s' ≡ₚ tokens s.
Proof.
  intros Hstep Hok HT. destruct Hstep as [s s' l op r l' Hj Hrun | s tick Hev _ | s tick Hle Hev].
  - destruct (take_job s l op r l' Hj Hok) as [Hok1 Hp]. pose proof (doIO_ok op r _ Hok1 HT) as Hw.
    rewrite wpe_anyerr in Hw. destruct (Hw tt s' Hrun) as [Hok' Hp']. split; [done|]. by rewrite Hp', Hp.
  - destruct (completion_ok s tick Hok Hev) as (? & ? & _). done.
  - split; [|done]. destruct Hok as [Hh Ha He Hc]. unfold event_for in He. split; simpl; try done.
    + destruct (completionQueue s) as [|top l] eqn:Hq; [done|]. apply Forall_forall. intros y Hy.
      pose proof (heap_head top l y Hh Hy). specialize (Hev _ (proj1 He)). lia.
    + unfold event_for. simpl. destruct (completionQueue s); [|done]. destruct He. split; [done | lia].
Qed.

Lemma hil_run_ok s0 fs s : hil_run q s0 fs s -> hil_ok s0 -> now s <= T -> hil_ok s /\ tokens s ≡ₚ fs ++ tokens s0.
Proof.
  intros Hrun Hok. induction Hrun as [|fs s s' op r Hrun IH Hs|fs s s' Hrun IH Hs]; intros HT; [done | |].
  - injection Hs as <-. destruct (IH HT) as [[Hh Ha He Hc] Hp]. split; [done|]. rewrite <- app_comm_cons, <- Hp. unfold tokens. simpl.
    rewrite !fmap_app, <- app_assoc. simpl. by rewrite <- Permutation_middle.
  - pose proof (hil_step_time s s' Hs). destruct (IH ltac:(lia)) as [Hok' Hp].
    destruct (hil_step_ok s s' Hs Hok' ltac:(lia)) as [? Hp']. split; [done|]. by rewrite Hp'.
Qed.

(** Firing events empties the queue. *)
Lemma hil_drains s : hil_ok s -> exists s', rtc (hil_step q) s s' /\ completionQueue s' = [] /\
  exists k, called s' = called s ++ ((fun r => (hil_finishedAt r, r)) <$> k) /\ k ≡ₚ completionQueue s.
Proof.
  remember (length (completionQueue s)) as n eqn:Hn. revert s Hn. induction (lt_wf n) as [n _ IH]. intros s -> Hok.
  destruct (completionQueue s) as [|top l] eqn:Hq.
  { exists s. split_and!; [apply rtc_refl | done | exists []; by rewrite app_nil_r]. }
  pose proof (hk_event s Hok) as He. unfold event_for in He. rewrite Hq in He. destruct He as [He _].
  pose proof (hk_ahead s Hok) as Hahead. rewrite Hq in Hahead. apply Forall_cons in Hahead as [Hahead _].
  destruct (completion_ok s _ Hok He) as (Hok1 & _ & _ & Hafter & k & Hk & Hp). set (s1 := completion _) in *. rewrite Hq in Hp.
  assert (k <> []) as Hk0.
  { intros ->. simpl in Hp. rewrite Forall_forall in Hafter. specialize (Hafter top). rewrite <- Hp in Hafter.
    specialize (Hafter ltac:(left)). lia. }
  assert (length (completionQueue s1) < length (top :: l))%nat as Hlt.
  { rewrite Hp, length_app. destruct k; [done | simpl; lia]. }
  destruct (IH _ Hlt s1 eq_refl Hok1) as (s' & Hrun & Hq' & k' & Hk' & Hp').
  exists s'. split_and!; [by eapply rtc_l; [apply step_event|] | done |]. exists (k ++ k').
  rewrite Hk', Hk, <- app_assoc, fmap_app. split; [|by rewrite Hp', Hp]. f_equal. f_equal.
  pose proof (hk_called s1 Hok1) as Hc. rewrite Hk in Hc. apply Forall_app in Hc as [_ Hc].
  clear -Hc. induction k as [|r k IHk]; [done|]. rewrite !fmap_cons in *. apply Forall_cons in Hc as [Hr Hc]. simpl in Hr. rewrite Hr at 1.
  f_equal. by apply IHk.
Qed.

Lemma hil_start_ok (c : C) tick : 0 <= tick -> hil_ok (HIL_make c tick).
Proof. intros Ht. split; simpl; try done. Qed.
End Invariant.

Section Completion.
  Context {C : Type} `{AbstractCache C} `{PriorityQueueLaws} (q : IclParam) (T : Z).

(** C20: as long as every operation of the cache layer takes time, in any
    interleaving of arriving requests, jobs, passing time and completion events
    every request that arrived is a waiting job, is in the queue or has completed,
    once; completion functions get the tick their request ended at; the event is
    pending for the request that ends first, not before the present; and the
    events alone complete everything in the queue. *)
Theorem requests_complete_once c t0 fs s :
  (forall op r tick c range tick' c', tick <= T -> serveIO q op r tick c = Ok (range, tick', c') -> tick < tick') ->
  0 <= t0 -> hil_run q (HIL_make c t0) fs s -> now s <= T ->
  tokens s ≡ₚ fs /\ Forall (fun c => c.1 = hil_finishedAt c.2) (called s) /\
  match completionQueue s with
  | [] => completionEvent s = None
  | top :: _ => completionEvent s = Some (hil_finishedAt top) /\ now s <= hil_finishedAt top
  end /\
  exists s', rtc (hil_step q) s s' /\ completionQueue s' = [] /\
    exists k, called s' = called s ++ ((fun r => (hil_finishedAt r, r)) <$> k) /\ k ≡ₚ completionQueue s.
Proof.
  intros Htime Ht Hrun HT. destruct (hil_run_ok q T Htime _ _ _ Hrun (hil_start_ok c t0 Ht) HT) as [Hok Hp].
  unfold tokens in Hp at 2. simpl in Hp. rewrite app_nil_r in Hp. pose proof (hil_drains q s Hok).
  destruct Hok as [Hh Ha He Hc]. split_and!; try done. unfold event_for in He.
  destruct (completionQueue s); [by destruct He|]. apply Forall_cons in Ha as [? _]. destruct He. auto.
Qed.
End Completion.

(** ** An example *)

(** The queue keeps its top, the others follow in the order they came. *)
#[export] Instance list_queue : PriorityQueue := {|
  pq_push x l := match l with y :: l' => if hil_finishedAt y <=? hil_finishedAt x then y :: l' ++ [x] else x :: l | [] => [x] end;
  pq_pop l := match l with _ :: l' => sort_by hil_finishedAt l' | [] => [] end;
|}.

#[export] Instance list_queue_laws : PriorityQueueLaws.
Proof.
  split; simpl.
  - intros x [|y l]; [done|]. destruct (_ <=? _); [|done]. rewrite app_comm_cons, (Permutation_app_comm _ [x]). done.
  - intros x [|y l]; simpl; [done|]. intros Hl. destruct (Z.leb_spec (hil_finishedAt y) (hil_finishedAt x)); simpl.
    + apply Forall_app. split; [done|]. by constructor.
    + constructor; [lia|]. eapply List.Forall_impl; [|exact Hl]. simpl. lia.
  - intros _ l. apply sort_by_perm.
  - intros [|x l]; simpl; [done|]. intros _. pose proof (sort_by_sorted hil_finishedAt l) as Hs.
    destruct (sort_by hil_finishedAt l); [done|]. by apply Sorted.StronglySorted_inv in Hs as [_ Hs].
Qed.

(** A cache that takes no time, and a layer that takes [n] ticks. *)
Definition instant_cache (n : Z) : AbstractCache unit := {|
  cache_read r t c := Ok (r, t, c);
  cache_write r t c := Ok (r, t, c);
  cache_flush _ t c := Ok (t, c);
  cache_trim _ t c := Ok (t, c);
  cache_format r t c := Ok (r, t, c);
  icl_cpu _ c := Ok (n, c);
|}.

Definition small_layer : IclParam := mkIclParam 16 4096.

Lemma instant_takes_time op r tick (c : unit) range tick' c' : tick <= 1000 ->
  serveIO (H := instant_cache 7) small_layer op r tick c = Ok (range, tick', c') -> tick < tick'.
Proof.
  intros Ht. assert (tick < u64 (tick + 7)) as Hu.
  { destruct (Z.le_gt_cases 0 tick); [rewrite u64_small; lia | pose proof (u64_range (tick + 7)); lia]. }
  enough (wpe anyerr (serveIO (H := instant_cache 7) small_layer op r tick) (fun t _ => tick < t.2) c) as Hw.
  { rewrite wpe_anyerr in Hw. intros Hrun. exact (Hw _ _ Hrun). }
  assert (forall f o, (forall r t c, o r t c = Ok (r, t, c)) -> wpe anyerr (transfer (H := instant_cache 7) small_layer o f (icl_of_hil r) tick) (fun t _ => tick < t) c) as Htr.
  { intros f o Ho. unfold transfer. wp_step. destruct (Z.le_gt_cases 0 (nlp (icl_range (icl_of_hil r)))) as [Hn|Hn].
    - apply (wpe_for_range anyerr (fun _ st _ => st.2 = tick)); [done | done | |].
      + intros i [[r1 rem] fin] s _ Hf. unfold page. wp_step. unfold wpe. rewrite Ho. simpl in *. lia.
      + intros [[r1 rem] fin] s Hf. simpl in Hf. by subst fin.
    - unfold for_range. rewrite seqZ_nil by lia. done. }
  destruct op as [| | | |[]]; try done; unfold serveIO, Icl.read, Icl.write; wp_step;
    (eapply wpe_mono; [by apply Htr | intros t c1 Hlt; by wp_step]).
Qed.

(** Two requests arrive, both run at once, the event fires. *)
Definition read_request : HilRequest := mkHilRequest 0 0 100 5000 (mkLPNRange 3 2) 0 11.
Definition flush_request : HilRequest := mkHilRequest 0 0 0 0 (mkLPNRange 0 16) 0 22.
Definition submitted : Hil.t unit := set_jobs [(HilRead, read_request); (HilFlush, flush_request)] (HIL_make tt 40).
Definition after {C} (m : M (Hil.t C) unit) (s : Hil.t C) : Hil.t C := match m s with Ok (_, s') => s' | Err _ => s end.
Definition one_ran (n : Z) : Hil.t unit := after (doIO (H := instant_cache n) small_layer HilRead read_request 40)
  (set_jobs [(HilFlush, flush_request)] submitted).
Definition both_ran (n : Z) : Hil.t unit := after (doIO (H := instant_cache n) small_layer HilFlush flush_request 40)
  (set_jobs [] (one_ran n)).

Lemma both_run n : n = 0 \/ n = 7 -> hil_run (H := instant_cache n) small_layer (HIL_make tt 40) [22; 11] (both_ran n).
Proof.
  intros Hn. apply (run_step (H := instant_cache n)) with (one_ran n);
    [apply (run_step (H := instant_cache n)) with submitted; [|apply (step_job (H := instant_cache n)) with [] HilRead read_request [(HilFlush, flush_request)]]
    |apply (step_job (H := instant_cache n)) with [] HilFlush flush_request []].
  - apply (run_submit (H := instant_cache n) small_layer _ [11] (set_jobs [(HilRead, read_request)] (HIL_make tt 40)) _ HilFlush flush_request); [|done].
    apply (run_submit (H := instant_cache n) small_layer _ [] (HIL_make tt 40) _ HilRead read_request); [|done]. apply run_start.
  - done.
  - destruct Hn as [-> | ->]; vm_compute; reflexivity.
  - destruct Hn as [-> | ->]; vm_compute; reflexivity.
  - destruct Hn as [-> | ->]; vm_compute; reflexivity.
Qed.

Lemma requests_complete_once_witness : completionEvent (both_ran 7) = Some 47 /\ tokens (both_ran 7) ≡ₚ [22; 11].
Proof.
  destruct (requests_complete_once (H := instant_cache 7) small_layer 1000 tt 40 [22; 11] (both_ran 7)) as (Hp & _ & _ & _).
  - intros op r tick c range tick' c' Ht. by apply instant_takes_time.
  - lia.
  - apply both_run. by right.
  - vm_compute. done.
  - split; [reflexivity | exact Hp].
Defined.

(** Without latency the second of two requests that end at one tick waits for
    ever: the event has fired at that tick before, which is still the last one it
    was scheduled for. *)
Example second_request_stays :
  let s1 := completion (event_due 40 (one_ran 0)) in
  let s2 := after (doIO (H := instant_cache 0) small_layer HilFlush flush_request 40) (set_jobs [] s1) in
  completionEvent (one_ran 0) = Some 40 /\ hil_function <$> completionQueue s2 = [22] /\ completionEvent s2 = None.
Proof. vm_compute. done. Qed.
