(* ===== verification/Fifo.v ===== *)
(** * util/fifo.cc: the FIFO between a controller and its host interface

    A write is put into the FIFO and then transferred upstream, a read is
    transferred and put into the FIFO at the same time; large requests are split
    into transfer units.  [FIFO] keeps, for each direction, the requests that
    wait, those on their way, and three events.

    The clock is the engine's; an event is the tick it is scheduled for.  The
    interface above answers a transfer in an event of its own ([asked] says that
    it has not yet), and a completion function may ask the FIFO for more while it
    is called: those requests are an argument of the operations that call it. *)

From S2P Require Import Prelude Algorithm.

Module Fifo.

(** [FIFOParam] *)
Record FIFOParam : Type := mkFIFOParam { rqSize : Z; wqSize : Z; transferUnit : Z; latency : Z -> Z }.

(** [FIFOEntry]; the completion function with its context is a number. *)
Record FIFOEntry : Type := mkFIFOEntry {
  last : bool; id : Z; addr : Z; size : Z; buffer : option Z;
  arrivedAt : Z; insertBeginAt : Z; insertEndAt : Z; func : Z;
}.
(** [ReadEntry]; its member [latency] has a name of its own. *)
Record ReadEntry : Type := mkReadEntry { read_id : Z; read_insertEndAt : Z; dmaEndAt : Z; read_latency : Z }.

(** A request to the FIFO: [dmaWrite] or [dmaRead] with address, size, buffer, function. *)
Record Req : Type := mkReq { req_write : bool; req_addr : Z; req_size : Z; req_buffer : option Z; req_func : Z }.

(** [FIFO::Queue], with the requests taken, the transfers asked of the interface
    above and the completion functions called so far. *)
Record Queue : Type := mkQueue {
  capacity : Z;
  usage : Z;
  waitQueue : list FIFOEntry;
  transferQueue : list FIFOEntry;
  insertDone : option Z;
  beginTransfer : option Z;
  submitCompletion : option Z;
  insertPending : bool;
  transferPending : bool;
  asked : bool;
  accepted : list Req;
  issued : list FIFOEntry;
  called : list (Z * Z);
}.

Record t : Type := mk {
  now : Z;
  param : FIFOParam;
  unitLatency : Z;
  readQueue : Queue;
  writeQueue : Queue;
  counter : Z;
  readCompletion : list ReadEntry;
}.

Definition Queue_make (c : Z) : Queue := mkQueue c 0 [] [] None None None false false false [] [] [].

(** The constructor. *)
Definition FIFO_make (p : FIFOParam) (tick : Z) : res t :=
  if (rqSize p <? transferUnit p) || (wqSize p <? transferUnit p) then panic "Invalid transferUnit size"
  else Ok (mk tick p (latency p (transferUnit p)) (Queue_make (rqSize p)) (Queue_make (wqSize p)) 0 []).

(** ** Updates of the state *)

Definition set_now (n : Z) (s : t) : t :=
  mk n (param s) (unitLatency s) (readQueue s) (writeQueue s) (counter s) (readCompletion s).
Definition set_readQueue (q : Queue) (s : t) : t :=
  mk (now s) (param s) (unitLatency s) q (writeQueue s) (counter s) (readCompletion s).
Definition set_writeQueue (q : Queue) (s : t) : t :=
  mk (now s) (param s) (unitLatency s) (readQueue s) q (counter s) (readCompletion s).
Definition set_counter (c : Z) (s : t) : t :=
  mk (now s) (param s) (unitLatency s) (readQueue s) (writeQueue s) c (readCompletion s).
Definition set_completion (l : list ReadEntry) (s : t) : t :=
  mk (now s) (param s) (unitLatency s) (readQueue s) (writeQueue s) (counter s) l.

Definition with_usage (u : Z) (q : Queue) : Queue :=
  mkQueue (capacity q) u (waitQueue q) (transferQueue q) (insertDone q) (beginTransfer q) (submitCompletion q)
    (insertPending q) (transferPending q) (asked q) (accepted q) (issued q) (called q).
Definition with_wait (l : list FIFOEntry) (q : Queue) : Queue :=
  mkQueue (capacity q) (usage q) l (transferQueue q) (insertDone q) (beginTransfer q) (submitCompletion q)
    (insertPending q) (transferPending q) (asked q) (accepted q) (issued q) (called q).
Definition with_transfer (l : list FIFOEntry) (q : Queue) : Queue :=
  mkQueue (capacity q) (usage q) (waitQueue q) l (insertDone q) (beginTransfer q) (submitCompletion q)
    (insertPending q) (transferPending q) (asked q) (accepted q) (issued q) (called q).
Definition with_insertDone (o : option Z) (q : Queue) : Queue :=
  mkQueue (capacity q) (usage q) (waitQueue q) (transferQueue q) o (beginTransfer q) (submitCompletion q)
    (insertPending q) (transferPending q) (asked q) (accepted q) (issued q) (called q).
Definition with_beginTransfer (o : option Z) (q : Queue) : Queue :=
  mkQueue (capacity q) (usage q) (waitQueue q) (transferQueue q) (insertDone q) o (submitCompletion q)
    (insertPending q) (transferPending q) (asked q) (accepted q) (issued q) (called q).
Definition with_submit (o : option Z) (q : Queue) : Queue :=
  mkQueue (capacity q) (usage q) (waitQueue q) (transferQueue q) (insertDone q) (beginTransfer q) o
    (insertPending q) (transferPending q) (asked q) (accepted q) (issued q) (called q).
Definition with_insertPending (b : bool) (q : Queue) : Queue :=
  mkQueue (capacity q) (usage q) (waitQueue q) (transferQueue q) (insertDone q) (beginTransfer q) (submitCompletion q)
    b (transferPending q) (asked q) (accepted q) (issued q) (called q).
Definition with_transferPending (b : bool) (q : Queue) : Queue :=
  mkQueue (capacity q) (usage q) (waitQueue q) (transferQueue q) (insertDone q) (beginTransfer q) (submitCompletion q)
    (insertPending q) b (asked q) (accepted q) (issued q) (called q).
(** The interface above is asked to transfer an entry; it has answered. *)
Definition with_asked (b : bool) (q : Queue) : Queue :=
  mkQueue (capacity q) (usage q) (waitQueue q) (transferQueue q) (insertDone q) (beginTransfer q) (submitCompletion q)
    (insertPending q) (transferPending q) b (accepted q) (issued q) (called q).
Definition ask (e : FIFOEntry) (q : Queue) : Queue :=
  mkQueue (capacity q) (usage q) (waitQueue q) (transferQueue q) (insertDone q) (beginTransfer q) (submitCompletion q)
    (insertPending q) (transferPending q) true (accepted q) (issued q ++ [e]) (called q).
Definition accept (r : Req) (q : Queue) : Queue :=
  mkQueue (capacity q) (usage q) (waitQueue q) (transferQueue q) (insertDone q) (beginTransfer q) (submitCompletion q)
    (insertPending q) (transferPending q) (asked q) (accepted q ++ [r]) (issued q) (called q).
Definition add_called (tick f : Z) (q : Queue) : Queue :=
  mkQueue (capacity q) (usage q) (waitQueue q) (transferQueue q) (insertDone q) (beginTransfer q) (submitCompletion q)
    (insertPending q) (transferPending q) (asked q) (accepted q) (issued q) (called q ++ [(tick, f)]).

Definition upd_w (f : Queue -> Queue) : M t unit := modify (fun s => set_writeQueue (f (writeQueue s)) s).
Definition upd_r (f : Queue -> Queue) : M t unit := modify (fun s => set_readQueue (f (readQueue s)) s).

(** [schedule(event, tick)]: an event is not scheduled for the past. *)
Definition at_tick (now tick : Z) : option Z := Some (if tick <? now then now else tick).

(** [l.front()], [*l.begin()] and [l.pop_front()] *)
Definition front {A} (l : list A) : res A := match l with x :: _ => Ok x | [] => Err UB end.
Definition pop_front {A} (l : list A) : res (list A) := match l with _ :: l' => Ok l' | [] => Err UB end.

(** [calcSize]: the rounded size; the flag is set for a size below the unit. *)
Definition calcSize (p : FIFOParam) (size : Z) : res (Z * bool) :=
  if size <? transferUnit p then Ok (size, true)
  else if transferUnit p =? 0 then Err UB
  else Ok (u64 (Algorithm.DIVCEIL64 size (transferUnit p) * transferUnit p), false).

(** The splitting of a request that is larger than the FIFO: the first unit and the rest. *)
Definition first_unit (p : FIFOParam) (e : FIFOEntry) : FIFOEntry :=
  mkFIFOEntry false (id e) (addr e) (transferUnit p) (buffer e) (arrivedAt e) (insertBeginAt e) (insertEndAt e) (func e).
Definition rest_units (p : FIFOParam) (e : FIFOEntry) : FIFOEntry :=
  mkFIFOEntry true (id e) (u64 (addr e + transferUnit p)) (u64 (size e - transferUnit p))
    ((fun b => b + transferUnit p) <$> buffer e) (arrivedAt e) (insertBeginAt e) (insertEndAt e) (func e).

Definition with_times (b e : Z) (x : FIFOEntry) : FIFOEntry :=
  mkFIFOEntry (last x) (id x) (addr x) (size x) (buffer x) (arrivedAt x) b e (func x).
Definition with_id (i : Z) (x : FIFOEntry) : FIFOEntry :=
  mkFIFOEntry (last x) i (addr x) (size x) (buffer x) (arrivedAt x) (insertBeginAt x) (insertEndAt x) (func x).

(** ** Writes *)

Definition insertWrite : M t unit :=
  s ← get;
  let q := writeQueue s in
  let p := param s in
  iter ← lift (front (waitQueue q));
  r ← lift (calcSize p (size iter));
  let '(sz, smallerThanUnit) := r in
  if (insertPending q || (capacity q <? u64 (usage q + sz))) && (sz <=? wqSize p) then mret tt
  else
    x ← lift (if wqSize p <? sz then
                r ← calcSize p (transferUnit p);
                Ok (first_unit p iter, rest_units p iter :: tail (waitQueue q), r.1, smallerThanUnit || r.2)
              else Ok (iter, tail (waitQueue q), sz, smallerThanUnit));
    let '(iter, behind, sz, smallerThanUnit) := x in
    upd_w (with_insertPending true);;
    upd_w (with_usage (u64 (usage q + sz)));;
    let iter := with_times (now s) (u64 (now s + latency p sz)) iter in
    upd_w (with_wait (iter :: behind));;
    upd_w (with_insertDone (at_tick (now s) (insertEndAt iter)));;
    (match beginTransfer q with
     | Some _ => mret tt
     | None => upd_w (with_beginTransfer (at_tick (now s)
                 (u64 (now s + (if smallerThanUnit : bool then latency p sz else unitLatency s)))))
     end);;
    upd_w (with_transfer (transferQueue q ++ [iter])).

(** The event [insertDone]. *)
Definition insertWriteDone : M t unit :=
  upd_w (with_insertDone None);;
  s ← get;
  w ← lift (pop_front (waitQueue (writeQueue s)));
  upd_w (with_wait w);;
  upd_w (with_insertPending false);;
  match w with [] => mret tt | _ :: _ => insertWrite end.

(** Called by the event [beginTransfer], or directly. *)
Definition transferWrite : M t unit :=
  s ← get;
  let q := writeQueue s in
  iter ← lift (front (transferQueue q));
  if transferPending q then mret tt
  else
    upd_w (with_transferPending true);;
    upd_w (ask iter).
Definition beginTransferWrite : M t unit := upd_w (with_beginTransfer None);; transferWrite.

(** [dmaWrite] *)
Definition dmaWrite (r : Req) : M t unit :=
  if req_size r =? 0 then mret tt
  else
    s ← get;
    upd_w (accept r);;
    upd_w (with_wait (waitQueue (writeQueue s) ++
      [mkFIFOEntry true 0 (req_addr r) (req_size r) (req_buffer r) (now s) 0 0 (req_func r)]));;
    insertWrite.

(** ** Reads *)

Definition transferRead : M t unit :=
  s ← get;
  let q := readQueue s in
  let p := param s in
  iter ← lift (front (waitQueue q));
  r ← lift (calcSize p (size iter));
  let '(sz, smallerThanUnit) := r in
  if (transferPending q || (capacity q <? u64 (usage q + sz))) && (sz <=? rqSize p) then mret tt
  else
    x ← lift (if rqSize p <? sz then
                r ← calcSize p (transferUnit p);
                Ok (first_unit p iter, rest_units p iter :: tail (waitQueue q), r.1, smallerThanUnit || r.2)
              else Ok (iter, tail (waitQueue q), sz, smallerThanUnit));
    let '(iter, behind, sz, smallerThanUnit) := x in
    upd_r (with_transferPending true);;
    let iter := with_id (counter s) iter in
    modify (set_counter (u64 (counter s + 1)));;
    upd_r (with_wait (iter :: behind));;
    upd_r (with_usage (u64 (usage q + sz)));;
    upd_r (ask iter);;
    (match beginTransfer q with
     | Some _ => mret tt
     | None => upd_r (with_beginTransfer (at_tick (now s)
                 (u64 (now s + (if smallerThanUnit : bool then latency p sz else unitLatency s)))))
     end);;
    upd_r (with_transfer (transferQueue q ++ [iter])).

(** [dmaRead] *)
Definition dmaRead (r : Req) : M t unit :=
  if req_size r =? 0 then mret tt
  else
    s ← get;
    upd_r (accept r);;
    upd_r (with_wait (waitQueue (readQueue s) ++
      [mkFIFOEntry true 0 (req_addr r) (req_size r) (req_buffer r) (now s) 0 0 (req_func r)]));;
    transferRead.

Definition dma (r : Req) : M t unit := if req_write r then dmaWrite r else dmaRead r.

(** [iter.func(now, iter.context)], with the requests [more] the function makes. *)
Definition call_write (e : FIFOEntry) (more : list Req) : M t unit :=
  s ← get; upd_w (add_called (now s) (func e));; iterM dma more.
Definition call_read (e : FIFOEntry) (more : list Req) : M t unit :=
  s ← get; upd_r (add_called (now s) (func e));; iterM dma more.

(** Called by the event [submitCompletion], or directly. *)
Definition transferWriteDoneNext (more : list Req) : M t unit :=
  s ← get;
  iter ← lift (front (transferQueue (writeQueue s)));
  when (last iter) (call_write iter more);;
  r ← lift (calcSize (param s) (size iter));
  upd_w (fun q => with_usage (u64 (usage q - r.1)) q);;
  upd_w (with_transferPending false);;
  s ← get;
  l ← lift (pop_front (transferQueue (writeQueue s)));
  upd_w (with_transfer l);;
  (match l, beginTransfer (writeQueue s) with
   | _ :: _, None => transferWrite
   | _, _ => mret tt
   end);;
  s ← get;
  match waitQueue (writeQueue s) with [] => mret tt | _ :: _ => insertWrite end.
Definition submitWrite (more : list Req) : M t unit := upd_w (with_submit None);; transferWriteDoneNext more.

Definition entry_latency (s : t) (e : FIFOEntry) : Z :=
  if size e <? transferUnit (param s) then latency (param s) (size e) else unitLatency s.

(** [transferDone] of the writes: the interface above has answered. *)
Definition transferWriteDone (more : list Req) : M t unit :=
  upd_w (with_asked false);;
  s ← get;
  iter ← lift (front (transferQueue (writeQueue s)));
  let tick := u64 (insertEndAt iter + entry_latency s iter) in
  if tick <=? now s then transferWriteDoneNext more
  else upd_w (with_submit (at_tick (now s) tick)).

(** Called by the event [beginTransfer] of the reads, or directly. *)
Definition insertRead : M t unit :=
  s ← get;
  let q := readQueue s in
  iter ← lift (front (transferQueue q));
  if insertPending q then mret tt
  else
    upd_r (with_insertPending true);;
    r ← lift (calcSize (param s) (size iter));
    let iter := with_times (now s) (u64 (now s + latency (param s) r.1)) iter in
    upd_r (with_transfer (iter :: tail (transferQueue q)));;
    match insertDone q with
    | Some _ => mret tt
    | None => upd_r (with_insertDone (at_tick (now s) (insertEndAt iter)))
    end.
Definition beginTransferRead : M t unit := upd_r (with_beginTransfer None);; insertRead.

Definition insertReadDoneNext (more : list Req) : M t unit :=
  s ← get;
  iter ← lift (front (transferQueue (readQueue s)));
  when (last iter) (call_read iter more);;
  r ← lift (calcSize (param s) (size iter));
  upd_r (fun q => with_usage (u64 (usage q - r.1)) q);;
  upd_r (with_insertPending false);;
  s ← get;
  l ← lift (pop_front (transferQueue (readQueue s)));
  upd_r (with_transfer l);;
  (match l, beginTransfer (readQueue s) with
   | _ :: _, None => insertRead
   | _, _ => mret tt
   end);;
  s ← get;
  match waitQueue (readQueue s) with [] => mret tt | _ :: _ => transferRead end.
Definition submitRead (more : list Req) : M t unit := upd_r (with_submit None);; insertReadDoneNext more.

(** [find]: the entry with the id; [erase] removes it. *)
Fixpoint find (i : Z) (l : list ReadEntry) : option ReadEntry :=
  match l with
  | [] => None
  | e :: l' => if read_id e =? i then Some e else find i l'
  end.
Fixpoint erase (i : Z) (l : list ReadEntry) : list ReadEntry :=
  match l with
  | [] => []
  | e :: l' => if read_id e =? i then l' else e :: erase i l'
  end.
Fixpoint set_dmaEndAt (i tick : Z) (l : list ReadEntry) : list ReadEntry :=
  match l with
  | [] => []
  | e :: l' => if read_id e =? i then mkReadEntry (read_id e) (read_insertEndAt e) tick (read_latency e) :: l'
               else e :: set_dmaEndAt i tick l'
  end.

(** The iterator is the id it points at. *)
Definition insertReadDoneMerge (comp : ReadEntry) (more : list Req) : M t unit :=
  s ← get;
  let tick := u64 (dmaEndAt comp + read_latency comp) in
  (if tick <=? now s then insertReadDoneNext more
   else upd_r (with_submit (at_tick (now s) tick)));;
  modify (fun s => set_completion (erase (read_id comp) (readCompletion s)) s).

(** [transferDone] of the reads. *)
Definition transferReadDone (more : list Req) : M t unit :=
  upd_r (with_asked false);;
  s ← get;
  iter ← lift (front (waitQueue (readQueue s)));
  let lat := entry_latency s iter in
  (match find (id iter) (readCompletion s) with
   | None => modify (set_completion (readCompletion s ++ [mkReadEntry (id iter) 0 (now s) lat]))
   | Some comp =>
       modify (set_completion (set_dmaEndAt (id iter) (now s) (readCompletion s)));;
       insertReadDoneMerge (mkReadEntry (read_id comp) (read_insertEndAt comp) (now s) (read_latency comp)) more
   end);;
  s ← get;
  w ← lift (pop_front (waitQueue (readQueue s)));
  upd_r (with_wait w);;
  upd_r (with_transferPending false);;
  match w with [] => mret tt | _ :: _ => transferRead end.

(** The event [insertDone] of the reads. *)
Definition insertReadDone (more : list Req) : M t unit :=
  upd_r (with_insertDone None);;
  s ← get;
  iter ← lift (front (transferQueue (readQueue s)));
  let lat := entry_latency s iter in
  match find (id iter) (readCompletion s) with
  | None => modify (set_completion (readCompletion s ++ [mkReadEntry (id iter) (now s) 0 lat]))
  | Some comp => insertReadDoneMerge comp more
  end.

(** ** What can happen to a FIFO *)

Inductive Event : Type :=
  | Request (r : Req)
  | WriteInserted | WriteBegins | WriteAnswered (more : list Req) | WriteSubmits (more : list Req)
  | ReadInserted (more : list Req) | ReadBegins | ReadAnswered (more : list Req) | ReadSubmits (more : list Req).

Definition handle (e : Event) : M t unit :=
  match e with
  | Request r => dma r
  | WriteInserted => insertWriteDone
  | WriteBegins => beginTransferWrite
  | WriteAnswered more => transferWriteDone more
  | WriteSubmits more => submitWrite more
  | ReadInserted more => insertReadDone more
  | ReadBegins => beginTransferRead
  | ReadAnswered more => transferReadDone more
  | ReadSubmits more => submitRead more
  end.

(** An event of the engine fires at its tick, an answer comes while it is waited for. *)
Definition enabled (e : Event) (s : t) : Prop :=
  match e with
  | Request _ => True
  | WriteInserted => insertDone (writeQueue s) = Some (now s)
  | WriteBegins => beginTransfer (writeQueue s) = Some (now s)
  | WriteAnswered _ => asked (writeQueue s) = true
  | WriteSubmits _ => submitCompletion (writeQueue s) = Some (now s)
  | ReadInserted _ => insertDone (readQueue s) = Some (now s)
  | ReadBegins => beginTransfer (readQueue s) = Some (now s)
  | ReadAnswered _ => asked (readQueue s) = true
  | ReadSubmits _ => submitCompletion (readQueue s) = Some (now s)
  end.
End Fifo.
