(* ===== verification/FifoProof.v ===== *)
(** * The FIFO: its operations and the invariants of its two sides

    The write side and the read side have the same shape; the operations of each
    preserve its invariant. *)

From S2P Require Import Prelude Algorithm Fifo.
Import Fifo.

(** ** The FIFO: pieces and requests, and the operations as functions of a queue *)

(** Parameters under which the FIFO works: the unit is positive and nothing
    comes near the end of the 64-bit range. *)
Record param_ok (p : FIFOParam) : Prop := {
  unit_pos : 0 < transferUnit p;
  unit_r : transferUnit p <= rqSize p;
  unit_w : transferUnit p <= wqSize p;
  rq_small : rqSize p < 2 ^ 62;
  wq_small : wqSize p < 2 ^ 62;
}.

(** ** Sizes *)

Definition csize (p : FIFOParam) (n : Z) : Z :=
  if n <? transferUnit p then n else ((n - 1) / transferUnit p + 1) * transferUnit p.

Lemma csize_bounds p n : param_ok p -> 0 < n -> n <= csize p n < n + transferUnit p.
Proof.
  intros Hp Hn. pose proof (unit_pos p Hp). unfold csize. destruct (Z.ltb_spec n (transferUnit p)); [lia|].
  pose proof (Z.div_mod (n - 1) (transferUnit p) ltac:(lia)).
  pose proof (Z.mod_pos_bound (n - 1) (transferUnit p) ltac:(lia)). lia.
Qed.

Lemma calcSize_eq p n : param_ok p -> 0 < n < 2 ^ 62 -> calcSize p n = Ok (csize p n, n <? transferUnit p).
Proof.
  intros Hp Hn. pose proof (csize_bounds p n Hp ltac:(lia)) as Hc. pose proof (unit_pos p Hp). pose proof (unit_w p Hp).
  pose proof (wq_small p Hp). unfold calcSize, csize in *. destruct (Z.ltb_spec n (transferUnit p)); [done|].
  rewrite (proj2 (Z.eqb_neq _ 0)) by lia. unfold Algorithm.DIVCEIL64.
  assert (0 <= (n - 1) / transferUnit p) by (apply Z.div_pos; lia).
  assert ((n - 1) / transferUnit p <= n - 1) by (apply Z.div_le_upper_bound; nia).
  rewrite (u64_small (n - 1)), (u64_small ((n - 1) / _ + 1)), u64_small by lia. done.
Qed.

Lemma csize_unit p : param_ok p -> csize p (transferUnit p) = transferUnit p.
Proof.
  intros Hp. pose proof (unit_pos p Hp). unfold csize. rewrite Z.ltb_irrefl.
  rewrite Z.div_small by lia. lia.
Qed.

Lemma csize_large p n c : param_ok p -> 0 < n -> transferUnit p <= c -> c < csize p n -> transferUnit p < n.
Proof.
  intros Hp Hn Hc Hl. destruct (Z.lt_trichotomy n (transferUnit p)) as [Hlt|[He|Hgt]]; [| |done].
  - unfold csize in Hl. rewrite (proj2 (Z.ltb_lt _ _) Hlt) in Hl. lia.
  - rewrite He, csize_unit in Hl by done. lia.
Qed.

(** ** Pieces *)

Definition entry_ok (e : FIFOEntry) : Prop :=
  0 < size e < 2 ^ 62 /\ 0 <= addr e /\ addr e + size e < 2 ^ 64.

Definition req_of (w : bool) (e : FIFOEntry) : Req := mkReq w (addr e) (size e) (buffer e) (func e).
(** The request goes on where the piece ends. *)
Definition follows (e : FIFOEntry) (r : Req) : bool :=
  (req_addr r =? addr e + size e) && bool_decide (req_buffer r = (fun b => b + size e) <$> buffer e) && (req_func r =? func e).

(** The requests that pieces make up, [None] when the pieces do not fit. *)
Definition glue1 (w : bool) (e : FIFOEntry) (o : option (list Req)) : option (list Req) :=
  match o with
  | None => None
  | Some l =>
      if last e then Some (req_of w e :: l)
      else match l with
           | [] => None
           | r :: l' =>
               if follows e r then Some (mkReq w (addr e) (size e + req_size r) (buffer e) (func e) :: l') else None
           end
  end.
Definition glue (w : bool) (l : list FIFOEntry) : option (list Req) := foldr (glue1 w) (Some []) l.

Lemma glue_app w a b : glue w (a ++ b) = foldr (glue1 w) (glue w b) a.
Proof. apply foldr_app. Qed.

(** The pieces that complete a request. *)
Definition finals (l : list FIFOEntry) : list Z := func <$> filter (fun e => last e = true) l.

Lemma finals_app a b : finals (a ++ b) = finals a ++ finals b.
Proof. unfold finals. by rewrite filter_app, fmap_app. Qed.

Lemma finals_cons e l : finals (e :: l) = (if last e then [func e] else []) ++ finals l.
Proof. unfold finals. rewrite filter_cons. destruct (last e) eqn:He; case_decide; done. Qed.

Lemma glue_finals w l rs : glue w l = Some rs -> finals l = req_func <$> rs.
Proof.
  revert rs. induction l as [|e l IH]; intros rs; simpl; [by intros [= <-]|]. rewrite finals_cons.
  fold (glue w l). unfold glue1. destruct (glue w l) as [k|]; [|done]. rewrite (IH k eq_refl).
  destruct (last e); [by intros [= <-]|]. destruct k as [|r k]; [done|]. destruct (follows e r) eqn:Hf; [|done].
  intros [= <-]. unfold follows in Hf. apply andb_prop in Hf as [_ Hf%Z.eqb_eq]. simpl. by rewrite Hf.
Qed.

Lemma glue_single w e o : last e = true -> glue1 w e o = (fun l => req_of w e :: l) <$> o.
Proof. intros He. unfold glue1. rewrite He. by destruct o. Qed.

(** Appending a whole request. *)
Lemma glue_snoc w l e rs : glue w l = Some rs -> last e = true -> glue w (l ++ [e]) = Some (rs ++ [req_of w e]).
Proof.
  intros Hl He. rewrite glue_app. unfold glue at 1. cbn [foldr]. rewrite glue_single by done. cbn.
  revert rs Hl. induction l as [|x l IH]; intros rs; simpl; [by intros [= <-]|]. fold (glue w l).
  unfold glue1 at 1. destruct (glue w l) as [k|]; [|done]. rewrite (IH k eq_refl). unfold glue1.
  destruct (last x); [by intros [= <-]|]. destruct k as [|r k]; [done|]. simpl. destruct (follows x r); [|done]. by intros [= <-].
Qed.

(** Splitting a request into its first unit and the rest. *)
Lemma glue_split p w e o : entry_ok e -> last e = true -> 0 < transferUnit p < size e ->
  glue1 w (first_unit p e) (glue1 w (rest_units p e) o) = glue1 w e o.
Proof.
  intros (Hs & Ha & Hf) He Hu. rewrite (glue_single w (rest_units p e)) by done. rewrite (glue_single w e) by done.
  destruct o as [l|]; [|done]. cbn. unfold follows. cbn. rewrite (u64_small (addr e + _)), (u64_small (size e - _)) by lia.
  rewrite !Z.eqb_refl. rewrite bool_decide_eq_true_2 by done. cbn. unfold req_of. do 3 f_equal. lia.
Qed.

(** The piece that enters the FIFO and what waits behind it. *)
Definition split_entry (p : FIFOParam) (cap : Z) (e : FIFOEntry) : FIFOEntry * list FIFOEntry :=
  if cap <? csize p (size e) then (first_unit p e, [rest_units p e]) else (e, []).

Lemma split_entry_ok p cap e : param_ok p -> transferUnit p <= cap -> entry_ok e -> last e = true ->
  let x := split_entry p cap e in
  entry_ok x.1 /\ csize p (size x.1) <= cap /\ Forall (fun y => entry_ok y /\ last y = true) x.2 /\
  forall w o, glue1 w x.1 (foldr (glue1 w) o x.2) = glue1 w e o.
Proof.
  intros Hp Hc He Hlast. pose proof He as (Hs & Ha & Hf). pose proof (unit_pos p Hp). unfold split_entry.
  destruct (Z.ltb_spec cap (csize p (size e))) as [Hl|Hl]; cbn [fst snd].
  - pose proof (csize_large p (size e) cap Hp ltac:(lia) Hc Hl).
    split_and!.
    + unfold entry_ok. cbn. lia.
    + cbn [first_unit size]. by rewrite csize_unit.
    + constructor; [|constructor]. split; [|done]. unfold entry_ok. cbn. rewrite !u64_small by lia. lia.
    + intros w o. cbn [foldr]. apply glue_split; [done|done|lia].
  - split_and!; try done.
Qed.

(** The units of a request: each takes at most four events on its way through the FIFO. *)
Definition units (p : FIFOParam) (e : FIFOEntry) : Z := (size e - 1) / transferUnit p + 1.
Definition all_units (p : FIFOParam) (l : list FIFOEntry) : Z := foldr (fun e n => units p e + n) 0 l.

Lemma units_pos p e : param_ok p -> 0 < size e -> 1 <= units p e.
Proof. intros Hp Hs. pose proof (unit_pos p Hp). unfold units. pose proof (Z.div_pos (size e - 1) (transferUnit p)). lia. Qed.

Lemma units_split p cap e : param_ok p -> transferUnit p <= cap -> entry_ok e ->
  all_units p (split_entry p cap e).2 + 1 <= units p e.
Proof.
  intros Hp Hc (Hs & _). pose proof (unit_pos p Hp). unfold split_entry.
  destruct (Z.ltb_spec cap (csize p (size e))) as [Hl|Hl]; cbn [snd all_units foldr].
  - pose proof (csize_large p (size e) cap Hp ltac:(lia) Hc Hl). unfold units. cbn [rest_units size].
    rewrite u64_small by lia. replace (size e - 1) with (size e - transferUnit p - 1 + 1 * transferUnit p) by lia.
    rewrite Z.div_add by lia. lia.
  - pose proof (units_pos p e Hp ltac:(lia)). lia.
Qed.

Lemma all_units_app p a b : all_units p (a ++ b) = all_units p a + all_units p b.
Proof. unfold all_units. induction a as [|e a IH]; simpl; [done|]. rewrite IH. lia. Qed.

Lemma all_units_nonneg p l : param_ok p -> Forall entry_ok l -> 0 <= all_units p l.
Proof.
  intros Hp. induction 1 as [|e l [He _] _ IH]; [done|]. simpl. pose proof (units_pos p e Hp ltac:(lia)).
  change (0 <= units p e + all_units p l). lia.
Qed.

(** ** The operations as functions of their queue *)

Definition pieces_size (p : FIFOParam) (l : list FIFOEntry) : Z := foldr (fun e n => csize p (size e) + n) 0 l.

Lemma pieces_size_app p a b : pieces_size p (a ++ b) = pieces_size p a + pieces_size p b.
Proof. unfold pieces_size. induction a as [|e a IH]; simpl; [done|]. rewrite IH. lia. Qed.

Ltac queue_eq s :=
  let rq := fresh "rq" in let wq := fresh "wq" in
  destruct s as [? ? ? rq wq ? ?]; destruct rq, wq; cbn in *; subst; reflexivity.

Definition sched_begin (s : t) (n : Z) (o : option Z) : option Z :=
  match o with
  | Some _ => o
  | None => at_tick (now s) (u64 (now s + (if n <? transferUnit (param s) then latency (param s) (csize (param s) n) else unitLatency s)))
  end.

(** The first waiting entry is kept out. *)
Definition kept_out (p : FIFOParam) (pending : bool) (cap : Z) (e : FIFOEntry) (q : Queue) : bool :=
  (pending || (capacity q <? u64 (usage q + csize p (size e)))) && (csize p (size e) <=? cap).

Definition enter_write (s : t) (e : FIFOEntry) (behind : list FIFOEntry) : Queue :=
  let q := writeQueue s in
  let p := param s in
  let x := split_entry p (wqSize p) e in
  let sz := csize p (size x.1) in
  let y := with_times (now s) (u64 (now s + latency p sz)) x.1 in
  mkQueue (capacity q) (u64 (usage q + sz)) (y :: x.2 ++ behind) (transferQueue q ++ [y])
    (at_tick (now s) (u64 (now s + latency p sz))) (sched_begin s (size x.1) (beginTransfer q)) (submitCompletion q)
    true (transferPending q) (asked q) (accepted q) (issued q) (called q).

Lemma insertWrite_eq s e behind : param_ok (param s) -> entry_ok e -> waitQueue (writeQueue s) = e :: behind ->
  insertWrite s = Ok (tt, if kept_out (param s) (insertPending (writeQueue s)) (wqSize (param s)) e (writeQueue s) then s
                          else set_writeQueue (enter_write s e behind) s).
Proof.
  intros Hp [Hs He] Hw. pose proof (unit_pos _ Hp). pose proof (unit_w _ Hp). pose proof (wq_small _ Hp).
  unfold insertWrite. cbv [mbind M_bind get lift]. rewrite Hw. cbn [front]. rewrite calcSize_eq by done.
  unfold kept_out. destruct (_ && _) eqn:Hk; [done|]. unfold enter_write, split_entry.
  destruct (Z.ltb_spec (wqSize (param s)) (csize (param s) (size e))) as [Hl|Hl].
  - pose proof (csize_large (param s) (size e) (wqSize (param s)) Hp ltac:(lia) ltac:(lia) Hl).
    rewrite (proj2 (Z.ltb_ge (size e) _)) by lia.
    rewrite calcSize_eq by (done || lia). cbv [mbind res_bind]. rewrite Z.ltb_irrefl. cbn [fst snd orb app first_unit size].
    unfold sched_begin. rewrite Z.ltb_irrefl. destruct (beginTransfer (writeQueue s)) eqn:Hb; queue_eq s.
  - cbn [fst snd app]. unfold sched_begin. destruct (beginTransfer (writeQueue s)) eqn:Hb; queue_eq s.
Qed.

Definition enter_read (s : t) (e : FIFOEntry) (behind : list FIFOEntry) : Queue :=
  let q := readQueue s in
  let p := param s in
  let x := split_entry p (rqSize p) e in
  let y := with_id (counter s) x.1 in
  mkQueue (capacity q) (u64 (usage q + csize p (size x.1))) (y :: x.2 ++ behind) (transferQueue q ++ [y])
    (insertDone q) (sched_begin s (size x.1) (beginTransfer q)) (submitCompletion q)
    (insertPending q) true true (accepted q) (issued q ++ [y]) (called q).

Lemma transferRead_eq s e behind : param_ok (param s) -> entry_ok e -> waitQueue (readQueue s) = e :: behind ->
  transferRead s = Ok (tt, if kept_out (param s) (transferPending (readQueue s)) (rqSize (param s)) e (readQueue s) then s
                           else set_counter (u64 (counter s + 1)) (set_readQueue (enter_read s e behind) s)).
Proof.
  intros Hp [Hs He] Hw. pose proof (unit_pos _ Hp). pose proof (unit_r _ Hp). pose proof (rq_small _ Hp).
  unfold transferRead. cbv [mbind M_bind get lift]. rewrite Hw. cbn [front]. rewrite calcSize_eq by done.
  unfold kept_out. destruct (_ && _) eqn:Hk; [done|]. unfold enter_read, split_entry.
  destruct (Z.ltb_spec (rqSize (param s)) (csize (param s) (size e))) as [Hl|Hl].
  - pose proof (csize_large (param s) (size e) (rqSize (param s)) Hp ltac:(lia) ltac:(lia) Hl).
    rewrite (proj2 (Z.ltb_ge (size e) _)) by lia.
    rewrite calcSize_eq by (done || lia). cbv [mbind res_bind]. rewrite Z.ltb_irrefl. cbn [fst snd orb app first_unit size].
    unfold sched_begin. rewrite Z.ltb_irrefl. destruct (beginTransfer (readQueue s)) eqn:Hb; queue_eq s.
  - cbn [fst snd app]. unfold sched_begin. destruct (beginTransfer (readQueue s)) eqn:Hb; queue_eq s.
Qed.

(** ** The write side of the FIFO: its invariant *)

(** What has not entered the FIFO. *)
Definition unentered (pending : bool) (w : list FIFOEntry) : list FIFOEntry := if pending then tail w else w.
Definition some_tick (o : option Z) : bool := match o with Some _ => true | None => false end.

(** The write queue between two operations.  [done]: the pieces that have left the
    FIFO.  [c]: the front piece is being completed; [d]: its function was called. *)
Record winv (p : FIFOParam) (c d : bool) (done : list FIFOEntry) (q : Queue) : Prop := {
  w_glue : glue true (done ++ transferQueue q ++ unentered (insertPending q) (waitQueue q)) = Some (accepted q);
  w_rest : Forall (fun e => entry_ok e /\ last e = true) (unentered (insertPending q) (waitQueue q));
  w_pieces : Forall entry_ok (transferQueue q);
  w_usage : usage q = u64 (pieces_size p (transferQueue q));
  w_cap : capacity q = wqSize p;
  w_issued : issued q = done ++ (if transferPending q then take 1 (transferQueue q) else []);
  w_called : (called q).*2 = finals (done ++ (if d then take 1 (transferQueue q) else []));
  w_head : insertPending q = true -> exists e w, waitQueue q = e :: w /\ csize p (size e) <= wqSize p /\ entry_ok e;
  w_ins : some_tick (insertDone q) = insertPending q;
  w_pend : transferPending q = c || asked q || some_tick (submitCompletion q);
  w_one : (c = true -> asked q = false /\ submitCompletion q = None) /\ (asked q = true -> submitCompletion q = None);
  w_flags : d = true -> c = true;
  w_front : transferPending q = true -> transferQueue q <> [];
  w_begin : beginTransfer q <> None -> ((if transferPending q then 1 else 0) < length (transferQueue q))%nat;
  w_idle : transferQueue q <> [] -> transferPending q = false -> beginTransfer q <> None;
}.

(** The events that the writes in the queue can still cause. *)
Definition tick_count (o : option Z) : Z := match o with Some _ => 1 | None => 0 end.
Definition write_work (p : FIFOParam) (q : Queue) : Z :=
  4 * all_units p (unentered (insertPending q) (waitQueue q)) + (if insertPending q then 1 else 0) +
  tick_count (beginTransfer q) + 2 * vlen (transferQueue q) - tick_count (submitCompletion q).

(** What waits in front is kept out for lack of room. *)
Definition w_blocked (p : FIFOParam) (q : Queue) : Prop :=
  insertPending q = false -> forall e w, waitQueue q = e :: w -> kept_out p false (wqSize p) e q = true.

Lemma glue_replace w a b e x l :
  (forall o, glue1 w x (foldr (glue1 w) o l) = glue1 w e o) -> glue w (a ++ x :: l ++ b) = glue w (a ++ e :: b).
Proof.
  intros H. rewrite !glue_app. f_equal. unfold glue. cbn [foldr]. rewrite foldr_app. apply H.
Qed.

Lemma u64_add_l a b : u64 (u64 a + b) = u64 (a + b).
Proof. unfold u64. by rewrite Zplus_mod_idemp_l. Qed.

Lemma u64_sub_l a b : u64 (u64 a - b) = u64 (a - b).
Proof. unfold u64. by rewrite Zminus_mod_idemp_l. Qed.

Section Write.
  Context (s : t) (c d : bool) (done : list FIFOEntry).
  Context (Hp : param_ok (param s)).
Let p := param s.
Let q := writeQueue s.

(** An entry that enters. *)
Lemma enter_write_ok e behind :
  winv p c d done q -> insertPending q = false -> waitQueue q = e :: behind ->
  winv p c d done (enter_write s e behind) /\ write_work p (enter_write s e behind) <= write_work p q.
Proof.
  intros Hq Hi Hw. pose proof (w_rest _ _ _ _ _ Hq) as Hr. pose proof (w_glue _ _ _ _ _ Hq) as Hg.
  rewrite Hi, Hw in Hr, Hg. cbn [unentered] in Hr, Hg.
  apply Forall_cons in Hr as [[He Hlast] Hr].
  pose proof (split_entry_ok p (wqSize p) e Hp (unit_w p Hp) He Hlast) as (Hx & Hsz & Hl & Hglue). cbv zeta in *.
  pose proof (units_split p (wqSize p) e Hp (unit_w p Hp) He) as Hu.
  set (x := split_entry p (wqSize p) e) in *. split; cycle 1.
  { unfold write_work, enter_write. fold p q x. cbn [transferQueue insertPending waitQueue submitCompletion beginTransfer unentered tail].
    rewrite Hi, Hw. cbn [unentered]. rewrite all_units_app. change (all_units p (e :: behind)) with (units p e + all_units p behind).
    unfold vlen. rewrite length_app. cbn [length]. unfold sched_begin, tick_count. destruct (beginTransfer q); cbn [at_tick]; lia. }
  constructor; unfold enter_write; fold p; fold q; fold x; cbn [transferQueue insertPending waitQueue usage capacity
    transferPending issued called accepted insertDone submitCompletion asked beginTransfer unentered tail].
  - rewrite <- app_assoc. cbn [app]. rewrite <- Hg. rewrite !(app_assoc done).
    apply (glue_replace true (done ++ transferQueue q) behind e (with_times _ _ x.1) x.2). intros o. rewrite <- Hglue. done.
  - apply Forall_app. split; [exact Hl | exact Hr].
  - apply Forall_app. split; [exact (w_pieces _ _ _ _ _ Hq)|]. repeat constructor; apply Hx.
  - rewrite (w_usage _ _ _ _ _ Hq), u64_add_l, pieces_size_app. cbn. do 2 f_equal. lia.
  - apply (w_cap _ _ _ _ _ Hq).
  - rewrite (w_issued _ _ _ _ _ Hq). destruct (transferPending q) eqn:Ht; [|done].
    pose proof (w_front _ _ _ _ _ Hq Ht). by destruct (transferQueue q).
  - rewrite (w_called _ _ _ _ _ Hq). destruct d eqn:Hd; [|done].
    assert (transferPending q = true) as Ht by (rewrite (w_pend _ _ _ _ _ Hq), (w_flags _ _ _ _ _ Hq eq_refl); done).
    pose proof (w_front _ _ _ _ _ Hq Ht). by destruct (transferQueue q).
  - intros _. do 2 eexists. split; [done|]. split; [exact Hsz | apply Hx].
  - done.
  - apply (w_pend _ _ _ _ _ Hq).
  - apply (w_one _ _ _ _ _ Hq).
  - apply (w_flags _ _ _ _ _ Hq).
  - intros _. apply app_cons_not_nil || (intros H; by apply app_eq_nil in H as [_ H]).
  - intros _. rewrite length_app. cbn [length]. destruct (transferPending q) eqn:Ht; [|lia].
    pose proof (w_front _ _ _ _ _ Hq Ht). destruct (transferQueue q); [done|]. simpl. lia.
  - intros _ _. unfold sched_begin. by destruct (beginTransfer q).
Qed.

Lemma insertWrite_ok :
  winv p c d done q -> waitQueue q <> [] ->
  exists q', insertWrite s = Ok (tt, set_writeQueue q' s) /\ winv p c d done q' /\ w_blocked p q' /\
    transferQueue q `prefix_of` transferQueue q' /\ accepted q' = accepted q /\ write_work p q' <= write_work p q.
Proof.
  intros Hq Hw. destruct (waitQueue q) as [|e behind] eqn:He; [done|].
  assert (entry_ok e) as Hok.
  { destruct (insertPending q) eqn:Hi.
    - destruct (w_head _ _ _ _ _ Hq Hi) as (e' & w & Hw' & _ & Hok). rewrite He in Hw'. by injection Hw' as <- <-.
    - pose proof (w_rest _ _ _ _ _ Hq) as Hr. rewrite Hi, He in Hr. by apply Forall_cons in Hr as [[? _] _]. }
  rewrite (insertWrite_eq s e behind Hp Hok He). fold p q.
  destruct (kept_out p (insertPending q) (wqSize p) e q) eqn:Hk.
  - exists q. split_and!; [by destruct s|done| |done|done|done]. intros Hi e' w Hw'. rewrite He in Hw'. injection Hw' as <- <-.
    by rewrite Hi in Hk.
  - destruct (insertPending q) eqn:Hi.
    { destruct (w_head _ _ _ _ _ Hq Hi) as (e' & w & Hw' & Hsz & _). rewrite He in Hw'. injection Hw' as <- <-.
      unfold kept_out in Hk. by rewrite (proj2 (Z.leb_le _ _) Hsz) in Hk. }
    destruct (enter_write_ok e behind Hq Hi He) as [Hw' Hwork].
    exists (enter_write s e behind). split_and!; [done|exact Hw'|done| |done|done]. by eexists.
Qed.
End Write.

(** Entering whatever waits. *)
Lemma enter_waiting s c d done :
  param_ok (param s) -> winv (param s) c d done (writeQueue s) ->
  exists q', match waitQueue (writeQueue s) with [] => mret tt | _ :: _ => insertWrite end s
             = Ok (tt, set_writeQueue q' s) /\
    winv (param s) c d done q' /\ w_blocked (param s) q' /\
    transferQueue (writeQueue s) `prefix_of` transferQueue q' /\ accepted q' = accepted (writeQueue s) /\
    write_work (param s) q' <= write_work (param s) (writeQueue s).
Proof.
  intros Hp Hq. destruct (waitQueue (writeQueue s)) as [|e w] eqn:Hw.
  - exists (writeQueue s). split_and!; [by destruct s|done| |done|done|done]. intros _ e w Hw'. by rewrite Hw in Hw'.
  - apply (insertWrite_ok s c d done Hp Hq). by rewrite Hw.
Qed.

(** A new request. *)
Definition req_ok (r : Req) : Prop := 0 <= req_size r < 2 ^ 62 /\ 0 <= req_addr r /\ req_addr r + req_size r < 2 ^ 64.
Definition entry_of (tick : Z) (r : Req) : FIFOEntry :=
  mkFIFOEntry true 0 (req_addr r) (req_size r) (req_buffer r) tick 0 0 (req_func r).

Lemma unentered_snoc b w e : (b = true -> w <> []) -> unentered b (w ++ [e]) = unentered b w ++ [e].
Proof. intros H. destruct b; [|done]. destruct w; [by destruct (H eq_refl)|done]. Qed.

Lemma with_wait_ok p c d done q r tick :
  winv p c d done q -> req_write r = true -> 0 < req_size r -> req_ok r ->
  winv p c d done (with_wait (waitQueue q ++ [entry_of tick r]) (accept r q)).
Proof.
  intros Hq Hr Hs (Hsz & Ha & Hf).
  assert (insertPending q = true -> waitQueue q <> []) as Hne.
  { intros Hi. by destruct (w_head _ _ _ _ _ Hq Hi) as (e & w & -> & _). }
  destruct Hq. constructor; cbn [with_wait accept transferQueue insertPending waitQueue usage capacity
    transferPending issued called accepted insertDone submitCompletion asked beginTransfer]; try done;
    rewrite ?unentered_snoc by done.
  - rewrite !app_assoc. rewrite (glue_snoc true _ _ (accepted q)); [|by rewrite <- app_assoc|done].
    unfold req_of. cbn. rewrite <- Hr. by destruct r.
  - apply Forall_app. split; [done|]. repeat constructor; cbn; lia.
  - intros Hi. destruct (w_head0 Hi) as (e & w & -> & H). by exists e, (w ++ [entry_of tick r]).
Qed.

Lemma dmaWrite_ok s c d done r :
  param_ok (param s) -> winv (param s) c d done (writeQueue s) -> w_blocked (param s) (writeQueue s) ->
  req_write r = true -> req_ok r ->
  exists q', dmaWrite r s = Ok (tt, set_writeQueue q' s) /\
    winv (param s) c d done q' /\ w_blocked (param s) q' /\ transferQueue (writeQueue s) `prefix_of` transferQueue q' /\
    accepted q' = accepted (writeQueue s) ++ (if req_size r =? 0 then [] else [r]).
Proof.
  intros Hp Hq Hb Hr Hok. unfold dmaWrite. destruct (Z.eqb_spec (req_size r) 0).
  - exists (writeQueue s). rewrite app_nil_r. split_and!; try done. by destruct s.
  - set (q1 := with_wait (waitQueue (writeQueue s) ++ [entry_of (now s) r]) (accept r (writeQueue s))).
    destruct (insertWrite_ok (set_writeQueue q1 s) c d done Hp) as (q' & He & Hi & Hbl & Hpre & Hacc & _).
    + apply with_wait_ok; try done. destruct Hok. lia.
    + unfold q1. cbn. intros H. by apply app_eq_nil in H as [_ H].
    + exists q'. split_and!; [|done|done|done|done].
      cbv [mbind M_bind get upd_w modify]. cbn [writeQueue set_writeQueue].
      change (insertWrite (set_writeQueue q1 s) = Ok (tt, set_writeQueue q' (set_writeQueue q1 s))) in He.
      etransitivity; [|exact He]. by destruct s.
Qed.

(** ** The read side of the FIFO: its invariant *)

(** An entry without its id and its times. *)
Definition core (e : FIFOEntry) : bool * Z * Z * option Z * Z := (last e, addr e, size e, buffer e, func e).

(** The events that the reads in the queue can still cause. *)
Definition read_work (p : FIFOParam) (q : Queue) : Z :=
  4 * all_units p (unentered (transferPending q) (waitQueue q)) + (if asked q then 1 else 0) +
  tick_count (beginTransfer q) + 2 * vlen (transferQueue q) -
  (if insertPending q && negb (some_tick (insertDone q)) then 1 else 0).

(** The read queue between two operations, with the counter of ids.  [done]: the
    pieces that have left the FIFO.  [a]: the answer to a transfer is being
    handled; [c]: the front piece is being completed; [d]: its function was called. *)
Record rinv (p : FIFOParam) (cnt : Z) (a c d : bool) (done : list FIFOEntry) (q : Queue) : Prop := {
  r_glue : glue false (done ++ transferQueue q ++ unentered (transferPending q) (waitQueue q)) = Some (accepted q);
  r_rest : Forall (fun e => entry_ok e /\ last e = true) (unentered (transferPending q) (waitQueue q));
  r_pieces : Forall entry_ok (transferQueue q);
  r_usage : usage q = u64 (pieces_size p (transferQueue q));
  r_cap : capacity q = rqSize p;
  r_issued : core <$> issued q = core <$> done ++ transferQueue q;
  r_called : (called q).*2 = finals (done ++ (if d then take 1 (transferQueue q) else []));
  r_head : transferPending q = true -> exists e w, waitQueue q = e :: w /\ csize p (size e) <= rqSize p /\ entry_ok e;
  r_ids : id <$> (done ++ transferQueue q) = u64 <$> seqZ 0 (vlen (done ++ transferQueue q));
  r_counter : cnt = u64 (vlen (done ++ transferQueue q));
  r_pend : transferPending q = a || asked q;
  r_one : a = true -> asked q = false;
  r_flags : d = true -> c = true;
  r_completing : c = true -> insertPending q = true /\ insertDone q = None /\ submitCompletion q = None;
  r_events : (insertPending q = false -> insertDone q = None /\ submitCompletion q = None) /\
             (insertDone q <> None -> submitCompletion q = None);
  r_front : insertPending q = true -> transferQueue q <> [];
  r_begin : beginTransfer q <> None -> ((if insertPending q then 1 else 0) < length (transferQueue q))%nat;
  r_idle : transferQueue q <> [] -> insertPending q = false -> beginTransfer q <> None;
}.

Definition r_blocked (p : FIFOParam) (q : Queue) : Prop :=
  transferPending q = false -> forall e w, waitQueue q = e :: w -> kept_out p false (rqSize p) e q = true.

(** What an operation of the queue leaves as it was. *)
Definition same_inserting (q q' : Queue) : Prop :=
  insertPending q' = insertPending q /\ insertDone q' = insertDone q /\ submitCompletion q' = submitCompletion q.

Section Read.
  Context (s : t) (a c d : bool) (done : list FIFOEntry).
  Context (Hp : param_ok (param s)).
Let p := param s.
Let q := readQueue s.

Lemma enter_read_ok e behind :
  rinv p (counter s) a c d done q -> transferPending q = false -> waitQueue q = e :: behind ->
  rinv p (u64 (counter s + 1)) a c d done (enter_read s e behind) /\ read_work p (enter_read s e behind) <= read_work p q.
Proof.
  intros Hq Hi Hw. pose proof (r_rest _ _ _ _ _ _ _ Hq) as Hr. pose proof (r_glue _ _ _ _ _ _ _ Hq) as Hg.
  rewrite Hi, Hw in Hr, Hg. cbn [unentered] in Hr, Hg.
  apply Forall_cons in Hr as [[He Hlast] Hr].
  pose proof (split_entry_ok p (rqSize p) e Hp (unit_r p Hp) He Hlast) as (Hx & Hsz & Hl & Hglue). cbv zeta in *.
  set (x := split_entry p (rqSize p) e) in *.
  assert (a = false /\ asked q = false) as [Ha Hask].
  { pose proof (r_pend _ _ _ _ _ _ _ Hq) as H. rewrite Hi in H. by destruct a, (asked q). }
  assert (vlen (done ++ transferQueue q ++ [with_id (counter s) x.1]) = vlen (done ++ transferQueue q) + 1) as Hlen.
  { rewrite app_assoc. unfold vlen. rewrite length_app. simpl. lia. }
  pose proof (vlen_nonneg (done ++ transferQueue q)) as Hnn.
  pose proof (units_split p (rqSize p) e Hp (unit_r p Hp) He) as Hu. fold x in Hu. split; cycle 1.
  { unfold read_work, enter_read. fold p q x. cbn [transferQueue transferPending waitQueue asked beginTransfer insertPending insertDone unentered tail].
    rewrite Hi, Hw, Hask. cbn [unentered]. rewrite all_units_app. change (all_units p (e :: behind)) with (units p e + all_units p behind).
    unfold vlen. rewrite length_app. cbn [length]. unfold sched_begin, tick_count. destruct (beginTransfer q); cbn [at_tick]; lia. }
  constructor; unfold enter_read; fold p; fold q; fold x; cbn [transferQueue insertPending waitQueue usage capacity
    transferPending issued called accepted insertDone submitCompletion asked beginTransfer unentered tail].
  - rewrite <- app_assoc. cbn [app]. rewrite <- Hg. rewrite !(app_assoc done).
    apply (glue_replace false (done ++ transferQueue q) behind e (with_id _ x.1) x.2). intros o. rewrite <- Hglue. done.
  - apply Forall_app. split; [exact Hl | exact Hr].
  - apply Forall_app. split; [exact (r_pieces _ _ _ _ _ _ _ Hq)|]. repeat constructor; apply Hx.
  - rewrite (r_usage _ _ _ _ _ _ _ Hq), u64_add_l, pieces_size_app. cbn. do 2 f_equal. lia.
  - apply (r_cap _ _ _ _ _ _ _ Hq).
  - rewrite app_assoc, !fmap_app. f_equal. rewrite <- fmap_app. apply (r_issued _ _ _ _ _ _ _ Hq).
  - rewrite (r_called _ _ _ _ _ _ _ Hq). destruct d eqn:Hd; [|done].
    destruct (r_completing _ _ _ _ _ _ _ Hq (r_flags _ _ _ _ _ _ _ Hq eq_refl)) as [Ht _].
    pose proof (r_front _ _ _ _ _ _ _ Hq Ht). by destruct (transferQueue q).
  - intros _. do 2 eexists. split; [done|]. split; [exact Hsz | apply Hx].
  - rewrite Hlen, app_assoc, fmap_app, (r_ids _ _ _ _ _ _ _ Hq). rewrite seqZ_app by lia. rewrite fmap_app. f_equal.
    cbn [fmap list_fmap id with_id]. rewrite (r_counter _ _ _ _ _ _ _ Hq). done.
  - rewrite Hlen. rewrite (r_counter _ _ _ _ _ _ _ Hq). apply u64_add_l.
  - by rewrite Ha.
  - by rewrite Ha.
  - apply (r_flags _ _ _ _ _ _ _ Hq).
  - apply (r_completing _ _ _ _ _ _ _ Hq).
  - apply (r_events _ _ _ _ _ _ _ Hq).
  - intros _ H. by apply app_eq_nil in H as [_ H].
  - intros _. rewrite length_app. cbn [length]. destruct (insertPending q) eqn:Ht; [|lia].
    pose proof (r_front _ _ _ _ _ _ _ Hq Ht). destruct (transferQueue q); [done|]. simpl. lia.
  - intros _ _. unfold sched_begin. by destruct (beginTransfer q).
Qed.

(** The state after [transferRead]: nothing, or a piece with the next id has entered. *)
Definition read_moved (s' : t) : Prop :=
  s' = s \/
  exists y w q', s' = set_counter (u64 (counter s + 1)) (set_readQueue q' s) /\
    transferPending q = false /\ transferPending q' = true /\ waitQueue q' = y :: w /\
    transferQueue q' = transferQueue q ++ [y] /\ same_inserting q q' /\ accepted q' = accepted q /\
    read_work p q' <= read_work p q.

Lemma transferRead_ok :
  rinv p (counter s) a c d done q -> waitQueue q <> [] ->
  exists s', transferRead s = Ok (tt, s') /\ read_moved s' /\
    rinv p (counter s') a c d done (readQueue s') /\ r_blocked p (readQueue s').
Proof.
  intros Hq Hw. destruct (waitQueue q) as [|e behind] eqn:He; [done|].
  assert (entry_ok e) as Hok.
  { destruct (transferPending q) eqn:Hi.
    - destruct (r_head _ _ _ _ _ _ _ Hq Hi) as (e' & w & Hw' & _ & Hok). rewrite He in Hw'. by injection Hw' as <- <-.
    - pose proof (r_rest _ _ _ _ _ _ _ Hq) as Hr. rewrite Hi, He in Hr. by apply Forall_cons in Hr as [[? _] _]. }
  rewrite (transferRead_eq s e behind Hp Hok He). fold p q.
  destruct (kept_out p (transferPending q) (rqSize p) e q) eqn:Hk.
  - exists s. split_and!; [done|by left|done|]. intros Hi e' w Hw'. fold q in Hi, Hw'. rewrite He in Hw'. injection Hw' as <- <-.
    by rewrite Hi in Hk.
  - destruct (transferPending q) eqn:Hi.
    { destruct (r_head _ _ _ _ _ _ _ Hq Hi) as (e' & w & Hw' & Hsz & _). rewrite He in Hw'. injection Hw' as <- <-.
      unfold kept_out in Hk. by rewrite (proj2 (Z.leb_le _ _) Hsz) in Hk. }
    destruct (enter_read_ok e behind Hq Hi He) as [Hr' Hwork].
    eexists. split_and!; [done| |exact Hr'|done].
    right. do 3 eexists. split_and!; done.
Qed.
End Read.

(** Entering whatever waits. *)
Lemma transfer_waiting s a c d done :
  param_ok (param s) -> rinv (param s) (counter s) a c d done (readQueue s) ->
  exists s', match waitQueue (readQueue s) with [] => mret tt | _ :: _ => transferRead end s = Ok (tt, s') /\
    read_moved s s' /\ rinv (param s) (counter s') a c d done (readQueue s') /\ r_blocked (param s) (readQueue s').
Proof.
  intros Hp Hq. destruct (waitQueue (readQueue s)) as [|e w] eqn:Hw.
  - exists s. split_and!; [done|by left|done|]. intros _ e w Hw'. by rewrite Hw in Hw'.
  - apply (transferRead_ok s a c d done Hp Hq). by rewrite Hw.
Qed.

Lemma read_with_wait_ok p cnt a c d done q r tick :
  rinv p cnt a c d done q -> req_write r = false -> 0 < req_size r -> req_ok r ->
  rinv p cnt a c d done (with_wait (waitQueue q ++ [entry_of tick r]) (accept r q)).
Proof.
  intros Hq Hr Hs (Hsz & Ha & Hf).
  assert (transferPending q = true -> waitQueue q <> []) as Hne.
  { intros Hi. by destruct (r_head _ _ _ _ _ _ _ Hq Hi) as (e & w & -> & _). }
  destruct Hq. constructor; cbn [with_wait accept transferQueue insertPending waitQueue usage capacity
    transferPending issued called accepted insertDone submitCompletion asked beginTransfer]; try done;
    rewrite ?unentered_snoc by done.
  - rewrite !app_assoc. rewrite (glue_snoc false _ _ (accepted q)); [|by rewrite <- app_assoc|done].
    unfold req_of. cbn. rewrite <- Hr. by destruct r.
  - apply Forall_app. split; [done|]. repeat constructor; cbn; lia.
  - intros Hi. destruct (r_head0 Hi) as (e & w & -> & H). by exists e, (w ++ [entry_of tick r]).
Qed.

(** What the rest of a read operation relies on across [dmaRead]: the pieces on their
    way stay, one may come behind them when no transfer is asked for, and the
    entry being transferred stays in front. *)
Definition read_grown (s s' : t) : Prop :=
  now s' = now s /\ param s' = param s /\ unitLatency s' = unitLatency s /\ writeQueue s' = writeQueue s /\
  readCompletion s' = readCompletion s /\ same_inserting (readQueue s) (readQueue s') /\
  if transferPending (readQueue s) then
    transferPending (readQueue s') = true /\ transferQueue (readQueue s') = transferQueue (readQueue s) /\
    head (waitQueue (readQueue s')) = head (waitQueue (readQueue s))
  else
    if transferPending (readQueue s') then
      exists y, transferQueue (readQueue s') = transferQueue (readQueue s) ++ [y] /\ head (waitQueue (readQueue s')) = Some y
    else transferQueue (readQueue s') = transferQueue (readQueue s).

Lemma read_moved_grown s s' : read_moved s s' -> read_grown s s'.
Proof.
  intros [->|(y & w & q' & -> & Ht & Ht' & Hw & Hq & Hsame & _ & _)]; unfold read_grown.
  - split_and!; try done. destruct (transferPending (readQueue s)) eqn:Ht; [done|]. done.
  - cbn. split_and!; try done. rewrite Ht, Ht'. exists y. by rewrite Hw.
Qed.

Lemma read_moved_work s s' : read_moved s s' ->
  read_work (param s) (readQueue s') <= read_work (param s) (readQueue s) /\ writeQueue s' = writeQueue s.
Proof. intros [->|(y & w & q' & -> & _ & _ & _ & _ & _ & _ & H)]; done. Qed.

Lemma dmaRead_ok s a c d done r :
  param_ok (param s) -> rinv (param s) (counter s) a c d done (readQueue s) -> r_blocked (param s) (readQueue s) ->
  req_write r = false -> req_ok r ->
  exists s', dmaRead r s = Ok (tt, s') /\ read_grown s s' /\
    rinv (param s) (counter s') a c d done (readQueue s') /\ r_blocked (param s) (readQueue s') /\
    accepted (readQueue s') = accepted (readQueue s) ++ (if req_size r =? 0 then [] else [r]).
Proof.
  intros Hp Hq Hb Hr Hok. unfold dmaRead. destruct (Z.eqb_spec (req_size r) 0).
  - exists s. rewrite app_nil_r. split_and!; try done. apply read_moved_grown. by left.
  - set (q1 := with_wait (waitQueue (readQueue s) ++ [entry_of (now s) r]) (accept r (readQueue s))).
    destruct (transferRead_ok (set_readQueue q1 s) a c d done Hp) as (s' & He & Hm & Hi & Hbl).
    + apply read_with_wait_ok; try done. destruct Hok. lia.
    + unfold q1. cbn. intros H. by apply app_eq_nil in H as [_ H].
    + exists s'. split; [|split; [|split; [done|split; [done|]]]].
      * cbv [mbind M_bind get upd_r modify]. cbn [readQueue set_readQueue].
        exact He.
      * pose proof (read_moved_grown _ _ Hm) as Hg. unfold read_grown in *. 
        cbn [readQueue set_readQueue now param unitLatency writeQueue readCompletion] in Hg.
        unfold q1 in Hg. cbn [with_wait accept transferPending transferQueue waitQueue insertPending insertDone submitCompletion] in Hg.
        destruct Hg as (? & ? & ? & ? & ? & Hs & Hg). split_and!; try done.
        destruct (transferPending (readQueue s)) eqn:Ht; [|done]. destruct Hg as (? & ? & Hh). split_and!; try done.
        rewrite Hh. destruct (r_head _ _ _ _ _ _ _ Hq Ht) as (e & w & -> & _). done.
      * destruct Hm as [->|(y & w & q' & -> & _ & _ & _ & _ & _ & Hacc & _)]; [done|exact Hacc].
Qed.
