(* ===== verification/FifoSteps.v ===== *)
(** * Every event of the FIFO returns and keeps the invariants *)

From S2P Require Import Prelude Fifo FifoProof.

Import Fifo.

(** Both sides, with the flags of [winv] and [rinv]. *)
Record sides (cw dw : bool) (dnw : list FIFOEntry) (a c d : bool) (dnr : list FIFOEntry) (s : t) : Prop := {
  s_param : param_ok (param s);
  s_w : winv (param s) cw dw dnw (writeQueue s);
  s_wb : w_blocked (param s) (writeQueue s);
  s_r : rinv (param s) (counter s) a c d dnr (readQueue s);
  s_rb : r_blocked (param s) (readQueue s);
}.

(** What requests change: see [read_grown]; pieces may come behind those on their way up. *)
Definition grown (s s' : t) : Prop :=
  now s' = now s /\ param s' = param s /\ unitLatency s' = unitLatency s /\
  transferQueue (writeQueue s) `prefix_of` transferQueue (writeQueue s') /\
  readCompletion s' = readCompletion s /\ same_inserting (readQueue s) (readQueue s') /\
  if transferPending (readQueue s) then
    transferPending (readQueue s') = true /\ transferQueue (readQueue s') = transferQueue (readQueue s) /\
    head (waitQueue (readQueue s')) = head (waitQueue (readQueue s))
  else
    if transferPending (readQueue s') then
      exists y, transferQueue (readQueue s') = transferQueue (readQueue s) ++ [y] /\ head (waitQueue (readQueue s')) = Some y
    else transferQueue (readQueue s') = transferQueue (readQueue s).

Lemma grown_refl s : grown s s.
Proof. unfold grown. split_and!; try done. by destruct (transferPending (readQueue s)) eqn:H. Qed.

Lemma grown_trans s1 s2 s3 : grown s1 s2 -> grown s2 s3 -> grown s1 s3.
Proof.
  intros (N1 & P1 & U1 & W1 & C1 & (I1 & D1 & S1) & R1) (N2 & P2 & U2 & W2 & C2 & (I2 & D2 & S2) & R2).
  unfold grown. split_and!; try congruence; [by etransitivity | split_and!; congruence |].
  destruct (transferPending (readQueue s1)).
  - destruct R1 as (H1 & H2 & H3). rewrite H1 in R2. destruct R2 as (-> & H5 & H6). split_and!; congruence.
  - destruct (transferPending (readQueue s2)).
    + destruct R1 as (y & H1 & H2). destruct R2 as (H3 & H4 & H5). rewrite H3. exists y. split; congruence.
    + destruct (transferPending (readQueue s3)); [|congruence]. destruct R2 as (y & H1 & H2). exists y. by rewrite H1, R1.
Qed.

Lemma dma_ok cw dw dnw a c d dnr r s : sides cw dw dnw a c d dnr s -> req_ok r ->
  exists s', dma r s = Ok (tt, s') /\ sides cw dw dnw a c d dnr s' /\ grown s s'.
Proof.
  intros [Hp Hw Hwb Hr Hrb] Hok. unfold dma. destruct (req_write r) eqn:Hwr.
  - destruct (dmaWrite_ok s cw dw dnw r Hp Hw Hwb Hwr Hok) as (q' & -> & Hw' & Hwb' & Hpre & _).
    eexists. split; [done|]. split; [by constructor|]. unfold grown. cbn. split_and!; try done.
    by destruct (transferPending (readQueue s)) eqn:H.
  - destruct (dmaRead_ok s a c d dnr r Hp Hr Hrb Hwr Hok) as (s' & -> & Hg & Hr' & Hrb' & _).
    destruct Hg as (N & P & U & W & C & I & R).
    exists s'. split; [done|]. split; [constructor; rewrite ?P, ?W; done|]. unfold grown. rewrite W. split_and!; done.
Qed.

Lemma dma_list_ok cw dw dnw a c d dnr more s : sides cw dw dnw a c d dnr s -> Forall req_ok more ->
  exists s', iterM dma more s = Ok (tt, s') /\ sides cw dw dnw a c d dnr s' /\ grown s s'.
Proof.
  intros Hs Hok. revert s Hs. induction Hok as [|r more Hr _ IH]; intros s Hs.
  - exists s. split_and!; [done|done|apply grown_refl].
  - destruct (dma_ok cw dw dnw a c d dnr r s Hs Hr) as (s1 & He1 & Hs1 & Hg1).
    destruct (IH s1 Hs1) as (s2 & He2 & Hs2 & Hg2). exists s2. split_and!; [|done|by eapply grown_trans].
    unfold iterM in *. cbn [foldM]. unfold mbind, M_bind. rewrite He1. exact He2.
Qed.

(** ** The end of a write *)

(** The function of the front piece is called, and what it asks for is taken. *)
Lemma call_write_ok dnw a c d dnr x l more s :
  sides true false dnw a c d dnr s -> transferQueue (writeQueue s) = x :: l -> Forall req_ok more ->
  exists s', when (last x) (call_write x more) s = Ok (tt, s') /\ sides true true dnw a c d dnr s' /\ grown s s' /\
    (more = [] -> readQueue s' = readQueue s /\ write_work (param s) (writeQueue s') = write_work (param s) (writeQueue s)).
Proof.
  intros [Hp Hw Hwb Hr Hrb] Hq Hok. destruct (last x) eqn:Hl; cbn [when].
  - unfold call_write. cbv [mbind M_bind get upd_w modify].
    set (s1 := set_writeQueue (add_called (now s) (func x) (writeQueue s)) s).
    assert (sides true true dnw a c d dnr s1) as Hs1.
    { constructor; try done. cbn [s1 writeQueue set_writeQueue param]. destruct Hw. constructor; cbn [add_called transferQueue insertPending waitQueue usage capacity
        transferPending issued called accepted insertDone submitCompletion asked beginTransfer]; try done.
      rewrite fmap_app, w_called, Hq. cbn. rewrite app_nil_r. by rewrite finals_app, finals_cons, Hl. }
    destruct (dma_list_ok true true dnw a c d dnr more s1 Hs1 Hok) as (s' & He & Hs' & Hg).
    exists s'. split_and!; [exact He|done| |by intros ->; injection He as <-].
    eapply grown_trans; [|exact Hg]. unfold grown. cbn. split_and!; try done.
    by destruct (transferPending (readQueue s)) eqn:H.
  - exists s. split_and!; [done| |apply grown_refl|done]. constructor; try done. destruct Hw. constructor; try done.
    rewrite w_called, Hq. cbn. by rewrite app_nil_r, finals_app, finals_cons, Hl, app_nil_r.
Qed.

(** The front piece leaves. *)
Definition leave_write (p : FIFOParam) (q : Queue) : Queue :=
  let x := tail (transferQueue q) in
  let idle := match x, beginTransfer q with _ :: _, None => true | _, _ => false end in
  mkQueue (capacity q) (u64 (usage q - match transferQueue q with y :: _ => csize p (size y) | [] => 0 end)) (waitQueue q) x
    (insertDone q) (beginTransfer q) (submitCompletion q) (insertPending q) idle (idle || asked q) (accepted q)
    (issued q ++ (if idle then take 1 x else [])) (called q).

Lemma leave_write_ok p done q x l : winv p true true done q -> transferQueue q = x :: l ->
  winv p false false (done ++ [x]) (leave_write p q) /\ write_work p (leave_write p q) + 2 <= write_work p q.
Proof.
  intros Hq HT. split; cycle 1.
  { unfold write_work, leave_write. rewrite HT. cbn [tail transferQueue insertPending waitQueue submitCompletion beginTransfer].
    unfold vlen. cbn [length]. lia. }
  destruct Hq. destruct (proj1 w_one eq_refl) as [Hask Hsub].
  assert (transferPending q = true) as Ht by (by rewrite w_pend).
  rewrite HT in *. rewrite Ht in *. apply Forall_cons in w_pieces as [Hx Hl].
  set (idle := match l, beginTransfer q with _ :: _, None => true | _, _ => false end).
  constructor; unfold leave_write; rewrite ?HT; cbn [tail]; fold idle; cbn [transferQueue insertPending waitQueue usage capacity
    transferPending issued called accepted insertDone submitCompletion asked beginTransfer].
  - by rewrite <- app_assoc.
  - done.
  - done.
  - rewrite w_usage, u64_sub_l. f_equal. change (pieces_size p (x :: l)) with (csize p (size x) + pieces_size p l). lia.
  - done.
  - rewrite w_issued. by destruct idle; cbn; rewrite ?firstn_O.
  - rewrite w_called. cbn. by rewrite app_nil_r, firstn_O.
  - done.
  - done.
  - rewrite Hsub, Hask. cbn. by rewrite !orb_false_r.
  - split; [done|]. by rewrite Hsub.
  - done.
  - unfold idle. destruct l; [done|]. done.
  - intros Hb. specialize (w_begin Hb). simpl in w_begin. unfold idle. destruct l; simpl in *; [lia|].
    destruct (beginTransfer q); [lia|done].
  - unfold idle. intros Hne. destruct l; [done|]. by destruct (beginTransfer q).
Qed.

Lemma transferWriteDoneNext_ok dnw dnr more s :
  sides true false dnw false false false dnr s -> Forall req_ok more ->
  exists s' x, transferWriteDoneNext more s = Ok (tt, s') /\ sides false false (dnw ++ [x]) false false false dnr s' /\
    now s' = now s /\ param s' = param s /\ unitLatency s' = unitLatency s /\
    (exists s1, grown s s1 /\ readQueue s' = readQueue s1 /\ readCompletion s' = readCompletion s1) /\
    (more = [] -> readQueue s' = readQueue s /\ write_work (param s) (writeQueue s') + 2 <= write_work (param s) (writeQueue s)).
Proof.
  intros Hs Hok. pose proof (s_w _ _ _ _ _ _ _ _ Hs) as Hw. pose proof (w_front _ _ _ _ _ Hw) as Hf.
  rewrite (w_pend _ _ _ _ _ Hw) in Hf. specialize (Hf eq_refl).
  destruct (transferQueue (writeQueue s)) as [|x l] eqn:HT; [done|].
  destruct (call_write_ok dnw false false false dnr x l more s Hs HT Hok) as (s1 & He & Hs1 & Hg & Hmore).
  pose proof Hg as (HN & HP & HU & [l' HT'] & _).
  rewrite HT in HT'. cbn [app] in HT'. destruct Hs1 as [Hp1 Hw1 Hwb1 Hr1 Hrb1].
  pose proof (w_pieces _ _ _ _ _ Hw1) as Hpc. rewrite HT' in Hpc. apply Forall_cons in Hpc as [[Hx _] _].
  destruct (leave_write_ok _ _ _ x (l ++ l') Hw1 HT') as [Hlw Hwork].
  destruct (enter_waiting (set_writeQueue (leave_write (param s1) (writeQueue s1)) s1) false false (dnw ++ [x]) Hp1 Hlw)
    as (q' & He2 & Hw2 & Hb2 & _ & _ & Hwork2).
  exists (set_writeQueue q' s1), x. split; [|split_and!; [by constructor|done|done|done|by exists s1|]]; cycle 1.
  { intros Hm. destruct (Hmore Hm) as [HR HW]. cbn [readQueue writeQueue set_writeQueue param] in *. rewrite HP in *. split; [done|lia]. }
  unfold transferWriteDoneNext. cbv [mbind M_bind get lift]. rewrite HT. cbn [front]. rewrite He. rewrite <- HP.
  rewrite calcSize_eq by done. cbv [upd_w modify]. cbn [writeQueue set_writeQueue with_usage with_transferPending transferQueue beginTransfer fst].
  rewrite HT'. cbn [pop_front front]. cbn [waitQueue writeQueue set_writeQueue leave_write] in He2.
  etransitivity; [|etransitivity; [exact He2|by destruct s1]]. unfold leave_write. rewrite HT'. cbn [tail].
  destruct (l ++ l') as [|y k] eqn:Hk; [|destruct (beginTransfer (writeQueue s1)) eqn:Hb].
  all: cbn [writeQueue set_writeQueue with_transfer waitQueue with_usage with_transferPending orb take]; rewrite ?app_nil_r.
  all: cbv [mret M_ret transferWrite mbind M_bind get lift upd_w modify]; cbn; rewrite ?Hb; try reflexivity; rewrite <- Hb; reflexivity.
Qed.

(** ** The end of a read *)

Lemma call_read_ok dnw a dnr x l more s :
  sides false false dnw a true false dnr s -> transferQueue (readQueue s) = x :: l -> Forall req_ok more ->
  exists s', when (last x) (call_read x more) s = Ok (tt, s') /\ sides false false dnw a true true dnr s' /\ grown s s' /\
    (more = [] -> writeQueue s' = writeQueue s /\ read_work (param s) (readQueue s') = read_work (param s) (readQueue s)).
Proof.
  intros [Hp Hw Hwb Hr Hrb] Hq Hok. destruct (last x) eqn:Hl; cbn [when].
  - unfold call_read. cbv [mbind M_bind get upd_r modify].
    set (s1 := set_readQueue (add_called (now s) (func x) (readQueue s)) s).
    assert (sides false false dnw a true true dnr s1) as Hs1.
    { constructor; try done. cbn [s1 readQueue set_readQueue param]. destruct Hr. constructor; cbn [add_called transferQueue insertPending waitQueue usage capacity
        transferPending issued called accepted insertDone submitCompletion asked beginTransfer]; try done.
      rewrite fmap_app, r_called, Hq. cbn. rewrite app_nil_r. by rewrite finals_app, finals_cons, Hl. }
    destruct (dma_list_ok false false dnw a true true dnr more s1 Hs1 Hok) as (s' & He & Hs' & Hg).
    exists s'. split_and!; [exact He|done| |by intros ->; injection He as <-].
    eapply grown_trans; [|exact Hg]. unfold grown. cbn. split_and!; try done.
    by destruct (transferPending (readQueue s)) eqn:H.
  - exists s. split_and!; [done| |apply grown_refl|done]. constructor; try done. destruct Hr. constructor; try done.
    rewrite r_called, Hq. cbn. by rewrite app_nil_r, finals_app, finals_cons, Hl, app_nil_r.
Qed.

(** The next piece is put into the FIFO. *)
Definition start_insert (s : t) (q : Queue) (y : FIFOEntry) (k : list FIFOEntry) : Queue :=
  let tick := u64 (now s + latency (param s) (csize (param s) (size y))) in
  mkQueue (capacity q) (usage q) (waitQueue q) (with_times (now s) tick y :: k)
    (at_tick (now s) tick) (beginTransfer q) (submitCompletion q) true (transferPending q) (asked q) (accepted q)
    (issued q) (called q).

Lemma start_insert_ok s cnt a done q y k :
  rinv (param s) cnt a false false done q -> insertPending q = false -> transferQueue q = y :: k ->
  rinv (param s) cnt a false false done (start_insert s (with_beginTransfer None q) y k).
Proof.
  intros Hq Hi HT. destruct Hq. rewrite HT in *. destruct (proj1 r_events Hi) as [Hins Hsub].
  constructor; unfold start_insert; cbn [with_beginTransfer transferQueue insertPending waitQueue usage capacity
    transferPending issued called accepted insertDone submitCompletion asked beginTransfer]; try done.
  - rewrite <- r_glue. rewrite !glue_app. done.
  - apply Forall_cons in r_pieces as [Hy Hk]. constructor; [exact Hy | exact Hk].
  - rewrite r_issued, !fmap_app. done.
  - rewrite !fmap_app in *. etransitivity; [|etransitivity; [exact r_ids|]]; [done|].
    do 2 f_equal. unfold vlen. rewrite !length_app. done.
  - rewrite r_counter. f_equal. unfold vlen. rewrite !length_app. done.
Qed.

Lemma insertRead_eq s y k : param_ok (param s) -> transferQueue (readQueue s) = y :: k -> entry_ok y ->
  insertPending (readQueue s) = false -> insertDone (readQueue s) = None ->
  insertRead s = Ok (tt, set_readQueue (start_insert s (readQueue s) y k) s).
Proof.
  intros Hp HT [Hy _] Hi Hd. unfold insertRead. cbv [mbind M_bind get lift upd_r modify]. rewrite HT. cbn [front]. rewrite Hi.
  rewrite calcSize_eq by done. rewrite Hd. done.
Qed.

(** What is left when the front piece of the reads has gone. *)
Definition popped (s s' : t) : Prop :=
  now s' = now s /\ param s' = param s /\ unitLatency s' = unitLatency s /\ readCompletion s' = readCompletion s /\
  let q := readQueue s in
  let q' := readQueue s' in
  (if insertPending q' then insertDone q' <> None else True) /\
  let ids := tail (id <$> transferQueue q) in
  if transferPending q then
    transferPending q' = true /\ id <$> transferQueue q' = ids /\ head (waitQueue q') = head (waitQueue q)
  else
    if transferPending q' then
      exists y, id <$> transferQueue q' = ids ++ [id y] /\ head (waitQueue q') = Some y
    else id <$> transferQueue q' = ids.

(** The front piece leaves, and the next begins unless an event will begin it. *)
Definition leave_read (s : t) (q : Queue) : Queue :=
  let q1 := mkQueue (capacity q) (u64 (usage q - match transferQueue q with y :: _ => csize (param s) (size y) | [] => 0 end))
              (waitQueue q) (tail (transferQueue q)) (insertDone q) (beginTransfer q) (submitCompletion q) false
              (transferPending q) (asked q) (accepted q) (issued q) (called q) in
  match tail (transferQueue q), beginTransfer q with
  | y :: k, None => start_insert s q1 y k
  | _, _ => q1
  end.

Lemma leave_read_ok s cnt a done q x l :
  rinv (param s) cnt a true true done q -> transferQueue q = x :: l ->
  rinv (param s) cnt a false false (done ++ [x]) (leave_read s q) /\
  (if insertPending (leave_read s q) then insertDone (leave_read s q) <> None else True) /\
  id <$> transferQueue (leave_read s q) = id <$> l /\ read_work (param s) (leave_read s q) + 1 <= read_work (param s) q.
Proof.
  intros Hq HT. destruct Hq. destruct (r_completing eq_refl) as (Hi & Hins & Hsub).
  apply (and_assoc _ _ _), and_assoc. split; cycle 1.
  { unfold read_work, leave_read. rewrite HT, Hi, Hins. cbn [tail]. destruct l as [|y k]; [|destruct (beginTransfer q)];
      unfold start_insert; cbn; unfold vlen; cbn [length]; lia. }
  unfold leave_read. rewrite HT. cbn [tail].
  set (q1 := mkQueue _ _ _ _ _ _ _ _ _ _ _ _ _).
  rewrite HT in *. apply Forall_cons in r_pieces as [Hx Hlp].
  assert (forall o, (o = None <-> l = []) -> rinv (param s) cnt a false false (done ++ [x]) (with_beginTransfer o q1)) as Hq1.
  { intros o Ho. constructor; unfold q1; cbn [with_beginTransfer transferQueue insertPending waitQueue usage capacity
      transferPending issued called accepted insertDone submitCompletion asked beginTransfer]; try done.
    - by rewrite <- app_assoc.
    - rewrite r_usage, u64_sub_l. f_equal. change (pieces_size (param s) (x :: l)) with (csize (param s) (size x) + pieces_size (param s) l). lia.
    - by rewrite <- app_assoc.
    - rewrite r_called. cbn. by rewrite app_nil_r, firstn_O.
    - by rewrite <- app_assoc.
    - by rewrite <- app_assoc.
    - intros Hb. destruct l; [by destruct Hb; apply Ho | simpl; lia].
    - intros Hne _ Hb. by apply Hne, Ho. }
  destruct l as [|y k].
  - assert (beginTransfer q = None) as Hb.
    { destruct (beginTransfer q); [|done]. rewrite Hi in r_begin. by specialize (r_begin ltac:(done)); simpl in r_begin; lia. }
    specialize (Hq1 None ltac:(done)). unfold q1, with_beginTransfer in *. cbn in *. rewrite Hb in *. split_and!; done.
  - destruct (beginTransfer q) as [z|] eqn:Hb.
    + specialize (Hq1 (Some z) ltac:(done)). unfold q1, with_beginTransfer in *. cbn in *. split_and!; done.
    + pose proof (start_insert_ok s cnt a (done ++ [x]) (with_beginTransfer (Some 0) q1) y k (Hq1 (Some 0) ltac:(done)) eq_refl eq_refl) as H.
      split_and!; [exact H|done|done].
Qed.

Lemma leave_read_wait s q : transferPending (leave_read s q) = transferPending q /\ waitQueue (leave_read s q) = waitQueue q.
Proof. unfold leave_read. destruct (tail (transferQueue q)); [done|]. by destruct (beginTransfer q). Qed.

(** The operations between the call and the next transfer. *)
Lemma leave_read_run s x l : transferQueue (readQueue s) = x :: l -> param_ok (param s) -> Forall entry_ok l ->
  insertDone (readQueue s) = None ->
  (upd_r (fun q => with_usage (u64 (usage q - (csize (param s) (size x), size x <? transferUnit (param s)).1)) q);;
   upd_r (with_insertPending false);;
   s ← get;
   l ← lift (pop_front (transferQueue (readQueue s)));
   upd_r (with_transfer l);;
   (match l, beginTransfer (readQueue s) with
    | _ :: _, None => insertRead
    | _, _ => mret tt
    end);;
   s ← get;
   match waitQueue (readQueue s) with [] => mret tt | _ :: _ => transferRead end) s
  = match waitQueue (readQueue s) with [] => mret tt | _ :: _ => transferRead end (set_readQueue (leave_read s (readQueue s)) s).
Proof.
  intros HT Hp Hl Hd. cbv [mbind M_bind get lift upd_r modify].
  cbn [readQueue set_readQueue with_usage with_insertPending transferQueue beginTransfer fst]. rewrite HT. cbn [pop_front].
  unfold leave_read. rewrite HT. cbn [tail].
  destruct l as [|y k]; [|destruct (beginTransfer (readQueue s)) eqn:Hb].
  - done.
  - cbv [mret M_ret]. cbn. rewrite <- Hb. done.
  - apply Forall_cons in Hl as [Hy _]. rewrite (insertRead_eq _ y k) by done.
    cbn. unfold start_insert. cbn. rewrite Hb. done.
Qed.

Lemma popped_intro s s1 s' x l0 l1 q :
  grown s s1 -> transferQueue (readQueue s) = x :: l0 -> transferQueue (readQueue s1) = x :: l1 ->
  (if insertPending q then insertDone q <> None else True) -> id <$> transferQueue q = id <$> l1 ->
  transferPending q = transferPending (readQueue s1) -> waitQueue q = waitQueue (readQueue s1) ->
  read_grown (set_readQueue q s1) s' -> popped s s'.
Proof.
  intros (HN & HP & HU & _ & HC & _ & HR) HT HT1 Hev Hids Hpen Hw (HN' & HP' & HU' & _ & HC' & (HI' & HD' & _) & HR').
  cbn [now param unitLatency readCompletion readQueue set_readQueue] in *.
  unfold popped. split_and!; try congruence. { by rewrite HI', HD'. }
  rewrite HT, HT1 in HR. rewrite HT. cbn [fmap list_fmap tail]. rewrite Hpen, Hw in HR'.
  destruct (transferPending (readQueue s)).
  - destruct HR as (H1 & H2 & H3). injection H2 as ->. rewrite H1 in HR'. destruct HR' as (-> & -> & ->). done.
  - destruct (transferPending (readQueue s1)).
    + destruct HR as (y & H1 & H2). injection H1 as ->. destruct HR' as (-> & -> & ->). exists y. by rewrite Hids, fmap_app.
    + injection HR as ->. destruct (transferPending (readQueue s')).
      * destruct HR' as (y & -> & ->). exists y. by rewrite fmap_app, Hids.
      * by rewrite HR', Hids.
Qed.

Lemma insertReadDoneNext_ok dnw a dnr more s :
  sides false false dnw a true false dnr s -> Forall req_ok more ->
  exists s' x, insertReadDoneNext more s = Ok (tt, s') /\ sides false false dnw a false false (dnr ++ [x]) s' /\ popped s s' /\
    (more = [] -> writeQueue s' = writeQueue s /\ read_work (param s) (readQueue s') + 1 <= read_work (param s) (readQueue s)).
Proof.
  intros Hs Hok. pose proof (s_r _ _ _ _ _ _ _ _ Hs) as Hr. destruct (r_completing _ _ _ _ _ _ _ Hr eq_refl) as (Hi & _ & _).
  pose proof (r_front _ _ _ _ _ _ _ Hr Hi) as Hf.
  destruct (transferQueue (readQueue s)) as [|x l] eqn:HT; [done|].
  destruct (call_read_ok dnw a dnr x l more s Hs HT Hok) as (s1 & He & Hs1 & Hg & Hmore).
  pose proof Hg as (HN & HP & HU & _ & HC & _ & HR). rewrite HT in HR.
  destruct Hs1 as [Hp1 Hw1 Hwb1 Hr1 Hrb1].
  assert (exists l1, transferQueue (readQueue s1) = x :: l1) as [l1 HT1].
  { destruct (transferPending (readQueue s)); [destruct HR as (_ & -> & _); by eexists|].
    destruct (transferPending (readQueue s1)); [destruct HR as (y & -> & _); by eexists | rewrite HR; by eexists]. }
  pose proof (r_pieces _ _ _ _ _ _ _ Hr1) as Hpc. rewrite HT1 in Hpc. apply Forall_cons in Hpc as [[Hx _] Hpl].
  destruct (leave_read_ok s1 (counter s1) a dnr (readQueue s1) x l1 Hr1 HT1) as (Hlr & Hev & Hids & Hwork).
  destruct (transfer_waiting (set_readQueue (leave_read s1 (readQueue s1)) s1) a false false (dnr ++ [x]) Hp1 Hlr)
    as (s' & He2 & Hm & Hr2 & Hb2).
  exists s', x. split; [|split; [|split]].
  - unfold insertReadDoneNext. cbv [mbind M_bind get lift]. rewrite HT. cbn [front]. rewrite He. rewrite <- HP.
    rewrite calcSize_eq by done. destruct (r_completing _ _ _ _ _ _ _ Hr1 eq_refl) as (_ & Hd & _).
    etransitivity; [exact (leave_read_run s1 x l1 HT1 Hp1 Hpl Hd)|]. rewrite <- He2. cbn [readQueue set_readQueue].
    by rewrite (proj2 (leave_read_wait s1 (readQueue s1))).
  - apply read_moved_grown in Hm. destruct Hm as (_ & HP' & _ & HW' & _). cbn in HP', HW'. constructor; rewrite ?HP', ?HW'; done.
  - eapply popped_intro; [exact Hg|exact HT|exact HT1|exact Hev|exact Hids|apply leave_read_wait|apply leave_read_wait|by apply read_moved_grown].
  - intros Hmo. destruct (Hmore Hmo) as [HW HWk]. destruct (read_moved_work _ _ Hm) as [HRk HWq].
    cbn [param readQueue writeQueue set_readQueue] in *. rewrite HP in *. split; [congruence|lia].
Qed.
