(* ===== verification/FifoInv.v ===== *)
(** * The invariant of the FIFO *)

From S2P Require Import Prelude Fifo FifoProof FifoSteps.

Import Fifo.

(** The list of half finished reads.  [D]: the ids on their way whose transfer is
    done; only the last one can still be in transfer, and it is the waiting entry in front. *)
Definition transferring (q : Queue) (D : list Z) : Prop :=
  if transferPending q then exists y, head (waitQueue q) = Some y /\ id <$> transferQueue q = D ++ [id y]
  else id <$> transferQueue q = D.

(** The entries listed: those in [D] that have not been put into the FIFO; or the
    one piece that was put into it before its transfer is done. *)
Definition listed (q : Queue) (D rc : list Z) : Prop :=
  if insertPending q then
    match insertDone q, submitCompletion q with
    | Some _, _ => rc = D
    | None, Some _ => exists i, D = i :: rc
    | None, None => D = [] /\ transferPending q = true /\ exists i, rc = [i] /\ id <$> transferQueue q = [i]
    end
  else rc = D.

Definition rcinv (q : Queue) (rc : list Z) : Prop := exists D, transferring q D /\ listed q D rc.

Record finv (dnw dnr : list FIFOEntry) (s : t) : Prop := {
  f_sides : sides false false dnw false false false dnr s;
  f_rc : rcinv (readQueue s) (read_id <$> readCompletion s);
}.

(** The events that can still happen without new requests; every event is one of them. *)
Definition work (s : t) : Z := write_work (param s) (writeQueue s) + read_work (param s) (readQueue s).
Definition progress (more : list Req) (s s' : t) : Prop :=
  now s' = now s /\ param s' = param s /\ (more = [] -> work s' < work s).

(** ** The list of half finished reads *)

Lemma find_none i l : i ∉ read_id <$> l -> find i l = None.
Proof.
  induction l as [|e l IH]; [done|]. simpl. intros [Hne Hl]%not_elem_of_cons.
  rewrite (proj2 (Z.eqb_neq _ _)) by done. by apply IH.
Qed.

Lemma find_first i l rest : read_id <$> l = i :: rest -> exists e, find i l = Some e /\ read_id e = i.
Proof. destruct l as [|e l]; [done|]. simpl. intros [= <- _]. rewrite Z.eqb_refl. by exists e. Qed.

Lemma erase_first i l rest : read_id <$> l = i :: rest -> read_id <$> erase i l = rest.
Proof. destruct l as [|e l]; [done|]. simpl. intros [= <- H]. by rewrite Z.eqb_refl. Qed.

Lemma set_dmaEndAt_ids i tick l : read_id <$> set_dmaEndAt i tick l = read_id <$> l.
Proof.
  induction l as [|e l IH]; [done|]. simpl. destruct (read_id e =? i); [done|]. exact (f_equal (cons (read_id e)) IH).
Qed.

Lemma rc_grown s s' : grown s s' -> rcinv (readQueue s) (read_id <$> readCompletion s) ->
  rcinv (readQueue s') (read_id <$> readCompletion s').
Proof.
  intros (_ & _ & _ & _ & -> & (HI & HD & HS) & HR) (D & HT & HL). exists D. unfold transferring, listed in *.
  rewrite HI, HD, HS. destruct (transferPending (readQueue s)) eqn:Ht.
  - destruct HR as (-> & -> & ->). done.
  - assert (match insertDone (readQueue s), submitCompletion (readQueue s) with None, None => insertPending (readQueue s) = false | _, _ => True end) as Hno.
    { destruct (insertPending (readQueue s)); [|by destruct (insertDone (readQueue s)), (submitCompletion (readQueue s))].
      destruct (insertDone (readQueue s)), (submitCompletion (readQueue s)); try done. by destruct HL as (_ & ? & _). }
    split.
    + destruct (transferPending (readQueue s')).
      * destruct HR as (y & HR & Hy). exists y. split; [done|]. by rewrite HR, fmap_app, HT.
      * by rewrite HR.
    + destruct (insertPending (readQueue s)); [|done].
      by destruct (insertDone (readQueue s)), (submitCompletion (readQueue s)).
Qed.

(** The front piece leaves, and its entry is taken off the list. *)
Lemma rc_popped s s' i D rc :
  popped s s' -> transferring (readQueue s) (i :: D) -> rc = D -> rcinv (readQueue s') rc.
Proof.
  intros (_ & _ & _ & _ & Hev & HR) HT ->. unfold transferring in HT.
  assert (forall q, (if insertPending q then insertDone q <> None else True) -> listed q D D) as Hl.
  { intros q. unfold listed. destruct (insertPending q); [|done]. by destruct (insertDone q). }
  exists D. split; [|by apply Hl]. unfold transferring. destruct (transferPending (readQueue s)).
  - destruct HT as (y & Hy & HT). rewrite HT in HR. cbn [app tail] in HR. destruct HR as (-> & HR & ->). by exists y.
  - rewrite HT in HR. cbn [tail] in HR. destruct (transferPending (readQueue s')); [|done].
    destruct HR as (y & HR & Hy). by exists y.
Qed.

(** The ids on their way are distinct. *)
Lemma ids_distinct p cnt a c d done q : rinv p cnt a c d done q -> vlen (transferQueue q) < 2 ^ 64 ->
  NoDup (id <$> transferQueue q).
Proof.
  intros Hq Hn. pose proof (r_ids _ _ _ _ _ _ _ Hq) as H. rewrite fmap_app in H.
  set (m := vlen done). assert (vlen (done ++ transferQueue q) = m + vlen (transferQueue q)) as Hm
    by (unfold m, vlen; rewrite length_app; lia).
  pose proof (vlen_nonneg done). pose proof (vlen_nonneg (transferQueue q)).
  rewrite Hm, seqZ_app, fmap_app in H by (unfold m; lia).
  apply app_inj_1 in H as [_ ->]; [|unfold m, vlen; rewrite !length_fmap, length_seqZ; lia].
  apply NoDup_fmap_2_strong; [|apply NoDup_seqZ]. intros x y Hx%elem_of_seqZ Hy%elem_of_seqZ Hxy.
  unfold u64 in Hxy. pose proof (Z.div_mod x (2 ^ 64)). pose proof (Z.div_mod y (2 ^ 64)).
  assert (x / 2 ^ 64 = y / 2 ^ 64 \/ x / 2 ^ 64 < y / 2 ^ 64 \/ y / 2 ^ 64 < x / 2 ^ 64) as [|[]] by lia; nia.
Qed.

(** ** The events of the writes *)

Lemma start_state p : param_ok p -> forall tick, finv [] [] (mk tick p (latency p (transferUnit p)) (Queue_make (rqSize p)) (Queue_make (wqSize p)) 0 []).
Proof.
  intros Hp tick. constructor; [|by exists []].
  constructor; try done; by constructor.
Qed.

Lemma WriteInserted_ok dnw dnr s : finv dnw dnr s -> insertDone (writeQueue s) <> None ->
  exists s', insertWriteDone s = Ok (tt, s') /\ finv dnw dnr s' /\ progress [] s s'.
Proof.
  intros [[Hp Hw Hwb Hr Hrb] Hrc] Hd. pose proof (w_ins _ _ _ _ _ Hw) as Hi.
  destruct (insertDone (writeQueue s)) as [z|] eqn:Hz; [|done]. simpl in Hi. symmetry in Hi.
  destruct (w_head _ _ _ _ _ Hw Hi) as (e & w & HW & _).
  set (q1 := with_insertPending false (with_wait w (with_insertDone None (writeQueue s)))).
  assert (winv (param s) false false dnw q1) as Hw1.
  { destruct Hw. rewrite Hi, HW in *. cbn [unentered tail] in *. constructor; cbn; done. }
  destruct (enter_waiting (set_writeQueue q1 s) false false dnw Hp Hw1) as (q' & He & Hw' & Hb' & _ & _ & Hwork).
  exists (set_writeQueue q' s). split_and!; [|constructor; [by constructor|done]|]; cycle 1.
  { split_and!; try done. intros _. unfold work. cbn [param writeQueue readQueue set_writeQueue] in *.
    assert (write_work (param s) q1 = write_work (param s) (writeQueue s) - 1); [|lia].
    unfold write_work, q1. cbn [with_insertPending with_wait with_insertDone insertPending waitQueue beginTransfer transferQueue submitCompletion].
    rewrite Hi, HW. cbn [unentered tail]. lia. }
  unfold insertWriteDone. cbv [mbind M_bind get lift upd_w modify]. cbn [writeQueue set_writeQueue with_insertDone waitQueue].
  rewrite HW. cbn [pop_front]. exact He.
Qed.

Lemma WriteBegins_ok dnw dnr s : finv dnw dnr s -> beginTransfer (writeQueue s) <> None ->
  exists s', beginTransferWrite s = Ok (tt, s') /\ finv dnw dnr s' /\ progress [] s s'.
Proof.
  intros [[Hp Hw Hwb Hr Hrb] Hrc] Hd. pose proof (w_begin _ _ _ _ _ Hw Hd) as Hn.
  destruct (transferQueue (writeQueue s)) as [|x l] eqn:HT; [simpl in Hn; lia|].
  unfold beginTransferWrite, transferWrite. cbv [mbind M_bind get lift upd_w modify].
  cbn [writeQueue set_writeQueue with_beginTransfer transferQueue transferPending]. rewrite HT. cbn [front].
  assert (forall q', transferQueue q' = transferQueue (writeQueue s) -> waitQueue q' = waitQueue (writeQueue s) ->
    insertPending q' = insertPending (writeQueue s) -> beginTransfer q' = None -> submitCompletion q' = submitCompletion (writeQueue s) ->
    progress [] s (set_writeQueue q' s)) as Hprog.
  { intros q' H1 H2 H3 H4 H5. split_and!; try done. intros _. unfold work, write_work.
    cbn [param writeQueue readQueue set_writeQueue]. rewrite H1, H2, H3, H4, H5. destruct (beginTransfer (writeQueue s)); [|done]. simpl. lia. }
  destruct (transferPending (writeQueue s)) eqn:Ht.
  - eexists. split; [done|]. split; [|by apply Hprog]. constructor; [|done]. constructor; try done.
    destruct Hw. rewrite HT, Ht in *. constructor; cbn; rewrite ?HT, ?Ht; done.
  - eexists. split; [done|]. split; [|by apply (Hprog (ask x (with_transferPending true (with_beginTransfer None (writeQueue s)))))].
    constructor; [|done]. constructor; try done.
    destruct Hw. rewrite HT, Ht in *. symmetry in w_pend. apply orb_false_iff in w_pend as [Hask Hsub].
    constructor; cbn; rewrite ?HT, ?Ht; try done.
    + by rewrite w_issued, app_nil_r.
    + split; [done|]. intros _. by destruct (submitCompletion (writeQueue s)).
Qed.

(** A transfer has been answered. *)
Lemma completing_write dnw dnr s : finv dnw dnr s -> forall q,
  (asked (writeQueue s) = true /\ q = with_asked false (writeQueue s)) \/
  (submitCompletion (writeQueue s) <> None /\ q = with_submit None (writeQueue s)) ->
  sides true false dnw false false false dnr (set_writeQueue q s).
Proof.
  intros [[Hp Hw Hwb Hr Hrb] Hrc] q Hq. constructor; try done; cbn [writeQueue set_writeQueue param].
  - destruct Hw. assert (transferPending (writeQueue s) = true) as Ht.
    { rewrite w_pend. destruct Hq as [[-> _]|[H _]]; [done|]. destruct (submitCompletion (writeQueue s)); [|done]. by destruct (asked _). }
    destruct Hq as [[Hask ->]|[Hsub ->]]; constructor; cbn; try done.
    + split; [intros _; split; [done|by apply w_one]|done].
    + split; [intros _; split; [|done]|done]. destruct (asked (writeQueue s)) eqn:Ha; [|done]. by destruct (proj2 w_one eq_refl).
  - destruct Hq as [[_ ->]|[_ ->]]; done.
Qed.

Lemma WriteAnswered_ok dnw dnr more s : finv dnw dnr s -> asked (writeQueue s) = true -> Forall req_ok more ->
  exists s' l, transferWriteDone more s = Ok (tt, s') /\ finv (dnw ++ l) dnr s' /\ progress more s s'.
Proof.
  intros Hs Ha Hok. pose proof (completing_write dnw dnr s Hs _ (or_introl (conj Ha eq_refl))) as Hs1.
  set (s1 := set_writeQueue (with_asked false (writeQueue s)) s) in *.
  pose proof (s_w _ _ _ _ _ _ _ _ Hs1) as Hw. pose proof (w_front _ _ _ _ _ Hw) as Hf.
  rewrite (w_pend _ _ _ _ _ Hw) in Hf. specialize (Hf eq_refl).
  destruct (transferQueue (writeQueue s1)) as [|x l] eqn:HT; [done|].
  unfold transferWriteDone. unfold mbind at 1, M_bind at 1, upd_w at 1, modify at 1. fold s1.
  cbv [mbind M_bind get lift]. rewrite HT. cbn [front]. destruct (_ <=? now s1).
  - destruct (transferWriteDoneNext_ok dnw dnr more s1 Hs1 Hok) as (s' & y & He & Hs' & HN & HP & _ & (s2 & Hg & HR & HC) & Hwork).
    exists s', [y]. split_and!; [done| |split_and!; try done; intros Hm; destruct (Hwork Hm) as [HRq Hwk]; unfold work; rewrite HP, HRq; cbn in *; unfold write_work in *; cbn in *; lia]. constructor; [done|]. rewrite HR, HC. apply (rc_grown s1 s2 Hg). apply (f_rc _ _ _ Hs).
  - assert (submitCompletion (writeQueue s) = None) as Hsub by exact (proj2 (proj1 (w_one _ _ _ _ _ Hw) eq_refl)).
    eexists _, []. split; [done|]. rewrite app_nil_r. split; [|split_and!; try done; intros _; unfold work, write_work; cbn; rewrite Hsub; cbn; lia].
    constructor; [|apply (f_rc _ _ _ Hs)].
    destruct Hs1 as [Hp1 Hw1 Hwb1 Hr1 Hrb1]. constructor; try done.
    destruct Hw1. constructor; cbn; try done.
Qed.

Lemma WriteSubmits_ok dnw dnr more s : finv dnw dnr s -> submitCompletion (writeQueue s) <> None -> Forall req_ok more ->
  exists s' l, submitWrite more s = Ok (tt, s') /\ finv (dnw ++ l) dnr s' /\ progress more s s'.
Proof.
  intros Hs Ha Hok. pose proof (completing_write dnw dnr s Hs _ (or_intror (conj Ha eq_refl))) as Hs1.
  set (s1 := set_writeQueue (with_submit None (writeQueue s)) s) in *.
  destruct (transferWriteDoneNext_ok dnw dnr more s1 Hs1 Hok) as (s' & y & He & Hs' & HN & HP & _ & (s2 & Hg & HR & HC) & Hwork).
  exists s', [y]. split_and!; [exact He| |split_and!; try done; intros Hm; destruct (Hwork Hm) as [HRq Hwk]; unfold work; rewrite HP, HRq; cbn in *;
    unfold write_work in *; cbn in *; destruct (submitCompletion (writeQueue s)); [cbn in *; lia|done]]. constructor; [done|]. rewrite HR, HC. apply (rc_grown s1 s2 Hg). apply (f_rc _ _ _ Hs).
Qed.

(** ** The events of the reads *)

Lemma ReadBegins_ok dnw dnr s : finv dnw dnr s -> beginTransfer (readQueue s) <> None ->
  exists s', beginTransferRead s = Ok (tt, s') /\ finv dnw dnr s' /\ progress [] s s'.
Proof.
  intros [[Hp Hw Hwb Hr Hrb] Hrc] Hd. pose proof (r_begin _ _ _ _ _ _ _ Hr Hd) as Hn.
  destruct (transferQueue (readQueue s)) as [|x l] eqn:HT; [simpl in Hn; lia|].
  unfold beginTransferRead. unfold mbind, M_bind, upd_r at 1, modify at 1.
  set (s1 := set_readQueue (with_beginTransfer None (readQueue s)) s).
  destruct (insertPending (readQueue s)) eqn:Hi.
  - exists s1. split; [|split].
    + unfold insertRead. cbv [mbind M_bind get lift]. cbn [s1 readQueue set_readQueue with_beginTransfer transferQueue insertPending].
      by rewrite HT, Hi.
    + constructor; [|done]. constructor; try done. destruct Hr. rewrite HT, Hi in *. constructor; cbn; rewrite ?HT, ?Hi; done.
    + split_and!; try done. intros _. unfold work, read_work. cbn. destruct (beginTransfer (readQueue s)); [cbn; lia|done].
  - destruct (proj1 (r_events _ _ _ _ _ _ _ Hr) Hi) as [Hins Hsub].
    pose proof (r_pieces _ _ _ _ _ _ _ Hr) as Hpc. rewrite HT in Hpc. apply Forall_cons in Hpc as [Hx _].
    exists (set_readQueue (start_insert s1 (readQueue s1) x l) s1).
    split; [exact (insertRead_eq s1 x l Hp HT Hx Hi Hins)|]. split; cycle 1.
    { split_and!; try done. intros _. unfold work, read_work, start_insert. cbn. rewrite Hi, HT. unfold vlen. cbn [length andb].
      destruct (beginTransfer (readQueue s)); [cbn; lia|done]. }
    constructor.
    + constructor; try done. by apply (start_insert_ok s1 _ _ _ (readQueue s)).
    + destruct Hrc as (D & HD & HL). exists D. unfold transferring, listed in *. rewrite Hi in HL. rewrite HT in HD. done.
Qed.

(** The piece in front has been put into the FIFO, or its last event has fired. *)
Lemma completing_read p cnt a dnr q : rinv p cnt a false false dnr q -> insertPending q = true ->
  rinv p cnt a true false dnr (with_insertDone None (with_submit None q)).
Proof. intros Hq Hi. destruct Hq. constructor; cbn; rewrite ?Hi in *; done. Qed.

Lemma insertReadDoneMerge_ok dnw a dnr more s comp rest :
  sides false false dnw a true false dnr s -> Forall req_ok more ->
  read_id <$> readCompletion s = read_id comp :: rest ->
  exists s' l, insertReadDoneMerge comp more s = Ok (tt, s') /\ sides false false dnw a false false (dnr ++ l) s' /\
    now s' = now s /\ param s' = param s /\
    (more = [] -> writeQueue s' = writeQueue s /\ read_work (param s) (readQueue s') <= read_work (param s) (readQueue s)) /\
    read_id <$> readCompletion s' = rest /\
    ((exists s1, popped s s1 /\ readQueue s' = readQueue s1) \/
     (exists tick, readQueue s' = with_submit (Some tick) (readQueue s))).
Proof.
  intros Hs Hok Hrc. unfold insertReadDoneMerge. cbv [mbind M_bind get]. destruct (_ <=? now s).
  - destruct (insertReadDoneNext_ok dnw a dnr more s Hs Hok) as (s' & x & -> & Hs' & Hpop & Hwork).
    eexists _, [x]. split; [done|]. pose proof Hpop as (HN & HP & _ & HC & _). cbn [now set_completion readCompletion readQueue param writeQueue].
    rewrite HC. split_and!; [by destruct Hs'; constructor|done|done|intros Hm; destruct (Hwork Hm); split; [done|lia]|by apply erase_first|].
    left. by exists s'.
  - eexists _, []. split; [done|]. rewrite app_nil_r. split_and!; [|done|done|done|by apply erase_first|right; by eexists].
    destruct Hs as [Hp Hw Hwb Hr Hrb]. constructor; try done.
    pose proof (r_completing _ _ _ _ _ _ _ Hr eq_refl) as (Hi & Hd & Hsub).
    destruct Hr. constructor; cbn; try done. split; [|done]. by rewrite Hi.
Qed.

(** The list of half finished reads after a merge that found the front piece. *)
Lemma merged s s' i D rc : transferring (readQueue s) (i :: D) -> rc = D ->
  insertPending (readQueue s) = true -> insertDone (readQueue s) = None ->
  ((exists s1, popped s s1 /\ readQueue s' = readQueue s1) \/
   (exists tick, readQueue s' = with_submit (Some tick) (readQueue s))) ->
  rcinv (readQueue s') rc.
Proof.
  intros HT -> Hi Hd [(s1 & Hpop & ->)|(tick & ->)].
  - by eapply rc_popped.
  - exists (i :: D). split; [exact HT|]. unfold listed. cbn. rewrite Hi, Hd. by exists i.
Qed.

Lemma ReadInserted_ok dnw dnr more s : finv dnw dnr s -> insertDone (readQueue s) <> None -> Forall req_ok more ->
  exists s' l, insertReadDone more s = Ok (tt, s') /\ finv dnw (dnr ++ l) s' /\ progress more s s'.
Proof.
  intros [[Hp Hw Hwb Hr Hrb] (D & HD & HL)] Hd Hok.
  assert (insertPending (readQueue s) = true) as Hi.
  { destruct (insertPending (readQueue s)) eqn:Hi; [done|]. by destruct (proj1 (r_events _ _ _ _ _ _ _ Hr) Hi). }
  pose proof (proj2 (r_events _ _ _ _ _ _ _ Hr) Hd) as Hsub. pose proof (r_front _ _ _ _ _ _ _ Hr Hi) as Hf.
  destruct (transferQueue (readQueue s)) as [|x l] eqn:HT; [done|].
  pose proof (completing_read _ _ _ _ _ Hr Hi) as Hc.
  assert (with_insertDone None (with_submit None (readQueue s)) = with_insertDone None (readQueue s)) as Heq
    by (destruct (readQueue s); cbn in *; by rewrite Hsub).
  rewrite Heq in Hc. set (s1 := set_readQueue (with_insertDone None (readQueue s)) s).
  assert (sides false false dnw false true false dnr s1) as Hs1 by (by constructor).
  assert (read_work (param s) (readQueue s1) = read_work (param s) (readQueue s) - 1) as Hstep.
  { unfold read_work. cbn. rewrite Hi. destruct (insertDone (readQueue s)); [cbn; lia|done]. }
  unfold listed in HL. rewrite Hi in HL. destruct (insertDone (readQueue s)) as [z|] eqn:Hz; [|done].
  unfold insertReadDone. unfold mbind at 1, M_bind at 1, upd_r at 1, modify at 1. fold s1.
  cbv [mbind M_bind get lift]. change (transferQueue (readQueue s1)) with (transferQueue (readQueue s)). rewrite HT. cbn [front].
  change (readCompletion s1) with (readCompletion s). destruct D as [|i D].
  - (* the transfer is not done *)
    apply fmap_nil_inv in HL. rewrite HL. cbn [find].
    assert (forall l', progress more s (set_completion l' s1)) as Hprog.
    { intros l'. split_and!; try done. intros _. unfold work.
      change (param (set_completion l' s1)) with (param s). change (writeQueue (set_completion l' s1)) with (writeQueue s).
      change (readQueue (set_completion l' s1)) with (readQueue s1). lia. }
    eexists _, []. split; [done|]. rewrite app_nil_r. split; [|apply Hprog].
    unfold transferring in HD. rewrite HT in HD. destruct (transferPending (readQueue s)) eqn:Ht; [|done].
    destruct HD as (y & Hy & HD). cbn in HD. constructor.
    + constructor; try done. destruct Hc. constructor; try done.
    + exists []. unfold transferring, listed. cbn. rewrite Ht, Hi, HT, Hsub. split; [by exists y|].
      split_and!; try done. exists (id x). injection HD as Hx Hl. apply fmap_nil_inv in Hl as ->. done.
  - assert (id x = i) as ->.
    { unfold transferring in HD. rewrite HT in HD. destruct (transferPending (readQueue s)); [destruct HD as (y & _ & HD)|]; by injection HD. }
    destruct (find_first i (readCompletion s) D HL) as (comp & -> & Hid).
    destruct (insertReadDoneMerge_ok dnw false dnr more s1 comp D Hs1 Hok) as (s' & l' & He & Hs' & HN & HP & Hwork & HC & Hor).
    { change (readCompletion s1) with (readCompletion s). by rewrite HL, Hid. }
    exists s', l'. split_and!; [exact He| |split_and!; try done; intros Hm; destruct (Hwork Hm) as [HWq Hwk]; unfold work; rewrite HP, HWq;
      change (param s1) with (param s) in *; change (writeQueue s1) with (writeQueue s) in *; lia].
    constructor; [done|]. apply (merged s1 s' i D); try done.
Qed.

Lemma ReadSubmits_ok dnw dnr more s : finv dnw dnr s -> submitCompletion (readQueue s) <> None -> Forall req_ok more ->
  exists s' l, submitRead more s = Ok (tt, s') /\ finv dnw (dnr ++ l) s' /\ progress more s s'.
Proof.
  intros [[Hp Hw Hwb Hr Hrb] (D & HD & HL)] Hsub Hok.
  assert (insertPending (readQueue s) = true) as Hi.
  { destruct (insertPending (readQueue s)) eqn:Hi; [done|]. by destruct (proj1 (r_events _ _ _ _ _ _ _ Hr) Hi). }
  assert (insertDone (readQueue s) = None) as Hd.
  { destruct (insertDone (readQueue s)) eqn:Hd; [|done]. by destruct (Hsub (proj2 (r_events _ _ _ _ _ _ _ Hr) ltac:(by rewrite Hd))). }
  pose proof (completing_read _ _ _ _ _ Hr Hi) as Hc.
  assert (with_insertDone None (with_submit None (readQueue s)) = with_submit None (readQueue s)) as Heq
    by (destruct (readQueue s); cbn in *; by rewrite Hd).
  rewrite Heq in Hc. set (s1 := set_readQueue (with_submit None (readQueue s)) s).
  assert (sides false false dnw false true false dnr s1) as Hs1 by (by constructor).
  unfold listed in HL. rewrite Hi, Hd in HL. destruct (submitCompletion (readQueue s)) as [z|] eqn:Hz; [|done]. destruct HL as [i HL].
  destruct (insertReadDoneNext_ok dnw false dnr more s1 Hs1 Hok) as (s' & x & He & Hs' & Hpop & Hwork).
  exists s', [x]. pose proof Hpop as (HN & HP & _ & HC & _). split_and!; [exact He| |].
  2: { split_and!; try done. intros Hm. destruct (Hwork Hm) as [HWq Hwk]. unfold work. rewrite HP, HWq. cbn in Hwk. unfold read_work in *. cbn in *. lia. }
  constructor; [done|]. rewrite HC. change (readCompletion s1) with (readCompletion s).
  eapply (rc_popped s1 s' i); [done| |done]. by rewrite HL in HD.
Qed.

(** The answered entry leaves the queue of those that wait. *)
Lemma pop_wait p cnt dnr q e w : rinv p cnt true false false dnr q -> waitQueue q = e :: w ->
  rinv p cnt false false false dnr (with_transferPending false (with_wait w q)).
Proof.
  intros Hq HW. destruct Hq. assert (transferPending q = true) as Ht by (by rewrite r_pend).
  rewrite Ht, HW in *. cbn [unentered tail] in *. constructor; cbn; try done. symmetry. by apply r_one.
Qed.

Lemma answered_tail dnw dnr s e w : sides false false dnw true false false dnr s -> waitQueue (readQueue s) = e :: w ->
  rcinv (with_transferPending false (with_wait w (readQueue s))) (read_id <$> readCompletion s) ->
  exists s', (s ← get; w ← lift (pop_front (waitQueue (readQueue s)));
              upd_r (with_wait w);; upd_r (with_transferPending false);;
              match w with [] => mret tt | _ :: _ => transferRead end) s = Ok (tt, s') /\
    finv dnw dnr s' /\ now s' = now s /\ param s' = param s /\ writeQueue s' = writeQueue s /\
    read_work (param s) (readQueue s') <= read_work (param s) (readQueue s).
Proof.
  intros [Hp Hw Hwb Hr Hrb] HW Hrc. pose proof (pop_wait _ _ _ _ e w Hr HW) as Hr1.
  set (s1 := set_readQueue (with_transferPending false (with_wait w (readQueue s))) s).
  destruct (transfer_waiting s1 false false false dnr Hp Hr1) as (s' & He & Hm & Hr' & Hrb').
  destruct (read_moved_work _ _ Hm) as [Hwork HWq]. exists s'. split; [|split; [|split; [|split; [|split]]]].
  - cbv [mbind M_bind get lift]. rewrite HW. cbn [pop_front]. exact He.
  - apply read_moved_grown in Hm. pose proof Hm as (HN & HP & HU & HWs & HC & HI & HR). constructor.
    + constructor; rewrite ?HP, ?HWq; done.
    + apply (rc_grown s1 s'); [|exact Hrc]. unfold grown. rewrite HWq. split_and!; done.
  - apply read_moved_grown in Hm. apply Hm.
  - apply read_moved_grown in Hm. apply Hm.
  - done.
  - etransitivity; [exact Hwork|]. unfold read_work. cbn. rewrite HW.
    rewrite (r_pend _ _ _ _ _ _ _ Hr). cbn. lia.
Qed.

(** Whether the answered piece has been put into the FIFO before. *)
Lemma find_answered q rc D e : transferPending q = true -> id <$> transferQueue q = D ++ [id e] -> NoDup (D ++ [id e]) ->
  listed q D (read_id <$> rc) ->
  (find (id e) rc = None /\
   forall q', insertPending q' = insertPending q -> insertDone q' = insertDone q -> submitCompletion q' = submitCompletion q ->
     listed q' (D ++ [id e]) ((read_id <$> rc) ++ [id e])) \/
  (insertPending q = true /\ insertDone q = None /\ submitCompletion q = None /\ D = [] /\ read_id <$> rc = [id e]).
Proof.
  intros Ht HD HND HL. apply NoDup_app in HND as (_ & HND & _).
  assert (id e ∉ D) as Hn by (intros H; apply (HND _ H); by apply list_elem_of_singleton).
  unfold listed in HL. destruct (insertPending q) eqn:Hi; [destruct (insertDone q) eqn:Hd; [|destruct (submitCompletion q) eqn:Hs]|].
  - left. split; [apply find_none; by rewrite HL|]. intros q' H1 H2 H3. unfold listed. by rewrite H1, H2, HL.
  - destruct HL as [i ->]. left. split; [apply find_none; by apply not_elem_of_cons in Hn as [_ ?]|].
    intros q' H1 H2 H3. unfold listed. rewrite H1, H2, H3. by exists i.
  - right. destruct HL as (-> & _ & i & Hrc & Hids). rewrite HD in Hids. cbn in Hids. injection Hids as <-. done.
  - left. split; [apply find_none; by rewrite HL|]. intros q' H1 H2 H3. unfold listed. by rewrite H1, HL.
Qed.

(** A piece that was put into the FIFO before its transfer was answered. *)
Lemma answered_inserted dnw dnr more s e w comp rest :
  sides false false dnw true true false dnr s -> Forall req_ok more -> waitQueue (readQueue s) = e :: w ->
  transferPending (readQueue s) = true -> id <$> transferQueue (readQueue s) = [id e] ->
  read_id <$> readCompletion s = read_id comp :: rest -> rest = [] ->
  exists s' l, (insertReadDoneMerge comp more;;
                s ← get; w ← lift (pop_front (waitQueue (readQueue s)));
                upd_r (with_wait w);; upd_r (with_transferPending false);;
                match w with [] => mret tt | _ :: _ => transferRead end) s = Ok (tt, s') /\
    finv dnw (dnr ++ l) s' /\ now s' = now s /\ param s' = param s /\
    (more = [] -> work s' <= work s).
Proof.
  intros Hs Hok HW Ht Hids Hrc ->. pose proof (s_r _ _ _ _ _ _ _ _ Hs) as Hr.
  destruct (r_completing _ _ _ _ _ _ _ Hr eq_refl) as (Hi & Hins & _).
  destruct (insertReadDoneMerge_ok dnw true dnr more s comp [] Hs Hok Hrc) as (s3 & l & He & Hs3 & HN & HP & Hwork & HC & Hor).
  assert (exists w3, waitQueue (readQueue s3) = e :: w3) as [w3 HW3].
  { destruct Hor as [(sp & (_ & _ & _ & _ & _ & HR) & ->)|(tick & ->)]; [|by exists w].
    rewrite Ht, HW in HR. destruct HR as (_ & _ & HR). cbn in HR. destruct (waitQueue (readQueue sp)); [done|]. injection HR as ->. by eexists. }
  destruct (answered_tail dnw (dnr ++ l) s3 e w3 Hs3 HW3) as (s' & He' & Hf' & HN' & HP' & HWq' & Hwork').
  - rewrite HC. destruct Hor as [(sp & (_ & _ & _ & _ & Hev & HR) & Heq)|(tick & Heq)].
    + rewrite Ht, Hids in HR. destruct HR as (_ & HR & _). exists []. unfold transferring, listed. rewrite Heq. cbn. split; [exact HR|].
      destruct (insertPending (readQueue sp)); [|done]. by destruct (insertDone (readQueue sp)).
    + exists [id e]. unfold transferring, listed. rewrite Heq. cbn. rewrite Hi, Hins. split; [exact Hids|]. by exists (id e).
  - exists s', l. split_and!; [|done|by rewrite HN', HN|by rewrite HP', HP|].
    + unfold mbind at 1, M_bind at 1. rewrite He. exact He'.
    + intros Hm. destruct (Hwork Hm) as [HWq Hwk]. unfold work. rewrite HP', HWq', HWq, HP in *. lia.
Qed.

Lemma ReadAnswered_ok dnw dnr more s : finv dnw dnr s -> asked (readQueue s) = true -> Forall req_ok more ->
  vlen (transferQueue (readQueue s)) < 2 ^ 64 ->
  exists s' l, transferReadDone more s = Ok (tt, s') /\ finv dnw (dnr ++ l) s' /\ progress more s s'.
Proof.
  intros [[Hp Hw Hwb Hr Hrb] (D & HD & HL)] Ha Hok Hlen.
  assert (transferPending (readQueue s) = true) as Ht by (rewrite (r_pend _ _ _ _ _ _ _ Hr), Ha; done).
  destruct (r_head _ _ _ _ _ _ _ Hr Ht) as (e & w & HW & _).
  unfold transferring in HD. rewrite Ht, HW in HD. destruct HD as (y & [= <-] & HD).
  pose proof (ids_distinct _ _ _ _ _ _ _ Hr Hlen) as HND. rewrite HD in HND.
  set (q1 := with_asked false (readQueue s)). set (s1 := set_readQueue q1 s).
  assert (read_work (param s) q1 = read_work (param s) (readQueue s) - 1) as Hstep
    by (unfold read_work; cbn; rewrite Ha; lia).
  assert (rinv (param s) (counter s) true false false dnr q1) as Hr1
    by (destruct Hr; constructor; cbn; rewrite ?Ht in *; done).
  unfold transferReadDone. unfold mbind at 1, M_bind at 1, upd_r at 1, modify at 1. fold q1. fold s1.
  unfold mbind at 1, M_bind at 1, get at 1. unfold mbind at 1, M_bind at 1, lift at 1.
  change (waitQueue (readQueue s1)) with (waitQueue (readQueue s)). rewrite HW. cbn [front].
  change (readCompletion s1) with (readCompletion s). change (now s1) with (now s).
  destruct (find_answered (readQueue s) (readCompletion s) D e Ht HD HND HL) as [[-> Hl]|(Hi & Hins & Hsub & -> & Hrc)].
  - unfold mbind at 1, M_bind at 1, modify at 1. set (rc := readCompletion s ++ _).
    destruct (answered_tail dnw dnr (set_completion rc s1) e w) as (s' & He & Hf & HN & HP & HWq & Hwork); [by constructor|done| |].
    + exists (D ++ [id e]). split; [exact HD|]. unfold rc. cbn [readCompletion set_completion]. rewrite fmap_app. by apply Hl.
    + exists s', []. rewrite app_nil_r. split_and!; try done. split_and!; try done. intros _. unfold work. rewrite HP, HWq.
      change (param (set_completion rc s1)) with (param s) in *. change (writeQueue (set_completion rc s1)) with (writeQueue s) in *.
      change (readQueue (set_completion rc s1)) with q1 in *. lia.
  - destruct (find_first (id e) (readCompletion s) [] Hrc) as (comp & -> & Hid).
    set (s2 := set_completion (set_dmaEndAt (id e) (now s) (readCompletion s)) s1).
    destruct (answered_inserted dnw dnr more s2 e w (mkReadEntry (read_id comp) (read_insertEndAt comp) (now s) (read_latency comp)) [])
      as (s' & l & He & Hf & HN & HP & Hwork); try done.
    + constructor; try done. pose proof (completing_read _ _ _ _ _ Hr1 Hi) as Hc. cbn [s2 s1 readQueue set_completion set_readQueue param counter].
      replace q1 with (with_insertDone None (with_submit None q1)); [done|].
      unfold q1. destruct (readQueue s); cbn in *; by rewrite Hins, Hsub.
    + cbn [s2 readCompletion set_completion read_id]. by rewrite set_dmaEndAt_ids, Hrc, Hid.
    + exists s', l. split_and!; [|done|split_and!; try done].
      * etransitivity; [|exact He]. done.
      * intros Hm. specialize (Hwork Hm). unfold work in *. rewrite HP in *. change (param s2) with (param s) in *.
        change (writeQueue s2) with (writeQueue s) in *. change (readQueue s2) with q1 in *. lia.
Qed.
