(* ===== verification/FifoTheorems.v ===== *)
(** * util/fifo.cc: requests are served in order, and the FIFO runs dry *)

From S2P Require Import Prelude Fifo FifoProof FifoSteps FifoInv.

Import Fifo.

(** The requests an event brings. *)
Definition asks (e : Event) : list Req :=
  match e with
  | Request r => [r]
  | WriteAnswered more | WriteSubmits more | ReadInserted more | ReadAnswered more | ReadSubmits more => more
  | WriteInserted | WriteBegins | ReadBegins => []
  end.

(** Requests in the address space, and a queue that fits the memory. *)
Definition admissible (e : Event) (s : t) : Prop :=
  Forall req_ok (asks e) /\ vlen (transferQueue (readQueue s)) < 2 ^ 64.

Definition ticks (s : t) : list Z :=
  omap (fun o => o) [insertDone (readQueue s); beginTransfer (readQueue s); submitCompletion (readQueue s);
           insertDone (writeQueue s); beginTransfer (writeQueue s); submitCompletion (writeQueue s)].

(** An event is handled, or time passes up to the next scheduled tick. *)
Inductive step : t -> t -> Prop :=
  | step_event e s s' : enabled e s -> admissible e s -> handle e s = Ok (tt, s') -> step s s'
  | step_time n s : now s <= n -> Forall (fun u => n <= u) (ticks s) -> step s (set_now n s).

(** [n] events without new requests, and any passing of time. *)
Inductive drains : nat -> t -> t -> Prop :=
  | drains_refl s : drains 0 s s
  | drains_event n e s s' s'' : enabled e s -> admissible e s -> asks e = [] -> handle e s = Ok (tt, s') ->
      drains n s' s'' -> drains (S n) s s''
  | drains_time n k s s' : now s <= k -> Forall (fun u => k <= u) (ticks s) -> drains n (set_now k s) s' -> drains n s s'.

(** Nothing is scheduled and no answer is waited for. *)
Definition idle (s : t) : Prop := ticks s = [] /\ asked (readQueue s) = false /\ asked (writeQueue s) = false.

(** The requests of a queue: their functions are called in the order of the requests, each after the last of
    its transfers was asked for; the transfers asked for are the pieces of the requests, in order. *)
Definition served_in_order (w : bool) (q : Queue) : Prop :=
  (called q).*2 `prefix_of` (req_func <$> accepted q) /\
  (called q).*2 `prefix_of` finals (issued q) /\
  exists rest, glue w (issued q ++ rest) = Some (accepted q).
Definition all_served (w : bool) (q : Queue) : Prop :=
  (called q).*2 = req_func <$> accepted q /\ glue w (issued q) = Some (accepted q) /\ waitQueue q = [] /\ transferQueue q = [].

(** ** Every event *)

Lemma handle_ok e dnw dnr s : finv dnw dnr s -> enabled e s -> admissible e s ->
  exists s' dnw' dnr', handle e s = Ok (tt, s') /\ finv dnw' dnr' s' /\ (asks e = [] -> work s' < work s).
Proof.
  intros Hs He [Hok Hlen]. destruct e as [r| | |more|more|more| |more|more]; cbn [enabled handle asks] in *.
  - apply Forall_cons in Hok as [Hr _]. destruct Hs as [Hs Hrc].
    destruct (dma_ok _ _ _ _ _ _ _ r s Hs Hr) as (s' & -> & Hs' & Hg).
    exists s', dnw, dnr. split_and!; [done| |done]. constructor; [done|]. by eapply rc_grown.
  - destruct (WriteInserted_ok dnw dnr s Hs ltac:(by rewrite He)) as (s' & -> & Hs' & _ & _ & Hw). exists s', dnw, dnr. auto.
  - destruct (WriteBegins_ok dnw dnr s Hs ltac:(by rewrite He)) as (s' & -> & Hs' & _ & _ & Hw). exists s', dnw, dnr. auto.
  - destruct (WriteAnswered_ok dnw dnr more s Hs He Hok) as (s' & l & -> & Hs' & _ & _ & Hw). exists s', (dnw ++ l), dnr. auto.
  - destruct (WriteSubmits_ok dnw dnr more s Hs ltac:(by rewrite He) Hok) as (s' & l & -> & Hs' & _ & _ & Hw). exists s', (dnw ++ l), dnr. auto.
  - destruct (ReadInserted_ok dnw dnr more s Hs ltac:(by rewrite He) Hok) as (s' & l & -> & Hs' & _ & _ & Hw). exists s', dnw, (dnr ++ l). auto.
  - destruct (ReadBegins_ok dnw dnr s Hs ltac:(by rewrite He)) as (s' & -> & Hs' & _ & _ & Hw). exists s', dnw, dnr. auto.
  - destruct (ReadAnswered_ok dnw dnr more s Hs He Hok Hlen) as (s' & l & -> & Hs' & _ & _ & Hw). exists s', dnw, (dnr ++ l). auto.
  - destruct (ReadSubmits_ok dnw dnr more s Hs ltac:(by rewrite He) Hok) as (s' & l & -> & Hs' & _ & _ & Hw). exists s', dnw, (dnr ++ l). auto.
Qed.

Lemma set_now_ok n dnw dnr s : finv dnw dnr s -> finv dnw dnr (set_now n s).
Proof. intros [[Hp Hw Hwb Hr Hrb] Hrc]. constructor; [by constructor|done]. Qed.

Lemma fifo_step_ok s s' dnw dnr : finv dnw dnr s -> step s s' -> exists dnw' dnr', finv dnw' dnr' s'.
Proof.
  intros Hs Hst. revert Hs. destruct Hst as [e s1 s2 He Ha Hh|n s1 _ _]; intros Hs.
  - destruct (handle_ok e dnw dnr s1 Hs He Ha) as (s3 & dnw' & dnr' & Hh' & Hf & _). rewrite Hh in Hh'. injection Hh' as <-. eauto.
  - exists dnw, dnr. by apply set_now_ok.
Qed.

Lemma fifo_steps_ok s s' : rtc step s s' -> (exists dnw dnr, finv dnw dnr s) -> exists dnw dnr, finv dnw dnr s'.
Proof.
  induction 1 as [|s0 s1 s2 Hstep _ IH]; [done|]. intros (dnw & dnr & Hs). apply IH. by apply (fifo_step_ok s0 s1 dnw dnr).
Qed.

Lemma fifo_make_ok p tick s0 : param_ok p -> FIFO_make p tick = Ok s0 -> exists dnw dnr, finv dnw dnr s0.
Proof.
  intros Hp H0. unfold FIFO_make in H0. destruct (_ || _) in H0; [done|]. injection H0 as <-. exists [], []. by apply start_state.
Qed.

Lemma drains_ok n s s' : drains n s s' -> (exists dnw dnr, finv dnw dnr s) ->
  (exists dnw dnr, finv dnw dnr s') /\ Z.of_nat n + work s' <= work s.
Proof.
  induction 1 as [s|n e s s1 s2 He Ha Hno Hh _ IH|n k s s' _ _ _ IH]; intros (dnw & dnr & Hs).
  - split; [eauto|lia].
  - destruct (handle_ok e dnw dnr s Hs He Ha) as (s3 & dnw' & dnr' & Hh' & Hf & Hw).
    rewrite Hh in Hh'. injection Hh' as <-. destruct (IH ltac:(eauto)) as [H1 H2]. specialize (Hw Hno). split; [done|lia].
  - destruct (IH ltac:(exists dnw, dnr; by apply set_now_ok)) as [H1 H2]. split; [done|exact H2].
Qed.

Lemma work_nonneg dnw dnr s : finv dnw dnr s -> 0 <= work s.
Proof.
  intros [[Hp Hw _ Hr _] _]. unfold work.
  assert (0 <= write_work (param s) (writeQueue s)).
  { pose proof (all_units_nonneg _ _ Hp (Forall_impl _ _ _ (w_rest _ _ _ _ _ Hw) (fun e H => proj1 H))).
    pose proof (w_front _ _ _ _ _ Hw) as Hf. rewrite (w_pend _ _ _ _ _ Hw) in Hf. unfold write_work, tick_count, vlen.
    destruct (submitCompletion (writeQueue s)); [|destruct (insertPending _), (beginTransfer _); lia].
    destruct (transferQueue (writeQueue s)); [by rewrite orb_true_r in Hf; destruct Hf|].
    cbn [length]. destruct (insertPending _), (beginTransfer _); lia. }
  assert (0 <= read_work (param s) (readQueue s)); [|lia].
  pose proof (all_units_nonneg _ _ Hp (Forall_impl _ _ _ (r_rest _ _ _ _ _ _ _ Hr) (fun e H => proj1 H))).
  pose proof (r_front _ _ _ _ _ _ _ Hr) as Hf. unfold read_work, tick_count, vlen.
  destruct (insertPending (readQueue s)); [|destruct (asked _), (beginTransfer _); cbn; lia].
  destruct (transferQueue (readQueue s)); [by destruct Hf|].
  cbn [length]. destruct (asked _), (beginTransfer _), (some_tick _); cbn; lia.
Qed.

(** ** The queues *)

Lemma glue_core w l l' : core <$> l = core <$> l' -> glue w l = glue w l' /\ finals l = finals l'.
Proof.
  revert l'. induction l as [|e l IH]; intros [|e' l'] H; try done. injection H as H1 H2 H3 H4 H5 H6.
  destruct (IH l' H6) as [Hg Hf]. split.
  - unfold glue in *. cbn [foldr]. rewrite Hg. unfold glue1, follows, req_of. by rewrite H1, H2, H3, H4, H5.
  - by rewrite !finals_cons, Hf, H1, H5.
Qed.

Lemma prefix_finals w done rest rs : glue w (done ++ rest) = Some rs -> finals done `prefix_of` (req_func <$> rs).
Proof. intros H%glue_finals. rewrite <- H, finals_app. by eexists. Qed.

Lemma write_served p dnw q : winv p false false dnw q -> served_in_order true q.
Proof.
  intros Hq. destruct Hq. rewrite app_nil_r in w_called. unfold served_in_order. rewrite w_issued. split_and!.
  - rewrite w_called. by eapply prefix_finals.
  - rewrite w_called, finals_app. by eexists.
  - rewrite <- w_glue. destruct (transferPending q); [|rewrite app_nil_r; eauto].
    destruct (transferQueue q) as [|x l] eqn:HT; [by destruct w_front|]. cbn [take]. rewrite firstn_O.
    exists (l ++ unentered (insertPending q) (waitQueue q)). by rewrite <- !app_assoc.
Qed.

Lemma read_served p cnt dnr q : rinv p cnt false false false dnr q -> served_in_order false q.
Proof.
  intros Hq. destruct Hq. rewrite app_nil_r in r_called. destruct (glue_core false _ _ r_issued) as [_ Hf]. split_and!.
  - rewrite r_called. by eapply prefix_finals.
  - rewrite r_called, Hf, finals_app. by eexists.
  - exists (unentered (transferPending q) (waitQueue q)). rewrite <- r_glue, app_assoc.
    apply (glue_core false). by rewrite !(fmap_app core _ (unentered _ _)), r_issued.
Qed.

Lemma ticks_nil s : ticks s = [] ->
  insertDone (readQueue s) = None /\ beginTransfer (readQueue s) = None /\ submitCompletion (readQueue s) = None /\
  insertDone (writeQueue s) = None /\ beginTransfer (writeQueue s) = None /\ submitCompletion (writeQueue s) = None.
Proof.
  unfold ticks. destruct (insertDone (readQueue s)), (beginTransfer (readQueue s)), (submitCompletion (readQueue s)),
    (insertDone (writeQueue s)), (beginTransfer (writeQueue s)), (submitCompletion (writeQueue s)); done.
Qed.

(** Nothing is kept out of an empty FIFO. *)
Lemma empty_takes p cap e q : param_ok p -> usage q = u64 0 -> capacity q = cap -> cap < 2 ^ 62 ->
  kept_out p false cap e q = true -> entry_ok e -> False.
Proof.
  intros Hp Hu Hc Hcap Hk [Hs _]. unfold kept_out in Hk. cbn [orb] in Hk. apply andb_prop in Hk as [H1%Z.ltb_lt H2%Z.leb_le].
  pose proof (csize_bounds p (size e) Hp ltac:(lia)). rewrite Hu, (u64_small 0), Z.add_0_l, u64_small in H1 by lia. lia.
Qed.

Lemma write_idle p dnw q : param_ok p -> winv p false false dnw q -> w_blocked p q -> asked q = false ->
  insertDone q = None -> beginTransfer q = None -> submitCompletion q = None -> all_served true q.
Proof.
  intros Hp Hq Hb Ha Hi Hbt Hs. destruct Hq. rewrite Hi in w_ins. rewrite Ha, Hs in w_pend. cbn in w_ins, w_pend.
  symmetry in w_ins. rewrite w_ins, w_pend in *.
  assert (transferQueue q = []) as HT by (destruct (transferQueue q); [done|]; by destruct (w_idle ltac:(done) eq_refl)).
  rewrite HT in *. cbn [unentered] in *.
  assert (waitQueue q = []) as HW.
  { destruct (waitQueue q) as [|e w] eqn:HW; [done|]. apply Forall_cons in w_rest as [[He _] _]. exfalso.
    apply (empty_takes p (wqSize p) e q Hp); try done; [apply Hp|by eapply Hb]. }
  rewrite HW, !app_nil_r in *. unfold all_served. rewrite w_called, w_issued, w_glue.
  split_and!; try done. by apply (glue_finals true).
Qed.

Lemma read_idle p cnt dnr q rc : param_ok p -> rinv p cnt false false false dnr q -> r_blocked p q -> rcinv q rc -> asked q = false ->
  insertDone q = None -> beginTransfer q = None -> submitCompletion q = None -> all_served false q.
Proof.
  intros Hp Hq Hb (D & HD & HL) Ha Hi Hbt Hs. destruct Hq. rewrite Ha in r_pend. cbn in r_pend.
  assert (insertPending q = false) as Hip.
  { unfold listed in HL. rewrite Hi, Hs, r_pend in HL. destruct (insertPending q); [|done]. by destruct HL as (_ & ? & _). }
  rewrite Hip, r_pend in *.
  assert (transferQueue q = []) as HT by (destruct (transferQueue q); [done|]; by destruct (r_idle ltac:(done) eq_refl)).
  rewrite HT in *. cbn [unentered] in *.
  assert (waitQueue q = []) as HW.
  { destruct (waitQueue q) as [|e w] eqn:HW; [done|]. apply Forall_cons in r_rest as [[He _] _]. exfalso.
    apply (empty_takes p (rqSize p) e q Hp); try done; [apply Hp|by eapply Hb]. }
  rewrite HW, !app_nil_r in *. unfold all_served. rewrite r_called, (proj1 (glue_core false _ _ r_issued)), r_glue.
  split_and!; try done. by apply (glue_finals false).
Qed.

(** C3: From the constructor on, whatever is requested, whenever the interface above answers and whatever completion
    functions ask for while they are called, every event of the FIFO is handled without an error; each direction
    serves its requests in order: the functions are called in the order of the requests, each after the last
    transfer of its request was asked for, and the transfers are the pieces of the requests, without gap or
    overlap. *)
Theorem fifo_serves_in_order (p : FIFOParam) (tick : Z) (s0 s : t)
    (Hp : param_ok p) (H0 : FIFO_make p tick = Ok s0) (Hrun : rtc step s0 s) :
  (forall e, enabled e s -> admissible e s -> exists s', handle e s = Ok (tt, s')) /\
  served_in_order false (readQueue s) /\ served_in_order true (writeQueue s).
Proof.
  destruct (fifo_steps_ok s0 s Hrun (fifo_make_ok p tick s0 Hp H0)) as (dnw & dnr & Hs). split_and!.
  - intros e He Ha. destruct (handle_ok e dnw dnr s Hs He Ha) as (s' & _ & _ & Hh & _). by exists s'.
  - eapply read_served, (s_r _ _ _ _ _ _ _ _ (f_sides _ _ _ Hs)).
  - eapply write_served, (s_w _ _ _ _ _ _ _ _ (f_sides _ _ _ Hs)).
Qed.

(** C28: The FIFO runs dry: without new requests at most [work] events can happen (four for each transfer unit that
    has not entered, and those of the pieces on their way); when no event is scheduled and no answer waited for,
    every request has been transferred piece by piece and its function called. *)
Theorem fifo_runs_dry (p : FIFOParam) (tick : Z) (s0 s s' : t) (n : nat)
    (Hp : param_ok p) (H0 : FIFO_make p tick = Ok s0) (Hrun : rtc step s0 s) (Hdrain : drains n s s') :
  Z.of_nat n <= work s /\
  (idle s' -> all_served false (readQueue s') /\ all_served true (writeQueue s')).
Proof.
  pose proof (fifo_steps_ok s0 s Hrun (fifo_make_ok p tick s0 Hp H0)) as Hs.
  destruct (drains_ok n s s' Hdrain Hs) as [(dnw & dnr & Hs') Hn].
  pose proof (work_nonneg _ _ _ Hs'). destruct Hs' as [[Hpar Hw Hwb Hr Hrb] Hrc]. split; [lia|].
  intros (Ht & Har & Haw). destruct (ticks_nil s' Ht) as (R1 & R2 & R3 & W1 & W2 & W3). split.
  - by eapply read_idle.
  - by eapply write_idle.
Qed.
