(* ===== verification/Dma.v ===== *)
(** * hil/nvme/dma.cc: the data pointers of a command

    A command names host memory by a PRP list or by a scatter gather list.
    [PRPList] and [SGL] collect the regions, reading further lists from the host
    memory when the command points to some; [read] and [write] turn a range of
    the data into transfers of the interface below.

    A context that waits for a transfer is kept in the state until the data
    arrives; the host memory is a function from addresses to bytes. *)

From S2P Require Import Prelude.

(** A call of [dmaRead] or [dmaWrite] of the interface below; [None] is a null buffer. *)
Record DmaOp : Type := mkDmaOp { op_write : bool; op_addr : Z; op_size : Z; op_buffer : option Z }.

(** [DMAInitContext]: the list that was requested, and how much data is to be found. *)
Record DMAInitContext : Type := mkDMAInitContext { ctx_base : Z; ctx_totalSize : Z; ctx_currentSize : Z }.

(** [DMAContext]: the transfers a request waits for; [returned] counts the calls of its function. *)
Record DMAContext : Type := mkDMAContext { ctx_counter : Z; returned : Z }.

(** [commonDMAHandler] *)
Definition commonDMAHandler (c : DMAContext) : DMAContext :=
  let n := ctx_counter c - 1 in
  mkDMAContext n (if n =? 0 then returned c + 1 else returned c).

(** [*(uint64_t * )(buffer + i)]: eight bytes, the lowest first. *)
Fixpoint le_word (l : list Z) : Z :=
  match l with
  | [] => 0
  | b :: l' => b + 256 * le_word l'
  end.
Definition load64 (buffer : list Z) (i : Z) : res Z :=
  let l := take 8 (drop (Z.to_nat i) buffer) in
  if vlen l =? 8 then Ok (le_word l) else Err UB.

(** The bytes of the host memory a list is read from. *)
Definition fetch (mem : Z -> Z) (base size : Z) : list Z := (fun k => mem (u64 (base + k))) <$> seqZ 0 size.

Module PRPList.

(** [PRP] *)
Record PRP : Type := mkPRP { addr : Z; size : Z }.

(** [PRPList] with the members of [DMAInterface]: the contexts that wait for a
    list, the pending [immediateEvent], and the calls of [initFunction]. *)
Record t : Type := mk {
  prpList : list PRP;
  totalSize : Z;
  pagesize : Z;
  callCounter : Z;
  waiting : list DMAInitContext;
  immediateEvent : bool;
  initialized : Z;
}.

Definition set_list (l : list PRP) (s : t) : t :=
  mk l (totalSize s) (pagesize s) (callCounter s) (waiting s) (immediateEvent s) (initialized s).
Definition set_waiting (n : Z) (l : list DMAInitContext) (s : t) : t :=
  mk (prpList s) (totalSize s) (pagesize s) n l (immediateEvent s) (initialized s).
Definition set_event (b : bool) (s : t) : t :=
  mk (prpList s) (totalSize s) (pagesize s) (callCounter s) (waiting s) b (initialized s).
Definition call_init (s : t) : t :=
  mk (prpList s) (totalSize s) (pagesize s) (callCounter s) (waiting s) (immediateEvent s) (initialized s + 1).

Definition make (size pagesize : Z) : t := mk [] size pagesize 0 [] false 0.
Definition push_back (r : PRP) : M t unit := modify (fun s => set_list (prpList s ++ [r]) s).

Definition getPRPSize (pagesize addr : Z) : Z := pagesize - Z.land addr (pagesize - 1).

(** The transfer of the list goes to the interface below; its data arrives in [doRead]. *)
Definition getPRPListFromPRP (base size : Z) : M t unit :=
  modify (fun s => set_waiting (callCounter s + 1)
    (waiting s ++ [mkDMAInitContext base size (getPRPSize (pagesize s) base)]) s).

(** [PRPList(cfg, f, c, prp1, prp2, size)]; the state has the total and the page size. *)
Definition construct (prp1 prp2 : Z) : M t unit :=
  s ← get;
  let prp1Size := getPRPSize (pagesize s) prp1 in
  let prp2Size := getPRPSize (pagesize s) prp2 in
  let two :=
    push_back (mkPRP prp1 prp1Size);; push_back (mkPRP prp2 prp2Size);;
    if u64 (prp1Size + prp2Size) <? totalSize s then mpanic "prp_list: Invalid DPTR size" else mret true in
  let list :=
    push_back (mkPRP prp1 prp1Size);; getPRPListFromPRP prp2 (u64 (totalSize s - prp1Size));; mret false in
  immediate ←
    (if totalSize s <=? pagesize s then
       if totalSize s <=? prp1Size then push_back (mkPRP prp1 (totalSize s));; mret true else two
     else if totalSize s <=? u64 (pagesize s * 2) then
       if prp1Size =? pagesize s then two else list
     else list);
  when immediate (modify (set_event true)).

(** [PRPList(cfg, f, c, base, size, cont)] *)
Definition construct_base (base size : Z) (cont : bool) : M t unit :=
  if cont then push_back (mkPRP base size);; modify (set_event true)
  else getPRPListFromPRP base size.

(** The event of [immediateEvent]. *)
Definition immediate : M t unit := modify (fun s => call_init (set_event false s)).

(** The loop over a list that has arrived; [n] bounds the entries. *)
Fixpoint entries (n : nat) (i total : Z) (buffer : list Z) (currentSize : Z) : M t Z :=
  match n with
  | O => mret currentSize
  | S n =>
      listPRP ← lift (load64 buffer i);
      s ← get;
      let listPRPSize := getPRPSize (pagesize s) listPRP in
      let currentSize := u64 (currentSize + listPRPSize) in
      if listPRP =? 0 then mpanic "prp_list: Invalid PRP in PRP List"
      else
        push_back (mkPRP listPRP listPRPSize);;
        if total <=? currentSize then mret currentSize else entries n (i + 8) total buffer currentSize
  end.

(** [prpList.back().addr] with [prpList.pop_back()] *)
Definition pop_back : M t Z :=
  s ← get;
  match last (prpList s) with
  | Some r => modify (set_list (removelast (prpList s)));; mret (addr r)
  | None => fail UB
  end.

(** [doRead] of [getPRPListFromPRP] *)
Definition doRead (c : DMAInitContext) (buffer : list Z) : M t unit :=
  modify (fun s => set_waiting (callCounter s - 1) (waiting s) s);;
  currentSize ← entries (Z.to_nat ((ctx_currentSize c + 7) / 8)) 0 (ctx_totalSize c) buffer 0;
  when (currentSize <? ctx_totalSize c)
    (listPRP ← pop_back; getPRPListFromPRP listPRP (u64 (ctx_totalSize c - currentSize)));;
  s ← get;
  when (callCounter s =? 0) (modify call_init).

(** The list of the context that waits longest arrives from the host memory. *)
Definition arrive (mem : Z -> Z) : M t unit :=
  s ← get;
  match waiting s with
  | [] => mret tt
  | c :: w =>
      modify (set_waiting (callCounter s) w);;
      doRead c (fetch mem (ctx_base c) (ctx_currentSize c))
  end.

(** Lists arrive until none is waited for. *)
Fixpoint arrive_all (n : nat) (mem : Z -> Z) : M t unit :=
  s ← get;
  match waiting s with
  | [] => mret tt
  | _ :: _ => match n with O => fail NoReturn | S n => arrive mem;; arrive_all n mem end
  end.

(** The loop of [read] and [write]. *)
Fixpoint transfers (write : bool) (offset length : Z) (buffer : option Z) (l : list PRP)
    (begin : bool) (totalRead currentOffset : Z) : list DmaOp :=
  match l with
  | [] => []
  | iter :: l' =>
      if begin then
        let read := Z.min (size iter) (u64 (length - totalRead)) in
        mkDmaOp write (addr iter) read ((fun b => b + totalRead) <$> buffer) ::
        (let totalRead := u64 (totalRead + read) in
         if totalRead =? length then []
         else transfers write offset length buffer l' true totalRead (u64 (currentOffset + size iter)))
      else if offset <? u64 (currentOffset + size iter) then
        let totalRead := u64 (offset - currentOffset) in
        let read := Z.min (u64 (size iter - totalRead)) length in
        mkDmaOp write (u64 (addr iter + totalRead)) read buffer ::
        transfers write offset length buffer l' true read (u64 (currentOffset + size iter))
      else transfers write offset length buffer l' false totalRead (u64 (currentOffset + size iter))
  end.

(** [read] and [write]: the transfers and the context that waits for them.  Without a
    transfer the handler is called at once. *)
Definition request (write : bool) (s : t) (offset length : Z) (buffer : option Z) : list DmaOp * DMAContext :=
  let ops := transfers write offset length buffer (prpList s) false 0 0 in
  let c := mkDMAContext (vlen ops) 0 in
  (ops, if ctx_counter c =? 0 then commonDMAHandler (mkDMAContext 1 (returned c)) else c).
Definition read (s : t) (offset length : Z) (buffer : option Z) := request false s offset length buffer.
Definition write (s : t) (offset length : Z) (buffer : option Z) := request true s offset length buffer.
End PRPList.

Module SGL.

(** [Chunk]; [ignore] is set for the bytes of a bit bucket. *)
Record Chunk : Type := mkChunk { addr : Z; length : Z; ignore : bool }.

(** [SGLDescriptor] *)
Record SGLDescriptor : Type := mkSGLDescriptor { address : Z; desc_length : Z; id : Z }.

(** The members [address], [length] and [id] of the sixteen bytes. *)
Definition descriptor (data : list Z) : SGLDescriptor :=
  mkSGLDescriptor (le_word (take 8 data)) (le_word (take 4 (drop 8 data))) (nth 15 data 0).

Definition SGL_TYPE (id : Z) : Z := u8 (Z.shiftr id 4).
Definition SGL_SUBTYPE (id : Z) : Z := u8 (Z.land id 15).

(** [SGL_DESCRIPTOR_TYPE] and [SGL_DESCRIPTOR_SUBTYPE] *)
Definition TYPE_DATA_BLOCK_DESCRIPTOR : Z := 0.
Definition TYPE_BIT_BUCKET_DESCRIPTOR : Z := 1.
Definition TYPE_SEGMENT_DESCRIPTOR : Z := 2.
Definition TYPE_LAST_SEGMENT_DESCRIPTOR : Z := 3.
Definition TYPE_KEYED_DATA_BLOCK_DESCRIPTOR : Z := 4.
Definition SUBTYPE_ADDRESS : Z := 0.

Definition is_block (type : Z) : bool :=
  (type =? TYPE_DATA_BLOCK_DESCRIPTOR) || (type =? TYPE_KEYED_DATA_BLOCK_DESCRIPTOR).
Definition is_segment (type : Z) : bool :=
  (type =? TYPE_SEGMENT_DESCRIPTOR) || (type =? TYPE_LAST_SEGMENT_DESCRIPTOR).

(** [SGL] with the members of [DMAInterface] *)
Record t : Type := mk {
  chunkList : list Chunk;
  totalSize : Z;
  callCounter : Z;
  waiting : list DMAInitContext;
  immediateEvent : bool;
  initialized : Z;
}.

Definition make : t := mk [] 0 0 [] false 0.
Definition set_waiting (n : Z) (l : list DMAInitContext) (s : t) : t :=
  mk (chunkList s) (totalSize s) n l (immediateEvent s) (initialized s).
Definition set_event (b : bool) (s : t) : t :=
  mk (chunkList s) (totalSize s) (callCounter s) (waiting s) b (initialized s).
Definition call_init (s : t) : t :=
  mk (chunkList s) (totalSize s) (callCounter s) (waiting s) (immediateEvent s) (initialized s + 1).
Definition push_back (c : Chunk) (s : t) : t :=
  mk (chunkList s ++ [c]) (u64 (totalSize s + length c)) (callCounter s) (waiting s) (immediateEvent s) (initialized s).

Definition parseSGLDescriptor (d : SGLDescriptor) : M t unit :=
  (if is_block (SGL_TYPE (id d)) then modify (push_back (mkChunk (address d) (desc_length d) false))
   else if SGL_TYPE (id d) =? TYPE_BIT_BUCKET_DESCRIPTOR then
     modify (push_back (mkChunk (address d) (desc_length d) true))
   else mpanic "Invalid SGL descriptor");;
  if SGL_SUBTYPE (id d) =? SUBTYPE_ADDRESS then mret tt else mpanic "Unexpected SGL subtype".

(** The transfer of the segment goes to the interface below; its data arrives in [doRead]. *)
Definition parseSGLSegment (address length : Z) : M t unit :=
  modify (fun s => set_waiting (callCounter s + 1) (waiting s ++ [mkDMAInitContext address 0 length]) s).

(** [SGL(cfg, f, c, prp1, prp2)], with the sixteen bytes of the two pointers. *)
Definition construct (data : list Z) : M t unit :=
  let desc := descriptor data in
  if is_block (SGL_TYPE (id desc)) then parseSGLDescriptor desc;; modify (set_event true)
  else if is_segment (SGL_TYPE (id desc)) then parseSGLSegment (address desc) (desc_length desc)
  else mret tt.

Definition immediate : M t unit := modify (fun s => call_init (set_event false s)).

(** The loop over a segment that has arrived; the result is the last descriptor
    read and [next]. *)
Fixpoint descriptors (n : nat) (i currentSize : Z) (buffer : list Z) (desc : SGLDescriptor) (next : bool)
    : M t (SGLDescriptor * bool) :=
  match n with
  | O => mret (desc, next)
  | S n =>
      let data := take 16 (drop (Z.to_nat i) buffer) in
      if negb (vlen data =? 16) then fail UB
      else
        let desc := descriptor data in
        let type := SGL_TYPE (id desc) in
        if is_block type || (type =? TYPE_BIT_BUCKET_DESCRIPTOR) then
          parseSGLDescriptor desc;; descriptors n (i + 16) currentSize buffer desc next
        else if is_segment type then
          if negb (i =? u64 (currentSize - 16)) then mpanic "Invalid SGL segment"
          else descriptors n (i + 16) currentSize buffer desc true
        else descriptors n (i + 16) currentSize buffer desc next
  end.

(** [doRead] of [parseSGLSegment] *)
Definition doRead (c : DMAInitContext) (buffer : list Z) : M t unit :=
  modify (fun s => set_waiting (callCounter s - 1) (waiting s) s);;
  r ← descriptors (Z.to_nat ((ctx_currentSize c + 15) / 16)) 0 (ctx_currentSize c) buffer
        (mkSGLDescriptor 0 0 0) false;
  when r.2 (parseSGLSegment (address r.1) (desc_length r.1));;
  s ← get;
  when (callCounter s =? 0) (modify call_init).

Definition arrive (mem : Z -> Z) : M t unit :=
  s ← get;
  match waiting s with
  | [] => mret tt
  | c :: w =>
      modify (set_waiting (callCounter s) w);;
      doRead c (fetch mem (ctx_base c) (ctx_currentSize c))
  end.

(** The loop of [read] and [write]. *)
Fixpoint transfers (write : bool) (offset len : Z) (buffer : option Z) (l : list Chunk)
    (begin : bool) (totalRead currentOffset : Z) : list DmaOp :=
  match l with
  | [] => []
  | iter :: l' =>
      if begin then
        let read := Z.min (length iter) (u64 (len - totalRead)) in
        (if ignore iter then []
         else [mkDmaOp write (addr iter) read ((fun b => b + totalRead) <$> buffer)]) ++
        (let totalRead := u64 (totalRead + read) in
         if totalRead =? len then []
         else transfers write offset len buffer l' true totalRead (u64 (currentOffset + length iter)))
      else if offset <? u64 (currentOffset + length iter) then
        let totalRead := u64 (offset - currentOffset) in
        let read := Z.min (u64 (length iter - totalRead)) len in
        (if ignore iter then [] else [mkDmaOp write (u64 (addr iter + totalRead)) read buffer]) ++
        transfers write offset len buffer l' true read (u64 (currentOffset + length iter))
      else transfers write offset len buffer l' false totalRead (u64 (currentOffset + length iter))
  end.

Definition request (write : bool) (s : t) (offset length : Z) (buffer : option Z) : list DmaOp * DMAContext :=
  let ops := transfers write offset length buffer (chunkList s) false 0 0 in
  let c := mkDMAContext (vlen ops) 0 in
  (ops, if ctx_counter c =? 0 then commonDMAHandler (mkDMAContext 1 (returned c)) else c).
Definition read (s : t) (offset length : Z) (buffer : option Z) := request false s offset length buffer.
Definition write (s : t) (offset length : Z) (buffer : option Z) := request true s offset length buffer.
End SGL.
