(* ===== verification/DmaProof.v ===== *)
(** * The byte moves of a request, and the regions of a PRP list

    [moves] lists the bytes a sequence of transfers moves, each with its host
    address and its place in the buffer.  The loops of [read] and [write] move
    the slice of the regions that the offset and the length name. *)

From S2P Require Import Prelude Dma.

(** ** Byte moves *)

(** The elements of a list with consecutive places. *)
Fixpoint number {A} (l : list A) (p : Z) : list (A * Z) :=
  match l with
  | [] => []
  | a :: l' => (a, p) :: number l' (p + 1)
  end.

Lemma number_app {A} (x y : list A) p : number (x ++ y) p = number x p ++ number y (p + vlen x).
Proof.
  unfold vlen. revert p. induction x as [|a x IH]; intros p; simpl; [by rewrite Z.add_0_r|].
  rewrite IH. do 3 f_equal. lia.
Qed.

Lemma number_fmap {A B} (f : A -> B) (l : list A) p : number (f <$> l) p = (fun x => (f x.1, x.2)) <$> number l p.
Proof. revert p. induction l as [|a l IH]; intros p; [done|]. simpl. by rewrite IH. Qed.

Lemma number_lookup {A} (l : list A) p i : number l p !! i = (fun a => (a, p + Z.of_nat i)) <$> l !! i.
Proof.
  revert p i. induction l as [|a l IH]; intros p [|i]; simpl; try done.
  - by rewrite Z.add_0_r.
  - rewrite IH. destruct (l !! i); [|done]. simpl. do 2 f_equal. lia.
Qed.

Lemma number_fst {A} (l : list A) p : (number l p).*1 = l.
Proof. revert p. induction l as [|a l IH]; intros p; [done|]. simpl. by rewrite IH. Qed.

Lemma number_snd {A} (l : list A) p : (number l p).*2 = seqZ p (vlen l).
Proof.
  unfold vlen. revert p. induction l as [|a l IH]; intros p; [done|]. cbn [number fmap list_fmap length].
  rewrite IH, (seqZ_cons p) by lia. cbn [snd]. do 2 f_equal; lia.
Qed.

(** The bytes one transfer moves; a null buffer counts as the address 0. *)
Definition op_moves (o : DmaOp) : list (Z * Z) := number (seqZ (op_addr o) (op_size o)) (default 0 (op_buffer o)).
Definition moves (l : list DmaOp) : list (Z * Z) := l ≫= op_moves.

(** The bytes of the regions, in order, with the mark of the bit buckets. *)
Definition chunk_bytes (c : SGL.Chunk) : list (Z * bool) :=
  (fun a => (a, SGL.ignore c)) <$> seqZ (SGL.addr c) (SGL.length c).
Definition bytes (l : list SGL.Chunk) : list (Z * bool) := l ≫= chunk_bytes.

(** The moves of the bytes outside the bit buckets. *)
Definition kept (l : list ((Z * bool) * Z)) : list (Z * Z) :=
  omap (fun x : (Z * bool) * Z => if x.1.2 then None else Some (x.1.1, x.2)) l.

Lemma kept_app l k : kept (l ++ k) = kept l ++ kept k.
Proof. unfold kept. apply omap_app. Qed.

Lemma kept_chunk (ign : bool) (a n p : Z) : kept (number ((fun a : Z => (a, ign)) <$> seqZ a n) p) = if ign then [] else number (seqZ a n) p.
Proof.
  rewrite number_fmap. generalize (number (seqZ a n) p). intros l.
  induction l as [|[c q] l IH]; [by destruct ign|]. unfold kept in *. cbn. destruct ign; [done|].
  by rewrite <- IH at 2.
Qed.

Lemma vlen_seqZ a n : 0 <= n -> vlen (seqZ a n) = n.
Proof. intros. unfold vlen. rewrite length_seqZ. lia. Qed.

(** A region that is fully in the address space. *)
Definition chunk_ok (c : SGL.Chunk) : Prop := 0 <= SGL.addr c /\ 0 <= SGL.length c /\ SGL.addr c + SGL.length c < 2 ^ 64.

Definition total (l : list SGL.Chunk) : Z := vlen (bytes l).

Lemma total_cons c l : chunk_ok c -> total (c :: l) = SGL.length c + total l.
Proof.
  intros (_ & H & _). unfold total, bytes. cbn [mbind list_bind]. unfold vlen at 1. rewrite length_app.
  unfold chunk_bytes. rewrite length_fmap, length_seqZ. unfold vlen. lia.
Qed.

Lemma total_nonneg l : 0 <= total l.
Proof. apply vlen_nonneg. Qed.

Lemma take_seqZ a n k : 0 <= k <= n -> take (Z.to_nat k) (seqZ a n) = seqZ a k.
Proof.
  intros H. replace n with (k + (n - k)) by lia. rewrite seqZ_app by lia.
  rewrite take_app_length' by (rewrite length_seqZ; lia). done.
Qed.

Lemma drop_seqZ a n k : 0 <= k <= n -> drop (Z.to_nat k) (seqZ a n) = seqZ (a + k) (n - k).
Proof.
  intros H. replace n with (k + (n - k)) at 1 by lia. rewrite seqZ_app by lia.
  rewrite drop_app_length' by (rewrite length_seqZ; lia). done.
Qed.

(** A part of a region. *)
Definition marked (ign : bool) (a n : Z) : list (Z * bool) := (fun x => (x, ign)) <$> seqZ a n.

Lemma take_marked ign a n k : 0 <= n -> 0 <= k -> take (Z.to_nat k) (marked ign a n) = marked ign a (Z.min n k).
Proof.
  intros Hn Hk. unfold marked. rewrite <- fmap_take. f_equal. destruct (Z.le_ge_cases n k).
  - rewrite take_ge by (rewrite length_seqZ; lia). f_equal. lia.
  - rewrite take_seqZ by lia. f_equal. lia.
Qed.

Lemma drop_marked ign a n k : 0 <= k <= n -> drop (Z.to_nat k) (marked ign a n) = marked ign (a + k) (n - k).
Proof. intros H. unfold marked. by rewrite <- fmap_drop, drop_seqZ by lia. Qed.

Lemma length_marked ign a n : length (marked ign a n) = Z.to_nat n.
Proof. unfold marked. by rewrite length_fmap, length_seqZ. Qed.

Lemma vlen_marked ign a n : 0 <= n -> vlen (marked ign a n) = n.
Proof. intros. unfold vlen. rewrite length_marked. lia. Qed.

Section Loop.
  Context (write : bool) (offset len b : Z).
  Context (Hoff : 0 <= offset < 2 ^ 64) (Hlen : 0 < len < 2 ^ 64).

(** Once the loop has begun, it moves what is left to move from the regions that follow. *)
Lemma transfers_begun l tr co :
  Forall chunk_ok l -> 0 <= co -> co + total l < 2 ^ 64 -> 0 <= tr <= len ->
  moves (SGL.transfers write offset len (Some b) l true tr co)
  = kept (number (take (Z.to_nat (len - tr)) (bytes l)) (b + tr)).
Proof.
  intros Hl. revert tr co. induction Hl as [|c l Hc Hl IH]; intros tr co Hco Hsum Htr.
  - simpl. by rewrite take_nil.
  - cbn [SGL.transfers]. rewrite total_cons in Hsum by done. pose proof (total_nonneg l).
    destruct Hc as (Ha & Hn & Hfit). rewrite (u64_small (len - tr)), (u64_small (co + _)) by lia.
    set (r := Z.min (SGL.length c) (len - tr)) in *. rewrite (u64_small (tr + r)) by lia.
    unfold moves in *. rewrite bind_app. unfold bytes in *. cbn [mbind list_bind].
    change (chunk_bytes c) with (marked (SGL.ignore c) (SGL.addr c) (SGL.length c)).
    rewrite take_app, number_app, kept_app, take_marked, vlen_marked, length_marked by lia. fold r.
    unfold marked. rewrite kept_chunk. f_equal.
    { destruct (SGL.ignore c); [done|]. cbn [mbind list_bind fmap option_fmap option_map]. rewrite app_nil_r.
      unfold op_moves. simpl. f_equal; lia. }
    destruct (Z.eqb_spec (tr + r) len) as [He|Hne].
    + replace (Z.to_nat (len - tr) - Z.to_nat (SGL.length c))%nat with 0%nat by lia. done.
    + rewrite IH by lia. f_equal. f_equal; [f_equal; lia | lia].
Qed.

(** The moves of a request are the slice of the regions it names, placed in the
    buffer in order. *)
Lemma transfers_slice l tr co :
  Forall chunk_ok l -> 0 <= co <= offset -> co + total l < 2 ^ 64 ->
  moves (SGL.transfers write offset len (Some b) l false tr co)
  = kept (number (take (Z.to_nat len) (drop (Z.to_nat (offset - co)) (bytes l))) b).
Proof.
  intros Hl. revert tr co. induction Hl as [|c l Hc Hl IH]; intros tr co Hco Hsum.
  - simpl. by rewrite drop_nil, take_nil.
  - cbn [SGL.transfers]. rewrite total_cons in Hsum by done. pose proof (total_nonneg l).
    pose proof Hc as (Ha & Hn & Hfit). rewrite (u64_small (co + _)) by lia.
    unfold bytes at 1. cbn [mbind list_bind]. fold (bytes l).
    destruct (Z.ltb_spec offset (co + SGL.length c)) as [Hin|Hout].
    + rewrite !(u64_small (offset - co)), (u64_small (SGL.length c - _)), (u64_small (SGL.addr c + _)) by lia.
      set (r := Z.min (SGL.length c - (offset - co)) len) in *.
      unfold moves. rewrite bind_app. fold (moves (SGL.transfers write offset len (Some b) l true r (co + SGL.length c))).
      rewrite transfers_begun by (done || lia).
      change (chunk_bytes c) with (marked (SGL.ignore c) (SGL.addr c) (SGL.length c)).
      rewrite drop_app_le by (rewrite length_marked; lia). rewrite drop_marked by lia.
      rewrite take_app, number_app, kept_app, take_marked, vlen_marked, length_marked by lia. fold r.
      unfold marked. rewrite kept_chunk. f_equal; [|do 3 f_equal; lia].
      destruct (SGL.ignore c); [done|]. cbn [mbind list_bind]. by rewrite app_nil_r.
    + rewrite IH by lia.
      change (chunk_bytes c) with (marked (SGL.ignore c) (SGL.addr c) (SGL.length c)).
      rewrite drop_app_ge by (rewrite length_marked; lia). rewrite length_marked. do 4 f_equal. lia.
Qed.
End Loop.

(** ** A PRP list is a scatter gather list without bit buckets *)

Definition chunk_of (r : PRPList.PRP) : SGL.Chunk := SGL.mkChunk (PRPList.addr r) (PRPList.size r) false.

Lemma prp_transfers write offset len b l begin tr co :
  PRPList.transfers write offset len b l begin tr co = SGL.transfers write offset len b (chunk_of <$> l) begin tr co.
Proof.
  revert begin tr co. induction l as [|r l IH]; intros begin tr co; [done|].
  cbn [PRPList.transfers fmap list_fmap SGL.transfers chunk_of SGL.ignore SGL.addr SGL.length app].
  destruct begin; [|destruct (offset <? _)]; rewrite ?IH; try done.
Qed.

(** ** The regions of a PRP list *)

Import PRPList.

(** A page size the controller can set. *)
Definition page_ok (page : Z) : Prop := exists k, 3 <= k <= 27 /\ page = 2 ^ k.

Lemma getPRPSize_eq page a : page_ok page -> getPRPSize page a = page - a mod page.
Proof.
  intros (k & Hk & ->). unfold getPRPSize.
  replace (2 ^ k - 1) with (Z.ones k) by (rewrite Z.ones_equiv; lia). by rewrite Z.land_ones by lia.
Qed.

Lemma page_range page : page_ok page -> 8 <= page <= 2 ^ 27.
Proof.
  intros (k & Hk & ->). split; [change 8 with (2 ^ 3) | ]; apply Z.pow_le_mono_r; lia.
Qed.

Lemma getPRPSize_range page a : page_ok page -> 0 < getPRPSize page a <= page.
Proof.
  intros H. rewrite getPRPSize_eq by done. pose proof (page_range page H).
  pose proof (Z.mod_pos_bound a page). lia.
Qed.

(** The word of the host memory at an address. *)
Definition word (mem : Z -> Z) (a : Z) : Z := le_word (fetch mem a 8).

Lemma load64_fetch mem base n i : 0 <= i -> i + 8 <= n -> load64 (fetch mem base n) i = Ok (word mem (base + i)).
Proof.
  intros Hi Hn. unfold load64, fetch. rewrite <- fmap_drop, <- fmap_take, drop_seqZ by lia.
  change 8%nat with (Z.to_nat 8). rewrite take_seqZ by lia.
  rewrite vlen_fmap, vlen_seqZ by lia. rewrite Z.eqb_refl. unfold word, fetch. do 2 f_equal.
  apply list_eq. intros j. rewrite !list_lookup_fmap.
  destruct (decide (j < 8)%nat) as [Hj|Hj].
  - rewrite !lookup_seqZ_lt by lia. simpl. do 3 f_equal. lia.
  - rewrite !lookup_seqZ_ge by lia. done.
Qed.

(** The regions the entries of a list name: all of them, or the fewest that cover [total]. *)
Definition region (page a : Z) : PRP := mkPRP a (getPRPSize page a).
Fixpoint regions (page total currentSize : Z) (es : list Z) : list PRP :=
  match es with
  | [] => []
  | e :: es' =>
      let currentSize := currentSize + getPRPSize page e in
      region page e :: (if total <=? currentSize then [] else regions page total currentSize es')
  end.

Fixpoint covered (l : list PRP) : Z :=
  match l with
  | [] => 0
  | r :: l' => size r + covered l'
  end.

Lemma covered_app l k : covered (l ++ k) = covered l + covered k.
Proof. induction l as [|r l IH]; simpl; [done|]. rewrite IH. lia. Qed.

Lemma covered_regions page total cur es : page_ok page -> 0 <= covered (regions page total cur es) <= page * vlen es.
Proof.
  intros Hp. pose proof (page_range page Hp). unfold vlen. revert cur.
  induction es as [|e es IH]; intros cur; [simpl; lia|]. cbn [regions covered length region size].
  pose proof (getPRPSize_range page e Hp). destruct (total <=? _); cbn [covered]; [nia|].
  specialize (IH (cur + getPRPSize page e)). lia.
Qed.

(** The loop over a list without null entries. *)
Lemma entries_spec es total buffer s i cur :
  page_ok (pagesize s) -> Forall (fun e => e <> 0) es ->
  (forall k e, es !! k = Some e -> load64 buffer (i + 8 * Z.of_nat k) = Ok e) ->
  0 <= cur -> cur + pagesize s * vlen es < 2 ^ 64 ->
  entries (length es) i total buffer cur s
  = Ok (cur + covered (regions (pagesize s) total cur es),
        set_list (prpList s ++ regions (pagesize s) total cur es) s).
Proof.
  intros Hp Hnz. revert s i cur Hp. induction Hnz as [|e es He Hnz IH]; intros s i cur Hp Hload Hcur Hmax.
  - simpl. rewrite app_nil_r, Z.add_0_r. by destruct s.
  - cbn [length entries regions]. cbv [mbind M_bind lift get push_back modify].
    pose proof (Hload 0%nat e eq_refl) as H0. rewrite Z.add_0_r in H0. rewrite H0.
    pose proof (getPRPSize_range (pagesize s) e Hp). pose proof (page_range _ Hp).
    unfold vlen in Hmax. simpl length in Hmax. rewrite u64_small by nia.
    rewrite (proj2 (Z.eqb_neq e 0) He). cbn [covered region size].
    destruct (total <=? cur + getPRPSize (pagesize s) e) eqn:Ht.
    + unfold mret, M_ret. simpl. rewrite Z.add_0_r. done.
    + rewrite (IH (set_list (prpList s ++ [mkPRP e (getPRPSize (pagesize s) e)]) s)).
      * simpl. rewrite <- app_assoc, <- Z.add_assoc. done.
      * done.
      * intros k x Hk. rewrite <- (Hload (S k) x Hk). f_equal. lia.
      * lia.
      * cbn [pagesize set_list]. unfold vlen. nia.
Qed.

(** The entries of the list a context waits for, and what the code finds there. *)
Definition entry_count (page base : Z) : Z := getPRPSize page base / 8.
Definition list_at (mem : Z -> Z) (page base : Z) : list Z :=
  (fun k => word mem (base + 8 * k)) <$> seqZ 0 (entry_count page base).

Lemma fetched_entries mem page base :
  page_ok page -> base mod 8 = 0 ->
  Z.to_nat ((getPRPSize page base + 7) / 8) = length (list_at mem page base) /\
  forall k e, list_at mem page base !! k = Some e ->
    load64 (fetch mem base (getPRPSize page base)) (0 + 8 * Z.of_nat k) = Ok e.
Proof.
  intros Hp Hb. pose proof (getPRPSize_range page base Hp) as Hr.
  assert (getPRPSize page base mod 8 = 0) as Hm.
  { rewrite getPRPSize_eq by done. destruct Hp as (k & Hk & ->).
    replace (2 ^ k) with (8 * 2 ^ (k - 3)) by (change 8 with (2 ^ 3); rewrite <- Z.pow_add_r by lia; f_equal; lia).
    rewrite Z.rem_mul_r by (try apply Z.pow_nonzero; lia). rewrite Hb, Z.add_0_l.
    set (x := 2 ^ (k - 3)). set (y := (base / 8) mod x). replace (8 * x - 8 * y) with ((x - y) * 8) by lia.
    by rewrite Z.mod_mul by lia. }
  pose proof (Z.div_mod (getPRPSize page base) 8 ltac:(lia)) as Hd. rewrite Hm in Hd.
  unfold list_at, entry_count. rewrite length_fmap, length_seqZ. split.
  - f_equal. rewrite Hd at 1. rewrite Z.add_0_r. set (q := getPRPSize page base / 8).
    symmetry. apply Z.div_unique with 7; lia.
  - intros k e Hk. rewrite list_lookup_fmap in Hk.
    destruct (seqZ 0 (getPRPSize page base / 8) !! k) as [j|] eqn:Hj; [|done]. simpl in Hk. injection Hk as <-.
    apply lookup_seqZ in Hj as [-> Hj]. rewrite load64_fetch by lia. do 2 f_equal; lia.
Qed.

Lemma regions_full page total cur es :
  cur + covered (regions page total cur es) < total -> regions page total cur es = region page <$> es.
Proof.
  revert cur. induction es as [|e es IH]; intros cur H; [done|]. cbn [regions covered fmap list_fmap] in *.
  cbn [region size] in H. destruct (Z.leb_spec total (cur + getPRPSize page e)) as [Hle|Hgt].
  - simpl in H. lia.
  - f_equal. apply IH. lia.
Qed.

Lemma entry_count_small page base : page_ok page -> page * entry_count page base < 2 ^ 64.
Proof.
  intros Hp. unfold entry_count. pose proof (page_range _ Hp). pose proof (getPRPSize_range page base Hp).
  assert (getPRPSize page base / 8 <= 2 ^ 27) by (apply Z.div_le_upper_bound; lia). nia.
Qed.

Lemma vlen_list_at mem page base : page_ok page -> vlen (list_at mem page base) = entry_count page base.
Proof.
  intros Hp. unfold list_at. rewrite vlen_fmap, vlen_seqZ; [done|].
  unfold entry_count. pose proof (getPRPSize_range page base Hp). apply Z.div_pos; lia.
Qed.

(** What one list contributes. *)
Definition waits (base total : Z) (s : t) : t :=
  set_waiting 1 [mkDMAInitContext base total (getPRPSize (pagesize s) base)] s.
Definition arrived (s : t) : t := call_init (set_waiting 0 [] s).

Section Arrive.
  Context (mem : Z -> Z) (s : t) (base total : Z).
  Context (Hp : page_ok (pagesize s)) (Hb : base mod 8 = 0).
Let es := list_at mem (pagesize s) base.
Let rs := regions (pagesize s) total 0 es.
  Context (Hnz : Forall (fun e => e <> 0) es).

Lemma doRead_entries :
  entries (Z.to_nat ((getPRPSize (pagesize s) base + 7) / 8)) 0 total (fetch mem base (getPRPSize (pagesize s) base)) 0
    (set_waiting 0 [] s) = Ok (covered rs, set_list (prpList s ++ rs) (set_waiting 0 [] s)).
Proof.
  destruct (fetched_entries mem (pagesize s) base Hp Hb) as [-> Hload].
  pose proof (entry_count_small (pagesize s) base Hp).
  rewrite (entries_spec (list_at mem (pagesize s) base)); [done..|]. 
  rewrite vlen_list_at by done. cbn [pagesize set_waiting]. lia.
Qed.

(** The list covers what is left of the data. *)
Lemma arrive_covers : total <= covered rs ->
  arrive mem (waits base total s) = Ok (tt, set_list (prpList s ++ rs) (arrived s)).
Proof.
  intros Hc. unfold arrive, doRead, waits. cbv [mbind M_bind get modify].
  cbn [waiting set_waiting ctx_base ctx_currentSize ctx_totalSize callCounter pagesize].
  change (set_waiting _ _ (set_waiting _ _ (set_waiting _ _ s))) with (set_waiting 0 [] s).
  rewrite doRead_entries. rewrite (proj2 (Z.ltb_ge _ _) Hc). done.
Qed.

(** The list is too short: its last entry becomes the address of the next list. *)
Lemma arrive_chains (e : Z) es' : es = es' ++ [e] -> covered rs < total < 2 ^ 64 ->
  arrive mem (waits base total s)
  = Ok (tt, waits e (total - covered rs) (set_list (prpList s ++ (region (pagesize s) <$> es')) s)).
Proof.
  intros He Hc. unfold arrive, doRead, waits. cbv [mbind M_bind get modify].
  cbn [waiting set_waiting ctx_base ctx_currentSize ctx_totalSize callCounter pagesize].
  change (set_waiting _ _ (set_waiting _ _ (set_waiting _ _ s))) with (set_waiting 0 [] s).
  rewrite doRead_entries. rewrite (proj2 (Z.ltb_lt _ _)) by lia.
  assert (rs = (region (pagesize s) <$> es') ++ [region (pagesize s) e]) as Hrs.
  { unfold rs. rewrite regions_full by (fold rs; lia). by rewrite He, fmap_app. }
  assert (0 <= covered rs) by (apply covered_regions; done).
  unfold when, pop_back. cbv [mbind M_bind get modify].
  cbn [prpList set_list]. rewrite u64_small by lia. rewrite Hrs, app_assoc, last_snoc, removelast_last. done.
Qed.
End Arrive.
