(* ===== verification/DmaTheorems.v ===== *)
(** * hil/nvme/dma.cc: what a request moves, and what the lists cover *)

From S2P Require Import Prelude Fifo Dma DmaProof.

Import PRPList.

(** Bytes moved into the buffer from the host memory, and the other way. *)
Definition move_in (mem : Z -> Z) (l : list (Z * Z)) (buf : Z -> Z) : Z -> Z :=
  foldl (fun f m => fun x => if x =? m.2 then mem m.1 else f x) buf l.
Definition move_out (buf : Z -> Z) (l : list (Z * Z)) (mem : Z -> Z) : Z -> Z :=
  foldl (fun f m => fun x => if x =? m.1 then buf m.2 else f x) mem l.

Lemma move_in_at mem l buf m : NoDup l.*2 -> m ∈ l -> move_in mem l buf m.2 = mem m.1.
Proof.
  unfold move_in. revert buf. induction l as [|n l IH] using rev_ind; intros buf HND Hm.
  - by apply not_elem_of_nil in Hm.
  - rewrite foldl_app. cbn [foldl]. rewrite fmap_app in HND. apply NoDup_app in HND as (HND & Hsep & _).
    apply elem_of_app in Hm as [Hm | ->%list_elem_of_singleton]; [|by rewrite Z.eqb_refl].
    rewrite (proj2 (Z.eqb_neq _ _)); [by apply IH|]. intros He. eapply (Hsep m.2).
    + apply list_elem_of_fmap. by exists m.
    + rewrite He. simpl. by apply list_elem_of_singleton.
Qed.

Lemma move_in_other mem l buf x : x ∉ l.*2 -> move_in mem l buf x = buf x.
Proof.
  unfold move_in. induction l as [|n l IH] using rev_ind; intros Hx; [done|].
  rewrite foldl_app. cbn [foldl]. rewrite fmap_app in Hx. apply not_elem_of_app in Hx as [Hx Hn].
  rewrite (proj2 (Z.eqb_neq _ _)); [by apply IH|]. intros ->. apply Hn. simpl. by apply list_elem_of_singleton.
Qed.

Lemma NoDup_slice {A} (l : list A) i n : NoDup l -> NoDup (take n (drop i l)).
Proof.
  intros H. rewrite <- (take_drop i l) in H. apply NoDup_app in H as (_ & _ & H).
  rewrite <- (take_drop n (drop i l)) in H. by apply NoDup_app in H as (H & _).
Qed.

(** Moving out is moving in with the sides exchanged. *)
Lemma move_out_in buf l mem : move_out buf l mem = move_in buf ((fun m => (m.2, m.1)) <$> l) mem.
Proof. unfold move_out, move_in. revert mem. induction l as [|m l IH]; intros mem; [done|]. simpl. apply IH. Qed.

Lemma move_out_at buf l mem m : NoDup l.*1 -> m ∈ l -> move_out buf l mem m.1 = buf m.2.
Proof.
  intros HND Hm. rewrite move_out_in.
  apply (move_in_at buf ((fun m => (m.2, m.1)) <$> l) mem (m.2, m.1)).
  - by rewrite <- list_fmap_compose.
  - apply list_elem_of_fmap. by exists m.
Qed.

Lemma move_out_other buf l mem x : x ∉ l.*1 -> move_out buf l mem x = mem x.
Proof. intros Hx. rewrite move_out_in. apply move_in_other. by rewrite <- list_fmap_compose. Qed.

(** The regions of a PRP list that lie in the address space. *)
Definition prp_ok (r : PRP) : Prop := chunk_ok (chunk_of r).

Lemma kept_unmarked (x : list (Z * bool)) p :
  Forall (fun y => y.2 = false) x -> kept (number x p) = number x.*1 p.
Proof.
  intros H. revert p. induction H as [|[a ign] x Ha _ IH]; intros p; [done|]. simpl in Ha. subst ign.
  unfold kept in *. cbn. by rewrite IH.
Qed.

Lemma bytes_unmarked l : Forall (fun y => y.2 = false) (bytes (chunk_of <$> l)).
Proof.
  induction l as [|r l IH]; [constructor|]. unfold bytes in *. cbn [fmap list_fmap mbind list_bind].
  apply Forall_app. split; [|exact IH]. unfold chunk_bytes, chunk_of. cbn [SGL.ignore]. apply Forall_fmap, Forall_forall. done.
Qed.

(** The bytes of the regions of a PRP list. *)
Definition prp_bytes (l : list PRP) : list Z := l ≫= (fun r => seqZ (addr r) (size r)).

Lemma bytes_prp l : (bytes (chunk_of <$> l)).*1 = prp_bytes l.
Proof.
  induction l as [|r l IH]; [done|]. unfold bytes, prp_bytes in *. cbn [fmap list_fmap mbind list_bind].
  rewrite fmap_app. rewrite IH. f_equal. unfold chunk_bytes, chunk_of. cbn [SGL.addr SGL.length].
  rewrite <- list_fmap_compose. apply list_fmap_id.
Qed.

Lemma total_prp l : total (chunk_of <$> l) = vlen (prp_bytes l).
Proof. unfold total. rewrite <- bytes_prp. by rewrite vlen_fmap. Qed.

(** The moves of a request on a PRP list. *)
Lemma prp_request_moves write s offset length b :
  Forall prp_ok (prpList s) -> vlen (prp_bytes (prpList s)) < 2 ^ 64 -> 0 <= offset < 2 ^ 64 -> 0 < length < 2 ^ 64 ->
  moves (request write s offset length (Some b)).1
  = number (take (Z.to_nat length) (drop (Z.to_nat offset) (prp_bytes (prpList s)))) b.
Proof.
  intros Hok Hfit Ho Hl. unfold request. cbn [fst]. rewrite prp_transfers.
  rewrite transfers_slice; [|done|done|by apply Forall_fmap|lia|rewrite total_prp; lia].
  rewrite Z.sub_0_r. rewrite kept_unmarked.
  - by rewrite fmap_take, fmap_drop, bytes_prp.
  - apply Forall_take, Forall_drop, bytes_unmarked.
Qed.

(** C18: [read] and [write] of a PRP list and of a scatter gather list move exactly the bytes of the regions that
    the offset and the length name, each to or from its place in the buffer and in this order; the bytes of bit
    buckets keep their places and are not moved. *)
Theorem requests_move_slice (write : bool) (s : PRPList.t) (g : SGL.t) (offset length b : Z)
    (Hs : Forall prp_ok (prpList s)) (Hsfit : vlen (prp_bytes (prpList s)) < 2 ^ 64)
    (Hg : Forall chunk_ok (SGL.chunkList g)) (Hgfit : vlen (bytes (SGL.chunkList g)) < 2 ^ 64)
    (Ho : 0 <= offset < 2 ^ 64) (Hl : 0 < length < 2 ^ 64) :
  moves (PRPList.request write s offset length (Some b)).1
  = number (take (Z.to_nat length) (drop (Z.to_nat offset) (prp_bytes (prpList s)))) b /\
  moves (SGL.request write g offset length (Some b)).1
  = kept (number (take (Z.to_nat length) (drop (Z.to_nat offset) (bytes (SGL.chunkList g)))) b) /\
  Forall (fun o => op_write o = write) (PRPList.request write s offset length (Some b)).1 /\
  Forall (fun o => op_write o = write) (SGL.request write g offset length (Some b)).1.
Proof.
  assert (forall l begin tr co, Forall (fun o => op_write o = write) (SGL.transfers write offset length (Some b) l begin tr co)) as Hw.
  { induction l as [|c l IH]; intros begin tr co; [constructor|]. cbn [SGL.transfers].
    destruct begin; [|destruct (offset <? _)]; [| |apply IH]; apply Forall_app; (split; [destruct (SGL.ignore c); by repeat constructor|]);
      [destruct (_ =? length); [constructor|]|]; apply IH. }
  split_and!.
  - by apply prp_request_moves.
  - unfold SGL.request. cbn [fst]. rewrite transfers_slice by (done || unfold total; lia). by rewrite Z.sub_0_r.
  - unfold PRPList.request. cbn [fst]. rewrite prp_transfers. apply Hw.
  - apply Hw.
Qed.

(** C29: What a command writes to its data area it reads back: a write of a range of a PRP list with distinct bytes
    changes exactly the host bytes of the range, and a read of the same range returns the buffer that was written
    and changes nothing else of its own buffer. *)
Theorem written_data_is_read_back (s : PRPList.t) (offset length b b' : Z) (buf buf' mem : Z -> Z)
    (Hs : Forall prp_ok (prpList s)) (Hdistinct : NoDup (prp_bytes (prpList s)))
    (Hfit : vlen (prp_bytes (prpList s)) < 2 ^ 64)
    (Ho : 0 <= offset) (Hl : 0 < length) (Hin : offset + length <= vlen (prp_bytes (prpList s))) :
  let mem' := move_out buf (moves (PRPList.write s offset length (Some b)).1) mem in
  let got := move_in mem' (moves (PRPList.read s offset length (Some b')).1) buf' in
  let range := take (Z.to_nat length) (drop (Z.to_nat offset) (prp_bytes (prpList s))) in
  (forall k, 0 <= k < length -> got (b' + k) = buf (b + k)) /\
  (forall x, ~ b' <= x < b' + length -> got x = buf' x) /\
  (forall a, a ∉ range -> mem' a = mem a).
Proof.
  intros mem' got range. subst mem' got. unfold write, read.
  rewrite !prp_request_moves by (done || lia). fold range.
  assert (vlen range = length) as Hn.
  { unfold range, vlen in *. rewrite length_take, length_drop. lia. }
  assert (NoDup range) as HND by (by apply NoDup_slice).
  split_and!.
  - intros k Hk. destruct (lookup_lt_is_Some_2 range (Z.to_nat k)) as [a Ha]; [unfold vlen in Hn; lia|].
    assert (forall p, (a, p + k) ∈ number range p) as Hat.
    { intros p. apply list_elem_of_lookup_2 with (Z.to_nat k). rewrite number_lookup, Ha. simpl. do 2 f_equal. lia. }
    pose proof (move_in_at (move_out buf (number range b) mem) (number range b') buf' (a, b' + k)) as Hr.
    rewrite number_snd in Hr. cbn [fst snd] in Hr. rewrite Hr by (apply NoDup_seqZ || done).
    pose proof (move_out_at buf (number range b) mem (a, b + k)) as Hw. rewrite number_fst in Hw. cbn [fst snd] in Hw. by apply Hw.
  - intros x Hx. apply move_in_other. rewrite number_snd, Hn. rewrite elem_of_seqZ. lia.
  - intros a Ha. apply move_out_other. by rewrite number_fst.
Qed.

(** ** The regions of a command's data *)

(** The constructor on every branch. *)
Lemma construct_eq page length prp1 prp2 (Hp : page_ok page) (Hl : 0 < length < 2 ^ 63) :
  let p1 := getPRPSize page prp1 in
  let p2 := getPRPSize page prp2 in
  construct prp1 prp2 (make length page)
  = if length <=? p1 then Ok (tt, set_event true (set_list [mkPRP prp1 length] (make length page)))
    else if (length <=? page) || ((length <=? 2 * page) && (p1 =? page)) then
      if p1 + p2 <? length then panic "prp_list: Invalid DPTR size"
      else Ok (tt, set_event true (set_list [mkPRP prp1 p1; mkPRP prp2 p2] (make length page)))
    else Ok (tt, waits prp2 (length - p1) (set_list [mkPRP prp1 p1] (make length page))).
Proof.
  intros p1 p2. pose proof (page_range page Hp). pose proof (getPRPSize_range page prp1 Hp) as H1.
  pose proof (getPRPSize_range page prp2 Hp) as H2. fold p1 in H1. fold p2 in H2.
  unfold construct. cbv [mbind M_bind get]. cbn [pagesize totalSize make]. fold p1 p2.
  rewrite (u64_small (p1 + p2)), (u64_small (page * 2)) by lia.
  replace (page * 2) with (2 * page) by lia.
  destruct (Z.leb_spec length p1) as [Hle|Hgt].
  - rewrite (proj2 (Z.leb_le length page)) by lia. done.
  - rewrite (u64_small (length - p1)) by lia.
    destruct (Z.leb_spec length page); [|destruct (Z.leb_spec length (2 * page)); [destruct (Z.eqb_spec p1 page)|]];
      cbn [orb andb]; try (by destruct (p1 + p2 <? length)); done.
Qed.

(** A command whose data leaves its first page but ends within a second one is served by two pointers when it is
    not longer than a page, or starts at a page boundary.  Otherwise the data page of the second pointer is read
    as a PRP list, although it holds the rest of the data: if that page begins with zeros, the run panics. *)
Theorem second_page_taken_for_list (page length prp1 prp2 : Z) (mem : Z -> Z) (n : nat)
    (Hp : page_ok page) (Halign : prp2 mod page = 0)
    (Hcross : getPRPSize page prp1 < length <= getPRPSize page prp1 + page) :
  if (length <=? page) || (getPRPSize page prp1 =? page)
  then construct prp1 prp2 (make length page)
       = Ok (tt, set_event true (set_list [mkPRP prp1 (getPRPSize page prp1); mkPRP prp2 page] (make length page)))
  else (exists s, construct prp1 prp2 (make length page) = Ok (tt, s) /\
          waiting s = [mkDMAInitContext prp2 (length - getPRPSize page prp1) page]) /\
       (word mem prp2 = 0 ->
        (construct prp1 prp2;; arrive_all (S n) mem) (make length page) = panic "prp_list: Invalid PRP in PRP List").
Proof.
  pose proof (page_range page Hp). pose proof (getPRPSize_range page prp1 Hp) as H1.
  assert (getPRPSize page prp2 = page) as H2 by (rewrite getPRPSize_eq, Halign by done; lia).
  pose proof (construct_eq page length prp1 prp2 Hp ltac:(lia)) as Hc. cbv zeta in Hc. rewrite H2 in Hc.
  rewrite (proj2 (Z.leb_gt length (getPRPSize page prp1))) in Hc by lia.
  rewrite (proj2 (Z.ltb_ge _ length)) in Hc by lia.
  destruct (Z.leb_spec length page); cbn [orb] in *; [exact Hc|].
  destruct (Z.eqb_spec (getPRPSize page prp1) page).
  - rewrite (proj2 (Z.leb_le length (2 * page))) in Hc by lia. exact Hc.
  - rewrite andb_false_r in Hc. split.
    + eexists. split; [exact Hc|]. unfold waits. cbn. by rewrite H2.
    + intros Hw. unfold mbind at 1, M_bind at 1. rewrite Hc.
      unfold arrive_all, arrive, doRead, waits. cbv [mbind M_bind get modify].
      cbn [waiting set_waiting set_list make ctx_base ctx_currentSize ctx_totalSize callCounter pagesize]. rewrite H2.
      assert (Z.to_nat ((page + 7) / 8) <> 0%nat) as Hn.
      { assert (1 <= (page + 7) / 8) by (apply Z.div_le_lower_bound; lia). lia. }
      destruct (Z.to_nat ((page + 7) / 8)) as [|m]; [done|]. cbn [entries].
      cbv [mbind M_bind lift get]. rewrite load64_fetch by lia. rewrite Z.add_0_r, Hw. done.
Qed.

(** ** Chained lists *)

(** A list whose entries name whole pages. *)
Definition whole_pages (page : Z) (es : list Z) : Prop := Forall (fun e => e <> 0 /\ e mod page = 0) es.

Lemma covered_whole page es : page_ok page -> whole_pages page es -> covered (region page <$> es) = page * vlen es.
Proof.
  intros Hp. unfold vlen. induction 1 as [|e es [_ He] _ IH]; [simpl; lia|].
  cbn [fmap list_fmap covered region size length]. rewrite IH, getPRPSize_eq, He by done. lia.
Qed.

Lemma regions_whole page total cur es : page_ok page -> whole_pages page es ->
  cur < total -> total <= cur + page * vlen es ->
  covered (regions page total cur es) = page * ((total - cur + page - 1) / page).
Proof.
  intros Hp Hes. pose proof (page_range page Hp). unfold vlen. revert cur.
  induction Hes as [|e es [_ He] _ IH]; intros cur Hc Hm; [simpl in Hm; lia|].
  cbn [regions covered region size length] in *. rewrite getPRPSize_eq, He, Z.sub_0_r by done.
  destruct (Z.leb_spec total (cur + page)) as [Hle|Hgt].
  - cbn [covered]. replace ((total - cur + page - 1) / page) with 1; [lia|].
    apply Z.div_unique with (total - cur - 1); lia.
  - rewrite IH by lia. replace (total - cur + page - 1) with ((total - (cur + page) + page - 1) + 1 * page) by lia.
    rewrite Z.div_add by lia. lia.
Qed.

Lemma regions_whole_most page total cur es : page_ok page -> whole_pages page es ->
  cur + page * vlen es < total -> covered (regions page total cur es) = page * vlen es.
Proof.
  intros Hp Hes Hm. pose proof (page_range page Hp).
  assert (regions page total cur es = region page <$> es) as ->; [|by apply covered_whole].
  revert cur Hm. unfold vlen. induction Hes as [|e es [_ He] _ IH]; intros cur Hm; [done|].
  cbn [regions fmap list_fmap length] in *. rewrite getPRPSize_eq, He, Z.sub_0_r by done.
  rewrite (proj2 (Z.leb_gt _ _)) by lia. f_equal. apply IH. lia.
Qed.

Lemma covered_bytes l : Forall (fun r => 0 <= size r) l -> vlen (prp_bytes l) = covered l.
Proof.
  unfold vlen, prp_bytes. induction 1 as [|r l Hr _ IH]; [done|]. cbn [mbind list_bind covered].
  rewrite length_app, length_seqZ. lia.
Qed.

Lemma whole_nonnull page es : whole_pages page es -> Forall (fun e => e <> 0) es.
Proof. intros H. eapply Forall_impl; [exact H|]. by intros e [He _]. Qed.

Lemma page_aligned page e : page_ok page -> e mod page = 0 -> e mod 8 = 0.
Proof.
  intros (k & Hk & ->) He. replace (2 ^ k) with (8 * 2 ^ (k - 3)) in He
    by (change 8 with (2 ^ 3); rewrite <- Z.pow_add_r by lia; f_equal; lia).
  rewrite Z.rem_mul_r in He by (try apply Z.pow_nonzero; lia). pose proof (Z.mod_pos_bound e 8).
  assert (0 < 2 ^ (k - 3)) by (apply Z.pow_pos_nonneg; lia). pose proof (Z.mod_pos_bound (e / 8) (2 ^ (k - 3))). lia.
Qed.

Lemma regions_sizes page total cur es : page_ok page -> Forall (fun r => 0 <= size r) (regions page total cur es).
Proof.
  intros Hp. revert cur. induction es as [|x es IH]; intros cur; cbn [regions]; constructor.
  - cbn. pose proof (getPRPSize_range page x Hp). lia.
  - destruct (total <=? _); [constructor | apply IH].
Qed.

(** The data in pages, with one page less than the list needs. *)
Definition pages (page length : Z) : Z := (length + page - 1) / page.

Lemma pages_bounds page length : 0 < page -> length <= page * pages page length < length + page.
Proof.
  intros H. unfold pages. pose proof (Z.div_mod (length + page - 1) page ltac:(lia)).
  pose proof (Z.mod_pos_bound (length + page - 1) page ltac:(lia)). lia.
Qed.

Lemma pages_sub page length n : 0 < page -> pages page (length - page * n) = pages page length - n.
Proof.
  intros H. unfold pages. replace (length + page - 1) with ((length - page * n + page - 1) + n * page) by lia.
  rewrite Z.div_add by lia. lia.
Qed.

Section Chain.
  Context (mem : Z -> Z) (s : t) (base length e : Z) (es1 : list Z).
  Context (Hp : page_ok (pagesize s)) (Hb : base mod 8 = 0) (Hl : length < 2 ^ 63).
  Context (H1 : list_at mem (pagesize s) base = es1 ++ [e]) (Hes1 : whole_pages (pagesize s) (es1 ++ [e])).
  Context (Hes2 : whole_pages (pagesize s) (list_at mem (pagesize s) e)).
  Context (Hchain : pagesize s * vlen (es1 ++ [e]) < length).
  Context (Henough : length <= pagesize s * (vlen es1 + vlen (list_at mem (pagesize s) e))).
Let n := vlen (es1 ++ [e]).
Let rest := length - pagesize s * n.
Let added := (region (pagesize s) <$> es1) ++ regions (pagesize s) rest 0 (list_at mem (pagesize s) e).

Lemma chain_count : n = vlen es1 + 1.
Proof. unfold n, vlen. rewrite length_app. simpl. lia. Qed.

(** Two lists arrive, and what they add. *)
Lemma chain_arrives :
  (arrive mem;; arrive mem) (waits base length s) = Ok (tt, set_list (prpList s ++ added) (arrived s)).
Proof.
  pose proof (page_range (pagesize s) Hp) as Hpage. pose proof chain_count as Hn. pose proof (vlen_nonneg es1).
  assert (0 <= pagesize s * n) by (apply Z.mul_nonneg_nonneg; lia). fold n in Hchain.
  assert (covered (regions (pagesize s) length 0 (es1 ++ [e])) = pagesize s * n) as Hc1
    by (apply regions_whole_most; try done; lia).
  pose proof (arrive_chains mem s base length Hp Hb) as Ha. rewrite H1 in Ha.
  specialize (Ha (whole_nonnull _ _ Hes1) e es1 eq_refl ltac:(rewrite Hc1; lia)). rewrite Hc1 in Ha. fold rest in Ha.
  set (s1 := set_list (prpList s ++ (region (pagesize s) <$> es1)) s) in *.
  assert (e mod 8 = 0) as He.
  { apply Forall_app in Hes1 as [_ Hes]. apply Forall_cons in Hes as [[_ He] _]. by eapply page_aligned. }
  assert (rest <= covered (regions (pagesize s) rest 0 (list_at mem (pagesize s) e))) as Hc2.
  { rewrite regions_whole; try done; [|unfold rest; lia | unfold rest; lia].
    rewrite Z.sub_0_r. apply (pages_bounds (pagesize s) rest). lia. }
  unfold mbind, M_bind. rewrite Ha.
  rewrite (arrive_covers mem s1 e rest Hp He (whole_nonnull _ _ Hes2) Hc2).
  unfold added, s1. cbn [prpList set_list pagesize]. by rewrite app_assoc.
Qed.

Lemma chain_covers : covered added = pagesize s * pages (pagesize s) length - pagesize s.
Proof.
  pose proof (page_range (pagesize s) Hp) as Hpage. pose proof chain_count as Hn.
  unfold added. rewrite covered_app, covered_whole by (done || by apply Forall_app in Hes1 as [? _]).
  rewrite regions_whole; try done; [|unfold rest; fold n in Hchain; lia | unfold rest; lia].
  rewrite Z.sub_0_r. fold (pages (pagesize s) rest). unfold rest. rewrite pages_sub by lia. lia.
Qed.

Lemma chain_sizes : Forall (fun r => 0 <= size r) added.
Proof.
  apply Forall_app. split; [|by apply regions_sizes]. apply Forall_fmap, Forall_forall. intros x _. cbn.
  pose proof (getPRPSize_range (pagesize s) x Hp). lia.
Qed.
End Chain.

(** A transfer of at least the whole data moves what the regions cover. *)
Lemma whole_transfer write s length b :
  Forall prp_ok (prpList s) -> Forall (fun r => 0 <= size r) (prpList s) -> covered (prpList s) < length < 2 ^ 64 ->
  vlen (moves (request write s 0 length (Some b)).1) = covered (prpList s).
Proof.
  intros Hok Hs Hl. pose proof (covered_bytes _ Hs) as Hby. pose proof (vlen_nonneg (prp_bytes (prpList s))).
  rewrite prp_request_moves by (done || lia). rewrite drop_0, take_ge; [|unfold vlen in *; lia].
  rewrite <- Hby. unfold vlen. rewrite <- (length_fmap fst (number (prp_bytes (prpList s)) b)). by rewrite number_fst.
Qed.

(** A PRP list that continues in a second list loses a page: the entry that points to the second list is counted
    as if it named data, so the regions cover the pages of the data less one, although the two lists name all of
    them; the list reports that it is ready, and a transfer of the whole data moves less than the data. *)
Theorem chained_list_loses_page (mem : Z -> Z) (s : t) (base length e b : Z) (es1 : list Z)
    (Hp : page_ok (pagesize s)) (Hb : base mod 8 = 0) (Hl : length < 2 ^ 63)
    (H1 : list_at mem (pagesize s) base = es1 ++ [e]) (Hes1 : whole_pages (pagesize s) (es1 ++ [e]))
    (Hes2 : whole_pages (pagesize s) (list_at mem (pagesize s) e))
    (Hchain : pagesize s * vlen (es1 ++ [e]) < length)
    (Henough : length <= pagesize s * (vlen es1 + vlen (list_at mem (pagesize s) e)))
    (Hs : prpList s = []) :
  exists s', (arrive mem;; arrive mem) (waits base length s) = Ok (tt, s') /\
    waiting s' = [] /\ initialized s' = initialized s + 1 /\
    covered (prpList s') = pagesize s * pages (pagesize s) length - pagesize s /\
    covered (prpList s') < length /\
    (Forall prp_ok (prpList s') -> vlen (moves (PRPList.write s' 0 length (Some b)).1) = covered (prpList s')).
Proof.
  pose proof (chain_arrives mem s base length e es1 Hp Hb Hl H1 Hes1 Hes2 Hchain Henough) as Ha.
  pose proof (chain_covers mem s length e es1 Hp Hes1 Hes2 Hchain Henough) as Hc.
  pose proof (chain_sizes mem s length e es1 Hp) as Hz.
  pose proof (page_range (pagesize s) Hp). pose proof (pages_bounds (pagesize s) length ltac:(lia)).
  rewrite Hs in Ha. eexists. split; [exact Ha|]. cbn [waiting initialized prpList set_list arrived call_init set_waiting app].
  split_and!; [done|done|exact Hc|lia|]. intros Hok. apply whole_transfer; cbn [prpList set_list arrived call_init set_waiting]; [done|done|lia].
Qed.

(** ** Collecting the lists ends *)

(** The failures of a PRP list: a null entry, a read past the buffer. *)
Definition bad_list : err -> Prop := fun e => e = UB \/ exists m, e = Panic m.

Lemma entries_progress total buffer s n i cur :
  page_ok (pagesize s) -> 0 <= cur -> cur + pagesize s * Z.of_nat n < 2 ^ 64 -> (0 < n)%nat ->
  wpe bad_list (entries n i total buffer cur)
    (fun c s' => cur < c < 2 ^ 64 /\ exists l r, s' = set_list (l ++ [r]) s) s.
Proof.
  intros Hp. revert s i cur Hp. induction n as [|n IH]; intros s i cur Hp Hc Hm Hn; [lia|].
  pose proof (page_range _ Hp). cbn [entries]. apply wpe_bind, wpe_lift.
  destruct (load64 buffer i) as [w|x] eqn:Hw; cycle 1.
  { unfold load64 in Hw. destruct (_ =? 8) in Hw; [done|]. injection Hw as <-. by left. }
  apply wpe_bind, wpe_get. cbv zeta. pose proof (getPRPSize_range (pagesize s) w Hp).
  rewrite u64_small by lia. destruct (w =? 0); [apply wpe_fail; right; eauto|].
  apply wpe_bind, wpe_modify. destruct (total <=? _).
  - apply wpe_ret. split; [lia|]. eauto.
  - destruct n as [|n'] eqn:Hn'; [apply wpe_ret; split; [lia|]; eauto|]. rewrite <- Hn' in *.
    eapply wpe_mono; [apply IH; cbn [pagesize set_list]; try done; lia|].
    cbn beta. intros c s' [Hc' (l & r & ->)]. split; [lia|]. by exists l, r.
Qed.

(** A list that waits, with nothing else pending. *)
Definition collecting (page c : Z) (s : t) : Prop :=
  pagesize s = page /\ callCounter s = 1 /\ immediateEvent s = false /\ initialized s = 0 /\
  exists base, waiting s = [mkDMAInitContext base c (getPRPSize page base)].
Definition ready (s : t) : Prop := waiting s = [] /\ immediateEvent s = false /\ initialized s = 1.

Lemma arrive_progress mem page c s : page_ok page -> 0 < c < 2 ^ 64 -> collecting page c s ->
  wpe bad_list (arrive mem) (fun _ s' => ready s' \/ exists c', 0 < c' < c /\ collecting page c' s') s.
Proof.
  intros Hp Hc (Hpage & Hcnt & Hev & Hini & base & Hw). pose proof (page_range _ Hp).
  pose proof (getPRPSize_range page base Hp) as Hr.
  unfold arrive. apply wpe_bind, wpe_get. rewrite Hw. apply wpe_bind, wpe_modify.
  unfold doRead. apply wpe_bind, wpe_modify. cbn [ctx_base ctx_currentSize ctx_totalSize].
  assert (1 <= (getPRPSize page base + 7) / 8 <= 2 ^ 27) as Hn
    by (split; [apply Z.div_le_lower_bound | apply Z.div_le_upper_bound]; lia).
  apply wpe_bind. eapply wpe_mono; [apply entries_progress; cbn [pagesize set_waiting]; rewrite ?Hpage; try done; nia|].
  cbn beta. intros cur s' [Hcur (l & r & ->)]. apply wpe_bind, wpe_when.
  - intros Hlt%Z.ltb_lt. unfold pop_back. apply wpe_bind, wpe_bind, wpe_get. cbn [prpList set_list]. rewrite last_snoc.
    apply wpe_bind, wpe_modify, wpe_ret, wpe_modify, wpe_bind, wpe_get.
    cbn [callCounter set_waiting set_list]. rewrite Hcnt. apply wpe_ret. right. exists (c - cur). split; [lia|].
    rewrite u64_small by lia. unfold collecting. cbn. rewrite Hpage. split_and!; try done. by eexists.
  - intros _. apply wpe_bind, wpe_get. cbn [callCounter set_waiting set_list]. rewrite Hcnt. apply wpe_modify.
    left. unfold ready. cbn. by rewrite Hev, Hini.
Qed.

Lemma arrive_all_ends mem page n c s : page_ok page -> 0 < c < 2 ^ 64 -> (Z.to_nat c <= n)%nat -> collecting page c s ->
  wpe bad_list (arrive_all n mem) (fun _ s' => ready s') s.
Proof.
  intros Hp. revert c s. induction n as [|n IH]; intros c s Hc Hn Hs; [lia|].
  pose proof Hs as (_ & _ & _ & _ & base & Hw). cbn [arrive_all]. apply wpe_bind, wpe_get. rewrite Hw.
  apply wpe_bind. eapply wpe_mono; [by apply (arrive_progress mem page c)|]. cbn beta.
  intros _ s' [(Hw' & He' & Hi')|(c' & Hc' & Hs')].
  - destruct n; cbn [arrive_all]; apply wpe_bind, wpe_get; rewrite Hw'; by apply wpe_ret.
  - apply (IH c'); [lia|lia|done].
Qed.

(** The event of the constructor, when it is scheduled. *)
Definition run_event : M t unit := s ← get; when (immediateEvent s) immediate.

(** C30: Collecting the regions of a command ends, whatever the host memory holds: after at most as many lists as the
    data has bytes the constructor's function has been called exactly once and nothing is waited for, unless the
    pointers are too short, a list holds a null entry or an entry lies past the buffer, which stop the run. *)
Theorem prp_list_gets_ready (mem : Z -> Z) (page length prp1 prp2 : Z)
    (Hp : page_ok page) (Hl : 0 < length < 2 ^ 63) :
  match (construct prp1 prp2;; run_event;; arrive_all (Z.to_nat length) mem) (make length page) with
  | Ok (_, s') => waiting s' = [] /\ immediateEvent s' = false /\ initialized s' = 1
  | Err e => e = UB \/ exists m, e = Panic m
  end.
Proof.
  pose proof (construct_eq page length prp1 prp2 Hp Hl) as Hc. cbv zeta in Hc.
  pose proof (getPRPSize_range page prp1 Hp).
  assert (wpe bad_list (construct prp1 prp2;; run_event;; arrive_all (Z.to_nat length) mem) (fun _ s' => ready s') (make length page)) as Hw;
    [|unfold wpe, wpr in Hw; 
     destruct ((construct prp1 prp2;; run_event;; arrive_all (Z.to_nat length) mem) (make length page)) as [[[] s']|x]; exact Hw].
  apply wpe_bind. unfold wpe at 1, wpr at 1. rewrite Hc.
  assert (forall l, wpe bad_list (run_event;; arrive_all (Z.to_nat length) mem) (fun _ s' => ready s')
            (set_event true (set_list l (make length page)))) as Hready.
  { intros l. apply wpe_bind, wpe_bind, wpe_get. apply wpe_modify.
    destruct (Z.to_nat length); cbn [arrive_all]; apply wpe_bind, wpe_get; by apply wpe_ret. }
  destruct (length <=? _) eqn:H1; [apply Hready|]. apply Z.leb_gt in H1.
  destruct (_ || _); [destruct (_ <? length); [right; eauto | apply Hready]|].
  cbn [fst snd]. apply wpe_bind, wpe_bind, wpe_get. apply wpe_ret.
  apply (arrive_all_ends mem page _ (length - getPRPSize page prp1)); [done|lia|lia|].
  unfold collecting. split_and!; try done. by eexists.
Qed.

(** ** When a request completes *)

(** The request to the FIFO below that a transfer is. *)
Definition fifo_req (o : DmaOp) (f : Z) : Fifo.Req := Fifo.mkReq (op_write o) (op_addr o) (op_size o) (op_buffer o) f.
Definition empty_op (o : DmaOp) : bool := op_size o =? 0.
Lemma empty_op_size x a n y : empty_op (mkDmaOp x a n y) = (n =? 0).
Proof. done. Qed.
(** The transfers that are answered: the FIFO drops the others. *)
Definition answers (ops : list DmaOp) : nat := length (filter (fun o => empty_op o = false) ops).

Lemma handlers_run k n : 0 <= Z.of_nat k < n -> Nat.iter k commonDMAHandler (mkDMAContext n 0) = mkDMAContext (n - Z.of_nat k) 0.
Proof.
  induction k as [|k IH]; intros H; [simpl; by rewrite Z.sub_0_r|].
  change (commonDMAHandler (Nat.iter k commonDMAHandler (mkDMAContext n 0)) = mkDMAContext (n - Z.of_nat (S k)) 0). rewrite IH by lia.
  unfold commonDMAHandler. cbn [ctx_counter returned]. rewrite (proj2 (Z.eqb_neq _ _)) by lia. f_equal. lia.
Qed.

Lemma handlers_end n : (0 < n)%nat -> returned (Nat.iter n commonDMAHandler (mkDMAContext (Z.of_nat n) 0)) = 1.
Proof.
  intros H. destruct n as [|n]; [lia|].
  change (returned (commonDMAHandler (Nat.iter n commonDMAHandler (mkDMAContext (Z.of_nat (S n)) 0))) = 1). rewrite handlers_run by lia.
  unfold commonDMAHandler. cbn [ctx_counter returned]. rewrite (proj2 (Z.eqb_eq _ _)) by lia. done.
Qed.

Lemma answers_existsb ops : if existsb empty_op ops then (answers ops < length ops)%nat else answers ops = length ops.
Proof.
  unfold answers. induction ops as [|o ops IH]; [done|]. cbn [existsb]. rewrite filter_cons.
  destruct (empty_op o); cbn [orb].
  - rewrite decide_False by done. pose proof (length_filter (fun o => empty_op o = false) ops). simpl. lia.
  - rewrite decide_True by done. destruct (existsb empty_op ops); simpl; lia.
Qed.

(** The place where an empty transfer comes from. *)
Definition ends_inside (l : list PRP) (offset length : Z) : Prop :=
  exists l1 r l2, l = l1 ++ r :: l2 /\ l2 <> [] /\ covered l1 <= offset /\ offset + length <= covered l1 + size r.

Section Empty.
  Context (w : bool) (offset length : Z) (b : option Z).
  Context (Ho : 0 <= offset) (Hl : 0 < length) (Hfit : offset + length < 2 ^ 64).

Lemma begun_no_empty l tr co : Forall (fun r => 0 < size r) l -> 0 <= co -> co + covered l < 2 ^ 64 -> 0 <= tr < length ->
  existsb empty_op (transfers w offset length b l true tr co) = false.
Proof.
  intros Hs. revert tr co. induction Hs as [|r l Hr Hs IH]; intros tr co Hco Hf Htr; [done|].
  cbn [transfers covered] in *. assert (0 <= covered l) by (clear - Hs; induction Hs; simpl; lia).
  rewrite (u64_small (length - tr)), (u64_small (co + size r)) by lia.
  set (n := Z.min (size r) (length - tr)). rewrite (u64_small (tr + n)) by lia. cbn [existsb]. rewrite empty_op_size.
  rewrite (proj2 (Z.eqb_neq n 0)) by lia. cbn [orb]. destruct (Z.eqb_spec (tr + n) length); [done|]. apply IH; lia.
Qed.

Lemma empty_transfer l co tr : Forall (fun r => 0 < size r) l -> 0 <= co <= offset -> co + covered l < 2 ^ 64 ->
  existsb empty_op (transfers w offset length b l false tr co) = true <-> ends_inside l (offset - co) length.
Proof.
  intros Hs. revert tr co. induction Hs as [|r l Hr Hs IH]; intros tr co Hco Hf.
  - split; [done|]. intros (l1 & r & l2 & H & _). by destruct l1.
  - cbn [transfers covered] in *. assert (0 <= covered l) as Hcl by (clear - Hs; induction Hs; simpl; lia).
    rewrite (u64_small (co + size r)) by lia.
    destruct (Z.ltb_spec offset (co + size r)) as [Hin|Hout].
    + rewrite (u64_small (offset - co)), (u64_small (size r - _)) by lia.
      set (n := Z.min (size r - (offset - co)) length). cbn [existsb]. rewrite empty_op_size.
      rewrite (proj2 (Z.eqb_neq n 0)) by lia. cbn [orb].
      destruct (Z.lt_ge_cases (size r - (offset - co)) length) as [Hlt|Hge].
      * rewrite begun_no_empty by (done || lia). split; [done|]. intros (l1 & x & l2 & Heq & _ & H1 & H2).
        destruct l1 as [|y l1]; cbn [app] in Heq; injection Heq as -> ->; cbn [covered] in *; [lia|].
        apply Forall_app in Hs as [Hs1 _]. assert (0 <= covered l1) by (clear - Hs1; induction Hs1; simpl; lia). lia.
      * replace n with length by lia. destruct l as [|y l].
        -- split; [done|]. intros (l1 & x & l2 & Heq & Hne & _). destruct l1 as [|? [|]]; cbn [app] in Heq; simplify_eq.
        -- cbn [transfers existsb]. rewrite empty_op_size, Z.sub_diag. apply Forall_cons in Hs as [Hy _].
           rewrite (u64_small 0), Z.min_r by lia. cbn [Z.eqb orb]. split; [|done]. intros _.
           exists [], r, (y :: l). split_and!; [done|done|simpl; lia|simpl; lia].
    + rewrite IH by lia. split.
      * intros (l1 & x & l2 & -> & Hne & H1 & H2). exists (r :: l1), x, l2. split_and!; [done|done|simpl; lia|simpl; lia].
      * intros (l1 & x & l2 & Heq & Hne & H1 & H2).
        destruct l1 as [|y l1]; cbn [app] in Heq; injection Heq as -> ->; cbn [covered] in *; [lia|].
        exists l1, x, l2. split_and!; [done|done|lia|lia].
Qed.
End Empty.

(** A request on a PRP list calls its function exactly once, when all its transfers have been answered, unless it
    ends inside a region that is not the last: then its last transfer is empty, the FIFO below drops it, and the
    function is never called. *)
Theorem request_completes_unless_it_ends_inside (w : bool) (s : t) (offset length b : Z)
    (Hsize : Forall (fun r => 0 < size r) (prpList s)) (Hfit : covered (prpList s) < 2 ^ 64)
    (Ho : 0 <= offset) (Hl : 0 < length) (Hin : offset + length < 2 ^ 64) :
  let ops := (request w s offset length (Some b)).1 in
  let c := (request w s offset length (Some b)).2 in
  (forall o f fifo, o ∈ ops -> op_size o = 0 -> Fifo.dma (fifo_req o f) fifo = Ok (tt, fifo)) /\
  (~ ends_inside (prpList s) offset length -> returned (Nat.iter (answers ops) commonDMAHandler c) = 1) /\
  (ends_inside (prpList s) offset length -> forall k, (k <= answers ops)%nat -> returned (Nat.iter k commonDMAHandler c) = 0).
Proof.
  intros ops c. pose proof (empty_transfer w offset length (Some b) Ho Hl Hin (prpList s) 0 0 Hsize ltac:(lia) ltac:(lia)) as He.
  rewrite Z.sub_0_r in He. pose proof (answers_existsb ops) as Ha. subst ops c. unfold request in *. cbn [fst snd] in *.
  set (ops := transfers w offset length (Some b) (prpList s) false 0 0) in *. cbn [ctx_counter returned] in *. split_and!.
  - intros o f fifo _ Hz. unfold Fifo.dma, fifo_req. cbn. unfold Fifo.dmaWrite, Fifo.dmaRead. cbn. rewrite Hz. by destruct (op_write o).
  - intros Hno. destruct (existsb empty_op ops); [by destruct Hno; apply He|]. rewrite Ha.
    destruct ops as [|o ops']; [done|]. rewrite (proj2 (Z.eqb_neq _ _)) by (unfold vlen; simpl; lia). apply handlers_end. simpl. lia.
  - intros Hyes k Hk. apply He in Hyes. rewrite Hyes in Ha. destruct ops as [|o ops']; [done|].
    rewrite (proj2 (Z.eqb_neq _ _)) by (unfold vlen; simpl; lia). rewrite handlers_run; [done|]. unfold vlen. lia.
Qed.
