(* ===== verification/DmaWitness.v ===== *)
(** * hil/nvme/dma.cc, util/fifo.cc: the theorems at concrete inputs *)

From S2P Require Import Prelude Fifo FifoProof FifoInv FifoTheorems Dma DmaProof DmaTheorems.

Import PRPList.

(** Two pages of 4 KiB, and a scatter gather list with a bit bucket. *)
Definition two_pages : t := mk [mkPRP 512 3584; mkPRP 8192 4096] 7680 4096 0 [] false 1.
Definition three_chunks : SGL.t :=
  SGL.mk [SGL.mkChunk 0 2 false; SGL.mkChunk 100 3 true; SGL.mkChunk 200 4 false] 9 0 [] false 1.

Lemma two_pages_ok : Forall prp_ok (prpList two_pages) /\ vlen (prp_bytes (prpList two_pages)) = 7680.
Proof.
  split; [repeat constructor; unfold chunk_of; simpl; lia|].
  rewrite covered_bytes by (repeat constructor; simpl; lia). reflexivity.
Qed.

Lemma requests_move_slice_witness :
  moves (SGL.request false three_chunks 1 6 (Some 50)).1 = [(1, 50); (200, 54); (201, 55)].
Proof.
  destruct two_pages_ok as [H1 H2].
  rewrite (proj1 (proj2 (requests_move_slice false two_pages three_chunks 1 6 50 H1 ltac:(rewrite H2; lia)
    ltac:(repeat constructor; simpl; lia) ltac:(vm_compute; reflexivity) ltac:(lia) ltac:(lia)))).
  vm_compute. reflexivity.
Defined.

Lemma pages_distinct : NoDup (prp_bytes (prpList two_pages)).
Proof.
  unfold prp_bytes. cbn [prpList two_pages mbind list_bind addr size]. rewrite app_nil_r. apply NoDup_app. split_and!.
  - apply NoDup_seqZ.
  - intros x H1 H2. apply elem_of_seqZ in H1, H2. lia.
  - apply NoDup_seqZ.
Qed.

Definition counting (a : Z) : Z := a mod 251.

Lemma written_data_is_read_back_witness :
  move_in (move_out counting (moves (PRPList.write two_pages 3580 8 (Some 100)).1) (fun _ => 0))
    (moves (PRPList.read two_pages 3580 8 (Some 900)).1) (fun _ => 0) 905 = counting 105.
Proof.
  destruct two_pages_ok as [H1 H2].
  apply (proj1 (written_data_is_read_back two_pages 3580 8 100 900 counting (fun _ => 0) (fun _ => 0) H1 pages_distinct
    ltac:(rewrite H2; lia) ltac:(lia) ltac:(lia) ltac:(rewrite H2; lia)) 5). lia.
Defined.

Lemma page_4096 : page_ok 4096.
Proof. by exists 12. Qed.

(** 4608 bytes from offset 512 of a page: the rest is one page, and is read as a list. *)
Lemma second_page_taken_for_list_witness :
  (construct 512 8192;; arrive_all 1 (fun _ => 0)) (make 4608 4096) = panic "prp_list: Invalid PRP in PRP List".
Proof.
  apply (second_page_taken_for_list 4096 4608 512 8192 (fun _ => 0) 0 page_4096 eq_refl ltac:(vm_compute; split; [reflexivity | discriminate])).
  reflexivity.
Defined.

(** Pages of 16 bytes: a list of two entries at 32 whose last one points to a list at 48. *)
Definition chained (a : Z) : Z :=
  if a =? 32 then 64 else if a =? 40 then 48 else if a =? 48 then 80 else if a =? 56 then 96 else 0.

Lemma chained_list_loses_page_witness :
  exists s', (arrive chained;; arrive chained) (waits 32 40 (make 40 16)) = Ok (tt, s') /\ covered (prpList s') = 32.
Proof.
  destruct (chained_list_loses_page chained (make 40 16) 32 40 48 0 [64]) as (s' & Hr & _ & _ & Hc & _).
  - by exists 4.
  - reflexivity.
  - lia.
  - vm_compute. reflexivity.
  - repeat constructor; done.
  - repeat constructor; done.
  - vm_compute. reflexivity.
  - vm_compute. discriminate.
  - reflexivity.
  - exists s'. split; [exact Hr | exact Hc].
Defined.

Lemma prp_list_gets_ready_witness :
  match (construct 0 32;; run_event;; arrive_all (Z.to_nat 40) chained) (make 40 16) with
  | Ok (_, s') => waiting s' = [] /\ immediateEvent s' = false /\ initialized s' = 1
  | Err e => e = UB \/ exists m, e = Panic m
  end.
Proof. apply (prp_list_gets_ready chained 16 40 0 32); [by exists 4 | lia]. Defined.

(** The first 64 bytes of two pages: an empty second transfer, and no completion. *)
Lemma request_completes_unless_it_ends_inside_witness :
  returned (Nat.iter 1 commonDMAHandler (PRPList.read two_pages 0 64 (Some 0)).2) = 0.
Proof.
  refine (proj2 (proj2 (request_completes_unless_it_ends_inside false two_pages 0 64 0 _ _ _ _ _)) _ 1%nat _).
  - repeat constructor.
  - vm_compute. reflexivity.
  - lia.
  - lia.
  - lia.
  - exists [], (mkPRP 512 3584), [mkPRP 8192 4096]. split_and!; [done | done | simpl; lia | simpl; lia].
  - vm_compute. lia.
Defined.

(** A FIFO with room for two units of four bytes. *)
Definition small_fifo : Fifo.FIFOParam := Fifo.mkFIFOParam 8 8 4 (fun n => n).
Definition fresh_fifo : Fifo.t := Fifo.mk 0 small_fifo 4 (Fifo.Queue_make 8) (Fifo.Queue_make 8) 0 [].

Lemma small_fifo_ok : param_ok small_fifo.
Proof. constructor; simpl; lia. Qed.

Definition write_ten : Fifo.Req := Fifo.mkReq true 100 10 (Some 0) 7.
Definition after_event (e : Fifo.Event) (s : Fifo.t) : Fifo.t := match Fifo.handle e s with Ok (_, s') => s' | Err _ => s end.
Definition asked_ten : Fifo.t := after_event (Fifo.Request write_ten) fresh_fifo.

Lemma write_ten_admissible s : vlen (Fifo.transferQueue (Fifo.readQueue s)) < 2 ^ 64 -> admissible (Fifo.Request write_ten) s.
Proof. intros H. split; [|done]. repeat constructor; simpl; lia. Qed.

Lemma fifo_serves_in_order_witness :
  (exists s', Fifo.handle (Fifo.Request write_ten) fresh_fifo = Ok (tt, s')) /\ served_in_order true (Fifo.writeQueue fresh_fifo).
Proof.
  destruct (fifo_serves_in_order small_fifo 0 fresh_fifo fresh_fifo small_fifo_ok eq_refl (rtc_refl _ _)) as (H1 & _ & H3).
  split; [|exact H3]. apply H1; [done|]. apply write_ten_admissible. reflexivity.
Defined.

(** Ten bytes are three units: twelve events at most, and one has happened. *)
Lemma fifo_runs_dry_witness :
  work asked_ten = 12 /\ exists s', drains 1 asked_ten s' /\ Z.of_nat 1 <= work asked_ten.
Proof.
  split; [reflexivity|].
  set (s1 := Fifo.set_now 4 asked_ten).
  assert (drains 1 asked_ten (after_event Fifo.WriteInserted s1)) as Hd.
  { apply (drains_time 1 4); [done | repeat constructor; vm_compute; discriminate |].
    apply (drains_event 0 Fifo.WriteInserted _ (after_event Fifo.WriteInserted s1)).
    - vm_compute. reflexivity.
    - split; [constructor | vm_compute; reflexivity].
    - reflexivity.
    - vm_compute. reflexivity.
    - apply drains_refl. }
  exists (after_event Fifo.WriteInserted s1). split; [exact Hd|].
  apply (proj1 (fifo_runs_dry small_fifo 0 fresh_fifo asked_ten _ 1 small_fifo_ok eq_refl
    (rtc_once _ _ (step_event (Fifo.Request write_ten) fresh_fifo asked_ten I
      (write_ten_admissible fresh_fifo ltac:(vm_compute; reflexivity)) ltac:(vm_compute; reflexivity))) Hd)).
Defined.
