(* ===== verification/NvmeQueue.v ===== *)
(** * hil/nvme/queue.cc: the queues of the NVMe controller

    A completion queue is a ring in the host memory that the controller writes
    and the host reads, a submission queue one that the host writes and the
    controller reads.  [CQEntry] and [SQEntry] are their entries; a member of
    the unions is read from or written to the bytes. *)

From S2P Require Import Prelude Dma.

(** [n] bytes of a number, the lowest first. *)
Fixpoint le_bytes (n : nat) (x : Z) : list Z :=
  match n with
  | O => []
  | S n => x mod 256 :: le_bytes n (x / 256)
  end.

(** [CQEntry] *)
Record CQEntry : Type := mkCQEntry {
  dword0 : Z; dword1 : Z; sqHead : Z; sqID : Z; commandID : Z; status : Z;
}.
Definition CQEntry_make : CQEntry := mkCQEntry 0 0 0 0 0 0.
(** [CQEntry::data] *)
Definition CQEntry_data (e : CQEntry) : list Z :=
  le_bytes 4 (dword0 e) ++ le_bytes 4 (dword1 e) ++ le_bytes 2 (sqHead e) ++ le_bytes 2 (sqID e) ++
  le_bytes 2 (commandID e) ++ le_bytes 2 (status e).
Definition set_status (v : Z) (e : CQEntry) : CQEntry :=
  mkCQEntry (dword0 e) (dword1 e) (sqHead e) (sqID e) (commandID e) v.
Definition set_sqHead (v : Z) (e : CQEntry) : CQEntry :=
  mkCQEntry (dword0 e) (dword1 e) v (sqID e) (commandID e) (status e).

(** [SQEntry], read from its 64 bytes. *)
Record SQEntry : Type := mkSQEntry {
  opcode : Z; fuse : Z; sq_commandID : Z; namespaceID : Z; metadata : Z; data1 : Z; data2 : Z;
  dword10 : Z; dword11 : Z; dword12 : Z; dword13 : Z; dword14 : Z; dword15 : Z;
}.
Definition field (data : list Z) (offset size : nat) : Z := le_word (take size (drop offset data)).
Definition SQEntry_of (data : list Z) : SQEntry :=
  mkSQEntry (field data 0 1) (field data 1 1) (field data 2 2) (field data 4 4) (field data 16 8)
    (field data 24 8) (field data 32 8) (field data 40 4) (field data 44 4) (field data 48 4)
    (field data 52 4) (field data 56 4) (field data 60 4).

(** [SQEntryWrapper]; [sqew_sqHead] and [sqew_sqUID] are [sqHead] and [sqUID]. *)
Record SQEntryWrapper : Type := mkSQEntryWrapper {
  sqew_entry : SQEntry; sqew_sqID : Z; sqew_cqID : Z; sqew_sqHead : Z; sqew_sqUID : Z; useSGL : bool;
}.
Definition SQEntryWrapper_make (sqdata : SQEntry) (sqid cqid sqhead squid : Z) : SQEntryWrapper :=
  mkSQEntryWrapper sqdata sqid cqid sqhead squid (negb (Z.shiftr (fuse sqdata) 6 =? 0)).

(** [CQEntryWrapper]; [submitAt] is set when the entry is submitted. *)
Record CQEntryWrapper : Type := mkCQEntryWrapper {
  cqew_entry : CQEntry; submitAt : Z; cqew_cqID : Z; cqew_sqUID : Z;
}.
Definition CQEntryWrapper_make (sqew : SQEntryWrapper) : CQEntryWrapper :=
  mkCQEntryWrapper
    (mkCQEntry 0 0 (sqew_sqHead sqew) (sqew_sqID sqew) (sq_commandID (sqew_entry sqew)) 0)
    0 (sqew_cqID sqew) (sqew_sqUID sqew).
Definition set_entry (e : CQEntry) (w : CQEntryWrapper) : CQEntryWrapper :=
  mkCQEntryWrapper e (submitAt w) (cqew_cqID w) (cqew_sqUID w).
Definition set_submitAt (tick : Z) (w : CQEntryWrapper) : CQEntryWrapper :=
  mkCQEntryWrapper (cqew_entry w) tick (cqew_cqID w) (cqew_sqUID w).

(** The status word of [makeStatus]. *)
Definition status_word (dnr more : bool) (sct sc : Z) : Z :=
  let s := u16 (Z.shiftl (Z.b2z dnr) 15) in
  let s := u16 (Z.lor s (Z.shiftl (Z.b2z more) 14)) in
  let s := u16 (Z.lor s (Z.shiftl (Z.land sct 7) 9)) in
  u16 (Z.lor s (Z.shiftl (Z.land sc 255) 1)).
Definition makeStatus (dnr more : bool) (sct sc : Z) (w : CQEntryWrapper) : CQEntryWrapper :=
  set_entry (set_status (status_word dnr more sct sc) (cqew_entry w)) w.

(** [Queue]; a null [base] is [None]. *)
Record Queue : Type := mkQueue {
  id : Z; head : Z; tail : Z; size : Z; stride : Z; base : option PRPList.t;
}.
Definition Queue_make (qid length : Z) : Queue := mkQueue qid 0 0 length 0 None.
Definition set_head (v : Z) (q : Queue) : Queue := mkQueue (id q) v (tail q) (size q) (stride q) (base q).
Definition set_tail (v : Z) (q : Queue) : Queue := mkQueue (id q) (head q) v (size q) (stride q) (base q).
Definition set_base (p : option PRPList.t) (s : Z) (q : Queue) : Queue :=
  mkQueue (id q) (head q) (tail q) (size q) s p.

Definition getItemCount (q : Queue) : Z :=
  u16 (if head q <=? tail q then tail q - head q else (size q - head q) + tail q).

(** [index++; if (index == size) index = 0;] *)
Definition next_index (size i : Z) : Z := let i := u16 (i + 1) in if i =? size then 0 else i.

(** The call of [base->read] or [base->write] for the entry at an index. *)
Definition transfer (write : bool) (q : Queue) (index bytes : Z) : res (list DmaOp * DMAContext) :=
  match base q with
  | Some p => Ok (PRPList.request write p (u64 (index * stride q)) bytes (Some 0))
  | None => Err UB
  end.

(** [CQueue] *)
Record CQueue : Type := mkCQueue { cqueue : Queue; ien : bool; phase : bool; interruptVector : Z }.
Definition CQueue_make (iv : Z) (en : bool) (qid size : Z) : CQueue := mkCQueue (Queue_make qid size) en true iv.
Definition with_cqueue (q : Queue) (c : CQueue) : CQueue := mkCQueue q (ien c) (phase c) (interruptVector c).

Definition tag (phase : bool) (e : CQEntry) : CQEntry :=
  set_status (Z.lor (Z.land (status e) 65534) (Z.b2z phase)) e.

(** [CQueue::setData]: the entry written, the transfers it takes and the queue. *)
Definition CQueue_setData (entry : CQEntry) (c : CQueue) : res (CQEntry * (list DmaOp * DMAContext) * CQueue) :=
  let entry := tag (phase c) entry in
  op ← transfer true (cqueue c) (tail (cqueue c)) 16;
  let i := u16 (tail (cqueue c) + 1) in
  let wraps := i =? size (cqueue c) in
  let q := set_tail (if wraps then 0 else i) (cqueue c) in
  if head q =? tail q then panic "Completion queue overflow"
  else Ok (entry, op, mkCQueue q (ien c) (if wraps then negb (phase c) else phase c) (interruptVector c)).

Definition CQueue_incHead (c : CQueue) : Z * CQueue :=
  let h := next_index (size (cqueue c)) (head (cqueue c)) in (h, with_cqueue (set_head h (cqueue c)) c).
Definition CQueue_setHead (newHead : Z) (c : CQueue) : CQueue := with_cqueue (set_head newHead (cqueue c)) c.

(** [SQueue] *)
Record SQueue : Type := mkSQueue { squeue : Queue; cqID : Z; priority : Z }.
Definition SQueue_make (cqid pri qid size : Z) : SQueue := mkSQueue (Queue_make qid size) cqid pri.
Definition with_squeue (q : Queue) (s : SQueue) : SQueue := mkSQueue q (cqID s) (priority s).
Definition SQueue_setTail (newTail : Z) (s : SQueue) : SQueue := with_squeue (set_tail newTail (squeue s)) s.

(** [SQueue::getData]: no transfer when the queue is empty. *)
Definition SQueue_getData (s : SQueue) : res (option (list DmaOp * DMAContext) * SQueue) :=
  let q := squeue s in
  if negb (head q =? tail q) then
    op ← transfer false q (head q) 64;
    Ok (Some op, with_squeue (set_head (next_index (size q) (head q)) q) s)
  else Ok (None, s).
