(* ===== verification/Controller.v ===== *)
(** * hil/nvme/controller.cc: the NVMe controller

    The controller has registers and doorbells for the host, an array of
    completion and one of submission queues, and two lists: the commands fetched
    from the submission queues and the completions to be posted.  Three events of
    the engine drive it: [work] fetches commands, [handleRequest] hands one to the
    subsystem, [completion] posts the entries that are due and raises interrupts.

    The members are the record [t].  [Env] holds what the controller has asked
    others to do: scheduled events, transfers on their way, functions given to the
    CPU, the commands handed to the subsystem and the interrupts.  What they answer
    is an operation: [answer], [run_job], the events and [submit].

    A pointer to a submission queue that a transfer keeps is the number of the
    queue's allocation; the queue may be gone when the transfer is answered. *)

From stdpp Require Import sorting.
From S2P Require Import Prelude Types Dma Fifo NvmeQueue.

(** ** Data *)

(** [RegisterTable] *)
Record RegisterTable : Type := mkRegisterTable {
  capabilities : Z;
  version : Z;
  interruptMaskSet : Z;
  interruptMaskClear : Z;
  configuration : Z;
  reserved : Z;
  status : Z;
  subsystemReset : Z;
  adminQueueAttributes : Z;
  adminSQueueBaseAddress : Z;
  adminCQueueBaseAddress : Z;
  memoryBufferLocation : Z;
  memoryBufferSize : Z;
}.
Definition reg_interruptMaskSet (v : Z) (r : RegisterTable) : RegisterTable :=
  mkRegisterTable (capabilities r) (version r) v (interruptMaskClear r) (configuration r) (reserved r) (status r)
    (subsystemReset r) (adminQueueAttributes r) (adminSQueueBaseAddress r) (adminCQueueBaseAddress r)
    (memoryBufferLocation r) (memoryBufferSize r).
Definition reg_interruptMaskClear (v : Z) (r : RegisterTable) : RegisterTable :=
  mkRegisterTable (capabilities r) (version r) (interruptMaskSet r) v (configuration r) (reserved r) (status r)
    (subsystemReset r) (adminQueueAttributes r) (adminSQueueBaseAddress r) (adminCQueueBaseAddress r)
    (memoryBufferLocation r) (memoryBufferSize r).
Definition reg_configuration (v : Z) (r : RegisterTable) : RegisterTable :=
  mkRegisterTable (capabilities r) (version r) (interruptMaskSet r) (interruptMaskClear r) v (reserved r)
    (status r) (subsystemReset r) (adminQueueAttributes r) (adminSQueueBaseAddress r) (adminCQueueBaseAddress r)
    (memoryBufferLocation r) (memoryBufferSize r).
Definition reg_status (v : Z) (r : RegisterTable) : RegisterTable :=
  mkRegisterTable (capabilities r) (version r) (interruptMaskSet r) (interruptMaskClear r) (configuration r)
    (reserved r) v (subsystemReset r) (adminQueueAttributes r) (adminSQueueBaseAddress r)
    (adminCQueueBaseAddress r) (memoryBufferLocation r) (memoryBufferSize r).
Definition reg_subsystemReset (v : Z) (r : RegisterTable) : RegisterTable :=
  mkRegisterTable (capabilities r) (version r) (interruptMaskSet r) (interruptMaskClear r) (configuration r)
    (reserved r) (status r) v (adminQueueAttributes r) (adminSQueueBaseAddress r) (adminCQueueBaseAddress r)
    (memoryBufferLocation r) (memoryBufferSize r).
Definition reg_adminQueueAttributes (v : Z) (r : RegisterTable) : RegisterTable :=
  mkRegisterTable (capabilities r) (version r) (interruptMaskSet r) (interruptMaskClear r) (configuration r)
    (reserved r) (status r) (subsystemReset r) v (adminSQueueBaseAddress r) (adminCQueueBaseAddress r)
    (memoryBufferLocation r) (memoryBufferSize r).
Definition reg_adminSQueueBaseAddress (v : Z) (r : RegisterTable) : RegisterTable :=
  mkRegisterTable (capabilities r) (version r) (interruptMaskSet r) (interruptMaskClear r) (configuration r)
    (reserved r) (status r) (subsystemReset r) (adminQueueAttributes r) v (adminCQueueBaseAddress r)
    (memoryBufferLocation r) (memoryBufferSize r).
Definition reg_adminCQueueBaseAddress (v : Z) (r : RegisterTable) : RegisterTable :=
  mkRegisterTable (capabilities r) (version r) (interruptMaskSet r) (interruptMaskClear r) (configuration r)
    (reserved r) (status r) (subsystemReset r) (adminQueueAttributes r) (adminSQueueBaseAddress r) v
    (memoryBufferLocation r) (memoryBufferSize r).
(** [RegisterTable::data] *)
Definition RegisterTable_data (r : RegisterTable) : list Z :=
  le_bytes 8 (capabilities r) ++ le_bytes 4 (version r) ++ le_bytes 4 (interruptMaskSet r) ++
  le_bytes 4 (interruptMaskClear r) ++ le_bytes 4 (configuration r) ++ le_bytes 4 (reserved r) ++
  le_bytes 4 (status r) ++ le_bytes 4 (subsystemReset r) ++ le_bytes 4 (adminQueueAttributes r) ++
  le_bytes 8 (adminSQueueBaseAddress r) ++ le_bytes 8 (adminCQueueBaseAddress r) ++
  le_bytes 4 (memoryBufferLocation r) ++ le_bytes 4 (memoryBufferSize r).

(** The registers after the constructor. *)
Definition RegisterTable_make : RegisterTable :=
  mkRegisterTable 0x0020002028010FFF 0x00010201 0 0 0 0 0 0 0 0 0 0 0.

(** [AggregationInfo] *)
Record AggregationInfo : Type := mkAggregationInfo { nextTime : Z; requestCount : Z; valid : bool; pending : bool }.

(** The configuration the controller reads. *)
Record Conf : Type := mkConf { maxRequest : Z; workInterval : Z; wrrHigh : Z; wrrMedium : Z; bUseOCSSD : bool }.
Definition requestInterval (c : Conf) : Z := workInterval c / maxRequest c.

(** [DMAContext] of [collectSQueue] and of [completion]; the latter carries the
    interrupt vectors to post. *)
Record Ctx : Type := mkCtx { counter : Z; posts : option (list Z) }.

(** The function of a transfer, with its context. *)
Inductive DoneFn : Type :=
  | doRead (pQueue qid oldhead : Z) (context : nat)
  | doSubmit (data : list Z) (context : nat).
Record Transfer : Type := mkTransfer { tr_ops : list DmaOp; tr_context : DMAContext; tr_func : DoneFn }.

(** The functions given to the CPU. *)
Inductive Job : Type :=
  | queueFunction
  | doRequest
  | handle
  | submitCommand (req : SQEntryWrapper)
  | send (ivToPost : list Z)
  | created (sq : bool) (func : Z).

(** The labels they are executed under. *)
Definition create_cq_label : NAMESPACE * FUNCTION := (NVME__CONTROLLER, CREATE_CQ).
Definition create_sq_label : NAMESPACE * FUNCTION := (NVME__CONTROLLER, CREATE_SQ).
Definition handle_label : NAMESPACE * FUNCTION := (NVME__CONTROLLER, HANDLE_REQUEST).
Definition collect_label : NAMESPACE * FUNCTION := (NVME__CONTROLLER, COLLECT_SQ).
Definition work_label : NAMESPACE * FUNCTION := (NVME__CONTROLLER, WORK).
Definition completion_label : NAMESPACE * FUNCTION := (NVME__CONTROLLER, COMPLETION).
Definition submit_label (c : Conf) : NAMESPACE * FUNCTION := (if bUseOCSSD c then NVME__OCSSD else NVME__SUBSYSTEM, SUBMIT_COMMAND).
Definition job_label (c : Conf) (j : Job) : NAMESPACE * FUNCTION :=
  match j with
  | queueFunction => work_label
  | doRequest => collect_label
  | handle => handle_label
  | submitCommand _ => submit_label c
  | send _ => completion_label
  | created sq _ => if sq then create_sq_label else create_cq_label
  end.

(** A queue whose list of pages is being collected, and the function to call then. *)
Record Creating : Type := mkCreating { cr_sq : bool; cr_qid : Z; cr_func : Z }.

(** What the controller has asked of the engine, the interconnect, the CPU, the subsystem
    and the host. *)
Record Env : Type := mkEnv {
  now : Z;
  workEvent : option Z;
  requestEvent : option Z;
  completionEvent : option Z;
  contexts : list (option Ctx);
  inflight : list Transfer;
  jobs : list Job;
  creating : list Creating;
  allocated : Z;
  interrupts : list (Z * bool);
  handed : list SQEntryWrapper;
}.
Definition set_now (v : Z) (e : Env) : Env :=
  mkEnv v (workEvent e) (requestEvent e) (completionEvent e) (contexts e) (inflight e) (jobs e) (creating e)
    (allocated e) (interrupts e) (handed e).
Definition set_workEvent (v : option Z) (e : Env) : Env :=
  mkEnv (now e) v (requestEvent e) (completionEvent e) (contexts e) (inflight e) (jobs e) (creating e)
    (allocated e) (interrupts e) (handed e).
Definition set_requestEvent (v : option Z) (e : Env) : Env :=
  mkEnv (now e) (workEvent e) v (completionEvent e) (contexts e) (inflight e) (jobs e) (creating e) (allocated e)
    (interrupts e) (handed e).
Definition set_completionEvent (v : option Z) (e : Env) : Env :=
  mkEnv (now e) (workEvent e) (requestEvent e) v (contexts e) (inflight e) (jobs e) (creating e) (allocated e)
    (interrupts e) (handed e).
Definition set_contexts (v : list (option Ctx)) (e : Env) : Env :=
  mkEnv (now e) (workEvent e) (requestEvent e) (completionEvent e) v (inflight e) (jobs e) (creating e)
    (allocated e) (interrupts e) (handed e).
Definition set_inflight (v : list Transfer) (e : Env) : Env :=
  mkEnv (now e) (workEvent e) (requestEvent e) (completionEvent e) (contexts e) v (jobs e) (creating e)
    (allocated e) (interrupts e) (handed e).
Definition set_jobs (v : list Job) (e : Env) : Env :=
  mkEnv (now e) (workEvent e) (requestEvent e) (completionEvent e) (contexts e) (inflight e) v (creating e)
    (allocated e) (interrupts e) (handed e).
Definition set_creating (v : list Creating) (e : Env) : Env :=
  mkEnv (now e) (workEvent e) (requestEvent e) (completionEvent e) (contexts e) (inflight e) (jobs e) v
    (allocated e) (interrupts e) (handed e).
Definition set_allocated (v : Z) (e : Env) : Env :=
  mkEnv (now e) (workEvent e) (requestEvent e) (completionEvent e) (contexts e) (inflight e) (jobs e) (creating e)
    v (interrupts e) (handed e).
Definition set_interrupts (v : list (Z * bool)) (e : Env) : Env :=
  mkEnv (now e) (workEvent e) (requestEvent e) (completionEvent e) (contexts e) (inflight e) (jobs e) (creating e)
    (allocated e) v (handed e).
Definition set_handed (v : list SQEntryWrapper) (e : Env) : Env :=
  mkEnv (now e) (workEvent e) (requestEvent e) (completionEvent e) (contexts e) (inflight e) (jobs e) (creating e)
    (allocated e) (interrupts e) v.

(** [Controller] *)
Record t : Type := mk {
  registers : RegisterTable;
  sqstride : Z;
  cqstride : Z;
  adminQueueInited : Z;
  arbitration : Z;
  interruptMask : Z;
  memoryPageSize : Z;
  ppCQueue : list (option CQueue);
  ppSQueue : list (option (Z * SQueue));
  lSQFIFO : list SQEntryWrapper;
  lCQFIFO : list CQEntryWrapper;
  shutdownReserved : bool;
  aggregationTime : Z;
  aggregationThreshold : Z;
  aggregationMap : gmap Z AggregationInfo;
  requestCounter : Z;
  lastWorkAt : Z;
  env : Env;
}.
Definition set_registers (v : RegisterTable) (s : t) : t :=
  mk v (sqstride s) (cqstride s) (adminQueueInited s) (arbitration s) (interruptMask s) (memoryPageSize s)
    (ppCQueue s) (ppSQueue s) (lSQFIFO s) (lCQFIFO s) (shutdownReserved s) (aggregationTime s)
    (aggregationThreshold s) (aggregationMap s) (requestCounter s) (lastWorkAt s) (env s).
Definition set_sqstride (v : Z) (s : t) : t :=
  mk (registers s) v (cqstride s) (adminQueueInited s) (arbitration s) (interruptMask s) (memoryPageSize s)
    (ppCQueue s) (ppSQueue s) (lSQFIFO s) (lCQFIFO s) (shutdownReserved s) (aggregationTime s)
    (aggregationThreshold s) (aggregationMap s) (requestCounter s) (lastWorkAt s) (env s).
Definition set_cqstride (v : Z) (s : t) : t :=
  mk (registers s) (sqstride s) v (adminQueueInited s) (arbitration s) (interruptMask s) (memoryPageSize s)
    (ppCQueue s) (ppSQueue s) (lSQFIFO s) (lCQFIFO s) (shutdownReserved s) (aggregationTime s)
    (aggregationThreshold s) (aggregationMap s) (requestCounter s) (lastWorkAt s) (env s).
Definition set_adminQueueInited (v : Z) (s : t) : t :=
  mk (registers s) (sqstride s) (cqstride s) v (arbitration s) (interruptMask s) (memoryPageSize s) (ppCQueue s)
    (ppSQueue s) (lSQFIFO s) (lCQFIFO s) (shutdownReserved s) (aggregationTime s) (aggregationThreshold s)
    (aggregationMap s) (requestCounter s) (lastWorkAt s) (env s).
Definition set_arbitration (v : Z) (s : t) : t :=
  mk (registers s) (sqstride s) (cqstride s) (adminQueueInited s) v (interruptMask s) (memoryPageSize s)
    (ppCQueue s) (ppSQueue s) (lSQFIFO s) (lCQFIFO s) (shutdownReserved s) (aggregationTime s)
    (aggregationThreshold s) (aggregationMap s) (requestCounter s) (lastWorkAt s) (env s).
Definition set_interruptMask (v : Z) (s : t) : t :=
  mk (registers s) (sqstride s) (cqstride s) (adminQueueInited s) (arbitration s) v (memoryPageSize s) (ppCQueue s)
    (ppSQueue s) (lSQFIFO s) (lCQFIFO s) (shutdownReserved s) (aggregationTime s) (aggregationThreshold s)
    (aggregationMap s) (requestCounter s) (lastWorkAt s) (env s).
Definition set_memoryPageSize (v : Z) (s : t) : t :=
  mk (registers s) (sqstride s) (cqstride s) (adminQueueInited s) (arbitration s) (interruptMask s) v (ppCQueue s)
    (ppSQueue s) (lSQFIFO s) (lCQFIFO s) (shutdownReserved s) (aggregationTime s) (aggregationThreshold s)
    (aggregationMap s) (requestCounter s) (lastWorkAt s) (env s).
Definition set_ppCQueue (v : list (option CQueue)) (s : t) : t :=
  mk (registers s) (sqstride s) (cqstride s) (adminQueueInited s) (arbitration s) (interruptMask s)
    (memoryPageSize s) v (ppSQueue s) (lSQFIFO s) (lCQFIFO s) (shutdownReserved s) (aggregationTime s)
    (aggregationThreshold s) (aggregationMap s) (requestCounter s) (lastWorkAt s) (env s).
Definition set_ppSQueue (v : list (option (Z * SQueue))) (s : t) : t :=
  mk (registers s) (sqstride s) (cqstride s) (adminQueueInited s) (arbitration s) (interruptMask s)
    (memoryPageSize s) (ppCQueue s) v (lSQFIFO s) (lCQFIFO s) (shutdownReserved s) (aggregationTime s)
    (aggregationThreshold s) (aggregationMap s) (requestCounter s) (lastWorkAt s) (env s).
Definition set_lSQFIFO (v : list SQEntryWrapper) (s : t) : t :=
  mk (registers s) (sqstride s) (cqstride s) (adminQueueInited s) (arbitration s) (interruptMask s)
    (memoryPageSize s) (ppCQueue s) (ppSQueue s) v (lCQFIFO s) (shutdownReserved s) (aggregationTime s)
    (aggregationThreshold s) (aggregationMap s) (requestCounter s) (lastWorkAt s) (env s).
Definition set_lCQFIFO (v : list CQEntryWrapper) (s : t) : t :=
  mk (registers s) (sqstride s) (cqstride s) (adminQueueInited s) (arbitration s) (interruptMask s)
    (memoryPageSize s) (ppCQueue s) (ppSQueue s) (lSQFIFO s) v (shutdownReserved s) (aggregationTime s)
    (aggregationThreshold s) (aggregationMap s) (requestCounter s) (lastWorkAt s) (env s).
Definition set_shutdownReserved (v : bool) (s : t) : t :=
  mk (registers s) (sqstride s) (cqstride s) (adminQueueInited s) (arbitration s) (interruptMask s)
    (memoryPageSize s) (ppCQueue s) (ppSQueue s) (lSQFIFO s) (lCQFIFO s) v (aggregationTime s)
    (aggregationThreshold s) (aggregationMap s) (requestCounter s) (lastWorkAt s) (env s).
Definition set_aggregationTime (v : Z) (s : t) : t :=
  mk (registers s) (sqstride s) (cqstride s) (adminQueueInited s) (arbitration s) (interruptMask s)
    (memoryPageSize s) (ppCQueue s) (ppSQueue s) (lSQFIFO s) (lCQFIFO s) (shutdownReserved s) v
    (aggregationThreshold s) (aggregationMap s) (requestCounter s) (lastWorkAt s) (env s).
Definition set_aggregationThreshold (v : Z) (s : t) : t :=
  mk (registers s) (sqstride s) (cqstride s) (adminQueueInited s) (arbitration s) (interruptMask s)
    (memoryPageSize s) (ppCQueue s) (ppSQueue s) (lSQFIFO s) (lCQFIFO s) (shutdownReserved s) (aggregationTime s) v
    (aggregationMap s) (requestCounter s) (lastWorkAt s) (env s).
Definition set_aggregationMap (v : gmap Z AggregationInfo) (s : t) : t :=
  mk (registers s) (sqstride s) (cqstride s) (adminQueueInited s) (arbitration s) (interruptMask s)
    (memoryPageSize s) (ppCQueue s) (ppSQueue s) (lSQFIFO s) (lCQFIFO s) (shutdownReserved s) (aggregationTime s)
    (aggregationThreshold s) v (requestCounter s) (lastWorkAt s) (env s).
Definition set_requestCounter (v : Z) (s : t) : t :=
  mk (registers s) (sqstride s) (cqstride s) (adminQueueInited s) (arbitration s) (interruptMask s)
    (memoryPageSize s) (ppCQueue s) (ppSQueue s) (lSQFIFO s) (lCQFIFO s) (shutdownReserved s) (aggregationTime s)
    (aggregationThreshold s) (aggregationMap s) v (lastWorkAt s) (env s).
Definition set_lastWorkAt (v : Z) (s : t) : t :=
  mk (registers s) (sqstride s) (cqstride s) (adminQueueInited s) (arbitration s) (interruptMask s)
    (memoryPageSize s) (ppCQueue s) (ppSQueue s) (lSQFIFO s) (lCQFIFO s) (shutdownReserved s) (aggregationTime s)
    (aggregationThreshold s) (aggregationMap s) (requestCounter s) v (env s).
Definition set_env (v : Env) (s : t) : t :=
  mk (registers s) (sqstride s) (cqstride s) (adminQueueInited s) (arbitration s) (interruptMask s)
    (memoryPageSize s) (ppCQueue s) (ppSQueue s) (lSQFIFO s) (lCQFIFO s) (shutdownReserved s) (aggregationTime s)
    (aggregationThreshold s) (aggregationMap s) (requestCounter s) (lastWorkAt s) v.

(** ** Helpers *)

Definition modify_env (f : Env -> Env) : M t unit := modify (fun s => set_env (f (env s)) s).
Definition envs {A} (f : Env -> A) : M t A := gets (fun s => f (env s)).
Definition cqsize (s : t) : Z := vlen (ppCQueue s).
Definition sqsize (s : t) : Z := vlen (ppSQueue s).

(** [ppCQueue[i]] and [ppSQueue[i]], and their targets. *)
Definition cq_slot (i : Z) : M t (option CQueue) := s ← get; lift (get_raw (ppCQueue s) i).
Definition sq_slot (i : Z) : M t (option (Z * SQueue)) := s ← get; lift (get_raw (ppSQueue s) i).
Definition deref {A} (o : option A) : M t A := match o with Some a => mret a | None => fail UB end.
Definition put_cq (i : Z) (q : option CQueue) : M t unit :=
  s ← get; l ← lift (set_raw (ppCQueue s) i q); modify (set_ppCQueue l).
Definition put_sq (i : Z) (q : option (Z * SQueue)) : M t unit :=
  s ← get; l ← lift (set_raw (ppSQueue s) i q); modify (set_ppSQueue l).

(** The loop [for (uint16_t i = lo; i < n; i++)]: from 2^16 on the index never leaves. *)
Definition for_u16 {A} (lo n : Z) (body : Z -> A -> M t A) (a : A) : M t A :=
  if n <? 65536 then for_range lo n body a
  else for_range lo 65536 body a ≫= fun _ => fail NoReturn.

(** [schedule], [deschedule], [getTick], [execute], [updateInterrupt] *)
Definition schedule (set : option Z -> Env -> Env) (tick : Z) : M t unit :=
  modify_env (fun e => set (Fifo.at_tick (now e) tick) e).
Definition deschedule (set : option Z -> Env -> Env) : M t unit := modify_env (set None).
Definition execute (j : Job) : M t unit := modify_env (fun e => set_jobs (jobs e ++ [j]) e).
Definition updateInterrupt (iv : Z) (post : bool) : M t unit :=
  modify_env (fun e => set_interrupts (interrupts e ++ [(iv, post)]) e).
Definition modify_regs (f : RegisterTable -> RegisterTable) : M t unit :=
  modify (fun s => set_registers (f (registers s)) s).

(** [new DMAContext], the change of its counter, and its function when the counter
    reaches 0. *)
Definition new_context (posts : option (list Z)) : M t nat :=
  l ← envs contexts; modify_env (set_contexts (l ++ [Some (mkCtx 0 posts)]));; mret (length l).
Definition the_context (i : nat) : M t Ctx := l ← envs contexts; deref (mjoin (l !! i)).
Definition put_context (i : nat) (c : option Ctx) : M t unit :=
  modify_env (fun e => set_contexts (<[i := c]> (contexts e)) e).
Definition call_context (i : nat) (c : Ctx) : M t unit :=
  execute (match posts c with Some l => send l | None => queueFunction end);; put_context i None.
Definition count_up (i : nat) : M t unit :=
  c ← the_context i; put_context i (Some (mkCtx (counter c + 1) (posts c))).
(** [doQueue] and [doSubmit] *)
Definition count_down (i : nat) : M t unit :=
  c ← the_context i;
  let c := mkCtx (counter c - 1) (posts c) in
  if counter c =? 0 then call_context i c else put_context i (Some c).

(** A new transfer is on its way. *)
Definition start (op : list DmaOp * DMAContext) (f : DoneFn) : M t unit :=
  modify_env (fun e => set_inflight (inflight e ++ [mkTransfer op.1 op.2 f]) e).

(** ** Registers and doorbells *)

Definition REG_INTERRUPT_MASK_SET : Z := 0x0C.
Definition REG_INTERRUPT_MASK_CLEAR : Z := 0x10.
Definition REG_CONTROLLER_CONFIG : Z := 0x14.
Definition REG_CONTROLLER_STATUS : Z := 0x1C.
Definition REG_NVM_SUBSYSTEM_RESET : Z := 0x20.
Definition REG_ADMIN_QUEUE_ATTRIBUTE : Z := 0x24.
Definition REG_ADMIN_SQUEUE_BASE_ADDR : Z := 0x28.
Definition REG_ADMIN_CQUEUE_BASE_ADDR : Z := 0x30.

Definition readRegister (offset size : Z) : M t (list Z) :=
  modify (fun s => set_registers
    (reg_interruptMaskClear (interruptMask s) (reg_interruptMaskSet (interruptMask s) (registers s))) s);;
  s ← get;
  if offset + size <=? 64 then mret (take (Z.to_nat size) (drop (Z.to_nat offset) (RegisterTable_data (registers s))))
  else fail UB.

(** [(int)powf(2.f, (configuration & mask) >> shift)] *)
Definition pow_field (configuration mask shift : Z) : Z := 2 ^ Z.shiftr (Z.land configuration mask) shift.

(** [new PRPList(cfgdata, empty, nullptr, base, size, true)] and the like *)
Definition new_base (base size : Z) (cont : bool) : M t PRPList.t :=
  s ← get;
  lift (r ← PRPList.construct_base base size cont (PRPList.make size (memoryPageSize s)); Ok (snd r)).

Definition rebase_cq (i base : Z) (cont : bool) (q : CQueue) : M t CQueue :=
  s ← get;
  p ← new_base base (u64 (size (cqueue q) * cqstride s)) cont;
  mret (with_cqueue (set_base (Some p) (cqstride s) (cqueue q)) q).
Definition rebase_sq (i base : Z) (cont : bool) (q : SQueue) : M t SQueue :=
  s ← get;
  p ← new_base base (u64 (size (squeue q) * sqstride s)) cont;
  mret (with_squeue (set_base (Some p) (sqstride s) (squeue q)) q).

Section Operations.
  Context (c : Conf).

(** The case [REG_CONTROLLER_CONFIG] *)
Definition write_config (uiTemp32 : Z) : M t unit :=
  modify_regs (fun r => reg_configuration
    (Z.lor (Z.land (configuration r) 0xFF00000E) (Z.land uiTemp32 0x00FFFFF1)) r);;
  s ← get;
  let conf := configuration (registers s) in
  modify (fun s => set_cqstride (pow_field conf 0x00F00000 20) (set_sqstride (pow_field conf 0x000F0000 16) s));;
  modify (set_memoryPageSize (2 ^ (Z.shiftr (Z.land conf 0x780) 7 + 11 + 1)));;
  modify (set_arbitration (Z.shiftr (Z.land conf 0x00003800) 11));;
  cq ← cq_slot 0;
  (match cq with
   | Some q => q ← rebase_cq 0 (adminCQueueBaseAddress (registers s)) true q; put_cq 0 (Some q)
   | None => mret tt
   end);;
  sq ← sq_slot 0;
  (match sq with
   | Some (n, q) => q ← rebase_sq 0 (adminSQueueBaseAddress (registers s)) true q; put_sq 0 (Some (n, q))
   | None => mret tt
   end);;
  if negb (Z.land conf 0x0000C000 =? 0) then
    modify_regs (fun r => reg_status (Z.lor (Z.land (status r) 0xFFFFFFF2) 5) r);;
    modify (set_shutdownReserved true)
  else if negb (Z.land conf 1 =? 0) then
    modify_regs (fun r => reg_status (Z.lor (status r) 1) r);;
    e ← envs now; schedule set_workEvent (u64 (e + workInterval c))
  else
    modify_regs (fun r => reg_status (Z.land (status r) 0xFFFFFFFE) r);;
    deschedule set_workEvent.

(** Four bytes of a 64-bit register. *)
Definition set_low (v x : Z) : Z := Z.lor (Z.land x 0xFFFFFFFF00000000) v.
Definition set_high (v x : Z) : Z := Z.lor (Z.land x 0xFFFFFFFF) (Z.shiftl v 32).

Definition inited (n : Z) : M t unit := modify (fun s => set_adminQueueInited (u8 (adminQueueInited s + n)) s).

Definition new_squeue (cqid pri qid size : Z) : M t (Z * SQueue) :=
  n ← envs allocated; modify_env (set_allocated (n + 1));; mret (n, SQueue_make cqid pri qid size).

(** [adminQueueInited == 4] *)
Definition create_admin_queues : M t unit :=
  s ← get;
  when (adminQueueInited s =? 4)
    (modify (set_adminQueueInited 0);;
     let aqa := adminQueueAttributes (registers s) in
     put_cq 0 (Some (CQueue_make 0 true 0 (u16 (Z.shiftr (Z.land aqa 0x0FFF0000) 16 + 1))));;
     q ← new_squeue 0 0 0 (u16 (Z.land aqa 0x0FFF + 1));
     put_sq 0 (Some q)).

Definition read_only : string := "nvme_ctrl: Write on read only register".

Definition writeRegister (offset size : Z) (buffer : list Z) : M t unit :=
  (if size =? 4 then
     let v := le_word (take 4 buffer) in
     if offset =? REG_INTERRUPT_MASK_SET then modify (fun s => set_interruptMask (Z.lor (interruptMask s) v) s)
     else if offset =? REG_INTERRUPT_MASK_CLEAR then modify (fun s => set_interruptMask (Z.ldiff (interruptMask s) v) s)
     else if offset =? REG_CONTROLLER_CONFIG then write_config v
     else if offset =? REG_CONTROLLER_STATUS then
       when (negb (Z.land v 0x10 =? 0)) (modify_regs (fun r => reg_status (Z.land (status r) 0xFFFFFFEF) r))
     else if offset =? REG_NVM_SUBSYSTEM_RESET then modify_regs (reg_subsystemReset v)
     else if offset =? REG_ADMIN_QUEUE_ATTRIBUTE then
       modify_regs (fun r => reg_adminQueueAttributes
         (Z.lor (Z.land (adminQueueAttributes r) 0xF000F000) (Z.land v 0x0FFF0FFF)) r)
     else if offset =? REG_ADMIN_CQUEUE_BASE_ADDR then
       modify_regs (fun r => reg_adminCQueueBaseAddress (set_low v (adminCQueueBaseAddress r)) r);; inited 1
     else if offset =? REG_ADMIN_CQUEUE_BASE_ADDR + 4 then
       modify_regs (fun r => reg_adminCQueueBaseAddress (set_high v (adminCQueueBaseAddress r)) r);; inited 1
     else if offset =? REG_ADMIN_SQUEUE_BASE_ADDR then
       modify_regs (fun r => reg_adminSQueueBaseAddress (set_low v (adminSQueueBaseAddress r)) r);; inited 1
     else if offset =? REG_ADMIN_SQUEUE_BASE_ADDR + 4 then
       modify_regs (fun r => reg_adminSQueueBaseAddress (set_high v (adminSQueueBaseAddress r)) r);; inited 1
     else mpanic read_only
   else if size =? 8 then
     let v := le_word (take 8 buffer) in
     if offset =? REG_ADMIN_CQUEUE_BASE_ADDR then modify_regs (reg_adminCQueueBaseAddress v);; inited 2
     else if offset =? REG_ADMIN_SQUEUE_BASE_ADDR then modify_regs (reg_adminSQueueBaseAddress v);; inited 2
     else mpanic read_only
   else mpanic "nvme_ctrl: Invalid read size on controller register");;
  create_admin_queues.

Definition clearInterrupt (iv : Z) : M t unit :=
  s ← get;
  notFinished ← for_u16 0 (cqsize s) (fun i n =>
    q ← cq_slot i;
    mret (match q with
          | Some q => if interruptVector q =? iv then u16 (n + getItemCount (cqueue q)) else n
          | None => n
          end)) 0;
  updateInterrupt iv (0 <? notFinished).

Definition ringCQHeadDoorbell (qid head : Z) : M t unit :=
  q ← cq_slot qid;
  match q with
  | Some q => put_cq qid (Some (CQueue_setHead head q));; when (ien q) (clearInterrupt (interruptVector q))
  | None => mret tt
  end.

Definition ringSQTailDoorbell (qid tail : Z) : M t unit :=
  q ← sq_slot qid;
  match q with
  | Some (n, q) => put_sq qid (Some (n, SQueue_setTail tail q))
  | None => mret tt
  end.

(** ** Completions *)

Definition reserveCompletion : M t unit :=
  s ← get;
  let ticks := match lCQFIFO s with [] => [] | e :: _ => [submitAt e] end ++
               omap (fun p : Z * AggregationInfo => if valid p.2 && pending p.2 then Some (nextTime p.2) else None)
                 (map_to_list (aggregationMap s)) in
  match ticks with
  | [] => mret tt
  | t0 :: ts => schedule set_completionEvent (foldl Z.min t0 ts)
  end.

(** The loop of [submit]: before the first entry that was submitted later. *)
Fixpoint enqueue (e : CQEntryWrapper) (l : list CQEntryWrapper) : list CQEntryWrapper :=
  match l with
  | [] => [e]
  | x :: l' => if submitAt e <? submitAt x then e :: l else x :: enqueue e l'
  end.

Definition submit (entry : CQEntryWrapper) : M t unit :=
  q ← cq_slot (cqew_cqID entry);
  match q with
  | None => mpanic "nvme_ctrl: Completion Queue not created!"
  | Some _ =>
      tick ← envs now;
      modify (fun s => set_lCQFIFO (enqueue (set_submitAt tick entry) (lCQFIFO s)) s);;
      reserveCompletion
  end.

Definition put_info (iv : Z) (i : AggregationInfo) : M t unit :=
  modify (fun s => set_aggregationMap (<[iv := i]> (aggregationMap s)) s).

(** Whether an interrupt is posted for the entry; the aggregation is brought up to date. *)
Definition coalesce (tick : Z) (iter : CQEntryWrapper) (iv : Z) : M t bool :=
  s ← get;
  match aggregationMap s !! iv with
  | Some i =>
      if (0 <? cqew_cqID iter) && valid i then
        let n := u32 (requestCount i + 1) in
        if (submitAt iter <? nextTime i) && (n <=? aggregationThreshold s) then
          put_info iv (mkAggregationInfo (nextTime i) n true true);; mret false
        else
          put_info iv (mkAggregationInfo (u64 (tick + aggregationTime s)) 0 true (pending i));; mret true
      else mret true
  | None => mret true
  end.

(** The body of the loop over [entryToPost]; [posts] is [ivToPost].  Were the function
    called at once, the context would be deleted and used again. *)
Definition post_entry (tick : Z) (context : nat) (iter : CQEntryWrapper) (posts : list Z) : M t (list Z) :=
  q ← cq_slot (cqew_cqID iter) ≫= deref;
  count_up context;;
  r ← lift (CQueue_setData (cqew_entry iter) q);
  let '(entry, op, q') := r in
  put_cq (cqew_cqID iter) (Some q');;
  (if returned op.2 =? 0 then start op (doSubmit (CQEntry_data entry) context) else fail UB);;
  if ien q then
    post ← coalesce tick iter (interruptVector q);
    mret (if post : bool then posts ++ [interruptVector q] else posts)
  else mret posts.

(** The last loop of [completion]: the vectors whose time is over. *)
Definition due (tick : Z) (i : AggregationInfo) : bool := valid i && (nextTime i <=? tick) && pending i.
Definition flush_due (tick : Z) (posts : list Z) : M t (list Z) :=
  s ← get;
  modify (set_aggregationMap
    ((fun i => if due tick i then mkAggregationInfo (u64 (tick + aggregationTime s)) 0 true false else i)
       <$> aggregationMap s));;
  mret (posts ++ omap (fun p : Z * AggregationInfo => if due tick p.2 then Some p.1 else None)
                  (map_to_list (aggregationMap s))).

Definition completion : M t unit :=
  tick ← envs now;
  modify_env (set_completionEvent None);;
  context ← new_context (Some []);
  s ← get;
  let entryToPost := filter (fun e => (submitAt e <=? tick) = true) (lCQFIFO s) in
  modify (set_lCQFIFO (filter (fun e => (submitAt e <=? tick) = false) (lCQFIFO s)));;
  posts ← foldM (post_entry tick context) entryToPost [];
  posts ← flush_due tick posts;
  x ← the_context context;
  put_context context (if counter x =? 0 then None else Some (mkCtx (counter x) (Some posts))).

(** [std::unique] of a sorted vector *)
Fixpoint unique (l : list Z) : list Z :=
  match l with
  | x :: (y :: _) as l' => if x =? y then unique l' else x :: unique l'
  | l => l
  end.

(** [send]; without a vector to post the loop is not entered. *)
Definition run_send (ivToPost : list Z) : M t unit :=
  iterM (fun iv => updateInterrupt iv true) (unique (merge_sort Z.le ivToPost));; reserveCompletion.

(** ** Creation and deletion of queues *)

(** The source leaves [pending] of the new entry as it is; it is looked at only after [setCoalescing] has cleared it. *)
Definition createCQueue (cqid size iv : Z) (ien pc : bool) (prp1 func : Z) : M t Z :=
  q ← cq_slot cqid;
  match q with
  | Some _ => mret 1
  | None =>
      q ← rebase_cq cqid prp1 pc (CQueue_make iv ien cqid size);
      put_cq cqid (Some q);;
      modify_env (fun e => set_creating (creating e ++ [mkCreating false cqid func]) e);;
      put_info iv (mkAggregationInfo 0 0 false false);;
      mret 0
  end.

Definition createSQueue (sqid cqid size priority : Z) (pc : bool) (prp1 func : Z) : M t Z :=
  q ← sq_slot sqid;
  match q with
  | Some _ => mret 1
  | None =>
      cq ← cq_slot cqid;
      match cq with
      | None => mret 2
      | Some _ =>
          q ← new_squeue cqid priority sqid size;
          q' ← rebase_sq sqid prp1 pc q.2;
          put_sq sqid (Some (q.1, q'));;
          modify_env (fun e => set_creating (creating e ++ [mkCreating true sqid func]) e);;
          mret 0
      end
  end.

(** A loop over an array of queues that ends at the first hit; it reads [l[i]]. *)
Fixpoint find_queue {A} (l : list (option A)) (p : A -> bool) (idx : list Z) : res bool :=
  match idx with
  | [] => Ok false
  | i :: idx =>
      q ← get_raw l i;
      match q with
      | Some q => if p q then Ok true else find_queue l p idx
      | None => find_queue l p idx
      end
  end.
(** From 2^16 queues on the index starts again from 0 when nothing was found. *)
Definition find_from_1 {A} (l : list (option A)) (p : A -> bool) (n : Z) : res bool :=
  b ← find_queue l p (seqZ 1 (Z.min n 65536 - 1));
  if negb b && (65536 <=? n) then
    b ← find_queue l p [0]; if b : bool then Ok true else Err NoReturn
  else Ok b.

(** [aggregationMap.erase(aggregationMap.find(iv))] *)
Definition erase_info (iv : Z) : M t unit :=
  s ← get;
  match aggregationMap s !! iv with
  | Some _ => modify (set_aggregationMap (delete iv (aggregationMap s)))
  | None => fail UB
  end.

(** [deleteCQueue]; both loops run to [cqsize]. *)
Definition deleteCQueue (cqid : Z) : M t Z :=
  q ← cq_slot cqid;
  match q with
  | Some q =>
      if 0 <? cqid then
        s ← get;
        used ← lift (find_from_1 (ppSQueue s) (fun p => cqID p.2 =? cqid) (cqsize s));
        if used : bool then mret 2
        else
          put_cq cqid None;;
          s ← get;
          sameIV ← lift (find_from_1 (ppCQueue s) (fun p => interruptVector p =? interruptVector q) (cqsize s));
          (if sameIV : bool then mret tt else erase_info (interruptVector q));;
          mret 0
      else mret 1
  | None => mret 1
  end.

(** The status words of aborted commands. *)
Definition STATUS_ABORT_REQUESTED : Z := 7.
Definition STATUS_ABORT_DUE_TO_SQ_DELETE : Z := 8.
Definition abort_response (sqHead code : Z) (iter : SQEntryWrapper) : CQEntryWrapper :=
  let w := CQEntryWrapper_make iter in
  set_entry (set_status (Z.lor 0x8000 (Z.shiftl code 1)) (set_sqHead sqHead (cqew_entry w))) w.

(** The loop of [deleteSQueue].  [erase] gives the iterator of the next element, which the
    loop then skips; behind the last one there is none to skip. *)
Fixpoint abort_all (fuel : nat) (sqid sqHead : Z) (done todo : list SQEntryWrapper) : M t unit :=
  match fuel, todo with
  | _, [] => modify (set_lSQFIFO done)
  | O, _ => fail NoReturn
  | S fuel, iter :: todo =>
      if sqew_sqID iter =? sqid then
        submit (abort_response sqHead STATUS_ABORT_DUE_TO_SQ_DELETE iter);;
        match todo with
        | [] => fail UB
        | skipped :: todo => abort_all fuel sqid sqHead (done ++ [skipped]) todo
        end
      else abort_all fuel sqid sqHead (done ++ [iter]) todo
  end.

Definition deleteSQueue (sqid : Z) : M t Z :=
  q ← sq_slot sqid;
  match q with
  | Some (_, q) =>
      if 0 <? sqid then
        s ← get;
        abort_all (length (lSQFIFO s)) sqid (head (squeue q)) [] (lSQFIFO s);;
        put_sq sqid None;; mret 0
      else mret 1
  | None => mret 1
  end.

(** The first command of [abort], with those before and behind it. *)
Fixpoint find_command (sqid cid : Z) (l : list SQEntryWrapper) : option (SQEntryWrapper * list SQEntryWrapper) :=
  match l with
  | [] => None
  | x :: l' =>
      if (sqew_sqID x =? sqid) && (sq_commandID (sqew_entry x) =? cid) then Some (x, l')
      else match find_command sqid cid l' with Some (y, k) => Some (y, x :: k) | None => None end
  end.

Definition abort (sqid cid : Z) : M t Z :=
  s ← get;
  match find_command sqid cid (lSQFIFO s) with
  | Some (iter, rest) =>
      q ← sq_slot sqid ≫= deref;
      submit (abort_response (head (squeue q.2)) STATUS_ABORT_REQUESTED iter);;
      modify (set_lSQFIFO rest);; mret 1
  | None => mret 0
  end.

(** ** Interrupt coalescing *)

(** [time * 100000000] is a product of [int]s. *)
Definition setCoalescingParameter (time thres : Z) : M t unit :=
  if time * 100000000 <? 2 ^ 31 then
    modify (fun s => set_aggregationThreshold thres (set_aggregationTime (time * 100000000) s))
  else fail UB.
Definition getCoalescingParameter : M t (Z * Z) :=
  gets (fun s => (u8 (aggregationTime s / 100000000), u8 (aggregationThreshold s))).

Definition setCoalescing (iv : Z) (enable : bool) : M t unit :=
  s ← get;
  match aggregationMap s !! iv with
  | Some _ => put_info iv (mkAggregationInfo 0 0 enable false)
  | None => mret tt
  end.
Definition getCoalescing (iv : Z) : M t bool :=
  gets (fun s => match aggregationMap s !! iv with Some i => valid i | None => false end).

(** ** The work loop *)

(** [doRead] of [checkQueue], when the entry has arrived. *)
Definition run_doRead (pQueue qid oldhead : Z) (context : nat) (data : list Z) : M t unit :=
  q ← sq_slot qid ≫= deref;
  if q.1 =? pQueue then
    modify (fun s => set_lSQFIFO (lSQFIFO s ++
      [SQEntryWrapper_make (SQEntry_of data) (id (squeue q.2)) (cqID q.2) (head (squeue q.2)) oldhead]) s);;
    count_down context
  else fail UB.

(** [checkQueue(ppSQueue[i], doQueue, pContext)] and [pContext->counter++] *)
Definition checkQueue (i : Z) (p : Z * SQueue) (context : nat) : M t bool :=
  let q := squeue p.2 in
  if 0 <? getItemCount q then
    r ← lift (SQueue_getData p.2);
    (match r.1 with
     | Some op =>
         if returned op.2 =? 0 then start op (doRead p.1 i (head q) context)
         else run_doRead p.1 i (head q) context []
     | None => mret tt
     end);;
    put_sq i (Some (p.1, r.2));;
    count_up context;; mret true
  else mret false.

(** SQUEUE_PRIORITY and ARBITRATION_METHOD *)
Definition PRIORITY_URGENT : Z := 0.
Definition PRIORITY_HIGH : Z := 1.
Definition PRIORITY_MEDIUM : Z := 2.
Definition PRIORITY_LOW : Z := 3.
Definition ROUND_ROBIN : Z := 0.
Definition WEIGHTED_ROUND_ROBIN : Z := 1.

Definition visit (sel : SQueue -> bool) (context : nat) (i : Z) : M t bool :=
  q ← sq_slot i;
  match q with
  | Some p => if sel p.2 then checkQueue i p context else mret false
  | None => mret false
  end.

(** Passes over all queues until one finds nothing. *)
Fixpoint round_robin (fuel : nat) (lo : Z) (sel : SQueue -> bool) (context : nat) : M t unit :=
  s ← get;
  updated ← for_u16 lo (sqsize s) (fun i updated =>
    b ← visit sel context i; mret (if b : bool then u16 (updated + 1) else updated)) 0;
  if updated =? 0 then mret tt
  else match fuel with O => fail NoReturn | S fuel => round_robin fuel lo sel context end.

(** [while (true) if (!checkQueue(pQueue, ...)) break;] on the admin queue *)
Fixpoint drain_admin (fuel : nat) (context : nat) : M t unit :=
  p ← sq_slot 0 ≫= deref;
  b ← checkQueue 0 p context;
  if b : bool then match fuel with O => fail NoReturn | S fuel => drain_admin fuel context end else mret tt.

(** One loop of the weighted round robin: [weight] ends it, [None] after the first command.
    The result is [updated] and [total_updated]. *)
Fixpoint weighted (idx : list Z) (prio : Z) (weight : option Z) (context : nat) (updated total : Z) : M t (Z * Z) :=
  match idx with
  | [] => mret (updated, total)
  | i :: idx =>
      b ← visit (fun q => priority q =? prio) context i;
      if b : bool then
        match weight with
        | Some w =>
            let updated := u16 (updated + 1) in
            if updated =? w then mret (0, u32 (total + 1)) else weighted idx prio weight context updated (u32 (total + 1))
        | None => mret (updated, u32 (total + 1))
        end
      else weighted idx prio weight context updated total
  end.

(** The rounds of the weighted round robin; the third loop takes [PRIORITY_MEDIUM] again. *)
Fixpoint weighted_rounds (fuel : nat) (context : nat) (updated : Z) : M t unit :=
  s ← get;
  let idx := seqZ 1 (sqsize s - 1) in
  r ← weighted idx PRIORITY_HIGH (Some (wrrHigh c)) context updated 0;
  r ← weighted idx PRIORITY_MEDIUM (Some (wrrMedium c)) context r.1 r.2;
  r ← weighted idx PRIORITY_MEDIUM None context r.1 r.2;
  if r.2 =? 0 then mret tt
  else match fuel with O => fail NoReturn | S fuel => weighted_rounds fuel context r.1 end.

Definition not_empty (i : nat) : M t unit :=
  x ← the_context i; when (counter x =? 0) (call_context i x).

(** [collectSQueue]; [sqsize] fits 16 bits unless the first loop does not return. *)
Definition collectSQueue (fuel : nat) : M t unit :=
  context ← new_context None;
  s ← get;
  if Z.land (status (registers s)) 1 =? 0 then mret tt
  else
    (if arbitration s =? ROUND_ROBIN then round_robin fuel 0 (fun _ => true) context
     else if arbitration s =? WEIGHTED_ROUND_ROBIN then
       drain_admin fuel context;;
       round_robin fuel 1 (fun q => priority q =? PRIORITY_URGENT) context;;
       weighted_rounds fuel context 0
     else mpanic "nvme_ctrl: Invalid arbitration method");;
    not_empty context.

(** The function of [workEvent]. *)
Definition work (fuel : nat) : M t unit :=
  modify_env (set_workEvent None);;
  s ← get;
  if Z.land (status (registers s)) 1 =? 0 then mret tt else collectSQueue fuel.

Definition run_queueFunction : M t unit :=
  tick ← envs now;
  modify (set_lastWorkAt tick);;
  s ← get;
  when (shutdownReserved s)
    (deschedule set_workEvent;;
     modify_regs (fun r => reg_status (Z.lor (Z.land (status r) 0xFFFFFFF2) 8) r);;
     modify (fun s => set_lSQFIFO [] (set_shutdownReserved false s)));;
  modify (set_requestCounter 0);;
  execute doRequest.

Definition handleRequest : M t unit :=
  tick ← envs now;
  s ← get;
  (match lSQFIFO s with
   | front :: rest => modify (set_lSQFIFO rest);; execute (submitCommand front)
   | [] => mret tt
   end);;
  modify (fun s => set_requestCounter (u32 (requestCounter s + 1)) s);;
  s ← get;
  if (0 <? vlen (lSQFIFO s)) && (requestCounter s <? maxRequest c) then
    schedule set_requestEvent (u64 (tick + requestInterval c))
  else schedule set_workEvent (Z.max (u64 (tick + requestInterval c)) (u64 (lastWorkAt s + workInterval c))).

(** The function of [requestEvent]. *)
Definition request : M t unit := modify_env (set_requestEvent None);; handleRequest.

(** ** Answers *)

Definition take_nth {A} (i : nat) (l : list A) : list A := take i l ++ drop (S i) l.

(** The CPU calls the function of job [i]; the subsystem gets a command. *)
Definition run_job (i : nat) : M t unit :=
  l ← envs jobs;
  j ← deref (l !! i);
  modify_env (fun e => set_jobs (take_nth i (jobs e)) e);;
  match j with
  | queueFunction => run_queueFunction
  | doRequest => execute handle
  | handle => handleRequest
  | submitCommand req => modify_env (fun e => set_handed (handed e ++ [req]) e)
  | send iv => run_send iv
  | created _ _ => mret tt
  end.

(** One operation of transfer [i] is answered; [data] is its buffer. *)
Definition answer (i : nat) (data : list Z) : M t unit :=
  l ← envs inflight;
  x ← deref (l !! i);
  let d := commonDMAHandler (tr_context x) in
  if returned d =? 0 then
    modify_env (fun e => set_inflight (<[i := mkTransfer (tr_ops x) d (tr_func x)]> (inflight e)) e)
  else
    modify_env (fun e => set_inflight (take_nth i (inflight e)) e);;
    match tr_func x with
    | doRead p qid oldhead context => run_doRead p qid oldhead context data
    | doSubmit _ context => count_down context
    end.

(** The list of pages of a new queue: its event fires, or a page of the list arrives; when
    it is complete the function of the creation goes to the CPU. *)
Definition advance_base (mem : Z -> Z) (p : PRPList.t) : res PRPList.t :=
  r ← (if PRPList.immediateEvent p then PRPList.immediate p else PRPList.arrive mem p); Ok (snd r).

Definition advance (i : nat) (mem : Z -> Z) : M t unit :=
  l ← envs creating;
  x ← deref (l !! i);
  p ← (if cr_sq x then
         q ← sq_slot (cr_qid x) ≫= deref;
         p ← deref (base (squeue q.2)); p ← lift (advance_base mem p);
         put_sq (cr_qid x) (Some (q.1, with_squeue (set_base (Some p) (stride (squeue q.2)) (squeue q.2)) q.2));;
         mret p
       else
         q ← cq_slot (cr_qid x) ≫= deref;
         p ← deref (base (cqueue q)); p ← lift (advance_base mem p);
         put_cq (cr_qid x) (Some (with_cqueue (set_base (Some p) (stride (cqueue q)) (cqueue q)) q));;
         mret p);
  when (0 <? PRPList.initialized p)
    (modify_env (fun e => set_creating (take_nth i (creating e)) e);; execute (created (cr_sq x) (cr_func x))).

(** Time passes. *)
Definition pass (tick : Z) : M t unit := modify_env (set_now tick).
End Operations.

(** The constructor, for the numbers of queues, the tick and what the members that are not
    initialised hold. *)
Definition Controller_make (maxCQ maxSQ tick sqs cqs arb page last : Z) : t :=
  mk RegisterTable_make sqs cqs 0 arb 0 page
    (replicate (Z.to_nat (u32 (maxCQ + 1))) None) (replicate (Z.to_nat (u32 (maxSQ + 1))) None)
    [] [] false 0 0 ∅ 0 last (mkEnv tick None None None [] [] [] [] 0 [] []).
