(* ===== verification/Sil.v ===== *)
(** * sil/nvme: the NVMe driver of the standalone simulator

    The driver plays the host: it brings the controller up, makes commands from
    block requests, and answers them when their completions appear.  [Queue] is
    sil/nvme/queue.cc, [PRP] sil/nvme/prp.cc, and [Driver] with its operations
    sil/nvme/nvme.cc.

    The memory of the host is a function from addresses to bytes, shared with the
    transfers of the controller; [aligned_alloc] takes the next of a list of
    addresses.  The calls of the controller are recorded in order. *)

From S2P Require Import Prelude Algorithm Types Dma Fifo NvmeQueue.

Definition PAGE_SIZE : Z := 4096.

(** [memcpy(addr, l, vlen l)] and [memset(addr, 0, size)] *)
Definition store (addr : Z) (l : list Z) (mem : Z -> Z) : Z -> Z :=
  fun a => match vget l (a - addr) with Some b => b | None => mem a end.
Definition clear (addr size : Z) (mem : Z -> Z) : Z -> Z :=
  fun a => if (addr <=? a) && (a <? addr + size) then 0 else mem a.
(** [memcpy(buffer, addr, size)] *)
Definition load (mem : Z -> Z) (addr size : Z) : list Z := mem <$> seqZ addr size.

Module Queue.

(** [Queue] *)
Record t : Type := mk { memory : Z; capacity : Z; stride : Z; entries : Z; head : Z; tail : Z }.

(** The constructor, with the address that [aligned_alloc] gives. *)
Definition make (memory e s : Z) : t := mk memory (s * e) s e 0 0.

Definition peekData (mem : Z -> Z) (q : t) (length : Z) : list Z := load mem (memory q + head q * stride q) length.
Definition incrHead (q : t) : t :=
  mk (memory q) (capacity q) (stride q) (entries q) (next_index (entries q) (head q)) (tail q).
Definition incrTail (q : t) : t :=
  mk (memory q) (capacity q) (stride q) (entries q) (head q) (next_index (entries q) (tail q)).
Definition getData (mem : Z -> Z) (q : t) (length : Z) : list Z * t := (peekData mem q length, incrHead q).
Definition setData (mem : Z -> Z) (q : t) (buffer : list Z) : (Z -> Z) * t :=
  (store (memory q + tail q * stride q) buffer mem, incrTail q).
End Queue.

Module PRP.

(** [PRP] *)
Record t : Type := mk { memory : Z; capacity : Z; ptr1 : Z; ptr2 : Z; ptrList : list Z }.

Definition maxEntryCount : Z := PAGE_SIZE / 8.

(** The loop that counts the lists: [size] is what follows the first page. *)
Fixpoint count_lists (fuel : nat) (size listCount capacity : Z) : res (Z * Z * Z) :=
  if PAGE_SIZE * maxEntryCount <? size then
    match fuel with
    | O => Err NoReturn
    | S fuel => count_lists fuel (size - PAGE_SIZE * (maxEntryCount - 1)) (u32 (listCount + 1))
                  (u64 (capacity + PAGE_SIZE * maxEntryCount))
    end
  else
    let lastEntryCount := u32 (Algorithm.DIVCEIL64 size PAGE_SIZE) in
    Ok (listCount, lastEntryCount, u64 (capacity + PAGE_SIZE * lastEntryCount)).

(** The mode, [listCount], [lastEntryCount] and [capacity] for a size. *)
Definition layout (fuel : nat) (size : Z) : res (Z * Z * Z * Z) :=
  if size <=? PAGE_SIZE then Ok (1, 1, 0, PAGE_SIZE)
  else if size <=? PAGE_SIZE * 2 then Ok (2, 1, 0, PAGE_SIZE * 2)
  else
    r ← count_lists fuel (u64 (size - PAGE_SIZE)) 1 (PAGE_SIZE * 2);
    let '(listCount, last, capacity) := r in Ok (3, listCount, last, capacity).

(** The loop that fills the lists. *)
Fixpoint fill (fuel : nat) (listCount last : Z) (listPtr page entry : Z) (ptrs : list Z) (mem : Z -> Z)
    : res (list Z * (Z -> Z)) :=
  match fuel with
  | O => Err NoReturn
  | S fuel =>
      let mem := store (listPtr + 8 * entry) (le_bytes 8 page) mem in
      let entry := entry + 1 in
      let ptrs := ptrs ++ [page] in
      let page := page + PAGE_SIZE in
      if (listCount =? 1) && (entry =? last) then
        Ok (ptrs, store (listPtr + 8 * entry) (le_bytes 8 0) mem)
      else if (1 <? listCount) && (entry =? maxEntryCount - 1) then
        fill fuel (listCount - 1) last page (page + PAGE_SIZE) 0 ptrs (store (listPtr + 8 * entry) (le_bytes 8 page) mem)
      else fill fuel listCount last listPtr page entry ptrs mem
  end.

(** The constructor; [memory] is what [aligned_alloc] gives. *)
Definition make (fuel : nat) (memory size : Z) (mem : Z -> Z) : res (t * (Z -> Z)) :=
  l ← layout fuel size;
  let '(mode, listCount, last, capacity) := l in
  let mem := clear memory capacity mem in
  if mode =? 1 then Ok (mk memory capacity memory 0 [memory], mem)
  else
    let ptr2 := memory + PAGE_SIZE in
    if mode =? 3 then
      r ← fill fuel listCount last ptr2 (memory + PAGE_SIZE * 2) 0 [memory; ptr2] mem;
      Ok (mk memory capacity memory ptr2 r.1, r.2)
    else Ok (mk memory capacity memory ptr2 [memory; ptr2], mem).

(** The pieces of [readData] and [writeData]: pointer and length, page by page. *)
Definition pieces (p : t) (offset size : Z) : res (list (Z * Z)) :=
  r ← for_range (offset / PAGE_SIZE) (Algorithm.DIVCEIL64 (u64 (offset + size)) PAGE_SIZE)
    (fun i (st : list (Z * Z) * Z) =>
       ptr ← get_raw (ptrList p) i;
       let len := Z.min (u64 ((i + 1) * PAGE_SIZE - offset)) (u64 (size - st.2)) in
       Ok (st.1 ++ [(u64 (ptr + u64 (offset - i * PAGE_SIZE)), len)], u64 (st.2 + len)))
    ([], 0);
  Ok r.1.

(** Every piece is copied to the beginning of the buffer, or from it. *)
Definition readData (mem : Z -> Z) (p : t) (offset size : Z) (buffer : list Z) : res (list Z) :=
  l ← pieces p offset size;
  Ok (foldl (fun b (x : Z * Z) => load mem x.1 x.2 ++ drop (Z.to_nat x.2) b) buffer l).
Definition writeData (mem : Z -> Z) (p : t) (offset size : Z) (buffer : list Z) : res (Z -> Z) :=
  l ← pieces p offset size;
  Ok (foldl (fun m (x : Z * Z) => store x.1 (take (Z.to_nat x.2) buffer) m) mem l).
End PRP.

(** ** The driver *)

(** The functions that handle a response. *)
Inductive ResponseHandler : Type :=
  | init0 (prp : PRP.t) | init1 (prp : PRP.t) | init2 (prp : PRP.t) | init3 | init4 | init5
  | io (id : Z).

(** [CommandEntry] *)
Record CommandEntry : Type := mkCommandEntry { iv : Z; ce_opcode : Z; cid : Z; callback : ResponseHandler }.

(** [DMAEntry]: the buffer is its bytes, [None] a null pointer; the function is a number. *)
Record DMAEntry : Type := mkDMAEntry { finishedAt : Z; addr : Z; dma_size : Z; buffer : option (list Z); func : Z }.

(** A call of the controller. *)
Inductive Call : Type :=
  | writeRegister (offset size : Z) (buffer : list Z)
  | ringSQTailDoorbell (qid tail : Z)
  | ringCQHeadDoorbell (qid head : Z).

(** [Driver]: the transfers of one direction, and the rest. *)
Record Channel : Type := mkChannel { dmaQueue : list DMAEntry; dmaPending : bool; dmaEvent : option Z }.
Record Driver : Type := mkDriver {
  mem : Z -> Z;
  addresses : list Z;
  now : Z;
  dmaRead : Channel;
  dmaWrite : Channel;
  (** the functions of the transfers that were called, with the bytes read *)
  answered : list (Z * list Z);
  drv_capacity : Z;
  LBAsize : Z;
  namespaceID : Z;
  maxQueueEntries : Z;
  adminCommandID : Z;
  ioCommandID : Z;
  phase : bool;
  adminSQ : option Queue.t;
  adminCQ : option Queue.t;
  ioSQ : option Queue.t;
  ioCQ : option Queue.t;
  pendingCommandList : list CommandEntry;
  (** the calls of the controller, the requests completed, and whether [beginFunction] was called *)
  calls : list Call;
  completed : list Z;
  began : bool;
}.
Definition set_mem (v : Z -> Z) (s : Driver) : Driver :=
  mkDriver v (addresses s) (now s) (dmaRead s) (dmaWrite s) (answered s) (drv_capacity s) (LBAsize s)
    (namespaceID s) (maxQueueEntries s) (adminCommandID s) (ioCommandID s) (phase s) (adminSQ s) (adminCQ s)
    (ioSQ s) (ioCQ s) (pendingCommandList s) (calls s) (completed s) (began s).
Definition set_addresses (v : list Z) (s : Driver) : Driver :=
  mkDriver (mem s) v (now s) (dmaRead s) (dmaWrite s) (answered s) (drv_capacity s) (LBAsize s) (namespaceID s)
    (maxQueueEntries s) (adminCommandID s) (ioCommandID s) (phase s) (adminSQ s) (adminCQ s) (ioSQ s) (ioCQ s)
    (pendingCommandList s) (calls s) (completed s) (began s).
Definition set_now (v : Z) (s : Driver) : Driver :=
  mkDriver (mem s) (addresses s) v (dmaRead s) (dmaWrite s) (answered s) (drv_capacity s) (LBAsize s)
    (namespaceID s) (maxQueueEntries s) (adminCommandID s) (ioCommandID s) (phase s) (adminSQ s) (adminCQ s)
    (ioSQ s) (ioCQ s) (pendingCommandList s) (calls s) (completed s) (began s).
Definition set_dmaRead (v : Channel) (s : Driver) : Driver :=
  mkDriver (mem s) (addresses s) (now s) v (dmaWrite s) (answered s) (drv_capacity s) (LBAsize s) (namespaceID s)
    (maxQueueEntries s) (adminCommandID s) (ioCommandID s) (phase s) (adminSQ s) (adminCQ s) (ioSQ s) (ioCQ s)
    (pendingCommandList s) (calls s) (completed s) (began s).
Definition set_dmaWrite (v : Channel) (s : Driver) : Driver :=
  mkDriver (mem s) (addresses s) (now s) (dmaRead s) v (answered s) (drv_capacity s) (LBAsize s) (namespaceID s)
    (maxQueueEntries s) (adminCommandID s) (ioCommandID s) (phase s) (adminSQ s) (adminCQ s) (ioSQ s) (ioCQ s)
    (pendingCommandList s) (calls s) (completed s) (began s).
Definition set_answered (v : list (Z * list Z)) (s : Driver) : Driver :=
  mkDriver (mem s) (addresses s) (now s) (dmaRead s) (dmaWrite s) v (drv_capacity s) (LBAsize s) (namespaceID s)
    (maxQueueEntries s) (adminCommandID s) (ioCommandID s) (phase s) (adminSQ s) (adminCQ s) (ioSQ s) (ioCQ s)
    (pendingCommandList s) (calls s) (completed s) (began s).
Definition set_drv_capacity (v : Z) (s : Driver) : Driver :=
  mkDriver (mem s) (addresses s) (now s) (dmaRead s) (dmaWrite s) (answered s) v (LBAsize s) (namespaceID s)
    (maxQueueEntries s) (adminCommandID s) (ioCommandID s) (phase s) (adminSQ s) (adminCQ s) (ioSQ s) (ioCQ s)
    (pendingCommandList s) (calls s) (completed s) (began s).
Definition set_LBAsize (v : Z) (s : Driver) : Driver :=
  mkDriver (mem s) (addresses s) (now s) (dmaRead s) (dmaWrite s) (answered s) (drv_capacity s) v (namespaceID s)
    (maxQueueEntries s) (adminCommandID s) (ioCommandID s) (phase s) (adminSQ s) (adminCQ s) (ioSQ s) (ioCQ s)
    (pendingCommandList s) (calls s) (completed s) (began s).
Definition set_namespaceID (v : Z) (s : Driver) : Driver :=
  mkDriver (mem s) (addresses s) (now s) (dmaRead s) (dmaWrite s) (answered s) (drv_capacity s) (LBAsize s) v
    (maxQueueEntries s) (adminCommandID s) (ioCommandID s) (phase s) (adminSQ s) (adminCQ s) (ioSQ s) (ioCQ s)
    (pendingCommandList s) (calls s) (completed s) (began s).
Definition set_maxQueueEntries (v : Z) (s : Driver) : Driver :=
  mkDriver (mem s) (addresses s) (now s) (dmaRead s) (dmaWrite s) (answered s) (drv_capacity s) (LBAsize s)
    (namespaceID s) v (adminCommandID s) (ioCommandID s) (phase s) (adminSQ s) (adminCQ s) (ioSQ s) (ioCQ s)
    (pendingCommandList s) (calls s) (completed s) (began s).
Definition set_adminCommandID (v : Z) (s : Driver) : Driver :=
  mkDriver (mem s) (addresses s) (now s) (dmaRead s) (dmaWrite s) (answered s) (drv_capacity s) (LBAsize s)
    (namespaceID s) (maxQueueEntries s) v (ioCommandID s) (phase s) (adminSQ s) (adminCQ s) (ioSQ s) (ioCQ s)
    (pendingCommandList s) (calls s) (completed s) (began s).
Definition set_ioCommandID (v : Z) (s : Driver) : Driver :=
  mkDriver (mem s) (addresses s) (now s) (dmaRead s) (dmaWrite s) (answered s) (drv_capacity s) (LBAsize s)
    (namespaceID s) (maxQueueEntries s) (adminCommandID s) v (phase s) (adminSQ s) (adminCQ s) (ioSQ s) (ioCQ s)
    (pendingCommandList s) (calls s) (completed s) (began s).
Definition set_phase (v : bool) (s : Driver) : Driver :=
  mkDriver (mem s) (addresses s) (now s) (dmaRead s) (dmaWrite s) (answered s) (drv_capacity s) (LBAsize s)
    (namespaceID s) (maxQueueEntries s) (adminCommandID s) (ioCommandID s) v (adminSQ s) (adminCQ s) (ioSQ s)
    (ioCQ s) (pendingCommandList s) (calls s) (completed s) (began s).
Definition set_adminSQ (v : option Queue.t) (s : Driver) : Driver :=
  mkDriver (mem s) (addresses s) (now s) (dmaRead s) (dmaWrite s) (answered s) (drv_capacity s) (LBAsize s)
    (namespaceID s) (maxQueueEntries s) (adminCommandID s) (ioCommandID s) (phase s) v (adminCQ s) (ioSQ s)
    (ioCQ s) (pendingCommandList s) (calls s) (completed s) (began s).
Definition set_adminCQ (v : option Queue.t) (s : Driver) : Driver :=
  mkDriver (mem s) (addresses s) (now s) (dmaRead s) (dmaWrite s) (answered s) (drv_capacity s) (LBAsize s)
    (namespaceID s) (maxQueueEntries s) (adminCommandID s) (ioCommandID s) (phase s) (adminSQ s) v (ioSQ s)
    (ioCQ s) (pendingCommandList s) (calls s) (completed s) (began s).
Definition set_ioSQ (v : option Queue.t) (s : Driver) : Driver :=
  mkDriver (mem s) (addresses s) (now s) (dmaRead s) (dmaWrite s) (answered s) (drv_capacity s) (LBAsize s)
    (namespaceID s) (maxQueueEntries s) (adminCommandID s) (ioCommandID s) (phase s) (adminSQ s) (adminCQ s) v
    (ioCQ s) (pendingCommandList s) (calls s) (completed s) (began s).
Definition set_ioCQ (v : option Queue.t) (s : Driver) : Driver :=
  mkDriver (mem s) (addresses s) (now s) (dmaRead s) (dmaWrite s) (answered s) (drv_capacity s) (LBAsize s)
    (namespaceID s) (maxQueueEntries s) (adminCommandID s) (ioCommandID s) (phase s) (adminSQ s) (adminCQ s)
    (ioSQ s) v (pendingCommandList s) (calls s) (completed s) (began s).
Definition set_pendingCommandList (v : list CommandEntry) (s : Driver) : Driver :=
  mkDriver (mem s) (addresses s) (now s) (dmaRead s) (dmaWrite s) (answered s) (drv_capacity s) (LBAsize s)
    (namespaceID s) (maxQueueEntries s) (adminCommandID s) (ioCommandID s) (phase s) (adminSQ s) (adminCQ s)
    (ioSQ s) (ioCQ s) v (calls s) (completed s) (began s).
Definition set_calls (v : list Call) (s : Driver) : Driver :=
  mkDriver (mem s) (addresses s) (now s) (dmaRead s) (dmaWrite s) (answered s) (drv_capacity s) (LBAsize s)
    (namespaceID s) (maxQueueEntries s) (adminCommandID s) (ioCommandID s) (phase s) (adminSQ s) (adminCQ s)
    (ioSQ s) (ioCQ s) (pendingCommandList s) v (completed s) (began s).
Definition set_completed (v : list Z) (s : Driver) : Driver :=
  mkDriver (mem s) (addresses s) (now s) (dmaRead s) (dmaWrite s) (answered s) (drv_capacity s) (LBAsize s)
    (namespaceID s) (maxQueueEntries s) (adminCommandID s) (ioCommandID s) (phase s) (adminSQ s) (adminCQ s)
    (ioSQ s) (ioCQ s) (pendingCommandList s) (calls s) v (began s).
Definition set_began (v : bool) (s : Driver) : Driver :=
  mkDriver (mem s) (addresses s) (now s) (dmaRead s) (dmaWrite s) (answered s) (drv_capacity s) (LBAsize s)
    (namespaceID s) (maxQueueEntries s) (adminCommandID s) (ioCommandID s) (phase s) (adminSQ s) (adminCQ s)
    (ioSQ s) (ioCQ s) (pendingCommandList s) (calls s) (completed s) v.

(** The constructor; [cap] to [ioID] is what the members that are not initialised hold. *)
Definition Driver_make (mem : Z -> Z) (addresses : list Z) (tick cap lba ns maxq adminID ioID : Z) : Driver :=
  mkDriver mem addresses tick (mkChannel [] false None) (mkChannel [] false None) [] cap lba ns maxq adminID ioID true
    None None None None [] [] [] false.

Definition D := M Driver.
Definition ask (c : Call) : D unit := modify (fun s => set_calls (calls s ++ [c]) s).
Definition deref {A} (o : option A) : D A := match o with Some a => mret a | None => fail UB end.
(** [aligned_alloc] *)
Definition aligned_alloc : D Z :=
  s ← get;
  match addresses s with
  | a :: l => modify (set_addresses l);; mret a
  | [] => mpanic "Failed to allocate memory for PRP region"
  end.
(** [new Queue(e, s)] and [new PRP(size)] *)
Definition new_queue (e s : Z) : D Queue.t :=
  a ← aligned_alloc;
  let q := Queue.make a e s in
  modify (fun d => set_mem (clear a (Queue.capacity q) (mem d)) d);; mret q.
Definition new_PRP (fuel : nat) (size : Z) : D PRP.t :=
  a ← aligned_alloc; s ← get; r ← lift (PRP.make fuel a size (mem s)); modify (set_mem r.2);; mret r.1.

(** The opcodes, log pages and features the driver uses. *)
Definition OPCODE_CREATE_IO_SQUEUE : Z := 1.
Definition OPCODE_CREATE_IO_CQUEUE : Z := 5.
Definition OPCODE_IDENTIFY : Z := 6.
Definition OPCODE_SET_FEATURES : Z := 9.
Definition OPCODE_FLUSH : Z := 0.
Definition OPCODE_WRITE : Z := 1.
Definition OPCODE_READ : Z := 2.
Definition OPCODE_DATASET_MANAGEMENT : Z := 9.
Definition CNS_IDENTIFY_NAMESPACE : Z := 0.
Definition CNS_IDENTIFY_CONTROLLER : Z := 1.
Definition CNS_ACTIVE_NAMESPACE_LIST : Z := 2.
Definition FEATURE_NUMBER_OF_QUEUES : Z := 7.
Definition QUEUE_ENTRY_ADMIN : Z := 256.
Definition QUEUE_ENTRY_IO : Z := 1024.

(** The sixteen words of a command; the words that are never set are 0. *)
Definition command (opcode nsid prp1 prp2 dw10 dw11 dw12 : Z) : list Z :=
  le_bytes 4 opcode ++ le_bytes 4 nsid ++ replicate 16 0 ++ le_bytes 8 prp1 ++ le_bytes 8 prp2 ++
  le_bytes 4 dw10 ++ le_bytes 4 dw11 ++ le_bytes 4 dw12 ++ replicate 12 0.

Definition increaseCommandID (id : Z) : Z := let id := u16 (id + 1) in if 32767 <? id then 1 else id.

(** [submitCommand]; the queue is not tested for room. *)
Definition submitCommand (iv : Z) (cmd : list Z) (func : ResponseHandler) : D unit :=
  s ← get;
  let opcode := nth 0 cmd 0 in
  r ← (if iv =? 0 then
         let cid := increaseCommandID (adminCommandID s) in
         modify (set_adminCommandID cid);; q ← deref (adminSQ s); mret (cid, q)
       else
         match ioSQ s with
         | Some q =>
             if iv =? 1 then
               let cid := increaseCommandID (ioCommandID s) in modify (set_ioCommandID cid);; mret (cid, q)
             else mpanic "I/O Submission Queue is not initialized"
         | None => mpanic "I/O Submission Queue is not initialized"
         end);
  let cmd := take 2 cmd ++ le_bytes 2 r.1 ++ drop 4 cmd in
  s ← get;
  let w := Queue.setData (mem s) r.2 cmd in
  modify (set_mem w.1);;
  let tail := Queue.tail w.2 in
  modify (fun s => set_pendingCommandList (pendingCommandList s ++ [mkCommandEntry iv opcode r.1 func]) s);;
  ask (ringSQTailDoorbell iv tail);;
  let q := Queue.incrHead w.2 in
  modify (if iv =? 0 then set_adminSQ (Some q) else set_ioSQ (Some q)).

Section Driver.
  Context (fuel : nat) (delay : Z -> Z) (more : Z -> list BIO).

(** [init]; [cap] is what the controller's capability register gives. *)
Definition init (cap : Z) : D unit :=
  let m := u16 (Z.land cap 0xFFFF + 1) in
  modify (set_maxQueueEntries m);;
  let entries := if m <? QUEUE_ENTRY_ADMIN then m else QUEUE_ENTRY_ADMIN in
  ask (writeRegister 0x24 4 (le_bytes 4 (Z.lor (u64 (entries - 1)) (u64 (Z.shiftl (entries - 1) 16)))));;
  sq ← new_queue entries 64; modify (set_adminSQ (Some sq));;
  cq ← new_queue entries 16; modify (set_adminCQ (Some cq));;
  ask (writeRegister 0x28 8 (le_bytes 8 (Queue.memory sq)));;
  ask (writeRegister 0x30 8 (le_bytes 8 (Queue.memory cq)));;
  ask (writeRegister 0x14 4 (le_bytes 4 (Z.lor 1 0x00460000)));;
  prp ← new_PRP fuel 4096;
  submitCommand 0 (command OPCODE_IDENTIFY 0 (PRP.ptr1 prp) (PRP.ptr2 prp) CNS_IDENTIFY_CONTROLLER 0 0) (init0 prp).

Definition _init0 (prp : PRP.t) : D unit :=
  submitCommand 0 (command OPCODE_IDENTIFY 0 (PRP.ptr1 prp) (PRP.ptr2 prp) CNS_ACTIVE_NAMESPACE_LIST 0 0) (init1 prp).

(** The loop over the namespace list: how many it has, and the first. *)
Fixpoint count_namespaces (n : nat) (count : Z) (prp : PRP.t) : D Z :=
  match n with
  | O => mret count
  | S n =>
      s ← get;
      data ← lift (PRP.readData (mem s) prp (count * 4) 4 (replicate 4 0));
      let nsid := le_word data in
      if nsid =? 0 then mret count
      else when (count =? 0) (modify (set_namespaceID nsid));; count_namespaces n (count + 1) prp
  end.

Definition _init1 (prp : PRP.t) : D unit :=
  count ← count_namespaces 1024 0 prp;
  if count =? 0 then mpanic "This NVMe SSD does not have any namespaces."
  else
    s ← get;
    submitCommand 0 (command OPCODE_IDENTIFY (namespaceID s) (PRP.ptr1 prp) (PRP.ptr2 prp) CNS_IDENTIFY_NAMESPACE 0 0)
      (init2 prp).

Definition _init2 (prp : PRP.t) : D unit :=
  s ← get;
  cap ← lift (PRP.readData (mem s) prp 0 8 (replicate 8 0));
  cur ← lift (PRP.readData (mem s) prp 26 1 (replicate 1 0));
  fmt ← lift (PRP.readData (mem s) prp (128 + le_word cur * 4) 4 (replicate 4 0));
  let order := Z.land (Z.shiftr (le_word fmt) 16) 0xFF in
  (if 32 <=? order then fail UB else modify (set_LBAsize (2 ^ order)));;
  modify (set_drv_capacity (u64 (le_word cap * 2 ^ order)));;
  submitCommand 0 (command OPCODE_SET_FEATURES 0 0 0 FEATURE_NUMBER_OF_QUEUES 0 0) init3.

(** The size of an I/O queue. *)
Definition io_entries : D Z :=
  gets (fun s => if maxQueueEntries s <? QUEUE_ENTRY_IO then maxQueueEntries s else QUEUE_ENTRY_IO).
Definition queue_word (entries : Z) : Z := Z.lor (u32 (Z.shiftl (u32 (entries - 1)) 16)) 1.

Definition _init3 : D unit :=
  entries ← io_entries;
  q ← new_queue entries 16;
  modify (set_ioCQ (Some q));;
  submitCommand 0 (command OPCODE_CREATE_IO_CQUEUE 0 (Queue.memory q) 0 (queue_word entries) 0x00010003 0) init4.

Definition _init4 (status : Z) : D unit :=
  if negb (status =? 0) then mpanic "Failed to create I/O Completion Queue"
  else
    entries ← io_entries;
    q ← new_queue entries 64;
    modify (set_ioSQ (Some q));;
    submitCommand 0 (command OPCODE_CREATE_IO_SQUEUE 0 (Queue.memory q) 0 (queue_word entries) 0x00010001 0) init5.

Definition _init5 (status : Z) : D unit :=
  if negb (status =? 0) then mpanic "Failed to create I/O Submission Queue"
  else modify (set_began true).

Definition getInfo : D (Z * Z) := gets (fun s => (drv_capacity s, LBAsize s)).

(** [submitIO]; the handler keeps only the identity of the request.  An unknown type
    leaves the command zero, which is the opcode of a flush. *)
Definition submitIO (bio : BIO) : D unit :=
  s ← get;
  if LBAsize s =? 0 then fail UB
  else
    let slba := bio_offset bio / LBAsize s in
    let nlb := u32 (Algorithm.DIVCEIL64 (bio_length bio) (LBAsize s)) in
    let rw op :=
      prp ← new_PRP fuel (bio_length bio);
      mret (command op (namespaceID s) (PRP.ptr1 prp) (PRP.ptr2 prp) (u32 slba) (u32 (Z.shiftr slba 32)) (u32 (nlb - 1))) in
    cmd ← (match bio_type bio with
           | BIO_READ => rw OPCODE_READ
           | BIO_WRITE => rw OPCODE_WRITE
           | BIO_FLUSH => mret (command OPCODE_FLUSH (namespaceID s) 0 0 0 0 0)
           | BIO_TRIM =>
               prp ← new_PRP fuel 16;
               d ← get;
               m ← lift (PRP.writeData (mem d) prp 0 16 (replicate 4 0 ++ le_bytes 4 nlb ++ le_bytes 8 slba));
               modify (set_mem m);;
               mret (command OPCODE_DATASET_MANAGEMENT (namespaceID s) (PRP.ptr1 prp) (PRP.ptr2 prp) 0 4 0)
           | BIO_NUM => mret (command OPCODE_FLUSH (namespaceID s) 0 0 0 0 0)
           end);
    submitCommand 1 cmd (io (bio_id bio)).

(** A callback; the one of a block request may submit others ([more]). *)
Definition respond (h : ResponseHandler) (status dw0 : Z) : D unit :=
  match h with
  | init0 p => _init0 p
  | init1 p => _init1 p
  | init2 p => _init2 p
  | init3 => _init3
  | init4 => _init4 status
  | init5 => _init5 status
  | io id => modify (fun s => set_completed (completed s ++ [id]) s);; iterM submitIO (more id)
  end.

(** What the loop of [updateInterrupt] reads from an entry whose phase tag is the
    expected one, and the queue and the phase when the entry is done with. *)
Record Completion : Type := mkCompletion { c_dw0 : Z; c_cid : Z; c_status : Z }.
Definition seen (mem : Z -> Z) (q : Queue.t) (phase : bool) : option Completion :=
  let cqdata := Queue.peekData mem q 16 in
  let word3 := field cqdata 12 4 in
  if Z.land (Z.shiftr word3 16) 1 =? Z.b2z phase then
    Some (mkCompletion (field cqdata 0 4) (Z.land word3 0xFFFF) (u16 (Z.shiftr word3 17)))
  else None.
Definition consume (q : Queue.t) (phase : bool) : Queue.t * bool :=
  let q := Queue.incrHead q in (q, if Queue.head q =? 0 then negb phase else phase).

(** The queues an interrupt vector stands for. *)
Definition cq_of (iv : Z) : D Queue.t :=
  s ← get;
  if iv =? 0 then deref (adminCQ s)
  else match ioCQ s with
       | Some q => if iv =? 1 then mret q else mpanic "I/O Completion Queue is not initialized"
       | None => mpanic "I/O Completion Queue is not initialized"
       end.
Definition put_cq (iv : Z) (q : Queue.t) : D unit :=
  modify (if iv =? 0 then set_adminCQ (Some q) else set_ioCQ (Some q)).

(** The command of a completion, and the list without it. *)
Fixpoint find_pending (v c : Z) (l : list CommandEntry) : option CommandEntry :=
  match l with
  | [] => None
  | x :: l => if (iv x =? v) && (cid x =? c) then Some x else find_pending v c l
  end.
Fixpoint erase_pending (v c : Z) (l : list CommandEntry) : list CommandEntry :=
  match l with
  | [] => []
  | x :: l => if (iv x =? v) && (cid x =? c) then l else x :: erase_pending v c l
  end.

(** One round of the loop of [updateInterrupt]: whether an entry was found. *)
Definition poll (v : Z) : D bool :=
  q ← cq_of v;
  s ← get;
  match seen (mem s) q (phase s) with
  | Some e =>
      put_cq v (Queue.incrTail q);;
      match find_pending v (c_cid e) (pendingCommandList s) with
      | Some x =>
          respond (callback x) (c_status e) (c_dw0 e);;
          modify (fun s => set_pendingCommandList (erase_pending v (c_cid e) (pendingCommandList s)) s);;
          q ← cq_of v;
          s ← get;
          let r := consume q (phase s) in
          put_cq v r.1;; modify (set_phase r.2);; mret true
      | None => mpanic "Invalid interrupt"
      end
  | None => mret false
  end.

Fixpoint poll_all (n : nat) (v count : Z) : D Z :=
  found ← poll v;
  if found : bool then match n with O => fail NoReturn | S n => poll_all n v (u16 (count + 1)) end else mret count.

Definition updateInterrupt (v : Z) (post : bool) : D unit :=
  when post
    (count ← poll_all fuel v 0;
     q ← cq_of v;
     when (0 <? count) (ask (ringCQHeadDoorbell v (Queue.head q)))).

(** ** Transfers *)

(** The channel of a direction. *)
Definition chan (w : bool) (s : Driver) : Channel := if w then dmaWrite s else dmaRead s.
Definition set_chan (w : bool) (c : Channel) (s : Driver) : Driver := if w then set_dmaWrite c s else set_dmaRead c s.

(** [submitDMARead] and [submitDMAWrite]: the bytes are copied now.  A read keeps them in
    its entry, the buffer of the controller. *)
Definition submitDMA (w : bool) : D unit :=
  s ← get;
  match dmaQueue (chan w s) with
  | [] => fail UB
  | iter :: rest =>
      let t := u64 (now s + delay (dma_size iter)) in
      let copied := if w then buffer iter else (fun _ => load (mem s) (addr iter) (dma_size iter)) <$> buffer iter in
      modify (set_chan w (mkChannel (mkDMAEntry t (addr iter) (dma_size iter) copied (func iter) :: rest) true
        (Fifo.at_tick (now s) t)));;
      match buffer iter with
      | Some b => when w (modify (fun s => set_mem (store (addr iter) b (mem s)) s))
      | None => mret tt
      end
  end.

(** [dmaRead] and [dmaWrite] *)
Definition dma (w : bool) (addr size : Z) (buffer : option (list Z)) (func : Z) : D unit :=
  if size =? 0 then mret tt
  else
    modify (fun s => let c := chan w s in
      set_chan w (mkChannel (dmaQueue c ++ [mkDMAEntry 0 addr size buffer func]) (dmaPending c) (dmaEvent c)) s);;
    s ← get;
    when (negb (dmaPending (chan w s))) (submitDMA w).

(** [dmaReadDone] and [dmaWriteDone]; [reqs] are the requests the function makes. *)
Definition dmaDone (w : bool) (reqs : list (bool * Z * Z * option (list Z) * Z)) : D unit :=
  modify (fun s => set_chan w (mkChannel (dmaQueue (chan w s)) (dmaPending (chan w s)) None) s);;
  s ← get;
  match dmaQueue (chan w s) with
  | [] => fail UB
  | iter :: _ =>
      if now s <? finishedAt iter then
        modify (fun s => set_chan w (mkChannel (dmaQueue (chan w s)) (dmaPending (chan w s))
          (Fifo.at_tick (now s) (finishedAt iter))) s)
      else
        modify (fun s => set_answered (answered s ++ [(func iter, default [] (if w then None else buffer iter))]) s);;
        iterM (fun r : bool * Z * Z * option (list Z) * Z => let '(w, a, n, b, f) := r in dma w a n b f) reqs;;
        modify (fun s => set_chan w (mkChannel (drop 1 (dmaQueue (chan w s))) false (dmaEvent (chan w s))) s);;
        s ← get;
        when (0 <? vlen (dmaQueue (chan w s))) (submitDMA w)
  end.
End Driver.
