(* ===== verification/RingProof.v ===== *)
(** * The rings of the NVMe queues, seen from both sides

    The controller ([NvmeQueue.v]) and the driver ([Sil.v]) share a ring in the
    host memory.  This file has the bytes of an entry, the place of an entry in
    the ring, and the two protocols as machines over an event list: [CqRing] for
    completions, [SqRing] for commands. *)

From S2P Require Import Prelude Dma NvmeQueue Sil.

(** ** Bytes of a number *)

Lemma length_le_bytes n x : length (le_bytes n x) = n.
Proof. revert x. induction n as [|n IH]; intros x; simpl; [done|]. by rewrite IH. Qed.

Lemma le_word_bytes n x : le_word (le_bytes n x) = x mod 256 ^ Z.of_nat n.
Proof.
  revert x. induction n as [|n IH]; intros x; [simpl; by rewrite Z.mod_1_r|].
  cbn [le_bytes le_word]. rewrite IH, Nat2Z.inj_succ, Z.pow_succ_r by lia.
  rewrite Z.rem_mul_r by lia. done.
Qed.

Lemma le_word_app a b : le_word (a ++ b) = le_word a + 256 ^ vlen a * le_word b.
Proof.
  unfold vlen. induction a as [|x a IH]; cbn [app le_word length]; [simpl Z.of_nat; lia|].
  rewrite IH, Nat2Z.inj_succ, Z.pow_succ_r by lia. lia.
Qed.

Definition is_byte (b : Z) : Prop := 0 <= b < 256.
Lemma le_bytes_byte n x : Forall is_byte (le_bytes n x).
Proof.
  revert x. induction n as [|n IH]; intros x; constructor; [|apply IH]. apply Z.mod_pos_bound. lia.
Qed.

(** ** The place of an entry in the ring *)

Section Index.
  Context (n : Z) (Hn : 0 < n).

Lemma succ_mod k : 0 <= k -> (k + 1) mod n = (if k mod n + 1 =? n then 0 else k mod n + 1)
  /\ (k + 1) / n = (if k mod n + 1 =? n then k / n + 1 else k / n).
Proof.
  intros Hk. pose proof (Z.div_mod k n ltac:(lia)). pose proof (Z.mod_pos_bound k n ltac:(lia)).
  destruct (Z.eqb_spec (k mod n + 1) n) as [He|He].
  - assert (k + 1 = n * (k / n + 1) + 0) as E by lia. split; symmetry.
    + apply (Z.mod_unique_pos _ _ (k / n + 1)); lia.
    + apply (Z.div_unique_pos _ _ _ 0); lia.
  - split; symmetry.
    + apply (Z.mod_unique_pos _ _ (k / n)); lia.
    + apply (Z.div_unique_pos _ _ _ (k mod n + 1)); lia.
Qed.

Lemma next_index_mod k : n < 2 ^ 16 -> 0 <= k -> next_index n (k mod n) = (k + 1) mod n.
Proof.
  intros Hw Hk. unfold next_index, u16. pose proof (Z.mod_pos_bound k n ltac:(lia)).
  rewrite (Z.mod_small (_ + 1)) by lia. by rewrite (proj1 (succ_mod k Hk)).
Qed.

(** The phase of an entry: it changes when the ring is passed. *)
Definition phase_of (k : Z) : bool := Z.even (k / n).

Lemma phase_succ k : 0 <= k ->
  (if (k + 1) mod n =? 0 then negb (phase_of k) else phase_of k) = phase_of (k + 1).
Proof.
  intros Hk. unfold phase_of. destruct (succ_mod k Hk) as [-> ->].
  pose proof (Z.mod_pos_bound k n ltac:(lia)).
  destruct (Z.eqb_spec (k mod n + 1) n) as [E|E].
  - rewrite Z.eqb_refl. rewrite Z.even_add. by destruct (Z.even (k / n)).
  - by rewrite (proj2 (Z.eqb_neq (k mod n + 1) 0)) by lia.
Qed.

Lemma phase_prev k : n <= k -> phase_of (k - n) = negb (phase_of k).
Proof.
  intros Hk. unfold phase_of. replace (k - n) with (k + (-1) * n) by lia. rewrite Z.div_add by lia.
  rewrite Z.even_add. by destruct (Z.even (k / n)).
Qed.

(** Two entries of one turn are at different places. *)
Lemma same_place i j : i mod n = j mod n -> -n < i - j < n -> i = j.
Proof.
  intros H Hd. pose proof (Z.div_mod i n ltac:(lia)). pose proof (Z.div_mod j n ltac:(lia)).
  assert (i - j = n * (i / n - j / n)) as E by lia. assert (i / n - j / n = 0) as E0 by nia.
  rewrite E0 in E. lia.
Qed.
End Index.

(** ** The memory of the host *)

Lemma vget_app_old {A} (l : list A) x k : 0 <= k < vlen l -> vget (l ++ [x]) k = vget l k.
Proof.
  unfold vlen, vget. intros H. destruct (Z.ltb_spec k 0); [done|]. by rewrite lookup_app_l by lia.
Qed.

Lemma vget_seqZ a k i : 0 <= i < k -> vget (seqZ a k) i = Some (a + i).
Proof.
  intros H. unfold vget. destruct (Z.ltb_spec i 0); [lia|]. rewrite lookup_seqZ_lt by lia. f_equal. lia.
Qed.

Lemma load_store_same a l m : load (store a l m) a (vlen l) = l.
Proof.
  unfold load, store. apply vlist_eq.
  - rewrite vlen_fmap. unfold vlen. rewrite length_seqZ. lia.
  - intros i Hi. rewrite vlen_fmap in Hi. rewrite vget_fmap.
    assert (vlen (seqZ a (vlen l)) = vlen l) as E by (unfold vlen; rewrite length_seqZ; lia).
    rewrite E in Hi. destruct (vget_in_range l i Hi) as [b Hb].
    rewrite Hb, vget_seqZ by lia. simpl. replace (a + i - a) with i by lia. by rewrite Hb.
Qed.

Lemma load_store_other a l m b k : b + k <= a \/ a + vlen l <= b -> load (store a l m) b k = load m b k.
Proof.
  intros H. unfold load, store. apply list_fmap_ext. intros i x Hx%lookup_seqZ.
  destruct (vget l (x - a)) eqn:E; [|done]. apply vget_Some_range in E. lia.
Qed.

Lemma load_clear a n m b k : a <= b -> b + k <= a + n -> load (clear a n m) b k = replicate (Z.to_nat k) 0.
Proof.
  intros H1 H2. unfold load, clear. apply list_eq. intros i. rewrite list_lookup_fmap.
  destruct (decide (i < Z.to_nat k)%nat).
  - rewrite lookup_seqZ_lt by lia. rewrite (lookup_replicate_2 _ (0 : Z)) by lia. simpl.
    destruct (Z.leb_spec a (b + Z.of_nat i)), (Z.ltb_spec (b + Z.of_nat i) (a + n)); simpl; (done || lia).
  - rewrite lookup_seqZ_ge by lia. rewrite (lookup_ge_None_2 (replicate _ _)) by (rewrite length_replicate; lia). done.
Qed.

Lemma vlen_load m a n : 0 <= n -> vlen (load m a n) = n.
Proof. intros. unfold load. rewrite vlen_fmap. unfold vlen. rewrite length_seqZ. lia. Qed.

(** ** The transfer of an entry of a contiguous queue *)

Definition contiguous (base size page : Z) : PRPList.t :=
  PRPList.mk [PRPList.mkPRP base size] size page 0 [] true 0.

Lemma contiguous_eq base size page :
  PRPList.construct_base base size true (PRPList.make size page) = Ok (tt, contiguous base size page).
Proof. done. Qed.

Lemma one_region_request write p base size off bytes :
  PRPList.prpList p = [PRPList.mkPRP base size] ->
  0 <= base -> base + size < 2 ^ 64 -> 0 <= off -> 0 < bytes -> off + bytes <= size ->
  PRPList.request write p off bytes (Some 0) = ([mkDmaOp write (base + off) bytes (Some 0)], mkDMAContext 1 0).
Proof.
  intros Hp H1 H2 H3 H4 H5. unfold PRPList.request. rewrite Hp. cbn [PRPList.transfers PRPList.size PRPList.addr].
  rewrite Z.add_0_l, (u64_small size) by lia. rewrite (proj2 (Z.ltb_lt off size)) by lia.
  rewrite Z.sub_0_r, !(u64_small off) by lia. rewrite (u64_small (size - off)), (u64_small (base + off)) by lia.
  rewrite Z.min_r by lia. done.
Qed.

Lemma contiguous_request write base size page off bytes :
  0 <= base -> base + size < 2 ^ 64 -> 0 <= off -> 0 < bytes -> off + bytes <= size ->
  PRPList.request write (contiguous base size page) off bytes (Some 0)
  = ([mkDmaOp write (base + off) bytes (Some 0)], mkDMAContext 1 0).
Proof. by apply one_region_request. Qed.

(** ** What the driver reads from an entry *)

Definition entry_ok (e : CQEntry) : Prop :=
  0 <= dword0 e < 2 ^ 32 /\ 0 <= commandID e < 2 ^ 16 /\ 0 <= status e < 2 ^ 16.

(** The fields that reach the callback; the lowest bit of the status is the phase tag. *)
Definition completion_of (e : CQEntry) : Completion := mkCompletion (dword0 e) (commandID e) (status e / 2).

Lemma tag_status ph e : 0 <= status e < 2 ^ 16 -> status (tag ph e) = 2 * (status e / 2) + Z.b2z ph.
Proof.
  intros H. unfold tag, set_status. cbn [status]. set (s := status e) in *.
  replace (Z.land s 65534) with (2 * (s / 2)).
  - rewrite <- Z.add_lor_land, (Z.mul_comm 2). replace (Z.land (s / 2 * 2) (Z.b2z ph)) with 0; [lia|].
    change 2 with (2 ^ 1). rewrite <- Z.shiftl_mul_pow2 by lia. symmetry. apply Z.bits_inj'. intros i Hi.
    rewrite Z.bits_0, Z.land_spec, Z.shiftl_spec by lia. destruct (Z.eqb_spec i 0) as [->|].
    + by rewrite Z.testbit_neg_r by lia.
    + destruct ph; [|by rewrite Z.bits_0, andb_false_r].
      change (Z.b2z true) with (2 ^ 0). by rewrite Z.pow2_bits_false, andb_false_r by lia.
  - change 65534 with (Z.shiftl (Z.ones 15) 1). change 2 with (2 ^ 1) at 1 2.
    rewrite Z.mul_comm, <- Z.shiftr_div_pow2, <- Z.shiftl_mul_pow2 by lia. apply Z.bits_inj'. intros i Hi.
    rewrite Z.land_spec, !Z.shiftl_spec by lia. destruct (Z.eqb_spec i 0) as [->|].
    + by rewrite !(Z.testbit_neg_r _ (0 - 1)), andb_false_r by lia.
    + rewrite Z.shiftr_spec by lia. replace (i - 1 + 1) with i by lia.
      destruct (decide (i - 1 < 15)).
      * by rewrite Z.ones_spec_low, andb_true_r by lia.
      * rewrite Z.ones_spec_high, andb_false_r by lia. apply Z.bits_above_log2; [lia|].
        destruct (Z.eq_dec s 0) as [->|]; [cbn; lia|].
        apply Z.log2_lt_pow2; [lia|]. apply Z.lt_le_trans with (2 ^ 16); [lia|]. apply Z.pow_le_mono_r; lia.
Qed.

Lemma word0_eq e : entry_ok e -> field (CQEntry_data e) 0 4 = dword0 e.
Proof.
  intros (H & _ & _). change (field (CQEntry_data e) 0 4) with (le_word (le_bytes 4 (dword0 e))).
  rewrite le_word_bytes. apply Z.mod_small. done.
Qed.

Lemma word3_eq e : entry_ok e -> field (CQEntry_data e) 12 4 = commandID e + 2 ^ 16 * status e.
Proof.
  intros (_ & Hc & Hs).
  change (field (CQEntry_data e) 12 4) with (le_word (le_bytes 2 (commandID e) ++ le_bytes 2 (status e))).
  rewrite le_word_app, !le_word_bytes. unfold vlen. rewrite length_le_bytes.
  change (256 ^ Z.of_nat 2) with (2 ^ 16). by rewrite !Z.mod_small by lia.
Qed.

Lemma tag_ok ph e : entry_ok e -> entry_ok (tag ph e).
Proof.
  intros (H0 & Hc & Hs). pose proof (tag_status ph e Hs) as E. split_and!; [apply H0|apply H0|apply Hc|apply Hc| |];
  rewrite E; pose proof (Z.div_mod (status e) 2 ltac:(lia)); pose proof (Z.mod_pos_bound (status e) 2 ltac:(lia));
  destruct ph; cbn [Z.b2z]; lia.
Qed.

(** The driver sees an entry with the expected tag, and no other. *)
Lemma seen_entry m q ph ph' e :
  entry_ok e -> Queue.peekData m q 16 = CQEntry_data (tag ph e) ->
  seen m q ph' = if Bool.eqb ph ph' then Some (completion_of e) else None.
Proof.
  intros He Hp. unfold seen. rewrite Hp, word0_eq, word3_eq by (by apply tag_ok).
  destruct He as (H0 & Hc & Hs). change (commandID (tag ph e)) with (commandID e).
  change (dword0 (tag ph e)) with (dword0 e). rewrite tag_status by done.
  set (st := 2 * (status e / 2) + Z.b2z ph). pose proof (Z.div_mod (status e) 2 ltac:(lia)).
  pose proof (Z.mod_pos_bound (status e) 2 ltac:(lia)).
  rewrite !Z.shiftr_div_pow2 by lia.
  assert ((commandID e + 2 ^ 16 * st) / 2 ^ 16 = st) as Hd16.
  { rewrite (Z.mul_comm (2 ^ 16) st), Z.div_add, Z.div_small by lia. lia. }
  assert ((commandID e + 2 ^ 16 * st) / 2 ^ 17 = status e / 2) as ->.
  { change (2 ^ 17) with (2 ^ 16 * 2). rewrite <- (Z.div_div (commandID e + 2 ^ 16 * st) (2 ^ 16) 2), Hd16 by done.
    unfold st. rewrite (Z.mul_comm 2), Z.div_add_l by lia. replace (Z.b2z ph / 2) with 0 by (by destruct ph). lia. }
  rewrite Hd16.
  change 1 with (Z.ones 1). rewrite Z.land_ones by lia. change (2 ^ 1) with 2.
  assert (st mod 2 = Z.b2z ph) as ->.
  { unfold st. rewrite (Z.mul_comm 2), Z.add_comm, Z.mod_add by lia. by destruct ph. }
  replace (Z.b2z ph =? Z.b2z ph') with (Bool.eqb ph ph') by (by destruct ph, ph'). destruct (Bool.eqb ph ph'); [|done].
  f_equal. unfold completion_of. f_equal.
  - change 0xFFFF with (Z.ones 16). rewrite Z.land_ones, (Z.mul_comm (2 ^ 16)), Z.mod_add by lia. apply Z.mod_small. lia.
  - unfold u16. apply Z.mod_small. pose proof (Z.div_pos (status e) 2). lia.
Qed.

(** Before the first turn the memory is zero, which is not the first phase. *)
Lemma seen_zero m q : Queue.peekData m q 16 = replicate 16 0 -> seen m q true = None.
Proof. intros H. unfold seen. by rewrite H. Qed.
