(* ===== verification/CqRing.v ===== *)
(** * The completion queue, from the controller to the driver

    [Link] is a completion queue of the controller, its transfers on their way,
    the host memory and the queue of the driver with its phase.  An entry is
    posted ([CQueue_setData]), delivered, seen and consumed by the driver, and the
    head doorbell tells the controller.  [spec] is what the two promise: a bounded
    FIFO that keeps nothing but the entries posted and three counts. *)

From S2P Require Import Prelude Dma NvmeQueue Sil RingProof.

Record Link : Type := mkLink {
  dev : CQueue; wires : list (list DmaOp * list Z); hmem : Z -> Z; hq : Sil.Queue.t; hphase : bool;
}.

(** The bytes of a transfer reach the host memory. *)
Definition write_ops (ops : list DmaOp) (data : list Z) (m : Z -> Z) : Z -> Z :=
  foldl (fun m o => store (op_addr o)
    (take (Z.to_nat (op_size o)) (drop (Z.to_nat (default 0 (op_buffer o))) data)) m) m ops.

Inductive Ev : Type := Post (e : CQEntry) | Deliver | Poll | Ring.

Definition step (ev : Ev) (l : Link) : res (list Completion * Link) :=
  match ev with
  | Post e =>
      r ← CQueue_setData e (dev l);
      let '(e, op, q) := r in
      Ok ([], mkLink q (wires l ++ [(op.1, CQEntry_data e)]) (hmem l) (hq l) (hphase l))
  | Deliver =>
      match wires l with
      | [] => Ok ([], l)
      | (ops, data) :: w => Ok ([], mkLink (dev l) w (write_ops ops data (hmem l)) (hq l) (hphase l))
      end
  | Poll =>
      match seen (hmem l) (hq l) (hphase l) with
      | Some c => let r := consume (Sil.Queue.incrTail (hq l)) (hphase l) in
                  Ok ([c], mkLink (dev l) (wires l) (hmem l) r.1 r.2)
      | None => Ok ([], l)
      end
  | Ring => Ok ([], mkLink (CQueue_setHead (Sil.Queue.head (hq l)) (dev l)) (wires l) (hmem l) (hq l) (hphase l))
  end.

Fixpoint run (evs : list Ev) (l : Link) : res (list Completion) :=
  match evs with
  | [] => Ok []
  | ev :: evs => r ← step ev l; out ← run evs r.2; Ok (r.1 ++ out)
  end.

(** The abstract queue of [n] places: the entries posted so far; how many of them have
    been delivered, taken by the driver, and given back by a doorbell. *)
Record Spec : Type := mkSpec { posted : list CQEntry; delivered : Z; taken : Z; returned_to : Z }.

Definition spec_step (n : Z) (ev : Ev) (s : Spec) : res (list Completion * Spec) :=
  match ev with
  | Post e =>
      if vlen (posted s) - returned_to s =? n - 1 then panic "Completion queue overflow"
      else Ok ([], mkSpec (posted s ++ [e]) (delivered s) (taken s) (returned_to s))
  | Deliver => Ok ([], mkSpec (posted s) (Z.min (delivered s + 1) (vlen (posted s))) (taken s) (returned_to s))
  | Poll =>
      if taken s <? delivered s then
        match vget (posted s) (taken s) with
        | Some e => Ok ([completion_of e], mkSpec (posted s) (delivered s) (taken s + 1) (returned_to s))
        | None => Ok ([], s)
        end
      else Ok ([], s)
  | Ring => Ok ([], mkSpec (posted s) (delivered s) (taken s) (taken s))
  end.

Fixpoint spec_run (n : Z) (evs : list Ev) (s : Spec) : res (list Completion) :=
  match evs with
  | [] => Ok []
  | ev :: evs => r ← spec_step n ev s; out ← spec_run n evs r.2; Ok (r.1 ++ out)
  end.

(** The two queues as they are created. *)
Definition fresh (B n st iv qid page : Z) (ien : bool) (m : Z -> Z) : Link :=
  mkLink (with_cqueue (set_base (Some (contiguous B (n * st) page)) st (Queue_make qid n)) (CQueue_make iv ien qid n))
    [] (clear B (n * st) m) (Sil.Queue.make B n st) true.
Definition spec_fresh : Spec := mkSpec [] 0 0 0.

Definition ev_ok (ev : Ev) : Prop := match ev with Post e => entry_ok e | _ => True end.

(** ** The relation between the two *)

Section Ring.
  Context (B n st iv qid page : Z) (en : bool).
  Context (HB : 0 <= B) (Hn : 2 <= n < 2 ^ 16) (Hst : 16 <= st) (Hfit : B + n * st < 2 ^ 64).

Definition place (k : Z) : Z := B + (k mod n) * st.
Definition bytes_of (k : Z) (e : CQEntry) : list Z := CQEntry_data (tag (phase_of n k) e).

Definition dev_at (p r : Z) : CQueue :=
  mkCQueue (mkQueue qid (r mod n) (p mod n) n st (Some (contiguous B (n * st) page))) en (phase_of n p) iv.
Definition hq_at (c : Z) : Sil.Queue.t := Sil.Queue.mk B (st * n) st n (c mod n) (c mod n).

(** The transfer of entry [k]. *)
Definition wire (k : Z) (e : CQEntry) : list DmaOp * list Z :=
  ([mkDmaOp true (place k) 16 (Some 0)], bytes_of k e).
Fixpoint wires_of (k : Z) (l : list CQEntry) : list (list DmaOp * list Z) :=
  match l with
  | [] => []
  | e :: l => wire k e :: wires_of (k + 1) l
  end.

(** The last turn of entries is in the memory; places never written are zero. *)
Definition mem_at (l : list CQEntry) (d : Z) (m : Z -> Z) : Prop :=
  (forall k e, 0 <= k -> d - n <= k < d -> vget l k = Some e -> load m (place k) 16 = bytes_of k e) /\
  (forall k, d <= k < n -> load m (place k) 16 = replicate 16 0).

Record related (l : Link) (s : Spec) : Prop := {
  rel_order : 0 <= returned_to s <= taken s /\ taken s <= delivered s <= vlen (posted s)
              /\ vlen (posted s) <= returned_to s + n - 1;
  rel_ok : Forall entry_ok (posted s);
  rel_dev : dev l = dev_at (vlen (posted s)) (returned_to s);
  rel_wires : wires l = wires_of (delivered s) (drop (Z.to_nat (delivered s)) (posted s));
  rel_mem : mem_at (posted s) (delivered s) (hmem l);
  rel_hq : hq l = hq_at (taken s);
  rel_phase : hphase l = phase_of n (taken s);
}.

Lemma place_range k : 0 <= k -> B <= place k /\ place k + 16 <= B + n * st.
Proof.
  intros Hk. unfold place. pose proof (Z.mod_pos_bound k n ltac:(lia)). nia.
Qed.

Lemma place_apart i j : i mod n <> j mod n -> place i + 16 <= place j \/ place j + 16 <= place i.
Proof. intros H. unfold place. destruct (Z.lt_trichotomy (i mod n) (j mod n)) as [?|[?|?]]; [left|done|right]; nia. Qed.

Lemma length_entry e : vlen (CQEntry_data e) = 16.
Proof. done. Qed.

Lemma fresh_related m : related (fresh B n st iv qid page en m) spec_fresh.
Proof.
  constructor; cbn; try done.
  - unfold vlen; simpl; lia.
  - split; [intros k e H0 H1; lia|]. intros k Hk. apply load_clear; apply place_range; lia.
Qed.

(** The device posts an entry. *)
Lemma post_dev p r e :
  0 <= r -> r <= p <= r + n - 1 ->
  CQueue_setData e (dev_at p r)
  = if p - r =? n - 1 then panic "Completion queue overflow"
    else Ok (tag (phase_of n p) e, ([mkDmaOp true (place p) 16 (Some 0)], mkDMAContext 1 0), dev_at (p + 1) r).
Proof.
  intros Hr Hp. pose proof (Z.mod_pos_bound p n ltac:(lia)) as Hm. unfold CQueue_setData, dev_at, transfer.
  cbn [cqueue tail base stride phase size ien interruptVector].
  rewrite u64_small by nia. rewrite contiguous_request by nia. cbn [mbind res_bind].
  pose proof (next_index_mod n ltac:(lia) p ltac:(lia) ltac:(lia)) as Hnx. unfold next_index in Hnx. rewrite Hnx.
  unfold set_tail. cbn [head tail id size stride base].
  replace (r mod n =? (p + 1) mod n) with (p - r =? n - 1).
  - destruct (p - r =? n - 1); [done|]. do 3 f_equal. f_equal.
    rewrite <- (phase_succ n ltac:(lia) p ltac:(lia)). rewrite <- Hnx.
    pose proof (Z.mod_pos_bound (p) n ltac:(lia)). unfold u16 in *. rewrite (Z.mod_small (_ + 1)) by lia.
    destruct (Z.eqb_spec (p mod n + 1) n); [done|]. by rewrite (proj2 (Z.eqb_neq (p mod n + 1) 0)) by lia.
  - destruct (Z.eqb_spec (p - r) (n - 1)) as [E|E].
    + replace (p + 1) with (r + 1 * n) by lia. rewrite Z.mod_add by lia. by rewrite Z.eqb_refl.
    + symmetry. apply Z.eqb_neq. intros H. pose proof (same_place n ltac:(lia) r (p + 1) H ltac:(lia)). lia.
Qed.

Lemma wires_of_app k a b : wires_of k (a ++ b) = wires_of k a ++ wires_of (k + vlen a) b.
Proof.
  unfold vlen. revert k. induction a as [|x a IH]; intros k; cbn [app wires_of length].
  - f_equal. lia.
  - rewrite IH. do 3 f_equal. lia.
Qed.

Lemma drop_cons (l : list CQEntry) d e : 0 <= d -> vget l d = Some e ->
  drop (Z.to_nat d) l = e :: drop (Z.to_nat (d + 1)) l.
Proof.
  intros Hd H. unfold vget in H. destruct (Z.ltb_spec d 0); [lia|].
  rewrite (drop_S _ _ _ H). do 2 f_equal. lia.
Qed.

Definition refines (ev : Ev) (l : Link) (s : Spec) : Prop :=
  match spec_step n ev s with
  | Ok (out, s') => exists l', step ev l = Ok (out, l') /\ related l' s'
  | Err x => step ev l = Err x
  end.

Lemma refines_post e l s : entry_ok e -> related l s -> refines (Post e) l s.
Proof.
  intros He [Ho Hok Hdev Hw Hm Hq Hp]. unfold refines, spec_step, step. rewrite Hdev, post_dev by lia.
  destruct (Z.eqb_spec (vlen (posted s) - returned_to s) (n - 1)) as [|Hr]; [done|].
  cbn [mbind res_bind]. eexists. split; [reflexivity|].
  assert (vlen (posted s ++ [e]) = vlen (posted s) + 1) as Hl by (unfold vlen; rewrite length_app; simpl; lia).
  constructor; cbn [posted returned_to taken delivered dev wires hmem hq hphase]; try done.
  - lia.
  - by apply Forall_app_2; [|apply Forall_singleton].
  - by rewrite Hl.
  - assert (Z.to_nat (delivered s) <= length (posted s))%nat by (unfold vlen in *; lia).
    rewrite drop_app_le, wires_of_app, Hw by done. f_equal. unfold vlen. rewrite length_drop.
    cbn [wires_of]. unfold wire, bytes_of.
    replace (delivered s + Z.of_nat (length (posted s) - Z.to_nat (delivered s))) with (vlen (posted s)) by (unfold vlen in *; lia).
    done.
  - destruct Hm as [Hm1 Hm2]. split; [|exact Hm2]. intros k x Hk Hkd Hg. apply Hm1; [done|done|].
    by rewrite vget_app_old in Hg by lia.
Qed.

Lemma mem_after l d e m : 0 <= d -> vget l d = Some e -> mem_at l d m -> mem_at l (d + 1) (store (place d) (bytes_of d e) m).
Proof.
  intros Hd He [H1 H2]. split.
  - intros k x Hk Hkd Hx. destruct (decide (k = d)) as [->|Hne].
    + rewrite He in Hx. simplify_eq. change 16 with (vlen (bytes_of d x)). apply load_store_same.
    + rewrite load_store_other; [by apply H1; try lia|].
      assert (k mod n <> d mod n) as Hneq by (intros E; apply same_place in E; lia).
      destruct (place_apart k d Hneq); [left|right]; (lia || by change (vlen (bytes_of d e)) with 16).
  - intros k Hk. rewrite load_store_other; [apply H2; lia|].
    assert (k mod n <> d mod n) as Hneq by (intros E; apply same_place in E; lia).
    destruct (place_apart k d Hneq); [left|right]; (lia || by change (vlen (bytes_of d e)) with 16).
Qed.

Lemma refines_deliver l s : related l s -> refines Deliver l s.
Proof.
  intros [Ho Hok Hdev Hw Hm Hq Hp]. unfold refines, spec_step, step.
  destruct (decide (delivered s = vlen (posted s))) as [E|E].
  - assert (drop (Z.to_nat (delivered s)) (posted s) = []) as E0 by (apply drop_ge; unfold vlen in *; lia).
    rewrite E0 in Hw. simpl in Hw. rewrite Hw. eexists. split; [reflexivity|]. rewrite Z.min_r by lia. rewrite <- E.
    constructor; cbn [posted returned_to taken delivered]; try done. by rewrite E0.
  - destruct (vget_in_range (posted s) (delivered s) ltac:(lia)) as [e He].
    rewrite (drop_cons _ _ e) in Hw by (done || lia). cbn [wires_of] in Hw. unfold wire in Hw. rewrite Hw.
    eexists. split; [reflexivity|]. rewrite Z.min_l by lia.
    constructor; cbn [posted returned_to taken delivered dev wires hmem hq hphase]; try done; [lia|].
    change (write_ops _ _ (hmem l)) with (store (place (delivered s)) (bytes_of (delivered s) e) (hmem l)).
    by apply mem_after; [lia| |].
Qed.

Lemma peek_place m c : Sil.Queue.peekData m (hq_at c) 16 = load m (place c) 16.
Proof. done. Qed.

Lemma consume_at c : 0 <= c -> consume (Sil.Queue.incrTail (hq_at c)) (phase_of n c) = (hq_at (c + 1), phase_of n (c + 1)).
Proof.
  intros Hc. unfold consume, Sil.Queue.incrHead, Sil.Queue.incrTail, hq_at.
  cbn [Sil.Queue.memory Sil.Queue.capacity Sil.Queue.stride Sil.Queue.entries Sil.Queue.head Sil.Queue.tail].
  rewrite next_index_mod by lia. by rewrite phase_succ by lia.
Qed.

Lemma refines_poll l s : related l s -> refines Poll l s.
Proof.
  intros [Ho Hok Hdev Hw Hm Hq Hp]. unfold refines, spec_step, step. rewrite Hq, Hp.
  destruct (Z.ltb_spec (taken s) (delivered s)) as [Hlt|Hge].
  - destruct (vget_in_range (posted s) (taken s) ltac:(lia)) as [e He]. rewrite He.
    rewrite (seen_entry _ _ (phase_of n (taken s)) _ e).
    + rewrite eqb_reflx, consume_at by lia. eexists. split; [reflexivity|].
      constructor; cbn [posted returned_to taken delivered dev wires hmem hq hphase fst snd]; (done || lia).
    + eapply Forall_forall; [exact Hok|]. by eapply vget_elem_of.
    + rewrite peek_place. apply Hm; [lia|lia|done].
  - assert (taken s = delivered s) as E by lia. destruct Hm as [Hm1 Hm2].
    assert (seen (hmem l) (hq_at (taken s)) (phase_of n (taken s)) = None) as ->.
    { destruct (decide (taken s < n)) as [Hfirst|Hlater].
      - unfold phase_of at 1. rewrite Z.div_small by lia. apply seen_zero. rewrite peek_place. apply Hm2. lia.
      - destruct (vget_in_range (posted s) (taken s - n) ltac:(lia)) as [e He].
        rewrite (seen_entry _ _ (phase_of n (taken s - n)) _ e).
        + rewrite phase_prev by lia. by destruct (phase_of n (taken s)).
        + eapply Forall_forall; [exact Hok|]. by eapply vget_elem_of.
        + rewrite peek_place. unfold place. rewrite <- (Z.mod_add (taken s) (-1) n) by lia.
          replace (taken s + -1 * n) with (taken s - n) by lia. apply Hm1; [lia|lia|done]. }
    exists l. split; [done|]. by constructor.
Qed.

Lemma refines_ring l s : related l s -> refines Ring l s.
Proof.
  intros [Ho Hok Hdev Hw Hm Hq Hp]. unfold refines, spec_step, step. eexists. split; [reflexivity|].
  constructor; cbn [posted returned_to taken delivered dev wires hmem hq hphase]; try done; [lia|].
  rewrite Hdev, Hq. done.
Qed.

Lemma refines_all ev l s : ev_ok ev -> related l s -> refines ev l s.
Proof.
  intros He Hr. destruct ev; [by apply refines_post|by apply refines_deliver|by apply refines_poll|by apply refines_ring].
Qed.

Lemma run_refines evs l s : Forall ev_ok evs -> related l s -> run evs l = spec_run n evs s.
Proof.
  intros Hok. revert l s. induction Hok as [|ev evs He Hok IH]; intros l s Hr; [done|].
  pose proof (refines_all ev l s He Hr) as H. unfold refines in H. cbn [run spec_run].
  destruct (spec_step n ev s) as [[out s']|x].
  - destruct H as (l' & -> & Hr'). cbn [mbind res_bind fst snd]. by rewrite (IH l' s' Hr').
  - by rewrite H.
Qed.
End Ring.
