(* ===== verification/SqRing.v ===== *)
(** * The submission queue, from the driver to the controller

    [Link] is a submission queue of the driver, the host memory, the queue of the
    controller and its reads on their way.  The driver writes a command and rings
    the doorbell, without a look at how many are there; the controller fetches when
    it finds an entry, and the entry arrives.  [spec] is a FIFO that is overrun when
    a command would take the place of one that has not arrived. *)

From S2P Require Import Prelude Dma NvmeQueue Sil RingProof.

Record Link : Type := mkLink { dev : SQueue; reads : list (list DmaOp); hmem : Z -> Z; hq : Sil.Queue.t }.

Inductive Ev : Type := Submit (cmd : list Z) | Fetch | Arrive.

(** The bytes a transfer reads. *)
Definition read_ops (ops : list DmaOp) (m : Z -> Z) : list Z := ops ≫= fun o => load m (op_addr o) (op_size o).

Definition step (ev : Ev) (l : Link) : res (list SQEntry * Link) :=
  match ev with
  | Submit cmd =>
      let w := Sil.Queue.setData (hmem l) (hq l) cmd in
      Ok ([], mkLink (SQueue_setTail (Sil.Queue.tail w.2) (dev l)) (reads l) w.1 (Sil.Queue.incrHead w.2))
  | Fetch =>
      if 0 <? getItemCount (squeue (dev l)) then
        r ← SQueue_getData (dev l);
        Ok ([], mkLink r.2 (reads l ++ match r.1 with Some op => [op.1] | None => [] end) (hmem l) (hq l))
      else Ok ([], l)
  | Arrive =>
      match reads l with
      | [] => Ok ([], l)
      | ops :: w => Ok ([SQEntry_of (read_ops ops (hmem l))], mkLink (dev l) w (hmem l) (hq l))
      end
  end.

Fixpoint run (evs : list Ev) (l : Link) : res (list SQEntry) :=
  match evs with
  | [] => Ok []
  | ev :: evs => r ← step ev l; out ← run evs r.2; Ok (r.1 ++ out)
  end.

Record Spec : Type := mkSpec { submitted : list (list Z); fetched : Z; arrived : Z }.

Definition spec_step (n : Z) (ev : Ev) (s : Spec) : res (list SQEntry * Spec) :=
  match ev with
  | Submit cmd =>
      if (vlen (submitted s) - fetched s <? n - 1) && (vlen (submitted s) - arrived s <? n) then
        Ok ([], mkSpec (submitted s ++ [cmd]) (fetched s) (arrived s))
      else panic "overrun"
  | Fetch => Ok ([], mkSpec (submitted s) (Z.min (fetched s + 1) (vlen (submitted s))) (arrived s))
  | Arrive =>
      if arrived s <? fetched s then
        match vget (submitted s) (arrived s) with
        | Some cmd => Ok ([SQEntry_of cmd], mkSpec (submitted s) (fetched s) (arrived s + 1))
        | None => Ok ([], s)
        end
      else Ok ([], s)
  end.

Fixpoint spec_run (n : Z) (evs : list Ev) (s : Spec) : res (list SQEntry) :=
  match evs with
  | [] => Ok []
  | ev :: evs => r ← spec_step n ev s; out ← spec_run n evs r.2; Ok (r.1 ++ out)
  end.

Definition fresh (B n st cqid pri qid page : Z) (m : Z -> Z) : Link :=
  mkLink (with_squeue (set_base (Some (contiguous B (n * st) page)) st (Queue_make qid n)) (SQueue_make cqid pri qid n))
    [] m (Sil.Queue.make B n st).
Definition spec_fresh : Spec := mkSpec [] 0 0.

Definition ev_ok (ev : Ev) : Prop := match ev with Submit cmd => vlen cmd = 64 | _ => True end.

(** ** The relation between the two *)

Section Ring.
  Context (B n st cqid pri qid page : Z).
  Context (HB : 0 <= B) (Hn : 2 <= n < 2 ^ 16) (Hst : 64 <= st) (Hfit : B + n * st < 2 ^ 64).

Definition place (k : Z) : Z := B + (k mod n) * st.
Definition dev_at (p f : Z) : SQueue :=
  mkSQueue (mkQueue qid (f mod n) (p mod n) n st (Some (contiguous B (n * st) page))) cqid pri.
Definition hq_at (p : Z) : Sil.Queue.t := Sil.Queue.mk B (st * n) st n (p mod n) (p mod n).
Definition read (k : Z) : list DmaOp := [mkDmaOp false (place k) 64 (Some 0)].

Record related (l : Link) (s : Spec) : Prop := {
  rel_order : 0 <= arrived s <= fetched s /\ fetched s <= vlen (submitted s) /\
    vlen (submitted s) <= fetched s + n - 1 /\ vlen (submitted s) <= arrived s + n;
  rel_ok : Forall (fun c => vlen c = 64) (submitted s);
  rel_dev : dev l = dev_at (vlen (submitted s)) (fetched s);
  rel_reads : reads l = read <$> seqZ (arrived s) (fetched s - arrived s);
  rel_mem : forall k c, arrived s <= k -> vget (submitted s) k = Some c -> load (hmem l) (place k) 64 = c;
  rel_hq : hq l = hq_at (vlen (submitted s));
}.

Lemma sq_place_apart i j : i mod n <> j mod n -> place i + 64 <= place j \/ place j + 64 <= place i.
Proof. intros H. unfold place. destruct (Z.lt_trichotomy (i mod n) (j mod n)) as [?|[?|?]]; [left|done|right]; nia. Qed.

Lemma sq_fresh_related m : related (fresh B n st cqid pri qid page m) spec_fresh.
Proof.
  constructor; [cbn; unfold vlen; simpl; lia|constructor|done|done| |done].
  intros k c Hk Hg. apply vget_Some_range in Hg. unfold vlen in Hg. simpl in Hg. lia.
Qed.

(** How many entries the controller finds. *)
Lemma count_at p f : 0 <= f -> f <= p <= f + n -> getItemCount (squeue (dev_at p f)) = if p - f =? n then 0 else p - f.
Proof.
  intros Hf Hp. unfold getItemCount, dev_at. cbn [squeue head tail size]. unfold u16.
  pose proof (Z.div_mod p n ltac:(lia)). pose proof (Z.mod_pos_bound p n ltac:(lia)).
  pose proof (Z.div_mod f n ltac:(lia)). pose proof (Z.mod_pos_bound f n ltac:(lia)).
  assert (p / n - f / n = 0 \/ p / n - f / n = 1) as Hq by nia.
  destruct (Z.leb_spec (f mod n) (p mod n)) as [Hle|Hlt].
  - rewrite Z.mod_small by lia. destruct (Z.eqb_spec (p - f) n); nia.
  - rewrite Z.mod_small by lia. destruct (Z.eqb_spec (p - f) n); nia.
Qed.

Definition refines (ev : Ev) (l : Link) (s : Spec) : Prop :=
  forall out s', spec_step n ev s = Ok (out, s') -> exists l', step ev l = Ok (out, l') /\ related l' s'.

Lemma submit_at p : 0 <= p -> forall m cmd, Sil.Queue.setData m (hq_at p) cmd
  = (store (place p) cmd m, Sil.Queue.mk B (st * n) st n (p mod n) ((p + 1) mod n)).
Proof.
  intros Hp m cmd. unfold Sil.Queue.setData, Sil.Queue.incrTail, hq_at.
  cbn [Sil.Queue.memory Sil.Queue.capacity Sil.Queue.stride Sil.Queue.entries Sil.Queue.head Sil.Queue.tail].
  by rewrite next_index_mod by lia.
Qed.

Lemma submitted_at p f rs m cmd : 0 <= p ->
  step (Submit cmd) (mkLink (dev_at p f) rs m (hq_at p))
  = Ok ([], mkLink (dev_at (p + 1) f) rs (store (place p) cmd m) (hq_at (p + 1))).
Proof.
  intros Hp. unfold step. cbn [hmem hq dev reads]. rewrite submit_at by done. cbn [fst snd Sil.Queue.tail].
  unfold Sil.Queue.incrHead.
  cbn [Sil.Queue.memory Sil.Queue.capacity Sil.Queue.stride Sil.Queue.entries Sil.Queue.head Sil.Queue.tail].
  by rewrite next_index_mod by lia.
Qed.

Lemma refines_submit cmd l s : vlen cmd = 64 -> related l s -> refines (Submit cmd) l s.
Proof.
  intros Hc [Ho Hok Hdev Hr Hm Hq] out s'. unfold spec_step.
  destruct (Z.ltb_spec (vlen (submitted s) - fetched s) (n - 1)); [|done].
  destruct (Z.ltb_spec (vlen (submitted s) - arrived s) n); [|done]. intros [= <- <-].
  destruct l as [d rs m q]. simpl in *. subst d q. eexists. split; [by apply submitted_at; lia|].
  assert (vlen (submitted s ++ [cmd]) = vlen (submitted s) + 1) as Hl by (unfold vlen; rewrite length_app; simpl; lia).
  constructor; cbn [submitted fetched arrived dev reads hmem hq]; rewrite ?Hl; try done; [lia| |].
  - by apply Forall_app_2; [|apply Forall_singleton].
  - intros k c Hk Hg. pose proof (vget_Some_range _ _ _ Hg) as Hr'. rewrite Hl in Hr'.
    destruct (decide (k = vlen (submitted s))) as [->|Hne].
    + rewrite vget_app_last in Hg. simplify_eq. rewrite <- Hc. apply load_store_same.
    + rewrite vget_app_old in Hg by lia. rewrite load_store_other; [by apply Hm|]. rewrite Hc.
      assert (k mod n <> vlen (submitted s) mod n) as Hneq by (intros E; apply same_place in E; lia).
      destruct (sq_place_apart _ _ Hneq); lia.
Qed.

Lemma refines_fetch l s : related l s -> refines Fetch l s.
Proof.
  intros [Ho Hok Hdev Hr Hm Hq] out s'. unfold spec_step, step. intros [= <- <-].
  rewrite Hdev, count_at by lia. rewrite (proj2 (Z.eqb_neq _ n)) by lia.
  destruct (Z.ltb_spec 0 (vlen (submitted s) - fetched s)) as [Hlt|Hge].
  - pose proof (Z.mod_pos_bound (fetched s) n ltac:(lia)).
    unfold SQueue_getData, dev_at. cbn [squeue head tail size]. unfold transfer. cbn [base stride].
    destruct (Z.eqb_spec (fetched s mod n) (vlen (submitted s) mod n)) as [E|E].
    { apply same_place in E; lia. }
    cbn [negb]. rewrite u64_small by nia. rewrite contiguous_request by nia. cbn [mbind res_bind fst snd].
    eexists. split; [reflexivity|]. rewrite Z.min_l by lia.
    constructor; cbn [submitted fetched arrived dev reads hmem hq]; try done; [lia| |].
    + unfold with_squeue, set_head, dev_at. cbn [id tail size stride base cqID priority]. by rewrite next_index_mod by lia.
    + rewrite Hr. replace (fetched s + 1 - arrived s) with ((fetched s - arrived s) + 1) by lia.
      rewrite seqZ_app, fmap_app by lia. f_equal. replace (arrived s + (fetched s - arrived s)) with (fetched s) by lia.
      done.
  - exists l. split; [done|]. rewrite Z.min_r by lia.
    constructor; cbn [submitted fetched arrived]; try done; [lia| |].
    + by replace (vlen (submitted s)) with (fetched s) at 2 by lia.
    + rewrite Hr. do 2 f_equal. lia.
Qed.

Lemma refines_arrive l s : related l s -> refines Arrive l s.
Proof.
  intros [Ho Hok Hdev Hr Hm Hq] out s'. unfold spec_step, step. rewrite Hr.
  destruct (Z.ltb_spec (arrived s) (fetched s)) as [Hlt|Hge].
  - destruct (vget_in_range (submitted s) (arrived s) ltac:(lia)) as [c Hc]. rewrite Hc. intros [= <- <-].
    rewrite seqZ_cons by lia. cbn [fmap list_fmap]. eexists. split.
    { unfold read_ops, read. cbn [mbind list_bind op_addr op_size]. rewrite app_nil_r, (Hm _ c) by (done || lia). reflexivity. }
    constructor; cbn [submitted fetched arrived dev reads hmem hq]; try done; [lia| |].
    + do 2 f_equal; lia.
    + intros k x Hk. apply Hm. lia.
  - rewrite seqZ_nil by lia. intros [= <- <-]. exists l. split; [done|]. by constructor.
Qed.

Lemma sq_refines_all ev l s : ev_ok ev -> related l s -> refines ev l s.
Proof.
  intros He Hr. destruct ev; [by apply refines_submit|by apply refines_fetch|by apply refines_arrive].
Qed.

Lemma sq_run_refines evs l s out :
  Forall ev_ok evs -> related l s -> spec_run n evs s = Ok out -> run evs l = Ok out.
Proof.
  intros Hok. revert l s out. induction Hok as [|ev evs He Hok IH]; intros l s out Hr; [done|].
  cbn [run spec_run]. destruct (spec_step n ev s) as [[o s']|x] eqn:Hs; [|done].
  destruct (sq_refines_all ev l s He Hr o s' Hs) as (l' & -> & Hr'). cbn [mbind res_bind fst snd].
  destruct (spec_run n evs s') as [o'|] eqn:Hrun; [|done]. by rewrite (IH l' s' o' Hr' Hrun).
Qed.

(** Submissions alone: the controller's tail goes round the ring. *)
Lemma submit_many cmds p f rs m : 0 <= p ->
  exists m', forall evs, run ((Submit <$> cmds) ++ evs) (mkLink (dev_at p f) rs m (hq_at p))
    = run evs (mkLink (dev_at (p + vlen cmds) f) rs m' (hq_at (p + vlen cmds))).
Proof.
  revert p m. induction cmds as [|c cmds IH]; intros p m Hp.
  - exists m. intros evs. unfold vlen. simpl. by rewrite Z.add_0_r.
  - destruct (IH (p + 1) (store (place p) c m) ltac:(lia)) as [m' H]. exists m'. intros evs.
    cbn [fmap list_fmap app run]. rewrite submitted_at by done. cbn [mbind res_bind fst snd]. rewrite H.
    replace (p + vlen (c :: cmds)) with (p + 1 + vlen cmds) by (unfold vlen; simpl; lia).
    by destruct (run evs _).
Qed.

(** Nothing is fetched from a queue that looks empty. *)
Lemma fetch_nothing k p f m q : 0 <= f -> p - f = n ->
  run (replicate k Fetch) (mkLink (dev_at p f) [] m q) = Ok [].
Proof.
  intros Hf Hp. induction k as [|k IH]; [done|]. cbn [replicate run]. unfold step. cbn [dev].
  rewrite count_at by lia. rewrite Hp, Z.eqb_refl. cbn [mbind res_bind fst snd app].
  replace (0 <? 0) with false by done. cbn [mbind res_bind fst snd app]. by rewrite IH.
Qed.
End Ring.
