(* ===== verification/SilTheorems.v ===== *)
(** * The driver and the controller understand each other: properties *)

From S2P Require Import Prelude Algorithm Dma DmaProof DmaTheorems NvmeQueue Sil RingProof CqRing SqRing.

(** ** The page lists of the driver, as the controller reads them

    [Sil.PRP.make] lays out the pages of a request and their list in the host
    memory; [PRPList] of [Dma.v] finds the pages again. *)

Lemma page_ok_4096 : page_ok PAGE_SIZE.
Proof. exists 12. split; [lia|done]. Qed.

(** ** The list in the memory *)

Lemma fetch_load mem a n : 0 <= a -> a + n <= 2 ^ 64 -> fetch mem a n = load mem a n.
Proof.
  intros Ha Hn. unfold fetch, load. apply list_eq. intros i. rewrite !list_lookup_fmap.
  destruct (decide (i < Z.to_nat n)%nat).
  - rewrite !lookup_seqZ_lt by lia. simpl. rewrite Z.add_0_l, u64_small by lia. done.
  - by rewrite !lookup_seqZ_ge by lia.
Qed.

Lemma word_stored mem a x : 0 <= a -> a + 8 <= 2 ^ 64 -> 0 <= x < 2 ^ 64 -> word (store a (le_bytes 8 x) mem) a = x.
Proof.
  intros Ha Hb Hx. unfold word. rewrite fetch_load by lia.
  pose proof (load_store_same a (le_bytes 8 x) mem) as E. change (vlen (le_bytes 8 x)) with 8 in E.
  rewrite E, le_word_bytes. change (256 ^ Z.of_nat 8) with (2 ^ 64). by apply Z.mod_small.
Qed.

Lemma word_other mem a l b : 0 <= b -> b + 8 <= 2 ^ 64 -> a + vlen l <= b \/ b + 8 <= a ->
  word (store a l mem) b = word mem b.
Proof. intros Hb Hf H. unfold word. rewrite !fetch_load by lia. by rewrite load_store_other by lia. Qed.

(** Entry [i] of the list at [list]: the [i]th page from [page] on. *)
Definition nth_page (page i : Z) : Z := page + PAGE_SIZE * i.

Section Fill.
  Context (list page c : Z).
  Context (Hl : 0 <= list) (Hc : 0 < c <= 512) (Hp : 0 <= page) (Hf : page + PAGE_SIZE * 513 < 2 ^ 64)
          (Hg : list + 8 * 513 < 2 ^ 64).

(** The loop with one list. *)
Lemma fill_single n e ptrs mem :
  0 <= e < c -> c - e <= Z.of_nat n ->
  (forall i, 0 <= i < e -> word mem (list + 8 * i) = nth_page page i) ->
  exists mem', PRP.fill n 1 c list (nth_page page e) e ptrs mem
    = Ok (ptrs ++ (nth_page page <$> seqZ e (c - e)), mem') /\
    (forall i, 0 <= i < c -> word mem' (list + 8 * i) = nth_page page i).
Proof.
  unfold nth_page, PAGE_SIZE in *. revert e ptrs mem. induction n as [|n IH]; intros e ptrs mem He Hn Hw; [lia|].
  cbn [PRP.fill].
  set (m := store (list + 8 * e) (le_bytes 8 (page + 4096 * e)) mem).
  assert (forall i, 0 <= i < e + 1 -> word m (list + 8 * i) = page + 4096 * i) as Hm.
  { intros i Hi. unfold m. destruct (decide (i = e)) as [->|Hne]; [apply word_stored; lia|].
    rewrite word_other; [apply Hw; lia|lia|lia|].
    replace (vlen (le_bytes 8 (page + 4096 * e))) with 8 by (unfold vlen; by rewrite length_le_bytes). lia. }
  rewrite seqZ_cons by lia. cbn [fmap list_fmap].
  change (1 =? 1) with true. change (1 <? 1) with false. cbn [andb].
  destruct (Z.eqb_spec (e + 1) c) as [E|E].
  - eexists. split; [rewrite (seqZ_nil (Z.succ e)) by lia; reflexivity|].
    intros i Hi. rewrite word_other; [apply Hm; lia|lia|lia|]. right. lia.
  - change (PAGE_SIZE) with 4096. replace (page + 4096 * e + 4096) with (page + 4096 * (e + 1)) by lia.
    destruct (IH (e + 1) (ptrs ++ [page + 4096 * e]) m ltac:(lia) ltac:(lia) Hm) as (mem' & -> & Hmem').
    exists mem'. split; [|done]. rewrite <- app_assoc. cbn [app].
    by replace (Z.succ e) with (e + 1) by lia; replace (Z.pred (c - e)) with (c - (e + 1)) by lia.
Qed.
End Fill.

(** ** The list as the controller reads it *)

Import PRPList.

(** The loop over the entries stops where the data is covered; what follows may be null. *)
Lemma entries_covers es k total buffer s i cur :
  page_ok (pagesize s) -> Forall (fun e => e <> 0) es ->
  (forall j e, es !! j = Some e -> load64 buffer (i + 8 * Z.of_nat j) = Ok e) ->
  0 <= cur < total -> cur + pagesize s * vlen es < 2 ^ 64 ->
  total <= cur + covered (regions (pagesize s) total cur es) ->
  entries (length es + k) i total buffer cur s
  = Ok (cur + covered (regions (pagesize s) total cur es),
        set_list (prpList s ++ regions (pagesize s) total cur es) s).
Proof.
  intros Hp Hnz. revert s i cur Hp. induction Hnz as [|e es He Hnz IH]; intros s i cur Hp Hload Hcur Hmax Hcov.
  - simpl in Hcov. lia.
  - cbn [length Nat.add entries regions]. cbv [mbind M_bind lift get push_back modify].
    pose proof (Hload 0%nat e eq_refl) as H0. rewrite Z.add_0_r in H0. rewrite H0.
    pose proof (getPRPSize_range (pagesize s) e Hp). pose proof (page_range _ Hp).
    unfold vlen in Hmax. simpl length in Hmax. rewrite u64_small by nia.
    rewrite (proj2 (Z.eqb_neq e 0) He). cbn [covered region size regions] in Hcov |- *.
    destruct (Z.leb_spec total (cur + getPRPSize (pagesize s) e)) as [Ht|Ht].
    + unfold mret, M_ret. simpl. rewrite Z.add_0_r. done.
    + rewrite (IH (set_list (prpList s ++ [mkPRP e (getPRPSize (pagesize s) e)]) s)).
      * simpl. rewrite <- app_assoc, <- Z.add_assoc. done.
      * done.
      * intros j x Hj. rewrite <- (Hload (S j) x Hj). f_equal. lia.
      * lia.
      * cbn [pagesize set_list]. unfold vlen. nia.
      * cbn [pagesize set_list]. lia.
Qed.

(** A list of whole pages, of which the last may be used in part. *)
Lemma regions_prefix page total cur es : page_ok page -> whole_pages page es ->
  cur < total -> cur + page * (vlen es - 1) < total -> regions page total cur es = region page <$> es.
Proof.
  intros Hp Hes. unfold vlen. revert cur. induction Hes as [|e es [_ He] _ IH]; intros cur Hc Hm; [done|].
  cbn [regions fmap list_fmap length] in *. rewrite getPRPSize_eq, He, Z.sub_0_r by done.
  pose proof (page_range page Hp). f_equal.
  destruct es as [|e' es']; [by destruct (total <=? _)|].
  cbn [length] in *. rewrite (proj2 (Z.leb_gt total (cur + page))) by nia. apply IH; nia.
Qed.

(** The regions of [c] pages from [page] on. *)
Definition page_regions (page c : Z) : list PRP := (fun i => mkPRP (nth_page page i) PAGE_SIZE) <$> seqZ 0 c.

(** The regions of a request of the driver: its first page, and the pages behind the list. *)
Definition data_pages (memory size : Z) : list PRP :=
  if size <=? PAGE_SIZE then [mkPRP memory size]
  else mkPRP memory PAGE_SIZE ::
    page_regions (memory + (if size <=? PAGE_SIZE * 2 then PAGE_SIZE else PAGE_SIZE * 2)) ((size - 1) / PAGE_SIZE).

Lemma aligned_size a : a mod PAGE_SIZE = 0 -> getPRPSize PAGE_SIZE a = PAGE_SIZE.
Proof. intros H. rewrite getPRPSize_eq by apply page_ok_4096. rewrite H. done. Qed.

Lemma nth_page_whole page c : 0 < page -> page mod PAGE_SIZE = 0 -> whole_pages PAGE_SIZE (nth_page page <$> seqZ 0 c).
Proof.
  intros Hp Hm. apply Forall_fmap, Forall_forall. intros i Hi%elem_of_seqZ. unfold nth_page, PAGE_SIZE in *.
  split; [lia|]. by rewrite (Z.mul_comm 4096), Z.mod_add by lia.
Qed.

(** The list of the driver arrives at once. *)
Lemma driver_list_arrives mem s list total page c :
  pagesize s = PAGE_SIZE -> list mod PAGE_SIZE = 0 -> 0 <= list -> list + 8 * 512 < 2 ^ 64 ->
  0 < page -> page mod PAGE_SIZE = 0 -> page + PAGE_SIZE * 513 < 2 ^ 64 ->
  0 < c <= 512 -> PAGE_SIZE * (c - 1) < total <= PAGE_SIZE * c ->
  (forall i, 0 <= i < c -> word mem (list + 8 * i) = nth_page page i) ->
  arrive mem (waits list total s) = Ok (tt, set_list (prpList s ++ page_regions page c) (DmaProof.arrived s)).
Proof.
  intros Hps Hla Hl0 Hlf Hp0 Hpa Hpf Hc Ht Hw. set (es := nth_page page <$> seqZ 0 c).
  assert (whole_pages PAGE_SIZE es) as Hes by (by apply nth_page_whole).
  assert (vlen es = c) as Hlen by (unfold es; rewrite vlen_fmap; unfold vlen; rewrite length_seqZ; lia).
  assert (regions PAGE_SIZE total 0 es = page_regions page c) as Hr.
  { rewrite regions_prefix; [|apply page_ok_4096|done|unfold PAGE_SIZE in *; lia|rewrite Hlen; lia].
    unfold es, page_regions. rewrite <- list_fmap_compose. apply list_fmap_ext. intros i x Hx%lookup_seqZ. cbn.
    unfold region. f_equal. apply aligned_size. unfold nth_page. by rewrite (Z.mul_comm PAGE_SIZE), Z.mod_add by done. }
  assert (covered (regions PAGE_SIZE total 0 es) = PAGE_SIZE * c) as Hcov.
  { rewrite regions_whole; [|apply page_ok_4096|done|unfold PAGE_SIZE in *; lia|rewrite Hlen; lia].
    f_equal. rewrite Z.sub_0_r. unfold PAGE_SIZE in *. symmetry. apply Z.div_unique with (total - 4096 * (c - 1) - 1); lia. }
  unfold arrive, doRead, waits. cbv [mbind M_bind get modify].
  cbn [waiting set_waiting ctx_base ctx_currentSize ctx_totalSize callCounter pagesize].
  rewrite Hps, aligned_size by done.
  change (Z.to_nat ((PAGE_SIZE + 7) / 8)) with 512%nat.
  replace 512%nat with (length es + (512 - length es))%nat by (unfold vlen in Hlen; lia).
  change (set_waiting _ _ (set_waiting _ _ (set_waiting _ _ s))) with (set_waiting 0 [] s).
  rewrite (entries_covers es); cbn [pagesize set_waiting]; rewrite ?Hps.
  - rewrite Z.add_0_l, Hcov. rewrite (proj2 (Z.ltb_ge _ _)) by lia. rewrite Hr. done.
  - apply page_ok_4096.
  - by eapply whole_nonnull.
  - intros j e Hj. unfold es in Hj. rewrite list_lookup_fmap in Hj.
    destruct (seqZ 0 c !! j) as [x|] eqn:Hx; [|done]. simpl in Hj. injection Hj as <-. apply lookup_seqZ in Hx as [-> Hx].
    rewrite load64_fetch by (unfold PAGE_SIZE; lia). f_equal. rewrite Z.add_0_l. apply Hw. lia.
  - unfold PAGE_SIZE in *. lia.
  - rewrite Hlen. unfold PAGE_SIZE in *. lia.
  - rewrite Hcov. lia.
Qed.

(** What the constructor of the driver leaves in the memory. *)
Lemma make_pages fuel memory size mem :
  0 < memory -> memory + PAGE_SIZE * 515 < 2 ^ 64 -> 0 < size <= PAGE_SIZE * 513 -> (512 <= fuel)%nat ->
  exists p mem', PRP.make fuel memory size mem = Ok (p, mem') /\
    PRP.ptr1 p = memory /\ (PAGE_SIZE < size -> PRP.ptr2 p = memory + PAGE_SIZE) /\
    (PAGE_SIZE * 2 < size -> forall i, 0 <= i < (size - 1) / PAGE_SIZE ->
      word mem' (memory + PAGE_SIZE + 8 * i) = nth_page (memory + PAGE_SIZE * 2) i).
Proof.
  intros Hm Hf Hs Hfuel. unfold PRP.make, PRP.layout. set (pg := PAGE_SIZE) in *. assert (pg = 4096) as Hpg by done.
  destruct (Z.leb_spec size pg).
  { do 2 eexists. split; [reflexivity|]. cbn [PRP.ptr1 PRP.ptr2]. split_and!; [done|lia|lia]. }
  destruct (Z.leb_spec size (pg * 2)).
  { do 2 eexists. split; [reflexivity|]. cbn [PRP.ptr1 PRP.ptr2]. split_and!; [done|done|lia]. }
  assert (PRP.count_lists fuel (u64 (size - pg)) 1 (pg * 2)
    = Ok (1, (size - 1) / pg, u64 (pg * 2 + pg * ((size - 1) / pg)))) as ->.
  { rewrite u64_small by lia. destruct fuel; [lia|]. cbn [PRP.count_lists]. change PRP.maxEntryCount with 512. fold pg.
    rewrite (proj2 (Z.ltb_ge _ _)) by lia.
    assert ((size - 1) / pg = (size - pg - 1) / pg + 1) as Hdiv.
    { replace (size - 1) with ((size - pg - 1) + 1 * pg) by lia. rewrite Z.div_add by lia. done. }
    assert (0 <= (size - pg - 1) / pg < 512) by (split; [apply Z.div_pos|apply Z.div_lt_upper_bound]; lia).
    assert (u32 (Algorithm.DIVCEIL64 (size - pg) pg) = (size - 1) / pg) as ->; [|done].
    unfold Algorithm.DIVCEIL64. rewrite (u64_small (size - pg - 1)), Hdiv by lia. rewrite u64_small, u32_small by lia. done. }
  assert (1 <= (size - 1) / pg <= 512) as Hc
    by (split; [apply Z.div_le_lower_bound | apply Z.lt_succ_r, Z.div_lt_upper_bound]; lia).
  cbn [mbind res_bind]. change (3 =? 1) with false. change (3 =? 3) with true. cbv iota.
  set (mem0 := clear _ _ mem).
  destruct (fill_single (memory + pg) (memory + pg * 2) ((size - 1) / pg) ltac:(lia) ltac:(lia) ltac:(lia)
    ltac:(unfold pg in *; unfold PAGE_SIZE in *; lia) ltac:(lia) fuel 0 [memory; memory + pg] mem0 ltac:(lia) ltac:(lia) ltac:(lia))
    as (mem' & He & Hw).
  unfold nth_page in He at 1. fold pg in He. rewrite Z.mul_0_r, Z.add_0_r in He. rewrite He. cbn [mbind res_bind fst snd].
  do 2 eexists. split; [reflexivity|]. cbn [PRP.ptr1 PRP.ptr2]. split_and!; [done|done|]. intros _ i Hi. by apply Hw.
Qed.

(** C8: Completions reach the driver: for any interleaving of entries posted by the controller ([CQueue::setData]),
    transfers arriving in the host memory, looks of the driver at its queue and head doorbells, the driver sees
    exactly the entries posted, once each, in order and with their fields, as soon as they have arrived and not
    before; the controller panics exactly when it would post one entry more than the ring has room for. *)
Theorem completions_reach_driver (B n st iv qid page : Z) (ien : bool) (m : Z -> Z) (evs : list CqRing.Ev)
    (HB : 0 <= B) (Hn : 2 <= n < 2 ^ 16) (Hst : 16 <= st) (Hfit : B + n * st < 2 ^ 64)
    (Hevs : Forall CqRing.ev_ok evs) :
  CqRing.run evs (CqRing.fresh B n st iv qid page ien m) = CqRing.spec_run n evs CqRing.spec_fresh.
Proof.
  eapply CqRing.run_refines; [exact HB|exact Hn|exact Hst|exact Hfit|exact Hevs|].
  by apply CqRing.fresh_related.
Qed.

(** Three places: one entry is seen in the first turn and two in the second, with the phase changed between
    them; a fourth entry without a doorbell overruns the ring. *)
Definition an_entry (c s : Z) : CQEntry := mkCQEntry 7 0 1 1 c s.
Lemma completions_reach_driver_witness :
  let evs := [CqRing.Post (an_entry 1 0); CqRing.Poll; CqRing.Deliver; CqRing.Poll; CqRing.Poll; CqRing.Ring;
              CqRing.Post (an_entry 2 0); CqRing.Post (an_entry 3 4); CqRing.Deliver; CqRing.Poll; CqRing.Deliver;
              CqRing.Poll; CqRing.Poll] in
  CqRing.run evs (CqRing.fresh 4096 3 16 0 1 4096 true (fun _ => 255)) =
    Ok [mkCompletion 7 1 0; mkCompletion 7 2 0; mkCompletion 7 3 2] /\
  CqRing.run (evs ++ [CqRing.Post (an_entry 4 0)]) (CqRing.fresh 4096 3 16 0 1 4096 true (fun _ => 255)) =
    panic "Completion queue overflow".
Proof.
  assert (forall c s, 0 <= c < 2 ^ 16 -> 0 <= s < 2 ^ 16 -> CqRing.ev_ok (CqRing.Post (an_entry c s))) as He
    by (intros c s Hc Hs; split; [change (0 <= 7 < 2 ^ 32); lia | by split]).
  cbv zeta. split; (rewrite (completions_reach_driver 4096 3 16 0 1 4096 true (fun _ => 255));
    [vm_compute; reflexivity|lia|lia|lia|lia|]);
    repeat (apply Forall_app; split); repeat (apply Forall_cons; split); try exact I; try (apply He; lia); apply Forall_nil; exact I.
Defined.

(** C9: Commands reach the controller: for any interleaving of commands written by the driver, fetches of the
    controller and transfers that arrive, the controller gets exactly the commands written, once each and in
    order, as long as a command is only written when fewer than the ring's places less one wait for a fetch and
    its place has been read. *)
Theorem commands_reach_device (B n st cqid pri qid page : Z) (m : Z -> Z) (evs : list SqRing.Ev) (out : list SQEntry)
    (HB : 0 <= B) (Hn : 2 <= n < 2 ^ 16) (Hst : 64 <= st) (Hfit : B + n * st < 2 ^ 64)
    (Hevs : Forall SqRing.ev_ok evs) (Hroom : SqRing.spec_run n evs SqRing.spec_fresh = Ok out) :
  SqRing.run evs (SqRing.fresh B n st cqid pri qid page m) = Ok out.
Proof.
  eapply SqRing.sq_run_refines; [exact HB|exact Hn|exact Hst|exact Hfit|exact Hevs| |exact Hroom].
  by apply SqRing.sq_fresh_related.
Qed.

Definition a_command (c : Z) : list Z := le_bytes 4 (2 + Z.shiftl c 16) ++ replicate 60 1.
Lemma commands_reach_device_witness :
  let evs := [SqRing.Submit (a_command 1); SqRing.Submit (a_command 2); SqRing.Fetch; SqRing.Arrive; SqRing.Fetch;
              SqRing.Fetch; SqRing.Arrive; SqRing.Submit (a_command 3); SqRing.Fetch; SqRing.Arrive] in
  exists out, SqRing.run evs (SqRing.fresh 4096 3 64 1 0 1 4096 (fun _ => 0)) = Ok out /\ sq_commandID <$> out = [1; 2; 3].
Proof.
  cbv zeta. eexists. split.
  - apply (commands_reach_device 4096 3 64 1 0 1 4096 (fun _ => 0)); try lia; [|vm_compute; reflexivity].
    repeat constructor.
  - vm_compute. reflexivity.
Defined.

(** The driver overruns its submission queue: [submitCommand] does not look for room, so when as many commands
    as the queue has places are submitted before the controller fetches one, the tail doorbell names the head again,
    the queue looks empty, and none of the commands is ever fetched. *)
Theorem overrun_loses_commands (B n st cqid pri qid page : Z) (m : Z -> Z) (cmds : list (list Z)) (k : nat)
    (HB : 0 <= B) (Hn : 2 <= n < 2 ^ 16) (Hst : 64 <= st) (Hfit : B + n * st < 2 ^ 64) (Hc : vlen cmds = n) :
  SqRing.run ((SqRing.Submit <$> cmds) ++ replicate k SqRing.Fetch) (SqRing.fresh B n st cqid pri qid page m) = Ok [].
Proof.
  destruct (SqRing.submit_many B n st cqid pri qid page Hn cmds 0 0 [] m ltac:(lia)) as [m' H].
  specialize (H (replicate k SqRing.Fetch)). unfold SqRing.fresh.
  change (SqRing.mkLink _ _ m _) with (SqRing.mkLink (SqRing.dev_at B n st cqid pri qid page 0 0) [] m (SqRing.hq_at B n st 0)).
  rewrite H, Hc. eapply SqRing.fetch_nothing; (exact Hn || lia).
Qed.

Lemma overrun_loses_commands_witness :
  SqRing.run ((SqRing.Submit <$> [a_command 1; a_command 2]) ++ replicate 5 SqRing.Fetch)
    (SqRing.fresh 4096 2 64 1 0 1 4096 (fun _ => 0)) = Ok [].
Proof. apply overrun_loses_commands; (done || lia). Defined.

(** C12: The controller reads the page lists of the driver: for a request of up to 513 pages in a page-aligned buffer, the
    pointers and the list that the driver's [PRP] leaves in the memory make the controller's [PRPList] ready after at
    most one list, with exactly the pages of the driver's buffer as its regions, in order and without the page of the
    list itself.  A longer list is chained, and [chained_list_loses_page] applies to it. *)
Theorem driver_lists_understood (fuel : nat) (memory size : Z) (mem : Z -> Z)
    (Hm : 0 < memory) (Ha : memory mod PAGE_SIZE = 0) (Hf : memory + PAGE_SIZE * 515 < 2 ^ 64)
    (Hs : 0 < size <= PAGE_SIZE * 513) (Hfuel : (512 <= fuel)%nat) :
  exists p mem', PRP.make fuel memory size mem = Ok (p, mem') /\
    exists s, (PRPList.construct (PRP.ptr1 p) (PRP.ptr2 p);; run_event;; PRPList.arrive_all 1 mem')
                (PRPList.make size PAGE_SIZE) = Ok (tt, s) /\
      PRPList.waiting s = [] /\ PRPList.initialized s = 1 /\ PRPList.prpList s = data_pages memory size.
Proof.
  destruct (make_pages fuel memory size mem Hm Hf Hs Hfuel) as (p & mem' & Hmake & Hp1 & Hp2 & Hw).
  exists p, mem'. split; [exact Hmake|]. set (pg := PAGE_SIZE) in *. assert (pg = 4096) as Hpg by done.
  pose proof (construct_eq pg size (PRP.ptr1 p) (PRP.ptr2 p) page_ok_4096 ltac:(lia)) as Hc. cbv zeta in Hc.
  rewrite Hp1, aligned_size in Hc by done. unfold mbind at 1, M_bind at 1. unfold data_pages. rewrite Hp1.
  fold pg in Hc |- *. destruct (Z.leb_spec size pg) as [H1|H1].
  { rewrite Hc. eexists. split; [reflexivity|done]. }
  rewrite (Hp2 H1) in Hc |- *.
  assert ((memory + pg) mod PAGE_SIZE = 0) as Ha2.
  { fold pg. replace (memory + pg) with (memory + 1 * pg) by lia. by rewrite Z.mod_add by lia. }
  pose proof (aligned_size (memory + pg) Ha2) as Hsz. fold pg in Hsz. rewrite Hsz in Hc. rewrite Z.eqb_refl, andb_true_r in Hc.
  cbn [orb] in Hc. replace (2 * pg) with (pg * 2) in Hc by lia.
  destruct (Z.leb_spec size (pg * 2)) as [H2|H2].
  { rewrite (proj2 (Z.ltb_ge _ _)) in Hc by lia. rewrite Hc. eexists. split; [reflexivity|]. split_and!; [done|done|].
    assert ((size - 1) / pg = 1) as -> by (symmetry; apply Z.div_unique with (size - 1 - pg); lia).
    unfold page_regions, nth_page. fold pg. change (seqZ 0 1) with [0]. cbn [fmap list_fmap].
    by rewrite Z.mul_0_r, Z.add_0_r. }
  rewrite Hc. unfold mbind at 1, M_bind at 1. 
  assert ((memory + pg * 2) mod PAGE_SIZE = 0) as Ha3.
  { fold pg. replace (memory + pg * 2) with (memory + 2 * pg) by lia. by rewrite Z.mod_add by lia. }
  assert (1 <= (size - 1) / pg <= 512) as Hcnt
    by (split; [apply Z.div_le_lower_bound | apply Z.lt_succ_r, Z.div_lt_upper_bound]; lia).
  pose proof (Z.div_mod (size - 1) pg ltac:(lia)). pose proof (Z.mod_pos_bound (size - 1) pg ltac:(lia)).
  unfold run_event. cbv [mbind M_bind get]. cbn [PRPList.immediateEvent waits PRPList.set_waiting PRPList.set_list PRPList.make].
  cbv [when mret M_ret]. cbn [PRPList.arrive_all PRPList.waiting]. cbv [mbind M_bind get].
  pose proof (driver_list_arrives mem' (PRPList.set_list [PRPList.mkPRP memory pg] (PRPList.make size pg)) (memory + pg)
    (size - pg) (memory + pg * 2) ((size - 1) / pg) eq_refl Ha2 ltac:(lia) ltac:(lia) ltac:(lia) Ha3
    ltac:(fold pg; lia) ltac:(lia) ltac:(fold pg; lia) (Hw H2)) as Harr.
  cbn [PRPList.waiting waits PRPList.set_waiting PRPList.set_list PRPList.make] in *. rewrite Harr.
  eexists. split; [reflexivity|]. done.
Qed.

Lemma driver_lists_understood_witness : exists p mem', PRP.make 512 4096 (PAGE_SIZE * 4) (fun _ => 77) = Ok (p, mem') /\
    exists s, (PRPList.construct (PRP.ptr1 p) (PRP.ptr2 p);; run_event;; PRPList.arrive_all 1 mem')
                (PRPList.make (PAGE_SIZE * 4) PAGE_SIZE) = Ok (tt, s) /\
      PRPList.waiting s = [] /\ PRPList.initialized s = 1 /\ PRPList.prpList s = data_pages 4096 (PAGE_SIZE * 4).
Proof. apply driver_lists_understood; (reflexivity || (unfold PAGE_SIZE; lia)). Defined.
