(* ===== verification/CollectProof.v ===== *)
(** * Fetching commands: [checkQueue] and [collectSQueue]

    [fetch1] is what a fetch from one queue does to the state.  A queue that is
    [sq_ok] has its indices in range and its ring in one region of the memory; the
    passes of the round robin are then a sequence of such fetches. *)

From S2P Require Import Prelude Types Dma NvmeQueue Controller RingProof.


(** ** Accessors *)

Lemma sq_slot_eq i o s : vget (ppSQueue s) i = Some o -> sq_slot i s = Ok (o, s).
Proof. intros H. unfold sq_slot. cbv [mbind M_bind get lift]. by rewrite (get_raw_Some _ _ _ H). Qed.

Lemma cq_slot_eq i o s : vget (ppCQueue s) i = Some o -> cq_slot i s = Ok (o, s).
Proof. intros H. unfold cq_slot. cbv [mbind M_bind get lift]. by rewrite (get_raw_Some _ _ _ H). Qed.

Lemma put_sq_eq i o q s : vget (ppSQueue s) i = Some o -> put_sq i q s = Ok (tt, set_ppSQueue (vset (ppSQueue s) i q) s).
Proof.
  intros H. unfold put_sq. cbv [mbind M_bind get lift modify]. apply vget_Some_range in H. by rewrite set_raw_range.
Qed.

Lemma put_cq_eq i o q s : vget (ppCQueue s) i = Some o -> put_cq i q s = Ok (tt, set_ppCQueue (vset (ppCQueue s) i q) s).
Proof.
  intros H. unfold put_cq. cbv [mbind M_bind get lift modify]. apply vget_Some_range in H. by rewrite set_raw_range.
Qed.

(** ** One fetch *)

(** A submission queue whose ring is one region of the memory; in working order its tail is in
    the ring, too. *)
Record sq_weak (q : Queue) : Prop := {
  ok_size : 0 < size q < 2 ^ 16;
  ok_head : 0 <= head q < size q;
  ok_stride : 64 <= stride q;
  ok_base : exists p B, base q = Some p /\ PRPList.prpList p = [PRPList.mkPRP B (size q * stride q)] /\
              0 <= B /\ B + size q * stride q < 2 ^ 64;
}.
Definition sq_ok (q : Queue) : Prop := sq_weak q /\ 0 <= tail q < size q.

(** Where the entries of a queue are. *)
Definition region_base (q : Queue) : Z :=
  match base q with
  | Some p => match PRPList.prpList p with r :: _ => PRPList.addr r | [] => 0 end
  | None => 0
  end.

Lemma items_eq q : sq_ok q -> getItemCount q = (tail q - head q) mod size q.
Proof.
  intros [[] ?]. unfold getItemCount, u16. destruct (Z.leb_spec (head q) (tail q)).
  - rewrite !Z.mod_small by lia. done.
  - rewrite Z.mod_small by lia. apply Z.mod_unique with (-1); lia.
Qed.

Lemma items_range q : sq_ok q -> 0 <= getItemCount q < size q.
Proof. intros H. rewrite items_eq by done. apply Z.mod_pos_bound. apply (ok_size _ (proj1 H)). Qed.

(** The queue when its first [k] entries are fetched. *)
Definition advance_head (k : Z) (q : Queue) : Queue := set_head ((head q + k) mod size q) q.

Lemma advance_weak k q : sq_weak q -> sq_weak (advance_head k q).
Proof.
  intros []. constructor; cbn [advance_head set_head size head tail stride base]; try done.
  apply Z.mod_pos_bound. lia.
Qed.

Lemma advance_ok k q : sq_ok q -> sq_ok (advance_head k q).
Proof. intros [? ?]. split; [by apply advance_weak|done]. Qed.

Lemma advance_items k q : sq_ok q -> 0 <= k <= getItemCount q -> getItemCount (advance_head k q) = getItemCount q - k.
Proof.
  intros H Hk. rewrite items_eq by (by apply advance_ok). rewrite items_eq in * by done.
  cbn [advance_head set_head size head tail]. rewrite Zminus_mod_idemp_r.
  destruct H as [[Hs _ _ _] _]. pose proof (Z.mod_pos_bound (tail q - head q) (size q) ltac:(lia)).
  replace (tail q - (head q + k)) with ((tail q - head q) - k) by lia.
  rewrite <- Zminus_mod_idemp_l. apply Z.mod_small. lia.
Qed.

Lemma advance_advance j k q : sq_ok q -> advance_head j (advance_head k q) = advance_head (k + j) q.
Proof.
  intros [[Hs _ _ _] _]. unfold advance_head, set_head. cbn [id head tail size stride base]. f_equal.
  rewrite Zplus_mod_idemp_l. f_equal. lia.
Qed.

Lemma advance_0 q : sq_ok q -> advance_head 0 q = q.
Proof. intros [[] ?]. unfold advance_head. rewrite Z.add_0_r, Z.mod_small by lia. by destruct q. Qed.

(** The transfer of the first entry of queue [i]. *)
Definition fetch_of (context : nat) (i : Z) (p : Z * SQueue) : Transfer :=
  let q := squeue p.2 in
  mkTransfer [mkDmaOp false (region_base q + head q * stride q) 64 (Some 0)] (mkDMAContext 1 0)
    (doRead p.1 i (head q) context).

Definition advance_slot (p : Z * SQueue) : Z * SQueue := (p.1, with_squeue (advance_head 1 (squeue p.2)) p.2).

Definition bump (c : option Ctx) : option Ctx := (fun x => mkCtx (counter x + 1) (posts x)) <$> c.
Definition bump_context (context : nat) (l : list (option Ctx)) : list (option Ctx) := alter bump context l.

Definition fetch1 (context : nat) (i : Z) (s : t) : t :=
  match vget (ppSQueue s) i with
  | Some (Some p) =>
      let e := env s in
      set_env (set_contexts (bump_context context (contexts e)) (set_inflight (inflight e ++ [fetch_of context i p]) e))
        (set_ppSQueue (vset (ppSQueue s) i (Some (advance_slot p))) s)
  | _ => s
  end.

Lemma getData_eq s : sq_weak (squeue s) -> 0 < getItemCount (squeue s) ->
  SQueue_getData s = Ok (Some ([mkDmaOp false (region_base (squeue s) + head (squeue s) * stride (squeue s)) 64 (Some 0)],
    mkDMAContext 1 0), with_squeue (advance_head 1 (squeue s)) s).
Proof.
  intros H Hi. pose proof H as [Hs Hh Hst (p & B & Hb & Hl & HB & Hfit)]. unfold SQueue_getData.
  destruct (Z.eqb_spec (head (squeue s)) (tail (squeue s))) as [E|E].
  { unfold getItemCount in Hi. rewrite E, Z.leb_refl, Z.sub_diag in Hi. done. }
  cbn [negb]. unfold transfer, region_base. rewrite Hb, Hl. cbn [PRPList.addr].
  rewrite u64_small by nia. rewrite (one_region_request false p B (size (squeue s) * stride (squeue s))) by (done || nia).
  cbn [mbind res_bind]. unfold advance_head. do 3 f_equal. unfold set_head. f_equal. unfold next_index, u16.
  rewrite (Z.mod_small (_ + 1) (2 ^ 16)) by lia.
  destruct (Z.eqb_spec (head (squeue s) + 1) (size (squeue s))) as [->|]; [by rewrite Z.mod_same by lia|].
  rewrite Z.mod_small by lia. done.
Qed.

Lemma bump_insert context l x : l !! context = Some (Some x) ->
  <[context := Some (mkCtx (counter x + 1) (posts x))]> l = bump_context context l.
Proof.
  intros Hx. unfold bump_context. apply list_eq. intros j. destruct (decide (j = context)) as [->|Hne].
  - rewrite list_lookup_insert_eq by (by eapply lookup_lt_Some). by rewrite list_lookup_alter_eq, Hx.
  - by rewrite list_lookup_insert_ne, list_lookup_alter_ne by done.
Qed.

Lemma checkQueue_fetches i p context s x :
  vget (ppSQueue s) i = Some (Some p) -> sq_weak (squeue p.2) -> 0 < getItemCount (squeue p.2) ->
  contexts (env s) !! context = Some (Some x) ->
  checkQueue i p context s = Ok (true, fetch1 context i s).
Proof.
  intros Hi Hok Hc Hx. unfold checkQueue. rewrite (proj2 (Z.ltb_lt _ _)) by done.
  cbv [mbind M_bind lift]. rewrite getData_eq by done. cbn [fst snd returned]. change (0 =? 0) with true. cbv iota.
  unfold start, modify_env, modify. cbv beta.
  rewrite (put_sq_eq i (Some p)) by done.
  unfold count_up, the_context, put_context, envs, gets, modify_env, modify, deref.
  cbv [mbind M_bind]. cbn [env set_env set_ppSQueue contexts set_inflight]. rewrite Hx. cbn [mjoin option_join mret M_ret].
  unfold fetch1. rewrite Hi. rewrite <- (bump_insert _ _ _ Hx). by destruct s as [? ? ? ? ? ? ? ? ? ? ? ? ? ? ? ? ? []].
Qed.

Lemma checkQueue_nothing i p context s : getItemCount (squeue p.2) = 0 ->
  checkQueue i p context s = Ok (false, s).
Proof. intros Hc. unfold checkQueue. by rewrite Hc. Qed.

(** ** Sequences of fetches *)

Definition slot (s : t) (i : Z) : option (Z * SQueue) := mjoin (vget (ppSQueue s) i).
Definition items_at (s : t) (i : Z) : Z := match slot s i with Some p => getItemCount (squeue p.2) | None => 0 end.
Definition fetches (context : nat) (order : list Z) (s : t) : t := foldl (fun s i => fetch1 context i s) s order.

Lemma slot_Some s i p : slot s i = Some p <-> vget (ppSQueue s) i = Some (Some p).
Proof.
  unfold slot. destruct (vget (ppSQueue s) i) as [[q|]|]; cbn; split; intros H; (done || by simplify_eq).
Qed.

(** What the fetches rely on, and keep. *)
Record fetchable (context : nat) (s : t) : Prop := {
  f_ok : forall i p, slot s i = Some p -> sq_ok (squeue p.2);
  f_context : exists x, contexts (env s) !! context = Some (Some x);
}.

Lemma slot_fetch1 context i j s p : slot s i = Some p ->
  slot (fetch1 context i s) j = if decide (i = j) then Some (advance_slot p) else slot s j.
Proof.
  intros Hp. pose proof Hp as Hv%slot_Some. unfold fetch1. rewrite Hv. unfold slot. cbn [ppSQueue set_env set_ppSQueue].
  rewrite vget_vset by (by eapply vget_Some_range). by case_decide.
Qed.

Lemma fetch1_fetchable context i s p : fetchable context s -> slot s i = Some p -> fetchable context (fetch1 context i s).
Proof.
  intros [Hok [x Hx]] Hp. split.
  - intros j q. rewrite (slot_fetch1 _ _ _ _ p) by done. case_decide; [|apply Hok].
    intros [= <-]. cbn. apply advance_ok. by eapply Hok.
  - pose proof Hp as Hv%slot_Some. unfold fetch1. rewrite Hv. cbn [env set_env contexts set_contexts set_inflight].
    eexists. unfold bump_context. rewrite list_lookup_alter_eq, Hx. done.
Qed.

Lemma items_fetch1 context i j s p : fetchable context s -> slot s i = Some p -> 0 < items_at s i ->
  items_at (fetch1 context i s) j = items_at s j - (if decide (i = j) then 1 else 0).
Proof.
  intros [Hok _] Hp Hi. unfold items_at in *. rewrite (slot_fetch1 _ _ _ _ p) by done. rewrite Hp in Hi.
  case_decide; [|lia]. subst j. rewrite Hp. cbn. apply advance_items; [by eapply Hok|lia].
Qed.

Lemma sqsize_fetch1 context i s : sqsize (fetch1 context i s) = sqsize s.
Proof. unfold fetch1, sqsize. destruct (vget (ppSQueue s) i) as [[p|]|]; [|done|done]. cbn. by rewrite vlen_vset. Qed.

(** A selection of queues that looks only at what a fetch leaves alone. *)
Definition stable (sel : SQueue -> bool) : Prop := forall q s, sel (with_squeue q s) = sel s.
Definition chosen (sel : SQueue -> bool) (s : t) (i : Z) : bool := match slot s i with Some p => sel p.2 | None => false end.
(** How many entries of a chosen queue there are to fetch. *)
Definition want (sel : SQueue -> bool) (s : t) (i : Z) : Z := if chosen sel s i then items_at s i else 0.

Lemma chosen_fetch1 sel context i j s p : stable sel -> slot s i = Some p ->
  chosen sel (fetch1 context i s) j = chosen sel s j.
Proof.
  intros Hs Hp. unfold chosen. rewrite (slot_fetch1 _ _ _ _ p) by done. case_decide; [|done]. subst j. rewrite Hp. apply Hs.
Qed.

Lemma want_slot sel s i : 0 < want sel s i -> exists p, slot s i = Some p /\ sel p.2 = true /\ items_at s i = want sel s i.
Proof.
  unfold want, chosen. destruct (slot s i) as [p|]; [|done]. destruct (sel p.2) eqn:E; [|done]. intros _. by exists p.
Qed.

Lemma want_fetch1 sel context i j s p : stable sel -> fetchable context s -> slot s i = Some p -> 0 < want sel s i ->
  want sel (fetch1 context i s) j = want sel s j - (if decide (i = j) then 1 else 0).
Proof.
  intros Hs Hf Hp Hw. destruct (want_slot _ _ _ Hw) as (q & _ & _ & Hi). unfold want.
  rewrite (chosen_fetch1 _ _ _ _ _ p) by done. destruct (chosen sel s j) eqn:Hc.
  - apply items_fetch1 with p; (done || lia).
  - case_decide; [|done]. subst j. unfold want in Hw. rewrite Hc in Hw. lia.
Qed.

Lemma want_nonneg sel context s i : fetchable context s -> 0 <= want sel s i.
Proof.
  intros [Hok _]. unfold want, items_at. destruct (chosen sel s i); [|done].
  destruct (slot s i) as [p|] eqn:Hp; [|done]. pose proof (items_range _ (Hok _ _ Hp)). lia.
Qed.

Lemma visit_eq sel context i s : fetchable context s -> 0 <= i < sqsize s ->
  visit sel context i s = Ok (0 <? want sel s i, if 0 <? want sel s i then fetch1 context i s else s).
Proof.
  intros [Hok [x Hx]] Hi. unfold visit. destruct (vget_in_range (ppSQueue s) i Hi) as [o Ho].
  rewrite (bind_ok _ _ _ _ _ (sq_slot_eq i o s Ho)). unfold want, chosen, items_at, slot. rewrite Ho. cbn [mjoin option_join].
  destruct o as [p|]; [|done]. destruct (sel p.2); [|done].
  assert (slot s i = Some p) as Hp by (by apply slot_Some). pose proof (items_range _ (Hok _ _ Hp)).
  destruct (Z.ltb_spec 0 (getItemCount (squeue p.2))).
  - by apply checkQueue_fetches with x; [|eapply Hok| |].
  - apply checkQueue_nothing. lia.
Qed.

(** ** One pass *)

Definition wanted (sel : SQueue -> bool) (s : t) (l : list Z) : list Z := filter (fun i => 0 < want sel s i) l.

Lemma wanted_fetch1 sel context i s p l : stable sel -> fetchable context s -> slot s i = Some p -> 0 < want sel s i ->
  i ∉ l -> wanted sel (fetch1 context i s) l = wanted sel s l.
Proof.
  intros Hs Hf Hp Hw Hi. unfold wanted. induction l as [|j l IH]; [done|].
  apply not_elem_of_cons in Hi as [Hne Hl]. rewrite !filter_cons.
  assert (want sel (fetch1 context i s) j = want sel s j) as ->.
  { rewrite (want_fetch1 sel context i j s p) by done. rewrite decide_False by done. lia. }
  by rewrite IH.
Qed.

Lemma pass_eq sel context l u s : stable sel -> fetchable context s -> NoDup l -> Forall (fun i => 0 <= i < sqsize s) l ->
  0 <= u -> u + vlen l < 2 ^ 16 ->
  foldM (fun i updated => b ← visit sel context i; mret (if b : bool then u16 (updated + 1) else updated)) l u s
  = Ok (u + vlen (wanted sel s l), fetches context (wanted sel s l) s).
Proof.
  intros Hs Hf Hnd. revert u s Hf. unfold vlen. induction Hnd as [|i l Hi Hnd IH]; intros u s Hf Hl Hu Hsum.
  - cbn. by rewrite Z.add_0_r.
  - apply Forall_cons in Hl as [Hr Hl]. cbn [length] in *.
    pose proof (visit_eq sel context i s Hf Hr) as Hv. unfold wanted. rewrite filter_cons.
    destruct (Z.ltb_spec 0 (want sel s i)) as [Hw|Hw].
    + rewrite decide_True by done. destruct (want_slot _ _ _ Hw) as (p & Hp & _ & _).
      erewrite foldM_ok; [|rewrite (bind_ok _ _ _ _ _ Hv); reflexivity].
      assert (u16 (u + 1) = u + 1) as -> by (unfold u16; apply Z.mod_small; lia). cbn [fetches foldl].
      rewrite (IH (u + 1) (fetch1 context i s)).
      * rewrite (wanted_fetch1 _ _ _ _ p) by done. cbn [length]. unfold wanted, fetches. f_equal. f_equal. lia.
      * by eapply fetch1_fetchable.
      * by rewrite sqsize_fetch1.
      * lia.
      * lia.
    + rewrite decide_False by lia. erewrite foldM_ok; [|rewrite (bind_ok _ _ _ _ _ Hv); reflexivity].
      by rewrite (IH u s) by (done || lia).
Qed.

(** ** Facts of a sequence of fetches *)

(** How often a queue occurs. *)
Definition times (order : list Z) (i : Z) : Z := vlen (filter (fun j => j = i) order).

(** The fetches find an entry each. *)
Fixpoint feasible (context : nat) (order : list Z) (s : t) : Prop :=
  match order with
  | [] => True
  | i :: order => 0 < items_at s i /\ feasible context order (fetch1 context i s)
  end.

Lemma items_slot s i : 0 < items_at s i -> exists p, slot s i = Some p.
Proof. unfold items_at. destruct (slot s i) as [p|]; [by eauto|done]. Qed.

Lemma feasible_app context a b s : feasible context (a ++ b) s <-> feasible context a s /\ feasible context b (fetches context a s).
Proof. revert s. induction a as [|i a IH]; intros s; cbn; [tauto|]. rewrite IH. unfold fetches. tauto. Qed.

Lemma fetches_app context a b s : fetches context (a ++ b) s = fetches context b (fetches context a s).
Proof. unfold fetches. apply foldl_app. Qed.

Section Fetches.
  Context (context : nat).

Lemma fetches_fetchable order s : fetchable context s -> feasible context order s -> fetchable context (fetches context order s).
Proof.
  revert s. induction order as [|i order IH]; intros s Hf; [done|]. intros [Hi Ho]. cbn [fetches foldl].
  destruct (items_slot _ _ Hi) as [p Hp]. apply IH; [by eapply fetch1_fetchable|done].
Qed.

Lemma fetches_items order s j : fetchable context s -> feasible context order s ->
  items_at (fetches context order s) j = items_at s j - times order j.
Proof.
  revert s. unfold times, vlen. induction order as [|i order IH]; intros s Hf Ho; [cbn; lia|]. destruct Ho as [Hi Ho].
  cbn [fetches foldl]. destruct (items_slot _ _ Hi) as [p Hp]. change (foldl _ ?x order) with (fetches context order x).
  rewrite IH by (done || by eapply fetch1_fetchable). rewrite (items_fetch1 _ _ _ _ p) by done.
  rewrite filter_cons. destruct (decide (i = j)); cbn [length]; lia.
Qed.

Lemma fetches_sqsize order s : sqsize (fetches context order s) = sqsize s.
Proof.
  revert s. induction order as [|i order IH]; intros s; [done|]. cbn [fetches foldl].
  change (foldl _ ?x order) with (fetches context order x). by rewrite IH, sqsize_fetch1.
Qed.

Lemma fetches_chosen sel order s j : stable sel -> fetchable context s -> feasible context order s ->
  chosen sel (fetches context order s) j = chosen sel s j.
Proof.
  intros Hs. revert s. induction order as [|i order IH]; intros s Hf; [done|]. intros [Hi Ho]. cbn [fetches foldl].
  destruct (items_slot _ _ Hi) as [p Hp]. change (foldl _ ?x order) with (fetches context order x).
  rewrite IH by (done || by eapply fetch1_fetchable). by rewrite (chosen_fetch1 _ _ _ _ _ p).
Qed.

Lemma fetches_slot order s j : j ∉ order -> fetchable context s -> feasible context order s ->
  slot (fetches context order s) j = slot s j.
Proof.
  revert s. induction order as [|i order IH]; intros s Hj Hf; [done|]. intros [Hi Ho].
  apply not_elem_of_cons in Hj as [Hne Hj]. cbn [fetches foldl].
  destruct (items_slot _ _ Hi) as [p Hp]. change (foldl _ ?x order) with (fetches context order x).
  rewrite IH by (done || by eapply fetch1_fetchable). rewrite (slot_fetch1 _ _ _ _ p) by done. by rewrite decide_False.
Qed.

Lemma fetch1_env i s :
  env (fetch1 context i s) = env s \/
  exists tr, env (fetch1 context i s) = set_contexts (bump_context context (contexts (env s)))
    (set_inflight (inflight (env s) ++ [tr]) (env s)).
Proof.
  unfold fetch1. destruct (vget (ppSQueue s) i) as [[p|]|]; [right|by left|by left]. by eexists.
Qed.

(** The members a fetch does not touch. *)
Lemma fetch1_rest i s : ppCQueue (fetch1 context i s) = ppCQueue s /\ registers (fetch1 context i s) = registers s /\
  lSQFIFO (fetch1 context i s) = lSQFIFO s /\ jobs (env (fetch1 context i s)) = jobs (env s).
Proof. unfold fetch1. by destruct (vget (ppSQueue s) i) as [[p|]|]. Qed.

Lemma fetches_jobs order s : jobs (env (fetches context order s)) = jobs (env s).
Proof.
  revert s. induction order as [|i order IH]; intros s; [done|]. cbn [fetches foldl].
  change (foldl _ ?x order) with (fetches context order x). rewrite IH. apply fetch1_rest.
Qed.

(** The counter of the context. *)
Definition count_of (s : t) : Z := match mjoin (contexts (env s) !! context) with Some x => counter x | None => 0 end.

Lemma count_fetch1 i s : fetchable context s -> 0 < items_at s i -> count_of (fetch1 context i s) = count_of s + 1.
Proof.
  intros [_ [x Hx]] Hi. destruct (items_slot _ _ Hi) as [p Hp%slot_Some]. unfold count_of, fetch1. rewrite Hp.
  cbn [env set_env contexts set_contexts set_inflight]. unfold bump_context. rewrite list_lookup_alter_eq, Hx. done.
Qed.

Lemma count_fetches order s : fetchable context s -> feasible context order s ->
  count_of (fetches context order s) = count_of s + vlen order.
Proof.
  revert s. unfold vlen. induction order as [|i order IH]; intros s Hf Ho; [cbn; lia|]. destruct Ho as [Hi Ho].
  cbn [fetches foldl]. destruct (items_slot _ _ Hi) as [p Hp]. change (foldl _ ?x order) with (fetches context order x).
  rewrite IH by (done || by eapply fetch1_fetchable). rewrite count_fetch1 by done. cbn [length]. lia.
Qed.
End Fetches.

(** The fetches of a pass find their entries. *)
Lemma wanted_feasible sel context l s : stable sel -> fetchable context s -> NoDup l -> feasible context (wanted sel s l) s.
Proof.
  intros Hs Hf Hnd. revert s Hf. induction Hnd as [|i l Hi Hnd IH]; intros s Hf; [done|].
  unfold wanted. rewrite filter_cons. case_decide as Hw; [|by apply IH].
  destruct (want_slot _ _ _ Hw) as (p & Hp & _ & Hit). cbn [feasible]. split; [lia|].
  fold (wanted sel s l). rewrite <- (wanted_fetch1 sel context i s p) by done. apply IH. by eapply fetch1_fetchable.
Qed.

Lemma times_notin order i : i ∉ order -> times order i = 0.
Proof.
  intros Hi. unfold times, vlen. replace (filter (fun j => j = i) order) with (@nil Z); [done|].
  symmetry. induction order as [|j order IH]; [done|]. apply not_elem_of_cons in Hi as [Hne Hi].
  rewrite filter_cons, decide_False by done. by apply IH.
Qed.

Lemma times_once order i : NoDup order -> i ∈ order -> times order i = 1.
Proof.
  intros Hnd. unfold times, vlen. induction Hnd as [|j order Hj Hnd IH]; [by intros ?%elem_of_nil|].
  intros [->|Hi]%elem_of_cons.
  - rewrite filter_cons, decide_True by done. cbn [length]. pose proof (times_notin order j Hj) as H. unfold times, vlen in H. lia.
  - rewrite filter_cons, decide_False by (intros ->; done). by apply IH.
Qed.

Lemma want_after sel context l s j : stable sel -> fetchable context s -> NoDup l -> j ∈ l ->
  want sel (fetches context (wanted sel s l) s) j = Z.max 0 (want sel s j - 1).
Proof.
  intros Hs Hf Hnd Hj. pose proof (wanted_feasible sel context l s Hs Hf Hnd) as Ho.
  unfold want. rewrite fetches_chosen by done. destruct (chosen sel s j) eqn:Hc; [|lia].
  rewrite fetches_items by done. pose proof (want_nonneg sel context s j Hf) as H0. unfold want in H0. rewrite Hc in H0.
  destruct (decide (0 < want sel s j)) as [Hw|Hw].
  - assert (times (wanted sel s l) j = 1) as ->; [|unfold want in Hw; rewrite Hc in Hw; lia].
    apply times_once; [by apply NoDup_filter|]. by apply list_elem_of_filter.
  - rewrite times_notin; [unfold want in Hw; rewrite Hc in Hw; lia|]. intros H%list_elem_of_filter. tauto.
Qed.

(** ** The round robin *)

Lemma filter_iff_in {A} (P Q : A -> Prop) `{!forall x, Decision (P x), !forall x, Decision (Q x)} (l : list A) :
  (forall x, x ∈ l -> P x <-> Q x) -> filter P l = filter Q l.
Proof.
  induction l as [|x l IH]; intros HPQ; [done|]. rewrite !filter_cons.
  rewrite IH by (intros y Hy; apply HPQ; by right). pose proof (HPQ x ltac:(by left)) as Hx.
  destruct (decide (P x)), (decide (Q x)); tauto.
Qed.

Lemma filter_none {A} (P : A -> Prop) `{!forall x, Decision (P x)} (l : list A) :
  (forall x, x ∈ l -> ~ P x) -> filter P l = [].
Proof.
  induction l as [|x l IH]; intros HPQ; [done|]. rewrite filter_cons, decide_False by (apply HPQ; by left).
  apply IH. intros y Hy. apply HPQ. by right.
Qed.

(** In pass [k] every queue with more than [k] entries gives one. *)
Definition rr_order (c : Z -> Z) (l : list Z) (m : nat) : list Z :=
  concat ((fun k => filter (fun i => Z.of_nat k < c i) l) <$> seq 0 m).

Lemma rr_order_S c c' l m : (forall i, i ∈ l -> c' i = Z.max 0 (c i - 1)) ->
  rr_order c l (S m) = filter (fun i => 0 < c i) l ++ rr_order c' l m.
Proof.
  intros Hc. unfold rr_order. cbn [seq fmap list_fmap concat]. f_equal. rewrite <- fmap_S_seq, <- list_fmap_compose.
  f_equal. apply list_fmap_ext. intros j k _. cbn. apply filter_iff_in. intros i Hi. rewrite Hc by done. lia.
Qed.

Lemma rr_order_nil c l m : (forall i, i ∈ l -> c i <= 0) -> rr_order c l m = [].
Proof.
  intros Hc. unfold rr_order. generalize (seq 0 m). intros ks. induction ks as [|k ks IH]; [done|]. cbn [fmap list_fmap concat].
  rewrite IH, app_nil_r. apply filter_none. intros i Hi. specialize (Hc i Hi). lia.
Qed.

Definition index_range (lo : Z) (s : t) : list Z := seqZ lo (sqsize s - lo).

Lemma index_range_ok lo s : 0 <= lo -> NoDup (index_range lo s) /\ Forall (fun i => 0 <= i < sqsize s) (index_range lo s).
Proof.
  intros Hlo. split; [apply NoDup_seqZ|]. apply Forall_forall. intros i Hi%elem_of_seqZ. lia.
Qed.

Lemma for_u16_eq {A} lo n (body : Z -> A -> M t A) a : n < 65536 -> for_u16 lo n body a = foldM body (seqZ lo (n - lo)) a.
Proof. intros H. unfold for_u16. by rewrite (proj2 (Z.ltb_lt _ _)). Qed.

Lemma wanted_nil sel s l : wanted sel s l = [] -> forall i, i ∈ l -> want sel s i <= 0.
Proof.
  intros H i Hi. destruct (decide (0 < want sel s i)) as [Hw|]; [|lia]. exfalso.
  assert (i ∈ wanted sel s l) as Hin by (by apply list_elem_of_filter). rewrite H in Hin. by apply elem_of_nil in Hin.
Qed.

Lemma round_robin_eq fuel lo sel context s m :
  stable sel -> fetchable context s -> 0 <= lo -> sqsize s < 65536 -> (m <= fuel)%nat ->
  (forall i, i ∈ index_range lo s -> want sel s i <= Z.of_nat m) ->
  round_robin fuel lo sel context s = Ok (tt, fetches context (rr_order (want sel s) (index_range lo s) m) s) /\
  feasible context (rr_order (want sel s) (index_range lo s) m) s.
Proof.
  intros Hsel Hf Hlo. revert s m Hf. induction fuel as [|fuel IH]; intros s m Hf Hsize Hm Hmax;
    destruct (index_range_ok lo s Hlo) as [Hnd Hrange];
    assert (vlen (index_range lo s) < 65536) as Hlen by (unfold vlen, index_range; rewrite length_seqZ; lia);
    cbn [round_robin]; rewrite (bind_ok get _ s s s eq_refl); rewrite for_u16_eq by done; fold (index_range lo s);
    rewrite (bind_ok _ _ _ _ _ (pass_eq sel context (index_range lo s) 0 s Hsel Hf Hnd Hrange ltac:(lia) ltac:(lia)));
    rewrite Z.add_0_l; pose proof (vlen_nonneg (wanted sel s (index_range lo s))).
  - assert (m = 0%nat) as -> by lia. replace (wanted sel s (index_range lo s)) with (@nil Z); [done|].
    symmetry. apply filter_none. intros i Hi. specialize (Hmax i Hi). lia.
  - destruct (Z.eqb_spec (vlen (wanted sel s (index_range lo s))) 0) as [E|E].
    + assert (wanted sel s (index_range lo s) = []) as Hnil by (apply nil_length_inv; unfold vlen in E; lia).
      rewrite rr_order_nil by (by apply wanted_nil). rewrite Hnil. done.
    + destruct m as [|m].
      { exfalso. apply E. replace (wanted sel s (index_range lo s)) with (@nil Z); [done|].
        symmetry. apply filter_none. intros i Hi. specialize (Hmax i Hi). lia. }
      set (s1 := fetches context (wanted sel s (index_range lo s)) s).
      pose proof (wanted_feasible sel context (index_range lo s) s Hsel Hf Hnd) as Ho.
      assert (index_range lo s1 = index_range lo s) as Hi1 by (unfold index_range, s1; by rewrite fetches_sqsize).
      assert (forall i, i ∈ index_range lo s -> want sel s1 i = Z.max 0 (want sel s i - 1)) as Hw1
        by (intros i Hi; by apply want_after).
      destruct (IH s1 m) as [Hrun Hfe].
      * by apply fetches_fetchable.
      * unfold s1. by rewrite fetches_sqsize.
      * lia.
      * rewrite Hi1. intros i Hi. rewrite Hw1 by done. specialize (Hmax i Hi). lia.
      * rewrite Hi1 in Hrun, Hfe. rewrite (rr_order_S _ (want sel s1)) by done.
        change (filter (fun i => 0 < want sel s i) (index_range lo s)) with (wanted sel s (index_range lo s)).
        rewrite fetches_app, feasible_app. split; [exact Hrun|]. split; [exact Ho|exact Hfe].
Qed.

(** ** The transfers of a sequence of fetches *)

(** The [k]th entry of queue [i], counted from its head. *)
Definition kth_slot (k : Z) (p : Z * SQueue) : Z * SQueue := (p.1, with_squeue (advance_head k (squeue p.2)) p.2).
Definition kth_fetch (context : nat) (s : t) (x : Z * Z) : option Transfer :=
  (fun p => fetch_of context x.1 (kth_slot x.2 p)) <$> slot s x.1.
(** The queues of an order, each with how often it came before. *)
Fixpoint occurrences (before order : list Z) : list (Z * Z) :=
  match order with
  | [] => []
  | i :: order => (i, times before i) :: occurrences (before ++ [i]) order
  end.

Lemma times_snoc order i j : times (order ++ [i]) j = times order j + (if decide (i = j) then 1 else 0).
Proof.
  unfold times, vlen. rewrite filter_app, length_app, filter_cons, filter_nil. case_decide; cbn [length]; lia.
Qed.

Lemma times_cons order i j : times (i :: order) j = (if decide (i = j) then 1 else 0) + times order j.
Proof. unfold times, vlen. rewrite filter_cons. case_decide; cbn [length]; lia. Qed.

Lemma times_nonneg order i : 0 <= times order i.
Proof. apply vlen_nonneg. Qed.

Lemma kth_slot_0 p : sq_ok (squeue p.2) -> kth_slot 0 p = p.
Proof. intros H. unfold kth_slot. rewrite advance_0 by done. by destruct p as [? []]. Qed.

Lemma kth_slot_S k p : sq_ok (squeue p.2) -> kth_slot k (advance_slot p) = kth_slot (1 + k) p.
Proof. intros H. unfold kth_slot, advance_slot, with_squeue. cbn [fst snd squeue cqID priority]. by rewrite advance_advance. Qed.

Lemma fetches_kth context order s i p : fetchable context s -> feasible context order s -> slot s i = Some p ->
  slot (fetches context order s) i = Some (kth_slot (times order i) p).
Proof.
  revert s p. induction order as [|j order IH]; intros s p Hf Ho Hp.
  - cbn. rewrite Hp. f_equal. symmetry. apply kth_slot_0. by eapply Hf.
  - destruct Ho as [Hj Ho]. destruct (items_slot _ _ Hj) as [q Hq]. cbn [fetches foldl].
    change (foldl _ ?x order) with (fetches context order x). rewrite times_cons.
    assert (fetchable context (fetch1 context j s)) as Hf1 by (by eapply fetch1_fetchable).
    destruct (decide (j = i)) as [->|Hne].
    + rewrite (IH _ (advance_slot p)); [|done|done|rewrite (slot_fetch1 _ _ _ _ p) by done; by rewrite decide_True].
      rewrite kth_slot_S by (by eapply Hf). done.
    + rewrite (IH _ p); [by rewrite Z.add_0_l|done|done|rewrite (slot_fetch1 _ _ _ _ q) by done; by rewrite decide_False].
Qed.

Lemma fetches_inflight context before order s s1 :
  fetchable context s -> feasible context (before ++ order) s -> s1 = fetches context before s ->
  inflight (env (fetches context order s1)) = inflight (env s1) ++ omap (kth_fetch context s) (occurrences before order).
Proof.
  intros Hf. revert before s1. induction order as [|i order IH]; intros before s1 Ho ->; [cbn; by rewrite app_nil_r|].
  pose proof Ho as Ho'. apply feasible_app in Ho as [Hb [Hi _]]. destruct (items_slot _ _ Hi) as [p Hp].
  cbn [fetches foldl occurrences omap list_omap]. change (foldl _ ?x order) with (fetches context order x).
  rewrite (IH (before ++ [i])).
  - assert (exists p0, slot s i = Some p0) as [p0 Hp0].
    { destruct (slot s i) eqn:E; [by eauto|]. exfalso. revert Hp E. clear. revert s.
      induction before as [|j before IHb]; intros s H0 H1; [cbn in H0; congruence|].
      cbn [fetches foldl] in H0. apply (IHb (fetch1 context j s)); [done|]. unfold fetch1, slot in *.
      destruct (vget (ppSQueue s) j) as [[q|]|] eqn:Hj; [|done|done]. cbn [ppSQueue set_env set_ppSQueue].
      destruct (decide (j = i)) as [->|]; [rewrite Hj in H1; done|]. by rewrite vget_vset_ne. }
    pose proof (fetches_kth context before s i p0 Hf Hb Hp0) as Hk. rewrite Hk in Hp. injection Hp as Hp.
    unfold kth_fetch at 2. cbn [fst snd]. rewrite Hp0. cbn [fmap option_fmap option_map].
    pose proof Hk as Hv%slot_Some. unfold fetch1 at 1. rewrite Hv. cbn [env set_env inflight set_contexts set_inflight].
    by rewrite <- app_assoc.
  - by rewrite <- app_assoc.
  - by rewrite fetches_app.
Qed.

Lemma times_app a b i : times (a ++ b) i = times a i + times b i.
Proof. unfold times, vlen. rewrite filter_app, length_app. lia. Qed.

Lemma times_rr c l m i : NoDup l -> i ∈ l -> times (rr_order c l m) i = Z.min (Z.of_nat m) (Z.max 0 (c i)).
Proof.
  intros Hnd Hi. revert c. induction m as [|m IH]; intros c; [cbn; unfold times, vlen; cbn; lia|].
  rewrite (rr_order_S c (fun i => Z.max 0 (c i - 1))) by done. rewrite times_app, IH.
  destruct (decide (0 < c i)) as [Hc|Hc].
  - rewrite times_once; [lia|by apply NoDup_filter|by apply list_elem_of_filter].
  - rewrite times_notin; [lia|]. intros H%list_elem_of_filter. tauto.
Qed.

(** ** The weighted round robin

    Its loops are fetches too; which queues they come from is all that is said of
    their order.  A queue of low priority is in none of them. *)

Lemma drain_admin_eq fuel context s p : fetchable context s -> slot s 0 = Some p -> items_at s 0 <= Z.of_nat fuel ->
  drain_admin fuel context s = Ok (tt, fetches context (replicate (Z.to_nat (items_at s 0)) 0) s) /\
  feasible context (replicate (Z.to_nat (items_at s 0)) 0) s.
Proof.
  revert s p. induction fuel as [|fuel IH]; intros s p Hf Hp Hfuel; pose proof Hp as Hv%slot_Some;
    assert (items_at s 0 = getItemCount (squeue p.2)) as Hit by (unfold items_at; by rewrite Hp);
    pose proof (items_range _ (f_ok _ _ Hf _ _ Hp)); cbn [drain_admin];
    rewrite (bind_ok (sq_slot 0 ≫= deref) _ s p s) by (unfold mbind, M_bind; rewrite (sq_slot_eq _ _ _ Hv); done).
  - rewrite (bind_ok _ _ _ _ _ (checkQueue_nothing 0 p context s ltac:(lia))).
    replace (items_at s 0) with 0 by lia. done.
  - destruct (decide (items_at s 0 = 0)) as [E|E].
    + rewrite (bind_ok _ _ _ _ _ (checkQueue_nothing 0 p context s ltac:(lia))). rewrite E. done.
    + pose proof Hf as [_ [x Hx]].
      rewrite (bind_ok _ _ _ _ _ (checkQueue_fetches 0 p context s x Hv (proj1 (f_ok _ _ Hf _ _ Hp)) ltac:(lia) Hx)).
      assert (items_at (fetch1 context 0 s) 0 = items_at s 0 - 1) as Hi1
        by (rewrite (items_fetch1 _ _ _ _ p) by (done || lia); by rewrite decide_True).
      destruct (IH (fetch1 context 0 s) (advance_slot p)) as [Hrun Hfe].
      * by eapply fetch1_fetchable.
      * rewrite (slot_fetch1 _ _ _ _ p) by done. by rewrite decide_True.
      * lia.
      * rewrite Hi1 in *. replace (Z.to_nat (items_at s 0)) with (S (Z.to_nat (items_at s 0 - 1))) by lia.
        cbn [replicate feasible]. split; [exact Hrun|]. split; [lia|exact Hfe].
Qed.

(** ** One loop of a round *)

Definition of_priority (prio : Z) (q : SQueue) : bool := priority q =? prio.
Lemma of_priority_stable prio : stable (of_priority prio).
Proof. done. Qed.

(** The fetches of a loop: from the queues it looks at, and some if there is one to find. *)
Record loop_order (context : nat) (sel : SQueue -> bool) (idx : list Z) (s : t) (o : list Z) : Prop := {
  lo_feasible : feasible context o s;
  lo_from : forall i, i ∈ o -> i ∈ idx /\ chosen sel s i = true;
  lo_some : o = [] -> forall i, i ∈ idx -> want sel s i <= 0;
}.

Lemma loop_order_cons context sel i idx s o : loop_order context sel idx (fetch1 context i s) o -> stable sel ->
  fetchable context s -> 0 < want sel s i -> loop_order context sel (i :: idx) s (i :: o).
Proof.
  intros [Hfe Hfrom _] Hs Hf Hw. destruct (want_slot _ _ _ Hw) as (p & Hp & Hsel & Hit). constructor; [|intros j|done].
  - cbn. split; [lia|done].
  - intros [->|Hj]%elem_of_cons.
    + split; [by left|]. unfold chosen. by rewrite Hp.
    + destruct (Hfrom j Hj) as [Hin Hc]. split; [by right|]. by rewrite (chosen_fetch1 sel context i j s p) in Hc.
Qed.

Lemma loop_order_skip context sel i idx s o : loop_order context sel idx s o -> want sel s i <= 0 ->
  loop_order context sel (i :: idx) s o.
Proof.
  intros [Hfe Hfrom Hsome] Hw. constructor; [done| |].
  - intros j Hj. destruct (Hfrom j Hj). split; [by right|done].
  - intros Ho j [->|Hj]%elem_of_cons; [done|by apply Hsome].
Qed.

Lemma weighted_eq idx prio weight context u tot s : fetchable context s -> Forall (fun i => 0 <= i < sqsize s) idx ->
  0 <= tot -> tot + vlen idx < 2 ^ 32 ->
  exists o u', weighted idx prio weight context u tot s = Ok ((u', tot + vlen o), fetches context o s) /\
    loop_order context (of_priority prio) idx s o /\ vlen o <= vlen idx.
Proof.
  revert u tot s. induction idx as [|i idx IH]; intros u tot s Hf Hr Ht Hsum.
  - exists [], u. cbn [weighted]. split; [unfold vlen; cbn; by rewrite Z.add_0_r|]. split; [|done].
    constructor; [done| |]; intros; by apply elem_of_nil in H || (intros; exfalso; by eapply elem_of_nil).
  - apply Forall_cons in Hr as [Hi Hr]. cbn [weighted].
    assert (vlen (i :: idx) = 1 + vlen idx) as Hlen by (unfold vlen; cbn [length]; lia).
    pose proof (vlen_nonneg idx).
    pose proof (visit_eq (of_priority prio) context i s Hf Hi) as Hv. unfold of_priority at 1 in Hv.
    rewrite (bind_ok _ _ _ _ _ Hv). destruct (Z.ltb_spec 0 (want (of_priority prio) s i)) as [Hw|Hw].
    + destruct (want_slot _ _ _ Hw) as (p & Hp & Hsel & Hit).
      assert (u32 (tot + 1) = tot + 1) as Ht1 by (apply u32_small; lia).
      assert (loop_order context (of_priority prio) (i :: idx) s [i]) as Hone.
      { constructor; [by split; [lia|]| |done]. intros j ->%list_elem_of_singleton. split; [by left|].
        unfold chosen. by rewrite Hp. }
      assert (tot + vlen [i] = tot + 1) as Hv1 by done.
      destruct weight as [w|]; [destruct (u16 (u + 1) =? w)|].
      * exists [i], 0. rewrite Ht1, Hv1. split; [done|]. split; [done|]. unfold vlen; cbn [length]; lia.
      * destruct (IH (u16 (u + 1)) (tot + 1) (fetch1 context i s)) as (o & u' & Hrun & Hlo & Hle).
        -- by eapply fetch1_fetchable.
        -- by rewrite sqsize_fetch1.
        -- lia.
        -- lia.
        -- exists (i :: o), u'. rewrite Ht1, Hrun.
           assert (vlen (i :: o) = 1 + vlen o) as Hlo' by (unfold vlen; cbn [length]; lia).
           rewrite Hlo'. split; [do 3 f_equal; lia|]. split; [|lia]. by apply loop_order_cons.
      * exists [i], u. rewrite Ht1, Hv1. split; [done|]. split; [done|]. unfold vlen; cbn [length]; lia.
    + destruct (IH u tot s Hf Hr Ht ltac:(lia)) as (o & u' & Hrun & Hlo & Hle). exists o, u'. split; [exact Hrun|].
      split; [by apply loop_order_skip|lia].
Qed.

(** ** The rounds *)

Definition high_or_medium (q : SQueue) : bool := (priority q =? PRIORITY_HIGH) || (priority q =? PRIORITY_MEDIUM).

Fixpoint total (sel : SQueue -> bool) (s : t) (l : list Z) : Z :=
  match l with
  | [] => 0
  | i :: l => want sel s i + total sel s l
  end.

Lemma total_want_nonneg sel context s l : fetchable context s -> 0 <= total sel s l.
Proof. intros Hf. induction l as [|i l IH]; [done|]. cbn. pose proof (want_nonneg sel context s i Hf). lia. Qed.

Lemma total_fetches sel context o s l : stable sel -> fetchable context s -> NoDup l -> feasible context o s ->
  (forall i, i ∈ o -> i ∈ l /\ chosen sel s i = true) -> total sel (fetches context o s) l = total sel s l - vlen o.
Proof.
  intros Hs Hf Hnd Ho Hin.
  assert (forall i, want sel (fetches context o s) i = want sel s i - (if chosen sel s i then times o i else 0)) as Hw.
  { intros i. unfold want. rewrite fetches_chosen by done. destruct (chosen sel s i); [|done]. by apply fetches_items. }
  assert (total sel (fetches context o s) l = total sel s l - foldr (fun i n => times o i + n) 0 l) as ->.
  { clear Hnd. assert (forall i, i ∉ o \/ chosen sel s i = true) as Hall.
    { intros i. destruct (decide (i ∈ o)) as [Hi|Hi]; [right; by apply Hin|by left]. }
    induction l as [|i l IH]; [done|]. cbn [total foldr]. rewrite Hw.
    assert ((if chosen sel s i then times o i else 0) = times o i) as ->
      by (destruct (Hall i) as [Hi| ->]; [rewrite times_notin by done; by destruct (chosen sel s i)|done]).
    assert (total sel (fetches context o s) l = total sel s l - foldr (fun i n => times o i + n) 0 l) as ->; [|lia].
    clear - Hw Hall. induction l as [|j l IH]; [done|]. cbn [total foldr]. rewrite Hw, IH.
    destruct (Hall j) as [Hj| ->]; [rewrite times_notin by done; destruct (chosen sel s j); lia|lia]. }
  f_equal. assert (forall i, i ∈ o -> i ∈ l) as Hsub by (intros i Hi; by apply Hin). clear - Hnd Hsub.
  unfold vlen. induction o as [|i o IH].
  - cbn. clear. induction l as [|j l IH]; [done|]. cbn [foldr]. rewrite IH. done.
  - cbn [length]. assert (forall l, NoDup l -> foldr (fun j n => times (i :: o) j + n) 0 l
      = foldr (fun j n => times o j + n) 0 l + (if decide (i ∈ l) then 1 else 0)) as ->; [| |done].
    + clear. intros l Hnd. induction Hnd as [|j l Hj Hnd IH]; [done|]. cbn [foldr]. rewrite IH, times_cons.
      destruct (decide (i = j)) as [->|Hne].
      * rewrite (decide_False (P := j ∈ l)) by done. rewrite decide_True by (by left). lia.
      * destruct (decide (i ∈ l)); [rewrite decide_True by (by right); lia|].
        rewrite decide_False by (by intros [?|?]%elem_of_cons). lia.
    + rewrite IH by (intros j Hj; apply Hsub; by right). rewrite decide_True by (apply Hsub; by left). lia.
Qed.

Lemma high_or_medium_stable : stable high_or_medium.
Proof. done. Qed.

(** A loop over one of the two priorities is one over both. *)
Lemma chosen_weaken prio s i : prio = PRIORITY_HIGH \/ prio = PRIORITY_MEDIUM ->
  chosen (of_priority prio) s i = true -> chosen high_or_medium s i = true.
Proof.
  intros Hprio. unfold chosen, of_priority, high_or_medium. destruct (slot s i) as [p|]; [|done].
  intros ->%Z.eqb_eq. destruct Hprio as [-> | ->]; [done|]. apply orb_true_r.
Qed.

Lemma want_high_or_medium s i : want (of_priority PRIORITY_HIGH) s i <= 0 -> want (of_priority PRIORITY_MEDIUM) s i <= 0 ->
  want high_or_medium s i <= 0.
Proof.
  unfold want, chosen, high_or_medium, of_priority, items_at. destruct (slot s i) as [p|]; [|done].
  by destruct (priority p.2 =? PRIORITY_HIGH), (priority p.2 =? PRIORITY_MEDIUM).
Qed.

(** The fetches of [o] are feasible and from chosen queues in [idx]. *)
Definition from_queues (context : nat) (sel : SQueue -> bool) (idx : list Z) (s : t) (o : list Z) : Prop :=
  feasible context o s /\ forall i, i ∈ o -> i ∈ idx /\ chosen sel s i = true.

Lemma from_app context sel idx s a b : stable sel -> fetchable context s ->
  from_queues context sel idx s a -> from_queues context sel idx (fetches context a s) b -> from_queues context sel idx s (a ++ b).
Proof.
  intros Hs Hf [Ha Hia] [Hb Hib]. split; [by apply feasible_app|].
  intros i [Hi|Hi]%elem_of_app; [by apply Hia|]. destruct (Hib i Hi) as [Hin Hc]. split; [done|].
  by rewrite fetches_chosen in Hc.
Qed.

Lemma from_loop context prio idx s o : prio = PRIORITY_HIGH \/ prio = PRIORITY_MEDIUM ->
  loop_order context (of_priority prio) idx s o -> from_queues context high_or_medium idx s o.
Proof.
  intros Hp [Hfe Hfrom _]. split; [done|]. intros i Hi. destruct (Hfrom i Hi). split; [done|]. by apply chosen_weaken with prio.
Qed.

(** One round: its fetches, none only if the queues of both priorities are empty. *)
Lemma round_eq c context idx u s : fetchable context s -> Forall (fun i => 0 <= i < sqsize s) idx -> vlen idx < 65536 ->
  exists o u',
    (r ← weighted idx PRIORITY_HIGH (Some (wrrHigh c)) context u 0;
     r ← weighted idx PRIORITY_MEDIUM (Some (wrrMedium c)) context r.1 r.2;
     weighted idx PRIORITY_MEDIUM None context r.1 r.2) s = Ok ((u', vlen o), fetches context o s) /\
    from_queues context high_or_medium idx s o /\
    (o = [] -> forall i, i ∈ idx -> want high_or_medium s i <= 0).
Proof.
  intros Hf Hr Hlen. pose proof (vlen_nonneg idx).
  destruct (weighted_eq idx PRIORITY_HIGH (Some (wrrHigh c)) context u 0 s Hf Hr ltac:(lia) ltac:(lia)) as (o1 & u1 & Hrun1 & Ho1 & Hl1).
  pose proof (fetches_fetchable context o1 s Hf (lo_feasible _ _ _ _ _ Ho1)) as Hf1. pose proof (vlen_nonneg o1).
  assert (forall o s, Forall (fun i => 0 <= i < sqsize s) idx -> Forall (fun i => 0 <= i < sqsize (fetches context o s)) idx) as Hkeep
    by (intros o s'; by rewrite fetches_sqsize).
  destruct (weighted_eq idx PRIORITY_MEDIUM (Some (wrrMedium c)) context u1 (0 + vlen o1) _ Hf1 (Hkeep o1 s Hr) ltac:(lia) ltac:(lia))
    as (o2 & u2 & Hrun2 & Ho2 & Hl2).
  pose proof (fetches_fetchable context o2 _ Hf1 (lo_feasible _ _ _ _ _ Ho2)) as Hf2. pose proof (vlen_nonneg o2).
  destruct (weighted_eq idx PRIORITY_MEDIUM None context u2 (0 + vlen o1 + vlen o2) _ Hf2 (Hkeep o2 _ (Hkeep o1 s Hr)) ltac:(lia) ltac:(lia))
    as (o3 & u3 & Hrun3 & Ho3 & Hl3).
  exists (o1 ++ o2 ++ o3), u3. split; [|split].
  - rewrite (bind_ok _ _ _ _ _ Hrun1), (bind_ok _ _ _ _ _ Hrun2). cbn [fst snd]. rewrite Hrun3, !fetches_app.
    do 3 f_equal. unfold vlen. rewrite !length_app. lia.
  - apply from_app; [done|done|by apply (from_loop _ PRIORITY_HIGH); [left|]|].
    apply from_app; [done|done|by apply (from_loop _ PRIORITY_MEDIUM); [right|]|by apply (from_loop _ PRIORITY_MEDIUM); [right|]].
  - intros [-> [-> _]%app_nil]%app_nil i Hi. apply want_high_or_medium.
    + by apply (lo_some _ _ _ _ _ Ho1).
    + by apply (lo_some _ _ _ _ _ Ho2).
Qed.

Lemma weighted_rounds_unfold c fuel context u s : exists f, weighted_rounds c fuel context u s =
  ((r ← weighted (index_range 1 s) PRIORITY_HIGH (Some (wrrHigh c)) context u 0;
    r ← weighted (index_range 1 s) PRIORITY_MEDIUM (Some (wrrMedium c)) context r.1 r.2;
    weighted (index_range 1 s) PRIORITY_MEDIUM None context r.1 r.2) ≫= f) s /\
  forall r, f r = if r.2 =? 0 then mret tt
                  else match fuel with O => fail NoReturn | S fuel => weighted_rounds c fuel context r.1 end.
Proof.
  exists (fun r => if r.2 =? 0 then mret tt
                   else match fuel with O => fail NoReturn | S fuel => weighted_rounds c fuel context r.1 end).
  split; [|done]. destruct fuel; cbn [weighted_rounds]; rewrite (bind_ok get _ s s s eq_refl);
    unfold mbind, M_bind, index_range; destruct (weighted _ PRIORITY_HIGH _ _ _ _ s) as [[r s1]|]; try done;
    destruct (weighted _ PRIORITY_MEDIUM _ _ _ _ s1) as [[r2 s2]|]; done.
Qed.

Lemma weighted_rounds_eq c fuel context u s : fetchable context s -> 1 <= sqsize s < 65536 ->
  total high_or_medium s (index_range 1 s) <= Z.of_nat fuel ->
  exists o, weighted_rounds c fuel context u s = Ok (tt, fetches context o s) /\
    from_queues context high_or_medium (index_range 1 s) s o /\
    forall i, i ∈ index_range 1 s -> want high_or_medium (fetches context o s) i <= 0.
Proof.
  revert u s. induction fuel as [|fuel IH]; intros u s Hf Hsize Hfuel;
    destruct (index_range_ok 1 s ltac:(lia)) as [Hnd Hrange];
    assert (vlen (index_range 1 s) < 65536) as Hlen by (unfold vlen, index_range; rewrite length_seqZ; lia);
    destruct (round_eq c context (index_range 1 s) u s Hf Hrange Hlen) as (o & u' & Hrun & Hfrom & Hnone);
    match goal with |- exists o, weighted_rounds c ?n _ _ _ = _ /\ _ => 
      destruct (weighted_rounds_unfold c n context u s) as (f & -> & Hcont) end;
    rewrite (bind_ok _ _ _ _ _ Hrun), Hcont; cbn [fst snd];
    pose proof (total_fetches high_or_medium context o s (index_range 1 s) high_or_medium_stable Hf Hnd (proj1 Hfrom) (proj2 Hfrom)) as Htot;
    pose proof (fetches_fetchable context o s Hf (proj1 Hfrom)) as Hf';
    pose proof (total_want_nonneg high_or_medium context _ (index_range 1 s) Hf'); pose proof (vlen_nonneg o);
    (destruct (Z.eqb_spec (vlen o) 0) as [E|E];
      [assert (o = []) as -> by (apply nil_length_inv; unfold vlen in E; lia); exists []; split; [done|]; split; [done|by apply Hnone]|]).
  - lia.
  - assert (index_range 1 (fetches context o s) = index_range 1 s) as Hidx by (unfold index_range; by rewrite fetches_sqsize).
    destruct (IH u' (fetches context o s)) as (o' & Hrun' & Hfrom' & Hdone); [done|by rewrite fetches_sqsize|rewrite Hidx; lia|].
    rewrite Hidx in *. exists (o ++ o'). rewrite fetches_app. split; [done|]. split; [|done]. by apply from_app.
Qed.
