(* ===== verification/CollectTheorems.v ===== *)
(** * Fetching commands: properties of [collectSQueue] *)

From S2P Require Import Prelude Types Dma NvmeQueue RingProof Controller CollectProof.

Definition queues_ok (s : t) : Prop := forall i p, slot s i = Some p -> sq_ok (squeue p.2).
Definition is_ready (s : t) : Prop := Z.land (status (registers s)) 1 <> 0.

(** ** Before the loops and after them *)

(** The state with the new context. *)
Definition begun (s : t) : t := set_env (set_contexts (contexts (env s) ++ [Some (mkCtx 0 None)]) (env s)) s.
Definition the_new (s : t) : nat := length (contexts (env s)).

Lemma begun_fetchable s : queues_ok s -> fetchable (the_new s) (begun s).
Proof.
  intros Hq. split; [exact Hq|]. exists (mkCtx 0 None). unfold begun, the_new. cbn [env set_env contexts set_contexts].
  by rewrite list_lookup_middle.
Qed.

Lemma collect_begins c fuel s (loops : M t unit) : is_ready s ->
  loops = (if arbitration s =? ROUND_ROBIN then round_robin fuel 0 (fun _ => true) (the_new s)
           else if arbitration s =? WEIGHTED_ROUND_ROBIN then
             drain_admin fuel (the_new s);;
             round_robin fuel 1 (fun q => priority q =? PRIORITY_URGENT) (the_new s);;
             weighted_rounds c fuel (the_new s) 0
           else mpanic "nvme_ctrl: Invalid arbitration method") ->
  collectSQueue c fuel s = (loops;; not_empty (the_new s)) (begun s).
Proof.
  intros Hr ->. unfold collectSQueue. rewrite (bind_ok _ _ s (the_new s) (begun s) eq_refl).
  rewrite (bind_ok get _ (begun s) (begun s) (begun s) eq_refl).
  change (registers (begun s)) with (registers s). change (arbitration (begun s)) with (arbitration s).
  by rewrite (proj2 (Z.eqb_neq _ _) Hr).
Qed.

Lemma total_begun sel s l : total sel (begun s) l = total sel s l.
Proof. induction l as [|i l IH]; [done|]. cbn [total]. by rewrite IH. Qed.

(** The end: without a fetch the function is called at once. *)
Definition ended (context : nat) (order : list Z) (s : t) : t :=
  match order with
  | [] => set_env (set_contexts (<[context := None]> (contexts (env s))) (set_jobs (jobs (env s) ++ [queueFunction]) (env s))) s
  | _ => s
  end.

Lemma context_after context order s x : contexts (env s) !! context = Some (Some x) -> fetchable context s ->
  feasible context order s ->
  contexts (env (fetches context order s)) !! context = Some (Some (mkCtx (counter x + vlen order) (posts x))).
Proof.
  revert s x. unfold vlen. induction order as [|i order IH]; intros s x Hx Hf Ho.
  - cbn. rewrite Hx. destruct x. by rewrite Z.add_0_r.
  - destruct Ho as [Hi Ho]. destruct (items_slot _ _ Hi) as [p Hp]. cbn [fetches foldl length].
    change (foldl _ ?x order) with (fetches context order x).
    rewrite (IH _ (mkCtx (counter x + 1) (posts x))).
    + cbn [counter posts]. do 3 f_equal. lia.
    + pose proof Hp as Hv%slot_Some. unfold fetch1. rewrite Hv. cbn [env set_env contexts set_contexts set_inflight].
      unfold bump_context. by rewrite list_lookup_alter_eq, Hx.
    + by eapply fetch1_fetchable.
    + done.
Qed.

Lemma not_empty_eq s order : queues_ok s -> feasible (the_new s) order (begun s) ->
  not_empty (the_new s) (fetches (the_new s) order (begun s))
  = Ok (tt, ended (the_new s) order (fetches (the_new s) order (begun s))).
Proof.
  intros Hq Ho. pose proof (begun_fetchable s Hq) as Hf.
  assert (contexts (env (begun s)) !! the_new s = Some (Some (mkCtx 0 None))) as Hx
    by (unfold begun, the_new; cbn [env set_env contexts set_contexts]; by rewrite list_lookup_middle).
  pose proof (context_after _ _ _ _ Hx Hf Ho) as Hc. cbn [counter posts] in Hc. rewrite Z.add_0_l in Hc.
  set (s' := fetches (the_new s) order (begun s)) in *. unfold not_empty, the_context, envs, gets, deref.
  unfold mbind at 1 2, M_bind at 1 2. rewrite Hc. cbn [mjoin option_join mret M_ret counter].
  destruct order as [|i order]; [done|]. rewrite (proj2 (Z.eqb_neq _ 0)); [done|]. unfold vlen. cbn [length]. lia.
Qed.

Lemma ended_slot context order s i : slot (ended context order s) i = slot s i.
Proof. by destruct order. Qed.

Lemma want_mono sel context o s i : stable sel -> fetchable context s -> feasible context o s ->
  want sel (fetches context o s) i <= want sel s i.
Proof.
  intros Hs Hf Ho. unfold want. rewrite fetches_chosen by done. destruct (chosen sel s i); [|done].
  rewrite fetches_items by done. pose proof (times_nonneg o i). lia.
Qed.

Lemma total_mono sel context o s l : stable sel -> fetchable context s -> feasible context o s ->
  total sel (fetches context o s) l <= total sel s l.
Proof.
  intros Hs Hf Ho. induction l as [|i l IH]; [done|]. cbn [total]. pose proof (want_mono sel context o s i Hs Hf Ho). lia.
Qed.

Lemma rr_order_chosen sel s l m i : i ∈ rr_order (want sel s) l m -> chosen sel s i = true.
Proof.
  unfold rr_order. generalize (seq 0 m). intros ks. induction ks as [|k ks IH]; [by intros ?%elem_of_nil|].
  cbn [fmap list_fmap concat]. intros [Hi|Hi]%elem_of_app; [|by apply IH].
  apply list_elem_of_filter in Hi as [Hw _]. unfold want in Hw. destruct (chosen sel s i); [done|lia].
Qed.

(** The loops of the weighted round robin, after a context is made. *)
Lemma weighted_loops c fuel context s p : fetchable context s -> slot s 0 = Some p -> 1 <= sqsize s < 65536 ->
  (forall i, 0 <= i < sqsize s -> items_at s i <= Z.of_nat fuel) -> total high_or_medium s (index_range 1 s) <= Z.of_nat fuel ->
  exists order,
    (drain_admin fuel context;; round_robin fuel 1 (of_priority PRIORITY_URGENT) context;; weighted_rounds c fuel context 0) s
    = Ok (tt, fetches context order s) /\ feasible context order s /\
    (items_at s 0 <= times order 0) /\
    (forall i, i ∈ index_range 1 s -> chosen (of_priority PRIORITY_URGENT) s i = true -> items_at s i <= times order i) /\
    (forall i, i ∈ index_range 1 s -> want high_or_medium (fetches context order s) i <= 0) /\
    (forall i, i ∈ order -> i = 0 \/ chosen (of_priority PRIORITY_URGENT) s i = true \/ chosen high_or_medium s i = true).
Proof.
  intros Hf Hp Hn Hm Ht.
  destruct (drain_admin_eq fuel context s p Hf Hp ltac:(apply Hm; lia)) as [Hrun1 Hfe1].
  set (o1 := replicate (Z.to_nat (items_at s 0)) 0) in *.
  pose proof (fetches_fetchable context o1 s Hf Hfe1) as Hf1.
  assert (forall o s, index_range 1 (fetches context o s) = index_range 1 s) as Hidx
    by (intros o s'; unfold index_range; by rewrite fetches_sqsize).
  assert (forall i, 0 <= i < sqsize s -> items_at (fetches context o1 s) i <= Z.of_nat fuel) as Hm1.
  { intros i Hi. rewrite fetches_items by done. pose proof (times_nonneg o1 i). specialize (Hm i Hi). lia. }
  destruct (round_robin_eq fuel 1 (of_priority PRIORITY_URGENT) context (fetches context o1 s) fuel) as [Hrun2 Hfe2];
    [done|done|lia|rewrite fetches_sqsize; lia|done| |].
  { intros i Hi. rewrite Hidx in Hi. apply elem_of_seqZ in Hi. unfold want. destruct (chosen _ _ i); [apply Hm1|]; lia. }
  rewrite Hidx in Hrun2, Hfe2. set (o2 := rr_order _ (index_range 1 s) fuel) in *.
  pose proof (fetches_fetchable context o2 _ Hf1 Hfe2) as Hf2.
  destruct (weighted_rounds_eq c fuel context 0 (fetches context o2 (fetches context o1 s))) as (o3 & Hrun3 & [Hfe3 Hfrom] & Hdone);
    [done|by rewrite !fetches_sqsize| |].
  { rewrite !Hidx. pose proof (total_mono high_or_medium context o1 s (index_range 1 s) high_or_medium_stable Hf Hfe1).
    pose proof (total_mono high_or_medium context o2 _ (index_range 1 s) high_or_medium_stable Hf1 Hfe2). lia. }
  rewrite !Hidx in *. exists (o1 ++ o2 ++ o3). rewrite !fetches_app, !feasible_app. split_and!; [| done | done | done | | | done | ].
  - by rewrite (bind_ok _ _ _ _ _ Hrun1), (bind_ok _ _ _ _ _ Hrun2).
  - rewrite !times_app. pose proof (times_nonneg o2 0). pose proof (times_nonneg o3 0).
    assert (times o1 0 = Z.max 0 (items_at s 0)) as ->; [|lia]. unfold o1, times, vlen.
    generalize (items_at s 0). intros n. replace (filter (λ j : Z, j = 0) (replicate (Z.to_nat n) 0)) with (replicate (Z.to_nat n) 0).
    + rewrite length_replicate. lia.
    + induction (Z.to_nat n) as [|k IH]; [done|]. cbn [replicate]. rewrite filter_cons, decide_True by done. by rewrite <- IH.
  - intros i Hi Hc. rewrite !times_app. pose proof (times_nonneg o3 i). unfold o2.
    rewrite times_rr by (apply NoDup_seqZ || done). unfold want. rewrite fetches_chosen, Hc, fetches_items by done.
    apply elem_of_seqZ in Hi. specialize (Hm i ltac:(lia)). pose proof (times_nonneg o1 i). lia.
  - intros i [Hi|[Hi|Hi]%elem_of_app]%elem_of_app.
    + left. unfold o1 in Hi. by apply elem_of_replicate in Hi as [-> _].
    + right. left. apply rr_order_chosen in Hi. by rewrite fetches_chosen in Hi.
    + right. right. destruct (Hfrom i Hi) as [_ Hc]. rewrite !fetches_chosen in Hc; done.
Qed.

(** ** Properties *)

(** C5: With the round robin, collecting the commands of a ready controller ends and empties every submission queue, when
    the rings are contiguous and their head and tail pointers inside them; the doorbell does not check the tail, and
    [bad_tail_hangs] shows that outside it no collection returns.  Pass by pass each queue with entries left gives its
    next one, every entry is read once from its place in the host memory and in the order of its queue; when nothing was
    there the work goes on at once. *)
Theorem round_robin_drains (c : Conf) (fuel m : nat) (s : t)
    (Hq : queues_ok s) (Hr : is_ready s) (Ha : arbitration s = ROUND_ROBIN) (Hn : sqsize s < 65536)
    (Hm : forall i, 0 <= i < sqsize s -> items_at s i <= Z.of_nat m) (Hfuel : (m <= fuel)%nat) :
  let order := rr_order (items_at s) (seqZ 0 (sqsize s)) m in
  exists s', collectSQueue c fuel s = Ok (tt, s') /\
    (forall i, 0 <= i < sqsize s -> items_at s' i = 0) /\
    inflight (env s') = inflight (env s) ++ omap (kth_fetch (the_new s) s) (occurrences [] order) /\
    jobs (env s') = jobs (env s) ++ (if decide (order = []) then [queueFunction] else []).
Proof.
  intros order. pose proof (begun_fetchable s Hq) as Hf.
  assert (forall s i, want (fun _ => true) s i = items_at s i) as Hw
    by (intros s0 i; unfold want, chosen, items_at; by destruct (slot s0 i)).
  assert (index_range 0 (begun s) = seqZ 0 (sqsize s)) as Hidx by (unfold index_range; f_equal; apply Z.sub_0_r).
  destruct (round_robin_eq fuel 0 (fun _ => true) (the_new s) (begun s) m) as [Hrun Hfe]; [done|done|lia|done|done| |].
  { intros i Hi. rewrite Hw. apply Hm. rewrite Hidx in Hi. apply elem_of_seqZ in Hi. lia. }
  assert (rr_order (want (fun _ => true) (begun s)) (index_range 0 (begun s)) m = order) as Ho.
  { rewrite Hidx. unfold order, rr_order. f_equal. apply list_fmap_ext. intros j k _. apply filter_iff_in. intros i _.
    by rewrite Hw. }
  rewrite Ho in *. rewrite (collect_begins c fuel s _ Hr eq_refl). rewrite Ha. change (ROUND_ROBIN =? ROUND_ROBIN) with true. cbv iota.
  rewrite (bind_ok _ _ _ _ _ Hrun), not_empty_eq by done. eexists. split; [reflexivity|]. split; [|split].
  - intros i Hi. unfold items_at. rewrite ended_slot. change (items_at (fetches (the_new s) order (begun s)) i = 0).
    rewrite fetches_items by done. unfold order.
    rewrite times_rr by (apply NoDup_seqZ || (apply elem_of_seqZ; lia)). change (items_at (begun s) i) with (items_at s i).
    specialize (Hm i Hi). pose proof (want_nonneg (fun _ => true) _ _ i Hf) as H0. rewrite Hw in H0.
    change (items_at (begun s) i) with (items_at s i) in H0. lia.
  - pose proof (fetches_inflight (the_new s) [] order (begun s) (begun s) Hf Hfe eq_refl) as Hin. by destruct order.
  - pose proof (fetches_jobs (the_new s) order (begun s)) as Hj. change (jobs (env (begun s))) with (jobs (env s)) in Hj.
    destruct order; [done|]. cbn [ended]. rewrite Hj. by rewrite decide_False, app_nil_r.
Qed.

(** With the weighted round robin, collecting the commands ends too, with the admin queue and the queues of urgent,
    high and medium priority empty; but a queue of low priority is left as it is, however many commands wait in it,
    because the third loop of a round looks at the medium priority once more. *)
Theorem low_priority_starves (c : Conf) (fuel : nat) (s : t)
    (Hq : queues_ok s) (Hr : is_ready s) (Ha : arbitration s = WEIGHTED_ROUND_ROBIN) (Hn : 1 <= sqsize s < 65536)
    (Hadmin : is_Some (slot s 0)) (Hm : forall i, 0 <= i < sqsize s -> items_at s i <= Z.of_nat fuel)
    (Ht : total high_or_medium s (seqZ 1 (sqsize s - 1)) <= Z.of_nat fuel) :
  exists s', collectSQueue c fuel s = Ok (tt, s') /\
    forall i p, 0 <= i < sqsize s -> slot s i = Some p ->
      if decide (i = 0 \/ priority p.2 = PRIORITY_URGENT \/ priority p.2 = PRIORITY_HIGH \/ priority p.2 = PRIORITY_MEDIUM)
      then items_at s' i = 0 else slot s' i = Some p.
Proof.
  pose proof (begun_fetchable s Hq) as Hf. destruct Hadmin as [p0 Hp0].
  destruct (weighted_loops c fuel (the_new s) (begun s) p0 Hf Hp0 Hn Hm ltac:(rewrite total_begun; exact Ht)) as (order & Hrun & Hfe & H0 & Hu & Hhm & Hin).
  rewrite (collect_begins c fuel s _ Hr eq_refl). rewrite Ha. change (WEIGHTED_ROUND_ROBIN =? ROUND_ROBIN) with false.
  change (WEIGHTED_ROUND_ROBIN =? WEIGHTED_ROUND_ROBIN) with true. cbv iota.
  rewrite (bind_ok _ _ _ _ _ Hrun), not_empty_eq by done. eexists. split; [reflexivity|]. intros i p Hi Hp.
  pose proof (want_nonneg (fun _ => true) _ _ i (fetches_fetchable _ _ _ Hf Hfe)) as Hge.
  assert (forall s i, want (fun _ => true) s i = items_at s i) as Hw
    by (intros s0 j; unfold want, chosen, items_at; by destruct (slot s0 j)).
  rewrite Hw, fetches_items in Hge by done.
  assert (items_at (ended (the_new s) order (fetches (the_new s) order (begun s))) i = items_at (begun s) i - times order i) as Hit
    by (rewrite <- (fetches_items (the_new s) order (begun s)) by done; by destruct order).
  assert (forall sel, chosen sel (begun s) i = sel p.2) as Hch by (intros sel; unfold chosen; change (slot (begun s) i) with (slot s i); by rewrite Hp).
  case_decide as Hd.
  - rewrite Hit. destruct (decide (i = 0)) as [->|Hne]; [lia|].
    assert (i ∈ index_range 1 (begun s)) as Hidx by (apply elem_of_seqZ; change (sqsize (begun s)) with (sqsize s); lia).
    destruct Hd as [?|[Hpr|Hpr]]; [done| |].
    + specialize (Hu i Hidx). rewrite Hch in Hu. unfold of_priority in Hu. specialize (Hu ltac:(by apply Z.eqb_eq)). lia.
    + specialize (Hhm i Hidx). unfold want in Hhm. rewrite fetches_chosen, Hch in Hhm by done.
      replace (high_or_medium p.2) with true in Hhm; [rewrite fetches_items in Hhm by done; lia|].
      symmetry. unfold high_or_medium. apply orb_true_iff. destruct Hpr; [left|right]; by apply Z.eqb_eq.
  - rewrite ended_slot, fetches_slot by (done || (intros Hio; specialize (Hin i Hio); rewrite !Hch in Hin; unfold of_priority, high_or_medium in Hin;
      rewrite orb_true_iff, !Z.eqb_eq in Hin; tauto)). exact Hp.
Qed.

(** ** A tail outside the ring *)

(** Queues whose heads move on, and queue [j] whose tail is not in its ring. *)
Record stuck (context : nat) (j : Z) (s : t) : Prop := {
  st_weak : forall i p, slot s i = Some p -> sq_weak (squeue p.2) /\ 0 <= tail (squeue p.2) < 2 ^ 16;
  st_context : exists x, contexts (env s) !! context = Some (Some x);
  st_queue : exists p, slot s j = Some p /\ size (squeue p.2) <= tail (squeue p.2);
}.

Lemma stuck_fetch1 context j i s p : stuck context j s -> slot s i = Some p -> stuck context j (fetch1 context i s).
Proof.
  intros [Hw [x Hx] (pj & Hj & Ht)] Hp. split.
  - intros k q. rewrite (slot_fetch1 _ _ _ _ p) by done. case_decide; [|apply Hw]. intros [= <-].
    destruct (Hw _ _ Hp). split; [by apply advance_weak|done].
  - pose proof Hp as Hv%slot_Some. unfold fetch1. rewrite Hv. cbn [env set_env contexts set_contexts set_inflight].
    eexists. unfold bump_context. by rewrite list_lookup_alter_eq, Hx.
  - rewrite (slot_fetch1 _ _ _ _ p) by done. case_decide; [|by eauto]. subst i. rewrite Hp in Hj. injection Hj as ->.
    by eexists.
Qed.

Lemma stuck_visit context j i s : stuck context j s -> 0 <= i < sqsize s ->
  exists b s', visit (fun _ => true) context i s = Ok (b, s') /\ stuck context j s' /\ sqsize s' = sqsize s /\ (i = j -> b = true).
Proof.
  intros Hs Hi. pose proof Hs as [Hw [x Hx] (pj & Hj & Ht)]. destruct (vget_in_range (ppSQueue s) i Hi) as [o Ho].
  unfold visit. rewrite (bind_ok _ _ _ _ _ (sq_slot_eq i o s Ho)). destruct o as [p|].
  - assert (slot s i = Some p) as Hp by (by apply slot_Some). destruct (Hw _ _ Hp) as [Hwk Htl].
    destruct (Z.ltb_spec 0 (getItemCount (squeue p.2))) as [Hc|Hc].
    + exists true, (fetch1 context i s). split; [by apply checkQueue_fetches with x|].
      split; [by eapply stuck_fetch1|]. split; [apply sqsize_fetch1|done].
    + exists false, s. assert (getItemCount (squeue p.2) = 0) as Hc0.
      { assert (0 <= getItemCount (squeue p.2)) by (apply Z.mod_pos_bound; lia). lia. }
      split; [by apply checkQueue_nothing|]. split; [done|]. split; [done|]. intros ->. rewrite Hj in Hp. injection Hp as ->.
      destruct Hwk as [Hsz Hh _ _]. unfold getItemCount, u16 in Hc0. rewrite (proj2 (Z.leb_le _ _)) in Hc0 by lia.
      rewrite Z.mod_small in Hc0 by lia. lia.
  - exists false, s. split; [done|]. split; [done|]. split; [done|]. intros ->. apply slot_Some in Hj. congruence.
Qed.

Lemma stuck_pass context j l u s : stuck context j s -> Forall (fun i => 0 <= i < sqsize s) l -> 0 <= u -> u + vlen l < 2 ^ 16 ->
  exists u' s', foldM (fun i updated => b ← visit (fun _ => true) context i; mret (if b : bool then u16 (updated + 1) else updated)) l u s
    = Ok (u', s') /\ stuck context j s' /\ sqsize s' = sqsize s /\ u <= u' /\ (j ∈ l -> u < u').
Proof.
  revert u s. unfold vlen. induction l as [|i l IH]; intros u s Hs Hr Hu Hsum.
  - exists u, s. split; [done|]. split_and!; [done|done|lia|]. by intros ?%elem_of_nil.
  - apply Forall_cons in Hr as [Hi Hr]. cbn [length] in Hsum.
    destruct (stuck_visit context j i s Hs Hi) as (b & s1 & Hv & Hs1 & Hsz1 & Hb).
    assert (u16 (u + 1) = u + 1) as Hu1 by (unfold u16; apply Z.mod_small; lia).
    erewrite foldM_ok; [|rewrite (bind_ok _ _ _ _ _ Hv); reflexivity]. rewrite Hu1.
    destruct (IH (if b then u + 1 else u) s1) as (u' & s' & Hrun & Hs' & Hsz & Hle & Hlt); [done|by rewrite Hsz1|destruct b; lia|destruct b; lia|].
    exists u', s'. split; [done|]. split; [done|]. split; [congruence|]. split; [destruct b; lia|].
    intros [<-|Hin]%elem_of_cons; [rewrite (Hb eq_refl) in Hle; lia|]. specialize (Hlt Hin). destruct b; lia.
Qed.

Lemma stuck_forever context j fuel s : stuck context j s -> sqsize s < 65536 ->
  round_robin fuel 0 (fun _ => true) context s = Err NoReturn.
Proof.
  intros Hs Hn. revert s Hs Hn. induction fuel as [|fuel IH]; intros s Hs Hn;
    destruct (index_range_ok 0 s ltac:(lia)) as [_ Hr];
    (assert (vlen (index_range 0 s) < 65536) as Hlen by (unfold vlen, index_range; rewrite length_seqZ; lia));
    destruct (stuck_pass context j (index_range 0 s) 0 s Hs Hr ltac:(lia) ltac:(lia)) as (u & s' & Hrun & Hs' & Hsz & _ & Hlt);
    cbn [round_robin]; rewrite (bind_ok get _ s s s eq_refl); rewrite for_u16_eq by done; fold (index_range 0 s);
    rewrite (bind_ok _ _ _ _ _ Hrun);
    (assert (j ∈ index_range 0 s) as Hj by (apply elem_of_seqZ; destruct (st_queue _ _ _ Hs) as (p & Hp%slot_Some & _);
       apply vget_Some_range in Hp; unfold sqsize; lia));
    specialize (Hlt Hj); rewrite (proj2 (Z.eqb_neq u 0)) by lia.
  - done.
  - apply IH; [done|lia].
Qed.

(** A doorbell that names a place outside the ring hangs the simulator: [ringSQTailDoorbell] takes any tail, and with
    one that is not below the size of the queue the next collection of the commands never ends, as the head goes round
    the ring without meeting it. *)
Theorem bad_tail_hangs (c : Conf) (fuel : nat) (s : t) (j newTail : Z) (p : Z * SQueue)
    (Hq : queues_ok s) (Hr : is_ready s) (Ha : arbitration s = ROUND_ROBIN) (Hn : sqsize s < 65536)
    (Hj : slot s j = Some p) (Ht : size (squeue p.2) <= newTail < 2 ^ 16) :
  (ringSQTailDoorbell j newTail;; collectSQueue c fuel) s = Err NoReturn.
Proof.
  pose proof Hj as Hv%slot_Some. pose proof (vget_Some_range _ _ _ Hv) as Hrange.
  set (q' := (p.1, SQueue_setTail newTail p.2)). set (s1 := set_ppSQueue (vset (ppSQueue s) j (Some q')) s).
  assert (ringSQTailDoorbell j newTail s = Ok (tt, s1)) as Hring.
  { unfold ringSQTailDoorbell. rewrite (bind_ok _ _ _ _ _ (sq_slot_eq j _ s Hv)). destruct p as [n q].
    by rewrite (put_sq_eq _ _ _ _ Hv). }
  rewrite (bind_ok _ _ _ _ _ Hring).
  assert (forall i, slot s1 i = if decide (j = i) then Some q' else slot s i) as Hslot.
  { intros i. unfold slot, s1. cbn [ppSQueue set_ppSQueue]. rewrite vget_vset by done. by case_decide. }
  rewrite (collect_begins c fuel s1 _ Hr eq_refl). change (arbitration s1) with (arbitration s). rewrite Ha.
  change (ROUND_ROBIN =? ROUND_ROBIN) with true. cbv iota. unfold mbind, M_bind. rewrite (stuck_forever _ j); [done| |].
  - split.
    + intros i x. change (slot (begun s1) i) with (slot s1 i). rewrite Hslot. case_decide.
      * intros [= <-]. destruct (Hq _ _ Hj) as [[Hsz Hh Hst Hb] _]. split; [by constructor|].
        change (0 <= newTail < 2 ^ 16). lia.
      * intros Hx. destruct (Hq _ _ Hx) as [Hw Htl]. split; [done|]. destruct Hw as [Hsz _ _ _]. lia.
    + exists (mkCtx 0 None). unfold begun, the_new. cbn [env set_env contexts set_contexts]. by rewrite list_lookup_middle.
    + exists q'. change (slot (begun s1) j) with (slot s1 j). rewrite Hslot, decide_True by done. split; [done|].
      change (size (squeue p.2) <= newTail). lia.
  - change (sqsize (begun s1)) with (vlen (vset (ppSQueue s) j (Some q'))). by rewrite vlen_vset.
Qed.
