(* ===== verification/CompletionTheorems.v ===== *)
(** * Posting completions: properties *)

From stdpp Require Import sorting.
From S2P Require Import Prelude Types Fifo Dma NvmeQueue Controller RingProof CollectProof.

(** ** Posting completions: [submit], [reserveCompletion] and [completion] *)

(** ** Completion queues *)

Record cq_ok (q : Queue) : Prop := {
  cq_size : 0 < size q < 2 ^ 16;
  cq_tail : 0 <= tail q < size q;
  cq_stride : 16 <= stride q;
  cq_base : exists p B, base q = Some p /\ PRPList.prpList p = [PRPList.mkPRP B (size q * stride q)] /\
              0 <= B /\ B + size q * stride q < 2 ^ 64;
}.

Definition cslot (s : t) (i : Z) : option CQueue := mjoin (vget (ppCQueue s) i).

Lemma cslot_Some s i q : cslot s i = Some q <-> vget (ppCQueue s) i = Some (Some q).
Proof.
  unfold cslot. destruct (vget (ppCQueue s) i) as [[q'|]|]; cbn; split; intros H; (done || by simplify_eq).
Qed.

Definition overflow : err -> Prop := fun e => e = Panic "Completion queue overflow".

(** An entry goes to one place, or the queue overflows. *)
Lemma setData_eq e q : cq_ok (cqueue q) ->
  wpr overflow (CQueue_setData e q) (fun r =>
    r.1.1 = tag (phase q) e /\ returned r.1.2.2 = 0 /\ ctx_counter r.1.2.2 = 1 /\
    cq_ok (cqueue r.2) /\ ien r.2 = ien q /\ interruptVector r.2 = interruptVector q).
Proof.
  intros [Hs Ht Hst (p & B & Hb & Hl & HB & Hfit)]. unfold CQueue_setData, transfer. rewrite Hb.
  rewrite u64_small by nia. rewrite (one_region_request true p B (size (cqueue q) * stride (cqueue q))) by (done || nia).
  cbn [mbind res_bind].
  assert (u16 (tail (cqueue q) + 1) = tail (cqueue q) + 1) as -> by (unfold u16; apply Z.mod_small; lia).
  destruct (tail (cqueue q) + 1 =? size (cqueue q)) eqn:E1; destruct (head (set_tail _ _) =? _) eqn:E2; try done;
    cbn [wpr fst snd returned ctx_counter]; (split_and!; [done|done|done| |done|done]).
  - constructor; cbn [cqueue size head tail stride base set_tail]; try done; [lia|]. by exists p, B.
  - apply Z.eqb_neq in E1. constructor; cbn [cqueue size head tail stride base set_tail]; try done; [lia|]. by exists p, B.
Qed.

(** ** Posting the entries that are due *)

(** A transfer that carries an entry. *)
Definition carries (context : nat) (e : CQEntryWrapper) (x : Transfer) : Prop :=
  exists ph, tr_func x = doSubmit (CQEntry_data (tag ph (cqew_entry e))) context /\ ctx_counter (tr_context x) = 1 /\
    returned (tr_context x) = 0.

(** What the loop over the entries keeps. *)
Record posting (context : nat) (s0 s : t) (posted : list CQEntryWrapper) : Prop := {
  po_ok : forall i q, cslot s i = Some q -> cq_ok (cqueue q);
  po_queues : forall i, is_Some (cslot s i) <-> is_Some (cslot s0 i);
  po_inflight : exists l, inflight (env s) = inflight (env s0) ++ l /\ Forall2 (carries context) posted l;
  po_context : contexts (env s) !! context = Some (Some (mkCtx (vlen posted) (Some [])));
  po_fifo : lCQFIFO s = lCQFIFO s0;
  po_rest : now (env s) = now (env s0) /\ jobs (env s) = jobs (env s0) /\ interrupts (env s) = interrupts (env s0) /\
    completionEvent (env s) = completionEvent (env s0) /\ ppSQueue s = ppSQueue s0 /\ lSQFIFO s = lSQFIFO s0;
}.

Lemma wpe_cq_slot (E : err -> Prop) i (Q : CQueue -> t -> Prop) s q : cslot s i = Some q -> Q q s ->
  wpe E (cq_slot i ≫= deref) Q s.
Proof.
  intros Hv%cslot_Some HQ. unfold wpe, mbind, M_bind. rewrite (cq_slot_eq _ _ _ Hv). exact HQ.
Qed.

Lemma coalesce_posting (E : err -> Prop) tick e iv context s0 s l : posting context s0 s l ->
  wpe E (coalesce tick e iv) (fun _ s' => posting context s0 s' l) s.
Proof.
  intros [H1 H2 H3 H4 H5 H6]. unfold coalesce, put_info. apply wpe_bind, wpe_get.
  destruct (aggregationMap s !! iv) as [i|]; [|by apply wpe_ret].
  destruct (_ && _); [|by apply wpe_ret]. destruct (_ && _); apply wpe_bind, wpe_modify, wpe_ret; by constructor.
Qed.

Lemma post_entry_posting tick context e posts s0 s l : posting context s0 s l -> is_Some (cslot s0 (cqew_cqID e)) ->
  wpe overflow (post_entry tick context e posts) (fun _ s' => posting context s0 s' (l ++ [e])) s.
Proof.
  intros Hp Hsome. pose proof Hp as [Hok Hq (li & Hin & Hc) Hx Hfifo Hrest].
  apply Hq in Hsome as [q Hcq]. unfold post_entry. apply wpe_bind, (wpe_cq_slot _ _ _ _ q); [done|].
  apply wpe_bind. unfold count_up, the_context, put_context, envs, modify_env.
  apply wpe_bind, wpe_bind, wpe_gets. rewrite Hx. apply wpe_ret, wpe_modify. apply wpe_bind, wpe_lift.
  eapply wpr_mono; [apply setData_eq; by eapply Hok|]. intros [[e' op] q'] (He & Hret & Hcnt & Hok' & Hien & Hiv).
  cbn [fst snd] in *. apply wpe_bind. unfold put_cq. apply wpe_bind, wpe_get, wpe_bind, wpe_lift.
  pose proof Hcq as Hv%cslot_Some. pose proof (vget_Some_range _ _ _ Hv) as Hr. cbn [ppCQueue set_env].
  rewrite set_raw_range by done. cbn [wpr]. apply wpe_modify. rewrite Hret. change (0 =? 0) with true. cbv iota.
  unfold start, modify_env. apply wpe_bind, wpe_modify.
  match goal with |- wpe _ _ _ ?st => assert (posting context s0 st (l ++ [e])) as Hnew end.
  { destruct Hrest as (? & ? & ? & ? & ? & ?). constructor; cbn; try done.
    - intros i x. unfold cslot. cbn. rewrite vget_vset by done. case_decide; [intros [= <-]; done|]. apply Hok.
    - intros i. unfold cslot at 1. cbn. rewrite vget_vset by done. case_decide; [|apply Hq]. subst i. rewrite <- Hq, Hcq.
      split; intros; by eexists.
    - exists (li ++ [mkTransfer op.1 op.2 (doSubmit (CQEntry_data e') context)]). rewrite Hin, app_assoc. split; [done|].
      apply Forall2_app; [done|]. constructor; [|constructor]. exists (phase q). cbn. by rewrite He.
    - rewrite list_lookup_insert_eq by (by eapply lookup_lt_Some). cbn. do 3 f_equal. unfold vlen. rewrite length_app. cbn. lia. }
  destruct (ien q); [|by apply wpe_ret]. apply wpe_bind. eapply wpe_mono; [by apply coalesce_posting|].
  intros post s'' Hs''. by apply wpe_ret.
Qed.

Lemma post_entries tick context es posts s0 s l : posting context s0 s l -> Forall (fun e => is_Some (cslot s0 (cqew_cqID e))) es ->
  wpe overflow (foldM (post_entry tick context) es posts) (fun _ s' => posting context s0 s' (l ++ es)) s.
Proof.
  intros Hp Hes. revert posts s l Hp. induction Hes as [|e es He Hes IH]; intros posts s l Hp.
  - rewrite app_nil_r. by apply wpe_ret.
  - cbn [foldM]. apply wpe_bind. eapply wpe_mono; [by apply post_entry_posting|]. intros posts' s' Hs'.
    replace (l ++ e :: es) with ((l ++ [e]) ++ es) by (by rewrite <- app_assoc). by apply IH.
Qed.

(** ** The list of completions *)

(** The entries that can be posted now, and what is scheduled for them. *)
Record cq_inv (s : t) : Prop := {
  ci_due : Forall (fun e => submitAt e <= now (env s)) (lCQFIFO s);
  ci_event : lCQFIFO s <> [] -> completionEvent (env s) = Some (now (env s));
}.

Lemma enqueue_last e l : Forall (fun x => submitAt x <= submitAt e) l -> enqueue e l = l ++ [e].
Proof. induction 1 as [|x l Hx Hl IH]; [done|]. cbn. by rewrite (proj2 (Z.ltb_ge _ _)), IH by lia. Qed.

Lemma foldl_min l m : foldl Z.min m l <= m.
Proof. revert m. induction l as [|x l IH]; intros m; [done|]. cbn. specialize (IH (Z.min m x)). lia. Qed.

(** With an entry in the list, the event is scheduled for now. *)
Lemma reserve_now s : Forall (fun e => submitAt e <= now (env s)) (lCQFIFO s) -> lCQFIFO s <> [] ->
  reserveCompletion s = Ok (tt, set_env (set_completionEvent (Some (now (env s))) (env s)) s).
Proof.
  intros Hd Hne. unfold reserveCompletion. cbv [mbind M_bind get]. destruct (lCQFIFO s) as [|e l] eqn:El; [done|].
  cbn [app]. unfold schedule, modify_env, modify. do 4 f_equal. unfold Fifo.at_tick. f_equal.
  apply Forall_cons in Hd as [Hd _].
  match goal with |- context [foldl Z.min ?m ?l] => pose proof (foldl_min l m) as H; destruct (Z.ltb_spec (foldl Z.min m l) (now (env s))) end; lia.
Qed.

(** A submitted entry goes to the end of the list, and will be posted now. *)
Lemma submit_spec e s : cq_inv s -> is_Some (cslot s (cqew_cqID e)) ->
  submit e s = Ok (tt, set_env (set_completionEvent (Some (now (env s))) (env s))
                        (set_lCQFIFO (lCQFIFO s ++ [set_submitAt (now (env s)) e]) s)).
Proof.
  intros [Hd He] [q Hq]. unfold submit. pose proof Hq as Hv%cslot_Some. rewrite (bind_ok _ _ _ _ _ (cq_slot_eq _ _ _ Hv)).
  unfold envs, gets. cbv [mbind M_bind modify]. rewrite enqueue_last by exact Hd. rewrite reserve_now; [done| |].
  - cbn [lCQFIFO set_lCQFIFO env]. apply Forall_app_2; [done|]. apply Forall_singleton. cbn. lia.
  - cbn. by destruct (lCQFIFO s).
Qed.

Lemma submit_no_queue e s : cslot s (cqew_cqID e) = None -> 0 <= cqew_cqID e < cqsize s ->
  submit e s = Err (Panic "nvme_ctrl: Completion Queue not created!").
Proof.
  intros Hn Hr. unfold submit. destruct (vget_in_range (ppCQueue s) _ Hr) as [o Ho].
  rewrite (bind_ok _ _ _ _ _ (cq_slot_eq _ _ _ Ho)). unfold cslot in Hn. rewrite Ho in Hn. cbn in Hn. by subst o.
Qed.

Lemma filter_all_due s : Forall (fun e => submitAt e <= now (env s)) (lCQFIFO s) ->
  filter (fun e => (submitAt e <=? now (env s)) = true) (lCQFIFO s) = lCQFIFO s /\
  filter (fun e => (submitAt e <=? now (env s)) = false) (lCQFIFO s) = [].
Proof.
  induction 1 as [|e l He Hl [IH1 IH2]]; [done|]. rewrite !filter_cons.
  rewrite (proj2 (Z.leb_le _ _) He). rewrite decide_True, decide_False by done. by rewrite IH1, IH2.
Qed.

(** The event posts the whole list, in order, or a queue overflows. *)
Lemma completion_spec s : cq_inv s -> (forall i q, cslot s i = Some q -> cq_ok (cqueue q)) ->
  Forall (fun e => is_Some (cslot s (cqew_cqID e))) (lCQFIFO s) ->
  wpe overflow completion (fun _ s' =>
    (forall i q, cslot s' i = Some q -> cq_ok (cqueue q)) /\ (forall i, is_Some (cslot s' i) <-> is_Some (cslot s i)) /\
    lCQFIFO s' = [] /\
    (exists l, inflight (env s') = inflight (env s) ++ l /\ Forall2 (carries (length (contexts (env s)))) (lCQFIFO s) l) /\
    now (env s') = now (env s) /\ jobs (env s') = jobs (env s) /\ interrupts (env s') = interrupts (env s)) s.
Proof.
  intros [Hd He] Hok Hq. unfold completion, envs, modify_env. apply wpe_bind, wpe_gets. apply wpe_bind, wpe_modify.
  apply wpe_bind. unfold new_context, envs, modify_env. apply wpe_bind, wpe_gets, wpe_bind, wpe_modify, wpe_ret.
  apply wpe_bind, wpe_get. cbn [lCQFIFO set_env env now]. destruct (filter_all_due s Hd) as [-> ->].
  apply wpe_bind, wpe_modify. set (context := length (contexts (env s))).
  match goal with |- wpe _ _ _ ?st => set (s0 := st) end.
  assert (posting context s0 s0 []) as Hp0.
  { constructor; try done.
    - exists []. by rewrite app_nil_r.
    - unfold s0, context. cbn. by rewrite list_lookup_middle. }
  apply wpe_bind. eapply wpe_mono; [apply (post_entries _ _ _ _ s0 s0 []); [done|exact Hq]|].
  intros posts s1 [Hok1 Hq1 (l & Hin & Hl) Hx Hf (Hn & Hj & Hi & Hev & _)]. rewrite app_nil_l in *.
  apply wpe_bind. unfold flush_due. apply wpe_bind, wpe_get, wpe_bind, wpe_modify, wpe_ret.
  apply wpe_bind. unfold the_context, put_context, envs, modify_env. apply wpe_bind, wpe_gets.
  cbn [env set_aggregationMap]. rewrite Hx. apply wpe_ret, wpe_modify. cbn.
  split; [exact Hok1|]. split; [exact Hq1|]. split; [exact Hf|]. split; [by exists l|]. done.
Qed.

(** The number of queues stays. *)
Lemma post_entry_size tick context e posts s n : cqsize s = n ->
  wpe anyerr (post_entry tick context e posts) (fun _ s' => cqsize s' = n) s.
Proof.
  intros Hn. unfold post_entry, cq_slot, deref. apply wpe_bind, wpe_bind, wpe_bind, wpe_get, wpe_lift.
  destruct (get_raw _ _) as [[q|]|]; cbn [wpr]; [|done|done]. apply wpe_ret.
  unfold count_up, the_context, put_context, envs, modify_env, deref. apply wpe_bind, wpe_bind, wpe_bind, wpe_gets.
  destruct (mjoin _); [|done]. apply wpe_ret, wpe_modify, wpe_bind, wpe_lift.
  destruct (CQueue_setData _ _) as [[[e' op] q']|]; [cbn [wpr]|done].
  unfold put_cq. apply wpe_bind, wpe_bind, wpe_get, wpe_bind, wpe_lift. cbn [ppCQueue set_env].
  unfold set_raw. destruct (vget _ _); [cbn [wpr]|done]. apply wpe_modify, wpe_bind.
  destruct (returned op.2 =? 0); [|done]. unfold start, modify_env. apply wpe_modify.
  assert (cqsize (set_ppCQueue (vset (ppCQueue s) (cqew_cqID e) (Some q')) s) = n) as H
    by (unfold cqsize in *; cbn; by rewrite vlen_vset).
  destruct (ien q); [|by apply wpe_ret]. apply wpe_bind. unfold coalesce, put_info. apply wpe_bind, wpe_get.
  destruct (aggregationMap _ !! _) as [i|]; [|by apply wpe_ret, wpe_ret].
  destruct (_ && _); [|by apply wpe_ret, wpe_ret]. by destruct (_ && _); apply wpe_bind, wpe_modify, wpe_ret, wpe_ret.
Qed.

Lemma completion_size_any s : wpe anyerr completion (fun _ s' => cqsize s' = cqsize s) s.
Proof.
  unfold completion, envs, modify_env. apply wpe_bind, wpe_gets. apply wpe_bind, wpe_modify.
  apply wpe_bind. unfold new_context, envs, modify_env. apply wpe_bind, wpe_gets, wpe_bind, wpe_modify, wpe_ret.
  apply wpe_bind, wpe_get, wpe_bind, wpe_modify, wpe_bind.
  apply (wpe_foldM _ (fun _ _ s' => cqsize s' = cqsize s)); [done|intros; by apply post_entry_size|].
  intros posts s1 Hs1. unfold flush_due. apply wpe_bind, wpe_bind, wpe_get, wpe_bind, wpe_modify, wpe_ret.
  apply wpe_bind. unfold the_context, put_context, envs, modify_env, deref. apply wpe_bind, wpe_gets.
  destruct (mjoin _); [|done]. by apply wpe_ret, wpe_modify.
Qed.

(** ** Runs *)

(** The subsystem responds, the completion event fires when it is due, the host rings a head
    doorbell, the CPU runs [send], and time passes up to the next completion event. *)
Inductive Op : Type :=
  | OSubmit (e : CQEntryWrapper)
  | OEvent
  | OHead (qid head : Z)
  | OSend (ivToPost : list Z)
  | OPass (tick : Z).

Definition due_at (s : t) (tick : Z) : bool := match completionEvent (env s) with Some t => t <=? tick | None => false end.

Definition run_op (o : Op) : M t unit :=
  match o with
  | OSubmit e => submit e
  | OEvent => s ← get; when (due_at s (now (env s))) completion
  | OHead qid head => ringCQHeadDoorbell qid head
  | OSend l => run_send l
  | OPass tick => s ← get; when ((now (env s) <=? tick) && negb (due_at s (tick - 1))) (pass tick)
  end.

Definition submitted (ops : list Op) : list CQEntryWrapper := omap (fun o => match o with OSubmit e => Some e | _ => None end) ops.

(** The operations name existing queues; an interrupt vector is looked for in at most 2^16 - 1 queues. *)
Definition op_ok (s : t) (o : Op) : Prop :=
  match o with
  | OSubmit e => is_Some (cslot s (cqew_cqID e))
  | OHead qid _ => 0 <= qid < cqsize s
  | _ => True
  end.

(** What a run has done since [s0]: the entries in [sent] are in transfers, those in [rest] in the list. *)
Record progress (s0 s : t) (sent rest : list CQEntryWrapper) : Prop := {
  pr_ok : forall i q, cslot s i = Some q -> cq_ok (cqueue q);
  pr_queues : forall i, is_Some (cslot s i) <-> is_Some (cslot s0 i);
  pr_size : cqsize s = cqsize s0;
  pr_inflight : exists l, inflight (env s) = inflight (env s0) ++ l /\ Forall2 (fun e x => exists context, carries context e x) sent l;
  pr_fifo : Forall2 (fun e x => cqew_entry x = cqew_entry e /\ cqew_cqID x = cqew_cqID e) rest (lCQFIFO s);
  pr_inv : cq_inv s;
}.

(** ** The operations *)

Lemma clearInterrupt_eq iv s : cqsize s < 65536 ->
  exists b, clearInterrupt iv s = Ok (tt, set_env (set_interrupts (interrupts (env s) ++ [(iv, b)]) (env s)) s).
Proof.
  intros Hn. unfold clearInterrupt. rewrite (bind_ok get _ s s s eq_refl). rewrite for_u16_eq by done.
  assert (forall l n, Forall (fun i => 0 <= i < cqsize s) l -> exists n',
    foldM (fun i n => q ← cq_slot i; mret (match q with
      | Some q => if interruptVector q =? iv then u16 (n + getItemCount (cqueue q)) else n | None => n end)) l n s = Ok (n', s)) as H.
  { induction l as [|i l IH]; intros n Hl; [by exists n|]. apply Forall_cons in Hl as [Hi Hl].
    destruct (vget_in_range (ppCQueue s) i Hi) as [o Ho].
    erewrite foldM_ok; [|rewrite (bind_ok _ _ _ _ _ (cq_slot_eq i o s Ho)); reflexivity]. by apply IH. }
  destruct (H (seqZ 0 (cqsize s - 0)) 0) as [n' Hrun].
  { apply Forall_forall. intros i Hi%elem_of_seqZ. lia. }
  rewrite (bind_ok _ _ _ _ _ Hrun). by eexists.
Qed.

Lemma reserve_inv (E : err -> Prop) s (Q : unit -> t -> Prop) : cq_inv s ->
  (forall v, cq_inv (set_env (set_completionEvent v (env s)) s) -> Q tt (set_env (set_completionEvent v (env s)) s)) ->
  wpe E reserveCompletion Q s.
Proof.
  intros [Hd He] HQ. destruct (decide (lCQFIFO s = [])) as [Hnil|Hne].
  - unfold reserveCompletion. apply wpe_bind, wpe_get. rewrite Hnil. cbn [app].
    assert (forall v, cq_inv (set_env (set_completionEvent v (env s)) s)) as Hany by (intros v; split; cbn; [done|by rewrite Hnil]).
    destruct (omap _ _) as [|t0 ts].
    + apply wpe_ret. specialize (HQ (completionEvent (env s)) (Hany _)). by destruct s as [? ? ? ? ? ? ? ? ? ? ? ? ? ? ? ? ? []].
    + unfold schedule, modify_env. apply wpe_modify. apply HQ. apply Hany.
  - unfold wpe. rewrite reserve_now by done. cbn. apply HQ. by split.
Qed.

Lemma wpe_also {A} (E : err -> Prop) (m : M t A) (Q Q' : A -> t -> Prop) s :
  wpe E m Q s -> wpe anyerr m Q' s -> wpe E m (fun a s' => Q a s' /\ Q' a s') s.
Proof. unfold wpe, wpr. by destruct (m s) as [[a s']|]. Qed.

(** A change of the state that the run does not look at. *)
Lemma progress_same s0 s s' sent rest : progress s0 s sent rest ->
  ppCQueue s' = ppCQueue s -> lCQFIFO s' = lCQFIFO s -> inflight (env s') = inflight (env s) -> cq_inv s' ->
  progress s0 s' sent rest.
Proof.
  intros [H1 H2 H3 H4 H5 H6] Hc Hl Hi Hv. constructor; unfold cslot, cqsize in *; rewrite ?Hc, ?Hl, ?Hi; done.
Qed.

Lemma submit_progress e s0 s sent rest : progress s0 s sent rest -> is_Some (cslot s0 (cqew_cqID e)) ->
  wpe overflow (submit e) (fun _ s' => progress s0 s' sent (rest ++ [e])) s.
Proof.
  intros [H1 H2 H3 H4 H5 H6] He. unfold wpe. rewrite submit_spec by (done || by apply H2). cbn.
  constructor; try done.
  - cbn. apply Forall2_app; [done|]. by constructor.
  - destruct H6 as [Hd _]. split; cbn; [|done]. apply Forall_app_2; [done|]. apply Forall_singleton. cbn. lia.
Qed.

Lemma event_progress s0 s sent rest : progress s0 s sent rest -> Forall (fun e => is_Some (cslot s0 (cqew_cqID e))) rest ->
  wpe overflow completion (fun _ s' => progress s0 s' (sent ++ rest) []) s.
Proof.
  intros [H1 H2 H3 (l & Hin & Hl) H5 H6] Hrest.
  assert (Forall (fun e => is_Some (cslot s (cqew_cqID e))) (lCQFIFO s)) as Hq.
  { clear - H2 H5 Hrest. induction H5 as [|e x rest l [_ He] _ IH]; [done|]. apply Forall_cons in Hrest as [Hr Hrest].
    constructor; [rewrite H2, He; done|by apply IH]. }
  eapply wpe_mono; [exact (wpe_also _ _ _ _ _ (completion_spec s H6 H1 Hq) (completion_size_any s))|].
  intros ? s' [(Hok & Hqs & Hf & (l' & Hin' & Hl') & Hn & _) Hsz]. constructor.
  - exact Hok.
  - intros i. by rewrite Hqs.
  - congruence.
  - exists (l ++ l'). rewrite Hin', Hin, app_assoc. split; [done|]. apply Forall2_app; [done|].
    clear - H5 Hl'. revert l' Hl'. induction H5 as [|e x rest lc [He _] _ IH]; intros l' Hl'; inversion Hl' as [|? y ? l'' Hy Hl'']; subst; constructor.
    + destruct Hy as (ph & Hy). eexists. exists ph. by rewrite <- He.
    + by apply IH.
  - by rewrite Hf.
  - split; rewrite Hf; [done|]. by intros [].
Qed.

Lemma op_progress o s0 s sent rest : cqsize s0 < 65536 -> progress s0 s sent rest ->
  Forall (fun e => is_Some (cslot s0 (cqew_cqID e))) rest -> op_ok s0 o ->
  wpe overflow (run_op o) (fun _ s' => exists sent' rest', progress s0 s' sent' rest' /\
    sent' ++ rest' = sent ++ rest ++ submitted [o]) s.
Proof.
  intros Hn Hp Hrest Ho. destruct o as [e| |qid hd|iv|tick]; cbn [run_op submitted omap list_omap op_ok] in *.
  - eapply wpe_mono; [by apply submit_progress|]. intros ? s' Hs'. by exists sent, (rest ++ [e]).
  - rewrite app_nil_r. apply wpe_bind, wpe_get, wpe_when; intros _.
    + eapply wpe_mono; [by apply event_progress|]. intros ? s' Hs'. exists (sent ++ rest), []. by rewrite app_nil_r.
    + by exists sent, rest.
  - rewrite app_nil_r. pose proof Hp as [H1 H2 H3 H4 H5 H6]. unfold ringCQHeadDoorbell.
    destruct (vget_in_range (ppCQueue s) qid ltac:(unfold cqsize in *; lia)) as [oq Hoq].
    apply wpe_bind. unfold wpe at 1. rewrite (cq_slot_eq _ _ _ Hoq). cbn [wpr fst snd].
    destruct oq as [q|]; [|apply wpe_ret; by exists sent, rest].
    assert (cslot s qid = Some q) as Hq by (by apply cslot_Some).
    set (s1 := set_ppCQueue (vset (ppCQueue s) qid (Some (CQueue_setHead hd q))) s).
    pose proof (vget_Some_range _ _ _ Hoq) as Hr.
    assert (progress s0 s1 sent rest) as Hp1.
    { constructor; [| | |exact H4|exact H5|exact (ltac:(by destruct H6) : cq_inv s1)].
      - intros i x. unfold cslot, s1. cbn. rewrite vget_vset by done. case_decide; [|apply H1].
        intros [= <-]. destruct (H1 _ _ Hq). by constructor.
      - intros i. unfold cslot at 1, s1. cbn. rewrite vget_vset by done. case_decide; [|apply H2]. subst i. rewrite <- H2, Hq.
        split; intros; by eexists.
      - rewrite <- H3. unfold cqsize, s1. cbn. by rewrite vlen_vset. }
    apply wpe_bind. unfold wpe at 1. rewrite (put_cq_eq _ _ _ _ Hoq). cbn [wpr fst snd]. fold s1.
    apply wpe_when; intros _; [|by exists sent, rest].
    destruct (clearInterrupt_eq (interruptVector q) s1) as [b Hb]; [rewrite (pr_size _ _ _ _ Hp1); done|].
    unfold wpe. rewrite Hb. cbn [wpr fst snd]. exists sent, rest. split; [|done].
    eapply progress_same; [exact Hp1|done..|]. by destruct (pr_inv _ _ _ _ Hp1).
  - rewrite app_nil_r. unfold run_send. apply wpe_bind.
    apply (wpe_foldM _ (fun _ _ s' => progress s0 s' sent rest)).
    + done.
    + intros x l ? s1 Hs1. unfold updateInterrupt, modify_env. apply wpe_modify.
      eapply progress_same; [exact Hs1|done..|]. by destruct (pr_inv _ _ _ _ Hs1).
    + intros ? s1 Hs1. apply reserve_inv; [by apply Hs1|]. intros v Hv. exists sent, rest. split; [|done].
      by eapply progress_same.
  - rewrite app_nil_r. apply wpe_bind, wpe_get, wpe_when; intros Hcond; [|by exists sent, rest].
    apply andb_prop in Hcond as [Hle%Z.leb_le Hnd%negb_true_iff]. unfold pass, modify_env. apply wpe_modify.
    exists sent, rest. split; [|done]. eapply progress_same; [exact Hp|done..|].
    destruct (pr_inv _ _ _ _ Hp) as [Hd He]. split; cbn.
    + eapply Forall_impl; [exact Hd|]. intros x Hx. cbn in *. lia.
    + intros Hne. specialize (He Hne). unfold due_at in Hnd. rewrite He in Hnd. apply Z.leb_gt in Hnd. rewrite He. f_equal. lia.
Qed.

(** ** Properties *)


(** An aggregated interrupt is lost: when the time of a vector with a pending interrupt is over and no entry is to be
    posted at that event, [completion] takes the vector as served, but posts no interrupt and leaves nothing that
    could: no function for the CPU, no transfer and no event. *)
Theorem aggregated_interrupt_lost (s : t) (iv : Z) (i : AggregationInfo)
    (Hnil : lCQFIFO s = []) (Hi : aggregationMap s !! iv = Some i) (Hdue : due (now (env s)) i = true) :
  exists s', completion s = Ok (tt, s') /\
    aggregationMap s' !! iv = Some (mkAggregationInfo (u64 (now (env s) + aggregationTime s)) 0 true false) /\
    interrupts (env s') = interrupts (env s) /\ jobs (env s') = jobs (env s) /\ inflight (env s') = inflight (env s) /\
    completionEvent (env s') = None.
Proof.
  cut (wpe noerr completion (fun _ s' =>
    aggregationMap s' !! iv = Some (mkAggregationInfo (u64 (now (env s) + aggregationTime s)) 0 true false) /\
    interrupts (env s') = interrupts (env s) /\ jobs (env s') = jobs (env s) /\ inflight (env s') = inflight (env s) /\
    completionEvent (env s') = None) s).
  { intros H%wpe_noerr. destruct H as ([] & s' & Hrun & Hq). by exists s'. }
  unfold completion, envs, modify_env. apply wpe_bind, wpe_gets. apply wpe_bind, wpe_modify.
  apply wpe_bind. unfold new_context, envs, modify_env. apply wpe_bind, wpe_gets, wpe_bind, wpe_modify, wpe_ret.
  apply wpe_bind, wpe_get. cbn [lCQFIFO set_env env now]. rewrite Hnil. cbn [filter list_filter].
  apply wpe_bind, wpe_modify. apply wpe_bind. cbn [foldM]. apply wpe_ret.
  apply wpe_bind. unfold flush_due. apply wpe_bind, wpe_get, wpe_bind, wpe_modify, wpe_ret.
  apply wpe_bind. unfold the_context, put_context, envs, modify_env. apply wpe_bind, wpe_gets.
  cbn [env set_aggregationMap set_lCQFIFO set_env contexts set_contexts set_completionEvent].
  rewrite list_lookup_middle by done. cbn [mjoin option_join deref]. apply wpe_ret, wpe_modify. cbn.
  split; [|done]. rewrite lookup_fmap, Hi. cbn. by rewrite Hdue.
Qed.
