(* ===== verification/QueueTheorems.v ===== *)
(** * Deleting queues, coalescing parameters: properties of the controller *)

From stdpp Require Import sorting.
From S2P Require Import Prelude Types Dma Fifo NvmeQueue RingProof Controller CollectProof CompletionTheorems.

(** ** Deletion of a submission queue *)

Definition of_queue (sqid : Z) (x : SQEntryWrapper) : bool := sqew_sqID x =? sqid.

(** The commands the loop of [deleteSQueue] keeps; [None] when it runs off the list. *)
Fixpoint survivors (fuel : nat) (sqid : Z) (l : list SQEntryWrapper) : option (list SQEntryWrapper) :=
  match fuel, l with
  | _, [] => Some []
  | O, _ => None
  | S fuel, x :: l =>
      if of_queue sqid x then match l with [] => None | y :: l => cons y <$> survivors fuel sqid l end
      else cons x <$> survivors fuel sqid l
  end.
(** The commands it aborts. *)
Fixpoint aborted (fuel : nat) (sqid : Z) (l : list SQEntryWrapper) : list SQEntryWrapper :=
  match fuel, l with
  | _, [] => []
  | O, _ => []
  | S fuel, x :: l => if of_queue sqid x then x :: aborted fuel sqid (drop 1 l) else aborted fuel sqid l
  end.

Definition responses (tick sqHead sqid : Z) (l : list SQEntryWrapper) : list CQEntryWrapper :=
  (fun x => set_submitAt tick (abort_response sqHead STATUS_ABORT_DUE_TO_SQ_DELETE x)) <$> l.

(** The state after a submission, as far as the loop looks at it. *)
Record aborting (s0 s : t) (sent : list CQEntryWrapper) : Prop := {
  ab_inv : cq_inv s;
  ab_cq : ppCQueue s = ppCQueue s0;
  ab_sq : ppSQueue s = ppSQueue s0;
  ab_fifo : lSQFIFO s = lSQFIFO s0;
  ab_list : lCQFIFO s = lCQFIFO s0 ++ sent;
  ab_now : now (env s) = now (env s0);
}.

Lemma submit_aborting e s0 s sent : aborting s0 s sent -> is_Some (cslot s0 (cqew_cqID e)) ->
  exists s', submit e s = Ok (tt, s') /\ aborting s0 s' (sent ++ [set_submitAt (now (env s0)) e]).
Proof.
  intros [Hi Hc Hs Hf Hl Hn] He. assert (is_Some (cslot s (cqew_cqID e))) as He' by (unfold cslot in *; by rewrite Hc).
  rewrite (submit_spec e s Hi He').
  eexists. split; [reflexivity|]. rewrite Hn. constructor; cbn; try done.
  - destruct Hi as [Hd _]. split; cbn; [|by rewrite Hn]. apply Forall_app_2; [done|]. apply Forall_singleton. cbn. lia.
  - by rewrite Hl, <- app_assoc.
Qed.

Lemma abort_all_eq fuel sqid sqHead done todo s0 s sent :
  aborting s0 s sent -> (length todo <= fuel)%nat -> Forall (fun x => is_Some (cslot s0 (sqew_cqID x))) todo ->
  match survivors fuel sqid todo with
  | Some kept => exists s', abort_all fuel sqid sqHead done todo s = Ok (tt, set_lSQFIFO (done ++ kept) s') /\
      aborting s0 s' (sent ++ responses (now (env s0)) sqHead sqid (aborted fuel sqid todo))
  | None => abort_all fuel sqid sqHead done todo s = Err UB
  end.
Proof.
  revert done todo s sent. induction fuel as [|fuel IH]; intros done todo s sent Ha Hlen Hq.
  - destruct todo as [|x todo]; [|cbn in Hlen; lia]. cbn. exists s. by rewrite !app_nil_r.
  - destruct todo as [|x todo]; [cbn; exists s; by rewrite !app_nil_r|]. apply Forall_cons in Hq as [Hx Hq]. cbn in Hlen.
    cbn [survivors aborted abort_all]. unfold of_queue. destruct (sqew_sqID x =? sqid) eqn:E.
    + destruct (submit_aborting (abort_response sqHead STATUS_ABORT_DUE_TO_SQ_DELETE x) s0 s sent Ha Hx) as (s1 & Hrun & Ha1).
      rewrite (bind_ok _ _ _ _ _ Hrun). destruct todo as [|y todo]; [done|]. apply Forall_cons in Hq as [Hy Hq]. cbn in Hlen.
      specialize (IH (done ++ [y]) todo s1 _ Ha1 ltac:(lia) Hq). cbn [drop].
      destruct (survivors fuel sqid todo) as [kept|]; [|exact IH]. destruct IH as (s' & Hs' & Ha').
      exists s'. cbn [fmap option_fmap option_map]. rewrite Hs', <- app_assoc. split; [done|].
      unfold responses in *. cbn [fmap list_fmap]. by rewrite <- app_assoc in Ha'.
    + specialize (IH (done ++ [x]) todo s sent Ha ltac:(lia) Hq).
      destruct (survivors fuel sqid todo) as [kept|]; [|exact IH]. destruct IH as (s' & Hs' & Ha').
      exists s'. cbn [fmap option_fmap option_map]. by rewrite Hs', <- app_assoc.
Qed.

Lemma survivors_none fuel sqid l : (length l <= fuel)%nat -> Forall (fun x => of_queue sqid x = false) l ->
  survivors fuel sqid l = Some l.
Proof.
  revert l. induction fuel as [|fuel IH]; intros [|x l] Hlen Hl; try done; [cbn in Hlen; lia|].
  apply Forall_cons in Hl as [Hx Hl]. cbn in *. by rewrite Hx, (IH l) by (done || lia).
Qed.

Lemma survivors_pair fuel sqid a x rest : (length (a ++ x :: rest) <= fuel)%nat ->
  Forall (fun y => of_queue sqid y = false) a -> of_queue sqid x = true -> Forall (fun y => of_queue sqid y = false) (drop 1 rest) ->
  survivors fuel sqid (a ++ x :: rest) = match rest with [] => None | y :: b => Some (a ++ y :: b) end.
Proof.
  revert a. induction fuel as [|fuel IH]; intros [|y a] Hlen Ha Hx Hr; cbn in Hlen; try lia.
  - cbn [app survivors]. rewrite Hx. destruct rest as [|y b]; [done|]. cbn in *. by rewrite survivors_none by (done || lia).
  - apply Forall_cons in Ha as [Hy Ha]. cbn [app survivors]. rewrite Hy, (IH a) by (done || lia). by destruct rest.
Qed.

(** Deleting a submission queue aborts its commands only in part: the loop skips the command behind each one it aborts,
    so of two neighbours of the deleted queue the second stays in the list, and when the last command of the list is one
    to abort the loop runs past the end of the list.  In general the commands kept are [survivors], the others are
    answered with the status of an abort, and the queue is gone. *)
Theorem delete_squeue_skips (s : t) (sqid : Z) (p : Z * SQueue)
    (Hp : slot s sqid = Some p) (Hid : 0 < sqid) (Hi : cq_inv s)
    (Hq : Forall (fun x => is_Some (cslot s (sqew_cqID x))) (lSQFIFO s)) :
  match survivors (length (lSQFIFO s)) sqid (lSQFIFO s) with
  | Some kept => exists s', deleteSQueue sqid s = Ok (0, s') /\ lSQFIFO s' = kept /\ slot s' sqid = None /\
      lCQFIFO s' = lCQFIFO s ++
        responses (now (env s)) (head (squeue p.2)) sqid (aborted (length (lSQFIFO s)) sqid (lSQFIFO s))
  | None => deleteSQueue sqid s = Err UB
  end /\
  (forall a x rest, lSQFIFO s = a ++ x :: rest -> Forall (fun y => of_queue sqid y = false) a -> of_queue sqid x = true ->
     Forall (fun y => of_queue sqid y = false) (drop 1 rest) ->
     survivors (length (lSQFIFO s)) sqid (lSQFIFO s) = match rest with [] => None | y :: b => Some (a ++ y :: b) end).
Proof.
  split.
  - pose proof Hp as Hv%slot_Some. unfold deleteSQueue. rewrite (bind_ok _ _ _ _ _ (sq_slot_eq _ _ _ Hv)).
    destruct p as [n q]. rewrite (proj2 (Z.ltb_lt _ _) Hid). rewrite (bind_ok get _ s s s eq_refl).
    assert (aborting s s []) as Ha by (constructor; try done; by rewrite app_nil_r).
    pose proof (abort_all_eq (length (lSQFIFO s)) sqid (head (squeue q)) [] (lSQFIFO s) s s [] Ha ltac:(lia) Hq) as H.
    destruct (survivors _ _ _) as [kept|]; [|unfold mbind, M_bind; by rewrite H].
    destruct H as (s1 & Hrun & [H1 H2 H3 H4 H5 H6]). rewrite (bind_ok _ _ _ _ _ Hrun). rewrite !app_nil_l in *.
    assert (vget (ppSQueue (set_lSQFIFO kept s1)) sqid = Some (Some (n, q))) as Hv' by (cbn; by rewrite H3).
    rewrite (bind_ok _ _ _ _ _ (put_sq_eq _ _ _ _ Hv')). eexists. split; [reflexivity|]. cbn. split; [done|]. split; [|done].
    unfold slot. cbn. rewrite H3, vget_vset_eq by (by eapply vget_Some_range). done.
  - intros a x rest Hl Ha Hx Hr. rewrite Hl. by apply survivors_pair.
Qed.

(** ** Deletion of a completion queue *)

Lemma find_queue_false {A} (l : list (option A)) (p : A -> bool) idx :
  Forall (fun i => 0 <= i < vlen l) idx -> (forall i q, i ∈ idx -> vget l i = Some (Some q) -> p q = false) ->
  find_queue l p idx = Ok false.
Proof.
  intros Hr Hp. induction Hr as [|i idx Hi Hr IH]; [done|]. cbn [find_queue].
  destruct (vget_in_range l i Hi) as [o Ho]. rewrite (get_raw_Some _ _ _ Ho). cbn [mbind res_bind].
  rewrite IH by (intros j q Hj; apply Hp; by right). destruct o as [q|]; [|done].
  by rewrite (Hp i q) by (done || by left).
Qed.

(** A completion queue can be deleted while a submission queue still uses it: [deleteCQueue] looks at as many
    submission queues as there are completion queues, so with more submission queues a user further behind is not
    seen; the queue is removed, and the next completion of that user's commands stops the simulator. *)
Theorem delete_cqueue_in_use (s : t) (cqid i : Z) (q : CQueue) (p : Z * SQueue) (e : CQEntryWrapper)
    (Hq : cslot s cqid = Some q) (Hid : 0 < cqid) (Hp : slot s i = Some p) (Huse : cqID p.2 = cqid)
    (Hi : cqsize s <= i) (Hn : cqsize s < 65536)
    (Hfree : forall j p', 1 <= j < cqsize s -> slot s j = Some p' -> cqID p'.2 <> cqid)
    (Hinfo : is_Some (aggregationMap s !! interruptVector q)) (He : cqew_cqID e = cqid) :
  exists s', deleteCQueue cqid s = Ok (0, s') /\ slot s' i = Some p /\ cslot s' cqid = None /\
    submit e s' = Err (Panic "nvme_ctrl: Completion Queue not created!").
Proof.
  pose proof Hq as Hv%cslot_Some. pose proof (vget_Some_range _ _ _ Hv) as Hr.
  pose proof Hp as Hpv%slot_Some. pose proof (vget_Some_range _ _ _ Hpv) as Hpr.
  assert (find_from_1 (ppSQueue s) (fun p => cqID p.2 =? cqid) (cqsize s) = Ok false) as Hfind.
  { unfold find_from_1. rewrite Z.min_l by lia. rewrite (find_queue_false _ _ (seqZ 1 (cqsize s - 1))).
    - cbn [mbind res_bind negb andb]. by rewrite (proj2 (Z.leb_gt _ _)).
    - apply Forall_forall. intros j Hj%elem_of_seqZ. lia.
    - intros j x Hj%elem_of_seqZ Hx. apply Z.eqb_neq. apply (Hfree j x); [lia|]. by apply slot_Some. }
  unfold deleteCQueue. rewrite (bind_ok _ _ _ _ _ (cq_slot_eq _ _ _ Hv)). rewrite (proj2 (Z.ltb_lt _ _) Hid).
  rewrite (bind_ok get _ s s s eq_refl). rewrite (bind_ok (lift _) _ s false s) by (unfold lift; by rewrite Hfind).
  set (s1 := set_ppCQueue (vset (ppCQueue s) cqid None) s).
  rewrite (bind_ok _ _ _ _ _ (put_cq_eq _ _ _ _ Hv)). fold s1. rewrite (bind_ok get _ s1 s1 s1 eq_refl).
  assert (exists b, find_from_1 (ppCQueue s1) (fun p => interruptVector p =? interruptVector q) (cqsize s1) = Ok b) as [b Hb].
  { assert (cqsize s1 = cqsize s) as -> by (unfold cqsize, s1; cbn; by rewrite vlen_vset).
    unfold find_from_1. rewrite Z.min_l by lia.
    assert (forall idx, Forall (fun i => 0 <= i < vlen (ppCQueue s1)) idx ->
      exists b, find_queue (ppCQueue s1) (fun p => interruptVector p =? interruptVector q) idx = Ok b) as H.
    { clear. induction 1 as [|j idx Hj Hr [b IH]]; [by exists false|]. cbn [find_queue].
      destruct (vget_in_range _ j Hj) as [o Ho]. rewrite (get_raw_Some _ _ _ Ho). cbn [mbind res_bind].
      destruct o as [x|]; [destruct (_ =? _)|]; eauto. }
    destruct (H (seqZ 1 (cqsize s - 1))) as [b Hb].
    { apply Forall_forall. intros j Hj%elem_of_seqZ. unfold s1. cbn. rewrite vlen_vset. unfold cqsize in Hj. lia. }
    exists b. rewrite Hb. cbn [mbind res_bind]. rewrite (proj2 (Z.leb_gt _ _)) by done. by rewrite andb_false_r. }
  rewrite (bind_ok (lift _) _ s1 b s1) by (unfold lift; by rewrite Hb).
  assert (exists s2, (if b then mret tt else erase_info (interruptVector q)) s1 = Ok (tt, s2) /\
    ppCQueue s2 = ppCQueue s1 /\ ppSQueue s2 = ppSQueue s) as (s2 & Hrun & Hc2 & Hs2).
  { destruct b; [by exists s1|]. unfold erase_info. rewrite (bind_ok get _ s1 s1 s1 eq_refl).
    change (aggregationMap s1) with (aggregationMap s). destruct Hinfo as [info ->]. by eexists. }
  rewrite (bind_ok _ _ _ _ _ Hrun). exists s2. split; [done|].
  assert (cslot s2 cqid = None) as Hnone by (unfold cslot; rewrite Hc2; unfold s1; cbn; by rewrite vget_vset_eq).
  split; [unfold slot; by rewrite Hs2|]. split; [exact Hnone|]. apply submit_no_queue; [by rewrite He|].
  rewrite He. unfold cqsize. rewrite Hc2. unfold s1. cbn. rewrite vlen_vset. exact Hr.
Qed.

(** ** Coalescing *)

(** The coalescing time that was set is read back up to 21 units of 100 us; a longer time overflows the [int] it is
    computed in. *)
Theorem coalescing_time (s : t) (time thres : Z) (Ht : 0 <= time < 2 ^ 8) (Hth : 0 <= thres < 2 ^ 8) :
  (setCoalescingParameter time thres;; getCoalescingParameter) s
  = if time <=? 21 then Ok ((time, thres), set_aggregationThreshold thres (set_aggregationTime (time * 100000000) s))
    else Err UB.
Proof.
  unfold setCoalescingParameter. destruct (Z.leb_spec time 21).
  - unfold mbind, M_bind. rewrite (proj2 (Z.ltb_lt _ _)) by lia. cbv [modify getCoalescingParameter gets].
    cbn [aggregationTime aggregationThreshold set_aggregationThreshold set_aggregationTime].
    rewrite Z.div_mul by lia. unfold u8. by rewrite !Z.mod_small by lia.
  - unfold mbind, M_bind. by rewrite (proj2 (Z.ltb_ge _ _)) by lia.
Qed.
