(* ===== verification/BringUp.v ===== *)
(** * Bringing the controller up

    The calls that the driver's [init] makes, executed by the controller. *)

From S2P Require Import Prelude Types Dma DmaProof DmaTheorems NvmeQueue Sil RingProof CqRing SqRing SilTheorems Controller CollectProof.

(** A call of the driver. *)
Definition apply_call (c : Conf) (x : Sil.Call) : M Controller.t unit :=
  match x with
  | Sil.writeRegister offset size buffer => Controller.writeRegister c offset size buffer
  | Sil.ringSQTailDoorbell qid tail => Controller.ringSQTailDoorbell qid tail
  | Sil.ringCQHeadDoorbell qid head => Controller.ringCQHeadDoorbell qid head
  end.

Lemma word_back8 a : 0 <= a < 2 ^ 64 -> le_word (take 8 (le_bytes 8 a)) = a.
Proof.
  intros H. rewrite take_ge by (rewrite length_le_bytes; lia). rewrite le_word_bytes. by apply Z.mod_small.
Qed.

Definition new_cq : CQueue := CQueue_make 0 true 0 256.
Definition new_sq : SQueue := SQueue_make 0 0 0 256.

(** ** The controller's side, write by write *)

(** No queue is made but by the last of the base addresses. *)
Lemma nothing_created s : (adminQueueInited s =? 4) = false -> create_admin_queues s = Ok (tt, s).
Proof. intros H. unfold create_admin_queues. by rewrite get_bind, H. Qed.

Lemma write_attributes c s : adminQueueInited s = 0 -> adminQueueAttributes (registers s) = 0 ->
  writeRegister c 0x24 4 (le_bytes 4 0x00FF00FF) s = Ok (tt, set_registers (reg_adminQueueAttributes 0x00FF00FF (registers s)) s).
Proof.
  intros H0 Ha.
  change (writeRegister c 0x24 4 (le_bytes 4 0x00FF00FF) s) with
    ((modify_regs (fun r => reg_adminQueueAttributes (Z.lor (Z.land (adminQueueAttributes r) 0xF000F000) 0x00FF00FF) r);;
      create_admin_queues) s).
  unfold modify_regs. rewrite modify_bind, Ha. apply nothing_created. cbn [adminQueueInited set_registers]. by rewrite H0.
Qed.

Lemma write_asq c a s : 0 <= a < 2 ^ 64 -> adminQueueInited s = 0 ->
  writeRegister c 0x28 8 (le_bytes 8 a) s
  = Ok (tt, set_adminQueueInited 2 (set_registers (reg_adminSQueueBaseAddress a (registers s)) s)).
Proof.
  intros Ha H0.
  change (writeRegister c 0x28 8 (le_bytes 8 a) s) with
    (((modify_regs (reg_adminSQueueBaseAddress (le_word (take 8 (le_bytes 8 a))));; inited 2);; create_admin_queues) s).
  rewrite word_back8 by done. unfold modify_regs, inited. rewrite bind_bind, !modify_bind.
  cbn [adminQueueInited set_registers]. rewrite H0. by apply nothing_created.
Qed.

(** The second base address: both admin queues are made, without a base yet. *)
Record created_by (a2 : Z) (s s' : t) : Prop := {
  cb_registers : registers s' = reg_adminCQueueBaseAddress a2 (registers s);
  cb_cq : vget (ppCQueue s') 0 = Some (Some new_cq);
  cb_sq : vget (ppSQueue s') 0 = Some (Some (allocated (env s), new_sq));
  cb_now : now (env s') = now (env s);
  cb_inited : adminQueueInited s' = 0;
}.

Lemma write_acq c a2 s oc os : 0 <= a2 < 2 ^ 64 -> adminQueueInited s = 2 -> adminQueueAttributes (registers s) = 0x00FF00FF ->
  vget (ppCQueue s) 0 = Some oc -> vget (ppSQueue s) 0 = Some os ->
  exists s', writeRegister c 0x30 8 (le_bytes 8 a2) s = Ok (tt, s') /\ created_by a2 s s'.
Proof.
  intros Ha H2 Haqa Hoc Hos.
  change (writeRegister c 0x30 8 (le_bytes 8 a2) s) with
    (((modify_regs (reg_adminCQueueBaseAddress (le_word (take 8 (le_bytes 8 a2))));; inited 2);; create_admin_queues) s).
  rewrite word_back8 by done. unfold modify_regs, inited. rewrite bind_bind, !modify_bind.
  unfold create_admin_queues. rewrite get_bind. cbn [adminQueueInited set_registers set_adminQueueInited registers adminQueueAttributes reg_adminCQueueBaseAddress].
  rewrite H2, Haqa. change (u8 (2 + 2) =? 4) with true. unfold when. rewrite modify_bind. cbv zeta.
  change (u16 (Z.shiftr (Z.land 16711935 268369920) 16 + 1)) with 256. change (u16 (Z.land 16711935 4095 + 1)) with 256.
  match goal with |- exists s', (_ ≫= _) ?st = _ /\ _ => set (st0 := st) end.
  rewrite (bind_ok _ _ _ _ _ (put_cq_eq 0 oc (Some new_cq) st0 Hoc)). unfold new_squeue, envs, gets, modify_env.
  rewrite bind_bind. unfold mbind at 1, M_bind at 1. rewrite bind_bind, modify_bind, ret_bind.
  cbn [env set_ppCQueue]. match goal with |- exists s', put_sq _ _ ?st = _ /\ _ => set (st1 := st) end.
  eexists. split; [exact (put_sq_eq 0 os _ st1 Hos)|]. apply vget_Some_range in Hoc, Hos. constructor.
  - done.
  - cbn [ppCQueue set_ppSQueue]. unfold st1. cbn [ppCQueue set_env set_ppCQueue]. by apply vget_vset_eq.
  - cbn [ppSQueue set_ppSQueue]. by apply vget_vset_eq.
  - done.
  - done.
Qed.

(** The configuration: entry sizes, page size, arbitration, enable. *)
Record enabled (c : Conf) (a1 a2 n : Z) (s s' : t) : Prop := {
  en_status : status (registers s') = 1;
  en_arbitration : arbitration s' = ROUND_ROBIN;
  en_work : workEvent (env s') = Fifo.Fifo.at_tick (now (env s)) (u64 (now (env s) + workInterval c));
  en_sq : vget (ppSQueue s') 0 = Some (Some (n, SqRing.dev_at a1 256 64 0 0 0 4096 0 0));
  en_cq : vget (ppCQueue s') 0 = Some (Some (CqRing.dev_at a2 256 16 0 0 4096 true 0 0));
}.

Lemma enable_eq c s : status (registers s) = 0 -> configuration (registers s) = 0x00460001 ->
  (if negb (Z.land (configuration (registers s)) 0x0000C000 =? 0) then
     modify_regs (fun r => reg_status (Z.lor (Z.land (status r) 0xFFFFFFF2) 5) r);; modify (set_shutdownReserved true)
   else if negb (Z.land (configuration (registers s)) 1 =? 0) then
     modify_regs (fun r => reg_status (Z.lor (status r) 1) r);;
     e ← envs now; schedule set_workEvent (u64 (e + workInterval c))
   else modify_regs (fun r => reg_status (Z.land (status r) 0xFFFFFFFE) r);; deschedule set_workEvent) s
  = Ok (tt, set_env (set_workEvent (Fifo.Fifo.at_tick (now (env s)) (u64 (now (env s) + workInterval c))) (env s))
              (set_registers (reg_status 1 (registers s)) s)).
Proof.
  intros Hs Hc. rewrite Hc. change (Z.land 4587521 49152 =? 0) with true. change (Z.land 4587521 1 =? 0) with false. cbn [negb].
  unfold modify_regs. rewrite modify_bind, Hs. reflexivity.
Qed.

Lemma write_cc c a1 a2 n s : 0 <= a1 < 2 ^ 63 -> 0 <= a2 < 2 ^ 63 -> adminQueueInited s = 0 ->
  registers s = reg_adminCQueueBaseAddress a2 (reg_adminSQueueBaseAddress a1 (reg_adminQueueAttributes 0x00FF00FF RegisterTable_make)) ->
  vget (ppCQueue s) 0 = Some (Some new_cq) -> vget (ppSQueue s) 0 = Some (Some (n, new_sq)) ->
  exists s', writeRegister c 0x14 4 (le_bytes 4 0x00460001) s = Ok (tt, s') /\ enabled c a1 a2 n s s'.
Proof.
  intros H1 H2 H0 Hr Hvc Hvs.
  change (writeRegister c 0x14 4 (le_bytes 4 0x00460001) s) with ((write_config c 0x00460001;; create_admin_queues) s).
  unfold write_config, modify_regs. rewrite bind_bind, modify_bind.
  assert (configuration (registers s) = 0) as Hc0 by (by rewrite Hr).
  cbv beta. rewrite Hc0. change (Z.land 0x00460001 0x00FFFFF1) with 0x00460001.
  change (Z.lor (Z.land 0 4278190094) 4587521) with 0x00460001.
  match goal with |- exists s', ((get ≫= _) ≫= _) ?st = _ /\ _ => set (t0 := st) end.
  assert (configuration (registers t0) = 0x00460001) as Hconf by done.
  assert (adminCQueueBaseAddress (registers t0) = a2) as Hba2 by (unfold t0; cbn [registers set_registers]; by rewrite Hr).
  assert (adminSQueueBaseAddress (registers t0) = a1) as Hba1 by (unfold t0; cbn [registers set_registers]; by rewrite Hr).
  rewrite bind_bind, get_bind. cbv zeta. rewrite Hconf, Hba1, Hba2.
  rewrite bind_bind, modify_bind. rewrite bind_bind, modify_bind. rewrite bind_bind, modify_bind.
  change (pow_field 4587521 15728640 20) with 16. change (pow_field 4587521 983040 16) with 64.
  change (2 ^ (Z.shiftr (Z.land 4587521 1920) 7 + 11 + 1)) with 4096. change (Z.shiftr (Z.land 4587521 14336) 11) with 0.
  match goal with |- exists s', _ ?st = _ /\ _ => set (t1 := st) end.
  rewrite bind_bind. rewrite (bind_ok _ _ _ _ _ (cq_slot_eq 0 _ t1 Hvc)).
  assert (rebase_cq 0 a2 true new_cq t1 = Ok (CqRing.dev_at a2 256 16 0 0 4096 true 0 0, t1)) as Hrb by done.
  rewrite bind_bind, bind_bind, (bind_ok _ _ _ _ _ Hrb), (bind_ok _ _ _ _ _ (put_cq_eq _ _ _ t1 Hvc)).
  match goal with |- exists s', _ ?st = _ /\ _ => set (t2 := st) end.
  rewrite bind_bind, (bind_ok _ _ _ _ _ (sq_slot_eq 0 _ t2 Hvs)).
  assert (rebase_sq 0 a1 true new_sq t2 = Ok (SqRing.dev_at a1 256 64 0 0 0 4096 0 0, t2)) as Hrs by done.
  rewrite bind_bind, bind_bind, (bind_ok _ _ _ _ _ Hrs), (bind_ok _ _ _ _ _ (put_sq_eq _ _ _ t2 Hvs)).
  match goal with |- exists s', _ ?st = _ /\ _ => set (t3 := st) end.
  assert (status (registers t3) = 0) as Hst3.
  { change (status (registers t3)) with (status (registers s)). by rewrite Hr. }
  pose proof (enable_eq c t3 Hst3 eq_refl) as He. change (configuration (registers t3)) with 4587521 in He.
  unfold modify_regs in He. rewrite (bind_ok _ _ _ _ _ He). eexists. split; [apply nothing_created; change ((adminQueueInited s =? 4) = false); by rewrite H0|].
  apply vget_Some_range in Hvc, Hvs. constructor; [done|done|done| |].
  - cbn [ppSQueue set_env set_registers]. unfold t3. cbn [ppSQueue set_ppSQueue]. apply vget_vset_eq; (exact Hvs || exact Hvc).
  - cbn [ppCQueue set_env set_registers]. unfold t3. cbn [ppCQueue set_ppSQueue]. unfold t2. cbn [ppCQueue set_ppCQueue]. by apply vget_vset_eq.
Qed.

(** ** The driver's side *)

Definition identify (id prp : Z) : list Z :=
  let cmd := command OPCODE_IDENTIFY 0 prp 0 CNS_IDENTIFY_CONTROLLER 0 0 in take 2 cmd ++ le_bytes 2 id ++ drop 4 cmd.

Lemma identify_length id prp : vlen (identify id prp) = 64.
Proof. reflexivity. Qed.

Lemma identify_opcode id prp : opcode (SQEntry_of (identify id prp)) = OPCODE_IDENTIFY.
Proof. reflexivity. Qed.

Section Host.
  Context (fuel : nat) (m : Z -> Z) (rest : list Z) (tick cap lba ns maxq adminID ioID a1 a2 a3 : Z).

Definition d0 : Driver := Driver_make m (a1 :: a2 :: a3 :: rest) tick cap lba ns maxq adminID ioID.
Definition mem_up : Z -> Z :=
  store (a1 + 0 * 64) (identify (increaseCommandID adminID) a3) (clear a3 4096 (clear a2 (16 * 256) (clear a1 (64 * 256) m))).

(** [new Queue], [new PRP] of one page, and a command for the admin queue. *)
Lemma new_queue_bind {A} e st (k : Sil.Queue.t -> D A) a l d : addresses d = a :: l ->
  (Sil.new_queue e st ≫= k) d
  = k (Sil.Queue.make a e st) (Sil.set_mem (clear a (st * e) (mem d)) (set_addresses l d)).
Proof. intros H. unfold D, Sil.new_queue, aligned_alloc. rewrite !bind_bind, get_bind, H. reflexivity. Qed.

Lemma new_PRP_bind {A} (k : PRP.t -> D A) a l d : addresses d = a :: l ->
  (new_PRP fuel 4096 ≫= k) d = k (PRP.mk a 4096 a 0 [a]) (Sil.set_mem (clear a 4096 (mem d)) (set_addresses l d)).
Proof. intros H. unfold D, new_PRP, aligned_alloc. rewrite !bind_bind, get_bind, H. reflexivity. Qed.

Lemma submit_admin cmd func q d : adminSQ d = Some q ->
  let cid := increaseCommandID (adminCommandID d) in
  let w := Sil.Queue.setData (mem d) q (take 2 cmd ++ le_bytes 2 cid ++ drop 4 cmd) in
  exists d', Sil.submitCommand 0 cmd func d = Ok (tt, d') /\ mem d' = w.1 /\ adminSQ d' = Some (Sil.Queue.incrHead w.2) /\
    adminCQ d' = adminCQ d /\ phase d' = phase d /\ calls d' = calls d ++ [Sil.ringSQTailDoorbell 0 (Sil.Queue.tail w.2)].
Proof.
  intros H cid w. unfold Sil.submitCommand, D. rewrite get_bind. cbv zeta. change (0 =? 0) with true. cbv iota.
  rewrite !bind_bind, modify_bind, bind_bind. cbn [adminSQ set_adminCommandID]. rewrite H.
  unfold Sil.deref, D. cbv iota. rewrite ret_bind. rewrite ret_bind. cbn [fst snd]. rewrite get_bind. cbv zeta. cbn [mem set_adminCommandID].
  fold cid. fold w. rewrite !modify_bind. unfold ask. rewrite modify_bind.
  eexists. split; [reflexivity|]. done.
Qed.

Lemma init_eq : exists d', Sil.init fuel 0x0020002028010FFF d0 = Ok (tt, d') /\
  calls d' = [Sil.writeRegister 0x24 4 (le_bytes 4 0x00FF00FF); Sil.writeRegister 0x28 8 (le_bytes 8 a1);
              Sil.writeRegister 0x30 8 (le_bytes 8 a2); Sil.writeRegister 0x14 4 (le_bytes 4 0x00460001);
              Sil.ringSQTailDoorbell 0 1] /\
  mem d' = mem_up /\ adminSQ d' = Some (SqRing.hq_at a1 256 64 1) /\ adminCQ d' = Some (CqRing.hq_at a2 256 16 0) /\ phase d' = true.
Proof.
  unfold Sil.init, D. cbv zeta. change (u16 (Z.land 9007337364852735 65535 + 1)) with 4096.
  change (4096 <? QUEUE_ENTRY_ADMIN) with false. cbv iota.
  change (Z.lor (u64 (QUEUE_ENTRY_ADMIN - 1)) (u64 (Z.shiftl (QUEUE_ENTRY_ADMIN - 1) 16))) with 0x00FF00FF.
  change (Z.lor 1 4587520) with 0x00460001. unfold ask. rewrite !modify_bind.
  rewrite (new_queue_bind _ _ _ a1 (a2 :: a3 :: rest)) by done. rewrite modify_bind.
  rewrite (new_queue_bind _ _ _ a2 (a3 :: rest)) by done. rewrite !modify_bind.
  rewrite (new_PRP_bind _ a3 rest) by done.
  match goal with |- exists d', Sil.submitCommand 0 ?cmd ?f ?d = _ /\ _ =>
    destruct (submit_admin cmd f (Sil.Queue.make a1 QUEUE_ENTRY_ADMIN 64) d eq_refl) as (d' & Hd & Hm & Hs & Hc & Hp & Hk) end.
  exists d'. split; [exact Hd|]. rewrite Hk, Hm, Hs, Hc, Hp. repeat split.
Qed.
End Host.

(** ** Both sides together *)

Lemma submission_related m a page cmd : vlen cmd = 64 ->
  SqRing.related a 256 64 0 0 0 page
    (SqRing.mkLink (SqRing.dev_at a 256 64 0 0 0 page 1 0) [] (store (a + 0 * 64) cmd m) (SqRing.hq_at a 256 64 1))
    (SqRing.mkSpec [cmd] 0 0).
Proof.
  intros Hc. constructor; try done.
  - by constructor.
  - intros k x Hk Hg. pose proof (vget_Some_range _ _ _ Hg) as Hr. unfold vlen in Hr. simpl in Hr.
    assert (k = 0) as -> by lia. injection Hg as <-. unfold SqRing.place. change (0 mod 256) with 0.
    cbn [SqRing.hmem]. pose proof (load_store_same (a + 0 * 64) cmd m) as E. by rewrite Hc in E.
Qed.

Lemma load_clear_over a n m b k : load m b k = replicate (Z.to_nat k) 0 -> load (clear a n m) b k = replicate (Z.to_nat k) 0.
Proof.
  unfold load. intros H. apply list_eq_same_length with (Z.to_nat k); rewrite ?length_fmap, ?length_seqZ, ?length_replicate; try lia.
  intros i x y Hi Hx Hy. apply lookup_replicate in Hy as [-> _].
  apply list_lookup_fmap_Some in Hx as (z & -> & Hz). unfold clear. destruct (_ && _); [done|].
  assert ((m <$> seqZ b k) !! i = Some (m z)) as Hl by (by rewrite list_lookup_fmap, Hz).
  rewrite H in Hl. by apply lookup_replicate in Hl as [? _].
Qed.

Lemma completion_related m a page l b : 0 <= a -> a + 4096 < 2 ^ 64 -> b + vlen l <= a \/ a + 4096 <= b ->
  load m a 4096 = replicate 4096 0 ->
  CqRing.related a 256 16 0 0 page true
    (CqRing.mkLink (CqRing.dev_at a 256 16 0 0 page true 0 0) [] (store b l m) (CqRing.hq_at a 256 16 0) true) CqRing.spec_fresh.
Proof.
  intros Ha Hf Hb Hz. constructor; try done.
  split.
  - intros k e H0 Hk. cbn [CqRing.delivered CqRing.spec_fresh] in Hk. lia.
  - intros k Hk. cbn [CqRing.hmem]. unfold CqRing.place. cbn in Hk. rewrite Z.mod_small by lia.
    rewrite load_store_other by lia.
    unfold load in *. apply list_eq_same_length with 16%nat; [done|done|].
    intros i x y Hi Hx Hy. apply lookup_replicate in Hy as [-> _].
    apply list_lookup_fmap_Some in Hx as (z & -> & Hx). apply lookup_seqZ in Hx as [-> Hx].
    assert ((m <$> seqZ a 4096) !! Z.to_nat (k * 16 + Z.of_nat i) = Some (m (a + k * 16 + Z.of_nat i))) as Hl.
    { rewrite list_lookup_fmap, lookup_seqZ_lt by lia. cbn. do 2 f_equal. lia. }
    rewrite Hz in Hl. by apply lookup_replicate in Hl as [? _].
Qed.

Definition apply_calls (c : Conf) (l : list Sil.Call) : M Controller.t unit := iterM (apply_call c) l.
(** The capability register, as the driver reads it. *)
Definition CAP : Z := 0x0020002028010FFF.

Lemma calls_executed (c : Conf) maxCQ maxSQ tick sqs cqs arb page last a1 a2 :
  0 <= a1 < 2 ^ 63 -> 0 <= a2 < 2 ^ 63 -> 0 <= maxCQ < 2 ^ 32 - 1 -> 0 <= maxSQ < 2 ^ 32 - 1 ->
  exists s, apply_calls c
    [Sil.writeRegister 0x24 4 (le_bytes 4 0x00FF00FF); Sil.writeRegister 0x28 8 (le_bytes 8 a1);
     Sil.writeRegister 0x30 8 (le_bytes 8 a2); Sil.writeRegister 0x14 4 (le_bytes 4 0x00460001);
     Sil.ringSQTailDoorbell 0 1] (Controller_make maxCQ maxSQ tick sqs cqs arb page last) = Ok (tt, s) /\
    status (registers s) = 1 /\ arbitration s = ROUND_ROBIN /\
    workEvent (env s) = Fifo.Fifo.at_tick tick (u64 (tick + workInterval c)) /\
    vget (ppSQueue s) 0 = Some (Some (0, SqRing.dev_at a1 256 64 0 0 0 4096 1 0)) /\
    vget (ppCQueue s) 0 = Some (Some (CqRing.dev_at a2 256 16 0 0 4096 true 0 0)).
Proof.
  intros H1 H2 Hcq Hsq. set (s := Controller_make _ _ _ _ _ _ _ _).
  assert (0 <= 0 < vlen (ppCQueue s) /\ 0 <= 0 < vlen (ppSQueue s)) as [Hc Hs].
  { unfold s, Controller_make. cbn [ppCQueue ppSQueue]. rewrite !u32_small by lia. rewrite !vlen_replicate by lia. lia. }
  destruct (vget_in_range _ _ Hc) as [oc Hoc]. destruct (vget_in_range _ _ Hs) as [os Hos].
  unfold apply_calls, iterM. cbn [foldM apply_call].
  rewrite (bind_ok _ _ _ _ _ (write_attributes c s eq_refl eq_refl)). set (s1 := set_registers _ s).
  rewrite (bind_ok _ _ _ _ _ (write_asq c a1 s1 ltac:(lia) eq_refl)). set (s2 := set_adminQueueInited 2 _).
  destruct (write_acq c a2 s2 oc os ltac:(lia) eq_refl eq_refl Hoc Hos) as (s3 & H3 & [Hr3 Hq3 Hp3 Hn3 Hi3]).
  rewrite (bind_ok _ _ _ _ _ H3).
  destruct (write_cc c a1 a2 0 s3 H1 H2 Hi3 Hr3 Hq3 Hp3) as (s4 & H4 & [Hst Ha Hw Hv Hvc]).
  rewrite (bind_ok _ _ _ _ _ H4). rewrite Hn3 in Hw.
  eexists. split.
  - erewrite bind_ok; [reflexivity|]. unfold Controller.ringSQTailDoorbell.
    rewrite (bind_ok _ _ _ _ _ (sq_slot_eq _ _ _ Hv)). exact (put_sq_eq _ _ _ _ Hv).
  - split; [exact Hst|]. split; [exact Ha|]. split; [exact Hw|]. split; [|exact Hvc].
    cbn [ppSQueue set_ppSQueue]. apply vget_vset_eq. by apply vget_Some_range in Hv.
Qed.

(** C10: the driver's [init] against a controller that was just made: it reads the capability register, makes two queues in
    the host memory and five calls.  The controller executes them without an error; it is then ready, collects in round
    robin and has its work event scheduled; its first submission and completion queues and those of the driver are related
    as the two refinements of the rings require, with the identify command as the only one submitted. *)
Theorem driver_brings_up (c : Conf) (maxCQ maxSQ tick sqs cqs arb page last : Z)
    (fuel : nat) (m : Z -> Z) (rest : list Z) (now cap lba ns maxq adminID ioID a1 a2 a3 : Z)
    (H1 : 0 <= a1 < 2 ^ 63) (H2 : 0 <= a2 < 2 ^ 63) (Hcq : 0 <= maxCQ < 2 ^ 32 - 1) (Hsq : 0 <= maxSQ < 2 ^ 32 - 1)
    (Hapart : a1 + 64 * 256 <= a2 \/ a2 + 16 * 256 <= a1) :
  let s := Controller_make maxCQ maxSQ tick sqs cqs arb page last in
  exists r d s' dsq dcq hsq hcq,
    Controller.readRegister 0 8 s = Ok (r, s) /\
    Sil.init fuel (le_word r) (Driver_make m (a1 :: a2 :: a3 :: rest) now cap lba ns maxq adminID ioID) = Ok (tt, d) /\
    apply_calls c (calls d) s = Ok (tt, s') /\
    status (registers s') = 1 /\ arbitration s' = ROUND_ROBIN /\
    workEvent (env s') = Fifo.Fifo.at_tick tick (u64 (tick + workInterval c)) /\
    vget (ppSQueue s') 0 = Some (Some (0, dsq)) /\ vget (ppCQueue s') 0 = Some (Some dcq) /\
    adminSQ d = Some hsq /\ adminCQ d = Some hcq /\
    SqRing.related a1 256 64 0 0 0 4096 (SqRing.mkLink dsq [] (mem d) hsq)
      (SqRing.mkSpec [identify (increaseCommandID adminID) a3] 0 0) /\
    CqRing.related a2 256 16 0 0 4096 true (CqRing.mkLink dcq [] (mem d) hcq (phase d)) CqRing.spec_fresh.
Proof.
  intros s.
  destruct (init_eq fuel m rest now cap lba ns maxq adminID ioID a1 a2 a3) as (d & Hd & Hc & Hm & Hs & Hq & Hp).
  destruct (calls_executed c maxCQ maxSQ tick sqs cqs arb page last a1 a2 H1 H2 Hcq Hsq) as (s' & Hr & Hst & Ha & Hw & Hvs & Hvc).
  exists (le_bytes 8 CAP), d, s'. do 4 eexists. split; [reflexivity|]. split; [exact Hd|]. split; [by rewrite Hc|].
  split_and!; try eassumption; rewrite Hm.
  - apply submission_related, identify_length.
  - rewrite Hp. apply completion_related; [lia|lia|rewrite identify_length; lia|].
    apply (load_clear_over _ _ _ _ 4096), (load_clear _ _ _ _ 4096); lia.
Qed.
