(* ===== verification/ControllerWitness.v ===== *)
(** * Concrete runs of the controller

    A controller with an admin queue and queues of every priority, and runs of it
    that show each theorem about the controller at work. *)

From S2P Require Import Prelude Types Dma NvmeQueue Sil RingProof Controller CollectProof CollectTheorems CompletionTheorems QueueTheorems BringUp SqRing CqRing.

(** Rings of 8 entries, contiguous in the host memory. *)
Definition sq_ring (qid tail pri : Z) : option (Z * SQueue) :=
  Some (qid, mkSQueue (mkQueue qid 0 tail 8 64 (Some (contiguous (4096 * (qid + 1)) 512 4096))) 1 pri).
Definition cq_ring (qid : Z) (en : bool) : option CQueue :=
  Some (mkCQueue (mkQueue qid 0 0 8 16 (Some (contiguous (65536 * (qid + 1)) 128 4096))) en true 1).

Definition conf : Conf := mkConf 4 100 2 1 false.
(** A controller that is ready, with the queues given. *)
Definition example (arb : Z) (cqs : list (option CQueue)) (sqs : list (option (Z * SQueue))) (fifo : list SQEntryWrapper) : t :=
  set_lSQFIFO fifo (set_ppCQueue cqs (set_ppSQueue sqs (set_arbitration arb
    (set_registers (reg_status 1 RegisterTable_make) (Controller_make 2 3 10 64 16 arb 4096 0))))).

Lemma slots_all (P : Z * SQueue -> Prop) (s : t) :
  Forall (fun o => match o with Some p => P p | None => True end) (ppSQueue s) -> forall i p, slot s i = Some p -> P p.
Proof.
  intros H i p Hp%slot_Some. unfold vget in Hp. destruct (i <? 0); [done|]. exact (Forall_lookup_1 _ _ _ _ H Hp).
Qed.
Lemma cslots_all (P : CQueue -> Prop) (s : t) :
  Forall (fun o => match o with Some p => P p | None => True end) (ppCQueue s) -> forall i p, cslot s i = Some p -> P p.
Proof.
  intros H i p Hp%cslot_Some. unfold vget in Hp. destruct (i <? 0); [done|]. exact (Forall_lookup_1 _ _ _ _ H Hp).
Qed.

Lemma sq_ring_ok qid tail pri p : 0 <= qid < 16 -> 0 <= tail < 8 -> sq_ring qid tail pri = Some p -> sq_ok (squeue p.2).
Proof.
  intros Hq Ht [= <-]. split; [|by cbn]. constructor; cbn [snd squeue size head stride base]; [lia..|].
  exists (contiguous (4096 * (qid + 1)) 512 4096), (4096 * (qid + 1)). repeat split; lia.
Qed.
Lemma cq_ring_ok qid en q : 0 <= qid < 16 -> cq_ring qid en = Some q -> cq_ok (cqueue q).
Proof.
  intros Hq [= <-]. constructor; cbn [cqueue size tail stride base]; [lia..|].
  exists (contiguous (65536 * (qid + 1)) 128 4096), (65536 * (qid + 1)). repeat split; lia.
Qed.

(** A property of the first indices, one by one. *)
Ltac each_index i H :=
  let rec go n := lazymatch n with O => lia | S ?n => destruct (Z.eq_dec i (Z.of_nat n)) as [->|]; [vm_compute; (reflexivity || discriminate)|go n] end in
  go 4%nat.
Ltac one_ring := first [exact I | eapply sq_ring_ok; [| |reflexivity]; lia | eapply cq_ring_ok; [|reflexivity]; lia].

(** ** Collecting commands *)

Definition waiting (arb : Z) : t :=
  example arb [cq_ring 0 true; cq_ring 1 true; None] [sq_ring 0 1 0; sq_ring 1 2 2; None; sq_ring 3 3 3] [].

Lemma waiting_ok arb : queues_ok (waiting arb).
Proof.
  refine (slots_all (fun p => sq_ok (squeue p.2)) _ _). unfold waiting, example. cbn [ppSQueue set_lSQFIFO set_ppCQueue set_ppSQueue].
  repeat (apply Forall_cons_2; [one_ring|]). apply Forall_nil_2.
Qed.

Lemma round_robin_drains_witness : exists s', collectSQueue conf 3 (waiting ROUND_ROBIN) = Ok (tt, s') /\
  items_at s' 1 = 0 /\ items_at s' 3 = 0 /\
  ((fun x => (op_addr <$> tr_ops x, tr_func x)) <$> inflight (env s')) =
    [([4096], doRead 0 0 0 0); ([8192], doRead 1 1 0 0); ([16384], doRead 3 3 0 0);
     ([8192 + 64], doRead 1 1 1 0); ([16384 + 64], doRead 3 3 1 0); ([16384 + 128], doRead 3 3 2 0)].
Proof.
  destruct (round_robin_drains conf 3 3 (waiting ROUND_ROBIN)) as (s' & Hs & Hi & Hf & _).
  - apply waiting_ok.
  - vm_compute. discriminate.
  - reflexivity.
  - vm_compute. reflexivity.
  - intros i Hi. change (0 <= i < 4) in Hi. each_index i Hi.
  - lia.
  - exists s'. split; [exact Hs|]. split; [apply Hi; change (0 <= 1 < 4); lia|]. split; [apply Hi; change (0 <= 3 < 4); lia|].
    rewrite Hf. vm_compute. reflexivity.
Defined.

Lemma low_priority_starves_witness : exists s', collectSQueue conf 3 (waiting WEIGHTED_ROUND_ROBIN) = Ok (tt, s') /\
  items_at s' 0 = 0 /\ items_at s' 1 = 0 /\ items_at s' 3 = 3.
Proof.
  destruct (low_priority_starves conf 3 (waiting WEIGHTED_ROUND_ROBIN)) as (s' & Hs & Hi).
  - apply waiting_ok.
  - vm_compute. discriminate.
  - reflexivity.
  - change (1 <= 4 < 65536). lia.
  - by eexists.
  - intros i Hi. change (0 <= i < 4) in Hi. each_index i Hi.
  - vm_compute. discriminate.
  - exists s'. split; [exact Hs|].
    split; [exact (Hi 0 (0, mkSQueue (mkQueue 0 0 1 8 64 (Some (contiguous 4096 512 4096))) 1 0) (conj (Z.le_refl 0) eq_refl) eq_refl)|].
    split; [refine (Hi 1 (1, mkSQueue (mkQueue 1 0 2 8 64 (Some (contiguous 8192 512 4096))) 1 2) _ eq_refl); change (0 <= 1 < 4); lia|].
    assert (slot s' 3 = slot (waiting WEIGHTED_ROUND_ROBIN) 3) as E.
    { refine (Hi 3 (3, mkSQueue (mkQueue 3 0 3 8 64 (Some (contiguous 16384 512 4096))) 1 3) _ eq_refl). change (0 <= 3 < 4). lia. }
    unfold items_at. rewrite E. reflexivity.
Defined.

Lemma bad_tail_hangs_witness : (ringSQTailDoorbell 1 8;; collectSQueue conf 20) (waiting ROUND_ROBIN) = Err NoReturn.
Proof.
  apply (bad_tail_hangs conf 20 (waiting ROUND_ROBIN) 1 8 (1, mkSQueue (mkQueue 1 0 2 8 64 (Some (contiguous 8192 512 4096))) 1 2)).
  - apply waiting_ok.
  - vm_compute. discriminate.
  - reflexivity.
  - vm_compute. reflexivity.
  - reflexivity.
  - cbn. lia.
Defined.

(** ** Completions *)

Definition response (cid : Z) : CQEntryWrapper := mkCQEntryWrapper (mkCQEntry 0 0 0 1 cid 0) 0 1 1.
Definition answering : t := example ROUND_ROBIN [cq_ring 0 true; cq_ring 1 true; None] [sq_ring 0 0 0; sq_ring 1 0 2; None; None] [].

Lemma answering_ok i q : cslot answering i = Some q -> cq_ok (cqueue q).
Proof.
  revert i q. refine (cslots_all (fun q => cq_ok (cqueue q)) _ _). unfold answering, example.
  cbn [ppCQueue set_lSQFIFO set_ppCQueue set_ppSQueue]. repeat (apply Forall_cons_2; [one_ring|]). apply Forall_nil_2.
Qed.


(** Two responses on a queue whose vector is coalesced: the first is posted with an interrupt, the second 10 ticks
    later waits for the time set.  The transfers are answered and the functions of the CPU run; then the time is over. *)
Definition to_queue2 (cid : Z) : CQEntryWrapper := mkCQEntryWrapper (mkCQEntry 0 0 0 1 cid 0) 0 2 1.
Definition coalesced_run : M t unit :=
  createCQueue 2 8 1 true true 196608 0;; setCoalescingParameter 1 10;; setCoalescing 1 true;;
  submit (to_queue2 5);; completion;; pass 20;; submit (to_queue2 6);; completion;;
  answer 0 [];; answer 0 [];; run_job conf 0;; run_job conf 0;; pass 100000010.
Definition coalesced : t := match coalesced_run answering with Ok (_, s) => s | Err _ => answering end.

Lemma aggregated_interrupt_lost_witness :
  coalesced_run answering = Ok (tt, coalesced) /\ interrupts (env coalesced) = [(1, true)] /\
  completionEvent (env coalesced) = Some (now (env coalesced)) /\
  exists s', completion coalesced = Ok (tt, s') /\ interrupts (env s') = [(1, true)] /\ jobs (env s') = [] /\
    completionEvent (env s') = None.
Proof.
  split; [vm_compute; reflexivity|]. split; [vm_compute; reflexivity|]. split; [vm_compute; reflexivity|].
  destruct (aggregated_interrupt_lost coalesced 1 (mkAggregationInfo 100000010 1 true true))
    as (s' & Hs & _ & Hi & Hj & _ & He); [vm_compute; reflexivity..|].
  exists s'. split; [exact Hs|]. rewrite Hi, Hj, He. split; [vm_compute; reflexivity|]. split; [vm_compute; reflexivity|reflexivity].
Defined.

(** ** Queues *)

Definition queued (cid sqid : Z) : SQEntryWrapper :=
  mkSQEntryWrapper (mkSQEntry 2 0 cid 1 0 0 0 0 0 0 0 0 0) sqid 1 0 0 false.
(** Commands of queue 1, 1, 0, and 1: the second stays, the last makes the loop leave the list. *)
Definition deleting (l : list SQEntryWrapper) : t :=
  example ROUND_ROBIN [cq_ring 0 true; cq_ring 1 true; None] [sq_ring 0 0 0; sq_ring 1 0 2; None; None] l.

Lemma delete_squeue_skips_witness :
  (exists s', deleteSQueue 1 (deleting [queued 1 1; queued 2 1; queued 3 0]) = Ok (0, s') /\
     lSQFIFO s' = [queued 2 1; queued 3 0] /\ slot s' 1 = None) /\
  deleteSQueue 1 (deleting [queued 3 0; queued 4 1]) = Err UB.
Proof.
  assert (forall l, Forall (fun x => sqew_cqID x = 1) l -> Forall (fun x => is_Some (cslot (deleting l) (sqew_cqID x))) l) as Hcq.
  { intros l Hl. eapply Forall_impl; [exact Hl|]. intros x ->. by eexists. }
  assert (forall l, cq_inv (deleting l)) as Hinv by (intros l; split; [apply Forall_nil_2|done]).
  split.
  - destruct (delete_squeue_skips (deleting [queued 1 1; queued 2 1; queued 3 0]) 1
      (1, mkSQueue (mkQueue 1 0 0 8 64 (Some (contiguous 8192 512 4096))) 1 2) eq_refl eq_refl (Hinv _)) as [H _].
    + apply Hcq. by repeat constructor.
    + cbn in H. destruct H as (s' & Hs & Hk & Hn & _). by exists s'.
  - destruct (delete_squeue_skips (deleting [queued 3 0; queued 4 1]) 1
      (1, mkSQueue (mkQueue 1 0 0 8 64 (Some (contiguous 8192 512 4096))) 1 2) eq_refl eq_refl (Hinv _)) as [H _].
    + apply Hcq. by repeat constructor.
    + exact H.
Defined.

(** Two completion queues, and the fourth submission queue uses the second of them. *)
Definition in_use : t :=
  set_aggregationMap {[1 := mkAggregationInfo 0 0 false false]}
    (example ROUND_ROBIN [cq_ring 0 true; cq_ring 1 true] [None; None; None; sq_ring 3 0 2] []).

Lemma delete_cqueue_in_use_witness :
  exists s', deleteCQueue 1 in_use = Ok (0, s') /\ is_Some (slot s' 3) /\ cslot s' 1 = None /\
    submit (response 5) s' = Err (Panic "nvme_ctrl: Completion Queue not created!").
Proof.
  destruct (delete_cqueue_in_use in_use 1 3 (mkCQueue (mkQueue 1 0 0 8 16 (Some (contiguous 131072 128 4096))) true true 1)
    (3, mkSQueue (mkQueue 3 0 0 8 64 (Some (contiguous 16384 512 4096))) 1 2) (response 5)) as (s' & Hs & Hi & Hc & He);
    try reflexivity.
  - by vm_compute.
  - intros j p Hj Hp. change (1 <= j < 2) in Hj. assert (j = 1) as -> by lia. discriminate.
  - by eexists.
  - exists s'. split; [exact Hs|]. split; [rewrite Hi; by eexists|]. by split.
Defined.

Lemma coalescing_time_witness :
  (setCoalescingParameter 21 4;; getCoalescingParameter) answering
    = Ok ((21, 4), set_aggregationThreshold 4 (set_aggregationTime 2100000000 answering)) /\
  (setCoalescingParameter 22 4;; getCoalescingParameter) answering = Err UB.
Proof.
  split; [rewrite (coalescing_time answering 21 4) by lia; reflexivity | rewrite (coalescing_time answering 22 4) by lia; reflexivity].
Defined.

(** ** Bringing up *)

Lemma driver_brings_up_witness :
  exists d s', Sil.init 1 0x0020002028010FFF (Driver_make (fun _ => 255) [65536; 131072; 196608] 10 0 0 0 0 0 0) = Ok (tt, d) /\
    apply_calls conf (calls d) (Controller_make 2 3 10 64 16 0 4096 0) = Ok (tt, s') /\
    status (registers s') = 1 /\ workEvent (env s') = Some 110.
Proof.
  destruct (driver_brings_up conf 2 3 10 64 16 0 4096 0 1 (fun _ => 255) [] 10 0 0 0 0 0 0 65536 131072 196608)
    as (r & d & s' & dsq & dcq & hsq & hcq & Hr & Hd & Hc & Hst & _ & Hw & _); [lia..|].
  injection Hr as <-. exists d, s'. split; [exact Hd|]. split; [exact Hc|]. split; [exact Hst|]. exact Hw.
Defined.
