(* ===== verification/Identify.v ===== *)
(** * hil/nvme/controller.cc, subsystem.cc: the identify data

    [Controller::identify] and [Subsystem::fillIdentifyNamespace] fill a page of
    4096 bytes for the host.  A store of the code is a pair of the offset and the
    bytes; the stores are done in the order they are written. *)

From Stdlib Require Import Ascii.
From S2P Require Import Prelude Types NvmeQueue Subsystem.

(** ** Stores into a buffer *)

(** Outside of the buffer a store is undefined. *)
Definition store (p : Z * list Z) (buffer : list Z) : res (list Z) :=
  let '(offset, bytes) := p in
  if (0 <=? offset) && (offset + vlen bytes <=? vlen buffer) then
    Ok (take (Z.to_nat offset) buffer ++ bytes ++ drop (Z.to_nat offset + length bytes) buffer)
  else Err UB.
Definition zeros (n : Z) : list Z := replicate (Z.to_nat n) 0.
Definition chars (s : string) : list Z := (fun c => Z.of_nat (nat_of_ascii c)) <$> String.list_ascii_of_string s.
(** [strncpy]: the rest is filled with zeros. *)
Definition strncpy (s : string) (n : Z) : list Z := take (Z.to_nat n) (chars s ++ zeros n).

(** ** The controller *)

(** What of the configuration, and of the interface above the controller, goes into the data. *)
Record IdentifyConf : Type := mkIdentifyConf { vid : Z; ssvid : Z; ocssd : bool; writeCache : bool }.

Definition capabilities (c : IdentifyConf) : list (Z * list Z) :=
  [(0x0000, le_bytes 2 (vid c));
   (0x0002, le_bytes 2 (ssvid c));
   (0x0004, chars "00000000000000000000");
   (0x0018, chars (if ocssd c then "SimpleSSD OCSSD Controller by CAMELab   "
                   else "SimpleSSD NVMe Controller by CAMELab    "));
   (0x0040, chars "02.01.03");
   (0x0048, [0]); (0x0049, [0; 0; 0]); (0x004C, [0]); (0x004D, [0]); (0x004E, [0; 0]);
   (0x0050, [1; 4; 0; 0]);
   (0x0054, [0; 0; 0; 0]); (0x0058, [0; 0; 0; 0]); (0x005C, [0; 0; 0; 0]); (0x0060, [0; 0; 0; 0]);
   (0x0064, [0; 0]); (0x0066, zeros 9);
   (0x006F, [1]);
   (0x0070, zeros 16); (0x0080, [0; 0]); (0x0082, [0; 0]); (0x0084, [0; 0]);
   (0x0086, zeros 106); (0x00F0, zeros 16)].

(** [total] and [unallocated] are the numbers of bytes; both go to 0x118. *)
Definition attributes (c : IdentifyConf) (total unallocated : Z) : list (Z * list Z) :=
  [(0x0100, [if ocssd c then 0x00 else 0x0A]); (0x0101, [0]);
   (0x0102, [3]); (0x0103, [3]);
   (0x0104, [0]); (0x0105, [1]); (0x0106, [0x63]); (0x0107, [0]); (0x0108, [0]); (0x0109, [0]);
   (0x010A, [0; 0]); (0x010C, [0; 0]); (0x010E, [0; 0]);
   (0x0110, [0; 0; 0; 0]); (0x0114, [0; 0; 0; 0]);
   (0x0118, le_bytes 8 total); (0x0120, zeros 8);
   (0x0118, le_bytes 8 unallocated); (0x0120, zeros 8);
   (0x0138, [0; 0; 0; 0]); (0x013C, [0; 0]); (0x013E, [0])].
Definition more_attributes : list (Z * list Z) :=
  [(0x013F, [0]); (0x0140, [0; 0]); (0x0142, [0; 0]); (0x0144, [0; 0]); (0x0146, [0; 0]);
   (0x0148, [0; 0; 0; 0]); (0x014C, [0; 0; 0; 0]); (0x0150, [0; 0]); (0x0152, [0; 0]); (0x0154, [0; 0]);
   (0x0156, [0]); (0x0157, [0]); (0x0158, [0; 0; 0; 0]); (0x015C, [0; 0; 0; 0]); (0x0160, [0; 0; 0; 0]);
   (0x0164, zeros 156)].

Definition command_set (c : IdentifyConf) : list (Z * list Z) :=
  [(0x0200, [0x66]); (0x0201, [0x44]);
   (0x0202, [0; 0]);
   (0x0204, le_bytes 4 1024);
   (0x0208, [0x05]); (0x0209, [0]);
   (0x020A, [0; 0]); (0x020C, [0]);
   (0x020D, [Z.lor (if writeCache c then 1 else 0) 6]);
   (0x020E, [0; 0]); (0x0210, [0; 0]); (0x0212, [0]); (0x0213, [0]); (0x0214, [0; 0]); (0x0216, zeros 2);
   (0x0218, [0x01; 0x00; 0x17; 0x00]);
   (0x021C, le_bytes 4 0);
   (0x0220, zeros 224);
   (0x0300, zeros 0x100);
   (0x0300, strncpy "nqn.2014-08.org.nvmexpress:uuid:270a1c70-962c-4116-6f1e340b9321" 0x44);
   (0x0400, zeros 768); (0x0700, zeros 256)].

Definition power_states : list (Z * list Z) :=
  [(0x0800, [0xC4; 0x09]); (0x0802, [0]); (0x0803, [0]); (0x0804, [0; 0; 0; 0]); (0x0808, [0; 0; 0; 0]);
   (0x080C, [0]); (0x080D, [0]); (0x080E, [0]); (0x080E, [0]); (0x080F, [0; 0]); (0x0811, [0]); (0x0812, [0]);
   (0x0813, [0; 0]); (0x0815, [0]); (0x0816, zeros 9);
   (0x0820, zeros 992); (0x0C00, zeros 1024)].

(** [Controller::identify]; [capacity] is what [getNVMCapacity] gives. *)
Definition identify (c : IdentifyConf) (capacity : Z * Z) (data : list Z) : res (list Z) :=
  let '(totalSize, unallocated) := capacity in
  let unallocated := u64 (totalSize - unallocated) in
  foldM store (capabilities c ++ attributes c totalSize unallocated ++ more_attributes ++ command_set c ++ power_states) data.

(** ** A namespace *)

Definition lbaFormat : list Z := [0x02090000; 0x020A0000; 0x010B0000; 0x000C0000].

(** [used] is [HIL::getUsedPageCount]. *)
Definition utilization_of (L : Z) (used : Z -> Z -> res Z) (i : Information) : res Z :=
  let r := range i in
  n ← used (slpn r) (u64 (slpn r + nlp r));
  if lbaSize i =? 0 then Err UB else Ok (u64 (n * L) / lbaSize i).
Definition set_utilization (n : Z) (i : Information) : Information :=
  mkInformation (Subsystem.size i) (capacity i) n (sizeInByteL i) (sizeInByteH i) (lbaFormatIndex i)
    (dataProtectionSettings i) (namespaceSharingCapabilities i) (lbaSize i) (range i).

(** [fillIdentifyNamespace]: the buffer, and [*info] with its utilization. *)
Definition fillIdentifyNamespace (L : Z) (used : Z -> Z -> res Z) (i : Information) (buffer : list Z) :
    res (list Z * Information) :=
  n ← utilization_of L used i;
  let i := set_utilization n i in
  buffer ← foldM store
    ([(0, le_bytes 8 (Subsystem.size i)); (8, le_bytes 8 (capacity i)); (16, le_bytes 8 (utilization i));
      (24, [4]); (25, [nLBAFormat - 1]); (26, [lbaFormatIndex i]); (28, [dataProtectionSettings i]);
      (30, [namespaceSharingCapabilities i]); (48, le_bytes 8 (sizeInByteL i)); (56, le_bytes 8 (sizeInByteH i))]
     ++ imap (fun k f => (128 + Z.of_nat k * 4, le_bytes 4 f)) lbaFormat) buffer;
  Ok (buffer, i).
