(* ===== verification/Command.v ===== *)
(** * hil/nvme/subsystem.cc, namespace.cc: the commands

    [Subsystem.submitCommand] executes the admin commands and hands a command for
    a namespace to it; [Namespace.submitCommand] executes it.  A command that
    waits, for a data pointer, a transfer, the CPU or the layer below, keeps its
    state in a context; what it waits for is a [Task], and the operations
    [run_task] makes of it, one at a time and in any order, are the functions the
    code passes along.

    The contexts live in [objects]; an address whose object is deleted is [None]
    and its use is undefined, as is the use of a deleted namespace.  The function
    of a request is the address of its context.  Answers are the calls of the
    function a command came with, the controller's [submit].  The disk image is
    switched off. *)

From S2P Require Import Prelude Bitset Float32 Types PmState Icl Dma Hil Subsystem NvmeQueue Controller Identify.

(** ** What the commands use of the controller *)

Class CommandController (C : Type) : Type := {
  ctl_createCQueue : Z -> Z -> Z -> bool -> bool -> Z -> Z -> M C Z;
  ctl_createSQueue : Z -> Z -> Z -> Z -> bool -> Z -> Z -> M C Z;
  ctl_deleteCQueue : Z -> M C Z;
  ctl_deleteSQueue : Z -> M C Z;
  ctl_abort : Z -> Z -> M C Z;
  ctl_setCoalescingParameter : Z -> Z -> M C unit;
  ctl_getCoalescingParameter : M C (Z * Z);
  ctl_setCoalescing : Z -> bool -> M C unit;
  ctl_getCoalescing : Z -> M C bool;
}.

#[export] Instance controller_commands : CommandController Controller.t := {
  ctl_createCQueue := Controller.createCQueue;
  ctl_createSQueue := Controller.createSQueue;
  ctl_deleteCQueue := Controller.deleteCQueue;
  ctl_deleteSQueue := Controller.deleteSQueue;
  ctl_abort := Controller.abort;
  ctl_setCoalescingParameter := Controller.setCoalescingParameter;
  ctl_getCoalescingParameter := Controller.getCoalescingParameter;
  ctl_setCoalescing := Controller.setCoalescing;
  ctl_getCoalescing := Controller.getCoalescing;
}.

(** ** Status codes *)

Definition TYPE_GENERIC_COMMAND_STATUS : Z := 0.
Definition TYPE_COMMAND_SPECIFIC_STATUS : Z := 1.
Definition INVALID_OPCODE : Z := 0x01.
Definition INVALID_FIELD : Z := 0x02.
Definition ABORT_INVALID_NAMESPACE : Z := 0x0B.
Definition ABORT_INVALID_FORMAT : Z := 0x0B.
Definition FORMAT_IN_PROGRESS : Z := 0x84.
Definition INVALID_COMPLETION_QUEUE : Z := 0x00.
Definition INVALID_QUEUE_ID : Z := 0x01.
Definition INVALID_QUEUE_SIZE : Z := 0x02.
Definition INVALID_LOG_PAGE : Z := 0x09.
Definition INVALID_FORMAT : Z := 0x0A.
Definition INVALID_QUEUE_DELETE : Z := 0x0C.
Definition FEATURE_ID_NOT_SAVEABLE : Z := 0x0D.
Definition NAMESPACE_INSUFFICIENT_CAPACITY : Z := 0x15.
Definition NAMESPACE_ID_UNAVAILABLE : Z := 0x16.
Definition NAMESPACE_ALREADY_ATTACHED : Z := 0x18.
Definition NAMESPACE_IS_PRIVATE : Z := 0x19.
Definition NAMESPACE_NOT_ATTACHED : Z := 0x1A.
Definition CONTROLLER_LIST_INVALID : Z := 0x1C.

Definition generic (dnr : bool) (sc : Z) : CQEntryWrapper -> CQEntryWrapper := makeStatus dnr false TYPE_GENERIC_COMMAND_STATUS sc.
Definition specific (dnr : bool) (sc : Z) : CQEntryWrapper -> CQEntryWrapper := makeStatus dnr false TYPE_COMMAND_SPECIFIC_STATUS sc.
(** [resp.entry.dword0 = v] *)
Definition set_dword0 (v : Z) (w : CQEntryWrapper) : CQEntryWrapper :=
  let e := cqew_entry w in set_entry (mkCQEntry v (dword1 e) (sqHead e) (NvmeQueue.sqID e) (commandID e) (NvmeQueue.status e)) w.

(** ** Contexts and tasks *)

(** The object a function belongs to: the subsystem, or the namespace at an address, which
    may have been deleted since. *)
Inductive Self : Type := theSubsystem | theNamespace (address : Z) | deletedNamespace.
#[export] Instance Self_eq_dec : EqDecision Self.
Proof. solve_decision. Defined.

(** The data pointer of a command, from which its DMA object is made. *)
Record DataPointer : Type := mkDataPointer { sgl : bool; dptr1 : Z; dptr2 : Z; dsize : Z }.

(** The command a context belongs to, with the members only its context has. *)
Inductive Kind : Type :=
  | FlushContext | WriteContext | ReadContext | CompareContext | TrimContext
  | LogContext (offset : Z)
  | IdentifyContext (buffer : list Z)
  | ManagementContext (nsid : Z)
  | AttachmentContext
  | QueueContext
  | FormatContext.

(** [RequestContext], [IOContext] *)
Record IOContext : Type := mkIOContext {
  kind : Kind; self : Self; resp : CQEntryWrapper; dma : option DataPointer;
  beginAt : Z; slba : Z; nlb : Z; tick : Z;
}.
Definition set_begin (b t : Z) (x : IOContext) : IOContext :=
  mkIOContext (kind x) (self x) (resp x) (dma x) b (slba x) (nlb x) t.
Definition set_self (v : Self) (x : IOContext) : IOContext :=
  mkIOContext (kind x) v (resp x) (dma x) (beginAt x) (slba x) (nlb x) (tick x).

(** A context, or the [DMAContext] that counts the ranges of a trim. *)
Inductive Object : Type :=
  | Ctx (x : IOContext)
  | Trims (counter : Z) (context : nat).

(** What the commands wait for: the CPU runs [doSubmit] or the job of a context, the data
    pointer of a context is read, 512 or more bytes are written to the host or read from it,
    the request of [convertUnit] waits for the CPU, a request is in the layer below, a
    queue has been created. *)
Inductive Task : Type :=
  | TSubmit (ns : Self) (req : SQEntryWrapper)
  | TSubmitFront (req : SQEntryWrapper)
  | TInit (c : nat)
  | TJob (c : nat)
  | TWrite (offset size : Z) (c : nat)
  | TRead (offset size : Z) (c : nat)
  | TConvert (op : HilOp) (r : HilRequest)
  | THil (op : HilOp) (r : HilRequest)
  | TCreated (c : nat).

(** What is around the commands when a function runs: the tick, the page count of the layer
    below, the bytes the host has at a data pointer, and what a local variable holds. *)
Record World : Type := mkWorld {
  getTick : Z;
  getUsedPageCount : Z -> Z -> res Z;
  hostData : DataPointer -> Z -> Z -> list Z;
  uninit : Information;
}.

(** The configuration. *)
Record Conf : Type := mkConf {
  identifyConf : IdentifyConf; maxQueueEntry : Z;
  maxCQueue : Z; maxSQueue : Z; wrrHigh : Z; wrrMedium : Z;
}.

(** [Subsystem], with the controller, the objects and tasks, the requests handed to the
    layer below and the answers. *)
Record t (C : Type) : Type := mk {
  subsystem : Subsystem.t;
  controller : C;
  queueAllocated : Z;
  commandCount : Z;
  objects : list (option Object);
  tasks : list Task;
  handed : list (HilOp * HilRequest);
  answered : list CQEntryWrapper;
}.
Arguments mk {C}. Arguments subsystem {C}. Arguments controller {C}. Arguments queueAllocated {C}.
Arguments commandCount {C}. Arguments objects {C}. Arguments tasks {C}. Arguments handed {C}. Arguments answered {C}.

Section Commands.
  Context {C : Type} `{CommandController C} (cfg : Conf).
  Implicit Types (req : SQEntryWrapper) (x : IOContext) (w : World).

Definition set_subsystem (v : Subsystem.t) (s : t C) : t C :=
  mk v (controller s) (queueAllocated s) (commandCount s) (objects s) (tasks s) (handed s) (answered s).
Definition set_controller (v : C) (s : t C) : t C :=
  mk (subsystem s) v (queueAllocated s) (commandCount s) (objects s) (tasks s) (handed s) (answered s).
Definition set_queueAllocated (v : Z) (s : t C) : t C :=
  mk (subsystem s) (controller s) v (commandCount s) (objects s) (tasks s) (handed s) (answered s).
Definition set_commandCount (v : Z) (s : t C) : t C :=
  mk (subsystem s) (controller s) (queueAllocated s) v (objects s) (tasks s) (handed s) (answered s).
Definition set_objects (v : list (option Object)) (s : t C) : t C :=
  mk (subsystem s) (controller s) (queueAllocated s) (commandCount s) v (tasks s) (handed s) (answered s).
Definition set_tasks (v : list Task) (s : t C) : t C :=
  mk (subsystem s) (controller s) (queueAllocated s) (commandCount s) (objects s) v (handed s) (answered s).
Definition set_handed (v : list (HilOp * HilRequest)) (s : t C) : t C :=
  mk (subsystem s) (controller s) (queueAllocated s) (commandCount s) (objects s) (tasks s) v (answered s).
Definition set_answered (v : list CQEntryWrapper) (s : t C) : t C :=
  mk (subsystem s) (controller s) (queueAllocated s) (commandCount s) (objects s) (tasks s) (handed s) v.

(** ** Objects, tasks, answers *)

Definition push (k : Task) : M (t C) unit := modify (fun s => set_tasks (tasks s ++ [k]) s).
Definition answer (r : CQEntryWrapper) : M (t C) unit := modify (fun s => set_answered (answered s ++ [r]) s).
Definition new_object (o : Object) : M (t C) nat :=
  n ← gets (fun s => length (objects s)); modify (fun s => set_objects (objects s ++ [Some o]) s);; mret n.
Definition deref {A} (o : option A) : M (t C) A := match o with Some a => mret a | None => fail UB end.
Definition the_object (i : nat) : M (t C) Object := l ← gets objects; deref (mjoin (l !! i)).
Definition put_object (i : nat) (o : option Object) : M (t C) unit := modify (fun s => set_objects (<[i := o]> (objects s)) s).
Definition the_context (i : nat) : M (t C) IOContext :=
  o ← the_object i; match o with Ctx x => mret x | Trims _ _ => fail UB end.
Definition on_controller {A} (m : M C A) : M (t C) A := zoom controller set_controller m.

(** The namespace a function belongs to. *)
Definition find_address (a : Z) (l : list Namespace) : option Namespace := List.find (fun ns => Z.eqb (address ns) a) l.
Definition the_namespace (v : Self) : M (t C) Namespace :=
  s ← get;
  match v with
  | theNamespace a => deref (find_address a (lNamespaces (subsystem s)))
  | _ => fail UB
  end.

(** A namespace is deleted: the pointers to it are no longer valid. *)
Definition forget_self (a : Z) (v : Self) : Self := if decide (v = theNamespace a) then deletedNamespace else v.
Definition forget_object (a : Z) (o : Object) : Object :=
  match o with Ctx x => Ctx (set_self (forget_self a (self x)) x) | o => o end.
Definition forget_task (a : Z) (k : Task) : Task :=
  match k with TSubmit v req => TSubmit (forget_self a v) req | k => k end.
Definition forget (a : Z) : M (t C) unit :=
  modify (fun s => set_objects (fmap (M := option) (forget_object a) <$> objects s) (set_tasks (forget_task a <$> tasks s) s)).

(** A command that is answered and whose context is deleted. *)
Definition finish (c : nat) (x : IOContext) : M (t C) unit := answer (resp x);; put_object c None.

(** ** Fields of a command *)

Definition entry_slba (e : SQEntry) : Z := Z.lor (Z.shiftl (dword11 e) 32) (dword10 e).
(** [uint16_t nlb] *)
Definition entry_nlb (e : SQEntry) : Z := u16 (Z.land (dword12 e) 0xFFFF + 1).
Definition entry_ranges (e : SQEntry) : Z := Z.land (dword10 e) 0xFF + 1.
Definition low16 (x : Z) : Z := Z.land x 0xFFFF.
Definition high16 (x : Z) : Z := Z.shiftr (Z.land x 0xFFFF0000) 16.
Definition pointer (req : SQEntryWrapper) (size : Z) : DataPointer :=
  mkDataPointer (useSGL req) (data1 (sqew_entry req)) (data2 (sqew_entry req)) (if useSGL req then 0 else u64 size).
Definition log_size (e : SQEntry) : Z :=
  u32 (u32 (Z.lor (u32 (Z.shiftl (low16 (dword11 e)) 16)) (high16 (dword10 e)) + 1) * 4).
Definition log_offset (e : SQEntry) : Z := Z.lor (Z.shiftl (dword13 e) 32) (dword12 e).

(** ** namespace.cc *)

Definition this (ns : Namespace) : Self := theNamespace (address ns).

Definition LOG_ERROR_INFORMATION : Z := 1.
Definition LOG_SMART_HEALTH_INFORMATION : Z := 2.
Definition LOG_FIRMWARE_SLOT_INFORMATION : Z := 3.

(** A log page of 512 bytes is to be written when the data pointer has been read. *)
Definition start_log (v : Self) (req : SQEntryWrapper) (r : CQEntryWrapper) : M (t C) unit :=
  c ← new_object (Ctx (mkIOContext (LogContext (log_offset (sqew_entry req))) v r
                         (Some (pointer req (log_size (sqew_entry req)))) 0 0 0 0));
  push (TInit c).

Definition ns_getLogPage (ns : Namespace) req : M (t C) unit :=
  let r := CQEntryWrapper_make req in
  if low16 (dword10 (sqew_entry req)) =? LOG_SMART_HEALTH_INFORMATION then
    if namespaceID (sqew_entry req) =? nsid ns then start_log (this ns) req r
    else answer (specific true NAMESPACE_NOT_ATTACHED r)
  else answer (specific true INVALID_LOG_PAGE r).

Definition ns_flush w (ns : Namespace) req : M (t C) unit :=
  let r := CQEntryWrapper_make req in
  if negb (attached ns) then answer (specific true NAMESPACE_NOT_ATTACHED r)
  else
    c ← new_object (Ctx (mkIOContext FlushContext (this ns) r None (getTick w) 0 0 0));
    push (TJob c).

(** What [write], [read] and [compare] do before their job: [k] tells which. *)
Definition start_transfer w (k : Kind) (ns : Namespace) req : M (t C) unit :=
  let r := CQEntryWrapper_make req in
  let e := sqew_entry req in
  let nlb := entry_nlb e in
  let r := if attached ns then r else specific true NAMESPACE_NOT_ATTACHED r in
  if negb (attached ns) || (nlb =? 0) then answer r
  else
    c ← new_object (Ctx (mkIOContext k (this ns) r (Some (pointer req (nlb * lbaSize (info ns))))
                           (getTick w) (entry_slba e) nlb 0));
    push (TInit c).
Definition ns_write w := start_transfer w WriteContext.
Definition ns_read w := start_transfer w ReadContext.
Definition ns_compare w := start_transfer w CompareContext.

Definition datasetManagement w (ns : Namespace) req : M (t C) unit :=
  let r := CQEntryWrapper_make req in
  let e := sqew_entry req in
  let nr := entry_ranges e in
  let ad := negb (Z.land (dword11 e) 4 =? 0) in
  let r := if attached ns then r else specific true NAMESPACE_NOT_ATTACHED r in
  if negb (attached ns) || negb ad then answer r
  else
    c ← new_object (Ctx (mkIOContext TrimContext (this ns) r (Some (pointer req (nr * 0x10))) (getTick w) nr 0 0));
    push (TInit c).

(** [Namespace::submitCommand] *)
Definition ns_submitCommand w (ns : Namespace) req : M (t C) unit :=
  let r := CQEntryWrapper_make req in
  let op := opcode (sqew_entry req) in
  if getTick w <? formatFinishedAt ns then answer (generic false FORMAT_IN_PROGRESS r)
  else if sqew_sqID req =? 0 then
    if op =? 0x02 then ns_getLogPage ns req else answer (generic true INVALID_OPCODE r)
  else if op =? 0x00 then ns_flush w ns req
  else if op =? 0x01 then ns_write w ns req
  else if op =? 0x02 then ns_read w ns req
  else if op =? 0x05 then ns_compare w ns req
  else if op =? 0x09 then datasetManagement w ns req
  else answer (generic true INVALID_OPCODE r).

(** ** The functions a command waits with *)

(** [Subsystem::read], [write] and [trim]: the request waits for the CPU. *)
Definition convert (op : HilOp) (ns : Namespace) (slba nlblk : Z) (f : nat) : M (t C) unit :=
  s ← get; r ← lift (command (subsystem s) ns slba nlblk (Z.of_nat f)); push (TConvert op r).
(** A call of the layer below. *)
Definition hand (op : HilOp) (r : HilRequest) : M (t C) unit :=
  modify (fun s => set_handed (handed s ++ [(op, r)]) s);; push (THil op r).

(** [doRead] of [write], [read] and [compare], [begin] of [flush], [doTrim]. *)
Definition run_job w (c : nat) (x : IOContext) : M (t C) unit :=
  ns ← the_namespace (self x);
  let bytes := u64 (nlb x * lbaSize (info ns)) in
  let begun := put_object c (Some (Ctx (set_begin 0 (getTick w) x))) in
  match kind x with
  | FlushContext => s ← get; hand HilFlush (flush_command (subsystem s) ns (Z.of_nat c))
  | WriteContext => begun;; push (TRead 0 bytes c);; convert HilWrite ns (slba x) (nlb x) c
  | ReadContext => begun;; convert HilRead ns (slba x) (nlb x) c;; push (TWrite 0 bytes c)
  | CompareContext => begun;; convert HilRead ns (slba x) (nlb x) c;; push (TRead 0 bytes c)
  | TrimContext => push (TRead 0 (u64 (slba x * 0x10)) c)
  | _ => fail UB
  end.

(** The data pointer has been read: [cpuHandler], [smartInfo], [doWrite] or [doRead]. *)
Definition run_init (c : nat) (x : IOContext) : M (t C) unit :=
  match kind x with
  | WriteContext | ReadContext | CompareContext | TrimContext => push (TJob c)
  | LogContext offset =>
      (if decide (self x = theSubsystem) then mret tt else ns ← the_namespace (self x); mret tt);;
      push (TWrite offset 512 c)
  | IdentifyContext _ => push (TWrite 0 0x1000 c)
  | ManagementContext _ | AttachmentContext => push (TRead 0 0x1000 c)
  | _ => fail UB
  end.

(** [dmaDone] of [write], [read] and [compare]: the second call ends the command. *)
Definition half_done (c : nat) (x : IOContext) : M (t C) unit :=
  let x := set_begin (u64 (beginAt x + 1)) (tick x) x in
  if beginAt x =? 2 then the_namespace (self x) ≫= fun _ => finish c x
  else put_object c (Some (Ctx x)).

(** [dmaDone] of a trim: one request for each range of the host's list. *)
Definition trim_range (ns : Namespace) (data : list Z) (d : nat) (i : Z) : M (t C) unit :=
  let range := drop (Z.to_nat (i * 0x10)) data in
  o ← the_object d;
  match o with
  | Trims n c => put_object d (Some (Trims (n + 1) c))
  | Ctx _ => fail UB
  end;;
  convert HilTrim ns (field range 8 8) (field range 4 4) d.

(** [eachTrimDone]: the counting context is deleted by every call. *)
Definition eachTrimDone (d : nat) : M (t C) unit :=
  o ← the_object d;
  match o with
  | Trims n c =>
      (if n - 1 =? 0 then
         x ← the_context c;
         ns ← the_namespace (self x);
         finish c x
       else mret tt);;
      put_object d None
  | Ctx _ => fail UB
  end.

Definition trims (c : nat) (x : IOContext) (data : list Z) : M (t C) unit :=
  d ← new_object (Trims 0 c);
  ns ← the_namespace (self x);
  for_do 0 (slba x) (trim_range ns data d);;
  o ← the_object d;
  match o with
  | Trims n _ => when (n =? 0) (put_object d (Some (Trims 1 c));; eachTrimDone d)
  | Ctx _ => fail UB
  end.

(** *** Namespace management *)

(** The end of a creation. *)
Definition management_response (id : Z) (st : Status) (r : CQEntryWrapper) : CQEntryWrapper :=
  match st with
  | STATUS_SUCCESS d => set_dword0 d r
  | STATUS_ABORT_INVALID_FORMAT => set_dword0 id (generic false ABORT_INVALID_FORMAT r)
  | STATUS_INVALID_FIELD => set_dword0 id (generic false INVALID_FIELD r)
  | STATUS_NAMESPACE_INSUFFICIENT_CAPACITY => specific false NAMESPACE_INSUFFICIENT_CAPACITY r
  | STATUS_ABORT_INVALID_NAMESPACE => generic false ABORT_INVALID_NAMESPACE r
  | STATUS_NAMESPACE_ID_UNAVAILABLE => specific false NAMESPACE_ID_UNAVAILABLE r
  end.
Definition information_of (u : Information) (data : list Z) : Information :=
  mkInformation (field data 0 8) (field data 8 8) (utilization u) (sizeInByteL u) (sizeInByteH u)
    (field data 26 1) (field data 29 1) (field data 30 1) (lbaSize u) (range u).
Definition managed w (id : Z) (c : nat) (x : IOContext) (data : list Z) : M (t C) unit :=
  s ← get;
  '(st, sub) ← lift (create_done id (information_of (uninit w) data) (subsystem s));
  modify (set_subsystem sub);;
  answer (management_response id st (resp x));; put_object c None.

(** The loop over the namespaces of an attachment: all with the number are attached or
    detached; the error, and whether one was found. *)
Definition attach_one (id : Z) (on : bool) (ns : Namespace) (st : list Namespace * bool * CQEntryWrapper) :
    list Namespace * bool * CQEntryWrapper :=
  let '(l, found, r) := st in
  if nsid ns =? id then
    if Bool.eqb (attached ns) on then
      (l ++ [ns], true, specific true (if on then NAMESPACE_ALREADY_ATTACHED else NAMESPACE_NOT_ATTACHED) r)
    else (l ++ [attach on ns], true, r)
  else (l ++ [ns], found, r).
Definition attach_all (id : Z) (on : bool) (l : list Namespace) (r : CQEntryWrapper) : list Namespace * bool * CQEntryWrapper :=
  fold_left (fun st ns => attach_one id on ns st) l ([], false, r).

(** The identifiers behind the number of them; the buffer has room for 2047. *)
Definition controller_list (data : list Z) : res (list Z) :=
  let n := field data 0 2 in
  if 2048 <=? n then Err UB else Ok ((fun i => field data (Z.to_nat (2 * i)) 2) <$> seqZ 1 n).

Definition set_namespaces (l : list Namespace) (s : Subsystem.t) : Subsystem.t :=
  Subsystem.mk l (sub_icl s) (allocatedLogicalPages s).

(** [dmaDone] of the attachment; the context keeps the operation and the number. *)
Definition attachment_done (c : nat) (x : IOContext) (data : list Z) : M (t C) unit :=
  let sel := u8 (slba x) in
  let id := u32 (nlb x) in
  s ← get;
  list ← lift (controller_list data);
  let l := lNamespaces (subsystem s) in
  let '(l, r) :=
    match list with
    | [] => (l, specific false CONTROLLER_LIST_INVALID (resp x))
    | first :: _ =>
        if (1 <? vlen list) && (sel =? 0) then (l, specific false NAMESPACE_IS_PRIVATE (resp x))
        else if negb (first =? 0) then (l, specific false CONTROLLER_LIST_INVALID (resp x))
        else if sel =? 0 then
          let '(l, found, r) := attach_all id true l (resp x) in
          (l, if found : bool then r else generic true ABORT_INVALID_NAMESPACE r)
        else if sel =? 1 then let '(l, _, r) := attach_all id false l (resp x) in (l, r)
        else (l, generic false INVALID_FIELD (resp x))
    end in
  modify (set_subsystem (set_namespaces l (subsystem s)));;
  answer r;; put_object c None.

(** A transfer has ended; [data] are the bytes that were read. *)
Definition transferred w (c : nat) (data : list Z) : M (t C) unit :=
  x ← the_context c;
  match kind x with
  | WriteContext | ReadContext | CompareContext => half_done c x
  | TrimContext => trims c x data
  | LogContext _ | IdentifyContext _ => finish c x
  | ManagementContext id => managed w id c x data
  | AttachmentContext => attachment_done c x data
  | _ => fail UB
  end.

(** The layer below calls the function of a request. *)
Definition called_back (f : nat) : M (t C) unit :=
  o ← the_object f;
  match o with
  | Trims _ _ => eachTrimDone f
  | Ctx x =>
      match kind x with
      | FlushContext => ns ← the_namespace (self x); finish f x
      | WriteContext | ReadContext | CompareContext => half_done f x
      | FormatContext => finish f x
      | _ => fail UB
      end
  end.

(** A pointer of the data, when the bytes are read. *)
Definition host_bytes w (c : nat) (offset size : Z) : M (t C) (list Z) :=
  x ← the_context c; d ← deref (dma x); mret (hostData w d offset size).

(** The function of a task. *)
Definition run_function w (k : Task) : M (t C) unit :=
  match k with
  | TSubmit v req => ns ← the_namespace v; ns_submitCommand w ns req
  | TSubmitFront req => s ← get; ns ← deref (hd_error (lNamespaces (subsystem s))); ns_submitCommand w ns req
  | TInit c => x ← the_context c; run_init c x
  | TJob c => x ← the_context c; run_job w c x
  | TWrite _ _ c => transferred w c []
  | TRead offset size c => data ← host_bytes w c offset size; transferred w c data
  | TConvert op r => hand op r
  | THil op r => called_back (Z.to_nat (hil_function r))
  | TCreated c => x ← the_context c; finish c x
  end.

(** One of the tasks is done and its function is called. *)
Definition run_task w (i : nat) : M (t C) unit :=
  l ← gets tasks;
  k ← deref (l !! i);
  modify (fun s => set_tasks (take_nth i (tasks s)) s);;
  run_function w k.

(** The label a task has for the CPU, when it is the CPU it waits for. *)
Definition task_label (k : Task) (l : list (option Object)) : option (NAMESPACE * FUNCTION) :=
  match k with
  | TSubmit _ _ | TSubmitFront _ => Some (NVME__NAMESPACE, SUBMIT_COMMAND)
  | TJob c =>
      match mjoin (l !! c) with
      | Some (Ctx x) =>
          match kind x with
          | FlushContext => Some (NVME__NAMESPACE, FLUSH)
          | WriteContext => Some (NVME__NAMESPACE, WRITE)
          | ReadContext | CompareContext => Some (NVME__NAMESPACE, READ)
          | TrimContext => Some (NVME__NAMESPACE, DATASET_MANAGEMENT)
          | _ => None
          end
      | _ => None
      end
  | TConvert (HilFormat _) _ => Some (NVME__SUBSYSTEM, FORMAT_NVM)
  | TConvert _ _ => Some (NVME__SUBSYSTEM, CONVERT_UNIT)
  | _ => None
  end.

(** ** subsystem.cc: admin commands

    Each tells whether the command has been processed. *)

Definition deleteSQueue req : M (t C) bool :=
  let r := CQEntryWrapper_make req in
  ret ← on_controller (ctl_deleteSQueue (low16 (dword10 (sqew_entry req))));
  answer (if ret =? 1 then specific false INVALID_QUEUE_ID r else r);; mret true.

Definition deleteCQueue req : M (t C) bool :=
  let r := CQEntryWrapper_make req in
  ret ← on_controller (ctl_deleteCQueue (low16 (dword10 (sqew_entry req))));
  answer (if ret =? 1 then specific false INVALID_QUEUE_ID r
          else if ret =? 2 then specific false INVALID_QUEUE_DELETE r else r);;
  mret true.

(** A queue is created; the controller keeps the function unless it refuses.  The status of
    a refusal is set in a response that nobody gets. *)
Definition create (m : Z -> M C Z) (r : CQEntryWrapper) : M (t C) bool :=
  c ← new_object (Ctx (mkIOContext QueueContext theSubsystem r None 0 0 0 0));
  ret ← on_controller (m (Z.of_nat c));
  when (ret =? 0) (push (TCreated c));;
  mret true.
Definition entry_size (e : SQEntry) : Z := u16 (high16 (dword10 e) + 1).

Definition createSQueue req : M (t C) bool :=
  let e := sqew_entry req in
  let r := CQEntryWrapper_make req in
  let entrySize := entry_size e in
  if maxQueueEntry cfg <? entrySize then answer (specific false INVALID_QUEUE_SIZE r);; mret true
  else create (ctl_createSQueue (low16 (dword10 e)) (high16 (dword11 e)) entrySize
                 (Z.shiftr (Z.land (dword11 e) 6) 1) (negb (Z.land (dword11 e) 1 =? 0)) (data1 e)) r.

Definition createCQueue req : M (t C) bool :=
  let e := sqew_entry req in
  let r := CQEntryWrapper_make req in
  let entrySize := entry_size e in
  if maxQueueEntry cfg <? entrySize then answer (specific false INVALID_QUEUE_SIZE r);; mret true
  else create (ctl_createCQueue (low16 (dword10 e)) entrySize (high16 (dword11 e))
                 (negb (Z.land (dword11 e) 2 =? 0)) (negb (Z.land (dword11 e) 1 =? 0)) (data1 e)) r.

(** The page for one namespace is answered here and then passed on as well. *)
Definition getLogPage req : M (t C) bool :=
  let r := CQEntryWrapper_make req in
  let lid := low16 (dword10 (sqew_entry req)) in
  if lid =? LOG_ERROR_INFORMATION then answer r;; mret true
  else if lid =? LOG_SMART_HEALTH_INFORMATION then
    if namespaceID (sqew_entry req) =? NSID_ALL then start_log theSubsystem req r;; mret true
    else answer r;; mret false
  else if lid =? LOG_FIRMWARE_SLOT_INFORMATION then answer r;; mret true
  else answer (specific true INVALID_LOG_PAGE r);; mret true.

(** *** Identify *)

(** The loop that fills the data of the namespaces that match. *)
Fixpoint identify_namespaces (L : Z) (used : Z -> Z -> res Z) (p : Namespace -> bool) (l : list Namespace)
    (buffer : list Z) : res (list Z * list Namespace) :=
  match l with
  | [] => Ok (buffer, [])
  | ns :: l =>
      '(buffer, ns) ← (if p ns then '(buffer, i) ← fillIdentifyNamespace L used (info ns) buffer; Ok (buffer, set_info i ns)
                       else Ok (buffer, ns));
      '(buffer, l) ← identify_namespaces L used p l buffer;
      Ok (buffer, ns :: l)
  end.
(** The loop that lists their numbers; [idx] counts in 16 bits. *)
Fixpoint identify_list (p : Namespace -> bool) (l : list Namespace) (idx : Z) (buffer : list Z) : res (list Z) :=
  match l with
  | [] => Ok buffer
  | ns :: l =>
      if p ns then buffer ← store (4 * idx, le_bytes 4 (nsid ns)) buffer; identify_list p l (u16 (idx + 1)) buffer
      else identify_list p l idx buffer
  end.

(** The data for [cns], with the namespaces as they are left; none when the number is refused. *)
Definition identify_data w (cns cntid id : Z) (s : Subsystem.t) (buffer : list Z) : res (option (list Z * list Namespace)) :=
  let l := lNamespaces s in
  let fill p := r ← identify_namespaces (logicalPageSize (sub_icl s)) (getUsedPageCount w) p l buffer; Ok (Some r) in
  let names p := if NSID_ALL - 1 <=? id then Ok None else b ← identify_list p l 0 buffer; Ok (Some (b, l)) in
  let controllers := b ← (if cntid =? 0 then store (0, le_bytes 2 1) buffer else Ok buffer); Ok (Some (b, l)) in
  if cns =? 0x00 then
    if id =? NSID_ALL then Ok (Some (buffer, l)) else fill (fun ns => attached ns && (nsid ns =? id))
  else if cns =? 0x01 then
    b ← identify (identifyConf cfg) (getNVMCapacity s) buffer; Ok (Some (b, l))
  else if cns =? 0x02 then names (fun ns => attached ns && (id <? nsid ns))
  else if cns =? 0x10 then names (fun ns => id <? nsid ns)
  else if cns =? 0x11 then fill (fun ns => nsid ns =? id)
  else if (cns =? 0x12) || (cns =? 0x13) then controllers
  else Ok (Some (buffer, l)).

Definition identify_command w req : M (t C) bool :=
  let e := sqew_entry req in
  let r := CQEntryWrapper_make req in
  s ← get;
  data ← lift (identify_data w (Z.land (dword10 e) 0xFF) (high16 (dword10 e)) (namespaceID e) (subsystem s) (zeros 0x1000));
  match data with
  | Some (buffer, l) =>
      modify (set_subsystem (set_namespaces l (subsystem s)));;
      c ← new_object (Ctx (mkIOContext (IdentifyContext buffer) theSubsystem r (Some (pointer req 0x1000)) 0 0 0 0));
      push (TInit c)
  | None => answer (generic true ABORT_INVALID_NAMESPACE r)
  end;;
  mret true.

(** *** Abort and features *)

Definition abort req : M (t C) bool :=
  let e := sqew_entry req in
  ret ← on_controller (ctl_abort (low16 (dword10 e)) (high16 (dword10 e)));
  answer (set_dword0 (if ret =? 0 then 1 else 0) (generic true 0 (CQEntryWrapper_make req)));;
  mret true.

(** The numbers of queues that are granted, zero based. *)
Definition grant_queues (cqsize sqsize dword11 : Z) : Z :=
  let d := if sqsize <=? low16 dword11 then Z.lor (Z.land dword11 0xFFFF0000) (u32 (sqsize - 1)) else dword11 in
  if cqsize <=? high16 d then Z.lor (Z.land d 0xFFFF) (u32 (Z.shiftl (u32 (cqsize - 1)) 16)) else d.

Definition setFeatures req : M (t C) bool :=
  let e := sqew_entry req in
  let r := CQEntryWrapper_make req in
  let fid := Z.land (dword10 e) 0xFF in
  let d := dword11 e in
  (if negb (Z.land (dword10 e) 0x80000000 =? 0) then answer (specific false FEATURE_ID_NOT_SAVEABLE r)
   else if fid =? 0x07 then
     if (Z.land d 0xFFFF =? 0xFFFF) || (Z.land d 0xFFFF0000 =? 0xFFFF0000) then answer (generic false INVALID_FIELD r)
     else
       let d := grant_queues (maxCQueue cfg) (maxSQueue cfg) d in
       modify (set_queueAllocated d);; answer (set_dword0 d r)
   else if fid =? 0x08 then
     on_controller (ctl_setCoalescingParameter (Z.land (Z.shiftr d 8) 0xFF) (Z.land d 0xFF));; answer r
   else if fid =? 0x09 then
     on_controller (ctl_setCoalescing (Z.land d 0xFFFF) (negb (Z.land d 0x10000 =? 0)));; answer r
   else answer (generic true INVALID_FIELD r));;
  mret true.

Definition arbitration_feature : Z :=
  u32 (Z.lor (Z.lor (Z.shiftl (u8 (u64 (wrrHigh cfg * wrrMedium cfg) - 1)) 24) (Z.shiftl (u64 (wrrMedium cfg - 1)) 16)) 3).

Definition getFeatures req : M (t C) bool :=
  let e := sqew_entry req in
  let r := CQEntryWrapper_make req in
  let fid := Z.land (dword10 e) 0xFF in
  s ← get;
  (if fid =? 0x01 then answer (set_dword0 arbitration_feature r)
   else if fid =? 0x06 then answer (set_dword0 (Z.b2z (writeCache (identifyConf cfg))) r)
   else if fid =? 0x07 then answer (set_dword0 (queueAllocated s) r)
   else if fid =? 0x08 then
     '(time, thres) ← on_controller ctl_getCoalescingParameter; answer (set_dword0 (thres + 256 * time) r)
   else if fid =? 0x09 then
     let iv := Z.land (dword11 e) 0xFFFF in
     on ← on_controller (ctl_getCoalescing iv);
     answer (set_dword0 (if on : bool then Z.lor iv 0x10000 else iv) r)
   else answer (generic true INVALID_FIELD r));;
  mret true.

(** *** Namespaces *)

Definition namespaceManagement req : M (t C) bool :=
  let e := sqew_entry req in
  let r := CQEntryWrapper_make req in
  let sel := Z.land (dword10 e) 0x0F in
  s ← get;
  (if ((sel =? 0) && negb (namespaceID e =? NSID_NONE)) || (1 <? sel) then answer (generic false INVALID_FIELD r)
   else if sel =? 0 then
     let id := new_nsid (subsystem s) in
     if id =? NSID_ALL then answer (specific false NAMESPACE_ID_UNAVAILABLE r)
     else
       c ← new_object (Ctx (mkIOContext (ManagementContext id) theSubsystem r (Some (pointer req 0x1000)) 0 0 0 0));
       push (TInit c)
   else
     '(found, sub) ← lift (destroyNamespace (namespaceID e) (subsystem s));
     match remove_first (namespaceID e) (lNamespaces (subsystem s)) with
     | Some (ns, _) => forget (address ns)
     | None => mret tt
     end;;
     modify (set_subsystem sub);;
     answer (if found : bool then r else generic false ABORT_INVALID_NAMESPACE r));;
  mret true.

Definition namespaceAttachment req : M (t C) bool :=
  let e := sqew_entry req in
  c ← new_object (Ctx (mkIOContext AttachmentContext theSubsystem (CQEntryWrapper_make req) (Some (pointer req 0x1000))
                         0 (Z.land (dword10 e) 0x0F) (namespaceID e) 0));
  push (TInit c);; mret true.

(** The namespace of a format with its new block size: the whole device is its size. *)
Definition formatted w (lbaf : Z) (s : Subsystem.t) (ns : Namespace) : res Namespace :=
  let i := info ns in
  match vget lbaSizes lbaf with
  | None => Err UB
  | Some n =>
      let size := u64 (totalLogicalPages (sub_icl s) * logicalPageSize (sub_icl s)) / n in
      let i := mkInformation size size (utilization i) (sizeInByteL i) (sizeInByteH i) lbaf
        (dataProtectionSettings i) (namespaceSharingCapabilities i) n (range i) in
      u ← utilization_of (logicalPageSize (sub_icl s)) (getUsedPageCount w) i;
      Ok (format (getTick w) (set_info (set_utilization u i) ns))
  end.
(** The first namespace of the number is replaced. *)
Fixpoint update_first (id : Z) (f : Namespace -> res Namespace) (l : list Namespace) : res (option (Namespace * list Namespace)) :=
  match l with
  | [] => Ok None
  | ns :: l =>
      if nsid ns =? id then ns ← f ns; Ok (Some (ns, ns :: l))
      else r ← update_first id f l; Ok (match r with Some (x, l) => Some (x, ns :: l) | None => None end)
  end.

Definition formatNVM w req : M (t C) bool :=
  let d := dword10 (sqew_entry req) in
  let r := CQEntryWrapper_make req in
  let ses := Z.shiftr (Z.land d 0x0E00) 9 in
  let lbaf := Z.land d 0x0F in
  let err := (1 <? ses) || negb (Z.land d 0x0100 =? 0) || negb (Z.land d 0x10 =? 0) ||
             negb (Z.shiftr (Z.land d 0xE0) 5 =? 0) || (nLBAFormat <=? lbaf) in
  s ← get;
  (if err then answer (generic false INVALID_FORMAT r)
   else
     found ← lift (update_first (namespaceID (sqew_entry req)) (formatted w lbaf (subsystem s)) (lNamespaces (subsystem s)));
     match found with
     | Some (ns, l) =>
         modify (set_subsystem (set_namespaces l (subsystem s)));;
         c ← new_object (Ctx (mkIOContext FormatContext theSubsystem r None 0 0 0 0));
         push (TConvert (HilFormat (ses =? 1)) (with_range (range (info ns)) (HilRequest_make (Z.of_nat c))))
     | None => answer (generic false ABORT_INVALID_NAMESPACE r)
     end);;
  mret true.

(** ** [Subsystem::submitCommand] *)

(** An opcode without a case sets a status and goes on, as [asyncEventReq] does without. *)
Definition submit_admin w req : M (t C) (bool * CQEntryWrapper) :=
  let r := CQEntryWrapper_make req in
  let op := opcode (sqew_entry req) in
  let run (m : M (t C) bool) := p ← m; mret (p, r) in
  if op =? 0x00 then run (deleteSQueue req)
  else if op =? 0x01 then run (createSQueue req)
  else if op =? 0x02 then run (getLogPage req)
  else if op =? 0x04 then run (deleteCQueue req)
  else if op =? 0x05 then run (createCQueue req)
  else if op =? 0x06 then run (identify_command w req)
  else if op =? 0x08 then run (abort req)
  else if op =? 0x09 then run (setFeatures req)
  else if op =? 0x0A then run (getFeatures req)
  else if op =? 0x0C then mret (false, r)
  else if op =? 0x0D then run (namespaceManagement req)
  else if op =? 0x15 then run (namespaceAttachment req)
  else if op =? 0x80 then run (formatNVM w req)
  else mret (false, generic true INVALID_OPCODE r).

(** The namespace a command is handed to. *)
Definition pass_on req (r : CQEntryWrapper) : M (t C) unit :=
  s ← get;
  let l := lNamespaces (subsystem s) in
  let id := namespaceID (sqew_entry req) in
  let invalid := answer (generic false ABORT_INVALID_NAMESPACE r) in
  if id <? NSID_ALL then
    match List.find (fun ns => nsid ns =? id) l with
    | Some ns => push (TSubmit (this ns) req)
    | None => invalid
    end
  else match l with [] => invalid | _ => push (TSubmitFront req) end.

Definition submitCommand w req : M (t C) unit :=
  modify (fun s => set_commandCount (u64 (commandCount s + 1)) s);;
  '(processed, r) ← (if sqew_sqID req =? 0 then submit_admin w req else mret (false, CQEntryWrapper_make req));
  if processed : bool then mret tt else pass_on req r.
End Commands.
