(* ===== verification/CommandTheorems.v ===== *)
(** * NVMe commands: theorems

    Commands for namespaces, of any number and in flight together: each goes
    through the stages of [Stage], on contexts of its own, and the tasks are those
    of the commands' stages whatever the order they are done in. *)

From Stdlib Require Import Permutation.
From S2P Require Import Prelude Bitset Float32 Types PmState Icl Dma Hil Subsystem NvmeQueue Controller Identify Command.

(** ** What a command is to do *)

Section Spec.
  Context (host : DataPointer -> Z -> Z -> list Z) (sub : Subsystem.t).
  Implicit Types (req : SQEntryWrapper) (ns : Namespace).

(** The namespace of a command: the first of its number, or the first of all. *)
Definition target req : option Namespace :=
  let id := namespaceID (sqew_entry req) in
  if id <? NSID_ALL then List.find (fun ns => nsid ns =? id) (lNamespaces sub) else hd_error (lNamespaces sub).

Definition kind_of req : option Kind :=
  let op := opcode (sqew_entry req) in
  if op =? 0x00 then Some FlushContext
  else if op =? 0x01 then Some WriteContext
  else if op =? 0x02 then Some ReadContext
  else if op =? 0x05 then Some CompareContext
  else if op =? 0x09 then Some TrimContext
  else None.

(** The answer. *)
Definition response req : CQEntryWrapper :=
  let r := CQEntryWrapper_make req in
  match target req, kind_of req with
  | None, _ => generic false ABORT_INVALID_NAMESPACE r
  | Some _, None => generic true INVALID_OPCODE r
  | Some ns, Some _ => if attached ns then r else specific true NAMESPACE_NOT_ATTACHED r
  end.

(** Whether the command does anything. *)
Definition starts (k : Kind) ns req : bool :=
  attached ns &&
  match k with
  | FlushContext => true
  | TrimContext => negb (Z.land (dword11 (sqew_entry req)) 4 =? 0)
  | _ => negb (entry_nlb (sqew_entry req) =? 0)
  end.

Definition op_of (k : Kind) : HilOp :=
  match k with
  | FlushContext => HilFlush | WriteContext => HilWrite | TrimContext => HilTrim | _ => HilRead
  end.
Definition pointer_of (k : Kind) ns req : DataPointer :=
  pointer req (match k with TrimContext => 0x10 | _ => entry_nlb (sqew_entry req) * lbaSize (info ns) end).
(** The blocks: those of the command, or of the one range of a trim. *)
Definition blocks (k : Kind) ns req : Z * Z :=
  match k with
  | TrimContext => let range := host (pointer_of k ns req) 0 0x10 in (field range 8 8, field range 4 4)
  | _ => (entry_slba (sqew_entry req), entry_nlb (sqew_entry req))
  end.
(** The request for the layer below, with the function [f]. *)
Definition below (k : Kind) ns req (f : Z) : HilRequest :=
  match k with
  | FlushContext => flush_command sub ns f
  | _ => match command sub ns (blocks k ns req).1 (blocks k ns req).2 f with Ok r => r | Err _ => HilRequest_make f end
  end.
Definition requests req : list (HilOp * HilRequest) :=
  match target req, kind_of req with
  | Some ns, Some k => if starts k ns req then [(op_of k, below k ns req 0)] else []
  | _, _ => []
  end.

(** The namespaces convert their blocks, and none is deleted or formatted meanwhile. *)
Record namespaces_ok : Prop := {
  no_pages : logicalPageSize (sub_icl sub) <> 0;
  no_blocks : Forall (fun ns => lbaSize (info ns) <> 0) (lNamespaces sub);
  objects_differ : NoDup (address <$> lNamespaces sub);
}.

(** A command of an I/O queue; a trim has one range. *)
Definition nvm_command req : Prop :=
  sqew_sqID req <> 0 /\ (opcode (sqew_entry req) = 0x09 -> entry_ranges (sqew_entry req) = 1).

(** The host's data stay, and no format lies ahead. *)
Definition world_ok (w : World) : Prop :=
  hostData w = host /\ Forall (fun ns => formatFinishedAt ns <= getTick w) (lNamespaces sub).
End Spec.

(** A request without its function. *)
Definition without_function (p : HilOp * HilRequest) : HilOp * HilRequest :=
  (p.1, mkHilRequest (hil_reqID p.2) (hil_reqSubID p.2) (hil_offset p.2) (hil_length p.2) (hil_range p.2) (hil_finishedAt p.2) 0).

(** What is left to be done: a task that leads to others weighs more than they do. *)
Definition weight (k : Task) : nat :=
  match k with
  | TSubmit _ _ | TSubmitFront _ => 8
  | TInit _ => 7
  | TJob _ => 6
  | TWrite _ _ _ | TRead _ _ _ => 3
  | TConvert _ _ => 2
  | THil _ _ | TCreated _ => 1
  end.
Definition work {C} (s : t C) : nat := sum_list_with weight (tasks s).

(** Commands arrive and tasks are done, in any order. *)
Section Served.
  Context {C : Type} `{CommandController C} (cfg : Conf) (host : DataPointer -> Z -> Z -> list Z) (sub : Subsystem.t).
Inductive served (s0 : t C) : list SQEntryWrapper -> t C -> Prop :=
  | served_start : served s0 [] s0
  | served_arrive reqs s w req s' : served s0 reqs s -> nvm_command req -> submitCommand cfg w req s = Ok (tt, s') ->
      served s0 (req :: reqs) s'
  | served_run reqs s w i s' : served s0 reqs s -> world_ok host sub w -> run_task w i s = Ok (tt, s') -> served s0 reqs s'.

Record idle (s : t C) : Prop := {
  idle_subsystem : subsystem s = sub;
  idle_tasks : tasks s = [];
  idle_answered : answered s = [];
  idle_handed : handed s = [];
}.
End Served.

(** ** Stages *)

(** Handed to the namespace; waiting for its data pointer, for its job; with a request below;
    with a transfer and a request, one of them; and a trim with its list and its range. *)
Inductive Stage : Type :=
  | Submitted
  | Initiated (c : nat)
  | Ready (c : nat)
  | FlushBelow (c : nat)
  | Both (c : nat) (conv : bool)
  | DmaLeft (c : nat)
  | HilLeft (c : nat) (conv : bool)
  | TrimList (c : nat)
  | TrimBelow (c d : nat) (conv : bool).
Record Live : Type := mkLive { l_req : SQEntryWrapper; l_ns : Namespace; l_kind : Kind; l_stage : Stage }.

Section Stages.
  Context {C : Type} `{CommandController C} (cfg : Conf) (host : DataPointer -> Z -> Z -> list Z) (sub : Subsystem.t).
  Implicit Types (req : SQEntryWrapper) (ns : Namespace) (l : Live) (s : t C) (x : IOContext).

Definition submit_task ns req : Task :=
  if namespaceID (sqew_entry req) <? NSID_ALL then TSubmit (this ns) req else TSubmitFront req.
Definition transfer_task (k : Kind) ns req (c : nat) : Task :=
  let bytes := u64 (entry_nlb (sqew_entry req) * lbaSize (info ns)) in
  match k with ReadContext => TWrite 0 bytes c | _ => TRead 0 bytes c end.
Definition below_task (conv : bool) (k : Kind) ns req (f : nat) : Task :=
  let r := below host sub k ns req (Z.of_nat f) in
  if conv then TConvert (op_of k) r else THil (op_of k) r.

Definition tasks_of l : list Task :=
  let '(mkLive req ns k st) := l in
  match st with
  | Submitted => [submit_task ns req]
  | Initiated c => [TInit c]
  | Ready c => [TJob c]
  | FlushBelow c => [below_task false k ns req c]
  | Both c conv => [transfer_task k ns req c; below_task conv k ns req c]
  | DmaLeft c => [transfer_task k ns req c]
  | HilLeft c conv => [below_task conv k ns req c]
  | TrimList c => [TRead 0 0x10 c]
  | TrimBelow c d conv => [below_task conv k ns req d]
  end.

Definition addresses_of l : list nat :=
  match l_stage l with
  | Submitted => []
  | Initiated c | Ready c | FlushBelow c | Both c _ | DmaLeft c | HilLeft c _ | TrimList c => [c]
  | TrimBelow c d _ => [c; d]
  end.

Definition handed_of l : list (HilOp * HilRequest) :=
  let r := [(op_of (l_kind l), below host sub (l_kind l) (l_ns l) (l_req l) 0)] in
  match l_stage l with
  | FlushBelow _ | Both _ false | DmaLeft _ | HilLeft _ false | TrimBelow _ _ false => r
  | _ => []
  end.

(** The context of a command. *)
Record context_of ns req (k : Kind) x : Prop := {
  x_kind : kind x = k;
  x_self : self x = this ns;
  x_resp : resp x = CQEntryWrapper_make req;
  x_dma : k <> FlushContext -> dma x = Some (pointer_of k ns req);
  x_blocks : match k with
             | FlushContext => True
             | TrimContext => slba x = 1
             | _ => slba x = entry_slba (sqew_entry req) /\ nlb x = entry_nlb (sqew_entry req)
             end;
}.
Definition has_context (objs : list (option Object)) (c : nat) ns req k (b : option Z) : Prop :=
  exists x, objs !! c = Some (Some (Ctx x)) /\ context_of ns req k x /\ match b with Some n => beginAt x = n | None => True end.

Definition transfers (k : Kind) : Prop := k = WriteContext \/ k = ReadContext \/ k = CompareContext.

(** A command in a stage: its namespace exists, it is one that starts, and its context is in
    the state of the stage. *)
Definition stage_ok (objs : list (option Object)) l : Prop :=
  let '(mkLive req ns k st) := l in
  nvm_command req /\ target sub req = Some ns /\
  match st with
  | Submitted => True
  | _ => kind_of req = Some k /\ starts k ns req = true
  end /\
  match st with
  | Submitted => True
  | Initiated c => k <> FlushContext /\ has_context objs c ns req k None
  | Ready c => has_context objs c ns req k None
  | FlushBelow c => k = FlushContext /\ has_context objs c ns req k None
  | Both c _ => transfers k /\ has_context objs c ns req k (Some 0)
  | DmaLeft c | HilLeft c _ => transfers k /\ has_context objs c ns req k (Some 1)
  | TrimList c => k = TrimContext /\ has_context objs c ns req k None
  | TrimBelow c d _ => k = TrimContext /\ has_context objs c ns req k None /\ objs !! d = Some (Some (Trims 1 c))
  end.

(** The state is that of the commands in their stages, and those that are done. *)
Record related (done : list SQEntryWrapper) (live : list Live) s : Prop := {
  rel_sub : subsystem s = sub;
  rel_tasks : tasks s ≡ₚ live ≫= tasks_of;
  rel_apart : NoDup (live ≫= addresses_of);
  rel_stages : Forall (stage_ok (objects s)) live;
  rel_answered : answered s ≡ₚ response sub <$> done;
  rel_handed : without_function <$> handed s ≡ₚ (done ≫= requests host sub) ++ (live ≫= handed_of);
}.

(** ** The pieces of the relation *)

Lemma stage_alive objs l a : stage_ok objs l -> a ∈ addresses_of l -> (a < length objs)%nat.
Proof.
  destruct l as [req ns k st]. intros (_ & _ & _ & Hst) Ha.
  destruct st as [|c|c|c|c v|c|c v|c|c d v]; cbn [addresses_of l_stage] in Ha, Hst;
    [by apply not_elem_of_nil in Ha | ..]; repeat (apply elem_of_cons in Ha as [->|Ha]); try by apply not_elem_of_nil in Ha.
  all: unfold has_context in Hst; naive_solver eauto using lookup_lt_Some.
Qed.

Lemma stage_frame objs objs' l : stage_ok objs l -> (forall a, a ∈ addresses_of l -> objs' !! a = objs !! a) -> stage_ok objs' l.
Proof.
  destruct l as [req ns k st]. intros (H1 & H2 & H3 & Hst) Ha. split_and!; [done | done | done |].
  destruct st as [|c|c|c|c v|c|c v|c|c d v]; cbn [addresses_of l_stage] in Ha; [done | ..]; unfold has_context in *;
    try (rewrite (Ha c) by set_solver); [done.. |]. by rewrite (Ha d) by set_solver.
Qed.

#[local] Instance related_proper done : Proper ((≡ₚ) ==> (=) ==> impl) (related done).
Proof. intros live live' Hp s s' <- [H1 H2 H3 H4 H5 H6]. split; try done; by rewrite <- Hp. Qed.

(** One command changes, and nothing the others have. *)
Lemma related_change done fin l L more s s' :
  related done (l :: L) s -> subsystem s' = sub ->
  tasks s' ≡ₚ (more ≫= tasks_of) ++ (L ≫= tasks_of) ->
  (forall a, (a < length (objects s))%nat -> a ∉ addresses_of l -> objects s' !! a = objects s !! a) ->
  NoDup (more ≫= addresses_of) ->
  (forall a, a ∈ more ≫= addresses_of -> a ∈ addresses_of l \/ (length (objects s) <= a)%nat) ->
  Forall (stage_ok (objects s')) more ->
  answered s' = answered s ++ (response sub <$> fin) ->
  (exists new, handed s' = handed s ++ new /\
     handed_of l ++ (without_function <$> new) ≡ₚ (fin ≫= requests host sub) ++ (more ≫= handed_of)) ->
  related (fin ++ done) (more ++ L) s'.
Proof.
  intros [H1 H2 H3 H4 H5 H6] Hsub Htasks Hobj Hnd Hmore Hst Hans (new & Hnew & Hnewp).
  rewrite bind_cons in H3. rewrite bind_cons in H6. apply NoDup_app in H3 as (_ & Hl & HL). apply Forall_cons in H4 as [_ H4].
  assert (forall a, a ∈ L ≫= addresses_of -> (a < length (objects s))%nat /\ a ∉ addresses_of l) as HLa.
  { intros a Ha. split; [|intros Hal; by apply (Hl a)].
    apply list_elem_of_bind in Ha as (l' & Ha & Hl'). rewrite Forall_forall in H4. by eapply stage_alive; [apply H4|]. }
  split; [done | by rewrite Htasks, bind_app | | | |].
  - rewrite bind_app. apply NoDup_app. split; [done|]. split; [|done]. intros a Ha HaL.
    destruct (HLa a HaL) as [Hlt Hno]. destruct (Hmore a Ha) as [?|?]; [done | lia].
  - apply Forall_app. split; [done|]. rewrite Forall_forall in *. intros l' Hl'. eapply stage_frame; [by apply H4|].
    intros a Ha. assert (a ∈ L ≫= addresses_of) as Hin by (apply list_elem_of_bind; by exists l').
    destruct (HLa a Hin) as [Hlt Hno]. by apply Hobj.
  - rewrite Hans, H5, fmap_app. apply Permutation_app_comm.
  - rewrite Hnew, fmap_app, H6, !bind_app.
    transitivity ((done ≫= requests host sub) ++ (L ≫= handed_of) ++ (handed_of l ++ (without_function <$> new))); [solve_Permutation|].
    rewrite Hnewp. solve_Permutation.
Qed.

(** ** What the functions do *)

Context (Hok : namespaces_ok sub).

Lemma target_in req ns : target sub req = Some ns -> ns ∈ lNamespaces sub.
Proof.
  unfold target. destruct (_ <? _).
  - intros [Hin _]%List.find_some. by apply list_elem_of_In.
  - destruct (lNamespaces sub); [done|]. intros [= ->]. by left.
Qed.

Lemma find_address_in ns (l : list Namespace) : NoDup (address <$> l) -> ns ∈ l -> find_address (address ns) l = Some ns.
Proof.
  unfold find_address. induction l as [|y l IH]; intros Hnd Hin; [by apply not_elem_of_nil in Hin|]. simpl.
  rewrite fmap_cons in Hnd. apply NoDup_cons in Hnd as [Hy Hnd]. apply elem_of_cons in Hin as [->|Hin]; [by rewrite Z.eqb_refl|].
  destruct (Z.eqb_spec (address y) (address ns)) as [He|_]; [|by apply IH].
  destruct Hy. rewrite He. by apply list_elem_of_fmap_2.
Qed.

Lemma this_namespace ns s : subsystem s = sub -> ns ∈ lNamespaces sub -> the_namespace (this ns) s = Ok (ns, s).
Proof.
  intros Hs Hin. unfold the_namespace, this, get, mbind, M_bind. rewrite Hs.
  by rewrite find_address_in by (done || apply Hok).
Qed.

Lemma object_here c o s : objects s !! c = Some (Some o) -> the_object c s = Ok (o, s).
Proof. intros Hc. unfold the_object, gets, mbind, M_bind. by rewrite Hc. Qed.
Lemma context_here c x s : objects s !! c = Some (Some (Ctx x)) -> the_context c s = Ok (x, s).
Proof. intros Hc. unfold the_context, mbind, M_bind. by rewrite (object_here _ _ _ Hc). Qed.

Lemma command_total ns a n f : ns ∈ lNamespaces sub -> exists r, command sub ns a n f = Ok r /\ hil_function r = f /\
  forall g, command sub ns a n g =
    Ok (mkHilRequest (hil_reqID r) (hil_reqSubID r) (hil_offset r) (hil_length r) (hil_range r) (hil_finishedAt r) g).
Proof.
  intros Hin. destruct Hok as [Hp Hb _]. rewrite Forall_forall in Hb. specialize (Hb ns Hin). unfold command, convertUnit.
  rewrite (proj2 (Z.eqb_neq (lbaSize _) 0)), (proj2 (Z.eqb_neq (logicalPageSize _) 0)) by done.
  destruct (_ =? 0); eexists; split_and!; [reflexivity | done | done | reflexivity | done | done].
Qed.

Lemma below_ok k ns req f : ns ∈ lNamespaces sub ->
  hil_function (below host sub k ns req f) = f /\
  without_function (op_of k, below host sub k ns req f) = (op_of k, below host sub k ns req 0) /\
  (k <> FlushContext -> command sub ns (blocks host k ns req).1 (blocks host k ns req).2 f = Ok (below host sub k ns req f)).
Proof.
  intros Hin. destruct (command_total ns (blocks host k ns req).1 (blocks host k ns req).2 f Hin) as (r & Hr & Hf & Hg).
  unfold below, without_function. destruct k; rewrite ?Hr, ?Hg; split_and!; try done.
Qed.

(** The namespace takes a command: it is answered, or has a context and its first task. *)
Lemma submit_outcome w ns req s : nvm_command req -> formatFinishedAt ns <= getTick w -> target sub req = Some ns ->
  (exists k x, kind_of req = Some k /\ starts k ns req = true /\ context_of ns req k x /\
     ns_submitCommand w ns req s = Ok (tt, set_objects (objects s ++ [Some (Ctx x)])
       (set_tasks (tasks s ++ [match k with FlushContext => TJob (length (objects s)) | _ => TInit (length (objects s)) end]) s))) \/
  (requests host sub req = [] /\ ns_submitCommand w ns req s = Ok (tt, set_answered (answered s ++ [response sub req]) s)).
Proof.
  intros [Hq Hr] Ht Htarget. unfold requests, response, ns_submitCommand, kind_of, starts. rewrite Htarget.
  rewrite (proj2 (Z.ltb_ge _ _)), (proj2 (Z.eqb_neq (sqew_sqID req) 0)) by done.
  unfold ns_flush, ns_write, ns_read, ns_compare, start_transfer, datasetManagement.
  destruct (Z.eqb_spec (opcode (sqew_entry req)) 0x00) as [H0|H0];
    [|destruct (Z.eqb_spec (opcode (sqew_entry req)) 0x01) as [H1|H1];
    [|destruct (Z.eqb_spec (opcode (sqew_entry req)) 0x02) as [H2|H2];
    [|destruct (Z.eqb_spec (opcode (sqew_entry req)) 0x05) as [H5|H5];
    [|destruct (Z.eqb_spec (opcode (sqew_entry req)) 0x09) as [H9|H9]]]]].
  all: destruct (attached ns) eqn:Hatt; cbn [negb orb andb]; [|right; by split].
  1: { left. do 2 eexists. split; [done|]. split; [done|]. split; [|reflexivity]. by split. }
  1-3: destruct (Z.eqb_spec (entry_nlb (sqew_entry req)) 0); cbn [negb]; [by right|].
  1-3: left; do 2 eexists; split; [done|]; split; [done|]; split; [|reflexivity]; by split.
  - destruct (Z.eqb_spec (Z.land (dword11 (sqew_entry req)) 4) 0); cbn [negb]; [by right|].
    left. do 2 eexists. split; [done|]. split; [done|]. rewrite (Hr H9). split; [|reflexivity]. by split.
  - by right.
Qed.

(** ** The stages go on *)

(** After its task [k], with [T] the other tasks: the command [l] is done or in its next
    stage, the others are where they were, and there is less to do. *)
Definition goes_on w l L done s (T : list Task) (k : Task) : Prop :=
  exists s' fin more, run_function w k (set_tasks T s) = Ok (tt, s') /\ related (fin ++ done) (more ++ L) s' /\
    fin ++ (l_req <$> more) = [l_req l] /\ (work s' < sum_list_with weight T + weight k)%nat.

Lemma goes_on_next w l l' L done s T k s' rest :
  related done (l :: L) s -> T ≡ₚ rest ++ (L ≫= tasks_of) ->
  run_function w k (set_tasks T s) = Ok (tt, s') -> l_req l' = l_req l -> subsystem s' = sub ->
  (exists add, tasks s' = T ++ add /\ rest ++ add ≡ₚ tasks_of l' /\ (sum_list_with weight add < weight k)%nat) ->
  (forall a, (a < length (objects s))%nat -> a ∉ addresses_of l -> objects s' !! a = objects s !! a) ->
  NoDup (addresses_of l') ->
  (forall a, a ∈ addresses_of l' -> a ∈ addresses_of l \/ (length (objects s) <= a)%nat) ->
  stage_ok (objects s') l' -> answered s' = answered s ->
  (exists new, handed s' = handed s ++ new /\ handed_of l ++ (without_function <$> new) ≡ₚ handed_of l') ->
  goes_on w l L done s T k.
Proof.
  intros Hrel HT Hrun Hreq Hsub (add & Hadd & Hp & Hw) Hobj Hnd Hnew Hst Hans Hh. exists s', [], [l'].
  split; [done|]. split; [|split; [by rewrite <- Hreq | unfold work; rewrite Hadd, sum_list_with_app; lia]].
  eapply related_change; eauto; rewrite ?bind_cons, ?bind_nil, ?app_nil_r; eauto.
  rewrite Hadd, HT, <- Hp. solve_Permutation.
Qed.

Lemma goes_on_end w l L done s T k s' :
  related done (l :: L) s -> T ≡ₚ L ≫= tasks_of ->
  run_function w k (set_tasks T s) = Ok (tt, s') -> subsystem s' = sub -> tasks s' = T -> (0 < weight k)%nat ->
  (forall a, (a < length (objects s))%nat -> a ∉ addresses_of l -> objects s' !! a = objects s !! a) ->
  answered s' = answered s ++ [response sub (l_req l)] ->
  handed s' = handed s -> handed_of l ≡ₚ requests host sub (l_req l) ->
  goes_on w l L done s T k.
Proof.
  intros Hrel HT Hrun Hsub Ht Hw Hobj Hans Hh Hreq. exists s', [l_req l], [].
  split; [done|]. split; [|split; [done | unfold work; rewrite Ht; lia]].
  eapply related_change; eauto; rewrite ?bind_cons, ?bind_nil, ?app_nil_r; eauto.
  - by rewrite Ht, HT.
  - constructor.
  - set_solver.
  - exists []. split; [by rewrite app_nil_r|]. rewrite fmap_nil, !app_nil_r. by rewrite Hreq.
Qed.

Lemma submitted_goes_on w req ns kd L done s T : world_ok host sub w ->
  related done (mkLive req ns kd Submitted :: L) s -> T ≡ₚ L ≫= tasks_of ->
  goes_on w (mkLive req ns kd Submitted) L done s T (submit_task ns req).
Proof.
  intros [_ Hw] Hrel HT. pose proof Hrel as [Hsub _ _ Hst _ _]. apply Forall_cons in Hst as [(Hnvm & Htarget & _) _].
  pose proof (target_in _ _ Htarget) as Hin. rewrite Forall_forall in Hw. specialize (Hw ns Hin).
  assert (run_function w (submit_task ns req) (set_tasks T s) = ns_submitCommand w ns req (set_tasks T s)) as Hrun.
  { unfold submit_task. unfold target in Htarget. destruct (namespaceID (sqew_entry req) <? NSID_ALL); cbn [run_function].
    - erewrite bind_ok; [reflexivity|]. by apply this_namespace.
    - unfold get, deref, mbind, M_bind. cbn. rewrite Hsub. by rewrite Htarget. }
  destruct (submit_outcome w ns req (set_tasks T s) Hnvm Hw Htarget) as [(k & x & Hk & Hs & Hx & Heq)|[Hno Heq]].
  - rewrite Heq in Hrun. clear Heq. set (c := length (objects s)).
    assert (weight (submit_task ns req) = 8%nat) as Hw8 by (unfold submit_task; by destruct (_ <? _)).
    eapply (goes_on_next w _ (mkLive req ns k (match k with FlushContext => Ready c | _ => Initiated c end)) L done s T _ _ []);
      try done; try exact Hrun; cbn.
    + eexists. split; [reflexivity|]. rewrite Hw8. by destruct k; cbn; split; try lia.
    + intros a Ha _. by rewrite lookup_app_l.
    + destruct k; cbn; apply NoDup_singleton.
    + intros a Ha. right. destruct k; cbn in Ha; apply list_elem_of_singleton in Ha as ->; unfold c; lia.
    + assert (has_context (objects s ++ [Some (Ctx x)]) c ns req k None) as Hc.
      { exists x. split; [|done]. unfold c. by rewrite lookup_app_r, Nat.sub_diag by lia. }
      by destruct k.
    + exists []. rewrite app_nil_r. split; [done|]. by destruct k.
  - rewrite Heq in Hrun. eapply goes_on_end; try done; try exact Hrun; cbn.
    + unfold submit_task. destruct (_ <? _); cbn; lia.
    + by rewrite Hno.
Qed.

Lemma requests_started req ns k : target sub req = Some ns -> kind_of req = Some k -> starts k ns req = true ->
  requests host sub req = [(op_of k, below host sub k ns req 0)] /\ response sub req = CQEntryWrapper_make req.
Proof.
  intros Ht Hk Hs. unfold requests, response. rewrite Ht, Hk, Hs. split; [done|]. unfold starts in Hs.
  apply andb_prop in Hs as [-> _]. done.
Qed.

Lemma kinds req k : kind_of req = Some k -> k = FlushContext \/ transfers k \/ k = TrimContext.
Proof. unfold kind_of, transfers. intros Hk. repeat (destruct (_ =? _); [injection Hk as <-; tauto|]). done. Qed.

Lemma convert_ok op ns a n f s r : subsystem s = sub -> command sub ns a n (Z.of_nat f) = Ok r ->
  convert op ns a n f s = Ok (tt, set_tasks (tasks s ++ [TConvert op r]) s).
Proof. intros Hs Hr. unfold convert, get, lift, mbind, M_bind. by rewrite Hs, Hr. Qed.

(** What the command at the head of the relation is. *)
Lemma head_stage l L done s : related done (l :: L) s -> stage_ok (objects s) l /\ subsystem s = sub.
Proof. intros [Hsub _ _ Hst _ _]. by apply Forall_cons in Hst as [Hl _]. Qed.

Lemma initiated_goes_on w req ns k c L done s T :
  related done (mkLive req ns k (Initiated c) :: L) s -> T ≡ₚ L ≫= tasks_of ->
  goes_on w (mkLive req ns k (Initiated c)) L done s T (TInit c).
Proof.
  intros Hrel HT. destruct (head_stage _ _ _ _ Hrel) as [(Hn & Ht & [Hk Hs] & Hnf & x & Hc & Hx & _) Hsub].
  eapply (goes_on_next w _ (mkLive req ns k (Ready c)) L done s T _ (set_tasks (T ++ [TJob c]) s) []); try done.
  - cbn [run_function]. erewrite bind_ok by (by apply context_here). unfold run_init. rewrite (x_kind _ _ _ _ Hx).
    destruct (kinds _ _ Hk) as [->|[[->|[->| ->]]| ->]]; [done | reflexivity..].
  - eexists. split; [reflexivity|]. split; [done|]. cbn. lia.
  - apply NoDup_singleton.
  - by left.
  - split_and!; try done. by exists x.
  - exists []. by rewrite app_nil_r.
Qed.

Lemma transfers_job w k ns req c x s : transfers k -> context_of ns req k x -> subsystem s = sub -> ns ∈ lNamespaces sub ->
  exists add, run_job w c x s = Ok (tt, set_tasks (tasks s ++ add) (set_objects (<[c := Some (Ctx (set_begin 0 (getTick w) x))]> (objects s)) s)) /\
    add ≡ₚ [transfer_task k ns req c; below_task true k ns req c].
Proof.
  intros Hk Hx Hsub Hin. pose proof (x_blocks _ _ _ _ Hx) as Hb. destruct (below_ok k ns req (Z.of_nat c) Hin) as (_ & _ & Hcmd).
  unfold run_job. rewrite (x_self _ _ _ _ Hx), (x_kind _ _ _ _ Hx). erewrite bind_ok by (by apply this_namespace).
  destruct Hk as [->|[->| ->]]; destruct Hb as [Hb1 Hb2]; rewrite Hb1, Hb2; specialize (Hcmd ltac:(done)).
  - eexists [_; _]. split; [|done]. unfold put_object, push. rewrite !modify_bind. erewrite convert_ok by done. cbn. by rewrite <- app_assoc.
  - eexists [_; _]. split; [|apply perm_swap]. unfold put_object. rewrite modify_bind. erewrite bind_ok by (by apply convert_ok). unfold push, modify. cbn. by rewrite <- app_assoc.
  - eexists [_; _]. split; [|apply perm_swap]. unfold put_object. rewrite modify_bind. erewrite bind_ok by (by apply convert_ok). unfold push, modify. cbn. by rewrite <- app_assoc.
Qed.

Lemma ready_goes_on w req ns k c L done s T :
  related done (mkLive req ns k (Ready c) :: L) s -> T ≡ₚ L ≫= tasks_of ->
  goes_on w (mkLive req ns k (Ready c)) L done s T (TJob c).
Proof.
  intros Hrel HT. destruct (head_stage _ _ _ _ Hrel) as [(Hn & Ht & [Hk Hs] & x & Hc & Hx & _) Hsub].
  pose proof (target_in _ _ Ht) as Hin. pose proof (lookup_lt_Some _ _ _ Hc) as Hlt.
  destruct (below_ok k ns req (Z.of_nat c) Hin) as (Hf & Hw & Hcmd).
  assert (forall s', subsystem s' = sub -> the_namespace (this ns) s' = Ok (ns, s')) as Hns by (intros; by apply this_namespace).
  set (l' := mkLive req ns k (match k with FlushContext => FlushBelow c | TrimContext => TrimList c | _ => Both c true end)).
  assert (exists s', run_function w (TJob c) (set_tasks T s) = Ok (tt, s') /\ subsystem s' = sub /\
    (exists add, tasks s' = T ++ add /\ add ≡ₚ tasks_of l' /\ (sum_list_with weight add < 6)%nat) /\
    (forall a, a <> c -> objects s' !! a = objects s !! a) /\ stage_ok (objects s') l' /\ answered s' = answered s /\
    (exists new, handed s' = handed s ++ new /\ without_function <$> new ≡ₚ handed_of l')) as (s' & H1 & H2 & H3 & H4 & H5 & H6 & H7).
  2:{ eapply (goes_on_next w _ l' L done s T _ _ []); try done.
      - intros a _ Ha. apply H4. set_solver.
      - unfold l'. destruct k; apply NoDup_singleton.
      - intros a Ha. left. unfold l' in Ha. by destruct k. }
  cbn [run_function]. erewrite bind_ok by (by apply context_here).
  assert (has_context (objects s) c ns req k None) as Hctx by (by exists x).
  destruct (kinds _ _ Hk) as [->|[Htr| ->]].
  - unfold run_job. rewrite (x_self _ _ _ _ Hx), (x_kind _ _ _ _ Hx). erewrite bind_ok by (by apply Hns).
    exists (set_handed (handed s ++ [(HilFlush, flush_command sub ns (Z.of_nat c))])
             (set_tasks (T ++ [THil HilFlush (flush_command sub ns (Z.of_nat c))]) s)).
    unfold get, mbind, M_bind. cbn. rewrite Hsub. split_and!; try done; eexists; (split; [reflexivity|]); [|done].
    split; [done | cbn; lia].
  - destruct (transfers_job w k ns req c x (set_tasks T s) Htr Hx Hsub Hin) as (add & Hrun & Hadd). eexists. split; [exact Hrun|].
    assert (tasks_of l' = [transfer_task k ns req c; below_task true k ns req c] /\ handed_of l' = []) as [Hl' Hl''].
    { unfold l'. by destruct Htr as [->|[->| ->]]. }
    cbn [subsystem tasks objects handed answered set_tasks set_objects]. rewrite Hl', Hl''. split_and!; try done.
    + exists add. split_and!; [done | done|]. rewrite Hadd. destruct Htr as [->|[->| ->]]; cbn; lia.
    + intros a Ha. by rewrite list_lookup_insert_ne.
    + assert (has_context (<[c := Some (Ctx (set_begin 0 (getTick w) x))]> (objects s)) c ns req k (Some 0)).
      { eexists. split; [by rewrite list_lookup_insert_eq|]. split; [|done]. by destruct Hx. }
      subst l'. cbn. pose proof Htr as [->|[->| ->]]; by split_and!.
    + exists []. by rewrite app_nil_r.
  - unfold run_job. rewrite (x_self _ _ _ _ Hx), (x_kind _ _ _ _ Hx). erewrite bind_ok by (by apply Hns).
    rewrite (x_blocks _ _ _ _ Hx). exists (set_tasks (T ++ [TRead 0 0x10 c]) s).
    split_and!; try done; eexists; [split; [reflexivity|]; split; [done | cbn; lia] | split; [by rewrite app_nil_r | done]].
Qed.

(** The request of a command waits for the CPU no longer. *)
Lemma convert_goes_on w req ns k st st' f L done s T rest :
  (exists c, st = Both c true /\ st' = Both c false /\ f = c /\ rest = [transfer_task k ns req c]) \/
  (exists c, st = HilLeft c true /\ st' = HilLeft c false /\ f = c /\ rest = []) \/
  (exists c d, st = TrimBelow c d true /\ st' = TrimBelow c d false /\ f = d /\ rest = []) ->
  related done (mkLive req ns k st :: L) s -> T ≡ₚ rest ++ (L ≫= tasks_of) ->
  goes_on w (mkLive req ns k st) L done s T (below_task true k ns req f).
Proof.
  intros Hst Hrel HT. destruct (head_stage _ _ _ _ Hrel) as [Hok' Hsub]. pose proof Hok' as (_ & Ht & _).
  destruct (below_ok k ns req (Z.of_nat f) (target_in _ _ Ht)) as (_ & Hw & _). pose proof Hrel as [_ _ Hnd _ _ _].
  rewrite bind_cons in Hnd. apply NoDup_app in Hnd as (Hnd & _ & _).
  set (r := below host sub k ns req (Z.of_nat f)) in *.
  eapply (goes_on_next w _ (mkLive req ns k st') L done s T _ (set_handed (handed s ++ [(op_of k, r)]) (set_tasks (T ++ [THil (op_of k) r]) s)) rest);
    [done | done | reflexivity | done | done | | done | | | | done |].
  - eexists. split; [reflexivity|]. split; [|cbn; lia]. by destruct Hst as [(c & -> & -> & -> & ->)|[(c & -> & -> & -> & ->)|(c & d & -> & -> & -> & ->)]].
  - by destruct Hst as [(c & -> & -> & -> & ->)|[(c & -> & -> & -> & ->)|(c & d & -> & -> & -> & ->)]].
  - by destruct Hst as [(c & -> & -> & -> & ->)|[(c & -> & -> & -> & ->)|(c & d & -> & -> & -> & ->)]]; left.
  - by destruct Hst as [(c & -> & -> & -> & ->)|[(c & -> & -> & -> & ->)|(c & d & -> & -> & -> & ->)]].
  - eexists. split; [reflexivity|]. cbn [fmap list_fmap]. rewrite Hw.
    by destruct Hst as [(c & -> & -> & -> & ->)|[(c & -> & -> & -> & ->)|(c & d & -> & -> & -> & ->)]].
Qed.

(** The first of a transfer and a request has ended. *)
Lemma first_half_goes_on w req ns k st st' c x t L done s T rest :
  (exists conv, st = Both c conv /\ st' = HilLeft c conv /\ rest = [below_task conv k ns req c]) \/
  (st = Both c false /\ st' = DmaLeft c /\ rest = [transfer_task k ns req c]) ->
  related done (mkLive req ns k st :: L) s -> T ≡ₚ rest ++ (L ≫= tasks_of) ->
  objects s !! c = Some (Some (Ctx x)) -> (0 < weight t)%nat ->
  run_function w t (set_tasks T s) = half_done c x (set_tasks T s) ->
  goes_on w (mkLive req ns k st) L done s T t.
Proof.
  intros Hst Hrel HT Hc Ht Hrun. destruct (head_stage _ _ _ _ Hrel) as [Hok' Hsub].
  assert (transfers k /\ context_of ns req k x /\ beginAt x = 0) as (Htr & Hx & Hb).
  { destruct Hst as [(conv & -> & _)|(-> & _)]; destruct Hok' as (_ & _ & _ & Htr & y & Hy & Hxy & Hb);
      rewrite Hc in Hy; by injection Hy as <-. }
  assert (has_context (<[c := Some (Ctx (set_begin 1 (tick x) x))]> (objects s)) c ns req k (Some 1)) as Hctx.
  { eexists. split; [by rewrite list_lookup_insert_eq by (by eapply lookup_lt_Some)|]. split; [|done]. by destruct Hx. }
  eapply (goes_on_next w _ (mkLive req ns k st') L done s T _ (set_objects (<[c := Some (Ctx (set_begin 1 (tick x) x))]> (objects s)) (set_tasks T s)) rest);
    try done.
  - rewrite Hrun. unfold half_done. by rewrite Hb.
  - exists []. rewrite !app_nil_r. split; [done|]. split; [|done]. by destruct Hst as [(conv & -> & -> & ->)|(-> & -> & ->)].
  - intros a _ Ha. cbn. rewrite list_lookup_insert_ne; [done|].
    destruct Hst as [(conv & -> & -> & ->)|(-> & -> & ->)]; cbn in Ha; set_solver.
  - destruct Hst as [(conv & -> & -> & ->)|(-> & -> & ->)]; apply NoDup_singleton.
  - by destruct Hst as [(conv & -> & -> & ->)|(-> & -> & ->)]; left.
  - destruct Hst as [(conv & -> & -> & ->)|(-> & -> & ->)]; destruct Hok' as (H1 & H2 & [H3 H4] & _); cbn; by split_and!.
  - exists []. split; [by rewrite app_nil_r|]. rewrite app_nil_r. by destruct Hst as [([|] & -> & -> & ->)|(-> & -> & ->)].
Qed.

(** A command whose context is deleted with its answer. *)
Lemma finished_goes_on w l x t L done s T objs :
  related done (l :: L) s -> T ≡ₚ L ≫= tasks_of -> l_stage l <> Submitted -> (0 < weight t)%nat ->
  context_of (l_ns l) (l_req l) (l_kind l) x ->
  (forall a, (a < length (objects s))%nat -> a ∉ addresses_of l -> objs !! a = objects s !! a) ->
  run_function w t (set_tasks T s) = Ok (tt, set_objects objs (set_answered (answered s ++ [resp x]) (set_tasks T s))) ->
  handed_of l = [(op_of (l_kind l), below host sub (l_kind l) (l_ns l) (l_req l) 0)] ->
  goes_on w l L done s T t.
Proof.
  intros Hrel HT Hst Ht Hx Hobjs Hrun Hh. destruct (head_stage _ _ _ _ Hrel) as [Hok' Hsub]. destruct l as [req ns k st].
  destruct Hok' as (_ & Htar & Hks & _). cbn [l_req l_ns l_kind l_stage] in *.
  assert (kind_of req = Some k /\ starts k ns req = true) as [Hk Hs] by (by destruct st).
  destruct (requests_started req ns k Htar Hk Hs) as [Hreq Hresp].
  eapply goes_on_end; [done | done | exact Hrun | done | done | done | exact Hobjs | | done | rewrite Hh; cbn [l_req]; by rewrite Hreq].
  cbn. by rewrite (x_resp _ _ _ _ Hx), Hresp.
Qed.

(** The calls that end a transfer or a request. *)
Lemma transfer_done w k ns req c x s : transfers k -> context_of ns req k x -> objects s !! c = Some (Some (Ctx x)) ->
  run_function w (transfer_task k ns req c) s = half_done c x s.
Proof.
  intros Hk Hx Hc. pose proof (x_kind _ _ _ _ Hx) as Hkind. pose proof (x_dma _ _ _ _ Hx) as Hdma.
  assert (forall data, transferred w c data s = half_done c x s) as Ht.
  { intros data. unfold transferred. erewrite bind_ok by (by apply context_here). rewrite Hkind. by destruct Hk as [->|[->| ->]]. }
  assert (forall a n, host_bytes w c a n s = Ok (hostData w (pointer_of k ns req) a n, s)) as Hh.
  { intros a n. unfold host_bytes. erewrite bind_ok by (by apply context_here). rewrite Hdma; [done|]. by destruct Hk as [->|[->| ->]]. }
  destruct Hk as [->|[->| ->]]; cbn [transfer_task run_function]; [| by apply Ht |]; (erewrite bind_ok by apply Hh); apply Ht.
Qed.

Lemma below_done w k ns req f s : ns ∈ lNamespaces sub -> run_function w (below_task false k ns req f) s = called_back f s.
Proof.
  intros Hin. destruct (below_ok k ns req (Z.of_nat f) Hin) as (Hf & _ & _). cbn [below_task run_function]. by rewrite Hf, Nat2Z.id.
Qed.

Lemma half_called_back k ns req c x s : transfers k -> context_of ns req k x -> objects s !! c = Some (Some (Ctx x)) ->
  called_back c s = half_done c x s.
Proof.
  intros Hk Hx Hc. unfold called_back. erewrite bind_ok by (by apply object_here). cbv match. rewrite (x_kind _ _ _ _ Hx).
  by destruct Hk as [->|[->| ->]].
Qed.

Lemma second_half k ns req c x s : context_of ns req k x -> beginAt x = 1 -> subsystem s = sub -> ns ∈ lNamespaces sub ->
  half_done c x s = Ok (tt, set_objects (<[c := None]> (objects s)) (set_answered (answered s ++ [resp x]) s)).
Proof.
  intros Hx Hb Hsub Hin. unfold half_done. rewrite Hb. change (u64 (1 + 1)) with 2. cbn. rewrite Z.eqb_refl, (x_self _ _ _ _ Hx).
  erewrite bind_ok by (by apply this_namespace). done.
Qed.

Lemma dropped_elsewhere {A} (c a : nat) (o : A) (l : list A) : a <> c -> <[c := o]> l !! a = l !! a.
Proof. intros Ha. by rewrite list_lookup_insert_ne. Qed.

(** The last of a transfer and a request has ended. *)
Lemma second_half_goes_on w req ns k st c x t L done s T :
  st = DmaLeft c \/ st = HilLeft c false -> related done (mkLive req ns k st :: L) s -> T ≡ₚ L ≫= tasks_of ->
  context_of ns req k x -> beginAt x = 1 -> (0 < weight t)%nat ->
  run_function w t (set_tasks T s) = half_done c x (set_tasks T s) ->
  goes_on w (mkLive req ns k st) L done s T t.
Proof.
  intros Hst Hrel HT Hx Hb Ht Hrun. destruct (head_stage _ _ _ _ Hrel) as [(_ & Htar & _) Hsub].
  eapply (finished_goes_on w _ x t L done s T (<[c := None]> (objects s))); try done.
  - by destruct Hst as [->| ->].
  - intros a _ Ha. apply dropped_elsewhere. destruct Hst as [->| ->]; cbn in Ha; set_solver.
  - rewrite Hrun. by rewrite (second_half k ns req c x) by (done || by eapply target_in).
  - by destruct Hst as [->| ->].
Qed.

Lemma flush_goes_on w req ns k c L done s T :
  related done (mkLive req ns k (FlushBelow c) :: L) s -> T ≡ₚ L ≫= tasks_of ->
  goes_on w (mkLive req ns k (FlushBelow c)) L done s T (below_task false k ns req c).
Proof.
  intros Hrel HT. destruct (head_stage _ _ _ _ Hrel) as [(_ & Htar & _ & -> & x & Hc & Hx & _) Hsub].
  pose proof (target_in _ _ Htar) as Hin.
  eapply (finished_goes_on w _ x _ L done s T (<[c := None]> (objects s))); try done.
  - cbn. lia.
  - intros a _ Ha. apply dropped_elsewhere. set_solver.
  - rewrite below_done by done. unfold called_back. erewrite bind_ok by (by apply object_here). cbv match. rewrite (x_kind _ _ _ _ Hx).
    rewrite (x_self _ _ _ _ Hx). erewrite bind_ok by (by apply this_namespace). done.
Qed.

Lemma one_range ns data d n c s r : subsystem s = sub -> objects s !! d = Some (Some (Trims n c)) ->
  command sub ns (field data 8 8) (field data 4 4) (Z.of_nat d) = Ok r ->
  trim_range ns data d 0 s =
    Ok (tt, set_tasks (tasks s ++ [TConvert HilTrim r]) (set_objects (<[d := Some (Trims (n + 1) c)]> (objects s)) s)).
Proof.
  intros Hsub Hd Hr. unfold trim_range. erewrite bind_ok by (by apply object_here). cbv match. unfold put_object.
  rewrite modify_bind. change (drop (Z.to_nat (0 * 16)) data) with data. by erewrite convert_ok by done.
Qed.

(** The list of a trim has been read: its range becomes a request. *)
Lemma trim_list_goes_on w req ns k c L done s T : world_ok host sub w ->
  related done (mkLive req ns k (TrimList c) :: L) s -> T ≡ₚ L ≫= tasks_of ->
  goes_on w (mkLive req ns k (TrimList c)) L done s T (TRead 0 0x10 c).
Proof.
  intros [Hh _] Hrel HT. destruct (head_stage _ _ _ _ Hrel) as [(Hn & Htar & Hks & -> & x & Hc & Hx & _) Hsub].
  pose proof (target_in _ _ Htar) as Hin. pose proof (lookup_lt_Some _ _ _ Hc) as Hlt. set (d := length (objects s)).
  set (r := below host sub TrimContext ns req (Z.of_nat d)).
  destruct (below_ok TrimContext ns req (Z.of_nat d) Hin) as (_ & _ & Hcmd). specialize (Hcmd ltac:(done)).
  set (s' := set_tasks (T ++ [TConvert HilTrim r]) (set_objects (objects s ++ [Some (Trims 1 c)]) s)).
  assert (run_function w (TRead 0 0x10 c) (set_tasks T s) = Ok (tt, s')) as Hrun.
  { cbn [run_function]. assert (host_bytes w c 0 0x10 (set_tasks T s) = Ok (host (pointer_of TrimContext ns req) 0 0x10, set_tasks T s)) as Hb.
    { unfold host_bytes. erewrite bind_ok by (by apply context_here). rewrite (x_dma _ _ _ _ Hx), Hh by done. done. }
    erewrite bind_ok by exact Hb. unfold transferred. erewrite bind_ok by (by apply context_here). rewrite (x_kind _ _ _ _ Hx).
    set (data := host _ _ _) in *. unfold trims. set (s1 := set_objects (objects s ++ [Some (Trims 0 c)]) (set_tasks T s)).
    assert (objects s1 !! d = Some (Some (Trims 0 c))) as Hd1 by (cbn; unfold d; by rewrite lookup_app_r, Nat.sub_diag by lia).
    assert (for_do 0 1 (trim_range ns data d) s1 = Ok (tt, s')) as Hfor.
    { unfold for_do, for_range. cbn [Z.sub Z.add Z.opp Z.pos_sub seqZ]. change (seqZ 0 (1 - 0)) with [0].
      erewrite foldM_ok by (apply (one_range ns data d 0 c s1 r); done). cbn. unfold mret, M_ret, s'. do 2 f_equal.
      unfold d. by rewrite insert_app_r_alt, Nat.sub_diag by lia. }
    assert (new_object (Trims 0 c) (set_tasks T s) = Ok (d, s1)) as Hnew by done.
    erewrite bind_ok by exact Hnew. rewrite (x_self _ _ _ _ Hx). erewrite bind_ok by (by apply this_namespace).
    rewrite (x_blocks _ _ _ _ Hx). erewrite bind_ok by exact Hfor.
    erewrite bind_ok by (apply (object_here d (Trims 1 c)); cbn; unfold d; by rewrite lookup_app_r, Nat.sub_diag by lia). done. }
  eapply (goes_on_next w _ (mkLive req ns TrimContext (TrimBelow c d true)) L done s T _ s' []); try done.
  - eexists. split; [reflexivity|]. split; [done | cbn; lia].
  - intros a Ha _. by apply lookup_app_l.
  - cbn. apply NoDup_cons. split; [|apply NoDup_singleton]. intros ->%list_elem_of_singleton. unfold d in Hlt. lia.
  - intros a Ha. cbn in Ha. apply elem_of_cons in Ha as [->|Ha]; [left; left|]. right. apply list_elem_of_singleton in Ha as ->. unfold d. lia.
  - split_and!; try done; [by destruct Hks.. | |].
    + exists x. split; [|done]. by apply lookup_app_l_Some.
    + unfold d. cbn. by rewrite lookup_app_r, Nat.sub_diag by lia.
  - exists []. by rewrite app_nil_r.
Qed.

(** The request of a trim has ended. *)
Lemma trim_below_goes_on w req ns k c d L done s T :
  related done (mkLive req ns k (TrimBelow c d false) :: L) s -> T ≡ₚ L ≫= tasks_of ->
  goes_on w (mkLive req ns k (TrimBelow c d false)) L done s T (below_task false k ns req d).
Proof.
  intros Hrel HT. destruct (head_stage _ _ _ _ Hrel) as [(_ & Htar & _ & -> & (x & Hc & Hx & _) & Hd) Hsub].
  pose proof (target_in _ _ Htar) as Hin.
  eapply (finished_goes_on w _ x _ L done s T (<[d := None]> (<[c := None]> (objects s)))); try done.
  - cbn. lia.
  - intros a _ Ha. cbn in Ha. rewrite !dropped_elsewhere by set_solver. done.
  - rewrite below_done by done. unfold called_back. erewrite bind_ok by (by apply object_here). cbv match.
    unfold eachTrimDone. erewrite bind_ok by (by apply object_here). cbv match. change (1 - 1 =? 0) with true. cbv match.
    unfold mbind at 1, M_bind at 1. erewrite bind_ok by (by apply context_here). rewrite (x_self _ _ _ _ Hx).
    erewrite bind_ok by (by apply this_namespace). done.
Qed.

(** ** The commands together *)

Lemma run_goes_on w l k rest L done s T : world_ok host sub w -> related done (l :: L) s -> tasks_of l ≡ₚ k :: rest ->
  T ≡ₚ rest ++ (L ≫= tasks_of) -> goes_on w l L done s T k.
Proof.
  intros Hw Hrel Hk HT. destruct l as [req ns kd st]. destruct (head_stage _ _ _ _ Hrel) as [(_ & Htar & _ & Hst) Hsub].
  pose proof (target_in _ _ Htar) as Hin.
  destruct st as [|c|c|c|c v|c|c v|c|c d v]; cbn [tasks_of] in Hk;
    try (apply Permutation_singleton_l in Hk; injection Hk as <- <-; cbn [app] in HT).
  - by apply submitted_goes_on.
  - by apply initiated_goes_on.
  - by apply ready_goes_on.
  - by apply flush_goes_on.
  - destruct Hst as (Htr & x & Hc & Hx & Hb). symmetry in Hk. apply Permutation_cons_inv_l in Hk as (l1 & l2 & Heq & Hrest).
    destruct l1 as [|t1 [|t2 [|t3 l1]]]; try discriminate Heq; injection Heq as; subst; cbn [app] in Hrest.
    + eapply (first_half_goes_on w req ns kd _ (HilLeft c v) c x); [left; by exists v | done | by rewrite HT, Hrest | done | |].
      * destruct Htr as [->|[->| ->]]; cbn; lia.
      * by apply transfer_done.
    + destruct v.
      * eapply (convert_goes_on w req ns kd _ (Both c false) c); [left; by exists c | done | by rewrite HT, Hrest].
      * eapply (first_half_goes_on w req ns kd _ (DmaLeft c) c x); [by right | done | by rewrite HT, Hrest | done | cbn; lia |].
        rewrite below_done by done. by eapply half_called_back.
  - destruct Hst as (Htr & x & Hc & Hx & Hb). eapply (second_half_goes_on w req ns kd _ c x); try done; [by left | |].
    + destruct Htr as [->|[->| ->]]; cbn; lia.
    + by apply transfer_done.
  - destruct v.
    + eapply (convert_goes_on w req ns kd _ (HilLeft c false) c _ _ _ _ []); [right; left; by exists c | done | done].
    + destruct Hst as (Htr & x & Hc & Hx & Hb). eapply (second_half_goes_on w req ns kd _ c x); try done; [by right | cbn; lia |].
      rewrite below_done by done. by eapply half_called_back.
  - by apply trim_list_goes_on.
  - destruct v; [|by apply trim_below_goes_on].
    eapply (convert_goes_on w req ns kd _ (TrimBelow c d false) d _ _ _ _ []); [do 2 right; by exists c, d | done | done].
Qed.

Lemma task_of_command done live s i k : related done live s -> tasks s !! i = Some k ->
  exists l L rest, live ≡ₚ l :: L /\ tasks_of l ≡ₚ k :: rest /\ take_nth i (tasks s) ≡ₚ rest ++ (L ≫= tasks_of) /\
    tasks s ≡ₚ k :: take_nth i (tasks s).
Proof.
  intros [_ Ht _ _ _ _] Hi.
  assert (tasks s ≡ₚ k :: take_nth i (tasks s)) as Hp.
  { unfold take_nth. rewrite <- (take_drop_middle (tasks s) i k Hi) at 1. by rewrite Permutation_middle. }
  assert (k ∈ live ≫= tasks_of) as Hin by (rewrite <- Ht, Hp; left).
  apply list_elem_of_bind in Hin as (l & Hk & Hl). apply elem_of_Permutation in Hl as [L HL].
  apply elem_of_Permutation in Hk as [rest Hrest]. exists l, L, rest. split_and!; [done | done | | done].
  rewrite HL, bind_cons, Hrest in Ht. rewrite Hp in Ht. by apply Permutation_cons_inv in Ht.
Qed.

Lemma run_related w i done live s : world_ok host sub w -> related done live s -> (i < length (tasks s))%nat ->
  exists s' done' live', run_task w i s = Ok (tt, s') /\ related done' live' s' /\
    done' ++ (l_req <$> live') ≡ₚ done ++ (l_req <$> live) /\ (work s' < work s)%nat.
Proof.
  intros Hw Hrel Hi. destruct (lookup_lt_is_Some_2 _ _ Hi) as [k Hk].
  destruct (task_of_command _ _ _ _ _ Hrel Hk) as (l & L & rest & HL & Hl & HT & Hp).
  rewrite HL in Hrel. destruct (run_goes_on w l k rest L done s _ Hw Hrel Hl HT) as (s' & fin & more & Hrun & Hrel' & Hreqs & Hwork).
  exists s', (fin ++ done), (more ++ L). split_and!; [| done | |].
  - unfold run_task, gets, deref, mbind, M_bind. rewrite Hk. exact Hrun.
  - rewrite HL, fmap_cons, fmap_app.
    transitivity ((fin ++ (l_req <$> more)) ++ done ++ (l_req <$> L)); [solve_Permutation|]. rewrite Hreqs. solve_Permutation.
  - assert (work s = weight k + sum_list_with weight (take_nth i (tasks s)))%nat as ->; [|lia].
    unfold work. by rewrite Hp at 1.
Qed.

Lemma arrive_related w req done live s : nvm_command req -> related done live s ->
  exists s' done' live', submitCommand cfg w req s = Ok (tt, s') /\ related done' live' s' /\
    done' ++ (l_req <$> live') ≡ₚ req :: done ++ (l_req <$> live).
Proof.
  intros Hn Hrel. destruct Hrel as [Hsub Ht Hnd Hst Ha Hh]. destruct Hn as [Hq Hr].
  unfold submitCommand. rewrite modify_bind, (proj2 (Z.eqb_neq _ 0)) by done. unfold pass_on, get, mbind, M_bind, mret, M_ret.
  cbn [fst snd subsystem set_commandCount]. rewrite Hsub.
  destruct (target sub req) as [ns|] eqn:Htar.
  - exists (set_tasks (tasks s ++ [submit_task ns req]) (set_commandCount (u64 (commandCount s + 1)) s)),
      done, (mkLive req ns FlushContext Submitted :: live).
    split; [|split; [split|]]; cbn; try done.
    + unfold target, submit_task in *. destruct (_ <? _); [by rewrite Htar|]. by destruct (lNamespaces sub).
    + rewrite Ht. rewrite Permutation_app_comm. done.
    + constructor; [by split_and! | done].
    + solve_Permutation.
  - exists (set_answered (answered s ++ [response sub req]) (set_commandCount (u64 (commandCount s + 1)) s)), (req :: done), live.
    assert (requests host sub req = []) as Hreq by (unfold requests; by rewrite Htar).
    assert (response sub req = generic false ABORT_INVALID_NAMESPACE (CQEntryWrapper_make req)) as Hresp by (unfold response; by rewrite Htar).
    split; [|split; [split|]]; cbn; rewrite ?Hreq; try done.
    + rewrite Hresp. unfold target in Htar. destruct (_ <? _); [by rewrite Htar|]. by destruct (lNamespaces sub).
    + rewrite Ha. rewrite Permutation_app_comm. done.
Qed.

Lemma served_related s0 reqs s : idle sub s0 -> served cfg host sub s0 reqs s ->
  exists done live, related done live s /\ done ++ (l_req <$> live) ≡ₚ reqs.
Proof.
  intros [H1 H2 H3 H4]. induction 1 as [|reqs s w req s' _ (done & live & Hrel & Hp) Hn Hrun|reqs s w i s' _ (done & live & Hrel & Hp) Hw Hrun].
  - exists [], []. split; [|done]. split; try done; by rewrite ?H2, ?H3, ?H4; try constructor.
  - destruct (arrive_related w req _ _ _ Hn Hrel) as (s1 & done' & live' & Hrun' & Hrel' & Hp').
    rewrite Hrun in Hrun'. injection Hrun' as <-. exists done', live'. by rewrite Hp', Hp.
  - destruct (decide (i < length (tasks s))%nat) as [Hi|Hi].
    + destruct (run_related w i _ _ _ Hw Hrel Hi) as (s1 & done' & live' & Hrun' & Hrel' & Hp' & _).
      rewrite Hrun in Hrun'. injection Hrun' as <-. exists done', live'. by rewrite Hp', Hp.
    + exfalso. unfold run_task, gets, deref, mbind, M_bind in Hrun. by rewrite (lookup_ge_None_2 (tasks s) i) in Hrun by lia.
Qed.
End Stages.

(** C11: Commands of I/O queues of any number and in flight together, with their tasks done in any order: every task that
    waits can be done, none of them uses a deleted context, and there is less to do after it, so that the commands end; a
    command of an I/O queue is always taken; when nothing waits any more, every command has been answered once with the
    status it is to get, and the layer below has been handed the requests of the commands, each once.  A trim has exactly
    one range here: with more, [second_range_undefined] shows that a deleted context is used.  The host's data stay and
    no format is under way. *)
Theorem commands_served {C : Type} `{CommandController C} cfg host sub (s0 s : t C) reqs :
  namespaces_ok sub -> idle sub s0 -> served cfg host sub s0 reqs s ->
  (forall w i, world_ok host sub w -> (i < length (tasks s))%nat ->
     exists s', run_task w i s = Ok (tt, s') /\ (work s' < work s)%nat) /\
  (forall w req, nvm_command req -> exists s', submitCommand cfg w req s = Ok (tt, s')) /\
  (tasks s = [] -> answered s ≡ₚ response sub <$> reqs /\ without_function <$> handed s ≡ₚ reqs ≫= requests host sub).
Proof.
  intros Hok Hidle Hs. destruct (served_related cfg host sub Hok s0 reqs s Hidle Hs) as (done & live & Hrel & Hp). split_and!.
  - intros w i Hw Hi. destruct (run_related host sub Hok w i _ _ _ Hw Hrel Hi) as (s' & _ & _ & Hrun & _ & _ & Hlt). by exists s'.
  - intros w req Hn. destruct (arrive_related cfg host sub w req _ _ _ Hn Hrel) as (s' & _ & _ & Hrun & _). by exists s'.
  - intros Ht. destruct Hrel as [_ Htasks _ _ Ha Hh]. rewrite Ht in Htasks.
    destruct live as [|l live].
    2:{ symmetry in Htasks. apply Permutation_nil_r in Htasks. rewrite bind_cons in Htasks. destruct l as [? ? ? []]; discriminate Htasks. }
    rewrite fmap_nil, app_nil_r in Hp. rewrite <- Hp. split; [done|]. by rewrite Hh, app_nil_r.
Qed.


(** ** What goes wrong *)

Section Wrong.
  Context {C : Type} `{CommandController C} (cfg : Conf).
  Implicit Types (s : t C).

(** A command for 65536 blocks, whose number is 16 bits wide, is answered with success by
    [start_transfer], and nothing is handed to the layer below. *)
Lemma blocks_wrap w k ns req s : attached ns = true -> Z.land (dword12 (sqew_entry req)) 0xFFFF = 0xFFFF ->
  start_transfer w k ns req s = Ok (tt, set_answered (answered s ++ [CQEntryWrapper_make req]) s).
Proof. intros Ha Hn. unfold start_transfer, entry_nlb. by rewrite Ha, Hn. Qed.

(** Once a trim counts two ranges or more, the end of one request deletes the counter, and
    the end of another uses it. *)
Lemma second_range_undefined d n c s : objects s !! d = Some (Some (Trims n c)) -> 2 <= n ->
  exists s', called_back d s = Ok (tt, s') /\ called_back d s' = Err UB.
Proof.
  intros Hd Hn. eexists. split.
  - unfold called_back. erewrite bind_ok by (by apply object_here). cbv match. unfold eachTrimDone.
    erewrite bind_ok by (by apply object_here). cbv match. rewrite (proj2 (Z.eqb_neq (n - 1) 0)) by lia. reflexivity.
  - unfold called_back, the_object, gets, mbind, M_bind. cbn. rewrite list_lookup_insert_eq by (by eapply lookup_lt_Some). done.
Qed.

(** A refused creation of a queue gets no answer, and has no task that would lead to one. *)
Lemma refused_creation_unanswered (m : Z -> M C Z) r s c' ret : m (Z.of_nat (length (objects s))) (controller s) = Ok (ret, c') ->
  ret <> 0 -> exists s', create m r s = Ok (true, s') /\ tasks s' = tasks s /\ answered s' = answered s.
Proof.
  intros Hm Hr. eexists. split; [|split].
  - unfold create, new_object, on_controller, zoom, gets, modify, mret, M_ret, mbind, M_bind. cbn. rewrite Hm.
    rewrite (proj2 (Z.eqb_neq ret 0)) by done. reflexivity.
  - done.
  - done.
Qed.
End Wrong.

(** ** Every command is accounted for *)

Create HintDb accounts.

Section Accounts.
  Context {C : Type} `{CommandController C} (cfg : Conf).
  Implicit Types (s : t C) (req : SQEntryWrapper) (w : World).

(** The answers given, and the tasks that lead to one. *)
Definition accounted s : nat := length (answered s) + length (tasks s).

(** [m] adds [n] to them, when it ends. *)
Definition adds {A} (n : nat) (m : M (t C) A) : Prop :=
  forall s a s', m s = Ok (a, s') -> accounted s' = (n + accounted s)%nat.

Lemma adds_bind {A B} n k (m : M (t C) A) (f : A -> M (t C) B) : adds n m -> (forall a, adds k (f a)) -> adds (n + k) (m ≫= f).
Proof.
  intros Hm Hf s b s' Hb. unfold mbind, M_bind in Hb. destruct (m s) as [[a s1]|] eqn:E; [|done].
  rewrite (Hf a _ _ _ Hb), (Hm _ _ _ E). lia.
Qed.
Lemma adds_after {A B} n (m : M (t C) A) (f : A -> M (t C) B) : adds 0 m -> (forall a, adds n (f a)) -> adds n (m ≫= f).
Proof. apply (adds_bind 0). Qed.
Lemma adds_then {A B} (m : M (t C) A) (f : A -> M (t C) B) : adds 1 m -> (forall a, adds 0 (f a)) -> adds 1 (m ≫= f).
Proof. apply (adds_bind 1 0). Qed.
Lemma adds_ret {A} (a : A) : adds 0 (mret (M := M (t C)) a).
Proof. intros s b s' [= _ <-]. done. Qed.
Lemma adds_get : adds 0 (get (S := t C)).
Proof. intros s b s' [= _ <-]. done. Qed.
Lemma adds_gets {A} (f : t C -> A) : adds 0 (gets f).
Proof. intros s b s' [= _ <-]. done. Qed.
Lemma adds_lift {A} (r : res A) : adds 0 (lift (S := t C) r).
Proof. intros s b s' Hb. unfold lift in Hb. destruct r; [|done]. by injection Hb as _ <-. Qed.
Lemma adds_fail {A} n e : adds n (fail (S := t C) (A := A) e).
Proof. by intros s b s' Hb. Qed.
Lemma adds_controller {A} (m : M C A) : adds 0 (on_controller m).
Proof. intros s b s' Hb. unfold on_controller, zoom in Hb. destruct (m _) as [[a c]|]; [|done]. by injection Hb as _ <-. Qed.
Lemma adds_modify f : (forall s, answered (f s) = answered s /\ length (tasks (f s)) = length (tasks s)) -> adds 0 (modify f).
Proof. intros Hf s b s' [= _ <-]. unfold accounted. destruct (Hf s) as [-> ->]. done. Qed.
Lemma adds_answer r : adds 1 (answer (C := C) r).
Proof. intros s b s' [= _ <-]. unfold accounted. cbn. rewrite length_app. cbn. lia. Qed.
Lemma adds_push k : adds 1 (push (C := C) k).
Proof. intros s b s' [= _ <-]. unfold accounted. cbn. rewrite length_app. cbn. lia. Qed.
Lemma adds_new_object o : adds 0 (new_object (C := C) o).
Proof. intros s b s' [= _ <-]. done. Qed.
Lemma adds_forget a : adds 0 (forget (C := C) a).
Proof. apply adds_modify. intros s. cbn. by rewrite length_fmap. Qed.
#[local] Hint Resolve adds_ret adds_get adds_gets adds_lift adds_fail adds_controller adds_answer adds_push adds_new_object
  adds_forget : accounts.
#[local] Hint Extern 1 (adds 0 (modify _)) => (apply adds_modify; by intros) : accounts.

(** Through the branches and the steps of an operation; what adds nothing comes first. *)
Ltac silent := repeat case_match; solve [eauto with accounts].
Ltac count :=
  repeat match goal with
  | |- adds _ (if ?b then _ else _) => destruct b
  | |- adds _ (match ?b with _ => _ end) => destruct b
  | |- adds 0 (_ ≫= _) => apply adds_after; [|intros ?]
  | |- adds 1 (_ ≫= _) => apply adds_after; [silent|intros ?]
  | |- adds 1 (_ ≫= _) => apply adds_then; [|intros ?]
  | |- adds _ _ => solve [eauto with accounts]
  end.

Lemma adds_start_log v req r : adds 1 (start_log (C := C) v req r).
Proof. unfold start_log. count. Qed.
Lemma adds_pass_on req r : adds 1 (pass_on (C := C) req r).
Proof. unfold pass_on. count. Qed.

(** The admin commands that are not passed on count for one. *)
Lemma adds_commands w req : adds 1 (deleteSQueue req) /\ adds 1 (deleteCQueue req) /\ adds 1 (identify_command cfg w req) /\
  adds 1 (abort req) /\ adds 1 (setFeatures cfg req) /\ adds 1 (getFeatures cfg req) /\ adds 1 (namespaceManagement req) /\
  adds 1 (namespaceAttachment req) /\ adds 1 (formatNVM w req).
Proof.
  split_and!.
  all: unfold deleteSQueue, deleteCQueue, identify_command, abort, setFeatures, getFeatures, namespaceManagement,
    namespaceAttachment, formatNVM; count.
Qed.

(** What an admin command asks of the controller when it creates a queue that is not too long, and whether the
    controller refuses it. *)
Definition creation req (func : Z) : option (M C Z) :=
  let e := sqew_entry req in
  if negb (sqew_sqID req =? 0) || (maxQueueEntry cfg <? entry_size e) then None
  else if opcode e =? 0x01 then
    Some (ctl_createSQueue (low16 (dword10 e)) (high16 (dword11 e)) (entry_size e)
            (Z.shiftr (Z.land (dword11 e) 6) 1) (negb (Z.land (dword11 e) 1 =? 0)) (data1 e) func)
  else if opcode e =? 0x05 then
    Some (ctl_createCQueue (low16 (dword10 e)) (entry_size e) (high16 (dword11 e))
            (negb (Z.land (dword11 e) 2 =? 0)) (negb (Z.land (dword11 e) 1 =? 0)) (data1 e) func)
  else None.
Definition refused req s : bool :=
  match creation req (Z.of_nat (length (objects s))) with
  | Some m => match m (controller s) with Ok (ret, _) => negb (ret =? 0) | Err _ => false end
  | None => false
  end.

Lemma not_refused req s : sqew_sqID req <> 0 \/ (opcode (sqew_entry req) <> 0x01 /\ opcode (sqew_entry req) <> 0x05) -> refused req s = false.
Proof.
  intros Ho. unfold refused, creation. destruct (Z.eqb_spec (sqew_sqID req) 0) as [Hq|Hq]; [|done]. cbn [negb orb].
  destruct Ho as [Ho|[H1 H5]]; [done|]. destruct (_ <? _); [done|]. by rewrite (proj2 (Z.eqb_neq _ 1) H1), (proj2 (Z.eqb_neq _ 5) H5).
Qed.

(** The creation of a queue counts for none exactly when the controller refuses it. *)
Lemma create_accounted (m : Z -> M C Z) r s b s' : create m r s = Ok (b, s') ->
  b = true /\ exists ret c, m (Z.of_nat (length (objects s))) (controller s) = Ok (ret, c) /\
    accounted s' = ((if (ret =? 0)%Z then 1 else 0) + accounted s)%nat.
Proof.
  intros Hb. unfold create, new_object, on_controller, zoom, gets, modify, mbind, M_bind, mret, M_ret in Hb. cbn in Hb.
  destruct (m _ _) as [[ret c]|]; [|done]. destruct (ret =? 0) eqn:Er; cbn in Hb; injection Hb as <- <-; (split; [done|]); exists ret, c; rewrite Er;
    (split; [done|]); unfold accounted; cbn; rewrite ?length_app; cbn; lia.
Qed.

(** A health log for a single namespace. *)
Definition single_health_log req : bool :=
  (sqew_sqID req =? 0) && (opcode (sqew_entry req) =? 0x02) && (low16 (dword10 (sqew_entry req)) =? LOG_SMART_HEALTH_INFORMATION) &&
  negb (namespaceID (sqew_entry req) =? NSID_ALL).

Lemma getLogPage_accounted req s b s' : getLogPage req s = Ok (b, s') -> sqew_sqID req = 0 -> opcode (sqew_entry req) = 0x02 ->
  b = negb (single_health_log req) /\ accounted s' = S (accounted s).
Proof.
  intros Hb Hq Hop. unfold single_health_log. rewrite Hq, Hop. split.
  - unfold getLogPage, start_log, answer, push, new_object, gets, modify, mbind, M_bind, mret, M_ret in Hb.
    repeat case_match; simplify_eq/=; try done; unfold LOG_ERROR_INFORMATION, LOG_SMART_HEALTH_INFORMATION in *; lia.
  - assert (adds 1 (getLogPage (C := C) req)) as Ha; [|by apply Ha in Hb]. unfold getLogPage. pose proof adds_start_log. count.
Qed.

(** [m] can only give [a]. *)
Definition gives {A} (a : A) (m : M (t C) A) : Prop := forall s b s', m s = Ok (b, s') -> b = a.
Lemma gives_ret {A} (a : A) : gives a (mret (M := M (t C)) a).
Proof. by intros s b s' [= <- _]. Qed.
Lemma gives_bind {A B} (b : B) (m : M (t C) A) (f : A -> M (t C) B) : (forall a, gives b (f a)) -> gives b (m ≫= f).
Proof. intros Hf s b' s' Hb. unfold mbind, M_bind in Hb. destruct (m s) as [[a s1]|]; [|done]. by apply Hf in Hb. Qed.
Ltac processed := repeat first [apply gives_ret | apply gives_bind; intros ? | case_match].

(** An admin command that is processed counts for one. *)
Lemma processed_once w req :
  let once m := adds 1 m /\ gives true m in
  once (deleteSQueue req) /\ once (deleteCQueue req) /\ once (identify_command cfg w req) /\
  once (abort req) /\ once (setFeatures cfg req) /\ once (getFeatures cfg req) /\ once (namespaceManagement req) /\
  once (namespaceAttachment req) /\ once (formatNVM w req).
Proof.
  destruct (adds_commands w req) as (A1 & A2 & A3 & A4 & A5 & A6 & A7 & A8 & A9). cbv zeta. split_and!; try done.
  all: unfold deleteSQueue, deleteCQueue, identify_command, abort, setFeatures, getFeatures, namespaceManagement,
    namespaceAttachment, formatNVM; processed.
Qed.

(** What an admin command counts for before it is passed on: one when it is processed; a refused
    creation for none, as does what is passed on, apart from the log that is answered as well. *)
Definition outcome req s (p : bool) s' : Prop :=
  if p then single_health_log req = false /\ accounted s' = ((if refused req s then 0 else 1) + accounted s)%nat
  else refused req s = false /\ accounted s' = ((if single_health_log req then 1 else 0) + accounted s)%nat.
Definition answers_as req (m : M (t C) bool) : Prop :=
  forall s p r s', (p ← m; mret (p, CQEntryWrapper_make req)) s = Ok ((p, r), s') -> outcome req s p s'.

Lemma no_log req : opcode (sqew_entry req) <> 0x02 -> single_health_log req = false.
Proof. intros Hop. unfold single_health_log. rewrite (proj2 (Z.eqb_neq (opcode _) 2)) by done. by rewrite andb_false_r. Qed.

Lemma once_outcome req (m : M (t C) bool) : adds 1 m /\ gives true m -> opcode (sqew_entry req) <> 0x02 ->
  opcode (sqew_entry req) <> 0x01 /\ opcode (sqew_entry req) <> 0x05 -> answers_as req m.
Proof.
  intros [Ha Hg] Hop Hno s p r s' Hm. unfold mbind, M_bind in Hm. destruct (m s) as [[b s1]|] eqn:E; [|done]. injection Hm as -> _ <-.
  pose proof (Hg _ _ _ E) as ->. split; [by apply no_log|]. rewrite not_refused by (by right). by apply Ha in E.
Qed.

Lemma create_outcome req (m : M (t C) bool) : sqew_sqID req = 0 ->
  (opcode (sqew_entry req) = 0x01 /\ m = createSQueue cfg req) \/ (opcode (sqew_entry req) = 0x05 /\ m = createCQueue cfg req) -> answers_as req m.
Proof.
  intros Hq Hm s p r s' Hr. unfold mbind, M_bind in Hr. destruct (m s) as [[b s1]|] eqn:E; [|done]. injection Hr as -> _ <-.
  assert (p = true) as -> by (destruct Hm as [[_ ->]|[_ ->]]; unfold createSQueue, createCQueue in E; destruct (_ <? _); [by injection E as <- _| by apply create_accounted in E as [? _]|by injection E as <- _| by apply create_accounted in E as [? _]]).
  assert (single_health_log req = false) as Hlog by (apply no_log; destruct Hm as [[-> _]|[-> _]]; done).
  split; [exact Hlog|]. unfold refused, creation. rewrite Hq, Z.eqb_refl. cbn [negb orb].
  destruct Hm as [[Hop ->]|[Hop ->]]; rewrite Hop; unfold createSQueue, createCQueue in E;
    destruct (Z.ltb_spec (maxQueueEntry cfg) (entry_size (sqew_entry req))) as [Hlong|Hshort].
  1,3: injection E as <-; unfold accounted; cbn; rewrite length_app; cbn; lia.
  - change (1 =? 1) with true. apply create_accounted in E as (_ & ret & c & Hret & ->). cbv beta iota. rewrite Hret. by destruct (ret =? 0).
  - change (5 =? 1) with false. change (5 =? 5) with true.
    apply create_accounted in E as (_ & ret & c & Hret & ->). cbv beta iota. rewrite Hret. by destruct (ret =? 0).
Qed.

Lemma log_outcome req : sqew_sqID req = 0 -> opcode (sqew_entry req) = 0x02 -> answers_as req (getLogPage req).
Proof.
  intros Hq Hop s p r s' Hr. unfold mbind, M_bind in Hr. destruct (getLogPage req s) as [[b s1]|] eqn:E; [|done]. injection Hr as -> _ <-.
  destruct (getLogPage_accounted req s p s1 E Hq Hop) as [-> Ha]. unfold outcome.
  rewrite not_refused by (right; rewrite Hop; by split). by destruct (single_health_log req).
Qed.

Lemma submit_admin_outcome w req s p r s' : submit_admin cfg w req s = Ok ((p, r), s') -> sqew_sqID req = 0 -> outcome req s p s'.
Proof.
  intros Hs Hq. destruct (processed_once w req) as (A1 & A2 & A3 & A4 & A5 & A6 & A7 & A8 & A9). unfold submit_admin in Hs.
  repeat match type of Hs with
  | (if opcode (sqew_entry req) =? ?k then _ else _) _ = _ => destruct (Z.eqb_spec (opcode (sqew_entry req)) k) as [Hop|]
  end.
  all: try (injection Hs as <- _ <-; split; [apply not_refused; right; split; congruence | by rewrite no_log by congruence]).
  all: revert Hs; generalize s p r s'; try (apply once_outcome; [assumption | congruence | split; congruence]).
  - apply create_outcome; [done | by left].
  - by apply log_outcome.
  - apply create_outcome; [done | by right].
Qed.
End Accounts.

(** C27: every command is accounted for when it has been taken: it has been answered, or exactly one task waits on its behalf.
    Exceptions are a health log for a single namespace, which counts twice, and the creation of a queue that the controller
    refuses (it returns an error for exactly this creation in this state), which counts for nothing; one that it accepts
    has its task. *)
Theorem commands_accounted {C : Type} `{CommandController C} cfg w req (s s' : t C) : submitCommand cfg w req s = Ok (tt, s') ->
  accounted s' = ((if single_health_log req then 2 else if refused cfg req s then 0 else 1) + accounted s)%nat.
Proof.
  intros Hs. unfold submitCommand in Hs. rewrite modify_bind in Hs. set (s1 := set_commandCount _ s) in *.
  assert (accounted s1 = accounted s) as <- by done. change (refused cfg req s) with (refused cfg req s1). destruct (Z.eqb_spec (sqew_sqID req) 0) as [Hq|Hq].
  - unfold mbind, M_bind in Hs. destruct (submit_admin cfg w req s1) as [[[p r] s2]|] eqn:E; [|done].
    pose proof (submit_admin_outcome cfg w req s1 p r s2 E Hq) as Ho. destruct p; cbn in Ho; destruct Ho as [Hlog Ho].
    + injection Hs as <-. by rewrite Ho, Hlog.
    + rewrite (adds_pass_on _ _ _ _ _ Hs), Ho, Hlog. by destruct (single_health_log req).
  - assert (single_health_log req = false) as -> by (unfold single_health_log; by rewrite (proj2 (Z.eqb_neq _ 0)) by done).
    rewrite not_refused by (by left). unfold mbind, M_bind, mret, M_ret in Hs. by apply (adds_pass_on _ _ _ _ _) in Hs.
Qed.

(** ** The identify data *)

Lemma eight_bytes x : exists b0 b1 b2 b3 b4 b5 b6 b7, le_bytes 8 x = [b0; b1; b2; b3; b4; b5; b6; b7].
Proof. cbn [le_bytes]. repeat eexists. Qed.
Lemma two_bytes x : exists b0 b1, le_bytes 2 x = [b0; b1].
Proof. cbn [le_bytes]. repeat eexists. Qed.

(** The page is filled without a store outside of it.  Entries of 64 and 16 bytes are announced, and of the optional
    commands compare and dataset management, as they are executed.  The unallocated capacity takes the place of the total
    one, its own place is empty; the version has its bytes in a wrong order and is not the one of the registers. *)
Theorem identify_announces c total used : exists data, identify c (total, used) (zeros 0x1000) = Ok data /\ vlen data = 0x1000 /\
  field data 0x200 1 = 0x66 /\ field data 0x201 1 = 0x44 /\ field data 0x208 2 = 5 /\
  take 8 (drop 0x118 data) = le_bytes 8 (u64 (total - used)) /\ take 8 (drop 0x128 data) = zeros 8 /\
  field data 0x50 4 = 0x401 /\ version RegisterTable_make = 0x10201.
Proof.
  unfold identify, capabilities, attributes. destruct (eight_bytes (u64 (total - used))) as (b0 & b1 & b2 & b3 & b4 & b5 & b6 & b7 & ->).
  destruct (eight_bytes total) as (a0 & a1 & a2 & a3 & a4 & a5 & a6 & a7 & ->).
  destruct (two_bytes (vid c)) as (c0 & c1 & ->). destruct (two_bytes (ssvid c)) as (d0 & d1 & ->).
  unfold command_set. destruct c as [v sv [] []]; eexists; (split; [vm_compute; reflexivity|]); split_and!; vm_compute; reflexivity.
Qed.

(** ** Witnesses *)

Lemma served_picks {C} `{CommandController C} cfg host sub (s0 : t C) reqs w picks s s' : world_ok host sub w ->
  iterM (run_task w) picks s = Ok (tt, s') -> served cfg host sub s0 reqs s -> served cfg host sub s0 reqs s'.
Proof.
  intros Hw. revert s. induction picks as [|i picks IH]; intros s Hrun Hs; [by injection Hrun as <-|].
  unfold iterM in Hrun. cbn [foldM] in Hrun. unfold mbind, M_bind in Hrun.
  destruct (run_task w i s) as [[[] s1]|] eqn:E; [|done]. apply (IH s1 Hrun). by eapply served_run.
Qed.

Lemma served_arrivals {C} `{CommandController C} cfg host sub (s0 : t C) w reqs done s s' : Forall nvm_command reqs ->
  iterM (submitCommand cfg w) reqs s = Ok (tt, s') -> served cfg host sub s0 done s ->
  served cfg host sub s0 (rev reqs ++ done) s'.
Proof.
  intros Hn. revert done s. induction Hn as [|req reqs Hr _ IH]; intros done s Hrun Hs; [by injection Hrun as <-|].
  unfold iterM in Hrun. cbn [foldM] in Hrun. unfold mbind, M_bind in Hrun.
  destruct (submitCommand cfg w req s) as [[[] s1]|] eqn:E; [|done]. simpl. rewrite <- app_assoc. apply (IH (req :: done) s1 Hrun).
  by eapply served_arrive.
Qed.

(** Two namespaces, the second not attached; pages of 1024 bytes hold two blocks. *)
Definition small_info (first : Z) : Information := mkInformation 32 32 0 0 0 0 0 0 512 (mkLPNRange first 16).
Definition small_device : Subsystem.t :=
  Subsystem.mk [mkNamespace 1 (small_info 4) true 0 1; mkNamespace 2 (small_info 20) false 0 2] (mkIclParam 64 1024) 32.
Definition small_state : t Controller.t :=
  mk small_device (Controller_make 1 1 0 0 0 0 4096 0) 0 0 [] [] [] [].
Definition small_conf : Conf := mkConf (mkIdentifyConf 0 0 false true) 4096 1 1 2 2.
(** The host's list has a range of four blocks from block 6. *)
Definition small_host (d : DataPointer) (offset n : Z) : list Z :=
  if n =? 16 then le_bytes 4 0 ++ le_bytes 4 4 ++ le_bytes 8 6 else zeros n.
Definition small_world : World := mkWorld 7 (fun _ _ => Ok 0) small_host (small_info 0).
Definition small_command (op ns d10 d11 d12 cid : Z) : SQEntryWrapper :=
  SQEntryWrapper_make (mkSQEntry op 0 cid ns 0 4096 0 d10 d11 d12 0 0 0) 1 1 0 9.
(** A read of three blocks, a trim, a flush of the second namespace and a write to none. *)
Definition small_commands : list SQEntryWrapper :=
  [small_command 0x02 1 3 0 2 0; small_command 0x09 1 0 4 0 1; small_command 0x00 2 0 0 0 2; small_command 0x01 9 0 0 0 3].
Definition small_picks : list nat := [1; 0; 0; 1; 1; 0; 0; 0; 1; 0; 0; 0; 0]%nat.

Lemma small_run : exists s1 s, iterM (submitCommand small_conf small_world) small_commands small_state = Ok (tt, s1) /\
  iterM (run_task small_world) small_picks s1 = Ok (tt, s) /\ tasks s = [].
Proof. do 2 eexists. split; [vm_compute; reflexivity|]. split; vm_compute; reflexivity. Qed.
Lemma small_requests : rev small_commands ≫= requests small_host small_device =
  [(HilTrim, mkHilRequest 0 0 0 2048 (mkLPNRange 7 2) 0 0); (HilRead, mkHilRequest 0 0 512 1536 (mkLPNRange 5 2) 0 0)].
Proof. vm_compute. reflexivity. Qed.
Lemma small_served : exists s, served small_conf small_host small_device small_state (rev small_commands) s /\ tasks s = [].
Proof.
  destruct small_run as (s1 & s & Ha & Hr & Ht). exists s. split; [|done].
  apply (served_picks small_conf small_host small_device small_state _ small_world small_picks s1);
    [split; [done | repeat constructor; done] | done |].
  rewrite <- (app_nil_r (rev _)). apply (served_arrivals _ _ _ _ small_world _ _ small_state); [|done | apply served_start].
  repeat constructor; by intros.
Qed.
Lemma small_namespaces : namespaces_ok small_device.
Proof. split; [done | repeat constructor; done | apply (bool_decide_unpack _); vm_compute; exact I]. Qed.

Lemma commands_served_witness : exists s, served small_conf small_host small_device small_state (rev small_commands) s /\
  answered s ≡ₚ response small_device <$> rev small_commands /\
  without_function <$> handed s ≡ₚ [(HilTrim, mkHilRequest 0 0 0 2048 (mkLPNRange 7 2) 0 0); (HilRead, mkHilRequest 0 0 512 1536 (mkLPNRange 5 2) 0 0)].
Proof.
  destruct small_served as (s & Hs & Ht). exists s. split; [exact Hs|].
  destruct (commands_served small_conf small_host small_device small_state s (rev small_commands) small_namespaces) as (_ & _ & Hend);
    [by split | exact Hs |].
  rewrite <- small_requests. exact (Hend Ht).
Defined.

(** A flush; a submission queue whose completion queue is not there is refused, the completion queue is not. *)
Definition small_creation (op : Z) : SQEntryWrapper :=
  SQEntryWrapper_make (mkSQEntry op 0 4 0 0 4096 0 0x10001 0x10001 0 0 0 0) 0 0 0 9.
Lemma commands_accounted_witness :
  let taken req n := exists s', submitCommand small_conf small_world req small_state = Ok (tt, s') /\ accounted s' = n in
  taken (small_command 0x00 1 0 0 0 5) 1%nat /\ taken (small_creation 0x01) 0%nat /\ taken (small_creation 0x05) 1%nat.
Proof.
  cbv zeta. split_and!; (eexists; split; [vm_compute; reflexivity|]).
  - exact (commands_accounted (H := controller_commands) small_conf small_world (small_command 0x00 1 0 0 0 5) small_state _ eq_refl).
  - exact (commands_accounted (H := controller_commands) small_conf small_world (small_creation 0x01) small_state _ eq_refl).
  - exact (commands_accounted (H := controller_commands) small_conf small_world (small_creation 0x05) small_state _ eq_refl).
Defined.
