(* ===== verification/Cpu.v ===== *)
(** * cpu/cpu.cc: the cores of the controller's processor

    Functions of the firmware run on cores, three groups of them, for the host
    interface, the cache and the flash layer.  A job takes the time of its
    instructions, which a table gives for each label; a core has a queue and one
    event.  [execute] puts a job on a core, [applyLatency] only counts its time.

    A function with its context is a number.  The functions a job's function calls
    while it runs, which may be [execute] again, are operations that follow it:
    [jobDone] is cut at the call. *)

From S2P Require Import Prelude Float32 Types Fifo.

(** [InstStat] *)
Record InstStat : Type := mkInstStat {
  branch : Z; load : Z; store : Z; arithmetic : Z; floatingPoint : Z; otherInsts : Z; latency : Z;
}.
Definition InstStat_zero : InstStat := mkInstStat 0 0 0 0 0 0 0.
Definition sum (i : InstStat) : Z :=
  u64 (branch i + load i + store i + arithmetic i + floatingPoint i + otherInsts i).
Definition InstStat_make (b l s a f o c : Z) : InstStat :=
  let i := mkInstStat b l s a f o 0 in mkInstStat b l s a f o (u64 (sum i * c)).
(** [operator+=]: the latency is not added. *)
Definition InstStat_add (x y : InstStat) : InstStat :=
  mkInstStat (u64 (branch x + branch y)) (u64 (load x + load y)) (u64 (store x + store y))
    (u64 (arithmetic x + arithmetic y)) (u64 (floatingPoint x + floatingPoint y))
    (u64 (otherInsts x + otherInsts y)) (latency x).

(** [JobEntry] *)
Record JobEntry : Type := mkJobEntry { func : Z; inst : InstStat; submitAt : Z; delay : Z }.

(** [Core] with its [CoreStat]; the event is the tick it is scheduled for. *)
Record Core : Type := mkCore {
  busy : bool; jobEvent : option Z; jobs : list JobEntry; instStat : InstStat; busyTime : Z;
}.
Definition Core_make : Core := mkCore false None [] InstStat_zero 0.

(** [handleJob], with the tick of the engine. *)
Definition handleJob (now : Z) (c : Core) : res Core :=
  iter ← Fifo.front (jobs c);
  let diff := u64 (now - submitAt iter) in
  let finishedAt :=
    if delay iter <=? diff then u64 (now + latency (inst iter))
    else u64 (u64 (u64 (now + latency (inst iter)) + delay iter) - diff) in
  Ok (mkCore true (Fifo.at_tick now finishedAt) (jobs c) (instStat c) (busyTime c)).

Definition submitJob (now : Z) (job : JobEntry) (d : Z) (c : Core) : res Core :=
  let job := mkJobEntry (func job) (inst job) now d in
  let c' := mkCore (busy c) (jobEvent c) (jobs c ++ [job]) (instStat c) (busyTime c) in
  if busy c then Ok c' else handleJob now c'.

Definition addStat (i : InstStat) (c : Core) : Core :=
  mkCore (busy c) (jobEvent c) (jobs c) (InstStat_add (instStat c) i) (u64 (busyTime c + latency i)).

(** [jobDone] up to the call of the function, and what follows it. *)
Definition jobCall (c : Core) : res (Z * Core) :=
  iter ← Fifo.front (jobs c); Ok (func iter, mkCore (busy c) None (jobs c) (instStat c) (busyTime c)).
Definition jobFinish (now : Z) (c : Core) : res Core :=
  iter ← Fifo.front (jobs c);
  let c := addStat (inst iter) c in
  l ← Fifo.pop_front (jobs c);
  let c := mkCore false (jobEvent c) l (instStat c) (busyTime c) in
  if 0 <? vlen (jobs c) then handleJob now c else Ok c.

(** ** The processor *)

(** The three vectors of cores. *)
Inductive Group : Type := hilCore | iclCore | ftlCore.
#[export] Instance Group_eq_dec : EqDecision Group.
Proof. solve_decision. Defined.

(** [CPU] *)
Record t : Type := mk { clockPeriod : Z; lastResetStat : Z; hil : list Core; icl : list Core; ftl : list Core }.
Definition group (g : Group) (s : t) : list Core := match g with hilCore => hil s | iclCore => icl s | ftlCore => ftl s end.
Definition set_group (g : Group) (l : list Core) (s : t) : t :=
  match g with
  | hilCore => mk (clockPeriod s) (lastResetStat s) l (icl s) (ftl s)
  | iclCore => mk (clockPeriod s) (lastResetStat s) (hil s) l (ftl s)
  | ftlCore => mk (clockPeriod s) (lastResetStat s) (hil s) (icl s) l
  end.

(** The numbers of the labels. *)
Definition ns_number (n : NAMESPACE) : Z :=
  match n with
  | NS_FTL => 0 | FTL__PAGE_MAPPING => 1 | NS_ICL => 2 | ICL__GENERIC_CACHE => 3 | HIL => 4
  | NVME__CONTROLLER => 5 | NVME__PRPLIST => 6 | NVME__SGL => 7 | NVME__SUBSYSTEM => 8 | NVME__NAMESPACE => 9
  | NVME__OCSSD => 10 | UFS__DEVICE => 11 | SATA__DEVICE => 12
  end.
Definition fct_number (f : FUNCTION) : Z :=
  match f with
  | READ => 0 | WRITE => 1 | FLUSH => 2 | TRIM => 3 | FORMAT => 4
  | READ_INTERNAL => 5 | WRITE_INTERNAL => 6 | ERASE_INTERNAL => 7 | TRIM_INTERNAL => 8
  | SELECT_VICTIM_BLOCK => 9 | DO_GARBAGE_COLLECTION => 10
  | CREATE_CQ => 11 | CREATE_SQ => 12 | COLLECT_SQ => 13 | HANDLE_REQUEST => 14 | WORK => 15 | COMPLETION => 16
  | GET_PRPLIST_FROM_PRP => 17 | PARSE_SGL_SEGMENT => 18 | SUBMIT_COMMAND => 19 | CONVERT_UNIT => 20 | FORMAT_NVM => 21
  | DATASET_MANAGEMENT => 22 | VECTOR_CHUNK_READ => 23 | VECTOR_CHUNK_WRITE => 24 | VECTOR_CHUNK_RESET => 25
  | PHYSICAL_PAGE_READ => 26 | PHYSICAL_PAGE_WRITE => 27 | PHYSICAL_BLOCK_ERASE => 28
  | PROCESS_QUERY_COMMAND => 29 | PROCESS_COMMAND => 30 | PRDT_READ => 31 | PRDT_WRITE => 32
  | READ_DMA => 33 | READ_NCQ => 34 | READ_DMA_SETUP => 35 | READ_DMA_DONE => 36
  | WRITE_DMA => 37 | WRITE_NCQ => 38 | WRITE_DMA_SETUP => 39 | WRITE_DMA_DONE => 40
  end.

(** The table [cpi]: instructions of each kind, by namespace and function. *)
Definition cpi : list (Z * list (Z * (Z * Z * Z * Z * Z * Z))) :=
  [
   (0, [(0, (5, 32, 6, 13, 0, 1)); (1, (5, 32, 6, 13, 0, 1)); (3, (5, 32, 6, 13, 0, 1));
        (4, (4, 24, 4, 6, 0, 0))]);
   (1, [(0, (8, 28, 7, 18, 0, 1)); (1, (8, 28, 7, 19, 0, 0)); (3, (4, 28, 6, 11, 0, 0));
        (4, (63, 180, 21, 147, 0, 2)); (9, (177, 504, 113, 415, 118, 19)); (10, (157, 616, 102, 338, 0, 2));
        (5, (45, 180, 15, 155, 0, 0)); (6, (133, 452, 54, 377, 91, 1)); (8, (34, 140, 10, 146, 0, 0));
        (7, (120, 236, 86, 260, 0, 1))]);
   (2, [(0, (8, 88, 17, 27, 0, 1)); (1, (8, 88, 17, 27, 0, 1)); (2, (5, 40, 6, 12, 0, 0));
        (3, (5, 40, 6, 12, 0, 0)); (4, (5, 40, 6, 12, 0, 0))]);
   (3, [(0, (90, 532, 64, 284, 0, 1)); (1, (82, 496, 53, 312, 0, 5)); (2, (22, 120, 20, 59, 0, 2));
        (3, (22, 120, 20, 61, 0, 2)); (4, (9, 72, 12, 86, 0, 1))]);
   (4, [(0, (61, 312, 102, 120, 0, 2)); (1, (61, 312, 102, 120, 0, 2)); (2, (27, 100, 27, 49, 0, 1))]);
   (5, [(14, (44, 164, 32, 68, 0, 2)); (13, (0, 0, 0, 0, 0, 0)); (16, (136, 360, 65, 230, 0, 3));
        (15, (54, 140, 36, 91, 0, 8)); (11, (0, 0, 0, 0, 0, 0)); (12, (0, 0, 0, 0, 0, 0))]);
   (6, [(17, (41, 168, 42, 75, 0, 1)); (0, (99, 456, 94, 177, 0, 6)); (1, (99, 456, 94, 177, 0, 6))]);
   (7, [(18, (44, 152, 35, 78, 0, 2)); (0, (99, 456, 94, 177, 0, 6)); (1, (99, 456, 94, 177, 0, 6))]);
   (8, [(19, (119, 220, 45, 160, 0, 6)); (20, (4, 40, 14, 110, 0, 1)); (21, (70, 200, 42, 161, 0, 1))]);
   (9, [(19, (27, 44, 5, 37, 0, 0)); (0, (82, 292, 42, 128, 0, 4)); (1, (86, 304, 47, 141, 0, 3));
        (2, (51, 124, 28, 78, 0, 3)); (22, (131, 364, 71, 200, 0, 7))]);
   (10, [(19, (155, 100, 12, 208, 0, 4)); (0, (93, 284, 60, 146, 0, 5)); (1, (95, 276, 60, 150, 0, 4));
        (22, (119, 328, 76, 186, 0, 4)); (5, (54, 172, 69, 89, 0, 1)); (6, (72, 236, 77, 141, 0, 3));
        (7, (68, 204, 77, 116, 0, 1)); (20, (65, 388, 63, 303, 0, 1)); (23, (128, 368, 76, 204, 0, 4));
        (24, (128, 384, 81, 209, 0, 6)); (25, (69, 184, 43, 112, 0, 4)); (26, (206, 692, 157, 315, 0, 5));
        (27, (183, 620, 154, 284, 0, 6)); (28, (162, 460, 78, 227, 0, 4))]);
   (11, [(29, (51, 132, 40, 97, 0, 0)); (30, (212, 460, 117, 491, 0, 9)); (31, (42, 172, 43, 74, 0, 2));
        (32, (42, 172, 43, 74, 0, 2)); (0, (29, 76, 17, 51, 0, 2)); (1, (29, 76, 17, 51, 0, 2));
        (2, (25, 64, 18, 44, 0, 1))]);
   (12, [(19, (157, 352, 69, 178, 0, 1)); (31, (42, 172, 43, 73, 0, 3)); (32, (42, 172, 43, 73, 0, 3));
        (0, (28, 84, 23, 119, 0, 0)); (1, (28, 84, 23, 120, 0, 1)); (2, (25, 64, 18, 44, 0, 1));
        (33, (57, 212, 36, 128, 0, 3)); (34, (34, 116, 29, 72, 0, 3)); (35, (16, 64, 9, 38, 0, 1));
        (36, (28, 72, 15, 48, 0, 2)); (37, (57, 212, 36, 127, 0, 3)); (38, (34, 128, 31, 68, 0, 2));
        (39, (18, 56, 10, 37, 0, 1)); (40, (33, 100, 17, 61, 0, 3))])
  ].

Fixpoint find {A} (k : Z) (l : list (Z * A)) : option A :=
  match l with
  | [] => None
  | (j, a) :: l => if j =? k then Some a else find k l
  end.

(** The entry of a label, at the clock's period; its absence stops the simulator. *)
Definition inst_of (period : Z) (ns : NAMESPACE) (fct : FUNCTION) : res InstStat :=
  match find (ns_number ns) cpi with
  | None => panic "Namespace not defined in CPI table"
  | Some table =>
      match find (fct_number fct) table with
      | None => panic "Namespace does not have function"
      | Some (b, l, s, a, f, o) => Ok (InstStat_make b l s a f o period)
      end
  end.

Definition group_of (ns : NAMESPACE) : Group :=
  match ns with
  | NS_FTL | FTL__PAGE_MAPPING => ftlCore
  | NS_ICL | ICL__GENERIC_CACHE => iclCore
  | _ => hilCore
  end.

(** The two loops of [leastBusyCPU]. *)
Fixpoint least_idle (i : Z) (l : list Core) (idx busymin : Z) : Z :=
  match l with
  | [] => idx
  | c :: l =>
      if negb (busy c) && (busyTime c <? busymin) then least_idle (i + 1) l i (busyTime c)
      else least_idle (i + 1) l idx busymin
  end.
Fixpoint least_queued (i : Z) (l : list Core) (idx jobmin : Z) : Z :=
  match l with
  | [] => idx
  | c :: l =>
      if vlen (jobs c) <=? jobmin then least_queued (i + 1) l i (vlen (jobs c))
      else least_queued (i + 1) l idx jobmin
  end.
Definition UINT64_MAX : Z := 2 ^ 64 - 1.
Definition leastBusyCPU (l : list Core) : Z :=
  let idx := least_idle 0 l (vlen l) UINT64_MAX in
  if idx =? vlen l then least_queued 0 l idx UINT64_MAX else idx.

(** A core of a group is changed. *)
Definition on_core {A} (g : Group) (i : Z) (f : Core -> res (A * Core)) : M t A :=
  s ← get;
  c ← lift (get_at (group g s) i);
  r ← lift (f c);
  modify (set_group g (vset (group g s) i r.2));; mret r.1.

(** [execute]: the core the job was given to; without a core the function is called at once. *)
Definition execute (now : Z) (ns : NAMESPACE) (fct : FUNCTION) (f d : Z) : M t (option (Group * Z)) :=
  s ← get;
  let g := group_of ns in
  if 0 <? vlen (group g s) then
    let i := leastBusyCPU (group g s) in
    inst ← lift (inst_of (clockPeriod s) ns fct);
    on_core g i (fun c => c ← submitJob now (mkJobEntry f inst 0 0) d c; Ok (tt, c));;
    mret (Some (g, i))
  else mret None.

Definition applyLatency (ns : NAMESPACE) (fct : FUNCTION) : M t Z :=
  s ← get;
  let g := group_of ns in
  if 0 <? vlen (group g s) then
    inst ← lift (inst_of (clockPeriod s) ns fct);
    on_core g (leastBusyCPU (group g s)) (fun c => Ok (tt, addStat inst c));;
    mret (latency inst)
  else mret 0.

(** The event of a core fires: the function that is called, and what follows the call. *)
Definition fire_call (g : Group) (i : Z) : M t Z := on_core g i jobCall.
Definition fire_finish (now : Z) (g : Group) (i : Z) : M t unit :=
  on_core g i (fun c => c ← jobFinish now c; Ok (tt, c)).

(** [getStatValues]: the busy time of the cores of the flash layer. *)
Definition getStatValues : M t (list Z) := gets (fun s => busyTime <$> ftl s).
Definition resetStatValues (now : Z) : M t unit :=
  let r := fmap (fun c => mkCore (busy c) (jobEvent c) (jobs c) InstStat_zero 0) in
  modify (fun s => mk (clockPeriod s) now (r (hil s)) (r (icl s)) (r (ftl s))).

(** The constructor; [clockPeriod] is a quotient of doubles cut to an integer. *)
Definition CPU_make (clockSpeed nHil nIcl nFtl : Z) : res t :=
  period ← f32_to_u64 (f64_ratio 1000000000000 clockSpeed);
  let cores n := replicate (Z.to_nat n) Core_make in
  Ok (mk period 0 (cores nHil) (cores nIcl) (cores nFtl)).
