(* ===== verification/CpuTheorems.v ===== *)
(** * What the processor does with its jobs

    A run is a sequence of requests to execute a function, of events that fire with
    the requests made by the function called, and of passing time.  Its record says
    which core got a job and when a function was called. *)

From S2P Require Import Prelude Float32 Types Fifo Controller Cpu.

(** ** The cores of the processor against their schedule

    A core serves its jobs in the order they were given to it, and a job is through
    at the later of the end of the job before it and its own time plus delay, plus
    its latency ([finishes]).  [follows] relates a core to this schedule. *)

(** A job as it was given to a core. *)
Record Sub : Type := mkSub { sub_f : Z; sub_inst : InstStat; sub_at : Z; sub_delay : Z }.
Definition sub_latency (s : Sub) : Z := latency (sub_inst s).
Definition job_of (s : Sub) : JobEntry := mkJobEntry (sub_f s) (sub_inst s) (sub_at s) (sub_delay s).

(** When each job is through, with its function. *)
Fixpoint finishes (last : Z) (l : list Sub) : list (Z * Z) :=
  match l with
  | [] => []
  | s :: l =>
      let e := Z.max last (sub_at s + sub_delay s) + sub_latency s in
      (e, sub_f s) :: finishes e l
  end.
Fixpoint final (last : Z) (l : list Sub) : Z :=
  match l with
  | [] => last
  | s :: l => final (Z.max last (sub_at s + sub_delay s) + sub_latency s) l
  end.
(** What the jobs can take in all, with one for each. *)
Definition cost (s : Sub) : Z := sub_delay s + sub_latency s + 1.
Definition work (l : list Sub) : Z := foldr (fun s n => cost s + n) 0 l.
Definition sub_ok (now : Z) (s : Sub) : Prop := 0 <= sub_delay s /\ 0 <= sub_latency s /\ 0 <= sub_at s <= now.

Lemma length_finishes last l : length (finishes last l) = length l.
Proof. revert last. induction l as [|s l IH]; intros last; [done|]. cbn. by rewrite IH. Qed.

Lemma finishes_app last a b : finishes last (a ++ b) = finishes last a ++ finishes (final last a) b.
Proof. revert last. induction a as [|s a IH]; intros last; [done|]. cbn. by rewrite IH. Qed.

Lemma final_le last l t : last <= t -> Forall (fun p => p.1 <= t) (finishes last l) -> final last l <= t.
Proof.
  revert last. induction l as [|s l IH]; intros last Hl Hf; [done|]. cbn in Hf. apply Forall_cons in Hf as [H1 Hf]. by apply IH.
Qed.

Lemma finishes_S last l n e f s : finishes last l !! n = Some (e, f) -> l !! S n = Some s ->
  finishes last l !! S n = Some (Z.max e (sub_at s + sub_delay s) + sub_latency s, sub_f s).
Proof.
  revert last n. induction l as [|x l IH]; intros last n H Hs; [done|]. cbn in Hs |- *.
  destruct n as [|n]; cbn in H.
  - injection H as <- <-. destruct l as [|y l]; [done|]. cbn in Hs. injection Hs as ->. done.
  - by eapply IH.
Qed.

Lemma work_app a b : work (a ++ b) = work a + work b.
Proof. induction a as [|s a IH]; cbn [work app foldr]; [done|]. fold (work (a ++ b)) (work a). lia. Qed.

Lemma work_length l now : Forall (sub_ok now) l -> Z.of_nat (length l) <= work l.
Proof.
  induction 1 as [|s l (Hd & Hl & _) _ IH]; cbn [work foldr length]; [lia|]. fold (work l). unfold cost. lia.
Qed.

Lemma finishes_bound last l now k e f : Forall (sub_ok now) l ->
  finishes last l !! k = Some (e, f) -> e <= Z.max last now + work l.
Proof.
  intros Hl. revert last k. induction Hl as [|s l (Hd & Hlat & Hat) Hl IH]; intros last k H; [done|].
  pose proof (work_length _ _ Hl). cbn [work foldr]. fold (work l). unfold cost. cbn in H. destruct k as [|k]; cbn in H.
  - injection H as <- <-. lia.
  - apply IH in H. lia.
Qed.

Lemma finishes_latest last l now k e f s : Forall (sub_ok now) l -> 0 <= last ->
  finishes last l !! k = Some (e, f) -> l !! k = Some s -> f = sub_f s /\ 0 <= e /\ sub_at s + sub_delay s + sub_latency s <= e.
Proof.
  intros Hl. revert last k. induction Hl as [|x l (Hd & Hlat & Hat) Hl IH]; intros last k H0 H Hs; [done|].
  cbn in H, Hs. destruct k as [|k]; cbn in H, Hs; simplify_eq; [lia|]. eapply IH; [|done..]. lia.
Qed.

Lemma sub_ok_mono t u l : t <= u -> Forall (sub_ok t) l -> Forall (sub_ok u) l.
Proof. intros Htu Hl. eapply Forall_impl; [exact Hl|]. intros s (?&?&?). repeat split; lia. Qed.

(** ** A core *)

(** After [n] of the jobs [l] are through, at [now]; [firing] between the call of a job's function and its end. *)
Record follows (now : Z) (firing : bool) (l : list Sub) (n : nat) (c : Core) : Prop := {
  fo_jobs : jobs c = job_of <$> drop n l;
  fo_n : (n <= length l)%nat;
  fo_busy : busy c = bool_decide (n < length l)%nat;
  fo_event : jobEvent c = if firing then None else fst <$> (finishes 0 l !! n);
  fo_done : Forall (fun p => p.1 <= now) (take n (finishes 0 l));
  fo_next : forall e f, finishes 0 l !! n = Some (e, f) -> if firing then e = now else now <= e;
  fo_firing : firing = true -> (n < length l)%nat;
  fo_subs : Forall (sub_ok now) l;
  fo_time : busyTime c = u64 (foldr (fun s t => sub_latency s + t) 0 (take n l));
}.

Lemma fresh_core_follows now : follows now false [] 0 Core_make.
Proof. by constructor. Qed.

Lemma follows_pass now t firing l n c : follows now firing l n c -> firing = false -> now <= t ->
  (forall e, jobEvent c = Some e -> t <= e) -> follows t firing l n c.
Proof.
  intros [Hj Hn Hb He Hd Hx Hf Hs Ht] -> Hle Hev. constructor; try done.
  - eapply Forall_impl; [exact Hd|]. intros p Hp. cbv beta in *. lia.
  - intros e f Hef. apply Hev. by rewrite He, Hef.
  - by eapply sub_ok_mono.
Qed.

(** The sums of [handleJob] do not wrap. *)
Lemma handle_time now a d lat : 0 <= a <= now -> 0 <= d -> 0 <= lat -> Z.max now (a + d) + lat < 2 ^ 64 ->
  (if d <=? u64 (now - a) then u64 (now + lat) else u64 (u64 (u64 (now + lat) + d) - u64 (now - a))) = Z.max now (a + d) + lat.
Proof.
  intros Ha Hd Hl Hb. rewrite (u64_small (now - a)) by lia. rewrite (u64_small (now + lat)) by lia.
  destruct (Z.leb_spec d (now - a)); [lia|].
  unfold u64. rewrite Zminus_mod_idemp_l. rewrite Z.mod_small by lia. lia.
Qed.

Lemma handleJob_eq now s l c : jobs c = job_of s :: l -> 0 <= sub_at s <= now -> 0 <= sub_delay s -> 0 <= sub_latency s ->
  Z.max now (sub_at s + sub_delay s) + sub_latency s < 2 ^ 64 ->
  handleJob now c = Ok (mkCore true (Some (Z.max now (sub_at s + sub_delay s) + sub_latency s)) (jobs c) (instStat c) (busyTime c)).
Proof.
  intros Hj Ha Hd Hl Hb. unfold handleJob. rewrite Hj. cbn [Fifo.front mbind res_bind job_of submitAt delay inst].
  change (latency (sub_inst s)) with (sub_latency s). rewrite handle_time by done. unfold Fifo.at_tick. destruct (Z.ltb_spec (Z.max now (sub_at s + sub_delay s) + sub_latency s) now); [lia|done].
Qed.

Lemma take_finishes_app a b n : (n <= length a)%nat -> take n (finishes 0 (a ++ b)) = take n (finishes 0 a).
Proof. intros H. rewrite finishes_app, take_app_le; [done|]. by rewrite length_finishes. Qed.

Lemma lookup_finishes_app a b n : (n < length a)%nat -> finishes 0 (a ++ b) !! n = finishes 0 a !! n.
Proof. intros H. rewrite finishes_app, lookup_app_l; [done|]. by rewrite length_finishes. Qed.

Lemma finishes_end l s n : (n = length l)%nat -> finishes 0 (l ++ [s]) !! n
  = Some (Z.max (final 0 l) (sub_at s + sub_delay s) + sub_latency s, sub_f s).
Proof. intros ->. rewrite finishes_app, lookup_app_r by (by rewrite length_finishes). by rewrite length_finishes, Nat.sub_diag. Qed.

Lemma submit_follows now firing l n c f i d : follows now firing l n c -> 0 <= now -> 0 <= d -> 0 <= latency i ->
  now + work (l ++ [mkSub f i now d]) < 2 ^ 64 ->
  exists c', submitJob now (mkJobEntry f i 0 0) d c = Ok c' /\ follows now firing (l ++ [mkSub f i now d]) n c'.
Proof.
  intros [Hj Hn Hb He Hd Hx Hf Hs Ht] Hnow Hd0 Hl Hw. unfold submitJob. set (s := mkSub f i now d) in *.
  change (mkJobEntry (func (mkJobEntry f i 0 0)) (inst (mkJobEntry f i 0 0)) now d) with (job_of s).
  assert (Forall (sub_ok now) (l ++ [s])) as Hs' by (apply Forall_app_2; [done|]; apply Forall_singleton; unfold sub_ok, sub_latency; cbn; lia).
  assert (take n (l ++ [s]) = take n l) as Htk by (by apply take_app_le).
  assert (jobs c ++ [job_of s] = job_of <$> drop n (l ++ [s])) as Hjobs.
  { rewrite drop_app_le by done. by rewrite fmap_app, Hj. }
  rewrite Hb. case_bool_decide as Hlt.
  - eexists. split; [reflexivity|]. constructor; cbn [jobs busy jobEvent busyTime].
    + exact Hjobs.
    + rewrite length_app. lia.
    + symmetry. apply bool_decide_eq_true. rewrite length_app. lia.
    + rewrite lookup_finishes_app by done. exact He.
    + rewrite take_finishes_app by done. exact Hd.
    + rewrite lookup_finishes_app by done. exact Hx.
    + rewrite length_app. lia.
    + exact Hs'.
    + by rewrite Htk.
  - assert (n = length l) as -> by lia. destruct firing; [specialize (Hf eq_refl); lia|].
    assert (final 0 l <= now) as Hfin.
    { apply final_le; [done|]. rewrite <- (length_finishes 0 l), firstn_all in Hd. exact Hd. }
    assert (finishes 0 (l ++ [s]) !! length l = Some (now + d + sub_latency s, f)) as Hend.
    { rewrite finishes_end by done. cbn [sub_at sub_delay sub_f s]. do 2 f_equal. lia. }
    pose proof (finishes_bound _ _ now _ _ _ Hs' Hend) as Hb2. rewrite Z.max_r in Hb2 by lia.
    assert (0 <= sub_latency s) as Hls by done.
    rewrite (handleJob_eq now s []); [|etransitivity; [exact Hjobs|]; by rewrite drop_app_length|cbn; lia|cbn; lia|done|cbn [sub_at sub_delay s] in *; lia].
    eexists. split; [reflexivity|]. constructor; cbn [jobs busy jobEvent busyTime].
    + exact Hjobs.
    + rewrite length_app. lia.
    + symmetry. apply bool_decide_eq_true. rewrite length_app. cbn. lia.
    + rewrite Hend. cbn. do 2 f_equal. lia.
    + rewrite take_finishes_app by done. exact Hd.
    + rewrite Hend. intros e g [= <- <-]. unfold sub_latency, s. cbn. lia.
    + done.
    + exact Hs'.
    + by rewrite Htk.
Qed.

Lemma call_follows now l n c : follows now false l n c -> jobEvent c = Some now ->
  exists f c', jobCall c = Ok (f, c') /\ follows now true l n c' /\ finishes 0 l !! n = Some (now, f).
Proof.
  intros [Hj Hn Hb He Hd Hx Hf Hs Ht] Hev. rewrite Hev in He.
  destruct (finishes 0 l !! n) as [[e f]|] eqn:Hl; [|done]. injection He as <-.
  pose proof (lookup_lt_Some _ _ _ Hl) as Hlt. rewrite length_finishes in Hlt.
  destruct (lookup_lt_is_Some_2 l n Hlt) as [s Hls]. rewrite (drop_S _ _ _ Hls) in Hj.
  assert (f = sub_f s) as -> by (by eapply finishes_latest; [exact Hs|..|exact Hls]).
  exists (sub_f s). eexists. unfold jobCall. rewrite Hj. cbn [fmap list_fmap Fifo.front mbind res_bind].
  split; [reflexivity|]. split; [|done]. constructor; cbn [jobs busy jobEvent busyTime]; try done.
  - by rewrite (drop_S _ _ _ Hls).
  - intros e f H. rewrite Hl in H. by injection H as <- <-.
Qed.

Lemma finish_follows now l n c : follows now true l n c -> now + work l < 2 ^ 64 -> 0 <= now ->
  exists c', jobFinish now c = Ok c' /\ follows now false l (S n) c'.
Proof.
  intros [Hj Hn Hb He Hd Hx Hf Hs Ht] Hw Hnow. specialize (Hf eq_refl). clear Hn.
  destruct (lookup_lt_is_Some_2 l n Hf) as [s Hls]. rewrite (drop_S _ _ _ Hls) in Hj. cbn [fmap list_fmap] in Hj.
  destruct (lookup_lt_is_Some_2 (finishes 0 l) n ltac:(by rewrite length_finishes)) as [[e f] Hl].
  specialize (Hx _ _ Hl). cbv beta iota in Hx. subst e.
  assert (sub_ok now s) as (Hsd & Hsl & Hsa) by (by eapply Forall_lookup_1).
  unfold jobFinish. rewrite Hj. cbn [Fifo.front mbind res_bind]. unfold addStat. cbn [jobs]. rewrite Hj.
  cbn [Fifo.pop_front mbind res_bind jobEvent instStat busyTime jobs].
  set (c1 := mkCore false _ _ _ _).
  assert (busyTime c1 = u64 (foldr (fun s t => sub_latency s + t) 0 (take (S n) l))) as Hbt.
  { unfold c1. cbn [busyTime]. rewrite Ht. unfold u64. rewrite Zplus_mod_idemp_l. f_equal.
    rewrite (take_S_r _ _ _ Hls), foldr_app. cbn [foldr].
    assert (forall a b, foldr (fun s t => sub_latency s + t) b a = foldr (fun s t => sub_latency s + t) 0 a + b) as H.
    { induction a as [|x a IH]; intros b; cbn; [done|]. rewrite IH. lia. }
    rewrite (H _ (_ + 0)). unfold sub_latency at 3, job_of. cbn. lia. }
  assert (Forall (fun p => p.1 <= now) (take (S n) (finishes 0 l))) as Hdone.
  { rewrite (take_S_r _ _ _ Hl). apply Forall_app_2; [done|]. apply Forall_singleton. cbn. lia. }
  destruct (l !! S n) as [s'|] eqn:Hs'.
  - pose proof (finishes_S _ _ _ _ _ _ Hl Hs') as HS.
    assert (drop (S n) l = s' :: drop (S (S n)) l) as Hdr by (by apply drop_S).
    assert (sub_ok now s') as (Hsd' & Hsl' & Hsa') by (by eapply Forall_lookup_1).
    pose proof (finishes_bound _ _ now _ _ _ Hs HS) as Hbd.
    assert ((0 <? vlen (job_of <$> drop (S n) l)) = true) as ->.
    { apply Z.ltb_lt. rewrite Hdr. unfold vlen. cbn. lia. }
    rewrite (handleJob_eq now s' (job_of <$> drop (S (S n)) l)); [|unfold c1; cbn [jobs]; by rewrite Hdr|lia..].
    eexists. split; [reflexivity|]. apply lookup_lt_Some in Hs'.
    constructor; cbn [jobs busy jobEvent busyTime]; try done.
    + symmetry. by apply bool_decide_eq_true.
    + by rewrite HS.
    + intros e g H. rewrite HS in H. injection H as <- <-. lia.
  - apply lookup_ge_None_1 in Hs'. assert (drop (S n) l = []) as Hdr by (by apply drop_ge).
    assert ((0 <? vlen (job_of <$> drop (S n) l)) = false) as -> by (by rewrite Hdr).
    eexists. split; [reflexivity|]. assert (finishes 0 l !! S n = None) as Hnone by (apply lookup_ge_None_2; rewrite length_finishes; lia).
    constructor; try done.
    + symmetry. apply bool_decide_eq_false. lia.
    + rewrite Hnone. exact He.
    + intros e g H. by rewrite Hnone in H.
Qed.

Record Req : Type := mkReq { rq_ns : NAMESPACE; rq_fct : FUNCTION; rq_func : Z; rq_delay : Z }.
Inductive Op : Type := Exec (r : Req) | Fire (g : Group) (i : Z) (rs : list Req) | Pass (tick : Z).
(** A job was given to a core; a function was called, by a core or at once. *)
Inductive Out : Type := Given (c : Group * Z) (s : Sub) | Ran (c : option (Group * Z)) (tick f : Z).

Definition run_req (now : Z) (r : Req) : M t (list Out) :=
  c ← execute now (rq_ns r) (rq_fct r) (rq_func r) (rq_delay r);
  match c with
  | Some gi => s ← get; i ← lift (inst_of (clockPeriod s) (rq_ns r) (rq_fct r)); mret [Given gi (mkSub (rq_func r) i now (rq_delay r))]
  | None => mret [Ran None now (rq_func r)]
  end.
Definition run_reqs (now : Z) (rs : list Req) : M t (list Out) :=
  foldM (fun r o => o' ← run_req now r; mret (o ++ o')) rs [].

Definition not_before (tick : Z) (c : Core) : bool := match jobEvent c with Some e => tick <=? e | None => true end.
Definition all_cores (s : t) : list Core := hil s ++ icl s ++ ftl s.

(** An event fires at its tick; time does not pass an event. *)
Definition run_op (o : Op) (w : Z * t) : res (list Out * (Z * t)) :=
  let now := w.1 in
  match o with
  | Exec r => x ← run_req now r w.2; Ok (x.1, (now, x.2))
  | Fire g i rs =>
      match vget (group g w.2) i with
      | Some c =>
          if bool_decide (jobEvent c = Some now) then
            x ← fire_call g i w.2; y ← run_reqs now rs x.2; z ← fire_finish now g i y.2;
            Ok (Ran (Some (g, i)) now x.1 :: y.1, (now, z.2))
          else Ok ([], w)
      | None => Ok ([], w)
      end
  | Pass tick => Ok ([], if (now <=? tick) && forallb (not_before tick) (all_cores w.2) then (tick, w.2) else w)
  end.
Fixpoint run (ops : list Op) (w : Z * t) : res (list Out * (Z * t)) :=
  match ops with
  | [] => Ok ([], w)
  | o :: ops => x ← run_op o w; y ← run ops x.2; Ok (x.1 ++ y.1, y.2)
  end.

(** The jobs given to a core, and the calls it made. *)
Definition given (c : Group * Z) (outs : list Out) : list Sub :=
  omap (fun o => match o with Given c' s => if decide (c' = c) then Some s else None | _ => None end) outs.
Definition ran (c : Group * Z) (outs : list Out) : list (Z * Z) :=
  omap (fun o => match o with Ran (Some c') t f => if decide (c' = c) then Some (t, f) else None | _ => None end) outs.

(** Bounds on the time a run can take. *)
Definition req_cost (p : Z) (r : Req) : Z :=
  match inst_of p (rq_ns r) (rq_fct r) with Ok i => rq_delay r + latency i + 1 | Err _ => 0 end.
Definition reqs_cost (p : Z) (rs : list Req) : Z := foldr (fun r n => req_cost p r + n) 0 rs.
Definition op_cost (p : Z) (o : Op) : Z := match o with Exec r => req_cost p r | Fire _ _ rs => reqs_cost p rs | Pass _ => 0 end.
Definition ops_cost (p : Z) (ops : list Op) : Z := foldr (fun o n => op_cost p o + n) 0 ops.
Definition req_ok (p : Z) (r : Req) : Prop := 0 <= rq_delay r /\ exists i, inst_of p (rq_ns r) (rq_fct r) = Ok i.
Definition op_ok (p T : Z) (o : Op) : Prop :=
  match o with Exec r => req_ok p r | Fire _ _ rs => Forall (req_ok p) rs | Pass tick => tick <= T end.

(** ** Which core *)

Lemma least_idle_spec l i idx m :
  let r := least_idle i l idx m in
  (r = idx /\ forall k c, l !! k = Some c -> busy c = false -> m <= busyTime c) \/
  (exists k c, r = i + Z.of_nat k /\ l !! k = Some c /\ busy c = false /\ busyTime c < m /\
    forall k' c', l !! k' = Some c' -> busy c' = false -> busyTime c <= busyTime c' /\ ((k' < k)%nat -> busyTime c < busyTime c')).
Proof.
  revert i idx m. induction l as [|c l IH]; intros i idx m; cbn [least_idle]; [by left|].
  destruct (negb (busy c) && (busyTime c <? m)) eqn:E.
  - apply andb_true_iff in E as [Hb%negb_true_iff Hm%Z.ltb_lt]. right.
    destruct (IH (i + 1) i (busyTime c)) as [[-> H]|(k & x & -> & Hk & Hx & Hlt & H)].
    + exists 0%nat, c. split; [lia|]. split; [done|]. split; [done|]. split; [done|].
      intros [|k'] c' Hc' Hb'; cbn in Hc'; [simplify_eq; lia|]. specialize (H _ _ Hc' Hb'). lia.
    + exists (S k), x. split; [lia|]. split; [done|]. split; [done|]. split; [lia|].
      intros [|k'] c' Hc' Hb'; cbn in Hc'; [simplify_eq; lia|]. destruct (H _ _ Hc' Hb'). split; [lia|]. intros. lia.
  - assert (busy c = false -> m <= busyTime c) as Hc.
    { intros Hb. rewrite Hb in E. cbn in E. apply Z.ltb_ge in E. lia. }
    destruct (IH (i + 1) idx m) as [[-> H]|(k & x & -> & Hk & Hx & Hlt & H)]; [left|right].
    + split; [done|]. intros [|k'] c' Hc' Hb'; cbn in Hc'; [simplify_eq; auto|eauto].
    + exists (S k), x. split; [lia|]. split; [done|]. split; [done|]. split; [lia|].
      intros [|k'] c' Hc' Hb'; cbn in Hc'; [simplify_eq; specialize (Hc Hb'); lia|].
      destruct (H _ _ Hc' Hb'). split; [lia|]. intros. lia.
Qed.

Lemma least_queued_spec l i idx m :
  let r := least_queued i l idx m in
  (r = idx /\ forall k c, l !! k = Some c -> m < vlen (jobs c)) \/
  (exists k c, r = i + Z.of_nat k /\ l !! k = Some c /\ vlen (jobs c) <= m /\
    forall k' c', l !! k' = Some c' -> vlen (jobs c) <= vlen (jobs c') /\ ((k < k')%nat -> vlen (jobs c) < vlen (jobs c'))).
Proof.
  revert i idx m. induction l as [|c l IH]; intros i idx m; cbn [least_queued]; [by left|].
  destruct (Z.leb_spec (vlen (jobs c)) m).
  - right. destruct (IH (i + 1) i (vlen (jobs c))) as [[-> Hr]|(k & x & -> & Hk & Hlt & Hr)].
    + exists 0%nat, c. split; [lia|]. split; [done|]. split; [done|].
      intros [|k'] c' Hc'; cbn in Hc'; [simplify_eq; lia|]. specialize (Hr _ _ Hc'). lia.
    + exists (S k), x. split; [lia|]. split; [done|]. split; [lia|].
      intros [|k'] c' Hc'; cbn in Hc'; [simplify_eq; lia|]. destruct (Hr _ _ Hc'). split; [lia|]. intros. lia.
  - destruct (IH (i + 1) idx m) as [[-> Hr]|(k & x & -> & Hk & Hlt & Hr)]; [left|right].
    + split; [done|]. intros [|k'] c' Hc'; cbn in Hc'; [by simplify_eq|eauto].
    + exists (S k), x. split; [lia|]. split; [done|]. split; [lia|].
      intros [|k'] c' Hc'; cbn in Hc'; [simplify_eq; lia|]. destruct (Hr _ _ Hc'). split; [lia|]. intros. lia.
Qed.

Definition idle (c : Core) : Prop := busy c = false /\ busyTime c < UINT64_MAX.

(** What the choice of a core promises: an idle one that was busy for the shortest time (the first such), or when none is
    idle the last of those with the fewest jobs.  A busy time of 2^64-1 counts as busy. *)
Definition least_loaded (l : list Core) (k : nat) (c : Core) : Prop :=
  (idle c /\ forall k' x, l !! k' = Some x -> busy x = false -> busyTime c <= busyTime x /\ ((k' < k)%nat -> busyTime c < busyTime x)) \/
  ((forall x, x ∈ l -> ~ idle x) /\
   forall k' x, l !! k' = Some x -> vlen (jobs c) <= vlen (jobs x) /\ ((k < k')%nat -> vlen (jobs c) < vlen (jobs x))).

Lemma picked l : l <> [] -> (forall c, c ∈ l -> vlen (jobs c) <= UINT64_MAX) ->
  exists k c, leastBusyCPU l = Z.of_nat k /\ l !! k = Some c /\ least_loaded l k c.
Proof.
  intros Hne Hj. unfold leastBusyCPU.
  destruct (least_idle_spec l 0 (vlen l) UINT64_MAX) as [[-> H]|(k & c & -> & Hk & Hb & Hlt & H)].
  - rewrite Z.eqb_refl.
    destruct (least_queued_spec l 0 (vlen l) UINT64_MAX) as [[_ Hq]|(k & c & -> & Hk & Hle & Hq)].
    + destruct l as [|c l]; [done|]. specialize (Hq 0%nat c eq_refl). specialize (Hj c ltac:(apply elem_of_cons; by left)). lia.
    + exists k, c. split; [done|]. split; [done|]. right. split; [|done].
      intros c' [k' Hc']%list_elem_of_lookup [Hb Hlt]. specialize (H _ _ Hc' Hb). lia.
  - assert ((0 + Z.of_nat k =? vlen l) = false) as ->.
    { apply Z.eqb_neq. apply lookup_lt_Some in Hk. unfold vlen. lia. }
    exists k, c. split; [done|]. split; [done|]. left. split; [done|]. exact H.
Qed.

Lemma chosen g s : group g s <> [] -> (forall c, c ∈ group g s -> vlen (jobs c) <= UINT64_MAX) ->
  exists k c, leastBusyCPU (group g s) = Z.of_nat k /\ group g s !! k = Some c /\ least_loaded (group g s) k c /\
    (0 <? vlen (group g s)) = true /\ vget (group g s) (Z.of_nat k) = Some c /\
    forall x, vset (group g s) (Z.of_nat k) x = <[k := x]> (group g s).
Proof.
  intros Hne Hj. destruct (picked _ Hne Hj) as (k & c & Hk & Hc & Hl). exists k, c. split_and!; try done.
  - apply Z.ltb_lt. unfold vlen. destruct (group g s); [done|cbn; lia].
  - unfold vget. by rewrite (proj2 (Z.ltb_ge _ 0)), Nat2Z.id by lia.
  - intros x. unfold vset. by rewrite (proj2 (Z.ltb_ge _ 0)), Nat2Z.id by lia.
Qed.

(** ** The invariant *)

Record inv (p : Z) (fl : option (Group * Z)) (now : Z) (s : t) (outs : list Out) (spent : Z) : Prop := {
  in_period : clockPeriod s = p;
  in_now : 0 <= now;
  in_core : forall g i c, vget (group g s) i = Some c ->
    follows now (bool_decide (fl = Some (g, i))) (given (g, i) outs) (length (ran (g, i) outs)) c;
  in_ran : forall x, ran x outs = take (length (ran x outs)) (finishes 0 (given x outs));
  in_work : forall x, work (given x outs) <= spent;
  in_spent : 0 <= spent;
}.

Lemma given_app x a b : given x (a ++ b) = given x a ++ given x b.
Proof. apply omap_app. Qed.
Lemma ran_app x a b : ran x (a ++ b) = ran x a ++ ran x b.
Proof. apply omap_app. Qed.

Lemma group_set_group g l s g' : group g' (set_group g l s) = if decide (g = g') then l else group g' s.
Proof. by destruct g, g'. Qed.
Lemma period_set_group g l s : clockPeriod (set_group g l s) = clockPeriod s.
Proof. by destruct g. Qed.

Lemma core_set g i c s g' i' : 0 <= i < vlen (group g s) ->
  vget (group g' (set_group g (vset (group g s) i c) s)) i'
  = if decide ((g, i) = (g', i')) then Some c else vget (group g' s) i'.
Proof.
  intros Hi. rewrite group_set_group. destruct (decide (g = g')) as [<-|Hne].
  - rewrite vget_vset by done. destruct (decide (i = i')) as [<-|Hne]; [by rewrite decide_True|].
    rewrite decide_False; [done|]. by intros [=].
  - rewrite decide_False; [done|]. by intros [=].
Qed.

Lemma vlen_set_group g i c s g' : vlen (group g' (set_group g (vset (group g s) i c) s)) = vlen (group g' s).
Proof. rewrite group_set_group. destruct (decide (g = g')) as [<-|]; [apply vlen_vset|done]. Qed.

Lemma on_core_eq {A} g i (f : Core -> res (A * Core)) s c a c' : vget (group g s) i = Some c -> f c = Ok (a, c') ->
  on_core g i f s = Ok (a, set_group g (vset (group g s) i c') s).
Proof. intros Hc Hf. unfold on_core, get_at, get, lift, modify. cbv [mbind M_bind]. rewrite Hc, Hf. reflexivity. Qed.

Lemma inst_latency p ns fct i : inst_of p ns fct = Ok i -> 0 <= latency i.
Proof.
  unfold inst_of. destruct (find _ cpi) as [tb|]; [|done]. destruct (find _ tb) as [[[[[[b l] s] a] f] o]|]; [|done].
  intros [= <-]. apply u64_range.
Qed.

(** A core with the job it has just got. *)
Lemma given_one x y s : given x [Given y s] = if decide (y = x) then [s] else [].
Proof. unfold given. cbn. by case_decide. Qed.

Lemma jobs_bound p fl now s outs spent g i c : inv p fl now s outs spent -> vget (group g s) i = Some c -> vlen (jobs c) <= spent.
Proof.
  intros [Hp Hn Hc Hr Hw _] Hg. destruct (Hc _ _ _ Hg) as [Hj _ _ _ _ _ _ Hs _]. rewrite Hj. unfold vlen.
  rewrite length_fmap, length_drop. pose proof (work_length _ _ Hs). specialize (Hw (g, i)). lia.
Qed.

Lemma work_nil : work [] = 0.
Proof. done. Qed.
Lemma work_one s : work [s] = cost s.
Proof. cbn. lia. Qed.

(** The invariant after a job was given to core [x], whose state is [c'] now. *)
Lemma given_inv p fl now s outs spent g i c c' j : inv p fl now s outs spent -> vget (group g s) i = Some c ->
  follows now (bool_decide (fl = Some (g, i))) (given (g, i) outs ++ [j]) (length (ran (g, i) outs)) c' -> 0 <= cost j ->
  inv p fl now (set_group g (vset (group g s) i c') s) (outs ++ [Given (g, i) j]) (spent + cost j).
Proof.
  intros [Hp Hn Hc Hr Hw Hs] Hg Hf Hj. pose proof (vget_Some_range _ _ _ Hg) as Hi.
  assert (forall x, ran x (outs ++ [Given (g, i) j]) = ran x outs) as Hran by (intros x; rewrite ran_app; cbn; by rewrite app_nil_r).
  constructor.
  - by rewrite period_set_group.
  - done.
  - intros g' i' d Hd. rewrite core_set in Hd by done. rewrite given_app, given_one, Hran.
    destruct (decide ((g, i) = (g', i'))) as [[= <- <-]|Hne]; [by simplify_eq|]. rewrite app_nil_r. by apply Hc.
  - intros x. rewrite Hran, given_app, given_one. rewrite finishes_app, take_app_le; [by apply Hr|].
    rewrite Hr. rewrite length_take. lia.
  - intros x. rewrite given_app, given_one, work_app. specialize (Hw x). destruct (decide ((g, i) = x)); rewrite ?work_one, ?work_nil; lia.
  - lia.
Qed.

Lemma core_picked p fl now s outs spent g : inv p fl now s outs spent -> 0 < vlen (group g s) -> spent < 2 ^ 64 ->
  exists c, vget (group g s) (leastBusyCPU (group g s)) = Some c.
Proof.
  intros Hinv Hlen Hsp. destruct (picked (group g s)) as (k & c & Hk & Hc & _).
  - intros E. by rewrite E in Hlen.
  - intros c [k Hk]%list_elem_of_lookup. unfold UINT64_MAX.
    assert (vget (group g s) (Z.of_nat k) = Some c) as Hv.
    { unfold vget. destruct (Z.ltb_spec (Z.of_nat k) 0); [lia|]. by rewrite Nat2Z.id. }
    pose proof (jobs_bound _ _ _ _ _ _ _ _ _ Hinv Hv). lia.
  - exists c. rewrite Hk. unfold vget. destruct (Z.ltb_spec (Z.of_nat k) 0); [lia|]. by rewrite Nat2Z.id.
Qed.

Lemma run_req_inv p fl now s outs spent r : inv p fl now s outs spent -> req_ok p r -> now + (spent + req_cost p r) < 2 ^ 64 ->
  exists o s', run_req now r s = Ok (o, s') /\ inv p fl now s' (outs ++ o) (spent + req_cost p r) /\ (forall x, ran x o = []) /\
    forall g, vlen (group g s') = vlen (group g s).
Proof.
  intros Hinv [Hd [i Hi]] Hw. pose proof Hinv as [Hp Hn Hc Hr Hwk Hsp]. pose proof (inst_latency _ _ _ _ Hi) as Hlat.
  unfold req_cost in *. rewrite Hi in *. unfold run_req, execute. rewrite bind_bind, get_bind. cbv zeta.
  set (g := group_of (rq_ns r)). destruct (Z.ltb_spec 0 (vlen (group g s))) as [Hlen|Hlen].
  - destruct (core_picked _ _ _ _ _ _ g Hinv Hlen ltac:(lia)) as [c Hv]. set (k := leastBusyCPU (group g s)) in *.
    set (j := mkSub (rq_func r) i now (rq_delay r)).
    assert (cost j = rq_delay r + latency i + 1) as Hcost by done.
    destruct (submit_follows now _ _ _ c (rq_func r) i (rq_delay r) (Hc _ _ _ Hv) Hn Hd Hlat) as (c' & Hsub & Hf).
    { fold j. rewrite work_app, work_one. specialize (Hwk (g, k)). lia. }
    rewrite Hp. rewrite bind_bind. erewrite (bind_ok (lift _)); [|unfold lift; rewrite Hi; reflexivity].
    rewrite bind_bind. erewrite (bind_ok (on_core _ _ _)); [|apply (on_core_eq g k _ s c tt c' Hv); by rewrite Hsub].
    rewrite ret_bind, get_bind, period_set_group, Hp.
    erewrite (bind_ok (lift _)); [|unfold lift; rewrite Hi; reflexivity].
    do 2 eexists. split; [reflexivity|]. split; [|split; [done|]].
    + rewrite <- Hcost. eapply given_inv; [exact Hinv|exact Hv|exact Hf|lia].
    + intros g'. apply vlen_set_group.
  - rewrite ret_bind. do 2 eexists. split; [reflexivity|]. split; [|done].
    constructor; try done; [intros g' i' c' Hg'; rewrite given_app, ran_app; cbn; rewrite !app_nil_r; by apply Hc| | |lia].
    + intros x. rewrite given_app, ran_app. cbn. rewrite !app_nil_r. apply Hr.
    + intros x. rewrite given_app. cbn. rewrite app_nil_r. specialize (Hwk x). lia.
Qed.

Lemma run_reqs_inv p fl now rs : forall s outs spent o0, inv p fl now s (outs ++ o0) spent -> Forall (req_ok p) rs ->
  now + (spent + reqs_cost p rs) < 2 ^ 64 -> (forall x, ran x o0 = []) ->
  exists o s', foldM (fun r o => o' ← run_req now r; mret (o ++ o')) rs o0 s = Ok (o, s') /\
    inv p fl now s' (outs ++ o) (spent + reqs_cost p rs) /\ (forall x, ran x o = []) /\ forall g, vlen (group g s') = vlen (group g s).
Proof.
  induction rs as [|r rs IH]; intros s outs spent o0 Hinv Hok Hw Hr0; cbn [foldM reqs_cost foldr] in *.
  - exists o0, s. split; [done|]. by rewrite Z.add_0_r.
  - fold (reqs_cost p rs) in *. apply Forall_cons in Hok as [Hr Hok].
    assert (0 <= reqs_cost p rs) as Hpos.
    { clear -Hok. induction Hok as [|x l [Hd [i Hi]] _ IHl]; cbn [reqs_cost foldr]; [lia|]. fold (reqs_cost p l).
      unfold req_cost. rewrite Hi. pose proof (inst_latency _ _ _ _ Hi). lia. }
    destruct (run_req_inv _ _ _ _ _ _ r Hinv Hr ltac:(lia)) as (o1 & s1 & H1 & Hi1 & Hr1 & Hl1).
    rewrite <- app_assoc in Hi1.
    destruct (IH s1 outs (spent + req_cost p r) (o0 ++ o1) Hi1 Hok ltac:(lia)) as (o & s' & H & Hi & Hran & Hl).
    { intros x. by rewrite ran_app, Hr0, Hr1. }
    exists o, s'. split; [|split; [by replace (spent + (req_cost p r + reqs_cost p rs)) with (spent + req_cost p r + reqs_cost p rs) by lia|]].
    + erewrite bind_ok; [exact H|]. by rewrite (bind_ok _ _ _ _ _ H1).
    + split; [done|]. intros g. by rewrite Hl.
Qed.

(** A core whose own state changes, and nothing else. *)
Lemma inv_change p fl fl' now s outs outs' spent g i c c' : inv p fl now s outs spent -> vget (group g s) i = Some c ->
  (forall x, given x outs' = given x outs) -> (forall x, x <> (g, i) -> ran x outs' = ran x outs) ->
  (forall x, x <> (g, i) -> bool_decide (fl' = Some x) = bool_decide (fl = Some x)) ->
  follows now (bool_decide (fl' = Some (g, i))) (given (g, i) outs) (length (ran (g, i) outs')) c' ->
  ran (g, i) outs' = take (length (ran (g, i) outs')) (finishes 0 (given (g, i) outs)) ->
  inv p fl' now (set_group g (vset (group g s) i c') s) outs' spent.
Proof.
  intros [Hp Hn Hc Hr Hw Hs] Hg Hgiven Hran Hfl Hf Htake. pose proof (vget_Some_range _ _ _ Hg) as Hi.
  constructor; [by rewrite period_set_group|done| | | |done].
  - intros g' i' d Hd. rewrite core_set in Hd by done. rewrite Hgiven.
    destruct (decide ((g, i) = (g', i'))) as [[= <- <-]|Hne]; [by simplify_eq|].
    rewrite Hran, Hfl by done. by apply Hc.
  - intros x. rewrite Hgiven. destruct (decide (x = (g, i))) as [->|Hne]; [done|]. by rewrite Hran.
  - intros x. by rewrite Hgiven.
Qed.

Lemma ran_cons_same x now f o : ran x (Ran (Some x) now f :: o) = (now, f) :: ran x o.
Proof. unfold ran. cbn. by rewrite decide_True. Qed.
Lemma ran_cons_other x y now f o : x <> y -> ran x (Ran (Some y) now f :: o) = ran x o.
Proof. intros H. unfold ran. cbn. by rewrite decide_False. Qed.

Lemma fire_inv p now s outs spent g i c rs : inv p None now s outs spent -> vget (group g s) i = Some c -> jobEvent c = Some now ->
  Forall (req_ok p) rs -> now + (spent + reqs_cost p rs) < 2 ^ 64 ->
  exists o s', run_op (Fire g i rs) (now, s) = Ok (o, (now, s')) /\ inv p None now s' (outs ++ o) (spent + reqs_cost p rs).
Proof.
  intros Hinv Hg Hev Hrs Hw. cbn [run_op fst snd]. rewrite Hg, bool_decide_true by done.
  destruct (call_follows _ _ _ _ (in_core _ _ _ _ _ _ Hinv _ _ _ Hg) Hev) as (f & c1 & Hcall & Hf1 & Hfin).
  unfold fire_call. rewrite (on_core_eq g i jobCall s c f c1 Hg Hcall). cbn [mbind res_bind fst snd].
  pose proof (vget_Some_range _ _ _ Hg) as Hi.
  assert (inv p (Some (g, i)) now (set_group g (vset (group g s) i c1) s) (outs ++ []) spent) as H1.
  { rewrite app_nil_r. eapply inv_change; [exact Hinv|exact Hg|done|done| | |].
    - intros x Hx. rewrite bool_decide_false by (by intros [= E]). by rewrite bool_decide_false.
    - by rewrite bool_decide_true.
    - apply (in_ran _ _ _ _ _ _ Hinv). }
  destruct (run_reqs_inv p (Some (g, i)) now rs _ outs spent [] H1 Hrs Hw ltac:(done)) as (o & s2 & H2 & Hi2 & Hran & Hl).
  unfold run_reqs. rewrite H2. cbn [mbind res_bind fst snd].
  assert (0 <= i < vlen (group g s2)) as Hi2' by (rewrite Hl, vlen_set_group; done).
  destruct (vget_in_range _ _ Hi2') as [c2 Hc2].
  pose proof (in_core _ _ _ _ _ _ Hi2 _ _ _ Hc2) as Hf2. rewrite bool_decide_true in Hf2 by done.
  assert (ran (g, i) (outs ++ o) = ran (g, i) outs) as Hro by (by rewrite ran_app, Hran, app_nil_r).
  destruct (finish_follows _ _ _ _ Hf2) as (c3 & H3 & Hf3).
  { pose proof (in_work _ _ _ _ _ _ Hi2 (g, i)). lia. }
  { apply (in_now _ _ _ _ _ _ Hinv). }
  unfold fire_finish. rewrite (on_core_eq g i _ s2 c2 tt c3 Hc2); [|by rewrite H3]. cbn [mbind res_bind fst snd].
  do 2 eexists. split; [reflexivity|]. rewrite Hro in Hf3.
  assert (forall x, given x (outs ++ Ran (Some (g, i)) now f :: o) = given x (outs ++ o)) as Hgiv by (intros x; by rewrite !given_app).
  assert (ran (g, i) (outs ++ Ran (Some (g, i)) now f :: o) = ran (g, i) outs ++ [(now, f)]) as Hr'.
  { rewrite ran_app, ran_cons_same, Hran. done. }
  eapply inv_change; [exact Hi2|exact Hc2|exact Hgiv| | | |].
  - intros x Hx. by rewrite !ran_app, ran_cons_other.
  - intros x Hx. rewrite bool_decide_false by done. symmetry. apply bool_decide_false. by intros [= E].
  - rewrite Hr', length_app, Nat.add_1_r. by rewrite bool_decide_false.
  - rewrite Hr', length_app, Nat.add_1_r. rewrite given_app, finishes_app.
    pose proof (lookup_lt_Some _ _ _ Hfin) as Hlt.
    rewrite take_app_le by lia. rewrite (take_S_r _ _ _ Hfin). by rewrite <- (in_ran _ _ _ _ _ _ Hinv).
Qed.

Lemma pass_inv p now s outs spent tick : inv p None now s outs spent -> now <= tick -> forallb (not_before tick) (all_cores s) = true ->
  inv p None tick s outs spent.
Proof.
  intros [Hp Hn Hc Hr Hw Hs] Ht Hall. constructor; try done; [lia|].
  intros g i c Hg. eapply follows_pass; [by apply Hc|by apply bool_decide_false|done|].
  intros e He. rewrite forallb_forall in Hall.
  assert (List.In c (all_cores s)) as Hin.
  { apply vget_elem_of, list_elem_of_In in Hg. unfold all_cores. destruct g; cbn [group] in Hg; rewrite !in_app_iff; auto. }
  specialize (Hall _ Hin). unfold not_before in Hall. rewrite He in Hall. by apply Z.leb_le.
Qed.

Lemma make_inv clock nH nI nF s now : CPU_make clock nH nI nF = Ok s -> 0 <= now -> inv (clockPeriod s) None now s [] 0.
Proof.
  unfold CPU_make. destruct (f32_to_u64 _) as [period|]; [|done]. intros [= <-] Hnow. constructor; try done.
  intros g i c Hg. apply vget_elem_of in Hg. replace c with Core_make; [apply fresh_core_follows|].
  by destruct g; apply list_elem_of_lookup in Hg as [k [-> _]%lookup_replicate].
Qed.

Lemma run_inv p T ops : forall now s outs spent, inv p None now s outs spent -> now <= T -> Forall (op_ok p T) ops ->
  T + (spent + ops_cost p ops) < 2 ^ 64 ->
  exists o now' s', run ops (now, s) = Ok (o, (now', s')) /\ now <= now' <= T /\ exists spent', inv p None now' s' (outs ++ o) spent'.
Proof.
  induction ops as [|o ops IH]; intros now s outs spent Hinv HT Hok Hw; cbn [run ops_cost foldr] in *.
  - exists [], now, s. split; [done|]. split; [lia|]. exists spent. by rewrite app_nil_r.
  - fold (ops_cost p ops) in Hw. apply Forall_cons in Hok as [Ho Hok].
    assert (forall rs, Forall (req_ok p) rs -> 0 <= reqs_cost p rs) as Hreqs.
    { intros rs H. induction H as [|x l [Hd [i Hi]] _ IHl]; cbn [reqs_cost foldr]; [lia|]. fold (reqs_cost p l).
      unfold req_cost. rewrite Hi. pose proof (inst_latency _ _ _ _ Hi). lia. }
    assert (0 <= ops_cost p ops) as Hpos.
    { clear -Hok Hreqs. induction Hok as [|x l Hx _ IHl]; cbn [ops_cost foldr]; [lia|]. fold (ops_cost p l).
      destruct x as [r|g i rs|tick]; cbn [op_cost op_ok] in *; [|specialize (Hreqs _ Hx); lia|lia].
      specialize (Hreqs [r] ltac:(by apply Forall_singleton)). cbn [reqs_cost foldr] in Hreqs. lia. }
    assert (exists o1 now1 s1, run_op o (now, s) = Ok (o1, (now1, s1)) /\ now <= now1 <= T /\
      inv p None now1 s1 (outs ++ o1) (spent + op_cost p o)) as (o1 & now1 & s1 & H1 & Hn1 & Hi1).
    { destruct o as [r|g i rs|tick]; cbn [op_cost op_ok] in *.
      - destruct (run_req_inv _ _ _ _ _ _ r Hinv Ho ltac:(lia)) as (o1 & s1 & H1 & Hi1 & _).
        exists o1, now, s1. cbn [run_op fst snd]. rewrite H1. split; [done|]. split; [lia|done].
      - assert (inv p None now s (outs ++ []) (spent + reqs_cost p rs)) as Hno.
        { rewrite app_nil_r. destruct Hinv. specialize (Hreqs _ Ho). constructor; try done; [intros x; specialize (in_work0 x)|]; lia. }
        cbn [run_op fst snd]. destruct (vget (group g s) i) as [c|] eqn:Hg; [|exists [], now, s; split; [done|split; [lia|exact Hno]]].
        case_bool_decide as Hev; [|exists [], now, s; split; [done|split; [lia|exact Hno]]].
        destruct (fire_inv _ _ _ _ _ _ _ _ rs Hinv Hg Hev Ho ltac:(lia)) as (o1 & s1 & H1 & Hi1).
        exists o1, now, s1. cbn [run_op fst snd] in H1. rewrite Hg, bool_decide_true in H1 by done. split; [exact H1|]. split; [lia|done].
      - cbn [run_op fst snd]. rewrite Z.add_0_r. destruct ((now <=? tick) && forallb (not_before tick) (all_cores s)) eqn:E.
        + apply andb_true_iff in E as [E1%Z.leb_le E2]. exists [], tick, s. split; [done|]. split; [lia|].
          rewrite app_nil_r. by apply (pass_inv p now).
        + exists [], now, s. split; [done|]. split; [lia|]. by rewrite app_nil_r. }
    destruct (IH now1 s1 (outs ++ o1) (spent + op_cost p o) Hi1 ltac:(lia) Hok ltac:(lia)) as (o2 & now2 & s2 & H2 & Hn2 & sp2 & Hi2).
    exists (o1 ++ o2), now2, s2. rewrite H1. cbn [mbind res_bind fst snd]. rewrite H2. split; [done|]. split; [lia|].
    exists sp2. by rewrite app_assoc.
Qed.

Lemma finishes_from last l : Forall (fun s => 0 <= sub_latency s) l -> Forall (fun p => last <= p.1) (finishes last l).
Proof.
  intros Hl. revert last. induction Hl as [|s l Hs Hl IH]; intros last; cbn [finishes]; [done|]. constructor; [cbn; lia|].
  eapply Forall_impl; [apply IH|]. cbn. intros p Hp. lia.
Qed.

Lemma finishes_after last l n e f : Forall (fun s => 0 <= sub_latency s) l -> finishes last l !! n = Some (e, f) ->
  Forall (fun p => e <= p.1) (drop n (finishes last l)).
Proof.
  intros Hl. revert last n. induction Hl as [|s l Hs Hl IH]; intros last n H; [done|]. cbn [finishes] in *. destruct n as [|n].
  - cbn in H. injection H as <- <-. cbn [drop]. constructor; [done|]. by apply finishes_from.
  - cbn in H |- *. by apply IH.
Qed.

(** C21: The cores run their jobs on schedule.  Over any sequence of requests, events with further requests and passing time
    from the constructor on, nothing fails, and each core calls the functions of the jobs it was given in the order it got
    them, each exactly at the time the reference schedule [finishes] gives: the later of the end of the job before and
    its submission plus delay, plus its latency.  The calls made are a first part of the schedule, what is left is not
    overdue, and the core's busy time is the sum of the latencies of the jobs that are through. *)
Theorem jobs_run_on_schedule (clock nHil nIcl nFtl now T : Z) (s : t) (ops : list Op)
    (Hs : CPU_make clock nHil nIcl nFtl = Ok s) (Hnow : 0 <= now <= T) (Hops : Forall (op_ok (clockPeriod s) T) ops)
    (Hw : T + ops_cost (clockPeriod s) ops < 2 ^ 64) :
  exists outs now' s', run ops (now, s) = Ok (outs, (now', s')) /\ now <= now' <= T /\
    forall g i c, vget (group g s') i = Some c ->
      let x := (g, i) in let n := length (ran x outs) in
      ran x outs = take n (finishes 0 (given x outs)) /\
      Forall (fun p => now' <= p.1) (drop n (finishes 0 (given x outs))) /\
      busyTime c = u64 (foldr (fun j t => sub_latency j + t) 0 (take n (given x outs))).
Proof.
  pose proof (make_inv _ _ _ _ _ now Hs ltac:(lia)) as H0.
  destruct (run_inv _ T ops now s [] 0 H0 ltac:(lia) Hops ltac:(lia)) as (outs & now' & s' & Hrun & Hn & sp & Hinv).
  exists outs, now', s'. split; [done|]. split; [done|]. intros g i c Hc x n.
  split; [apply (in_ran _ _ _ _ _ _ Hinv)|].
  destruct (in_core _ _ _ _ _ _ Hinv _ _ _ Hc) as [_ Hle _ _ _ Hnext _ Hsubs Ht]. split; [|exact Ht].
  change (bool_decide (None = Some (g, i))) with false in Hnext. cbv iota in Hnext.
  fold x n in Hnext. cbn [app] in *. destruct (finishes 0 (given x outs) !! n) as [[e f]|] eqn:Hl.
  - eapply Forall_impl; [eapply finishes_after; [|exact Hl]|].
    + eapply Forall_impl; [exact Hsubs|]. by intros j (_ & ? & _).
    + cbn. intros p Hp. specialize (Hnext _ _ Hl). lia.
  - rewrite drop_ge; [done|]. by apply lookup_ge_None_1.
Qed.

(** Requests of two cores, the first of them with a delay; the function of the first job makes a request of its own. *)
Lemma jobs_run_on_schedule_witness :
  let ops := [Exec (mkReq NVME__CONTROLLER WORK 1 500000); Exec (mkReq HIL READ 2 0); Exec (mkReq HIL WRITE 3 0);
              Pass 1158100; Fire hilCore 0 [mkReq NVME__CONTROLLER COMPLETION 4 100]; Pass 1194100; Fire hilCore 1 []] in
  exists s outs w, CPU_make 500000000 2 0 1 = Ok s /\ run ops (100, s) = Ok (outs, w) /\
    ran (hilCore, 0) outs = [(1158100, 1)] /\ ran (hilCore, 1) outs = [(1194100, 2)] /\ w.1 = 1194100.
Proof.
  cbv zeta. set (ops := [_; _; _; _; _; _; _]).
  eexists. pose (s := mk 2000 0 [Core_make; Core_make] [] [Core_make]).
  destruct (jobs_run_on_schedule 500000000 2 0 1 100 100000000 s ops) as (outs & now' & s' & Hr & _); [reflexivity|lia| |vm_compute; reflexivity|].
  - repeat (apply Forall_cons_2; [first [split; [cbn; lia|eexists; reflexivity] | apply Forall_cons_2; [split; [cbn; lia|eexists; reflexivity]|apply Forall_nil_2] | apply Forall_nil_2 | cbn; lia]|]).
    apply Forall_nil_2.
  - exists outs, (now', s'). split; [reflexivity|]. split; [exact Hr|]. vm_compute in Hr. injection Hr as <- <- <-. split; [reflexivity|]. split; reflexivity.
Defined.

(** ** Dispatch *)

(** [submitJob] never fails: the job is the last of the queue, and the core is busy. *)
Lemma submitJob_eq now f i d c : exists c', submitJob now (mkJobEntry f i 0 0) d c = Ok c' /\
  jobs c' = jobs c ++ [mkJobEntry f i now d] /\ busy c' = true /\ busyTime c' = busyTime c /\ (busy c = true -> jobEvent c' = jobEvent c).
Proof.
  unfold submitJob. cbn [func inst]. destruct (busy c) eqn:Hb.
  - eexists. split; [reflexivity|]. done.
  - unfold handleJob. cbn [jobs]. destruct (jobs c ++ [mkJobEntry f i now d]) as [|x l] eqn:E; [by destruct (jobs c)|].
    cbn [Fifo.front mbind res_bind]. eexists. split; [reflexivity|]. done.
Qed.

(** C24: [execute] gives a job to exactly one core of the group of its namespace, the one [least_loaded] describes, at the end
    of its queue; a core that is busy keeps its event.  [applyLatency] charges the time of the function to the same core,
    whose jobs it leaves alone, and returns it.  For a group without cores the function is left to be called at once, and
    the latency is 0. *)
Theorem execute_picks_core (now f d : Z) (ns : NAMESPACE) (fct : FUNCTION) (s : t) (inst : InstStat)
    (Hi : inst_of (clockPeriod s) ns fct = Ok inst)
    (Hj : forall c, c ∈ group (group_of ns) s -> vlen (jobs c) <= UINT64_MAX) :
  let l := group (group_of ns) s in
  (l = [] -> execute now ns fct f d s = Ok (None, s) /\ applyLatency ns fct s = Ok (0, s)) /\
  (l <> [] -> exists k c c' c'', l !! k = Some c /\ least_loaded l k c /\
    execute now ns fct f d s = Ok (Some (group_of ns, Z.of_nat k), set_group (group_of ns) (<[k := c']> l) s) /\
    jobs c' = jobs c ++ [mkJobEntry f inst now d] /\ busy c' = true /\ (busy c = true -> jobEvent c' = jobEvent c) /\
    applyLatency ns fct s = Ok (latency inst, set_group (group_of ns) (<[k := c'']> l) s) /\
    busyTime c'' = u64 (busyTime c + latency inst) /\
    jobs c'' = jobs c /\ busy c'' = busy c /\ jobEvent c'' = jobEvent c).
Proof.
  intros l. unfold execute, applyLatency. rewrite !get_bind. cbv zeta. fold l. split.
  - intros ->. by split.
  - intros Hne. destruct (chosen (group_of ns) s Hne Hj) as (k & c & Hk & Hc & Hpick & Hlen & Hv & Hset).
    fold l in Hk, Hc, Hpick, Hlen, Hset. rewrite Hlen. destruct (submitJob_eq now f inst d c) as (c' & Hsub & Hjobs & Hb & _ & Hev).
    exists k, c, c', (addStat inst c). split; [done|]. split; [exact Hpick|]. rewrite Hk. repeat (split; [try done|]); try done.
    + erewrite (bind_ok (lift _)); [|unfold lift; rewrite Hi; reflexivity].
      erewrite (bind_ok (on_core _ _ _)); [|apply (on_core_eq _ _ _ s c tt c' Hv); by rewrite Hsub]. fold l. by rewrite Hset.
    + erewrite (bind_ok (lift _)); [|unfold lift; rewrite Hi; reflexivity].
      erewrite (bind_ok (on_core _ _ _)); [|by apply (on_core_eq _ _ _ s c tt (addStat inst c) Hv)]. fold l. by rewrite Hset.
Qed.

(** The second of three cores is idle with the least busy time; there is no core for the flash layer. *)
Definition worked (b : bool) (n : Z) (l : list JobEntry) : Core := mkCore b None l InstStat_zero n.
Definition three_cores : t := mk 1000 0 [worked false 30 []; worked false 10 []; worked true 0 [mkJobEntry 1 InstStat_zero 0 0]] [] [].
Lemma three_cores_short g c : c ∈ group g three_cores -> vlen (jobs c) <= UINT64_MAX.
Proof.
  intros Hc. assert (Forall (fun c => vlen (jobs c) <= UINT64_MAX) (group g three_cores)) as HF
    by (destruct g; cbn; repeat (apply Forall_cons_2; [by apply Z.leb_le|]); apply Forall_nil_2).
  by eapply Forall_forall in HF.
Qed.

Lemma execute_picks_core_witness :
  (exists s', execute 5 HIL READ 9 0 three_cores = Ok (Some (hilCore, 1), s')) /\
  execute 5 NS_FTL READ 9 0 three_cores = Ok (None, three_cores) /\ applyLatency NS_FTL READ three_cores = Ok (0, three_cores).
Proof.
  split.
  - destruct (execute_picks_core 5 9 0 HIL READ three_cores (InstStat_make 61 312 102 120 0 2 1000) eq_refl (three_cores_short hilCore)) as [_ Hx].
    destruct (Hx ltac:(done)) as (k & c & c' & c'' & _ & _ & He & _).
    assert (execute 5 HIL READ 9 0 three_cores = Ok (Some (hilCore, 1), match execute 5 HIL READ 9 0 three_cores with Ok (_, s') => s' | Err _ => three_cores end)) as E
      by (vm_compute; reflexivity).
    rewrite He in E |- *. injection E as E. rewrite E. by eexists.
  - destruct (execute_picks_core 5 9 0 NS_FTL READ three_cores (InstStat_make 5 32 6 13 0 1 1000) eq_refl (three_cores_short ftlCore)) as [Hx _]. by apply Hx.
Defined.

Lemma inst_latency_range p ns fct i : inst_of p ns fct = Ok i -> 0 <= latency i < 2 ^ 64.
Proof.
  intros Hi. split; [by eapply inst_latency|]. revert Hi.
  unfold inst_of. destruct (find _ cpi) as [tb|]; [|done]. destruct (find _ tb) as [[[[[[b l] s] a] f] o]|]; [|done].
  intros [= <-]. apply u64_range.
Qed.

(** [execute] fails only for a label that is not in the table. *)
Lemma execute_returns now f d ns fct s i : inst_of (clockPeriod s) ns fct = Ok i ->
  (forall c, c ∈ group (group_of ns) s -> vlen (jobs c) <= UINT64_MAX) -> exists r, execute now ns fct f d s = Ok r.
Proof.
  intros Hi Hj. unfold execute. rewrite get_bind. cbv zeta. destruct (decide (group (group_of ns) s = [])) as [Hn|Hne].
  { rewrite Hn. by eexists. }
  destruct (chosen _ _ Hne Hj) as (k & c & Hk & Hc & _ & Hlen & Hv & _). rewrite Hlen.
  destruct (submitJob_eq now f i d c) as (c' & Hsub & _). rewrite Hk.
  erewrite (bind_ok (lift _)); [|unfold lift; rewrite Hi; reflexivity].
  erewrite (bind_ok (on_core _ _ _)); [|apply (on_core_eq _ _ _ s c tt c' Hv); by rewrite Hsub]. by eexists.
Qed.

(** C39: Handing a function of the NVMe controller to the processor never ends in one of the two panics of [execute]: its
    label is in the table of instruction counts, for either subsystem, its time fits 64 bits, and [execute] returns,
    whatever the cores of the host interface are doing.  What the function does when it runs is not part of this. *)
Theorem controller_labels_known (c : Controller.Conf) (j : Controller.Job) (now f d : Z) (s : t)
    (Hj : forall x, x ∈ group hilCore s -> vlen (jobs x) <= UINT64_MAX) :
  let label := Controller.job_label c j in
  group_of label.1 = hilCore /\
  (exists i, inst_of (clockPeriod s) label.1 label.2 = Ok i /\ 0 <= latency i < 2 ^ 64) /\
  exists r, execute now label.1 label.2 f d s = Ok r.
Proof.
  cbv zeta.
  assert (group_of (Controller.job_label c j).1 = hilCore /\
    exists i, inst_of (clockPeriod s) (Controller.job_label c j).1 (Controller.job_label c j).2 = Ok i) as [Hg [i Hi]].
  { destruct j as [| | |req|l|[] g]; unfold Controller.job_label, Controller.submit_label; try destruct (Controller.bUseOCSSD c); (split; [reflexivity|eexists; reflexivity]). }
  split; [exact Hg|]. split; [exists i; split; [exact Hi|by eapply inst_latency_range]|].
  eapply execute_returns; [exact Hi|]. by rewrite Hg.
Qed.

Lemma controller_labels_known_witness :
  exists r, execute 5 NVME__CONTROLLER WORK 9 0 three_cores = Ok r.
Proof.
  pose (c := Controller.mkConf 1 1000 1 1 false).
  destruct (controller_labels_known c Controller.queueFunction 5 9 0 three_cores (three_cores_short hilCore)) as (_ & _ & Hr). exact Hr.
Defined.
