(* ===== verification/Bil.v ===== *)
(** * bil/entry.cc, bil/noop_scheduler.cc, igl/io_gen.hh: the block layer of the host

    [BlockIOEntry] passes the requests of a generator to the driver and keeps them
    until they complete, with the statistics of their latencies.  [Front] is a
    generator with its event, the block layer and the driver: the driver is the list
    of the requests it holds and completes them later, in any order.  A generator is
    an instance of [IOGenerator]. *)

From S2P Require Import Prelude Float32 Types Fifo.

(** A request in [ioQueue] with the tick it was submitted at. *)
Record Entry : Type := mkEntry { e_bio : BIO; submittedAt : Z }.

(** [Progress] *)
Record Progress : Type := mkProgress { iops : Z; bandwidth : Z; latency : Z }.

(** [BlockIOEntry]; a line of the latency file is the id, the offset, the length and the latency. *)
Record BlockIOEntry : Type := mkBlockIOEntry {
  ioQueue : list Entry;
  latencyFile : option (list (Z * Z * Z * Z));
  lastProgress : Z; io_progress : Z; progress : Progress;
  io_count : Z; minLatency : Z; maxLatency : Z; sumLatency : Z; squareSumLatency : Z;
}.

(** The constructor; [progress] is not initialised. *)
Definition BlockIOEntry_make (file : bool) (p : Progress) : BlockIOEntry :=
  mkBlockIOEntry [] (if file then Some [] else None) 0 0 p 0 (2 ^ 64 - 1) 0 0 0.

Definition set_ioQueue (q : list Entry) (b : BlockIOEntry) : BlockIOEntry :=
  mkBlockIOEntry q (latencyFile b) (lastProgress b) (io_progress b) (progress b)
    (io_count b) (minLatency b) (maxLatency b) (sumLatency b) (squareSumLatency b).

(** The two parts of [submitIO] and [completion] that count. *)
Definition enqueue (tick : Z) (bio : BIO) (b : BlockIOEntry) : BlockIOEntry :=
  mkBlockIOEntry (ioQueue b ++ [mkEntry bio tick]) (latencyFile b) (lastProgress b) (io_progress b) (progress b)
    (u64 (io_count b + 1)) (minLatency b) (maxLatency b) (sumLatency b) (squareSumLatency b).
Definition count_progress (bio : BIO) (tick : Z) (b : BlockIOEntry) : BlockIOEntry :=
  mkBlockIOEntry (ioQueue b)
    ((fun l => l ++ [(bio_id bio, bio_offset bio, bio_length bio, tick)]) <$> latencyFile b)
    (lastProgress b) (u64 (io_progress b + 1))
    (mkProgress (u64 (iops (progress b) + 1)) (u64 (bandwidth (progress b) + bio_length bio))
       (u64 (latency (progress b) + tick)))
    (io_count b) (minLatency b) (maxLatency b) (sumLatency b) (squareSumLatency b).
Definition count_latency (tick : Z) (b : BlockIOEntry) : BlockIOEntry :=
  mkBlockIOEntry (ioQueue b) (latencyFile b) (lastProgress b) (io_progress b) (progress b) (io_count b)
    (if tick <? minLatency b then tick else minLatency b)
    (if maxLatency b <? tick then tick else maxLatency b)
    (u64 (sumLatency b + tick)) (u64 (squareSumLatency b + u64 (tick * tick))).

(** The first request with an id, and its place. *)
Fixpoint find_id (id : Z) (i : nat) (q : list Entry) : option (nat * Entry) :=
  match q with
  | [] => None
  | e :: q => if bio_id (e_bio e) =? id then Some (i, e) else find_id id (S i) q
  end.

(** ** A generator over the block layer and a driver *)

(** What the driver has seen: it took or completed a request. *)
Inductive Ev : Type := Took (tick : Z) (bio : BIO) | Done (tick : Z) (bio : BIO).

(** [submitEvent] is the generator's event with the tick it is scheduled for; [ended]
    counts the calls of [endCallback]. *)
Record Front (G : Type) : Type := mkFront {
  now : Z; gen : G; submitEvent : option Z; entry : BlockIOEntry;
  driver : list BIO; history : list Ev; ended : Z;
}.
Arguments mkFront {G} _ _ _ _ _ _ _.
Arguments now {G} _.
Arguments gen {G} _.
Arguments submitEvent {G} _.
Arguments entry {G} _.
Arguments driver {G} _.
Arguments history {G} _.
Arguments ended {G} _.

Section Front.
  Context {G : Type}.
  Implicit Types w : Front G.

Definition set_now (x : Z) w : Front G := mkFront x (gen w) (submitEvent w) (entry w) (driver w) (history w) (ended w).
Definition set_gen (x : G) w : Front G := mkFront (now w) x (submitEvent w) (entry w) (driver w) (history w) (ended w).
Definition set_event (x : option Z) w : Front G := mkFront (now w) (gen w) x (entry w) (driver w) (history w) (ended w).
Definition upd_entry (f : BlockIOEntry -> BlockIOEntry) w : Front G :=
  mkFront (now w) (gen w) (submitEvent w) (f (entry w)) (driver w) (history w) (ended w).
Definition set_driver (d : list BIO) (e : Ev) w : Front G :=
  mkFront (now w) (gen w) (submitEvent w) (entry w) d (history w ++ [e]) (ended w).

(** What a generator may call: the engine, the end of the simulation, the block layer. *)
Definition scheduleEvent (tick : Z) : M (Front G) unit := modify (fun w => set_event (Fifo.at_tick (now w) tick) w).
Definition endCallback : M (Front G) unit :=
  modify (fun w => mkFront (now w) (gen w) (submitEvent w) (entry w) (driver w) (history w) (ended w + 1)).
(** [NoopScheduler::submitIO]: the driver takes the request. *)
Definition NoopScheduler_submitIO (bio : BIO) : M (Front G) unit :=
  modify (fun w => set_driver (driver w ++ [bio]) (Took (now w) bio) w).
Definition submitIO (bio : BIO) : M (Front G) unit :=
  modify (fun w => upd_entry (enqueue (now w) bio) w);; NoopScheduler_submitIO bio.

(** [completion]; [callback] is the function of the request. *)
Definition completion (callback : Z -> M (Front G) unit) (id : Z) : M (Front G) unit :=
  w ← get;
  tick ← (match find_id id 0 (ioQueue (entry w)) with
          | Some (i, e) =>
              let tick := u64 (now w - submittedAt e) in
              modify (upd_entry (count_progress (e_bio e) tick));;
              callback id;;
              modify (upd_entry (fun b => set_ioQueue (delete i (ioQueue b)) b));;
              mret tick
          | None => mret (now w)
          end);
  modify (upd_entry (count_latency tick)).

(** [getProgress]: the rates are products of doubles, cut to integers. *)
Definition f64_of_Z (z : Z) : spec_float := binary_normalize 53 1024 z 0 false.
Definition getProgress : M (Front G) Progress :=
  w ← get;
  let b := entry w in
  let diff := u64 (now w - lastProgress b) in
  if diff =? 0 then mret (mkProgress 0 0 0)
  else
    let ratio := SFdiv 53 1024 (f64_of_Z 1000000000000) (f64_of_Z diff) in
    i ← lift (f32_to_u64 (SFmul 53 1024 (f64_of_Z (iops (progress b))) ratio));
    w' ← lift (f32_to_u64 (SFmul 53 1024 (f64_of_Z (bandwidth (progress b))) ratio));
    let l := if io_progress b =? 0 then 0 else latency (progress b) / io_progress b in
    modify (upd_entry (fun b =>
      mkBlockIOEntry (ioQueue b) (latencyFile b) (now w) 0 (mkProgress 0 0 0)
        (io_count b) (minLatency b) (maxLatency b) (sumLatency b) (squareSumLatency b)));;
    mret (mkProgress i w' l).
End Front.

(** [IOGenerator]: [begin], the function of its event, and the callback of its requests. *)
Class IOGenerator (G : Type) : Type := {
  begin : M (Front G) unit;
  fire : M (Front G) unit;
  iocallback : Z -> M (Front G) unit;
}.

(** The event fires at its tick; the driver completes the [k]-th request it holds; time
    passes, but not beyond the event. *)
Inductive Op : Type := Fire | Complete (k : nat) | Pass (tick : Z).

Definition step {G : Type} `{IOGenerator G} (o : Op) : M (Front G) unit :=
  w ← get;
  match o with
  | Fire =>
      match submitEvent w with
      | Some e => if e =? now w then modify (set_event None);; fire else mret tt
      | None => mret tt
      end
  | Complete k =>
      match driver w !! k with
      | Some bio =>
          modify (fun w => set_driver (delete k (driver w)) (Done (now w) bio) w);; completion iocallback (bio_id bio)
      | None => mret tt
      end
  | Pass tick =>
      let free := match submitEvent w with Some e => tick <=? e | None => true end in
      when ((now w <=? tick) && free) (modify (set_now tick))
  end.
Definition run {G : Type} `{IOGenerator G} (ops : list Op) : M (Front G) unit := begin;; iterM step ops.

(** The start of the simulation: the interface has called the begin function at [tick]. *)
Definition start {G : Type} (tick : Z) (g : G) (b : BlockIOEntry) : Front G := mkFront tick g None b [] [] 0.
