(* ===== verification/BilTheorems.v ===== *)
(** * The block layer: what it counts

    The history of a run says when the driver took and completed which request.  The
    queue of the block layer is the list of requests the driver holds, and its
    statistics are those of the latencies in the history ([latencies_recorded]), for
    every generator that numbers its requests ([IOGeneratorLaws]). *)

From S2P Require Import Prelude Float32 Types Bil.

(** ** The history as a reference *)

Definition took (e : Ev) : option (Z * BIO) := match e with Took t b => Some (t, b) | Done _ _ => None end.
Definition finished (e : Ev) : option (Z * BIO) := match e with Done t b => Some (t, b) | Took _ _ => None end.
Definition accepted (h : list Ev) : list BIO := (omap took h).*2.
Definition completed (h : list Ev) : list BIO := (omap finished h).*2.

Lemma accepted_app h h' : accepted (h ++ h') = accepted h ++ accepted h'.
Proof. unfold accepted. by rewrite omap_app, fmap_app. Qed.
Lemma completed_app h h' : completed (h ++ h') = completed h ++ completed h'.
Proof. unfold completed. by rewrite omap_app, fmap_app. Qed.

(** The tick at which the request [id] was taken. *)
Fixpoint taken_at (h : list Ev) (id : Z) : Z :=
  match h with
  | [] => 0
  | Took t b :: h => if bio_id b =? id then t else taken_at h id
  | Done _ _ :: h => taken_at h id
  end.
Definition latency_of (h : list Ev) (x : Z * BIO) : Z := u64 (x.1 - taken_at h (bio_id x.2)).
Definition latencies (h : list Ev) : list Z := latency_of h <$> omap finished h.
Definition row (x : Z * BIO) (l : Z) : Z * Z * Z * Z := (bio_id x.2, bio_offset x.2, bio_length x.2, l).

Definition count {A} (l : list A) : Z := u64 (vlen l).
Definition total (l : list Z) : Z := foldr Z.add 0 l.

(** The statistics that belong to a history. *)
Record counts (h : list Ev) (b : BlockIOEntry) : Prop := {
  c_file : forall l, latencyFile b = Some l -> l = zip_with row (omap finished h) (latencies h);
  c_count : io_count b = u64 (vlen (accepted h));
  c_min : minLatency b = foldr Z.min (2 ^ 64 - 1) (latencies h);
  c_max : maxLatency b = foldr Z.max 0 (latencies h);
  c_sum : sumLatency b = u64 (total (latencies h));
  c_square : squareSumLatency b = u64 (total ((fun l => l * l) <$> latencies h));
}.

(** Everything the block layer knows agrees with the history. *)
Record agrees {G} (w : Front G) : Prop := {
  a_queue : e_bio <$> ioQueue (entry w) = driver w;
  a_ticks : Forall (fun e => submittedAt e = taken_at (history w) (bio_id (e_bio e))) (ioQueue (entry w));
  a_ids : NoDup (bio_id <$> accepted (history w));
  a_held : accepted (history w) ≡ₚ completed (history w) ++ driver w;
  a_counts : counts (history w) (entry w);
}.

Lemma taken_at_app h h' id : id ∈ bio_id <$> accepted h -> taken_at (h ++ h') id = taken_at h id.
Proof.
  induction h as [|[t b|t b] h IH]; cbn [taken_at app].
  - intros H. by apply elem_of_nil in H.
  - destruct (bio_id b =? id) eqn:E; [done|]. intros H. apply IH.
    change (id ∈ bio_id b :: (bio_id <$> accepted h)) in H. apply elem_of_cons in H as [->|H]; [by rewrite Z.eqb_refl in E|done].
  - exact IH.
Qed.

Lemma taken_at_new h t b : bio_id b ∉ bio_id <$> accepted h -> taken_at (h ++ [Took t b]) (bio_id b) = t.
Proof.
  induction h as [|[t' b'|t' b'] h IH]; cbn [taken_at app].
  - by rewrite Z.eqb_refl.
  - intros H. change (bio_id b ∉ bio_id b' :: (bio_id <$> accepted h)) in H. apply not_elem_of_cons in H as [H1 H2].
    assert ((bio_id b' =? bio_id b) = false) as -> by (apply Z.eqb_neq; congruence). by apply IH.
  - exact IH.
Qed.

Lemma accepted_Done h t b : accepted (h ++ [Done t b]) = accepted h.
Proof. rewrite accepted_app. cbn. by rewrite app_nil_r. Qed.
Lemma completed_Took h t b : completed (h ++ [Took t b]) = completed h.
Proof. rewrite completed_app. cbn. by rewrite app_nil_r. Qed.

Lemma latencies_app h e : (forall b, b ∈ completed h -> bio_id b ∈ bio_id <$> accepted h) ->
  latencies (h ++ [e]) = latencies h ++ (latency_of (h ++ [e]) <$> omap finished [e]).
Proof.
  intros Hc. unfold latencies. rewrite omap_app, fmap_app. f_equal. apply list_fmap_ext. intros i x Hx.
  unfold latency_of. rewrite taken_at_app; [done|]. apply Hc. unfold completed.
  apply list_elem_of_fmap. exists x. split; [done|]. by eapply list_elem_of_lookup_2.
Qed.

Lemma latencies_Took h t b : (forall b, b ∈ completed h -> bio_id b ∈ bio_id <$> accepted h) ->
  latencies (h ++ [Took t b]) = latencies h.
Proof. intros Hc. rewrite latencies_app by done. cbn. apply app_nil_r. Qed.

Lemma foldr_snoc (f : Z -> Z -> Z) l a x : (forall a b, f a b = f b a) -> (forall a b c, f a (f b c) = f (f a b) c) ->
  foldr f a (l ++ [x]) = f x (foldr f a l).
Proof.
  intros Hc Ha. induction l as [|y l IH]; [done|]. cbn [foldr app]. rewrite IH. rewrite !Ha. f_equal. apply Hc.
Qed.

Lemma total_snoc l x : total (l ++ [x]) = x + total l.
Proof. apply foldr_snoc; intros; lia. Qed.

(** A held request was taken. *)
Lemma held_accepted {G} (w : Front G) b : agrees w -> b ∈ completed (history w) ++ driver w -> bio_id b ∈ bio_id <$> accepted (history w).
Proof. intros [_ _ _ Hp _] Hb. apply list_elem_of_fmap. exists b. split; [done|]. by rewrite Hp. Qed.
Lemma completed_accepted {G} (w : Front G) b : agrees w -> b ∈ completed (history w) -> bio_id b ∈ bio_id <$> accepted (history w).
Proof. intros Ha Hb. apply held_accepted; [done|]. apply elem_of_app. by left. Qed.

(** ** The two operations *)

(** Nothing of the block layer changes. *)
Record untouched {G} (w w' : Front G) : Prop := {
  u_now : now w' = now w; u_entry : entry w' = entry w; u_driver : driver w' = driver w; u_history : history w' = history w;
}.

Lemma untouched_agrees {G} (w w' : Front G) : untouched w w' -> agrees w -> agrees w'.
Proof. intros [_ He Hd Hh] [H1 H2 H3 H4 H5]. constructor; rewrite ?He, ?Hd, ?Hh; done. Qed.
Lemma untouched_trans {G} (w w' w'' : Front G) : untouched w w' -> untouched w' w'' -> untouched w w''.
Proof. intros [] []. constructor; congruence. Qed.

(** The block layer takes one request and passes it to the driver. *)
Record takes {G} (b : BIO) (w w' : Front G) : Prop := {
  t_now : now w' = now w;
  t_entry : entry w' = enqueue (now w) b (entry w);
  t_driver : driver w' = driver w ++ [b];
  t_history : history w' = history w ++ [Took (now w) b];
}.

Lemma submitIO_takes {G} (b : BIO) (w : Front G) : exists w', submitIO b w = Ok (tt, w') /\ takes b w w' /\
  gen w' = gen w /\ submitEvent w' = submitEvent w /\ ended w' = ended w.
Proof. eexists. split; [reflexivity|]. done. Qed.

Lemma takes_agrees {G} b (w w' : Front G) : takes b w w' -> bio_id b ∉ bio_id <$> accepted (history w) ->
  agrees w -> agrees w'.
Proof.
  intros [_ He Hd Hh] Hnew Ha. pose proof Ha as [H1 H2 H3 H4 H5].
  assert (accepted (history w') = accepted (history w) ++ [b]) as Hacc by (rewrite Hh, accepted_app; done).
  constructor; rewrite ?Hacc, ?He, ?Hd, ?Hh.
  - unfold enqueue. cbn [ioQueue]. by rewrite fmap_app, H1.
  - unfold enqueue. cbn [ioQueue]. apply Forall_app. split.
    + apply Forall_forall. intros e Hin. pose proof (proj1 (Forall_forall _ _) H2 e Hin) as ->.
      rewrite taken_at_app; [done|]. apply held_accepted; [done|]. apply elem_of_app. right.
      rewrite <- H1. apply list_elem_of_fmap. by exists e.
    + apply Forall_singleton. cbn [e_bio submittedAt]. by rewrite taken_at_new.
  - rewrite fmap_app. apply NoDup_app. split; [done|]. split; [|apply NoDup_singleton].
    intros x Hx Hx'. apply list_elem_of_singleton in Hx' as ->. done.
  - rewrite completed_Took. rewrite H4. by rewrite <- app_assoc.
  - destruct H5. constructor; unfold enqueue;
      cbn [latencyFile io_count minLatency maxLatency sumLatency squareSumLatency];
      rewrite ?(latencies_Took (history w)) by (intros b' Hb'; by apply (completed_accepted w)).
    + rewrite omap_app. cbn. by rewrite app_nil_r.
    + rewrite accepted_app. rewrite c_count0. unfold u64. rewrite Zplus_mod_idemp_l. f_equal. unfold vlen. rewrite length_app. cbn. lia.
    + done.
    + done.
    + done.
    + done.
Qed.

Lemma find_id_at id q i k : (NoDup (bio_id <$> (e_bio <$> q))) -> forall e, q !! k = Some e -> bio_id (e_bio e) = id ->
  find_id id i q = Some ((i + k)%nat, e).
Proof.
  revert i k. induction q as [|x q IH]; intros i k HND e Hk Hid; [done|].
  cbn [fmap list_fmap] in HND. apply NoDup_cons in HND as [Hx HND]. destruct k as [|k]; cbn [lookup list_lookup] in Hk.
  - injection Hk as ->. cbn [find_id]. rewrite Hid, Z.eqb_refl. by rewrite Nat.add_0_r.
  - cbn [find_id]. destruct (bio_id (e_bio x) =? id) eqn:E.
    + exfalso. apply Hx. apply Z.eqb_eq in E. rewrite E, <- Hid. apply list_elem_of_fmap. exists (e_bio e). split; [done|].
      apply list_elem_of_fmap. exists e. split; [done|]. by eapply list_elem_of_lookup_2.
    + rewrite (IH (S i) k HND e Hk Hid). do 2 f_equal. lia.
Qed.

Lemma delete_perm_app {A} (l : list A) k x : l !! k = Some x -> l ≡ₚ x :: delete k l.
Proof. apply delete_Permutation. Qed.

(** A request completes: the callback runs, and whatever it does to the generator, the
    block layer has recorded the request and forgotten it. *)
Section Complete.
  Context {G : Type} `{IOGenerator G} (E : err -> Prop) (w : Front G) (k : nat) (b : BIO).
  Context (Ha : agrees w) (Hk : driver w !! k = Some b).

Definition latency_now : Z := u64 (now w - taken_at (history w) (bio_id b)).
(** The state the callback sees. *)
Definition called : Front G :=
  upd_entry (count_progress b latency_now) (set_driver (delete k (driver w)) (Done (now w) b) w).

Record completes (w' : Front G) : Prop := {
  f_now : now w' = now w;
  f_driver : driver w' = delete k (driver w);
  f_history : history w' = history w ++ [Done (now w) b];
  f_agrees : agrees w';
}.

Lemma held_id : bio_id b ∈ bio_id <$> accepted (history w).
Proof. apply held_accepted; [done|]. apply elem_of_app. right. by eapply list_elem_of_lookup_2. Qed.

Lemma entry_at : exists e, ioQueue (entry w) !! k = Some e /\ e_bio e = b /\ submittedAt e = taken_at (history w) (bio_id b) /\
  find_id (bio_id b) 0 (ioQueue (entry w)) = Some (k, e).
Proof.
  pose proof Ha as [H1 H2 H3 H4 _]. rewrite <- H1, list_lookup_fmap in Hk.
  destruct (ioQueue (entry w) !! k) as [e|] eqn:He; [|done]. cbn in Hk. injection Hk as Hb.
  exists e. split; [done|]. split; [done|]. split.
  - pose proof (proj1 (Forall_lookup _ _) H2 k e He) as ->. by rewrite Hb.
  - apply (find_id_at _ _ 0 k); [|done|by rewrite Hb]. rewrite H1.
    rewrite H4, fmap_app in H3. by apply NoDup_app in H3 as (_ & _ & H3).
Qed.

Lemma completed_agrees (w' : Front G) : now w' = now w -> driver w' = delete k (driver w) ->
  history w' = history w ++ [Done (now w) b] ->
  entry w' = count_latency latency_now (set_ioQueue (delete k (ioQueue (entry w))) (count_progress b latency_now (entry w))) ->
  agrees w'.
Proof.
  intros _ Hd Hh He. pose proof Ha as [H1 H2 H3 H4 H5].
  assert (omap finished (history w') = omap finished (history w) ++ [(now w, b)]) as Hfin by (rewrite Hh, omap_app; done).
  assert (latencies (history w') = latencies (history w) ++ [latency_now]) as Hlat.
  { rewrite Hh, latencies_app by (intros b' Hb'; by apply (completed_accepted w)). cbn. do 2 f_equal.
    unfold latency_of, latency_now. cbn. by rewrite taken_at_app by apply held_id. }
  assert (0 <= latency_now < 2 ^ 64) as Hr by apply u64_range.
  constructor.
  - rewrite He, Hd, <- H1. cbn. by rewrite list_fmap_delete.
  - rewrite He, Hh. cbn. apply Forall_forall. intros e Hin.
    assert (e ∈ ioQueue (entry w)) as Hin' by (apply list_elem_of_lookup in Hin as [i Hi];
      rewrite list_lookup_delete in Hi; destruct (decide (i < k)%nat); by eapply list_elem_of_lookup_2).
    pose proof (proj1 (Forall_forall _ _) H2 e Hin') as ->.
    rewrite taken_at_app; [done|]. apply held_accepted; [done|]. apply elem_of_app. right.
    rewrite <- H1. apply list_elem_of_fmap. by exists e.
  - by rewrite Hh, accepted_Done.
  - rewrite Hh, accepted_Done, completed_app, H4, Hd. rewrite (delete_perm_app _ _ _ Hk) at 1. cbn. by rewrite <- app_assoc.
  - destruct H5. rewrite He. constructor; cbn [count_latency set_ioQueue count_progress latencyFile io_count minLatency maxLatency sumLatency squareSumLatency].
    + intros l Hl. destruct (latencyFile (entry w)) as [l0|]; [|done]. cbn in Hl. injection Hl as <-.
      rewrite Hlat, Hfin, (c_file0 l0 eq_refl). rewrite zip_with_app; [done|]. unfold latencies. by rewrite length_fmap.
    + by rewrite Hh, accepted_Done.
    + rewrite Hlat, c_min0, foldr_snoc by (intros; lia). destruct (Z.ltb_spec latency_now (foldr Z.min (2 ^ 64 - 1) (latencies (history w)))); lia.
    + rewrite Hlat, c_max0, foldr_snoc by (intros; lia). destruct (Z.ltb_spec (foldr Z.max 0 (latencies (history w))) latency_now); lia.
    + rewrite Hlat, c_sum0, total_snoc. unfold u64. rewrite Zplus_mod_idemp_l. f_equal. lia.
    + rewrite Hlat, c_square0, fmap_app. cbn. rewrite total_snoc. unfold u64. rewrite Zplus_mod_idemp_l, Zplus_mod_idemp_r. f_equal. lia.
Qed.

Lemma complete_step (Q : G -> option Z -> Z -> Prop) :
  wpe E (iocallback (bio_id b)) (fun _ w' => untouched called w' /\ Q (gen w') (submitEvent w') (ended w')) called ->
  wpe E (step (Complete k)) (fun _ w' => completes w' /\ Q (gen w') (submitEvent w') (ended w')) w.
Proof.
  intros Hcb. destruct entry_at as (e & He & Hb & Ht & Hf).
  unfold step. wp_steps. rewrite Hk. wp_steps. unfold completion. wp_steps.
  change (ioQueue (entry (set_driver (delete k (driver w)) (Done (now w) b) w))) with (ioQueue (entry w)). rewrite Hf. wp_steps.
  change (now (set_driver (delete k (driver w)) (Done (now w) b) w)) with (now w). rewrite Hb, Ht. fold latency_now. fold called.
  eapply wpe_mono; [exact Hcb|]. intros [] w2 [[Un Ue Ud Uh] HQ]. cbv beta. wp_steps.
  split; [|exact HQ]. constructor; cbn [now driver history upd_entry].
  - exact Un.
  - exact Ud.
  - exact Uh.
  - apply completed_agrees; cbn [now driver history upd_entry entry]; [exact Un|exact Ud|exact Uh|].
    rewrite Ue. reflexivity.
Qed.
End Complete.

(** ** Generators that number their requests *)

Definition acts {G} (next : G -> Z) (w w' : Front G) : Prop :=
  (untouched w w' /\ next (gen w') = next (gen w)) \/
  (exists b, takes b w w' /\ bio_id b = next (gen w) /\ next (gen w') = u64 (next (gen w) + 1)).

Class IOGeneratorLaws (G : Type) `{IOGenerator G} : Type := {
  next : G -> Z;
  begin_law w : wpe anyerr begin (fun _ w' => acts next w w') w;
  fire_law w : wpe anyerr fire (fun _ w' => acts next w w') w;
  callback_law id w : wpe anyerr (iocallback id) (fun _ w' => untouched w w' /\ next (gen w') = next (gen w)) w;
}.

Section Laws.
  Context {G : Type} `{GL : IOGeneratorLaws G}.
  Implicit Types w : Front G.

(** The ids so far, and how many requests there can still be. *)
Record numbered (n0 : Z) (room : Z) w : Prop := {
  n_agrees : agrees w;
  n_ids : bio_id <$> accepted (history w) = seqZ n0 (next (gen w) - n0);
  n_next : n0 <= next (gen w) /\ next (gen w) + room < 2 ^ 64;
}.

Lemma acts_numbered n0 room w w' : 0 <= n0 -> 0 <= room -> numbered n0 (room + 1) w -> acts next w w' -> numbered n0 room w'.
Proof.
  intros Hz Hr [Ha Hi [Hn Hm]] [[Hu Hnx]|(b & Ht & Hb & Hnx)].
  - constructor; [by eapply untouched_agrees| |]; rewrite Hnx; [|lia]. destruct Hu as [_ _ _ ->]. done.
  - rewrite u64_small in Hnx by lia. constructor; [eapply takes_agrees; [exact Ht| |done]| |rewrite Hnx; lia].
    + rewrite Hi, Hb. rewrite elem_of_seqZ. lia.
    + destruct Ht as [_ _ _ ->]. rewrite accepted_app, fmap_app, Hi, Hnx. cbn. rewrite Hb.
      replace (next (gen w) + 1 - n0) with (next (gen w) - n0 + 1) by lia. rewrite seqZ_app by lia. f_equal.
      change (seqZ (n0 + (next (gen w) - n0)) 1) with [0 + (n0 + (next (gen w) - n0))]. f_equal. lia.
Qed.

Lemma step_numbered n0 room o w : 0 <= n0 -> 0 <= room -> numbered n0 (room + 1) w ->
  wpe anyerr (step o) (fun _ w' => numbered n0 room w') w.
Proof.
  intros Hz Hr Hw. pose proof Hw as [Ha Hi [Hn Hm]].
  assert (numbered n0 room w) as Hkeep by (constructor; [done|done|lia]). destruct o as [|k|tick].
  - unfold step. wp_steps. destruct (submitEvent w) as [e|]; [|by wp_steps]. destruct (e =? now w); wp_steps; [|done].
    eapply wpe_mono; [apply fire_law|]. cbv beta. intros [] w' Hact. eapply (acts_numbered _ _ (set_event None w)); [done|done| |done].
    constructor; [by apply (untouched_agrees w)|done|done].
  - destruct (driver w !! k) as [b|] eqn:Hk.
    + eapply wpe_mono; [apply (complete_step anyerr w k b Ha Hk (fun g _ _ => next g = next (gen w)))|].
      * eapply wpe_mono; [apply callback_law|]. cbv beta. intros [] w'. done.
      * cbv beta. intros [] w' [[_ _ Hh Ha'] Hnx]. constructor; [done| |rewrite Hnx; lia].
        by rewrite Hh, accepted_Done, Hnx.
    + unfold step. wp_steps. rewrite Hk. by wp_steps.
  - unfold step. wp_steps; [|done]. constructor; [|done|cbn; lia].
    destruct Ha as [H1 H2 H3 H4 H5]. constructor; [exact H1|exact H2|exact H3|exact H4|exact H5].
Qed.

Lemma steps_numbered n0 ops w : 0 <= n0 -> numbered n0 (vlen ops) w ->
  wpe anyerr (iterM step ops) (fun _ w' => numbered n0 0 w') w.
Proof.
  intros Hz Hw. unfold iterM.
  apply (wpe_foldM anyerr (fun todo _ w => numbered n0 (vlen todo) w)); [done| |by intros].
  intros o todo [] w' Hw'. apply step_numbered; [done|apply vlen_nonneg|].
  unfold vlen in *. cbn [length] in Hw'. by replace (Z.of_nat (length todo) + 1) with (Z.of_nat (S (length todo))) by lia.
Qed.

Lemma start_agrees tick (g : G) file p : agrees (start tick g (BlockIOEntry_make file p)).
Proof.
  constructor; try done; cbn; [apply NoDup_nil_2|].
  constructor; try done. cbn. destruct file; [|done]. by intros l [= <-].
Qed.

(** C15: The block layer reports the latencies of the requests.  Whatever a generator and the driver do, in any order: the
    queue holds exactly the requests the driver has not completed, each with the tick it was submitted at; every accepted
    request is completed once or still held; a completed one is a line of the latency file with the time between the two, in
    the order of the completions; and the number, the least, the greatest, the sum and the sum of squares of the latencies
    are those of the lines (modulo [2^64]). *)
Theorem latencies_recorded (tick : Z) (g : G) (file : bool) (p : Progress) (ops : list Op) (w : Front G)
    (Hn : 0 <= next g /\ next g + vlen ops + 1 < 2 ^ 64)
    (Hrun : run ops (start tick g (BlockIOEntry_make file p)) = Ok (tt, w)) :
  let ls := latencies (history w) in let b := entry w in
  e_bio <$> ioQueue b = driver w /\
  Forall (fun e => submittedAt e = taken_at (history w) (bio_id (e_bio e))) (ioQueue b) /\
  accepted (history w) ≡ₚ completed (history w) ++ driver w /\
  bio_id <$> accepted (history w) = seqZ (next g) (vlen (accepted (history w))) /\
  (forall l, latencyFile b = Some l -> l = zip_with row (omap finished (history w)) ls) /\
  io_count b = u64 (vlen (accepted (history w))) /\ minLatency b = foldr Z.min (2 ^ 64 - 1) ls /\ maxLatency b = foldr Z.max 0 ls /\
  sumLatency b = u64 (total ls) /\ squareSumLatency b = u64 (total ((fun l => l * l) <$> ls)).
Proof.
  intros ls b. set (w0 := start tick g (BlockIOEntry_make file p)) in *.
  assert (wpe anyerr (run ops) (fun _ w' => numbered (next g) 0 w') w0) as Hw.
  { unfold run. wp_steps. eapply wpe_mono; [apply begin_law|]. cbv beta. intros [] w1 Hact.
    apply steps_numbered; [lia|]. eapply acts_numbered; [lia|apply vlen_nonneg| |exact Hact].
    constructor; [apply start_agrees| |change (next (gen w0)) with (next g); lia].
    change (next (gen w0)) with (next g). by rewrite Z.sub_diag. }
  rewrite wpe_anyerr in Hw. destruct (Hw tt w Hrun) as [[H1 H2 H3 H4 [C1 C2 C3 C4 C5 C6]] Hi _].
  split; [done|]. split; [done|]. split; [done|]. split; [|done].
  rewrite Hi. f_equal. apply (f_equal vlen) in Hi. unfold vlen in Hi at 1. rewrite length_fmap in Hi. unfold vlen in *.
  rewrite length_seqZ in Hi. pose proof (n_next _ _ _ (Hw tt w Hrun)). lia.
Qed.
End Laws.
