(* ===== verification/ReqGen.v ===== *)
(** * igl/request/request_generator.cc: the request generator

    It submits requests of one size, in sequence or at random, keeps at most
    [iodepth] of them in flight, and ends after an amount of data or a time.
    The random engine with its distribution is the class [RandomEngine]. *)

From S2P Require Import Prelude Float32 Types Bil.

(** [IO_TYPE] and [IO_MODE] *)
Inductive IO_TYPE : Type := IO_READ | IO_WRITE | IO_RANDREAD | IO_RANDWRITE | IO_READWRITE | IO_RANDRW.
Inductive IO_MODE : Type := IO_SYNC | IO_ASYNC.
#[export] Instance IO_TYPE_eq_dec : EqDecision IO_TYPE.
Proof. solve_decision. Defined.

(** [uniform_int_distribution(lo, hi)] over an engine: both bounds are possible. *)
Class RandomEngine (E : Type) : Type := { seed : Z -> E; draw : Z -> Z -> E -> Z * E }.
Class RandomEngineLaws (E : Type) `{RandomEngine E} : Prop :=
  draw_range lo hi e : lo <= hi -> lo <= (draw lo hi e).1 <= hi.

(** The options. *)
Record Options : Type := mkOptions {
  o_io_size : Z; o_type : IO_TYPE; o_mode : IO_MODE; o_iodepth : Z; o_rwmixread : f32;
  o_offset : Z; o_size : Z; o_thinktime : Z; o_blocksize : Z; o_blockalign : Z;
  o_randseed : Z; o_time_based : bool; o_runtime : Z;
  o_submissionLatency : Z; o_completionLatency : Z;
}.

(** What does not change once [init] is through. *)
Record Conf : Type := mkConf {
  io_size : Z; type : IO_TYPE; iodepth : Z; rwmixread : f32;
  offset : Z; size : Z; blocksize : Z; blockalign : Z;
  time_based : bool; runtime : Z; submissionLatency : Z; completionLatency : Z;
}.

(** [RequestGenerator]; [initTime] is not initialised before [begin]. *)
Record RequestGenerator (E : Type) : Type := mkRequestGenerator {
  conf : Conf;
  io_submitted : Z; io_count : Z; read_count : Z; io_depth : Z;
  initTime : Z; reserveTermination : bool;
  randengine : E;
}.
Arguments mkRequestGenerator {E} _ _ _ _ _ _ _ _.
Arguments conf {E} _.
Arguments io_submitted {E} _.
Arguments io_count {E} _.
Arguments read_count {E} _.
Arguments io_depth {E} _.
Arguments initTime {E} _.
Arguments reserveTermination {E} _.
Arguments randengine {E} _.

(** The options the constructor adjusts. *)
Definition configure (o : Options) : Conf :=
  mkConf (o_io_size o) (o_type o) (match o_mode o with IO_SYNC => 1 | IO_ASYNC => o_iodepth o end) (o_rwmixread o)
    (o_offset o) (o_size o) (o_blocksize o) (if o_blockalign o =? 0 then o_blocksize o else o_blockalign o)
    (o_time_based o) (o_runtime o) (o_submissionLatency o) (o_completionLatency o).

(** [init]: the options against the capacity of the device and its block size. *)
Definition init_conf (bytesize bs : Z) (c : Conf) : res Conf :=
  if bytesize <? offset c then panic "offset is larger than SSD size"
  else if blocksize c <? bs then panic "blocksize is smaller than SSD's logical block"
  else if blockalign c <? bs then panic "blockalign is smaller than SSD's logical block"
  else if bs =? 0 then Err UB
  else
    let blocksize' := if blocksize c mod bs =? 0 then blocksize c else blocksize c / bs * bs in
    let blockalign' := if blockalign c mod bs =? 0 then blockalign c else blockalign c / bs * bs in
    let offset' := if offset c mod blockalign' =? 0 then offset c else offset c / blockalign' * blockalign' in
    let size' := if (size c =? 0) || (bytesize <? u64 (offset' + size c)) then u64 (bytesize - offset') else size c in
    if size' =? 0 then panic "Invalid offset and size provided"
    else Ok (mkConf (io_size c) (type c) (iodepth c) (rwmixread c) offset' size' blocksize' blockalign'
               (time_based c) (runtime c) (submissionLatency c) (completionLatency c)).

Definition is_random (t : IO_TYPE) : bool := bool_decide (t = IO_RANDREAD \/ t = IO_RANDWRITE \/ t = IO_RANDRW).
Definition is_mixed (t : IO_TYPE) : bool := bool_decide (t = IO_READWRITE \/ t = IO_RANDRW).
Definition is_read (t : IO_TYPE) : bool := bool_decide (t = IO_READ \/ t = IO_RANDREAD).

(** The loop that brings a sequential address back into the range. *)
Fixpoint limit (fuel : nat) (len size off : Z) : res Z :=
  if size <? u64 (off + len) then
    match fuel with
    | O => Err NoReturn
    | S fuel => limit fuel len size (u64 (if size <=? off then off - size else off - len))
    end
  else Ok off.

(** As many rounds as the address contains the range, and two more. *)
Definition limit_fuel (size off : Z) : nat := Z.to_nat (off / size) + 2.

Section RequestGenerator.
  Context {E : Type} `{RandomEngine E}.
Notation G := (RequestGenerator E).
Notation D := (M (Front G)).

(** The constructor and [init]. *)
Definition RequestGenerator_make (o : Options) (indeterminate : Z) : G :=
  mkRequestGenerator (configure o) 0 0 0 0 indeterminate false (seed (o_randseed o)).
Definition init (bytesize bs : Z) (g : G) : res G :=
  c ← init_conf bytesize bs (conf g);
  Ok (mkRequestGenerator c (io_submitted g) (io_count g) (read_count g) (io_depth g) (initTime g)
        (reserveTermination g) (randengine g)).

Definition upd_gen (f : G -> G) : D unit := modify (fun w => set_gen (f (gen w)) w).

(** [generateAddress]: the address with the engine after it; the length is [blocksize]. *)
Definition generateAddress (g : G) : res (Z * E) :=
  let c := conf g in
  if is_random (type c) then
    if blockalign c =? 0 then Err UB
    else
      let r := draw (offset c) (u64 (offset c + size c)) (randengine g) in
      Ok (r.1 - r.1 mod blockalign c, r.2)
  else
    let off := u64 (io_count g * blockalign c) in
    off ← limit (limit_fuel (size c) off) (blocksize c) (size c) off;
    Ok (u64 (off + offset c), randengine g).

(** [nextIOIsRead]: the counters converted to [float]. *)
Definition nextIOIsRead (g : G) : bool :=
  let t := type (conf g) in
  if is_mixed t then f32_lt (f32_div (f32_of_Z (read_count g)) (f32_of_Z (io_count g))) (rwmixread (conf g))
  else is_read t.

Definition done (g : G) (tick : Z) : bool :=
  let c := conf g in
  (negb (time_based c) && (io_size c <=? io_submitted g)) ||
  (time_based c && (runtime c <=? u64 (tick - initTime g))).

(** [rescheduleSubmit] *)
Definition rescheduleSubmit (breakTime : Z) : D unit :=
  w ← get;
  let g := gen w in
  if done g (now w) then
    upd_gen (fun g => mkRequestGenerator (conf g) (io_submitted g) (io_count g) (read_count g) (io_depth g)
                        (initTime g) true (randengine g));;
    when (io_depth g =? 0) endCallback
  else
    when (io_depth g <? iodepth (conf g))
      (let doSchedule := match submitEvent w with
                         | Some scheduledTick => negb (u64 (now w + breakTime) <=? scheduledTick)
                         | None => true
                         end in
       when doSchedule (scheduleEvent (u64 (now w + breakTime)))).

(** [_submitIO]; the counters before, between and after the two calls that use them. *)
Definition _submitIO : D unit :=
  w ← get;
  let g := gen w in
  r ← lift (generateAddress g);
  let id := io_count g in
  let g := mkRequestGenerator (conf g) (io_submitted g) (u64 (io_count g + 1)) (read_count g) (io_depth g)
             (initTime g) (reserveTermination g) r.2 in
  let read := nextIOIsRead g in
  let len := blocksize (conf g) in
  upd_gen (fun _ => mkRequestGenerator (conf g) (u64 (io_submitted g + len)) (io_count g)
                      (if read then u64 (read_count g + 1) else read_count g) (u64 (io_depth g + 1))
                      (initTime g) (reserveTermination g) (randengine g));;
  submitIO (mkBIO id (if read then BIO_READ else BIO_WRITE) r.1 len);;
  rescheduleSubmit (submissionLatency (conf g)).

(** [_iocallback] *)
Definition _iocallback : D unit :=
  upd_gen (fun g => mkRequestGenerator (conf g) (io_submitted g) (io_count g) (read_count g) (u64 (io_depth g - 1))
                      (initTime g) (reserveTermination g) (randengine g));;
  w ← get;
  let g := gen w in
  if reserveTermination g then when (io_depth g =? 0) endCallback
  else rescheduleSubmit (u64 (submissionLatency (conf g) + completionLatency (conf g))).

#[export] Instance RequestGenerator_generator : IOGenerator G := {
  begin :=
    modify (fun w => set_gen (mkRequestGenerator (conf (gen w)) (io_submitted (gen w)) (io_count (gen w)) (read_count (gen w))
                                (io_depth (gen w)) (now w) (reserveTermination (gen w)) (randengine (gen w))) w);;
    _submitIO;
  fire := _submitIO;
  iocallback _ := _iocallback;
}.

(** [getProgress] *)
Definition getProgress (w : Front G) : f32 :=
  let g := gen w in
  if io_submitted g =? 0 then f32_of_Z 0
  else if time_based (conf g) then f32_div (f32_of_Z (u64 (now w - initTime g))) (f32_of_Z (runtime (conf g)))
  else f32_div (f32_of_Z (io_submitted g)) (f32_of_Z (io_size (conf g))).
End RequestGenerator.
