(* ===== verification/ReqGenTheorems.v ===== *)
(** * The request generator: properties

    A generator that is not limited by time submits as many requests as its amount of
    data takes, keeps at most [iodepth] of them in flight and ends the simulation once,
    when the last one has completed ([generator_ends_once]); a sequential one goes over its range in order
    ([addresses_in_sequence]). *)

From S2P Require Import Prelude Float32 Types Bil BilTheorems ReqGen.

(** ** The addresses of a sequential generator *)

(** The place of the address [off] in a range of [size], for requests of [len]. *)
Definition in_range (len size off : Z) : Z := if off mod size + len <=? size then off mod size else off mod size - len.

Lemma limit_in_range fuel len size off : 0 < len -> 2 * len <= size + 1 -> 0 <= off -> off + len < 2 ^ 64 ->
  off / size + 1 <= Z.of_nat fuel -> limit fuel len size off = Ok (in_range len size off).
Proof.
  intros Hl Hs. revert off. induction fuel as [|fuel IH]; intros off H0 Hw Hf.
  - pose proof (Z.div_pos off size ltac:(lia) ltac:(lia)). lia.
  - cbn [limit]. rewrite (u64_small (off + len)) by lia. unfold in_range.
    destruct (Z.ltb_spec size (off + len)) as [Hlt|Hle].
    + destruct (Z.leb_spec size off) as [Hge|Hlo].
      * rewrite u64_small by lia. replace off with (off - size + 1 * size) in Hf by lia. rewrite Z.div_add in Hf by lia.
        rewrite IH by lia. unfold in_range.
        replace ((off - size) mod size) with (off mod size); [done|]. by rewrite <- (Z.mod_add (off - size) 1 size), Z.mul_1_l, Z.sub_add by lia.
      * rewrite (Z.mod_small off) by lia. destruct (Z.leb_spec (off + len) size); [lia|]. rewrite u64_small by lia.
        assert (limit fuel len size (off - len) = Ok (off - len)) as ->; [|done].
        assert ((size <? u64 (off - len + len)) = false) as E by (rewrite u64_small by lia; apply Z.ltb_ge; lia).
        destruct fuel; cbn [limit]; by rewrite E.
    + rewrite (Z.mod_small off) by lia. by assert ((off + len <=? size) = true) as -> by (by apply Z.leb_le).
Qed.

Lemma in_range_bounds len size off : 0 < len -> 2 * len <= size + 1 -> 0 <= in_range len size off /\ in_range len size off + len <= size.
Proof.
  intros Hl Hs. unfold in_range. pose proof (Z.mod_pos_bound off size ltac:(lia)). destruct (Z.leb_spec (off mod size + len) size); lia.
Qed.

(** ** The generator *)

Section Generator.
  Context {E : Type} `{RandomEngineLaws E}.
Notation G := (RequestGenerator E).
  Implicit Types w : Front G.

(** [init] accepted the options; the generator is limited by its amount of data; the
    sums it makes fit in 64 bits; a sequential one has room for two requests. *)
Record sane (c : Conf) : Prop := {
  s_depth : 1 <= iodepth c < 2 ^ 64;
  s_block : 0 < blocksize c; s_align : 0 < blockalign c;
  s_time : time_based c = false;
  s_size : 0 <= io_size c /\ io_size c + blocksize c < 2 ^ 64;
  s_range : 0 <= offset c /\ 0 < size c /\ offset c + size c < 2 ^ 64 /\ offset c mod blockalign c = 0;
  s_seq : is_random (type c) = false ->
    2 * blocksize c <= size c + 1 /\ (io_size c / blocksize c + 1) * blockalign c + blocksize c < 2 ^ 64;
}.

(** How many requests it takes: at least one. *)
Definition amount (c : Conf) : Z := Z.max 1 ((io_size c + blocksize c - 1) / blocksize c).

(** The address of the [i]-th request. *)
Definition seq_address (c : Conf) (i : Z) : Z := offset c + in_range (blocksize c) (size c) (i * blockalign c).

Definition request_ok (c : Conf) (b : BIO) : Prop :=
  bio_length b = blocksize c /\
  (if is_random (type c) then
     bio_offset b mod blockalign c = 0 /\ offset c <= bio_offset b <= offset c + size c
   else bio_offset b = seq_address c (bio_id b)) /\
  (bio_type b = BIO_READ \/ bio_type b = BIO_WRITE) /\
  (is_mixed (type c) = false -> bio_type b = if is_read (type c) then BIO_READ else BIO_WRITE).

(** [rescheduleSubmit], in both outcomes. *)
Lemma reqgen_reschedule t w : exists w', rescheduleSubmit t w = Ok (tt, w') /\ untouched w w' /\
  (if done (gen w) (now w) then
     gen w' = mkRequestGenerator (conf (gen w)) (io_submitted (gen w)) (io_count (gen w)) (read_count (gen w)) (io_depth (gen w))
                (initTime (gen w)) true (randengine (gen w)) /\
     submitEvent w' = submitEvent w /\ ended w' = ended w + (if io_depth (gen w) =? 0 then 1 else 0)
   else
     gen w' = gen w /\ ended w' = ended w /\
     (if io_depth (gen w) <? iodepth (conf (gen w)) then
        exists e, submitEvent w' = Some e /\ (now w <= e \/ submitEvent w = Some e)
      else submitEvent w' = submitEvent w)).
Proof.
  unfold rescheduleSubmit. rewrite get_bind. cbv zeta. destruct (done (gen w) (now w)).
  - unfold upd_gen. rewrite modify_bind. destruct (io_depth (gen w) =? 0); cbn [when].
    + eexists. split; [reflexivity|]. done.
    + eexists. split; [reflexivity|]. split; [done|]. split; [done|]. split; [done|]. cbn. lia.
  - destruct (io_depth (gen w) <? iodepth (conf (gen w))); cbn [when].
    + destruct (submitEvent w) as [e|] eqn:He.
      * destruct (u64 (now w + t) <=? e) eqn:Hle; cbn [negb when].
        -- eexists. split; [reflexivity|]. split; [done|]. split; [done|]. split; [done|]. exists e. split; [exact He|by right].
        -- eexists. split; [reflexivity|]. split; [done|]. split; [done|]. split; [done|]. eexists. split; [reflexivity|]. left.
           destruct (Z.ltb_spec (u64 (now w + t)) (now w)); lia.
      * eexists. split; [reflexivity|]. split; [done|]. split; [done|]. split; [done|]. eexists. split; [reflexivity|]. left.
        destruct (Z.ltb_spec (u64 (now w + t)) (now w)); lia.
    + eexists. split; [reflexivity|]. done.
Qed.

Lemma submitIO_acts w : wpe anyerr _submitIO (fun _ w' => acts io_count w w') w.
Proof.
  unfold _submitIO. wp_steps. destruct (generateAddress (gen w)) as [r|]; [|exact I]. wp_steps. unfold upd_gen. wp_steps.
  match goal with |- wpe _ (submitIO ?b) _ ?w1 => destruct (submitIO_takes b w1) as (w2 & Hs & [T1 T2 T3 T4] & Hg & _) end.
  rewrite wpe_anyerr. intros [] w3. rewrite Hs. intros [= <-].
  match goal with |- wpe _ (rescheduleSubmit ?t) _ _ => destruct (reqgen_reschedule t w2) as (w4 & Hr & [U1 U2 U3 U4] & Hd) end.
  rewrite wpe_anyerr. intros [] w5. rewrite Hr. intros [= <-]. right. eexists. split; [|split].
  - constructor; [by rewrite U1|by rewrite U2|by rewrite U3|by rewrite U4].
  - done.
  - destruct (done _ _); destruct Hd as (-> & _); by rewrite Hg.
Qed.

Lemma iocallback_untouched id w :
  wpe anyerr (iocallback id) (fun _ w' => untouched w w' /\ io_count (gen w') = io_count (gen w)) w.
Proof.
  cbn [iocallback RequestGenerator_generator]. unfold _iocallback, upd_gen. wp_steps.
  destruct (reserveTermination _); wp_steps; [done|done|].
  match goal with |- wpe _ (rescheduleSubmit ?t) _ ?w2 => destruct (reqgen_reschedule t w2) as (w4 & Hr & [U1 U2 U3 U4] & Hd) end.
  rewrite wpe_anyerr. intros [] w5. rewrite Hr. intros [= <-]. split; [constructor; done|].
  destruct (done _ _); destruct Hd as (-> & _); done.
Qed.

#[export] Instance RequestGenerator_laws : IOGeneratorLaws G.
Proof.
  refine {| next := io_count |}.
  - intros w. cbn [begin RequestGenerator_generator]. wp_steps. eapply wpe_mono; [apply submitIO_acts|]. cbv beta. intros [] w'.
    intros [[[] Hn]|(b & [] & Hb)]; [left|right; exists b]; (split; [constructor; done|done]).
  - apply submitIO_acts.
  - apply iocallback_untouched.
Defined.

(** ** The invariant *)

Section Run.
  Context (c : Conf) (HP : sane c).

Definition taken w : Z := vlen (accepted (history w)).
(** Whether all requests are out. *)
Definition all_out w : bool := io_size c <=? taken w * blocksize c.

(** Between two operations; [b] says whether a request was taken at all. *)
Record inv w : Prop := {
  i_agrees : agrees w;
  i_conf : conf (gen w) = c;
  i_count : io_count (gen w) = taken w;
  i_ids : bio_id <$> accepted (history w) = seqZ 0 (taken w);
  i_submitted : io_submitted (gen w) = taken w * blocksize c;
  i_depth : io_depth (gen w) = vlen (driver w) /\ vlen (driver w) <= iodepth c;
  i_few : 0 < taken w -> (taken w - 1) * blocksize c < Z.max 1 (io_size c);
  i_reserve : reserveTermination (gen w) = all_out w && (0 <? taken w);
  i_event : match submitEvent w with
            | Some e => now w <= e /\ all_out w = false /\ vlen (driver w) < iodepth c
            | None => taken w = 0 \/ all_out w = true \/ vlen (driver w) = iodepth c
            end;
  i_ended : ended w = if all_out w && (0 <? taken w) && (vlen (driver w) =? 0) then 1 else 0;
  i_requests : Forall (request_ok c) (accepted (history w));
}.

Lemma sum_fits n : 0 <= n -> 0 < n -> (n - 1) * blocksize c < Z.max 1 (io_size c) -> 0 <= n * blocksize c < 2 ^ 64 /\ n <= io_size c / blocksize c + 1 /\ n < 2 ^ 64.
Proof.
  destruct HP. intros Hz Hn Hf. destruct s_size0. assert (n * blocksize c < 2 ^ 64) by nia. split; [nia|]. split; [|nia].
  assert (n - 1 <= io_size c / blocksize c); [|lia]. apply Z.div_le_lower_bound; nia.
Qed.

(** The next request is made. *)
Lemma generateAddress_ok w : conf (gen w) = c -> io_count (gen w) = taken w ->
  (0 < taken w -> taken w * blocksize c < Z.max 1 (io_size c)) ->
  exists r, generateAddress (gen w) = Ok r /\
    (if is_random (type c) then r.1 mod blockalign c = 0 /\ offset c <= r.1 <= offset c + size c
     else r.1 = seq_address c (taken w)).
Proof.
  destruct HP as [? ? ? ? [? ?] (Ho & Hs & Hos & Hal) Hseq]. intros Hc Hcnt Hf. unfold generateAddress. rewrite Hc, Hcnt.
  destruct (is_random (type c)) eqn:Er.
  - destruct (Z.eqb_spec (blockalign c) 0); [lia|]. eexists. split; [reflexivity|]. cbn [fst].
    rewrite (u64_small (offset c + size c)) by lia.
    pose proof (draw_range (offset c) (offset c + size c) (randengine (gen w)) ltac:(lia)) as Hd.
    set (d := (draw _ _ _).1) in *. pose proof (Z.mod_pos_bound d (blockalign c) ltac:(lia)).
    pose proof (Z.div_mod d (blockalign c) ltac:(lia)) as Hdm. split.
    + replace (d - d mod blockalign c) with (0 + (d / blockalign c) * blockalign c) by lia. rewrite Z.mod_add by lia. apply Z.mod_0_l. lia.
    + split; [|lia]. pose proof (Z.div_mod (offset c) (blockalign c) ltac:(lia)) as Hom.
      assert (offset c / blockalign c <= d / blockalign c) by (apply Z.div_le_mono; lia). nia.
  - destruct (Hseq eq_refl) as [Htwo Hm]. assert (0 <= taken w <= io_size c / blocksize c) as Ht.
    { unfold taken in *. split; [apply vlen_nonneg|]. destruct (decide (0 < vlen (accepted (history w)))) as [Hp|Hp].
      - apply Z.div_le_lower_bound; [lia|]. specialize (Hf Hp). nia.
      - pose proof (Z.div_pos (io_size c) (blocksize c) ltac:(lia) ltac:(lia)). lia. }
    assert (0 <= taken w * blockalign c /\ taken w * blockalign c + blocksize c < 2 ^ 64) as [Ha Hb] by nia.
    rewrite (u64_small (taken w * blockalign c)) by lia.
    rewrite limit_in_range; [|lia|lia|lia|lia|unfold limit_fuel; pose proof (Z.div_pos (taken w * blockalign c) (size c)); lia].
    cbn [mbind res_bind]. eexists. split; [reflexivity|]. cbn [fst]. unfold seq_address.
    destruct (in_range_bounds (blocksize c) (size c) (taken w * blockalign c)); [lia|lia|].
    rewrite u64_small by lia. lia.
Qed.

Lemma done_all_out w t : conf (gen w) = c -> io_submitted (gen w) = taken w * blocksize c -> done (gen w) t = all_out w.
Proof.
  intros Hc Hs. unfold done, all_out. rewrite Hc, Hs, (s_time c HP). by destruct (_ <=? _).
Qed.

Lemma taken_app w w' b t : history w' = history w ++ [Took t b] -> taken w' = taken w + 1.
Proof. unfold taken. intros ->. rewrite accepted_app. unfold vlen. rewrite length_app. cbn. lia. Qed.

(** When the generator may submit: the event has fired, or it begins. *)
Record ready w : Prop := {
  y_agrees : agrees w;
  y_conf : conf (gen w) = c;
  y_count : io_count (gen w) = taken w;
  y_ids : bio_id <$> accepted (history w) = seqZ 0 (taken w);
  y_submitted : io_submitted (gen w) = taken w * blocksize c;
  y_depth : io_depth (gen w) = vlen (driver w) /\ vlen (driver w) < iodepth c;
  y_reserve : reserveTermination (gen w) = false;
  y_event : submitEvent w = None;
  y_ended : ended w = 0;
  y_more : 0 < taken w -> all_out w = false;
  y_requests : Forall (request_ok c) (accepted (history w));
}.

Lemma submit_inv w : ready w -> wpe noerr _submitIO (fun _ w' => inv w' /\ taken w' = taken w + 1) w.
Proof.
  intros [Ha Hc Hcnt Hids Hsub [Hdep Hlt] Hres Hev Hend Hmore Hreq]. pose proof (vlen_nonneg (accepted (history w))) as H0'. fold (taken w) in H0'.
  assert (0 < taken w -> taken w * blocksize c < Z.max 1 (io_size c)) as Hf
    by (intros Hp; specialize (Hmore Hp); unfold all_out in Hmore; breflect; lia).
  destruct (generateAddress_ok w Hc Hcnt Hf) as (r & Hr & Haddr).
  destruct (sum_fits (taken w + 1)) as (Hs1 & _ & Hs2); [lia|lia|replace (taken w + 1 - 1) with (taken w) by lia;
    destruct (decide (0 < taken w)); [by apply Hf|assert (taken w = 0) as -> by lia; lia]|].
  pose proof (s_block c HP) as Hbs. pose proof (s_depth c HP) as Hio.
  unfold _submitIO. wp_steps. rewrite Hr. cbn [wpr]. wp_steps. unfold upd_gen. wp_steps.
  match goal with |- wpe _ (submitIO ?b) _ ?w1 => set (b0 := b); destruct (submitIO_takes b0 w1) as (w2 & Hs & HT & Hg & He & Hn) end.
  apply wpe_noerr. exists tt, w2. split; [exact Hs|]. cbn [set_gen gen] in Hg.
  assert (taken w2 = taken w + 1) as Ht2 by (destruct HT as [_ _ _ HT4]; by apply taken_app in HT4).
  assert (agrees w2) as Ha2.
  { apply (takes_agrees _ _ _ HT); [|destruct Ha as [A1 A2 A3 A4 A5]; constructor; [exact A1|exact A2|exact A3|exact A4|exact A5]]. change (io_count (gen w) ∉ bio_id <$> accepted (history w)). rewrite Hids, Hcnt, elem_of_seqZ. lia. }
  pose proof (vlen_nonneg (driver w)) as Hd0.
  cbn [conf io_submitted io_count read_count io_depth initTime reserveTermination randengine] in Hg.
  rewrite Hcnt, Hsub, Hdep, Hc, (u64_small (taken w + 1)), (u64_small (_ * _ + _)), (u64_small (vlen _ + 1)) in Hg by lia.
  replace (taken w * blocksize c + blocksize c) with (taken w2 * blocksize c) in Hg by lia. rewrite <- Ht2 in Hg.
  destruct HT as [T1 T2 T3 T4]. cbn [set_gen driver history now] in T1, T3, T4.
  assert (vlen (driver w2) = vlen (driver w) + 1) as Hv2 by (rewrite T3; unfold vlen; rewrite length_app; cbn; lia).
  assert (accepted (history w2) = accepted (history w) ++ [b0]) as Hacc by (rewrite T4, accepted_app; done).
  assert (request_ok c b0) as Hok.
  { unfold request_ok, b0. cbn [bio_length bio_offset bio_type bio_id]. rewrite Hc, Hcnt. split; [done|]. split; [done|].
    match goal with |- context [nextIOIsRead ?g] => set (rd := nextIOIsRead g) end.
    split; [destruct rd; [by left|by right]|]. intros Hm. unfold rd, nextIOIsRead. cbn [conf]. by rewrite Hm. }
  match goal with |- wpe _ (rescheduleSubmit ?t) _ _ => destruct (reqgen_reschedule t w2) as (w3 & Hrs & HU & Hd) end.
  apply wpe_noerr. exists tt, w3. split; [exact Hrs|].
  assert (agrees w3) as Ha3 by (by eapply untouched_agrees). destruct HU as [U1 U2 U3 U4].
  assert (taken w3 = taken w2) as Ht3 by (unfold taken; by rewrite U4). split; [|by rewrite Ht3].
  rewrite done_all_out in Hd by (by rewrite Hg).
  assert (all_out w3 = all_out w2) as Hao by (unfold all_out; by rewrite Ht3).
  assert ((0 <? taken w2) = true) as Hpos by (apply Z.ltb_lt; lia).
  assert (conf (gen w3) = c /\ io_count (gen w3) = taken w3 /\ io_submitted (gen w3) = taken w3 * blocksize c /\
          io_depth (gen w3) = vlen (driver w3) /\ reserveTermination (gen w3) = all_out w2) as (G1 & G2 & G3 & G4 & G5).
  { rewrite Ht3, U3, Hv2. destruct (all_out w2); destruct Hd as (-> & _); rewrite Hg; done. }
  constructor; rewrite ?Hao, ?Ht3.
  - done.
  - done.
  - by rewrite G2.
  - rewrite U4, Hacc, fmap_app, Hids, Ht2. cbn. unfold b0. cbn [bio_id]. rewrite Hcnt, seqZ_app by lia. do 2 f_equal.
  - by rewrite G3, Ht3.
  - rewrite U3. split; [by rewrite G4, U3|lia].
  - intros _. rewrite Ht2. replace (taken w + 1 - 1) with (taken w) by lia.
    destruct (decide (0 < taken w)); [by apply Hf|]. assert (taken w = 0) as -> by lia. lia.
  - by rewrite G5, Hpos, andb_true_r.
  - rewrite U1, U3. destruct (all_out w2).
    + destruct Hd as (_ & -> & _). rewrite He. cbn. rewrite Hev. right. by left.
    + destruct Hd as (_ & _ & Hd). rewrite Hg in Hd. cbn [io_depth conf] in Hd. destruct (Z.ltb_spec (vlen (driver w) + 1) (iodepth c)).
      * destruct Hd as (e & -> & Hd). split; [|split; [done|lia]]. destruct Hd as [Hd|Hd]; [done|]. rewrite He in Hd. cbn in Hd. congruence.
      * rewrite Hd, He. cbn. rewrite Hev. right. right. lia.
  - rewrite U3, Hpos, andb_true_r. pose proof (vlen_nonneg (driver w)).
    assert ((vlen (driver w2) =? 0) = false) as -> by (apply Z.eqb_neq; lia). rewrite andb_false_r.
    destruct (all_out w2).
    + destruct Hd as (_ & _ & ->). rewrite Hg, Hn. cbn. rewrite Hend. destruct (Z.eqb_spec (vlen (driver w) + 1) 0); lia.
    + destruct Hd as (_ & -> & _). rewrite Hn. cbn. done.
  - rewrite U4, Hacc. apply Forall_app. split; [done|]. by apply Forall_singleton.
Qed.

(** The generator after the callback of a request, [n] others being in flight. *)
Definition returned w (n : Z) (g : G) (ev : option Z) (en : Z) : Prop :=
  conf g = c /\ io_count g = taken w /\ io_submitted g = taken w * blocksize c /\ io_depth g = n /\
  reserveTermination g = all_out w /\
  (match ev with Some e => now w <= e /\ all_out w = false /\ n < iodepth c | None => all_out w = true end) /\
  en = if all_out w && (n =? 0) then 1 else 0.

Lemma reqgen_returned w k b id : inv w -> driver w !! k = Some b ->
  let w1 := called w k b in
  wpe noerr (iocallback id) (fun _ w' => untouched w1 w' /\ returned w (vlen (driver w) - 1) (gen w') (submitEvent w') (ended w')) w1.
Proof.
  intros [Ha Hc Hcnt Hids Hsub [Hdep Hle] Hfew Hres Hev Hend Hreq] Hk w1.
  assert (0 < vlen (driver w)) as Hv by (apply lookup_lt_Some in Hk; unfold vlen; lia).
  assert (0 < taken w) as Ht.
  { destruct Ha as [_ _ _ Hp _]. apply Permutation_length in Hp. rewrite length_app in Hp. unfold taken, vlen in *. lia. }
  pose proof (s_depth c HP) as Hio. rewrite (proj2 (Z.ltb_lt 0 (taken w)) Ht), ?andb_true_r in *.
  assert ((vlen (driver w) =? 0) = false) as E0 by (apply Z.eqb_neq; lia). rewrite E0, andb_false_r in Hend.
  cbn [iocallback RequestGenerator_generator]. unfold _iocallback, upd_gen. rewrite wpe_noerr, modify_bind, get_bind. cbv zeta.
  set (w2 := set_gen _ w1). assert (gen w2 = mkRequestGenerator c (taken w * blocksize c) (taken w) (read_count (gen w)) (vlen (driver w) - 1)
    (initTime (gen w)) (all_out w) (randengine (gen w))) as Hg2.
  { unfold w2, w1, called. cbn [set_gen gen upd_entry set_driver]. rewrite Hc, Hsub, Hcnt, Hdep, Hres, u64_small by lia. done. }
  rewrite Hg2. cbn [reserveTermination io_depth conf]. destruct (all_out w) eqn:Hall.
  - exists tt. unfold returned. rewrite Hall. destruct (Z.eqb_spec (vlen (driver w) - 1) 0); cbn [when].
    + eexists. split; [reflexivity|]. split; [done|]. cbn [gen submitEvent ended]. rewrite Hg2. repeat split; try done.
      * change (submitEvent w2) with (submitEvent w). destruct (submitEvent w); [by destruct Hev as (_ & ? & _)|done].
      * change (ended w2) with (ended w). cbn. lia.
    + eexists. split; [reflexivity|]. split; [done|]. rewrite Hg2. repeat split; try done.
      change (submitEvent w2) with (submitEvent w). destruct (submitEvent w); [by destruct Hev as (_ & ? & _)|done].
  - match goal with |- context [rescheduleSubmit ?t] => destruct (reqgen_reschedule t w2) as (w3 & Hrs & HU & Hd) end.
    exists tt, w3. split; [exact Hrs|]. split; [by destruct HU; constructor|].
    assert (all_out w2 = false) as Hall2. { unfold all_out, taken in *. unfold w2, w1, called. cbn [set_gen upd_entry set_driver history]. by rewrite accepted_Done. }
    rewrite done_all_out in Hd; [|by rewrite Hg2|]; [|rewrite Hg2; cbn [io_submitted]; unfold taken, w2, w1, called; cbn [set_gen upd_entry set_driver history]; by rewrite accepted_Done].
    rewrite Hall2 in Hd. destruct Hd as (Hg3 & He3 & Hev3). rewrite Hg2 in Hg3, Hev3. cbn [io_depth conf] in Hev3.
    assert ((vlen (driver w) - 1 <? iodepth c) = true) as Elt by (apply Z.ltb_lt; lia). rewrite Elt in Hev3.
    destruct Hev3 as (e & Hev3 & Hnow). unfold returned. rewrite Hg3, Hev3, He3, Hall. repeat split; try done.
    + destruct Hnow as [Hnow|Hnow]; [exact Hnow|]. change (submitEvent w2) with (submitEvent w) in Hnow. rewrite Hnow in Hev. lia.
    + lia.
Qed.

Lemma reqgen_step o w : inv w -> 0 < taken w -> wpe noerr (step o) (fun _ w' => inv w' /\ 0 < taken w') w.
Proof.
  intros Hi Ht. pose proof Hi as [Ha Hc Hcnt Hids Hsub [Hdep Hle] Hfew Hres Hev Hend Hreq]. destruct o as [|k|tick].
  - unfold step. wp_steps. destruct (submitEvent w) as [e|] eqn:He; [|by wp_steps]. destruct (e =? now w); wp_steps; [|done].
    destruct Hev as (_ & Hall & Hlt). eapply wpe_mono; [apply submit_inv|].
    + constructor; try done.
      * by apply (untouched_agrees w).
      * cbn. by rewrite Hres, Hall.
      * cbn. by rewrite Hend, Hall.
    + cbv beta. intros [] w' [Hi' Ht']. split; [done|]. change (taken (set_event None w)) with (taken w) in Ht'. lia.
  - destruct (driver w !! k) as [b|] eqn:Hk; [|unfold step; wp_steps; rewrite Hk; by wp_steps].
    eapply wpe_mono; [apply (complete_step noerr w k b Ha Hk (returned w (vlen (driver w) - 1))); by apply reqgen_returned|].
    cbv beta. intros [] w' [[Hn Hd Hh Ha'] (R1 & R2 & R3 & R4 & R5 & R6 & R7)].
    assert (taken w' = taken w) as Htk by (unfold taken; by rewrite Hh, accepted_Done).
    assert (all_out w' = all_out w) as Hall by (unfold all_out; by rewrite Htk).
    assert (vlen (driver w') = vlen (driver w) - 1) as Hv.
    { rewrite Hd. unfold vlen. rewrite length_delete by done. apply lookup_lt_Some in Hk. lia. }
    split; [|lia]. constructor; rewrite ?Htk, ?Hall, ?Hv, ?Hn; try done.
    + by rewrite Hh, accepted_Done.
    + split; [done|lia].
    + rewrite R5. by rewrite (proj2 (Z.ltb_lt 0 (taken w)) Ht), andb_true_r.
    + destruct (submitEvent w'); [done|]. right. by left.
    + by rewrite (proj2 (Z.ltb_lt 0 (taken w)) Ht), andb_true_r.
    + by rewrite Hh, accepted_Done.
  - unfold step. wp_steps; [|done]. split; [|done]. constructor; try done.
    + destruct Ha as [A1 A2 A3 A4 A5]. constructor; done.
    + cbn [set_now submitEvent now]. destruct (submitEvent w) as [e|]; [|done]. breflect. destruct Hev. split; [lia|done].
Qed.

Lemma reqgen_run tick g file p ops : conf g = c -> io_submitted g = 0 -> io_count g = 0 -> io_depth g = 0 -> reserveTermination g = false ->
  wpe noerr (run ops) (fun _ w => inv w /\ 0 < taken w) (start tick g (BlockIOEntry_make file p)).
Proof.
  intros Hc Hs Hcnt Hd Hr. unfold run. cbn [begin RequestGenerator_generator]. wp_steps. pose proof (s_depth c HP).
  eapply wpe_mono; [apply submit_inv|].
  - pose proof (start_agrees tick g file p) as [A1 A2 A3 A4 A5]. constructor; cbn; try done.
    rewrite Hd. unfold vlen. cbn. lia.
  - cbv beta. intros [] w [Hi Ht]. unfold iterM. apply (wpe_foldM noerr (fun _ _ w => inv w /\ 0 < taken w)); [|intros o l [] w' [Hi' Ht']; by apply reqgen_step|by intros].
    split; [done|]. rewrite Ht. unfold taken, vlen. cbn. lia.
Qed.
End Run.

(** ** From the options *)

(** What the options and the device must be like; [init] checks the rest. *)
Record options_ok (o : Options) (bytesize bs : Z) (c : Conf) : Prop := {
  p_init : init_conf bytesize bs (configure o) = Ok c;
  p_bytes : 0 < bytesize < 2 ^ 64 /\ 0 <= bs;
  p_offset : 0 <= o_offset o /\ 0 <= o_size o /\ o_offset o + o_size o < 2 ^ 64;
  p_block : 0 <= o_blocksize o /\ 0 <= o_blockalign o;
  p_depth : 1 <= o_iodepth o < 2 ^ 64;
  p_amount : 0 <= o_io_size o /\ o_io_size o + o_blocksize o < 2 ^ 64;
  p_time : o_time_based o = false;
  p_seq : is_random (o_type o) = false ->
    2 * blocksize c <= size c + 1 /\ (io_size c / blocksize c + 1) * blockalign c + blocksize c < 2 ^ 64;
}.

Lemma round_down x y : 0 < y -> x / y * y <= x /\ (x / y * y) mod y = 0.
Proof. intros Hy. pose proof (Z.div_mod x y ltac:(lia)). pose proof (Z.mod_pos_bound x y Hy). rewrite Z.mod_mul by lia. lia. Qed.

Lemma init_sane o bytesize bs c : options_ok o bytesize bs c -> sane c.
Proof.
  intros [Hi [Hb Hbs] (Ho & Hsz & Hos) [Hbl Hba] Hd Ham Ht Hseq]. unfold init_conf in Hi.
  set (c0 := configure o) in *. assert (0 <= offset c0 /\ 0 <= size c0 /\ offset c0 + size c0 < 2 ^ 64) as (H1 & H2 & H3) by done.
  assert (0 <= blocksize c0 /\ blocksize c0 = o_blocksize o) as [Hbz Hbe] by done. assert (0 <= blockalign c0) as Haz by (unfold c0, configure; cbn [blockalign]; destruct (o_blockalign o =? 0); lia).
  destruct (Z.ltb_spec bytesize (offset c0)) as [|Hoff]; [done|]. destruct (Z.ltb_spec (blocksize c0) bs) as [|Hb1]; [done|].
  destruct (Z.ltb_spec (blockalign c0) bs) as [|Hb2]; [done|]. destruct (Z.eqb_spec bs 0) as [|Hb3]; [done|].
  set (bz := if blocksize c0 mod bs =? 0 then blocksize c0 else blocksize c0 / bs * bs) in *.
  set (ba := if blockalign c0 mod bs =? 0 then blockalign c0 else blockalign c0 / bs * bs) in *.
  assert (forall x, bs <= x -> bs <= x / bs * bs) as Hdown.
  { intros x Hx. assert (1 <= x / bs) by (apply Z.div_le_lower_bound; lia). nia. }
  assert (0 < bz <= blocksize c0) as Hbz'. { unfold bz. destruct (blocksize c0 mod bs =? 0); [lia|]. pose proof (Hdown _ Hb1). pose proof (round_down (blocksize c0) bs). lia. }
  assert (0 < ba) as Hba'. { unfold ba. destruct (blockalign c0 mod bs =? 0); [lia|]. pose proof (Hdown _ Hb2). lia. }
  set (offs := if offset c0 mod ba =? 0 then offset c0 else offset c0 / ba * ba) in *.
  assert (0 <= offs <= offset c0 /\ offs mod ba = 0) as [Hof Hal].
  { unfold offs. destruct (Z.eqb_spec (offset c0 mod ba) 0); [lia|]. destruct (round_down (offset c0) ba Hba').
    pose proof (Z.div_pos (offset c0) ba H1 Hba'). split; [split; [apply Z.mul_nonneg_nonneg; lia|lia]|lia]. }
  set (sz := if (size c0 =? 0) || (bytesize <? u64 (offs + size c0)) then u64 (bytesize - offs) else size c0) in *.
  assert (0 <= sz /\ offs + sz < 2 ^ 64) as Hz.
  { unfold sz. destruct ((size c0 =? 0) || (bytesize <? u64 (offs + size c0))); [rewrite u64_small by lia; lia|lia]. }
  destruct (Z.eqb_spec sz 0); [done|]. injection Hi as <-. constructor; cbn.
  - destruct (o_mode o); lia.
  - lia.
  - lia.
  - done.
  - lia.
  - repeat split; lia || done.
  - exact Hseq.
Qed.

Lemma all_out_amount c w : sane c -> inv c w -> 0 < taken w -> taken w <= amount c /\ (all_out c w = true <-> taken w = amount c).
Proof.
  intros [? Hb ? ? [Hs _] _ _] Hi Ht. pose proof (i_few c w Hi Ht) as Hf. unfold all_out, amount. rewrite Z.leb_le.
  set (k := taken w) in *. set (q := (io_size c + blocksize c - 1) / blocksize c).
  pose proof (Z.div_mod (io_size c + blocksize c - 1) (blocksize c) ltac:(lia)) as Hq. fold q in Hq.
  pose proof (Z.mod_pos_bound (io_size c + blocksize c - 1) (blocksize c) ltac:(lia)) as Hm.
  set (m := (io_size c + blocksize c - 1) mod blocksize c) in *.
  assert (0 <= q) as H0q by (apply Z.div_pos; lia).
  destruct (decide (io_size c = 0)) as [Ez|Ez].
  - assert (k = 1) as -> by nia. assert (q = 0) as -> by nia. lia.
  - assert (1 <= q) by nia. rewrite Z.max_r by lia. rewrite Z.max_r in Hf by lia. assert (k <= q) by nia. split; [done|]. split; nia.
Qed.
End Generator.

(** C14: The request generator submits what it is asked for and ends once.  Limited by its amount of data and not by time,
    with a queue depth of at least 1 and, for sequential requests, room for two of them in the range without a wrap of the
    addresses ([options_ok]), whatever the order in which its event fires, the driver completes requests and time passes:
    nothing fails; the requests are numbered in order from 0 and of the block size, never more than [amount] and never
    more than the queue depth at the driver; the end is signalled exactly when all of [amount] have been taken and
    completed, once; and until then the driver holds a request or the event is pending (so that each step takes or
    completes a request, [2 * amount] in all). *)
Theorem generator_ends_once {E : Type} `{RandomEngineLaws E} (o : Options) (bytesize bs x tick : Z) (c : Conf) (g : RequestGenerator E)
    (file : bool) (p : Progress) (ops : list Op) (Ho : options_ok o bytesize bs c) (Hg : init bytesize bs (RequestGenerator_make o x) = Ok g) :
  exists w, run ops (start tick g (BlockIOEntry_make file p)) = Ok (tt, w) /\
    let n := vlen (accepted (history w)) in
    bio_id <$> accepted (history w) = seqZ 0 n /\ 1 <= n <= amount c /\
    Forall (fun b => bio_length b = blocksize c) (accepted (history w)) /\
    accepted (history w) ≡ₚ completed (history w) ++ driver w /\ vlen (driver w) <= iodepth c /\
    ended w = (if decide (n = amount c /\ driver w = []) then 1 else 0) /\
    (ended w = 0 -> driver w <> [] \/ exists e, submitEvent w = Some e /\ now w <= e) /\
    (submitEvent w <> None -> n < amount c).
Proof.
  pose proof (init_sane _ _ _ _ Ho) as HP. unfold init in Hg. cbn [conf RequestGenerator_make] in Hg.
  rewrite (p_init _ _ _ _ Ho) in Hg. injection Hg as <-.
  match goal with |- context [start tick ?g _] => pose proof (reqgen_run c HP tick g file p ops eq_refl eq_refl eq_refl eq_refl eq_refl) as Hw end.
  apply wpe_noerr in Hw as ([] & w & Hrun & Hi & Ht). exists w. split; [exact Hrun|]. intros n.
  destruct (all_out_amount c w HP Hi Ht) as [Hle Hiff]. destruct Hi as [Ha Hc Hcnt Hids Hsub [Hdep Hd] Hfew Hres Hev Hend Hreq].
  change (taken w) with n in *. rewrite (proj2 (Z.ltb_lt 0 n) Ht), andb_true_r in Hend.
  assert ((vlen (driver w) =? 0) = bool_decide (driver w = [])) as Hdr by (destruct (driver w); [done|by rewrite bool_decide_eq_false_2]).
  split; [done|]. split; [lia|]. split; [eapply Forall_impl; [exact Hreq|]; intros b [Hb _]; exact Hb|].
  split; [apply Ha|]. split; [done|]. rewrite Hdr in Hend. split; [|split].
  - rewrite Hend. destruct (decide (n = amount c /\ driver w = [])) as [[F1 F2]|F].
    + rewrite (proj2 Hiff F1). by rewrite bool_decide_eq_true_2.
    + destruct (all_out c w); [|done]. cbn. rewrite bool_decide_eq_false_2; [done|]. intros F2. apply F. split; [by apply Hiff|done].
  - rewrite Hend. intros Hnot. destruct (driver w) eqn:Edr; [|by left]. right. destruct (submitEvent w) as [e|]; [exists e; split; [done|lia]|].
    exfalso. pose proof (s_depth c HP). destruct Hev as [Hev|[Hev|Hev]]; [lia|by rewrite Hev in Hnot|]. unfold vlen in Hev. cbn in Hev. lia.
  - intros Hne. destruct (submitEvent w) as [e|]; [|done]. destruct Hev as (_ & Hev & _).
    destruct (decide (n = amount c)) as [F1|F1]; [|lia]. apply Hiff in F1. congruence.
Qed.


(** ** An example: 10000 bytes in blocks of 4096, two in flight *)

#[export] Instance counter : RandomEngine Z := {
  seed z := z;
  draw lo hi e := (lo + e mod (hi - lo + 1), e + 7);
}.
#[export] Instance counter_laws : RandomEngineLaws Z.
Proof. intros lo hi e Hle. cbn. pose proof (Z.mod_pos_bound e (hi - lo + 1)). lia. Qed.

Module Example.
Definition o (t : IO_TYPE) : Options := mkOptions 10000 t IO_ASYNC 2 (f32_ratio 1 2) 4096 0 0 4096 0 13 false 0 100 50.
Definition c (t : IO_TYPE) : Conf := mkConf 10000 t 2 (f32_ratio 1 2) 4096 61440 4096 4096 false 0 100 50.
Definition g (t : IO_TYPE) : RequestGenerator Z := mkRequestGenerator (c t) 0 0 0 0 0 false 13.
Definition ops : list Op := [Pass 100; Fire; Complete 1; Pass 250; Fire; Complete 0; Complete 0; Fire].

Lemma o_ok t : options_ok (o t) 65536 512 (c t).
Proof. constructor; try (vm_compute; done); cbn; lia. Qed.
End Example.

Lemma generator_ends_once_witness :
  options_ok (Example.o IO_READWRITE) 65536 512 (Example.c IO_READWRITE) /\
  exists w, run Example.ops (start 0 (Example.g IO_READWRITE) (BlockIOEntry_make true (mkProgress 0 0 0))) = Ok (tt, w) /\
    ended w = 1 /\ latencyFile (entry w) = Some [(1, 8192, 4096, 0); (0, 4096, 4096, 250); (2, 12288, 4096, 0)] /\ amount (Example.c IO_READWRITE) = 3.
Proof.
  split; [apply Example.o_ok|].
  destruct (generator_ends_once (E := Z) (H := counter) (Example.o IO_READWRITE) 65536 512 0 0 (Example.c IO_READWRITE) (Example.g IO_READWRITE) true (mkProgress 0 0 0) Example.ops
    (Example.o_ok _) ltac:(vm_compute; reflexivity)) as (w & Hrun & _). exists w. split; [exact Hrun|].
  vm_compute in Hrun. injection Hrun as <-. split; [reflexivity|]. split; vm_compute; reflexivity.
Defined.


(** The block layer under the same generator. *)
Lemma latencies_recorded_witness : exists w, run Example.ops (start 0 (Example.g IO_RANDREAD) (BlockIOEntry_make true (mkProgress 0 0 0))) = Ok (tt, w) /\
  sumLatency (entry w) = 250.
Proof.
  destruct (run Example.ops (start 0 (Example.g IO_RANDREAD) (BlockIOEntry_make true (mkProgress 0 0 0)))) as [[[] w]|] eqn:Hrun; [|vm_compute in Hrun; done].
  exists w. split; [done|].
  destruct (latencies_recorded 0 (Example.g IO_RANDREAD) true (mkProgress 0 0 0) Example.ops w ltac:(split; vm_compute; done) Hrun) as (_ & _ & _ & _ & _ & _ & _ & _ & Hs & _).
  rewrite Hs. vm_compute in Hrun. injection Hrun as <-. vm_compute. reflexivity.
Defined.
