(* ===== verification/Trace.v ===== *)
(** * igl/trace/trace_replayer.cc: the trace replayer

    It reads a file line by line, makes a request of each line the regular expression
    matches, and submits them one after the other, with a queue depth, or at the times
    of the trace.  The regular expression, which the configuration gives, is a function
    from a line to the groups of its match. *)

From S2P Require Import Prelude Algorithm Types Bil.
From Stdlib Require Import Ascii.

(** [TIMING_MODE] *)
Inductive TIMING_MODE : Type := MODE_SYNC | MODE_ASYNC | MODE_STRICT.
#[export] Instance TIMING_MODE_eq_dec : EqDecision TIMING_MODE.
Proof. solve_decision. Defined.

(** The options; [groupID] by name, 0 when the line has no such group. *)
Record Conf : Type := mkConf {
  regex : string -> option (list string);
  mode : TIMING_MODE; submissionLatency : Z; completionLatency : Z; maxQueueDepth : Z; max_io : Z;
  ID_OPERATION : Z; ID_BYTE_OFFSET : Z; ID_BYTE_LENGTH : Z; ID_LBA_OFFSET : Z; ID_LBA_LENGTH : Z;
  ID_TIME : list Z;
  lbaSize : Z; useHex : bool;
}.
Definition useLBAOffset (c : Conf) : bool := 0 <? ID_LBA_OFFSET c.
Definition useLBALength (c : Conf) : bool := 0 <? ID_LBA_LENGTH c.

(** The checks of the constructor. *)
Definition configure (c : Conf) : res Conf :=
  if ID_OPERATION c =? 0 then panic "Operation group ID cannot be 0"
  else if (useLBALength c || useLBAOffset c) && negb (Algorithm.popcount 32 (lbaSize c) =? 1) then panic "LBA size should be power of 2"
  else if negb (useLBAOffset c) && (ID_BYTE_OFFSET c =? 0) then panic "Both LBA Offset and Byte Offset group ID cannot be 0"
  else if negb (useLBALength c) && (ID_BYTE_LENGTH c =? 0) then panic "Both LBA Length and Byte Length group ID cannot be 0"
  else if forallb (fun i => negb (0 <? i)) (ID_TIME c) && bool_decide (mode c = MODE_STRICT) then panic "No valid time field specified"
  else Ok c.

(** [TraceReplayer]: [rest] and [eof] are the file; [initTime] and [ssdSize] are set by [begin] and [init]. *)
Record TraceReplayer : Type := mkTraceReplayer {
  conf : Conf; ssdSize : Z; rest : string; eof : bool;
  initTime : Z; firstTick : Z; nextIOIsSync : bool; reserveTermination : bool; pBackup : option Z;
  io_submitted : Z; io_count : Z; read_count : Z; write_count : Z; io_depth : Z;
}.
Definition TraceReplayer_make (c : Conf) (file : string) (indeterminate : Z) : res TraceReplayer :=
  c ← configure c;
  Ok (mkTraceReplayer c 0 file false indeterminate (2 ^ 64 - 1) false false None 0 0 0 0 0).
Definition init (bytesize : Z) (g : TraceReplayer) : TraceReplayer :=
  mkTraceReplayer (conf g) bytesize (rest g) (eof g) (initTime g) (firstTick g) (nextIOIsSync g) (reserveTermination g) (pBackup g)
    (io_submitted g) (io_count g) (read_count g) (write_count g) (io_depth g).

(** ** Reading *)

(** [std::getline]: the line, the rest of the file, and whether its end was met. *)
Fixpoint getline (s : string) : string * string * bool :=
  match s with
  | EmptyString => (EmptyString, EmptyString, true)
  | String c s =>
      if Ascii.eqb c "010" then (EmptyString, s, false)
      else let '(l, r, e) := getline s in (String c l, r, e)
  end.

(** [strtoul]: white space, a sign, for base 16 a prefix, digits; saturated. *)
Definition is_space (c : ascii) : bool :=
  let n := Z.of_N (N_of_ascii c) in (n =? 32) || ((9 <=? n) && (n <=? 13)).
Definition digit (base : Z) (c : ascii) : option Z :=
  let n := Z.of_N (N_of_ascii c) in
  let d := if (48 <=? n) && (n <=? 57) then n - 48
           else if (65 <=? n) && (n <=? 90) then n - 55
           else if (97 <=? n) && (n <=? 122) then n - 87
           else 36 in
  if d <? base then Some d else None.
Fixpoint digits (base : Z) (s : string) (acc : Z) : Z :=
  match s with
  | String c s => match digit base c with Some d => digits base s (acc * base + d) | None => acc end
  | EmptyString => acc
  end.
Fixpoint skip_spaces (s : string) : string :=
  match s with String c s' => if is_space c then skip_spaces s' else s | EmptyString => s end.
Definition skip_prefix (base : Z) (s : string) : string :=
  match s with
  | String "0" (String x (String c _ as s')) =>
      if (base =? 16) && (Ascii.eqb x "x" || Ascii.eqb x "X") && (if digit base c then true else false) then s' else s
  | _ => s
  end.
Definition strtoul (base : Z) (s : string) : Z :=
  let s := skip_spaces s in
  let '(neg, s) := match s with
                   | String "-" s' => (true, s') | String "+" s' => (false, s') | _ => (false, s)
                   end in
  let v := digits base (skip_prefix base s) 0 in
  if 2 ^ 64 <=? v then 2 ^ 64 - 1 else if neg : bool then u64 (- v) else v.

(** [match[i].str()]: a group that does not exist is empty. *)
Definition group (m : list string) (i : Z) : string := default EmptyString (vget m i).

(** [mergeTime]: the fields in the order of [ID_TIME], with the picoseconds of each. *)
Definition time_units : list Z := [1000000000000; 1000000000; 1000000; 1000; 1].
Definition add_field (m : list string) (acc : Z * bool) (x : Z * Z) : Z * bool :=
  let '(id, unit) := x in
  if 0 <? id then
    if id <? vlen m then (u64 (acc.1 + u64 (strtoul 10 (group m id) * unit)), acc.2) else (acc.1, false)
  else acc.
Definition mergeTime (c : Conf) (m : list string) : res Z :=
  let r := foldl (add_field m) (0, true) (zip (ID_TIME c) time_units) in
  if r.2 then Ok r.1 else panic "Time parse failed".

(** [getType] without its counters. *)
Definition type_of (s : string) : BIO_TYPE :=
  match s with
  | String "r" _ | String "R" _ => BIO_READ
  | String "w" _ | String "W" _ => BIO_WRITE
  | String "f" _ | String "F" _ => BIO_FLUSH
  | String "t" _ | String "T" _ | String "d" _ | String "D" _ => BIO_TRIM
  | _ => BIO_NUM
  end.

Definition offset_of (c : Conf) (m : list string) : Z :=
  let base := if useHex c then 16 else 10 in
  if useLBAOffset c then u64 (strtoul base (group m (ID_LBA_OFFSET c)) * lbaSize c)
  else strtoul base (group m (ID_BYTE_OFFSET c)).
Definition length_of (c : Conf) (m : list string) : Z :=
  let base := if useHex c then 16 else 10 in
  if useLBALength c then u64 (strtoul base (group m (ID_LBA_LENGTH c)) * lbaSize c)
  else strtoul base (group m (ID_BYTE_LENGTH c)).

(** The range check: the loop, and both steps. *)
Fixpoint wrap (fuel : nat) (size off : Z) : res Z :=
  if size <=? off then
    match fuel with O => Err NoReturn | S fuel => wrap fuel size (u64 (off - size)) end
  else Ok off.
Definition wrap_fuel (size off : Z) : nat := Z.to_nat (off / size) + 1.
Definition limit (size off len : Z) : res (Z * Z) :=
  if size <? u64 (off + len) then
    off ← wrap (wrap_fuel size off) size off;
    Ok (off, if size <? u64 (off + len) then u64 (size - off) else len)
  else Ok (off, len).

(** The loop that looks for a line that matches. *)
Fixpoint next_match (fuel : nat) (g : TraceReplayer) : res (option (list string) * TraceReplayer) :=
  if eof g then Ok (None, g)
  else
    let '(line, r, e) := getline (rest g) in
    let g := mkTraceReplayer (conf g) (ssdSize g) r e (initTime g) (firstTick g) (nextIOIsSync g) (reserveTermination g) (pBackup g)
               (io_submitted g) (io_count g) (read_count g) (write_count g) (io_depth g) in
    match regex (conf g) line with
    | Some m => Ok (Some m, g)
    | None => match fuel with O => Err NoReturn | S fuel => next_match fuel g end
    end.

(** ** Submitting *)

Notation D := (M (Front TraceReplayer)).
Definition upd_gen (f : TraceReplayer -> TraceReplayer) : D unit := modify (fun w => set_gen (f (gen w)) w).
Definition set_reserve (g : TraceReplayer) : TraceReplayer :=
  mkTraceReplayer (conf g) (ssdSize g) (rest g) (eof g) (initTime g) (firstTick g) (nextIOIsSync g) true (pBackup g)
    (io_submitted g) (io_count g) (read_count g) (write_count g) (io_depth g).
Definition set_sync (b : bool) (g : TraceReplayer) : TraceReplayer :=
  mkTraceReplayer (conf g) (ssdSize g) (rest g) (eof g) (initTime g) (firstTick g) b (reserveTermination g) (pBackup g)
    (io_submitted g) (io_count g) (read_count g) (write_count g) (io_depth g).
Definition set_backup (b : option Z) (g : TraceReplayer) : TraceReplayer :=
  mkTraceReplayer (conf g) (ssdSize g) (rest g) (eof g) (initTime g) (firstTick g) (nextIOIsSync g) (reserveTermination g) b
    (io_submitted g) (io_count g) (read_count g) (write_count g) (io_depth g).
Definition set_depth (n : Z) (g : TraceReplayer) : TraceReplayer :=
  mkTraceReplayer (conf g) (ssdSize g) (rest g) (eof g) (initTime g) (firstTick g) (nextIOIsSync g) (reserveTermination g) (pBackup g)
    (io_submitted g) (io_count g) (read_count g) (write_count g) n.

(** The counters after a line, the limit of the number of requests included. *)
Definition count_line (first len : Z) (t : BIO_TYPE) (g : TraceReplayer) : TraceReplayer :=
  let n := u64 (io_count g + 1) in
  mkTraceReplayer (conf g) (ssdSize g) (rest g) (eof g) (initTime g) first (nextIOIsSync g)
    (reserveTermination g || (n =? max_io (conf g))) (pBackup g)
    (u64 (io_submitted g + len)) n
    (if bool_decide (t = BIO_READ) then u64 (read_count g + 1) else read_count g)
    (if bool_decide (t = BIO_WRITE) then u64 (write_count g + 1) else write_count g) (u64 (io_depth g + 1)).

(** What the mode does with the event: [tick] is the time of the line. *)
Definition pace (tick : Z) : D unit :=
  w ← get;
  let g := gen w in let c := conf g in
  if bool_decide (mode c = MODE_STRICT) then
    let at_ := u64 (u64 (tick - firstTick g) + initTime g) in
    if io_depth g =? maxQueueDepth c then
      match pBackup g with
      | None => upd_gen (set_backup (Some at_))
      | Some _ => mpanic "pBackup cannot be overriden"
      end
    else if maxQueueDepth c <? io_depth g then mpanic "io_depth cannot be bigger than maxQueueDepth"
    else scheduleEvent at_
  else mret tt.

Definition handleNextLine : D unit :=
  w ← get;
  if reserveTermination (gen w) then mret tt
  else
    r ← lift (next_match (S (String.length (rest (gen w)))) (gen w));
    match r.1 with
    | None =>
        upd_gen (fun _ => set_reserve r.2);;
        when (io_depth r.2 =? 0) endCallback
    | Some m =>
        let g := r.2 in let c := conf g in
        tick ← lift (mergeTime c m);
        let first := if firstTick g =? 2 ^ 64 - 1 then (if bool_decide (mode c = MODE_STRICT) then tick else initTime g)
                     else firstTick g in
        let t := type_of (group m (ID_OPERATION c)) in
        x ← lift (limit (ssdSize g) (offset_of c m) (length_of c m));
        let g := count_line first x.2 t g in
        upd_gen (fun _ => g);;
        pace tick;;
        submitIO (mkBIO (io_count g) t x.1 x.2)
    end.

Definition rescheduleSubmit (breakTime : Z) : D unit :=
  w ← get;
  let g := gen w in let c := conf g in
  match mode c with
  | MODE_STRICT => mret tt
  | MODE_ASYNC =>
      if maxQueueDepth c <=? io_depth g then upd_gen (set_sync true)
      else scheduleEvent (u64 (now w + breakTime))
  | MODE_SYNC => scheduleEvent (u64 (now w + breakTime))
  end.

(** [submitIO] of the replayer *)
Definition replay : D unit :=
  handleNextLine;;
  w ← get;
  when (bool_decide (mode (conf (gen w)) = MODE_ASYNC)) (rescheduleSubmit (submissionLatency (conf (gen w)))).

Definition _iocallback : D unit :=
  upd_gen (fun g => set_depth (u64 (io_depth g - 1)) g);;
  w ← get;
  let g := gen w in let c := conf g in
  when (reserveTermination g && (io_depth g =? 0)) endCallback;;
  match pBackup g with
  | Some tick =>
      when (bool_decide (mode c = MODE_STRICT) && (io_depth g =? 0)) (upd_gen (set_backup None);; scheduleEvent tick)
  | None => mret tt
  end;;
  when (bool_decide (mode c = MODE_SYNC) || nextIOIsSync g)
    (upd_gen (set_sync false);; rescheduleSubmit (u64 (submissionLatency c + completionLatency c))).

#[export] Instance TraceReplayer_generator : IOGenerator TraceReplayer := {
  begin :=
    w ← get;
    upd_gen (fun g => mkTraceReplayer (conf g) (ssdSize g) (rest g) (eof g) (now w) (firstTick g) (nextIOIsSync g)
                        (reserveTermination g) (pBackup g) (io_submitted g) (io_count g) (read_count g) (write_count g) (io_depth g));;
    replay;
  fire := replay;
  iocallback _ := _iocallback;
}.
