(* ===== verification/TraceTheorems.v ===== *)
(** * The trace replayer: properties

    [requests] is what a file asks for: a request for each line the expression
    matches, numbered from 1, up to the limit.  In every timing mode the replayer
    submits these, in order, keeps to its queue depth and ends the simulation once
    ([trace_replayed]). *)

From S2P Require Import Prelude Algorithm Types Fifo Bil BilTheorems Trace.
From Stdlib Require Import Ascii.

(** ** The file as a list of requests *)

(** The lines, with the one behind the last line break. *)
Fixpoint lines (s : string) : list string :=
  match s with
  | EmptyString => [EmptyString]
  | String c s =>
      if Ascii.eqb c "010" then EmptyString :: lines s
      else match lines s with l :: ls => String c l :: ls | [] => [] end
  end.

(** A place in a device of [size] bytes: the address is taken modulo the size and the length cut at the end. *)
Definition place (size off len : Z) : Z * Z :=
  if off + len <=? size then (off, len) else (off mod size, Z.min len (size - off mod size)).

Definition request (c : Conf) (size n : Z) (m : list string) : BIO :=
  let x := place size (offset_of c m) (length_of c m) in
  mkBIO n (type_of (group m (ID_OPERATION c))) x.1 x.2.
Fixpoint requests_from (c : Conf) (size n : Z) (ls : list string) : list BIO :=
  match ls with
  | [] => []
  | l :: ls => match regex c l with Some m => request c size (n + 1) m :: requests_from c size (n + 1) ls | None => requests_from c size n ls end
  end.
Definition requests (c : Conf) (size : Z) (file : string) : list BIO :=
  let all := requests_from c size 0 (lines file) in
  if max_io c =? 0 then all else take (Z.to_nat (max_io c)) all.

(** What a matched line must have: its time fields; and an end in 64 bits. *)
Definition line_ok (c : Conf) (l : string) : Prop :=
  forall m, regex c l = Some m ->
    Forall (fun id => 0 < id -> id < vlen m) (ID_TIME c) /\ offset_of c m + length_of c m < 2 ^ 64.

(** ** Reading *)

Lemma getline_lines s l r e : getline s = (l, r, e) -> lines s = l :: (if e then [] else lines r) /\ (e = false -> (String.length r < String.length s)%nat).
Proof.
  revert l r e. induction s as [|c s IH]; intros l r e; cbn [getline lines String.length].
  - by intros [= <- <- <-].
  - destruct (Ascii.eqb c "010"); [intros [= <- <- <-]; split; [done|lia]|].
    destruct (getline s) as [[l' r'] e']. intros [= <- <- <-]. destruct (IH l' r' e' eq_refl) as [-> Hlen].
    split; [done|]. intros He. specialize (Hlen He). lia.
Qed.

(** What is left of the file. *)
Definition left_lines (g : TraceReplayer) : list string := if eof g then [] else lines (rest g).
Definition set_file (r : string) (e : bool) (g : TraceReplayer) : TraceReplayer :=
  mkTraceReplayer (conf g) (ssdSize g) r e (initTime g) (firstTick g) (nextIOIsSync g) (reserveTermination g) (pBackup g)
    (io_submitted g) (io_count g) (read_count g) (write_count g) (io_depth g).

Lemma next_match_eof fuel g : eof g = true -> next_match fuel g = Ok (None, g).
Proof. intros He. destruct fuel; cbn [next_match]; by rewrite He. Qed.

(** The loop finds the first line that matches, or the end of the file. *)
Lemma next_match_spec c fuel g : conf g = c -> (String.length (rest g) < fuel)%nat ->
  exists o r e, next_match fuel g = Ok (o, set_file r e g) /\
    (match o with
     | Some m => exists skipped l, left_lines g = skipped ++ l :: left_lines (set_file r e g) /\ Forall (fun l => regex c l = None) skipped /\ regex c l = Some m
     | None => e = true /\ Forall (fun l => regex c l = None) (left_lines g)
     end).
Proof.
  intros Hc. subst c. revert g. induction fuel as [|fuel IH]; intros g Hf; [lia|]. cbn [next_match]. destruct (eof g) eqn:He.
  - exists None, (rest g), true. split; [by destruct g; cbn in *; subst|]. split; [done|]. unfold left_lines. rewrite He. by apply Forall_nil.
  - destruct (getline (rest g)) as [[l r] e] eqn:Hgl. destruct (getline_lines _ _ _ _ Hgl) as [Hlines Hlen].
    change (mkTraceReplayer (conf g) (ssdSize g) r e _ _ _ _ _ _ _ _ _ _) with (set_file r e g).
    assert (left_lines g = l :: left_lines (set_file r e g)) as Hll by (unfold left_lines; by rewrite He, Hlines).
    change (conf (set_file r e g)) with (conf g). destruct (regex (conf g) l) as [m|] eqn:Hm.
    + exists (Some m), r, e. split; [done|]. exists [], l. split; [done|]. split; [by apply Forall_nil|done].
    + destruct e.
      * exists None, r, true. split; [by apply next_match_eof|]. split; [done|]. rewrite Hll. unfold left_lines. cbn. by apply Forall_cons.
      * destruct (IH (set_file r false g)) as (o & r' & e' & Hn & Ho); [cbn; specialize (Hlen eq_refl); lia|].
        exists o, r', e'. split; [exact Hn|]. change (conf (set_file r false g)) with (conf g) in Ho. destruct o as [m|].
        -- destruct Ho as (sk & l' & E1 & E2 & E3). exists (l :: sk), l'. rewrite Hll, E1. split; [done|]. split; [by apply Forall_cons|done].
        -- destruct Ho as [-> Ho]. split; [done|]. rewrite Hll. by apply Forall_cons.
Qed.

Lemma requests_skip c size n sk ls : Forall (fun l => regex c l = None) sk -> requests_from c size n (sk ++ ls) = requests_from c size n ls.
Proof. induction 1 as [|l sk Hl _ IH]; [done|]. cbn [app requests_from]. by rewrite Hl. Qed.
Lemma requests_none c size n ls : Forall (fun l => regex c l = None) ls -> requests_from c size n ls = [].
Proof. intros H. rewrite <- (app_nil_r ls), requests_skip by done. done. Qed.

(** ** One line *)

Lemma mergeTime_ok c m : Forall (fun id => 0 < id -> id < vlen m) (ID_TIME c) -> exists t, mergeTime c m = Ok t.
Proof.
  intros Hf. unfold mergeTime.
  assert (forall l a, Forall (fun x : Z * Z => 0 < x.1 -> x.1 < vlen m) l -> a.2 = true -> (foldl (add_field m) a l).2 = true) as H.
  { induction l as [|[id u] l IH]; intros a Hl Ha; [done|]. apply Forall_cons in Hl as [Hx Hl]. cbn [foldl]. apply IH; [done|].
    unfold add_field. cbn [fst] in Hx. destruct (Z.ltb_spec 0 id); [|done]. destruct (Z.ltb_spec id (vlen m)); [done|]. specialize (Hx ltac:(lia)). lia. }
  rewrite H; [by eexists| |done]. apply Forall_forall. intros [id u] Hin. cbn. apply elem_of_zip_l in Hin. by apply (proj1 (Forall_forall _ _) Hf).
Qed.

Lemma wrap_mod fuel size off : 0 < size -> 0 <= off < 2 ^ 64 -> off / size <= Z.of_nat fuel -> wrap fuel size off = Ok (off mod size).
Proof.
  intros Hs. revert off. induction fuel as [|fuel IH]; intros off Ho Hf; cbn [wrap]; destruct (Z.leb_spec size off).
  - assert (1 <= off / size) by (apply Z.div_le_lower_bound; lia). lia.
  - rewrite Z.mod_small by lia. done.
  - rewrite u64_small by lia. replace off with (off - size + 1 * size) in Hf by lia. rewrite Z.div_add in Hf by lia.
    rewrite IH by lia. f_equal. by rewrite <- (Z.mod_add (off - size) 1 size), Z.mul_1_l, Z.sub_add by lia.
  - rewrite Z.mod_small by lia. done.
Qed.

Lemma limit_place size off len : 0 < size < 2 ^ 64 -> 0 <= off -> 0 <= len -> off + len < 2 ^ 64 -> limit size off len = Ok (place size off len).
Proof.
  intros Hs Ho Hl Hw. unfold limit, place. rewrite u64_small by lia. rewrite Z.leb_antisym. destruct (Z.ltb_spec size (off + len)); cbn [negb]; [|done].
  rewrite wrap_mod; [|lia|lia|unfold wrap_fuel; pose proof (Z.div_pos off size ltac:(lia) ltac:(lia)); lia]. cbn [mbind res_bind].
  pose proof (Z.mod_pos_bound off size ltac:(lia)). assert (off mod size <= off) by (apply Z.mod_le; lia).
  rewrite u64_small by lia. destruct (Z.ltb_spec size (off mod size + len)); [rewrite u64_small by lia|]; do 2 f_equal; lia.
Qed.

Lemma digits_nonneg base s acc : 0 <= base -> 0 <= acc -> 0 <= digits base s acc.
Proof.
  intros Hb. revert acc. induction s as [|c s IH]; intros acc Ha; [done|]. cbn [digits]. unfold digit.
  set (n := Z.of_N (N_of_ascii c)). destruct (Z.ltb_spec (if (48 <=? n) && (n <=? 57) then n - 48 else if (65 <=? n) && (n <=? 90) then n - 55 else if (97 <=? n) && (n <=? 122) then n - 87 else 36) base); [|done].
  apply IH. destruct ((48 <=? n) && (n <=? 57)) eqn:E1; [breflect; nia|]. destruct ((65 <=? n) && (n <=? 90)) eqn:E2; [breflect; nia|].
  destruct ((97 <=? n) && (n <=? 122)) eqn:E3; [breflect; nia|nia].
Qed.

Lemma strtoul_range base s : 0 <= base -> 0 <= strtoul base s < 2 ^ 64.
Proof.
  intros Hb. unfold strtoul. set (x := match skip_spaces s with String "-" s' => (true, s') | String "+" s' => (false, s') | _ => (false, skip_spaces s) end).
  destruct x as [neg t]. pose proof (digits_nonneg base (skip_prefix base t) 0 Hb ltac:(lia)).
  destruct (Z.leb_spec (2 ^ 64) (digits base (skip_prefix base t) 0)); [lia|]. destruct neg; [apply u64_range|lia].
Qed.

Lemma fields_range c m : 0 <= offset_of c m < 2 ^ 64 /\ 0 <= length_of c m < 2 ^ 64.
Proof.
  unfold offset_of, length_of. assert (0 <= if useHex c then 16 else 10) by (destruct (useHex c); lia).
  split; [destruct (useLBAOffset c)|destruct (useLBALength c)]; first [apply u64_range | by apply strtoul_range].
Qed.

(** A matched line becomes its request. *)
Lemma line_request c size n l m : 0 < size < 2 ^ 64 -> regex c l = Some m -> line_ok c l ->
  exists t x, mergeTime c m = Ok t /\ limit size (offset_of c m) (length_of c m) = Ok x /\ request c size n m = mkBIO n (type_of (group m (ID_OPERATION c))) x.1 x.2.
Proof.
  intros Hs Hm Hl. destruct (Hl m Hm) as [Ht Hsum]. destruct (mergeTime_ok c m Ht) as [t Hmt].
  destruct (fields_range c m) as [Ho Hn]. exists t, (place size (offset_of c m) (length_of c m)). split; [done|]. split; [|done].
  apply limit_place; lia.
Qed.

(** ** What the replayer does to the block layer *)

Definition next_id (g : TraceReplayer) : Z := u64 (io_count g + 1).
Definition quiet (w w' : Front TraceReplayer) : Prop := untouched w w' /\ io_count (gen w') = io_count (gen w).

Lemma quiet_trans w w' w'' : quiet w w' -> quiet w' w'' -> quiet w w''.
Proof. intros [] []. split; [by eapply untouched_trans|congruence]. Qed.

Lemma next_match_file fuel g o g' : next_match fuel g = Ok (o, g') -> exists r e, g' = set_file r e g.
Proof.
  revert g. induction fuel as [|fuel IH]; intros g; cbn [next_match]; (destruct (eof g) eqn:He;
    [intros [= <- <-]; exists (rest g), true; by destruct g; cbn in *; subst|]); destruct (getline (rest g)) as [[l r] e];
    (destruct (regex _ l); [intros [= <- <-]; by exists r, e|]); [done|].
  intros H. apply IH in H as (r' & e' & ->). by exists r', e'.
Qed.

Lemma pace_quiet t w : wpe anyerr (pace t) (fun _ w' => quiet w w') w.
Proof.
  unfold pace, mpanic, scheduleEvent, upd_gen. wp_steps. destruct (bool_decide _); [|by wp_steps].
  destruct (_ =? _); [destruct (pBackup _); by wp_steps|]. destruct (_ <? _); by wp_steps.
Qed.

Lemma rescheduleSubmit_quiet t w : wpe anyerr (rescheduleSubmit t) (fun _ w' => quiet w w') w.
Proof.
  unfold rescheduleSubmit, scheduleEvent, upd_gen. wp_steps. destruct (mode _); [by wp_steps| |by wp_steps]. destruct (_ <=? _); by wp_steps.
Qed.

Lemma handleNextLine_acts w : wpe anyerr handleNextLine (fun _ w' => acts next_id w w') w.
Proof.
  unfold handleNextLine. wp_steps. destruct (reserveTermination (gen w)); wp_steps; [by left|].
  destruct (next_match _ (gen w)) as [[o g']|] eqn:Hm; [|exact I]. apply next_match_file in Hm as (r & e & ->). wp_steps.
  cbn [fst snd]. destruct o as [m|].
  - wp_steps. destruct (mergeTime _ m) as [t|]; [|exact I]. wp_steps. destruct (limit _ _ _) as [x|]; [|exact I]. wp_steps. unfold upd_gen. wp_steps.
    eapply wpe_mono; [apply pace_quiet|]. cbv beta. intros [] w1 [[U1 U2 U3 U4] Hn].
    match goal with |- wpe _ (submitIO ?b) _ _ => destruct (submitIO_takes b w1) as (w2 & Hs & [T1 T2 T3 T4] & Hg & _) end.
    rewrite wpe_anyerr. intros [] w3. rewrite Hs. intros [= <-]. right. eexists. split; [|split].
    + constructor; [by rewrite T1, U1|by rewrite T2, U1, U2|by rewrite T3, U3|by rewrite T4, U1, U4].
    + done.
    + unfold next_id. rewrite Hg, Hn. done.
  - unfold upd_gen. wp_steps; by left.
Qed.

Lemma replay_acts w : wpe anyerr replay (fun _ w' => acts next_id w w') w.
Proof.
  unfold replay. wp_steps. eapply wpe_mono; [apply handleNextLine_acts|]. cbv beta. intros [] w1 Hact. wp_steps; [|done].
  eapply wpe_mono; [apply rescheduleSubmit_quiet|]. cbv beta. intros [] w2 [[U1 U2 U3 U4] Hn].
  destruct Hact as [[HU Hc]|(b & [T1 T2 T3 T4] & Hb & Hc)]; [left|right; exists b].
  - split; [|unfold next_id in *; by rewrite Hn]. eapply untouched_trans; [exact HU|]. by constructor.
  - split; [|split; [done|unfold next_id in *; by rewrite Hn]].
    constructor; [by rewrite U1|by rewrite U2|by rewrite U3|by rewrite U4].
Qed.

Lemma callback_quiet w : wpe anyerr _iocallback (fun _ w' => quiet w w') w.
Proof.
  unfold _iocallback, upd_gen. apply wpe_bind, wpe_modify, wpe_bind, wpe_get, wpe_bind. cbv zeta.
  eapply (wpe_mono _ _ (fun _ w' => quiet w w')); [unfold endCallback; wp_steps; by repeat constructor|]. intros [] w1 H1. apply wpe_bind.
  eapply (wpe_mono _ _ (fun _ w' => quiet w w')); [destruct (pBackup _); unfold scheduleEvent; wp_steps; (eapply quiet_trans; [exact H1|]); by repeat constructor|]. intros [] w2 H2.
  wp_steps; [|done]. eapply wpe_mono; [apply rescheduleSubmit_quiet|]. cbv beta. intros [] w3 H3. eapply quiet_trans; [exact H2|].
  eapply quiet_trans; [|exact H3]. by repeat constructor.
Qed.

#[export] Instance TraceReplayer_laws : IOGeneratorLaws TraceReplayer.
Proof.
  refine {| next := next_id |}.
  - intros w. cbn [begin TraceReplayer_generator]. unfold upd_gen. wp_steps. eapply wpe_mono; [apply replay_acts|]. cbv beta. intros [] w'.
    intros [[[] Hn]|(b & [] & Hb)]; [left|right; exists b]; (split; [constructor; done|done]).
  - apply replay_acts.
  - intros id w. cbn [iocallback TraceReplayer_generator]. eapply wpe_mono; [apply callback_quiet|]. cbv beta. intros [] w' [HU Hn].
    split; [done|]. unfold next_id. by rewrite Hn.
Defined.

(** ** The invariant *)

Section Replay.
  Context (c : Conf) (size : Z) (file : string).
  Implicit Types w : Front TraceReplayer.

Record trace_ok : Prop := {
  k_size : 0 < size < 2 ^ 64;
  k_lines : Forall (line_ok c) (lines file);
  k_depth : 1 <= maxQueueDepth c < 2 ^ 32;
  k_limit : 0 <= max_io c < 2 ^ 64;
  k_few : vlen (lines file) < 2 ^ 64;
}.
  Context (HK : trace_ok).

Definition taken w : Z := vlen (accepted (history w)).
(** The requests that are still in the file. *)
Definition to_come w : list BIO := requests_from c size (taken w) (left_lines (gen w)).
Definition bound : Z := if decide (mode c = MODE_SYNC) then 1 else maxQueueDepth c.
(** What the event, the flags and the requests in flight are while there is more to come. *)
Definition paced (g : TraceReplayer) (ev : option Z) (n : Z) : Prop :=
  match mode c with
  | MODE_SYNC => nextIOIsSync g = false /\ ((ev = None /\ n = 1) \/ (ev <> None /\ n = 0))
  | MODE_ASYNC => (nextIOIsSync g = true /\ ev = None /\ 0 < n) \/ (nextIOIsSync g = false /\ ev <> None /\ n < maxQueueDepth c)
  | MODE_STRICT => nextIOIsSync g = false /\
      ((pBackup g <> None /\ ev = None /\ 0 < n) \/ (pBackup g = None /\ ev <> None /\ n < maxQueueDepth c))
  end.

(** What holds at any time. *)
Record held w : Prop := {
  h_agrees : agrees w;
  h_conf : conf (gen w) = c;
  h_size : ssdSize (gen w) = size;
  h_count : io_count (gen w) = taken w;
  h_ids : bio_id <$> accepted (history w) = seqZ 1 (taken w);
  h_all : accepted (history w) ++ to_come w = requests_from c size 0 (lines file);
  h_lines : Forall (line_ok c) (left_lines (gen w));
  h_depth : io_depth (gen w) = vlen (driver w);
}.
(** Between two operations. *)
Record inv w : Prop := {
  i_held : held w;
  i_bound : vlen (driver w) <= bound;
  i_more : reserveTermination (gen w) = false -> taken w <> 0 -> taken w <> max_io c;
  i_limit : max_io c = 0 \/ taken w <= max_io c;
  i_reserve : reserveTermination (gen w) = true -> to_come w = [] \/ (taken w = max_io c /\ taken w <> 0);
  i_paced : reserveTermination (gen w) = false -> paced (gen w) (submitEvent w) (vlen (driver w));
  i_event : forall e, submitEvent w = Some e -> now w <= e;
  i_ended : ended w = if reserveTermination (gen w) && (vlen (driver w) =? 0) then 1 else 0;
}.
(** When the next line is read. *)
Record ready w : Prop := {
  y_held : held w;
  y_bound : vlen (driver w) < bound;
  y_more : taken w <> 0 -> taken w <> max_io c;
  y_limit : max_io c = 0 \/ taken w <= max_io c;
  y_reserve : reserveTermination (gen w) = false;
  y_sync : nextIOIsSync (gen w) = false;
  y_backup : mode c = MODE_STRICT -> pBackup (gen w) = None;
  y_event : submitEvent w = None;
  y_ended : ended w = 0;
}.

Lemma requests_length n ls : vlen (requests_from c size n ls) <= vlen ls.
Proof.
  unfold vlen. revert n. induction ls as [|l ls IH]; intros n; [done|]. cbn [requests_from]. destruct (regex c l); cbn [length].
  - specialize (IH (n + 1)). lia.
  - specialize (IH n). lia.
Qed.

Lemma taken_small w : held w -> taken w + vlen (to_come w) < 2 ^ 64.
Proof.
  intros Hh. pose proof (requests_length 0 (lines file)) as Hl. rewrite <- (h_all w Hh) in Hl. pose proof (k_few HK).
  unfold taken, vlen in *. rewrite length_app in Hl. lia.
Qed.

Lemma held_now w x : held w -> held (set_now x w).
Proof. intros [[A1 A2 A3 A4 A5] ? ? ? ? ? ? ?]. constructor; try done. Qed.
Lemma held_event w x : held w -> held (set_event x w).
Proof. intros [[A1 A2 A3 A4 A5] ? ? ? ? ? ? ?]. constructor; try done. Qed.
(** A change of the generator that keeps its counters and its file. *)
Lemma held_gen w (f : TraceReplayer -> TraceReplayer) : held w ->
  conf (f (gen w)) = conf (gen w) -> ssdSize (f (gen w)) = ssdSize (gen w) -> io_count (f (gen w)) = io_count (gen w) ->
  left_lines (f (gen w)) = left_lines (gen w) -> io_depth (f (gen w)) = io_depth (gen w) -> held (set_gen (f (gen w)) w).
Proof.
  intros [[A1 A2 A3 A4 A5] H1 H2 H3 H4 H5 H6 H7] E1 E2 E3 E4 E5.
  constructor; unfold to_come in *; cbn [set_gen gen driver history]; rewrite ?E1, ?E2, ?E3, ?E4, ?E5; try done.
Qed.

(** A line is read, its request made: the state before the event is dealt with. *)
Lemma line_read w : held w -> reserveTermination (gen w) = false ->
  exists o r e, next_match (S (String.length (rest (gen w)))) (gen w) = Ok (o, set_file r e (gen w)) /\
    match o with
    | None => to_come w = [] /\ left_lines (set_file r e (gen w)) = []
    | Some m => exists t x, mergeTime c m = Ok t /\ limit size (offset_of c m) (length_of c m) = Ok x /\
        let b := mkBIO (taken w + 1) (type_of (group m (ID_OPERATION c))) x.1 x.2 in
        to_come w = b :: requests_from c size (taken w + 1) (left_lines (set_file r e (gen w))) /\
        Forall (line_ok c) (left_lines (set_file r e (gen w)))
    end.
Proof.
  intros Hh _. destruct (next_match_spec c (S (String.length (rest (gen w)))) (gen w)) as (o & r & e & Hn & Ho); [apply Hh|lia|].
  exists o, r, e. split; [exact Hn|]. unfold to_come. destruct o as [m|].
  - destruct Ho as (sk & l & Hl & Hsk & Hm). pose proof (h_lines w Hh) as Hok. rewrite Hl in Hok |- *.
    apply Forall_app in Hok as [_ Hok]. apply Forall_cons in Hok as [Hlok Hrest].
    destruct (line_request c size (taken w + 1) l m (k_size HK) Hm Hlok) as (t & x & Ht & Hx & Hreq).
    exists t, x. split; [done|]. split; [done|]. split; [|done]. rewrite requests_skip by done. cbn [requests_from]. rewrite Hm. by rewrite Hreq.
  - destruct Ho as [-> Ho]. split; [by apply requests_none|]. done.
Qed.

Lemma at_tick_after now x : exists e, Fifo.at_tick now x = Some e /\ now <= e.
Proof. unfold Fifo.at_tick. eexists. split; [done|]. destruct (Z.ltb_spec x now); lia. Qed.

Lemma pace_outcomes w t : conf (gen w) = c -> (mode c = MODE_STRICT -> pBackup (gen w) = None /\ io_depth (gen w) <= maxQueueDepth c) ->
  exists w', pace t w = Ok (tt, w') /\ untouched w w' /\ ended w' = ended w /\
    if decide (mode c = MODE_STRICT) then
      if decide (io_depth (gen w) = maxQueueDepth c) then exists x, gen w' = set_backup (Some x) (gen w) /\ submitEvent w' = submitEvent w
      else gen w' = gen w /\ exists e, submitEvent w' = Some e /\ now w <= e
    else w' = w.
Proof.
  intros Hc Hs. unfold pace. rewrite get_bind. cbv zeta. rewrite Hc. destruct (decide (mode c = MODE_STRICT)) as [Hm|Hm].
  - rewrite bool_decide_eq_true_2 by done. destruct (Hs Hm) as [-> Hle]. destruct (decide (io_depth (gen w) = maxQueueDepth c)) as [Hd|Hd].
    + rewrite (proj2 (Z.eqb_eq _ _) Hd). eexists. split; [reflexivity|]. split; [done|]. split; [done|]. by eexists.
    + rewrite (proj2 (Z.eqb_neq _ _) Hd). destruct (Z.ltb_spec (maxQueueDepth c) (io_depth (gen w))); [lia|].
      eexists. split; [reflexivity|]. split; [done|]. split; [done|]. split; [done|]. apply at_tick_after.
  - rewrite bool_decide_eq_false_2 by done. exists w. done.
Qed.

Lemma trace_reschedule w t : conf (gen w) = c ->
  exists w', rescheduleSubmit t w = Ok (tt, w') /\ untouched w w' /\ ended w' = ended w /\
    match mode c with
    | MODE_STRICT => w' = w
    | MODE_ASYNC =>
        if decide (maxQueueDepth c <= io_depth (gen w)) then gen w' = set_sync true (gen w) /\ submitEvent w' = submitEvent w
        else gen w' = gen w /\ exists e, submitEvent w' = Some e /\ now w <= e
    | MODE_SYNC => gen w' = gen w /\ exists e, submitEvent w' = Some e /\ now w <= e
    end.
Proof.
  intros Hc. unfold rescheduleSubmit. rewrite get_bind. cbv zeta. rewrite Hc. destruct (mode c).
  - eexists. split; [reflexivity|]. split; [done|]. split; [done|]. split; [done|]. apply at_tick_after.
  - destruct (decide (maxQueueDepth c <= io_depth (gen w))) as [Hd|Hd]; [rewrite (proj2 (Z.leb_le _ _) Hd)|rewrite (proj2 (Z.leb_gt _ _)) by lia].
    + eexists. split; [reflexivity|]. done.
    + eexists. split; [reflexivity|]. split; [done|]. split; [done|]. split; [done|]. apply at_tick_after.
  - exists w. done.
Qed.

(** The state when a line has been read and its request passed on. *)
Record read w w' : Prop := {
  r_held : held w';
  r_now : now w' = now w;
  r_driver : vlen (driver w') = vlen (driver w) + 1;
  r_taken : taken w' = taken w + 1;
  r_reserve : reserveTermination (gen w') = (taken w' =? max_io c);
  r_ended : ended w' = ended w;
  r_sync : nextIOIsSync (gen w') = nextIOIsSync (gen w);
  r_event : if decide (mode c = MODE_STRICT) then
              if decide (vlen (driver w') = maxQueueDepth c) then pBackup (gen w') <> None /\ submitEvent w' = None
              else pBackup (gen w') = None /\ exists e, submitEvent w' = Some e /\ now w <= e
            else submitEvent w' = None;
}.

Lemma handleNextLine_ready w : ready w -> exists w', handleNextLine w = Ok (tt, w') /\
  (read w w' \/
   (held w' /\ now w' = now w /\ driver w' = driver w /\ taken w' = taken w /\ to_come w' = [] /\ reserveTermination (gen w') = true /\
    submitEvent w' = None /\ ended w' = if vlen (driver w) =? 0 then 1 else 0)).
Proof.
  intros [Hh Hb Hmore Hlim Hres Hsync Hback Hev Hend]. pose proof Hh as [Ha Hc Hsz Hcnt Hids Hall Hok Hdep].
  destruct (line_read w Hh Hres) as (o & r & e & Hn & Ho). pose proof (taken_small w Hh) as Hsmall.
  unfold handleNextLine. rewrite get_bind, Hres. rewrite (bind_ok _ _ w (o, set_file r e (gen w)) w) by (unfold lift; by rewrite Hn). cbn [fst snd].
  destruct o as [m|].
  - destruct Ho as (t & x & Ht & Hx & Hcome & Hrest). set (b := mkBIO (taken w + 1) (type_of (group m (ID_OPERATION c))) x.1 x.2) in *.
    change (conf (set_file r e (gen w))) with (conf (gen w)). change (ssdSize (set_file r e (gen w))) with (ssdSize (gen w)). rewrite Hc, Hsz.
    rewrite (bind_ok _ _ w t w) by (unfold lift; by rewrite Ht). cbv zeta. rewrite (bind_ok _ _ w x w) by (unfold lift; by rewrite Hx).
    unfold upd_gen. rewrite modify_bind. set (first := if firstTick _ =? _ then _ else _). set (g' := count_line _ _ _ _). set (w1 := set_gen g' w).
    assert (vlen (to_come w) = 1 + vlen (requests_from c size (taken w + 1) (left_lines (set_file r e (gen w))))) as Hlen by (rewrite Hcome; unfold vlen; cbn [length]; lia).
    assert (0 <= taken w) as Hz by apply vlen_nonneg. pose proof (vlen_nonneg (requests_from c size (taken w + 1) (left_lines (set_file r e (gen w))))) as Hz'.
    assert (bound <= maxQueueDepth c /\ 0 <= vlen (driver w)) as [Hbm Hdz] by (split; [unfold bound; pose proof (k_depth HK); case_decide; lia|apply vlen_nonneg]).
    pose proof (k_depth HK) as Hq.
    assert (io_count g' = taken w + 1) as Hgc by (unfold g', count_line; cbn [io_count set_file]; rewrite Hcnt; apply u64_small; lia).
    assert (io_depth g' = vlen (driver w) + 1) as Hgd by (unfold g', count_line; cbn [io_depth set_file]; rewrite Hdep; apply u64_small; lia).
    assert (reserveTermination g' = (taken w + 1 =? max_io c)) as Hgr
      by (unfold g', count_line; cbn [reserveTermination io_count set_file conf]; rewrite Hcnt, Hres, Hc, u64_small by lia; done).
    destruct (pace_outcomes w1 t) as (w2 & Hp & [U1 U2 U3 U4] & Hen & Hpost).
    { done. }
    { intros Hm. cbn [w1 set_gen gen]. rewrite Hgd. split; [by apply Hback|lia]. }
    rewrite (bind_ok _ _ w1 tt w2) by exact Hp. rewrite Hgc.
    destruct (submitIO_takes b w2) as (w3 & Hs & HT & Hg3 & He3 & Hn3). exists w3. split; [exact Hs|]. left.
    assert (accepted (history w3) = accepted (history w) ++ [b]) as Hacc by (destruct HT as [_ _ _ ->]; rewrite accepted_app, U4; done).
    assert (taken w3 = taken w + 1) as Htk by (unfold taken; rewrite Hacc; unfold vlen; rewrite length_app; cbn; lia).
    assert (conf (gen w3) = c /\ ssdSize (gen w3) = size /\ io_count (gen w3) = taken w + 1 /\ io_depth (gen w3) = vlen (driver w) + 1 /\
      reserveTermination (gen w3) = (taken w + 1 =? max_io c) /\ nextIOIsSync (gen w3) = nextIOIsSync (gen w) /\
      left_lines (gen w3) = left_lines (set_file r e (gen w))) as (G1 & G2 & G3 & G4 & G5 & G6 & G7).
    { rewrite Hg3. assert (gen w2 = g' \/ exists y, gen w2 = set_backup y g') as [E|[y E]].
      { destruct (decide (mode c = MODE_STRICT)); [|left; by rewrite Hpost]. destruct (decide _); [right; destruct Hpost as (y & -> & _); by eexists|left; by destruct Hpost as [-> _]]. }
      all: rewrite E; done. }
    assert (driver w3 = driver w ++ [b]) as Hd3 by (destruct HT as [_ _ -> _]; by rewrite U3).
    assert (vlen (driver w3) = vlen (driver w) + 1) as Hv3 by (rewrite Hd3; unfold vlen; rewrite length_app; cbn; lia).
    constructor.
    + constructor; try done.
      * eapply takes_agrees; [exact HT| |].
        -- cbn [bio_id b]. rewrite U4. cbn [w1 set_gen history]. rewrite Hids, elem_of_seqZ. lia.
        -- apply (untouched_agrees w1); [by constructor|]. destruct Ha as [A1 A2 A3 A4 A5]. by constructor.
      * by rewrite G3, Htk.
      * rewrite Hacc, fmap_app, Hids, Htk, seqZ_app by lia. f_equal. change (seqZ (1 + taken w) 1) with [0 + (1 + taken w)].
        cbn [fmap list_fmap bio_id b]. f_equal. lia.
      * unfold to_come. rewrite Htk, G7, Hacc, <- app_assoc. rewrite <- Hall. f_equal. rewrite Hcome. done.
      * by rewrite G7.
      * by rewrite G4, Hv3.
    + destruct HT as [-> _ _ _]. by rewrite U1.
    + exact Hv3.
    + exact Htk.
    + by rewrite Htk.
    + by rewrite Hn3, Hen.
    + exact G6.
    + rewrite Hv3, He3, Hg3. cbn [w1 set_gen gen] in Hpost. destruct (decide (mode c = MODE_STRICT)) as [Hm|Hm].
      * rewrite Hgd in Hpost. destruct (decide _).
        -- destruct Hpost as (y & -> & ->). done.
        -- destruct Hpost as (-> & Hpost). split; [by apply Hback|exact Hpost].
      * rewrite Hpost. exact Hev.
  - destruct Ho as [Hcome Hleft]. unfold upd_gen. rewrite modify_bind. set (w1 := set_gen (set_reserve (set_file r e (gen w))) w).
    assert (left_lines (gen w1) = []) as Hl1 by exact Hleft.
    assert (to_come w1 = []) as Hc1 by (unfold to_come; by rewrite Hl1).
    assert (held w1) as Hh1.
    { constructor; try done.
      - by apply (untouched_agrees w).
      - rewrite Hc1. rewrite Hcome in Hall. exact Hall.
      - rewrite Hl1. by apply Forall_nil. }
    change (io_depth (set_file r e (gen w))) with (io_depth (gen w)). rewrite Hdep. destruct (vlen (driver w) =? 0); cbn [when].
    + eexists. split; [reflexivity|]. right. split; [destruct Hh1; constructor; try done; by apply (untouched_agrees w)|].
      repeat split; try done. change (ended w1) with (ended w) in *. cbn. by rewrite Hend.
    + exists w1. split; [reflexivity|]. right. repeat split; try done; apply Hh1.
Qed.

(** Only the event and the flag of the asynchronous mode change. *)
Lemma held_outcome w w' : held w -> untouched w w' -> gen w' = gen w \/ (exists b, gen w' = set_sync b (gen w)) -> held w'.
Proof.
  intros [Ha H1 H2 H3 H4 H5 H6 H7] HU Hg. pose proof (untouched_agrees _ _ HU Ha) as Ha'. destruct HU as [U1 U2 U3 U4].
  assert (taken w' = taken w) as Et by (unfold taken; by rewrite U4).
  assert (conf (gen w') = conf (gen w) /\ ssdSize (gen w') = ssdSize (gen w) /\ io_count (gen w') = io_count (gen w) /\
    left_lines (gen w') = left_lines (gen w) /\ io_depth (gen w') = io_depth (gen w)) as (G1 & G2 & G3 & G4 & G5) by (by destruct Hg as [->|[b ->]]).
  constructor; unfold to_come in *; rewrite ?Et, ?U3, ?U4, ?G1, ?G2, ?G3, ?G4, ?G5; done.
Qed.

Lemma replay_ready w : ready w ->
  wpe noerr replay (fun _ w' => inv w' /\ (taken w' = taken w + 1 \/ (taken w' = taken w /\ driver w' = driver w /\ reserveTermination (gen w') = true))) w.
Proof.
  intros Hy. destruct (handleNextLine_ready w Hy) as (w1 & Hr1 & H1). apply wpe_noerr. unfold replay. exists tt.
  assert (held w1) as Hh1 by (by destruct H1 as [[]|[]]). pose proof (h_conf w1 Hh1) as Hc1. pose proof (h_depth w1 Hh1) as Hd1.
  destruct (trace_reschedule w1 (submissionLatency c) Hc1) as (w2 & Hr2 & HU & He2 & H2). pose proof HU as [U1 U2 U3 U4].
  set (w' := if decide (mode c = MODE_ASYNC) then w2 else w1). exists w'.
  assert ((handleNextLine;; x ← get; when (bool_decide (mode (conf (gen x)) = MODE_ASYNC)) (rescheduleSubmit (submissionLatency (conf (gen x))))) w = Ok (tt, w')) as Hrun.
  { rewrite (bind_ok _ _ w tt w1 Hr1), get_bind, Hc1. unfold w'. destruct (decide (mode c = MODE_ASYNC)).
    - rewrite bool_decide_eq_true_2 by done. exact Hr2.
    - by rewrite bool_decide_eq_false_2. }
  split; [exact Hrun|]. clear Hrun Hr1 Hr2.
  destruct Hy as [Hh Hb Hmore Hlim Hres Hsync Hback Hev Hend].
  pose proof (k_depth HK) as Hq. assert (0 <= vlen (driver w) /\ 0 <= taken w) as [Hv0 Ht0] by (split; apply vlen_nonneg).
  assert (held w' /\ taken w' = taken w1 /\ driver w' = driver w1 /\ now w' = now w1 /\ ended w' = ended w1 /\ to_come w' = to_come w1 /\
    reserveTermination (gen w') = reserveTermination (gen w1)) as (Hh' & Et & Ed & En & Ee & Ec & Er).
  { unfold w'. destruct (decide (mode c = MODE_ASYNC)) as [Em|]; [|done]. rewrite Em in H2.
    assert (gen w2 = gen w1 \/ exists b, gen w2 = set_sync b (gen w1)) as Hg by (destruct (decide _); destruct H2 as [-> _]; [right; by eexists|by left]).
    assert (taken w2 = taken w1) as Et by (unfold taken; by rewrite U4). split; [by eapply held_outcome|]. split; [done|]. split; [done|]. split; [done|]. split; [done|].
    split; [unfold to_come; rewrite Et; by destruct Hg as [->|[b ->]]|by destruct Hg as [->|[b ->]]]. }
  assert (forall e, submitEvent w' = Some e -> now w1 <= e \/ submitEvent w1 = Some e) as Hevent.
  { intros e. unfold w'. destruct (decide (mode c = MODE_ASYNC)) as [Em|]; [|by right]. rewrite Em in H2. destruct (decide _).
    - destruct H2 as [_ ->]. by right.
    - destruct H2 as (_ & e' & -> & Hle). intros [= <-]. by left. }
  destruct H1 as [[_ R2 R3 R4 R5 R6 R7 R8]|(_ & N1 & N2 & N3 & N4 & N5 & N6 & N7)].
  - split; [|left; lia]. rewrite R4 in *. constructor; rewrite ?Ed, ?Et, ?En, ?Ee, ?Ec, ?Er, ?R3, ?R5, ?R6, ?Hend.
    + done.
    + unfold bound in *. destruct (decide _); lia.
    + intros Hf _. by apply Z.eqb_neq in Hf.
    + pose proof (k_limit HK). destruct (decide (max_io c = 0)); [by left|]. right. destruct Hlim as [Hl|Hl]; [done|].
      destruct (decide (taken w = 0)) as [E|E]; [lia|]. specialize (Hmore E). lia.
    + intros Hf%Z.eqb_eq. right. lia.
    + intros _. unfold paced. unfold bound in Hb. destruct (mode c) eqn:Em.
      * rewrite decide_True in Hb by done. rewrite decide_False in R8 by done. unfold w'. rewrite decide_False by done. rewrite R7, R8. split; [done|]. left. split; [done|lia].
      * unfold w'. rewrite decide_True by done. rewrite decide_False in R8 by done.
        destruct (decide (maxQueueDepth c <= io_depth (gen w1))) as [Hd|Hd].
        -- destruct H2 as [-> ->]. left. rewrite R8. split; [done|]. split; [done|lia].
        -- destruct H2 as [-> (e & -> & _)]. right. rewrite R7. split; [done|]. split; [done|]. rewrite Hd1, R3 in Hd. lia.
      * rewrite decide_False in Hb by done. rewrite decide_True in R8 by done. unfold w'. rewrite decide_False by done. rewrite R7. split; [done|].
        rewrite R3 in R8. destruct (decide _).
        -- destruct R8. left. split; [done|]. split; [done|lia].
        -- destruct R8 as [? (e & -> & _)]. right. split; [done|]. split; [done|lia].
    + intros e He. apply Hevent in He as [He|He]; [done|]. rewrite R2. destruct (decide (mode c = MODE_STRICT)).
      * destruct (decide _); [destruct R8 as [_ R8]; congruence|]. destruct R8 as [_ (e' & R8 & Hle)]. congruence.
      * congruence.
    + assert ((vlen (driver w) + 1 =? 0) = false) as -> by (apply Z.eqb_neq; lia). by rewrite andb_false_r.
  - rewrite N3 in *. split; [|right; by rewrite Er, Ed]. constructor; rewrite ?Ed, ?Et, ?En, ?Ee, ?Ec, ?Er, ?N2, ?N5.
    + done.
    + lia.
    + done.
    + done.
    + intros _. by left.
    + done.
    + intros e He. apply Hevent in He as [He|He]; [done|congruence].
    + by rewrite N7.
Qed.

Lemma replay_reserved w : inv w -> reserveTermination (gen w) = true ->
  wpe noerr replay (fun _ w' => inv w' /\ taken w' = taken w /\ reserveTermination (gen w') = true) (set_event None w).
Proof.
  intros [Hh Hb Hmore Hlim Hr Hp Hev Hend] Hres. set (w0 := set_event None w).
  assert (held w0) as Hh0 by by apply held_event. pose proof (h_conf w0 Hh0) as Hc.
  unfold replay, handleNextLine. apply wpe_bind, wpe_bind, wpe_get. change (reserveTermination (gen w0)) with (reserveTermination (gen w)). rewrite Hres.
  apply wpe_ret, wpe_bind, wpe_get. cbv beta. rewrite Hc. apply wpe_when; intros Hm.
  - destruct (trace_reschedule w0 (submissionLatency c) Hc) as (w1 & Hr1 & HU & He & H1). apply wpe_noerr. exists tt, w1. split; [exact Hr1|].
    apply bool_decide_eq_true in Hm. rewrite Hm in H1. pose proof HU as [U1 U2 U3 U4].
    assert ((gen w1 = gen w0 \/ exists b, gen w1 = set_sync b (gen w0)) /\ forall e, submitEvent w1 = Some e -> now w <= e) as [Hg Hev1].
    { destruct (decide _); [destruct H1 as [-> ->]; split; [right; by eexists|done]|destruct H1 as (-> & e & -> & Hle); split; [by left|by intros ? [= <-]]]. }
    assert (taken w1 = taken w) as Et by (unfold taken; by rewrite U4).
    assert (reserveTermination (gen w1) = true) as Er by (by destruct Hg as [->|[b ->]]).
    split; [|done]. constructor; rewrite ?Et, ?Er, ?U1, ?U3, ?He; try done.
    + by eapply held_outcome.
    + intros _. specialize (Hr Hres). unfold to_come in *. rewrite Et. by destruct Hg as [->|[b ->]].
    + change (ended w = if true && (vlen (driver w) =? 0) then 1 else 0). by rewrite Hend, Hres.
  - split; [|done]. constructor; try done. change (reserveTermination (gen w0)) with (reserveTermination (gen w)). by rewrite Hres.
Qed.

(** The replayer after the callback of a request, [n] others being in flight. *)
Definition returned w (n : Z) (g : TraceReplayer) (ev : option Z) (en : Z) : Prop :=
  conf g = c /\ ssdSize g = size /\ io_count g = taken w /\ left_lines g = left_lines (gen w) /\ io_depth g = n /\
  reserveTermination g = reserveTermination (gen w) /\
  en = (if reserveTermination (gen w) && (n =? 0) then 1 else 0) /\
  (reserveTermination (gen w) = false -> paced g ev n) /\ (forall e, ev = Some e -> now w <= e).

(** The end of the callback. *)
Lemma callback_end b t w : conf (gen w) = c -> (mode c = MODE_ASYNC -> io_depth (gen w) < maxQueueDepth c) ->
  exists w', when b (upd_gen (set_sync false);; rescheduleSubmit t) w = Ok (tt, w') /\ untouched w w' /\ ended w' = ended w /\
    gen w' = (if b then set_sync false (gen w) else gen w) /\
    if b && negb (bool_decide (mode c = MODE_STRICT)) then exists e, submitEvent w' = Some e /\ now w <= e else submitEvent w' = submitEvent w.
Proof.
  intros Hc Hd. destruct b; cbn [when andb]; [|by exists w]. unfold upd_gen. rewrite modify_bind.
  destruct (trace_reschedule (set_gen (set_sync false (gen w)) w) t Hc) as (w' & Hr & [U1 U2 U3 U4] & He & H').
  exists w'. split; [exact Hr|]. split; [by constructor|]. split; [done|]. destruct (mode c).
  - rewrite bool_decide_eq_false_2 by done. by destruct H' as [-> H'].
  - rewrite bool_decide_eq_false_2 by done. rewrite decide_False in H' by (cbn; specialize (Hd eq_refl); lia). by destruct H' as [-> H'].
  - subst w'. by rewrite bool_decide_eq_true_2.
Qed.

Lemma trace_returned w k b id : inv w -> driver w !! k = Some b ->
  let w1 := called w k b in
  wpe noerr (iocallback id) (fun _ w' => untouched w1 w' /\ returned w (vlen (driver w) - 1) (gen w') (submitEvent w') (ended w')) w1.
Proof.
  intros [Hh Hb Hmore Hlim Hr Hp Hev Hend] Hk w1. pose proof Hh as [Ha Hc Hsz Hcnt Hids Hall Hok Hdep].
  assert (0 < vlen (driver w)) as Hv by (apply lookup_lt_Some in Hk; unfold vlen; lia). pose proof (k_depth HK) as Hq.
  assert (vlen (driver w) < 2 ^ 64) as Hvs by (unfold bound in Hb; destruct (decide _); lia).
  assert ((vlen (driver w) =? 0) = false) as E0 by (apply Z.eqb_neq; lia). rewrite E0, andb_false_r in Hend.
  set (n := vlen (driver w) - 1). set (g0 := set_depth n (gen w)). set (w2 := set_gen g0 w1).
  set (w3 := if reserveTermination (gen w) && (n =? 0) then mkFront (now w2) (gen w2) (submitEvent w2) (entry w2) (driver w2) (history w2) (ended w2 + 1) else w2).
  set (fire_backup := bool_decide (mode c = MODE_STRICT) && (n =? 0) && (if pBackup (gen w) then true else false)).
  set (w4 := if fire_backup then set_event (Fifo.at_tick (now w) (default 0 (pBackup (gen w)))) (set_gen (set_backup None g0) w3) else w3).
  destruct (callback_end (bool_decide (mode c = MODE_SYNC) || nextIOIsSync (gen w)) (u64 (submissionLatency c + completionLatency c)) w4) as (w5 & H5 & HU & He5 & Hg5 & Hv5).
  { unfold w4, w3. by destruct fire_backup, (_ && _). }
  { intros Em. assert (io_depth (gen w4) = n) as -> by (unfold w4, w3; by destruct fire_backup, (_ && _)).
    unfold bound in Hb. rewrite decide_False in Hb by congruence. lia. }
  assert (_iocallback w1 = Ok (tt, w5)) as Hrun.
  { unfold _iocallback, upd_gen. rewrite modify_bind, get_bind. cbv zeta. change (gen w1) with (gen w). rewrite Hdep, u64_small by lia.
    fold n g0 w2. change (gen w2) with g0. change (reserveTermination g0) with (reserveTermination (gen w)). change (io_depth g0) with n.
    change (conf g0) with (conf (gen w)). change (pBackup g0) with (pBackup (gen w)). change (nextIOIsSync g0) with (nextIOIsSync (gen w)). rewrite Hc.
    rewrite (bind_ok _ _ w2 tt w3); [|unfold w3; by destruct (_ && (n =? 0))]. rewrite (bind_ok _ _ w3 tt w4); [exact H5|].
    assert (now w3 = now w /\ gen w3 = g0) as [En Eg] by (unfold w3; by destruct (_ && (n =? 0))).
    unfold w4, fire_backup. destruct (pBackup (gen w)) as [t|]; [|by rewrite andb_false_r]. rewrite andb_true_r.
    destruct (bool_decide (mode c = MODE_STRICT) && (n =? 0)); [|done]. cbn [when]. rewrite modify_bind. rewrite Eg. cbn [default].
    unfold scheduleEvent, modify. cbn [set_gen now]. by rewrite En. }
  apply wpe_noerr. exists tt, w5. split; [exact Hrun|]. destruct HU as [U1 U2 U3 U4]. split.
  { assert (untouched w1 w4) as [V1 V2 V3 V4] by (unfold w4, w3; destruct fire_backup, (_ && (n =? 0)); by constructor).
    constructor; congruence. }
  assert (gen w4 = (if fire_backup then set_backup None g0 else g0) /\ ended w4 = (if reserveTermination (gen w) && (n =? 0) then 1 else 0) /\ now w4 = now w) as (Eg4 & Ee4 & En4).
  { unfold w4, w3. destruct fire_backup, (_ && (n =? 0)); cbn; (split; [done|split; [|done]]); change (ended w1) with (ended w); lia. }
  assert (if fire_backup then exists e, submitEvent w4 = Some e /\ now w <= e else submitEvent w4 = submitEvent w) as Ev4.
  { unfold w4. destruct fire_backup; [apply at_tick_after|]. unfold w3. by destruct (_ && (n =? 0)). }
  assert (gen w5 = set_backup (if fire_backup then None else pBackup (gen w)) (set_sync (negb (bool_decide (mode c = MODE_SYNC) || nextIOIsSync (gen w)) && nextIOIsSync (gen w)) g0)) as Eg5.
  { rewrite Hg5, Eg4. destruct (bool_decide _ || nextIOIsSync (gen w)) eqn:Eb, fire_backup; cbn; try done; unfold g0, set_backup, set_sync, set_depth; cbn; by destruct (gen w). }
  unfold returned. rewrite Eg5, He5, Ee4. repeat (split; [done|]). split.
  - intros Hres. specialize (Hp Hres). unfold paced in Hp |- *. cbn [set_backup set_sync nextIOIsSync pBackup]. unfold fire_backup in *.
    destruct (mode c) eqn:Em; cbn [bool_decide decide] in *.
    + destruct Hp as [Hs Hp]. rewrite Hs in *. cbn in *. split; [done|]. right. destruct Hp as [[_ Hp]|[_ Hp]]; [|lia]. destruct Hv5 as (e & -> & _). split; [done|lia].
    + cbn in *. destruct (nextIOIsSync (gen w)).
      * right. cbn in *. destruct Hv5 as (e & -> & _). split; [done|]. split; [done|]. unfold bound in Hb. rewrite decide_False in Hb by congruence. lia.
      * right. cbn in *. destruct Hp as [[? _]|(_ & Hp & ?)]; [done|]. rewrite Hv5, Ev4. split; [done|]. split; [done|lia].
    + destruct Hp as [Hs Hp]. rewrite Hs in *. cbn in *. split; [done|]. rewrite Hv5. destruct (pBackup (gen w)) as [t|].
      * destruct Hp as [(_ & Hp & _)|(? & _)]; [|done]. rewrite andb_true_r in *. destruct (Z.eqb_spec n 0) as [Hn0|Hn0].
        -- right. destruct Ev4 as (e & -> & _). split; [done|]. split; [done|lia].
        -- left. rewrite Ev4. split; [done|]. split; [done|lia].
      * rewrite andb_false_r in *. destruct Hp as [(? & _)|(_ & Hp & ?)]; [done|]. right. rewrite Ev4. split; [done|]. split; [done|lia].
  - intros e He. destruct (_ && negb _).
    + destruct Hv5 as (e' & Hv5 & Hle). rewrite En4 in Hle. congruence.
    + rewrite He in Hv5. destruct fire_backup; [destruct Ev4 as (e' & Ev4 & Hle); congruence|]. apply Hev. congruence.
Qed.

(** ** Runs *)

Lemma fired_ready w : inv w -> reserveTermination (gen w) = false -> submitEvent w <> None -> ready (set_event None w).
Proof.
  intros [Hh Hb Hmore Hlim Hr Hp Hev Hend] Hres Hne. specialize (Hp Hres). pose proof (k_depth HK).
  constructor; try done; cbn [set_event gen driver ended].
  - by apply held_event.
  - unfold bound in *. unfold paced in Hp. destruct (mode c) eqn:Em; [rewrite decide_True by done|rewrite decide_False by done|rewrite decide_False by done].
    + destruct Hp as [_ [[Hp _]|[_ Hp]]]; [done|]. lia.
    + destruct Hp as [(_ & Hp & _)|(_ & _ & Hp)]; [done|lia].
    + destruct Hp as [_ [(_ & Hp & _)|(_ & _ & Hp)]]; [done|lia].
  - by apply Hmore.
  - unfold paced in Hp. destruct (mode c); [apply Hp|destruct Hp as [(_ & ? & _)|(? & _)]; done|apply Hp].
  - intros Em. unfold paced in Hp. rewrite Em in Hp. by destruct Hp as [_ [(_ & ? & _)|(? & _)]].
  - by rewrite Hend, Hres.
Qed.

Lemma trace_step o w : inv w -> wpe noerr (step o) (fun _ w' => inv w') w.
Proof.
  intros Hi. destruct o as [|k|tick].
  - unfold step. wp_steps. destruct (submitEvent w) as [e|] eqn:He; [|by wp_steps]. destruct (e =? now w); wp_steps; [|done].
    change (@fire TraceReplayer _) with replay. destruct (reserveTermination (gen w)) eqn:Hres.
    + eapply wpe_mono; [by apply replay_reserved|]. by intros [] w' [? _].
    + eapply wpe_mono; [apply replay_ready, fired_ready; [done|done|by rewrite He]|]. by intros [] w' [? _].
  - destruct (driver w !! k) as [b|] eqn:Hk; [|unfold step; wp_steps; rewrite Hk; by wp_steps].
    pose proof Hi as [Hh Hb Hmore Hlim Hr Hp Hev Hend]. pose proof Hh as [Ha Hc Hsz Hcnt Hids Hall Hok Hdep].
    eapply wpe_mono; [apply (complete_step noerr w k b Ha Hk (returned w (vlen (driver w) - 1))); by apply trace_returned|].
    cbv beta. intros [] w' [[Hn Hd Hhist Ha'] (R1 & R2 & R3 & R4 & R5 & R6 & R7 & R8 & R9)].
    assert (taken w' = taken w) as Et by (unfold taken; by rewrite Hhist, accepted_Done).
    assert (to_come w' = to_come w) as Ec by (unfold to_come; by rewrite Et, R4).
    assert (vlen (driver w') = vlen (driver w) - 1) as Hv.
    { rewrite Hd. unfold vlen. rewrite length_delete by done. apply lookup_lt_Some in Hk. lia. }
    constructor; rewrite ?Et, ?Ec, ?Hv, ?Hn, ?R6; try done; [|lia].
    constructor; rewrite ?Et, ?Ec, ?Hv, ?R4; try done.
    + by rewrite Hhist, accepted_Done.
    + by rewrite Hhist, accepted_Done.
  - unfold step. wp_steps; [|done]. destruct Hi as [Hh Hb Hmore Hlim Hr Hp Hev Hend]. constructor; try done.
    + by apply held_now.
    + cbn [set_now submitEvent now]. intros e He. rewrite He in *. breflect. lia.
Qed.

Lemma trace_run g x tick f p ops : TraceReplayer_make c file x = Ok g ->
  wpe noerr (run ops) (fun _ w => inv w) (start tick (init size g) (BlockIOEntry_make f p)).
Proof.
  intros Hg. unfold TraceReplayer_make in Hg. destruct (configure c) as [c'|] eqn:Hcf; [|done]. cbn [mbind res_bind] in Hg.
  assert (c' = c) as ->. { unfold configure in Hcf. repeat (match type of Hcf with (if ?b then _ else _) = _ => destruct b end; [done|]). congruence. }
  injection Hg as <-. pose proof (k_depth HK) as Hq. pose proof (k_limit HK) as Hl.
  unfold run. cbn [begin TraceReplayer_generator]. unfold upd_gen. wp_steps. eapply wpe_mono; [apply replay_ready|].
  - constructor; try done.
    + constructor; try done.
      * apply (untouched_agrees (start tick (init size (mkTraceReplayer c 0 file false x (2 ^ 64 - 1) false false None 0 0 0 0 0)) (BlockIOEntry_make f p))); [by constructor|]. apply start_agrees.
      * exact (k_lines HK).
    + change (0 < bound). unfold bound. destruct (decide _); lia.
    + right. change (0 <= max_io c). lia.
  - cbv beta. intros [] w [Hi _]. unfold iterM. apply (wpe_foldM noerr (fun _ _ w => inv w)); [done|intros o l [] w' Hi'; by apply trace_step|by intros].
Qed.
End Replay.

(** C13: The trace is replayed.  For a queue depth of at least 1 and a file whose matched lines have all their time fields
    (a missing one panics) and end below 2^64 ([trace_ok]), in every timing mode and whatever the order in which the event
    fires, the driver completes requests and time passes: nothing fails; the requests submitted are the first ones of the
    file, in order; no more are at the driver than the queue depth (one in the synchronous mode); the end is signalled at
    most once, and only when all requests of the file up to the limit were submitted and completed; and when the driver
    holds none before the end, the event is pending, and when it fires the next request is submitted or the end is
    signalled.  When it fires is not bounded: in the asynchronous mode with latency 0 the clock need not move. *)
Theorem trace_replayed (c : Conf) (size tick x : Z) (content : string) (g : TraceReplayer) (f : bool) (p : Progress) (ops : list Op)
    (Hg : TraceReplayer_make c content x = Ok g) (HK : trace_ok c size content) :
  exists w, run ops (start tick (init size g) (BlockIOEntry_make f p)) = Ok (tt, w) /\
    let n := length (accepted (history w)) in
    accepted (history w) = take n (requests c size content) /\
    accepted (history w) ≡ₚ completed (history w) ++ driver w /\ vlen (driver w) <= bound c /\
    (ended w = 0 \/ (ended w = 1 /\ accepted (history w) = requests c size content /\ driver w = [])) /\
    (ended w = 0 -> driver w = [] -> exists e, submitEvent w = Some e /\ now w <= e /\
       exists w', step Fire (set_now e w) = Ok (tt, w') /\ (ended w' = 1 \/ length (accepted (history w')) = S n)).
Proof.
  pose proof (trace_run c size content HK g x tick f p ops Hg) as Hw. apply wpe_noerr in Hw as ([] & w & Hrun & Hi). exists w. split; [exact Hrun|].
  intros n. pose proof Hi as [Hh Hb Hmore Hlim Hr Hp Hev Hend]. pose proof Hh as [Ha _ _ _ _ Hall _ _]. pose proof (k_limit _ _ _ HK) as Hl.
  assert (accepted (history w) = take n (requests_from c size 0 (lines content))) as Hacc by (rewrite <- Hall; unfold n; by rewrite take_app_length).
  assert (max_io c = 0 \/ (n <= Z.to_nat (max_io c))%nat) as Hn by (destruct Hlim as [|Hlim]; [by left|right]; unfold taken, vlen in Hlim; unfold n; lia).
  assert (accepted (history w) = take n (requests c size content)) as Hacc'.
  { unfold requests. destruct (Z.eqb_spec (max_io c) 0); [exact Hacc|]. destruct Hn as [Hn|Hn]; [done|]. rewrite take_take, Nat.min_l by lia. exact Hacc. }
  split; [exact Hacc'|]. split; [apply Ha|]. split; [done|]. split.
  - rewrite Hend. destruct (reserveTermination (gen w)) eqn:Hres; [|by left]. cbn [andb].
    destruct (Z.eqb_spec (vlen (driver w)) 0) as [Hd|Hd]; [|by left]. right. split; [done|]. split; [|by destruct (driver w)].
    destruct (Hr eq_refl) as [Hc|[Hc Hz]].
    + rewrite Hc, app_nil_r in Hall. unfold requests. destruct (Z.eqb_spec (max_io c) 0); [done|]. destruct Hn as [Hn|Hn]; [done|].
      rewrite <- Hall. rewrite take_ge; [done|]. exact Hn.
    + rewrite Hacc at 1. unfold requests. destruct (Z.eqb_spec (max_io c) 0); [lia|]. f_equal. rewrite <- Hc. unfold taken, vlen, n. lia.
  - intros He Hd. assert (reserveTermination (gen w) = false) as Hres.
    { destruct (reserveTermination (gen w)); [|done]. rewrite Hd, He in Hend. discriminate Hend. }
    assert (exists e, submitEvent w = Some e) as [e Hse].
    { specialize (Hp Hres). unfold paced in Hp. rewrite Hd in Hp. destruct (submitEvent w) as [e|]; [by exists e|]. exfalso. unfold vlen in Hp. cbn in Hp.
      destruct (mode c); [destruct Hp as [_ [[_ ?]|[? _]]]|destruct Hp as [(_ & _ & ?)|(_ & ? & _)]|destruct Hp as [_ [(_ & _ & ?)|(_ & ? & _)]]]; done || lia. }
    exists e. split; [done|]. split; [by apply Hev|].
    assert (inv c size content (set_now e w)) as Hi'.
    { constructor; try done; [by apply held_now|]. intros e'. cbn. rewrite Hse. intros [= <-]. lia. }
    pose proof (replay_ready c size content HK _ (fired_ready c size content HK _ Hi' Hres ltac:(cbn; by rewrite Hse))) as Hrep.
    apply wpe_noerr in Hrep as ([] & w' & Hfire & Hi2 & Hout). exists w'. split.
    + unfold step. rewrite get_bind. cbn [set_now submitEvent now]. rewrite Hse, Z.eqb_refl, modify_bind. exact Hfire.
    + destruct Hout as [Ht|(_ & Hdr & Hres')].
      * right. unfold taken, vlen in Ht. cbn [set_event set_now history] in Ht. unfold n. lia.
      * left. rewrite (i_ended _ _ _ _ Hi2), Hres', Hdr. cbn [set_event set_now driver]. by rewrite Hd.
Qed.

(** ** An example: four words, the second of them the time *)

Module Example.
Fixpoint words (s : string) : list string :=
  match s with
  | EmptyString => [EmptyString]
  | String c s =>
      if Ascii.eqb c " " then EmptyString :: words s
      else match words s with l :: ls => String c l :: ls | [] => [] end
  end.
Definition parse (l : string) : option (list string) :=
  match words l with [a; b; c; d] => Some [l; a; b; c; d] | _ => None end.
Definition newline : string := String "010" EmptyString.
Definition content : string :=
  ("W 100 0 4096" ++ newline ++ "# comment" ++ newline ++ "R 250 8192 4096" ++ newline ++ "T 300 60000 9000" ++ newline)%string.
Definition c (m : TIMING_MODE) : Conf := mkConf parse m 10 5 2 0 1 3 4 0 0 [0; 0; 0; 0; 2] 0 false.
Definition ops : list Op := [Fire; Complete 0; Complete 0; Pass 150; Fire; Complete 0; Pass 200; Fire].

Definition ends (m : list string) : bool :=
  forallb (fun id => id <? vlen m) (ID_TIME (c MODE_SYNC)) && (offset_of (c MODE_SYNC) m + length_of (c MODE_SYNC) m <? 2 ^ 64).
Lemma c_ok m : trace_ok (c m) 65536 content.
Proof.
  constructor; [lia| |cbn; lia|cbn; lia|vm_compute; reflexivity].
  assert (forallb (fun l => match parse l with Some m => ends m | None => true end) (lines content) = true) as H by (vm_compute; reflexivity).
  rewrite forallb_forall in H. apply Forall_forall. intros l Hl m' Hm. apply list_elem_of_In in Hl. specialize (H l Hl).
  change (regex (c m) l) with (parse l) in Hm. rewrite Hm in H. unfold ends in H. apply andb_true_iff in H as [H1 H2]. apply Z.ltb_lt in H2. split; [|exact H2].
  rewrite forallb_forall in H1. apply Forall_forall. intros id Hid _. apply list_elem_of_In in Hid. apply Z.ltb_lt. by apply H1.
Qed.
End Example.

Lemma trace_replayed_witness : trace_ok (Example.c MODE_STRICT) 65536 Example.content /\
  exists g w, TraceReplayer_make (Example.c MODE_STRICT) Example.content 0 = Ok g /\
    run Example.ops (start 0 (init 65536 g) (BlockIOEntry_make true (mkProgress 0 0 0))) = Ok (tt, w) /\ ended w = 1 /\
    accepted (history w) = [mkBIO 1 BIO_WRITE 0 4096; mkBIO 2 BIO_READ 8192 4096; mkBIO 3 BIO_TRIM 60000 5536].
Proof.
  split; [apply Example.c_ok|]. destruct (TraceReplayer_make (Example.c MODE_STRICT) Example.content 0) as [g|] eqn:Hg; [|vm_compute in Hg; done].
  destruct (trace_replayed (Example.c MODE_STRICT) 65536 0 0 Example.content g true (mkProgress 0 0 0) Example.ops Hg (Example.c_ok _)) as (w & Hrun & _).
  exists g, w. split; [done|]. split; [exact Hrun|]. unfold TraceReplayer_make in Hg. vm_compute in Hg. injection Hg as <-. vm_compute in Hrun. injection Hrun as <-.
  split; vm_compute; reflexivity.
Defined.
