(* ===== verification/None.v ===== *)
(** * sil/none/none.cc: the driver without a protocol

    It passes block requests to the host interface layer as they are. *)

From S2P Require Import Prelude Algorithm Bitset Float32 Types PmState Icl Hil.

(** [init] and [getInfo]: the capacity in bytes, and the least block size. *)
Definition getInfo (q : IclParam) : Z * Z := (u64 (totalLogicalPages q * logicalPageSize q), 512).

(** The request that is made of a [BIO]; its function calls the callback with the id. *)
Definition request_of (q : IclParam) (bio : BIO) : res HilRequest :=
  if logicalPageSize q =? 0 then Err UB
  else
    Ok (mkHilRequest (bio_id bio) 0 (bio_offset bio mod logicalPageSize q) (bio_length bio)
          (mkLPNRange (bio_offset bio / logicalPageSize q) (Algorithm.DIVCEIL64 (bio_length bio) (logicalPageSize q)))
          0 (bio_id bio)).

Definition operation (t : BIO_TYPE) : option HilOp :=
  match t with
  | BIO_READ => Some HilRead | BIO_WRITE => Some HilWrite | BIO_FLUSH => Some HilFlush | BIO_TRIM => Some HilTrim
  | BIO_NUM => None
  end.

(** [submitIO]; a request of an unknown type is dropped. *)
Definition submitIO {C : Type} (q : IclParam) (bio : BIO) : M (Hil.t C) unit :=
  r ← lift (request_of q bio);
  match operation (bio_type bio) with
  | Some op => Hil.submit op r
  | None => mret tt
  end.

(** The bytes of the pages a request names, from the place it begins at. *)
Definition covered (q : IclParam) (r : HilRequest) : Z := nlp (hil_range r) * logicalPageSize q - hil_offset r.

(** A request reaches the layer with its operation, its callback and the page and the place in it where it begins.  The pages
    it names hold all of its bytes when it begins with a page; when it does not, they are short exactly when its last page is
    one more than its length alone takes. *)
Lemma submitIO_request {C : Type} (q : IclParam) (bio : BIO) (op : HilOp) (s : Hil.t C) :
  0 < logicalPageSize q -> 0 <= bio_offset bio -> 0 < bio_length bio < 2 ^ 64 -> operation (bio_type bio) = Some op ->
  exists r, submitIO q bio s = Ok (tt, set_jobs (jobs s ++ [(op, r)]) s) /\
    hil_function r = bio_id bio /\ hil_length r = bio_length bio /\
    slpn (hil_range r) * logicalPageSize q + hil_offset r = bio_offset bio /\
    (bio_offset bio mod logicalPageSize q = 0 -> bio_length bio <= covered q r < bio_length bio + logicalPageSize q) /\
    (covered q r < bio_length bio <->
       (bio_offset bio + bio_length bio - 1) / logicalPageSize q <> slpn (hil_range r) + nlp (hil_range r) - 1).
Proof.
  intros Hp Ho Hl Hop. unfold submitIO, request_of. destruct (Z.eqb_spec (logicalPageSize q) 0); [lia|].
  eexists. rewrite (bind_ok _ _ s _ s) by reflexivity. rewrite Hop. split; [reflexivity|]. split; [done|]. split; [done|].
  set (P := logicalPageSize q) in *. set (O := bio_offset bio) in *. set (L := bio_length bio) in *.
  unfold covered. cbn [hil_range hil_offset slpn nlp]. fold P.
  assert (Algorithm.DIVCEIL64 L P = (L - 1) / P + 1) as ->.
  { unfold Algorithm.DIVCEIL64. rewrite (u64_small (L - 1)) by lia. pose proof (Z.div_pos (L - 1) P ltac:(lia) Hp).
    assert ((L - 1) / P <= L - 1) by (apply Z.div_le_upper_bound; nia). rewrite u64_small by lia. done. }
  pose proof (Z.div_mod O P ltac:(lia)) as HO. pose proof (Z.mod_pos_bound O P Hp) as HOm.
  pose proof (Z.div_mod (L - 1) P ltac:(lia)) as HL. pose proof (Z.mod_pos_bound (L - 1) P Hp) as HLm.
  pose proof (Z.div_mod (O + L - 1) P ltac:(lia)) as HE. pose proof (Z.mod_pos_bound (O + L - 1) P Hp) as HEm.
  split; [lia|]. split; [intros Hz; nia|].
  set (a := O / P) in *. set (b := (L - 1) / P) in *. set (e := (O + L - 1) / P) in *.
  assert (e = a + b \/ e = a + b + 1) as Hc by nia. split; [intros Hlt He; nia|]. intros He. destruct Hc as [Hc|Hc]; [lia|nia].
Qed.

Lemma submitIO_unknown {C : Type} (q : IclParam) (bio : BIO) (s : Hil.t C) :
  0 < logicalPageSize q -> bio_type bio = BIO_NUM -> submitIO q bio s = Ok (tt, s).
Proof.
  intros Hp Ht. unfold submitIO, request_of. destruct (Z.eqb_spec (logicalPageSize q) 0); [lia|]. rewrite (bind_ok _ _ s _ s) by reflexivity. by rewrite Ht.
Qed.
