(* ===== verification/Dram.v ===== *)
(** * dram/simple.cc: the DRAM of the controller

    [SimpleDRAM] serves one access after another, each for the time of its pages;
    a periodic refresh holds it up.  The power model is a library: the commands it
    is given are kept as a list. *)

From S2P Require Import Prelude Algorithm Float32 Types.

(** ** Data *)

(** [Config::DRAMStructure] and [Config::DRAMTiming], the members that are used. *)
Record DRAMStructure : Type := mkStructure {
  channel : Z; rank : Z; bank : Z; chip : Z; busWidth : Z; burstLength : Z; useDLL : bool; pageSize : Z;
}.
Record DRAMTiming : Type := mkTiming {
  tCK : Z; tRCD : Z; tCL : Z; tRP : Z; tRAS : Z; tWR : Z; tRTP : Z; tBURST : Z; tRFC : Z;
  tXP : Z; tXPDLL : Z; tXS : Z; tXSDLL : Z;
}.

(** [Data::MemArchSpec] and [Data::MemTimingSpec] of the power model, the members that are computed, with the values
    assigned to them. *)
Record MemArchSpec : Type := mkArch {
  a_burstLength : Z; nbrOfBanks : Z; nbrOfRanks : Z; dataRate : Z; width : Z; dll : bool;
}.
Record MemTimingSpec : Type := mkTimingSpec {
  RC : Z; RCD : Z; RL : Z; RP : Z; RFC : Z; RAS : Z; WL : Z; RTP : Z; WR : Z; XP : Z; XPDLL : Z; XS : Z; XSDLL : Z;
}.

(** [convertMemspec], without the currents and the constants.  Its check of the clock period comes after the divisions
    by it. *)
Definition convertMemspec (p : DRAMStructure) (m : DRAMTiming) : res (MemArchSpec * MemTimingSpec) :=
  let cycles x := if tCK m =? 0 then Err UB else Ok (Algorithm.DIVCEIL32 x (tCK m)) in
  burstCycle ← cycles (tBURST m);
  if burstCycle =? 0 then Err UB
  else
    let rate := u8 (burstLength p / burstCycle) in
    if negb ((rate =? 1) || (rate =? 2) || (rate =? 4)) then panic "Invalid DRAM data rate"
    else
      rc ← cycles (u32 (tRAS m + tRP m)); rcd ← cycles (tRCD m); rl ← cycles (tCL m); rp ← cycles (tRP m);
      rfc ← cycles (tRFC m); ras ← cycles (tRAS m); rtp ← cycles (tRTP m); wr ← cycles (tWR m);
      xp ← cycles (tXP m); xpdll ← cycles (tXPDLL m); xs ← cycles (tXS m); xsdll ← cycles (tXSDLL m);
      Ok (mkArch (burstLength p) (bank p) (rank p) rate (busWidth p) (useDLL p),
          mkTimingSpec rc rcd rl rp rfc ras (rl - 1) rtp wr xp xpdll xs xsdll).

(** The commands for the power model, with their cycle. *)
Inductive MemCommand : Type := ACT | RD | WRITE_ | PRE | REF.

(** [Stat] *)
Record Stat : Type := mkStat { count : Z; st_size : Z }.

(** [SimpleDRAM] with the constants of its constructor; [autoRefresh] is the tick its event
    is scheduled for. *)
Record t : Type := mk {
  structure : DRAMStructure; timing : DRAMTiming; spec : MemTimingSpec;
  pageFetchLatency : Z; interfaceBandwidth : spec_float;
  lastDRAMAccess : Z; ignoreScheduling : bool; autoRefresh : Z;
  commands : list (MemCommand * Z); readStat : Stat; writeStat : Stat;
}.
Definition set_last (v : Z) (s : t) : t :=
  mk (structure s) (timing s) (spec s) (pageFetchLatency s) (interfaceBandwidth s) v (ignoreScheduling s) (autoRefresh s)
    (commands s) (readStat s) (writeStat s).
Definition set_ignore (v : bool) (s : t) : t :=
  mk (structure s) (timing s) (spec s) (pageFetchLatency s) (interfaceBandwidth s) (lastDRAMAccess s) v (autoRefresh s)
    (commands s) (readStat s) (writeStat s).
Definition set_refresh (v : Z) (s : t) : t :=
  mk (structure s) (timing s) (spec s) (pageFetchLatency s) (interfaceBandwidth s) (lastDRAMAccess s) (ignoreScheduling s) v
    (commands s) (readStat s) (writeStat s).
Definition add_commands (l : list (MemCommand * Z)) (s : t) : t :=
  mk (structure s) (timing s) (spec s) (pageFetchLatency s) (interfaceBandwidth s) (lastDRAMAccess s) (ignoreScheduling s)
    (autoRefresh s) (commands s ++ l) (readStat s) (writeStat s).
Definition set_stats (r w : Stat) (s : t) : t :=
  mk (structure s) (timing s) (spec s) (pageFetchLatency s) (interfaceBandwidth s) (lastDRAMAccess s) (ignoreScheduling s)
    (autoRefresh s) (commands s) r w.

(** ** Operations *)

Definition REFRESH_PERIOD : Z := 64000000000.

(** [2.0 * busWidth * chip * channel / 8.0 / tCK] *)
Definition bandwidth (p : DRAMStructure) (m : DRAMTiming) : spec_float :=
  let n := f64_mul (f64_mul (f64_mul (f64_of_Z 2) (f64_of_Z (busWidth p))) (f64_of_Z (chip p))) (f64_of_Z (channel p)) in
  f64_div (f64_div n (f64_of_Z 8)) (f64_of_Z (tCK m)).

(** The constructor, at the tick it runs. *)
Definition SimpleDRAM (p : DRAMStructure) (m : DRAMTiming) (now : Z) : res t :=
  '(_, sp) ← convertMemspec p m;
  Ok (mk p m sp (u32 (tRP m + tRAS m)) (bandwidth p m) 0 false (u64 (now + REFRESH_PERIOD)) [] (mkStat 0 0) (mkStat 0 0)).

(** The event of [autoRefresh]. *)
Definition refresh (now : Z) (s : t) : t :=
  let s := add_commands [(REF, now / tCK (timing s))] s in
  let s := set_last (Z.max (lastDRAMAccess s) (u64 (now + tRFC (timing s)))) s in
  set_refresh (u64 (now + REFRESH_PERIOD)) s.

(** [updateDelay]: when the access begins, and the tick as it is left. *)
Definition updateDelay (latency tick : Z) (s : t) : Z * Z * t :=
  if 0 <? tick then
    if ignoreScheduling s then (tick, u64 (tick + latency), s)
    else if lastDRAMAccess s <=? tick then
      let e := u64 (tick + latency) in (tick, e, set_last e s)
    else
      let e := u64 (lastDRAMAccess s + latency) in (lastDRAMAccess s, e, set_last e s)
  else (tick, tick, s).

Definition page_count (s : t) (size : Z) : res Z :=
  if 0 <? size then if pageSize (structure s) =? 0 then Err UB else Ok ((size - 1) / pageSize (structure s) + 1) else Ok 0.
(** The time of that many pages, a product of doubles cut to an integer. *)
Definition latency_of (s : t) (pageCount : Z) : res Z :=
  f32_to_u64 (f64_mul (f64_of_Z pageCount)
    (f64_add (f64_of_Z (pageFetchLatency s)) (f64_div (f64_of_Z (pageSize (structure s))) (interfaceBandwidth s)))).

(** The commands of an access that begins at a cycle. *)
Definition access_commands (s : t) (write : bool) (pageCount cycle : Z) : list (MemCommand * Z) :=
  let rcd := RCD (spec s) in
  (ACT, cycle) ::
  ((fun i => (if write then WRITE_ else RD, u64 (cycle + (i + 1) * rcd))) <$> seqZ 0 pageCount) ++
  [(PRE, u64 (cycle + (pageCount - 1) * rcd + RAS (spec s)))].

(** [read] and [write]. *)
Definition access (write : bool) (size tick : Z) (s : t) : res (Z * t) :=
  pageCount ← page_count s size;
  latency ← latency_of s pageCount;
  let '(beginAt, tick, s) := updateDelay latency tick s in
  if tCK (timing s) =? 0 then Err UB
  else
    let s := add_commands (access_commands s write pageCount (beginAt / tCK (timing s))) s in
    let bump (x : Stat) := mkStat (u64 (count x + 1)) (u64 (st_size x + size)) in
    Ok (tick, if write then set_stats (readStat s) (bump (writeStat s)) s else set_stats (bump (readStat s)) (writeStat s) s).
Definition read : Z -> Z -> t -> res (Z * t) := access false.
Definition write : Z -> Z -> t -> res (Z * t) := access true.
Definition setScheduling (enable : bool) (s : t) : t := set_ignore (negb enable) s.
Definition isScheduling (s : t) : bool := negb (ignoreScheduling s).

(** [resetStatValues]; the energies are the power model's. *)
Definition resetStatValues (s : t) : t := set_stats (mkStat 0 0) (mkStat 0 0) s.

(** ** A server with one queue *)

(** What happens: an access, or the refresh. *)
Inductive Event : Type := Access (write : bool) (size tick : Z) | Refresh (now : Z).

(** A run, with the ticks the accesses return. *)
Fixpoint run (l : list Event) (s : t) : res (list Z * t) :=
  match l with
  | [] => Ok ([], s)
  | Access w size tick :: l =>
      '(tick', s) ← access w size tick s; '(r, s) ← run l s; Ok (tick' :: r, s)
  | Refresh now :: l => run l (refresh now s)
  end.

(** The reference: a server that is busy until a tick, with the times the accesses take. *)
Fixpoint serve (tRFC : Z) (time : Z -> Z) (busy : Z) (l : list Event) : list Z * Z :=
  match l with
  | [] => ([], busy)
  | Access _ size tick :: l =>
      let e := Z.max busy tick + time size in let '(r, b) := serve tRFC time e l in (e :: r, b)
  | Refresh now :: l => serve tRFC time (Z.max busy (now + tRFC)) l
  end.
Definition time_of (s : t) (size : Z) : Z :=
  match page_count s size with Ok n => match latency_of s n with Ok l => l | Err _ => 0 end | Err _ => 0 end.

(** The times are defined, and the ticks are positive. *)
Definition event_ok (s : t) (e : Event) : Prop :=
  match e with
  | Access _ size tick => 0 < tick /\ 0 <= time_of s size /\ exists n, page_count s size = Ok n /\ latency_of s n = Ok (time_of s size)
  | Refresh now => 0 <= now
  end.

Lemma updateDelay_max latency tick s : 0 < tick -> ignoreScheduling s = false -> 0 <= latency ->
  Z.max (lastDRAMAccess s) tick + latency < 2 ^ 64 ->
  let begin := Z.max (lastDRAMAccess s) tick in
  updateDelay latency tick s = (begin, begin + latency, set_last (begin + latency) s).
Proof.
  intros Ht Hi Hl Hb. unfold updateDelay. rewrite (proj2 (Z.ltb_lt 0 tick)), Hi by done.
  destruct (Z.leb_spec (lastDRAMAccess s) tick) as [Hle|Hgt]; rewrite u64_small by lia.
  - by rewrite Z.max_r by lia.
  - by rewrite Z.max_l by lia.
Qed.

(** An access is served behind everything before it and not before its tick, and it takes its
    time; the tick does not go back.  With scheduling off, or at tick 0, nothing is booked, and
    at tick 0 it takes no time either. *)
Theorem access_served w size tick s n l : page_count s size = Ok n -> latency_of s n = Ok l -> tCK (timing s) <> 0 ->
  0 <= tick -> 0 <= l -> 0 <= lastDRAMAccess s -> Z.max (lastDRAMAccess s) tick + l < 2 ^ 64 ->
  exists tick' s', access w size tick s = Ok (tick', s') /\ tick <= tick' /\
    (if 0 <? tick then
       if ignoreScheduling s then tick' = tick + l /\ lastDRAMAccess s' = lastDRAMAccess s
       else tick' = Z.max (lastDRAMAccess s) tick + l /\ lastDRAMAccess s' = tick'
     else tick' = tick /\ lastDRAMAccess s' = lastDRAMAccess s) /\
    ignoreScheduling s' = ignoreScheduling s /\ timing s' = timing s /\ structure s' = structure s /\
    pageFetchLatency s' = pageFetchLatency s /\ interfaceBandwidth s' = interfaceBandwidth s.
Proof.
  intros Hn Hl Hck Ht Hl0 Hlast Hb. unfold access. rewrite Hn. cbn [mbind res_bind]. rewrite Hl. cbn [mbind res_bind].
  destruct (Z.ltb_spec 0 tick) as [Hpos|Hzero].
  - destruct (ignoreScheduling s) eqn:Hi.
    + unfold updateDelay. rewrite (proj2 (Z.ltb_lt 0 tick)), Hi by done. rewrite (proj2 (Z.eqb_neq (tCK (timing s)) 0)) by done.
      eexists _, _. split; [reflexivity|]. rewrite u64_small by lia. destruct w; cbn; split_and!; try done; lia.
    + rewrite updateDelay_max by done. cbn [timing set_last]. rewrite (proj2 (Z.eqb_neq (tCK (timing s)) 0)) by done.
      eexists _, _. split; [reflexivity|]. destruct w; cbn; split_and!; try done; lia.
  - unfold updateDelay. rewrite (proj2 (Z.ltb_ge 0 tick)) by done. rewrite (proj2 (Z.eqb_neq (tCK (timing s)) 0)) by done.
    eexists _, _. split; [reflexivity|]. destruct w; cbn; split_and!; try done; lia.
Qed.

Lemma serve_grows tRFC time busy l : 0 <= tRFC -> (forall w n k, Access w n k ∈ l -> 0 <= time n) ->
  busy <= (serve tRFC time busy l).2.
Proof.
  intros Hr. revert busy. induction l as [|[w n k|k] l IH]; intros busy Ht; simpl; [lia | |].
  - specialize (IH (Z.max busy k + time n)). specialize (Ht w n k ltac:(by left)) as Hn.
    assert (forall w n k, Access w n k ∈ l -> 0 <= time n) as Htl by (intros; eapply Ht; by right).
    specialize (IH Htl). destruct (serve _ _ _ l). simpl in *. lia.
  - specialize (IH (Z.max busy (k + tRFC))). assert (forall w n k, Access w n k ∈ l -> 0 <= time n) as Htl by (intros; eapply Ht; by right).
    specialize (IH Htl). lia.
Qed.

Lemma same_times s s' size : structure s' = structure s -> pageFetchLatency s' = pageFetchLatency s ->
  interfaceBandwidth s' = interfaceBandwidth s -> time_of s' size = time_of s size /\
  page_count s' size = page_count s size /\ (forall n, latency_of s' n = latency_of s n).
Proof. intros H1 H2 H3. unfold time_of, page_count, latency_of. by rewrite H1, H2, H3. Qed.

Lemma event_ok_same s s' e : structure s' = structure s -> pageFetchLatency s' = pageFetchLatency s ->
  interfaceBandwidth s' = interfaceBandwidth s -> event_ok s e -> event_ok s' e.
Proof.
  intros H1 H2 H3. destruct e as [w n k|k]; [|done]. intros (Hk & Ht & m & Hm & Hl).
  destruct (same_times s s' n H1 H2 H3) as (E1 & E2 & E3). cbn. rewrite E1, E2. split_and!; try done. exists m. by rewrite E3.
Qed.

(** The DRAM is a server with one queue: over any accesses and refreshes, with scheduling on and as long as the ticks do not
    wrap, the ticks returned are those of the server, and it is busy as long. *)
Theorem dram_serves_in_order l s busy : ignoreScheduling s = false -> tCK (timing s) <> 0 -> 0 <= tRFC (timing s) ->
  lastDRAMAccess s = busy -> 0 <= busy -> Forall (event_ok s) l ->
  (serve (tRFC (timing s)) (time_of s) busy l).2 < 2 ^ 64 ->
  exists s', run l s = Ok ((serve (tRFC (timing s)) (time_of s) busy l).1, s') /\
    lastDRAMAccess s' = (serve (tRFC (timing s)) (time_of s) busy l).2.
Proof.
  revert s busy. induction l as [|e l IH]; intros s busy Hi Hck Hrfc Hb Hb0 Hev Hfit; [by exists s|].
  apply Forall_cons in Hev as [He Hev].
  assert (forall w n k, Access w n k ∈ l -> 0 <= time_of s n) as Htimes.
  { intros w n k Hin. rewrite Forall_forall in Hev. by destruct (Hev _ Hin) as (_ & ? & _). }
  destruct e as [w size tick|now]; simpl in Hfit |- *.
  - destruct He as (Ht & Hl0 & n & Hn & Hl). pose proof (serve_grows (tRFC (timing s)) (time_of s) (Z.max busy tick + time_of s size) l Hrfc Htimes) as Hg.
    destruct (serve (tRFC (timing s)) (time_of s) (Z.max busy tick + time_of s size) l) as [r b] eqn:Es. simpl in Hfit, Hg |- *.
    destruct (access_served w size tick s n (time_of s size)) as (tick' & s1 & Hrun & _ & Hcase & Hi1 & Htm & Hst & Hp & Hbw); try done; try lia.
    rewrite (proj2 (Z.ltb_lt 0 tick)), Hi in Hcase by done. destruct Hcase as [Htick Hlast].
    assert (serve (tRFC (timing s1)) (time_of s1) tick' l = (r, b)) as E.
    { rewrite <- Es, Htick, Hb, Htm. unfold time_of, page_count, latency_of. by rewrite Hst, Hp, Hbw. }
    specialize (IH s1 tick'). rewrite E, Hi1, Htm in IH. destruct IH as (s' & Hrun' & Hlast'); try done; try lia.
    + eapply List.Forall_impl; [|exact Hev]. intros e. by apply event_ok_same.
    + exists s'. rewrite Hrun. cbn [mbind res_bind]. rewrite Hrun'. by rewrite Hlast', Htick, Hb.
  - pose proof (serve_grows (tRFC (timing s)) (time_of s) (Z.max busy (now + tRFC (timing s))) l Hrfc Htimes) as Hg. cbn in He.
    apply (IH (refresh now s)); try done; cbn.
    + rewrite Hb, u64_small by lia. done.
    + lia.
Qed.

(** ** An example *)

Definition small_structure : DRAMStructure := mkStructure 1 1 8 1 32 8 true 4096.
Definition small_timing : DRAMTiming := mkTiming 1250 13750 13750 13750 35000 15000 7500 5000 260000 6000 24000 270000 640000.
Definition small_dram : t := match SimpleDRAM small_structure small_timing 0 with Ok s => s | Err _ => mk small_structure small_timing (mkTimingSpec 0 0 0 0 0 0 0 0 0 0 0 0 0) 0 S754_nan 0 false 0 [] (mkStat 0 0) (mkStat 0 0) end.

Definition small_events : list Event := [Access false 4096 1000; Refresh 2000; Access true 6000 1500].
Lemma small_events_ok : Forall (event_ok small_dram) small_events.
Proof.
  apply Forall_cons; split; [|apply Forall_cons; split; [by vm_compute | apply Forall_cons; split; [|constructor]]].
  - split; [reflexivity | split; [vm_compute; discriminate | exists 1; split; vm_compute; reflexivity]].
  - split; [reflexivity | split; [vm_compute; discriminate | exists 2; split; vm_compute; reflexivity]].
Qed.

Lemma dram_serves_in_order_witness : exists s', run small_events small_dram = Ok ((serve 260000 (time_of small_dram) 0 small_events).1, s').
Proof.
  assert (timing small_dram = small_timing) as Ht by (vm_compute; reflexivity).
  assert ((serve (tRFC (timing small_dram)) (time_of small_dram) 0 small_events).2 < 2 ^ 64) as Hb by (vm_compute; reflexivity).
  assert (ignoreScheduling small_dram = false /\ lastDRAMAccess small_dram = 0) as [Hi Hl] by (split; vm_compute; reflexivity).
  destruct (dram_serves_in_order small_events small_dram 0) as (s' & Hrun & _);
    [exact Hi | rewrite Ht; discriminate | rewrite Ht; discriminate | exact Hl | reflexivity | exact small_events_ok | exact Hb |].
  exists s'. rewrite Ht in Hrun. exact Hrun.
Defined.
